(* ===== verification/_CoqProject ===== *)
-Q . S2P
Prelude.v
Text.v
Paths.v
ShellLexer.v
ShellLexerFacts.v
Shell.v
ShellFacts.v
PermissionRule.v
PermissionRuleFacts.v
PermissionPolicy.v
PermissionPolicyFacts.v
Planning.v
PlanningFacts.v
Goal.v
GoalLog.v
GoalPlanFacts.v
GoalMachine.v
GoalScenario.v
GoalLogFacts.v
GoalFacade.v
GoalCommit.v
GoalFacadeFacts.v
GoalTickFacts.v
GoalCloseout.v
Verification.v
VerificationFacts.v
Effects.v
Ledger.v
LedgerFacts.v
DigestFacts.v
Receipts.v
Evidence.v
Recovery.v
ReceiptFacts.v
SettlementFacts.v
CursorFacts.v
EvidenceFacts.v
StepProof.v
Porcelain.v
PorcelainFacts.v
ObservationFacts.v
WriteClaims.v
WriteClaimsFacts.v
Interactive.v
InteractiveFacts.v
EffectScenario.v
ObservationScenario.v
Scheduler.v
SchedulerFacts.v
SchedulerSystem.v
SchedulerSystemFacts.v
SchedulerScenario.v
Hooks.v
RunControl.v
RunControlFacts.v
RunControlSystem.v
RunControlSystemFacts.v
RunControlScenario.v
LineEdit.v
LineEditFacts.v
Patch.v
PatchFacts.v
PatchDiff.v
Programs.v
Workspace.v
WorkspaceFacts.v
FileTools.v
FileToolsFacts.v
FileToolsScenario.v
Confirmation.v
ConfirmationFacts.v
ConfirmationDelegation.v
ToolGate.v
ToolGateFacts.v
ToolGateScenario.v
