(* ===== verification/Prelude.v ===== *)
(** * A verification of the A3S Code agent core

    A3S Code ([src/core/src]) is the core of a coding agent: a model proposes
    tool calls, a permission layer, hooks and the host decide which of them run, and a session can
    work towards a durable goal whose plan, waits, runs and closeouts are facts
    of an append-only log. What tools did to the workspace is recorded as receipts
    on the same log; a ledger of observed mutations and a completion gate decide
    when a run may claim success. This library models these parts, which carry the
    safety and the durability of the system, and proves what makes them correct.

    ** The permission layer ([permissions/])

    A tool call is a name and JSON arguments. Shell commands are tokenized
    ([permissions/shell/lexer.rs]), split into simple commands and classified
    by what they can do ([permissions/shell.rs]); rules of the form Tool or
    Tool(pattern) match calls ([permissions/rule.rs], with [tool_name.rs] and
    [read_batch.rs]); a policy of deny, allow and ask rules, lanes and an
    enforcement mode decides ([permissions/policy.rs]), specialty styles are
    fixed policies ([style_specialty.rs]), and a manager keeps one policy per
    session ([manager.rs]).

    - [ShellLexer] models the tokenizer: [Lexer] is the Rust struct, its methods
      are state-passing functions of the [Res] monad, every [while] loop is a
      fuelled iteration of one step. [ShellLexerFacts] gives a weakest
      precondition for that monad and shows that the tokenizer returns on every
      plain source (one whose white space is space, tab, CR and LF).
    - [Shell] models the classifier; [ShellFacts] shows that it returns on
      every plain line, that nesting stops at MAX_DEPTH, that its verdict
      bounds the risk of every command, that a ReadOnly verdict excludes every
      listed way to write a file or run another program ([writes_or_runs]), and
      the lines on which the code does not do what its documentation says.
    - [PermissionRule] models rules, globs and their compilation to regular
      expressions; the regex engine is a parameter with its documented
      behaviour as a hypothesis, met by a small engine that is executed in the
      witnesses. [PermissionRuleFacts] relates globs to a declarative reading.
    - [PermissionPolicy] models policies, styles and the manager, with the
      PermissionChecker trait as the class of the same name;
      [PermissionPolicyFacts] shows that deny rules and the catastrophic floor
      win under every policy, what each kind of grant covers, and what the
      manager and the styles do differently.
    - [Interactive] models the guardrail of interactive hosts ([permissions/risk.rs],
      [interactive.rs], [interactive/assessment.rs]), a second instance of
      PermissionChecker: every call gets a risk level, the approval mode turns it
      into an action. [InteractiveFacts]: the paths of approved calls stay in the
      workspace and, as far as the check looks, cross no symlink, plan mode only observes, the denial floor holds in every
      mode, a batch is decided as its strictest member.

    ** Plans and durable goals ([planning/], [goal_control/])

    A plan is a list of tasks with dependencies; a goal is a definition bound to
    a session, a workspace and a work policy. Everything that happens to a goal
    is a fact of the session's log; the current definition is a fold of the log
    that validates each fact again ([goal_control/facts.rs] and one file per
    kind of fact in [goal_control/facts/]). The [prepare_*] operations check a
    command against the fold and return the fact to append, and
    [agent_api/goal_facade.rs] appends it.

    - [Planning] and [PlanningFacts]: task statuses, readiness, plan identity;
      status notifications can be delivered again in any order.
    - [Goal] and [GoalPlanFacts]: vocabularies, commands, bindings, validation,
      continuation bounds; plan validation accepts exactly the acyclic plans.
    - [GoalLog]: facts, payloads, every fold and every [prepare_*] operation,
      and the tick preview.
    - [GoalMachine]: the abstract specification, a step relation on goal
      definitions with its invariants by rule induction.
    - [GoalScenario]: one goal from creation to completion, built by the code's
      own operations; the theorems are exercised on it.
    - [GoalLogFacts]: the fold refines the machine, so every accepted log
      satisfies the machine's invariants; growth, completion, ready steps.
    - [GoalFacade], [GoalCommit], [GoalFacadeFacts]: a command's answer is what
      the log reads back, and recorded commands are exactly-once, proved against the
      [LogContract] class that states what a log promises.
    - [GoalTickFacts]: an Advance preview is one the writer admits; host bounds
      on automatic work hold of every accepted log.
    - [GoalCloseout]: prepared settlements and completions are accepted.

    ** Evidence, effects and recovery ([harness_loop.rs], [verification.rs],
    [external_observation.rs], [fact_control/])

    A tool call is prepared, executed and answered by a receipt with the file
    identities it changed and the operations it left open. The ledger folds
    receipts into records and a digest; verification reports bind to that digest;
    the completion gate compares them. The log is the source of truth: a recovering
    session folds it again, and a goal step is accepted only on the receipts of
    its own run.

    - [Verification], [VerificationFacts]: checks, reports, summaries, workspace
      presets, acceptance criteria, existence checks, contracts, the
      read-only verifier; the path of a criterion survives its shell command.
    - [Effects]: the records of the log crate as this code builds and reads them,
      and the class [EffectEnv] of what it asks of that crate and of hashing.
    - [Ledger], [LedgerFacts], [DigestFacts]: the mutation ledger, the registry of
      background children and the gate. [ledger_run] is the closure of every
      operation on a ledger; the gate allows success exactly when nothing is
      uncertain and the closure is earned, uncertainty is never argued away, a
      ledger fed by receipts refines a finite map, and the hashed bytes identify
      that map.
    - [Receipts], [Evidence], [Recovery]: the fold of the log into a debt (open
      paths, unresolved invocations, evidence), turn markers, the evidence of a goal
      step, the cursor that proves a cached ledger, replay and checkpoint recovery.
    - [ReceiptFacts], [SettlementFacts], [CursorFacts], [EvidenceFacts]: markers
      forgive nothing, an invocation that never ended blocks recovery, a settlement
      settles, the incremental cursor agrees with its declarative meaning, reports
      survive serialization. The equivalence [agree] relates folds that differ only
      in what markers cover, with [Proper] instances for the fold's operations.
    - [StepProof]: the interfaces [GoalEnv] and [LogEnv] of the goal stream are
      discharged by the receipt fold, so accepted steps trace to their receipts.
    - [WriteClaims], [WriteClaimsFacts]: the map of dirty paths shared by all
      sessions; histories of operations, exclusivity by claim identity, settlement of
      children.
    - [Porcelain], [PorcelainFacts], [ObservationFacts]: how a workspace is observed
      ([porcelain.rs]): git's status, quoted names, revisions and hidden paths, file
      stamps, the bounded walk of a tree without git, deltas and receipts. Status is
      read as exactly the usable names git lists; a delta or a receipt that claims to be
      complete is exact in what its baseline could be read for; the walk returns and lists exactly the tree. What git and the
      file system answer at one moment is the class [Moment].
    - [EffectScenario], [ObservationScenario]: one run with a call, its receipt, its marker and the goal
      step it earns, and concrete observations; the theorems above are exercised on
      them.
    - [Text], [Paths]: the parts of the Rust standard library these files use
      (string order, stable sort, trimming, searching, decimal printing, UTF-8;
      path components and the file system questions as the class [FileSystem]).

    ** Admission ([task_scheduler.rs])

    One scheduler per agent admits the work of all its sessions: an actor owns the
    queue, the slots and the quotas; clients send requests over a bounded channel and
    give leases back over another one.

    - [Scheduler]: priorities, quotas, the actor's state and the handling of every
      message; the priority queue of the Lane crate is the class [PriorityQueue].
    - [SchedulerFacts]: against [StableQueue], what Lane documents of that queue, the
      invariant [sched_ok] of the actor (exact accounts, bounded memory), that no
      request that could start is left waiting, and the order of admission.
    - [SchedulerSystem], [SchedulerSystemFacts]: clients, leases, channels and actor as
      one transition system. In every reachable state the leases held respect all
      limits, waiting has a reason, and nothing is left behind when the clients are
      done, whatever the interleaving of cancellations, releases and shutdown.
    - [SchedulerScenario]: a queue that meets the interface and a contended scheduler
      on which the theorems are exercised.

    ** Control of a running turn ([run_control.rs])

    A host steers or interrupts a run through a small inbox. A request is validated,
    shown to a policy hook, admitted once under its id and answered by a receipt; the
    worker of the run consumes admitted controls at safe points, or a settlement persists
    them and decides their receipts.

    - [RunControl]: the wire types, validation, the state of the inbox and its
      operations; hashing a request and appending an input are parameters.
    - [RunControlFacts]: the invariant [inbox_ok] (a receipt that is owed an outcome has
      exactly one pending copy), kept by every operation, and what persisting does.
    - [RunControlSystem], [RunControlSystemFacts]: hosts, hook, observers, worker and
      settlement over the two mutexes as one transition system. Every admission is
      decided exactly once, receipts are final and retries answered from them, the end
      of a run is final, observers see acceptance before outcome, memory is bounded.
    - [RunControlScenario]: a run with steering inputs, a store that refuses one of them
      and an interrupt, on which the theorems are exercised.

    ** Editing files ([text.rs], [tools/builtin/edit.rs], [write.rs], [patch.rs],
    [workspace/])

    The model changes files with three tools. Each reads a file through the workspace
    services, computes the new text, claims the path for its session and writes; on a
    backend with versions the write is a compare-and-swap. Other tasks work on the same
    files and claims between any two of these steps.

    - [LineEdit], [LineEditFacts]: replacing a string in a file whatever the line endings
      of the three texts; the result is the replacement in the LF form of the file, and
      no offset falls inside a character.
    - [Patch], [PatchFacts], [PatchDiff]: unified diffs. The relation [patched] says what
      hunks mean for a file, and patches are accepted exactly by it; the printed diff of
      an edit is parsed back and performs the edit.
    - [Programs]: [Prog], programs of atomic steps on a state that other tasks share;
      [play] runs one against a schedule of what others do and of what each step meets
      besides (a timeout, a cancellation), [wp] is the weakest precondition under such
      interference, and [reads_to] holds of programs that change nothing.
    - [Workspace], [WorkspaceFacts]: virtual paths, errors, the file system traits as
      records of operations, the reference backend in memory, the services; a tool is a
      [Prog] on files and claims. The class [Versioned] states what a versioned backend
      promises; the reference backend is an instance.
    - [FileTools], [FileToolsFacts]: the whole [execute] of each tool. No concurrent
      change is lost, patches of several files validate before they write, calls that
      answer with a failure keep no claim, a repeated append is harmless.
    - [FileToolsScenario]: runs on the reference backend with another writer at work, and
      the calls on which the tools do not keep to their descriptions.

    ** Invoking a tool ([safety_gate.rs], [agent/tool_invoker.rs], [agent/hook_runtime.rs],
    [tools/invocation.rs], [hitl.rs], [tool_confirmation.rs], [child_run.rs],
    [skills/mod.rs])

    Every call of a tool, by the model, by another tool or by the host, goes through one
    invoker: hooks may rewrite or deny it, skills, permissions and the tool itself decide
    whether the host must be asked, a provider asks and waits, the budget has the last
    word. A child run asks through a provider made of its own and its parent's.

    - [Hooks]: the outcomes of governance hooks, shared with [RunControl].
    - [Confirmation]: policies and managers of pending requests, their one-shot channels
      and the events of all runs as one state; a provider is a record of programs on it,
      one per method of the trait: the manager, the auto-approver, the delegation to a
      child run. The critical section of a manager and each of the sends that follow it
      are steps of their own. A wait is a step that finds a cancellation, an answer, or neither.
    - [ConfirmationFacts]: the invariant [conf_ok], kept by every step of the relation
      [api]; each request is settled once, and an approval comes from a call that took
      exactly this request, under its id. The class [Endorses] states what a provider with a
      given authority promises; manager and auto-approver are instances.
    - [ConfirmationDelegation]: the delegated provider is an instance, with the authority
      [delegation_says] computed from those of child and parent, so delegations nest.
    - [ToolGate], [ToolGateFacts]: skills, gate, hooks, lifecycle and the whole of
      [invoke], and the governance of child runs. Proved against [Endorses]: a tool runs
      only when every authority over the call has agreed, a child run cannot get past its
      parent, a call that nothing stands against runs, and (with debug assertions) every
      invocation ends in one terminal state that fits its result.
    - [ToolGateScenario]: concrete invocations, and those on which the code and its
      comments part.

    ** Conventions

    Strings are lists of Unicode scalar values ([str]); byte lengths are UTF-8
    lengths ([len]). Machine integers are Z with their bounds written out at the
    places that check them ([checked_add]). Panics and divergence are values of
    [Res]; [GoalResult] carries the refusals of the goal code without their
    message texts. Fuel: the tokenizer and classifier get fuel from the length
    of their input, and [lex_total] and [analyze_total] show it is enough on
    plain text; the readiness loop of plan validation gets one round per step,
    and [plan_validation_acyclic] shows it never needs more. Searching and
    replacing in strings get the length of the text, of which every round consumes
    a part; nested batches and nested tool effects get the depth of their JSON
    value ([json_depth]), which every level decreases ([crosses_fuel_enough]); the
    risk of nested batches is bounded by the code itself (MAX_BATCH_RISK_DEPTH).
    The walk of a tree gets one round more than its cap, which [index_returns] shows is
    enough; draining a queue gets its length and dispatch one round per waiting request
    ([drain_spec], [dispatch_loop_ok]); forgetting receipts gets one round per retained
    one ([trim_loop_ok]). Parsing a diff gets one round per line ([parse_lines]), listing
    the occurrences of a string one more than its length ([exact_spans_count]), and
    looking for a character boundary four, the longest character.
    Hash maps and B-tree sets are [gmap] and [gset]; where the code lists a B-tree
    map, its entries are sorted.

    ** Not modelled

    Hashing (SHA-256), JSON printing and parsing, the regex engine, the file
    system and the log crate (a3s_effect) are parameters. Of the repository's own
    code, running a model turn ([fact_control.rs], [agent/] but for the invoker), what
    happens to the result of a tool, the validation of arguments, the system calls and the git process of [porcelain.rs], leases and the
    writer fence of goals, message texts and prompts, the stores, the model clients,
    the other tools and backends, the scheduling of subagents, bindings and applications are outside this library: they
    are asynchronous plumbing and I/O around the parts above. *)

From stdpp Require Export base list strings list_numbers option.
From Stdlib Require Export ZArith Lia.

#[global] Open Scope Z_scope.

(** ** Outcomes of Rust code

    [Ok] is a normal return, [Panic] a Rust panic (a slice or index out of
    range), [OutOfFuel] a computation that did not return within the fuel the
    model gave it. *)
Inductive Res (A : Type) : Type :=
| Ok (a : A)
| Panic
| OutOfFuel.
Arguments Ok {A} a.
Arguments Panic {A}.
Arguments OutOfFuel {A}.

#[global] Instance res_ret : MRet Res := fun _ a => Ok a.
#[global] Instance res_bind : MBind Res := fun A B f m =>
  match m with Ok a => f a | Panic => Panic | OutOfFuel => OutOfFuel end.
#[global] Instance res_fmap : FMap Res := fun A B f m =>
  match m with Ok a => Ok (f a) | Panic => Panic | OutOfFuel => OutOfFuel end.

(** Early return through an option ([?] on an [Option] that panics when
    absent: indexing, slicing). *)
Definition or_panic {A} (o : option A) : Res A :=
  match o with Some a => Ok a | None => Panic end.

(** ** Characters and strings

    A Rust [char] is its Unicode scalar value, a [str] the list of its
    characters; [len] is the UTF-8 byte length Rust's [str::len] returns. *)
Abbreviation char := Z (only parsing).
Abbreviation str := (list Z) (only parsing).

Definition ch (a : Ascii.ascii) : char := Z.of_N (Ascii.N_of_ascii a).

Fixpoint lit (s : string) : str :=
  match s with
  | EmptyString => []
  | String a s => ch a :: lit s
  end.
Notation "$ s" := (lit s%string) (at level 8, s at level 0, format "$ s").

Definition c_nul : char := 0.
Definition c_tab : char := 9.
Definition c_nl : char := 10.
Definition c_cr : char := 13.
Definition c_space : char := 32.
Definition c_bang : char := 33.
Definition c_dquote : char := 34.
Definition c_hash : char := 35.
Definition c_dollar : char := 36.
Definition c_amp : char := 38.
Definition c_squote : char := 39.
Definition c_lparen : char := 40.
Definition c_rparen : char := 41.
Definition c_star : char := 42.
Definition c_plus : char := 43.
Definition c_dash : char := 45.
Definition c_dot : char := 46.
Definition c_slash : char := 47.
Definition c_semi : char := 59.
Definition c_lt : char := 60.
Definition c_eq : char := 61.
Definition c_gt : char := 62.
Definition c_quest : char := 63.
Definition c_at : char := 64.
Definition c_lbracket : char := 91.
Definition c_backslash : char := 92.
Definition c_caret : char := 94.
Definition c_underscore : char := 95.
Definition c_backtick : char := 96.
Definition c_lbrace : char := 123.
Definition c_pipe : char := 124.
Definition c_rbrace : char := 125.
Definition c_tilde : char := 126.

Definition utf8_len (c : char) : Z :=
  if c <? 128 then 1 else if c <? 2048 then 2 else if c <? 65536 then 3 else 4.

Definition len (s : str) : Z := foldr (fun c n => utf8_len c + n) 0 s.

Definition in_range (lo hi c : Z) : bool := (lo <=? c) && (c <=? hi).

(** [char::is_whitespace]: the Unicode White_Space property. *)
Definition is_whitespace (c : char) : bool :=
  in_range 9 13 c || (c =? 32) || (c =? 133) || (c =? 160) || (c =? 5760)
  || in_range 8192 8202 c || (c =? 8232) || (c =? 8233) || (c =? 8239)
  || (c =? 8287) || (c =? 12288).

(** [char::is_control]: general category Cc. *)
Definition is_control (c : char) : bool := in_range 0 31 c || in_range 127 159 c.

Definition is_ascii_digit (c : char) : bool := in_range 48 57 c.
Definition is_ascii_lowercase (c : char) : bool := in_range 97 122 c.
Definition is_ascii_uppercase (c : char) : bool := in_range 65 90 c.
Definition is_ascii_alphanumeric (c : char) : bool :=
  is_ascii_digit c || is_ascii_lowercase c || is_ascii_uppercase c.

Definition to_ascii_lower (c : char) : char :=
  if is_ascii_uppercase c then c + 32 else c.
Definition to_ascii_lowercase (s : str) : str := map to_ascii_lower s.

(** [str::to_lowercase], exact on the characters whose lower case is ASCII
    (ASCII letters, the Kelvin sign, the dotted capital I, whose lower case is
    [i] followed by U+0307). Other characters never become ASCII and the code
    only compares the result with ASCII words, so they are left alone. *)
Definition to_lower (c : char) : str :=
  if is_ascii_uppercase c then [c + 32]
  else if c =? 8490 then [107]
  else if c =? 304 then [105; 775]
  else [c].
Definition to_lowercase (s : str) : str := concat (map to_lower s).

Definition str_eqb (a b : str) : bool := bool_decide (a = b).
Definition eq_ignore_ascii_case (a b : str) : bool :=
  str_eqb (to_ascii_lowercase a) (to_ascii_lowercase b).

(** [needle] is one of [words] ([matches!(x, "a" | "b" | ...)],
    [slice.contains(&x)]). *)
Definition one_of (needle : str) (words : list string) : bool :=
  existsb (fun w => str_eqb needle (lit w)) words.

Fixpoint strip_prefix (p s : str) : option str :=
  match p, s with
  | [], _ => Some s
  | a :: p, b :: s => if a =? b then strip_prefix p s else None
  | _ :: _, [] => None
  end.
Definition starts_with (s p : str) : bool :=
  match strip_prefix p s with Some _ => true | None => false end.
Definition strip_suffix (p s : str) : option str :=
  match strip_prefix (rev p) (rev s) with Some r => Some (rev r) | None => None end.
Definition ends_with (s p : str) : bool :=
  match strip_suffix p s with Some _ => true | None => false end.
Definition contains_char (s : str) (c : char) : bool := existsb (Z.eqb c) s.
Fixpoint contains_str (s p : str) : bool :=
  starts_with s p || match s with [] => false | _ :: s => contains_str s p end.

Fixpoint drop_while {A} (f : A -> bool) (l : list A) : list A :=
  match l with [] => [] | a :: l' => if f a then drop_while f l' else l end.
Definition trim_start (s : str) : str := drop_while is_whitespace s.
Definition trim (s : str) : str :=
  rev (drop_while is_whitespace (rev (trim_start s))).

(** [str::split(c)]: never empty; [n] separators give [n + 1] pieces. *)
Fixpoint split_on (c : char) (s : str) : list str :=
  match s with
  | [] => [[]]
  | x :: s =>
      if x =? c then [] :: split_on c s
      else match split_on c s with
           | [] => [[x]]
           | piece :: rest => (x :: piece) :: rest
           end
  end.

Fixpoint join (sep : str) (l : list str) : str :=
  match l with
  | [] => []
  | [a] => a
  | a :: l => a ++ sep ++ join sep l
  end.

(** [&s[..n]] and [&s[n..]] for a byte offset: [None] where Rust panics (past
    the end, or inside a multi-byte character). *)
Fixpoint split_at_byte (s : str) (n : Z) : option (str * str) :=
  if n =? 0 then Some ([], s)
  else match s with
       | [] => None
       | c :: s =>
           if n <? utf8_len c then None
           else match split_at_byte s (n - utf8_len c) with
                | Some (a, b) => Some (c :: a, b)
                | None => None
                end
       end.

(** [Iterator::find] and [position] with a boolean test. *)
Fixpoint position {A} (f : A -> bool) (l : list A) : option nat :=
  match l with
  | [] => None
  | a :: l => if f a then Some 0%nat else option_map S (position f l)
  end.

(** [u32]/[u64] checked addition. *)
Definition u32_max : Z := 2 ^ 32 - 1.
Definition u64_max : Z := 2 ^ 64 - 1.
Definition checked_add (max a b : Z) : option Z :=
  if a + b <=? max then Some (a + b) else None.

(** ** JSON values ([serde_json::Value]) *)
#[warnings="-register-all"]
Inductive json : Type :=
| JNull
| JBool (b : bool)
| JNumber (repr : str)
| JString (s : str)
| JArray (l : list json)
| JObject (fields : list (str * json)).

(** [Value::get(key)]: [None] on anything but an object. *)
Definition jget (key : str) (v : json) : option json :=
  match v with
  | JObject fields =>
      option_map snd (List.find (fun kv => str_eqb key (fst kv)) fields)
  | _ => None
  end.
Definition jas_str (v : json) : option str :=
  match v with JString s => Some s | _ => None end.
Definition jas_array (v : json) : option (list json) :=
  match v with JArray l => Some l | _ => None end.
(** [args.get(key).and_then(Value::as_str)] *)
Definition jget_str (key : str) (v : json) : option str :=
  match jget key v with Some w => jas_str w | None => None end.

(** [Value::as_u64]: an unsigned integer literal within range. *)
Definition parse_decimal (s : str) : option Z :=
  match s with
  | [] => None
  | _ => if forallb is_ascii_digit s then Some (fold_left (fun n c => 10 * n + (c - 48)) s 0) else None
  end.
Definition jas_u64 (v : json) : option Z :=
  match v with
  | JNumber repr =>
      match parse_decimal repr with
      | Some n => if n <=? u64_max then Some n else None
      | None => None
      end
  | _ => None
  end.
Definition jas_bool (v : json) : option bool := match v with JBool b => Some b | _ => None end.
(** [value[key]]: [Null] when absent. *)
Definition jindex (key : str) (v : json) : json := match jget key v with Some w => w | None => JNull end.

#[global] Instance json_eq_dec : EqDecision json.
Proof.
  refine (fix go (a b : json) : {a = b} + {a <> b} := _).
  destruct a as [|x|x|x|x|x], b as [|y|y|y|y|y]; try (right; discriminate).
  - by left.
  - destruct (decide (x = y)) as [->|H]; [by left|right; congruence].
  - destruct (decide (x = y)) as [->|H]; [by left|right; congruence].
  - destruct (decide (x = y)) as [->|H]; [by left|right; congruence].
  - destruct (List.list_eq_dec go x y) as [->|H]; [by left|right; congruence].
  - assert (Hp : forall p q : str * json, {p = q} + {p <> q}).
    { intros [k v] [k' v']. destruct (decide (k = k')) as [->|Hk]; [|right; congruence].
      destruct (go v v') as [->|Hv]; [by left|right; congruence]. }
    destruct (List.list_eq_dec Hp x y) as [->|H]; [by left|right; congruence].
Defined.
