(* ===== verification/Text.v ===== *)
(** Text and ordering routines of the Rust standard library that several
    components share: the order of strings, stable sorting, trimming and
    splitting, substring search and replacement, decimal printing and the UTF-8
    encoding, with the lemmas the components rely on. *)
From Stdlib Require Import Sorted DecimalN.
From stdpp Require Import base list sets.
From S2P Require Import Prelude.

Definition c_comma : char := 44.
Definition c_colon : char := 58.
Definition c_rbracket : char := 93.

(** ** Order *)

(** String order: Rust compares UTF-8 bytes, which is the order of scalar values. *)
Fixpoint str_leb (a b : str) : bool :=
  match a, b with
  | [], _ => true
  | _ :: _, [] => false
  | x :: a, y :: b => (x <? y) || ((x =? y) && str_leb a b)
  end.

(** [slice::sort_by]: stable. An element is placed before the ones it does not
    exceed, and elements are placed from the last to the first. *)
Section Sort.
Context {A : Type} (leb : A -> A -> bool).
Fixpoint insert_sorted (x : A) (l : list A) : list A :=
  match l with
  | [] => [x]
  | y :: l' => if leb x y then x :: l else y :: insert_sorted x l'
  end.
Definition sort_by (l : list A) : list A := foldr insert_sorted [] l.

Lemma insert_sorted_perm x l : insert_sorted x l ≡ₚ x :: l.
Proof.
  induction l as [|y l IH]; [done|]. cbn. destruct (leb x y); [done|].
  rewrite IH. by rewrite Permutation_swap.
Qed.
Lemma sort_by_perm l : sort_by l ≡ₚ l.
Proof. induction l as [|x l IH]; [done|]. cbn. rewrite insert_sorted_perm. by rewrite IH. Qed.
Lemma elem_of_sort_by x l : x ∈ sort_by l <-> x ∈ l.
Proof. by rewrite sort_by_perm. Qed.

Context (total : forall a b, leb a b = true \/ leb b a = true)
        (trans : forall a b c, leb a b = true -> leb b c = true -> leb a c = true).
Abbreviation ordered := (StronglySorted (fun a b => leb a b = true)).

Lemma insert_sorted_ordered x l : ordered l -> ordered (insert_sorted x l).
Proof.
  induction 1 as [|y l Hl IH Hy]; cbn; [by repeat constructor|].
  destruct (leb x y) eqn:E.
  - constructor; [by constructor|]. constructor; [done|].
    eapply List.Forall_impl; [|exact Hy]. intros z. by apply trans.
  - constructor; [done|]. rewrite insert_sorted_perm. constructor; [|done].
    destruct (total x y); congruence.
Qed.
Lemma sort_by_ordered l : ordered (sort_by l).
Proof. induction l; cbn; [constructor|by apply insert_sorted_ordered]. Qed.
Lemma sort_by_ordered_id l : ordered l -> sort_by l = l.
Proof.
  induction 1 as [|y l Hl IH Hy]; [done|].
  change (sort_by (y :: l)) with (insert_sorted y (sort_by l)). rewrite IH.
  destruct l as [|z l]; [done|]. cbn. inversion Hy as [|?? Hz]; subst. by rewrite Hz.
Qed.
End Sort.

Definition sort_strs (l : list str) : list str := sort_by str_leb l.
(** [Vec::dedup]: drops consecutive repetitions. *)
Fixpoint dedup (l : list str) : list str :=
  match l with
  | x :: ((y :: _) as rest) => if str_eqb x y then dedup rest else x :: dedup rest
  | _ => l
  end.

Lemma str_eqb_spec a b : str_eqb a b = true <-> a = b.
Proof. apply bool_decide_eq_true. Qed.
Lemma str_eqb_refl a : str_eqb a a = true.
Proof. by apply str_eqb_spec. Qed.
Lemma str_eqb_ne a b : str_eqb a b = false <-> a <> b.
Proof. apply bool_decide_eq_false. Qed.

Lemma str_leb_refl a : str_leb a a = true.
Proof. induction a as [|x a IH]; [done|]. cbn. rewrite IH, Z.eqb_refl. by rewrite orb_true_r. Qed.
Lemma str_leb_total a b : str_leb a b = true \/ str_leb b a = true.
Proof.
  revert b. induction a as [|x a IH]; intros [|y b]; cbn; [by left..|by right|].
  destruct (Z.ltb_spec x y); [by left|]. destruct (Z.ltb_spec y x); [by right|].
  assert (x = y) as -> by lia. rewrite Z.eqb_refl. cbn. apply IH.
Qed.
Lemma str_leb_trans a b c : str_leb a b = true -> str_leb b c = true -> str_leb a c = true.
Proof.
  revert b c. induction a as [|x a IH]; intros [|y b] [|z c]; cbn; try done.
  rewrite !orb_true_iff, !andb_true_iff, !Z.ltb_lt, !Z.eqb_eq.
  intros [?|[-> ?]] [?|[-> ?]]; [left; lia..|]. right. eauto.
Qed.
Lemma str_leb_antisymm a b : str_leb a b = true -> str_leb b a = true -> a = b.
Proof.
  revert b. induction a as [|x a IH]; intros [|y b]; cbn; try done.
  rewrite !orb_true_iff, !andb_true_iff, !Z.ltb_lt, !Z.eqb_eq.
  intros [?|[-> ?]] [?|[? ?]]; try lia. f_equal. by apply IH.
Qed.

Lemma dedup_cons x y l : dedup (x :: y :: l) = if str_eqb x y then dedup (y :: l) else x :: dedup (y :: l).
Proof. done. Qed.
Lemma elem_of_dedup x l : x ∈ dedup l <-> x ∈ l.
Proof.
  induction l as [|y [|z l] IH]; [done..|]. rewrite dedup_cons.
  destruct (str_eqb y z) eqn:E.
  - apply str_eqb_spec in E. subst y. rewrite IH. by rewrite !elem_of_cons; tauto.
  - by rewrite !elem_of_cons, IH, elem_of_cons.
Qed.
(** Sorting and dropping repetitions leaves each element once. *)
Lemma dedup_ordered_NoDup l :
  StronglySorted (fun a b => str_leb a b = true) l -> NoDup (dedup l).
Proof.
  induction l as [|y [|z l] IH]; [constructor|cbn; repeat constructor; set_solver|].
  intros Hs. inversion_clear Hs as [|?? Hl Hy]. rewrite dedup_cons. destruct (str_eqb y z) eqn:E; [by apply IH|].
  constructor; [|by apply IH]. rewrite elem_of_dedup. apply str_eqb_ne in E. intros Hin.
  apply elem_of_cons in Hin as [Hin|Hin]; [done|]. apply E.
  inversion_clear Hl as [|?? Hl' Hz]. inversion_clear Hy as [|?? Hyz _].
  apply str_leb_antisymm; [done|]. rewrite Forall_forall in Hz. by apply Hz, list_elem_of_In.
Qed.
Lemma sort_dedup_NoDup l : NoDup (dedup (sort_strs l)).
Proof. apply dedup_ordered_NoDup, sort_by_ordered; [apply str_leb_total|apply str_leb_trans]. Qed.

(** ** Trimming, splitting, searching *)

(** [str::trim_end]. *)
Definition trim_end (s : str) : str := rev (drop_while is_whitespace (rev s)).
(** [trim_end_matches(char)], [trim_matches(predicate)]. *)
Definition trim_end_char (c : char) (s : str) : str := rev (drop_while (Z.eqb c) (rev s)).
Definition trim_start_char (c : char) (s : str) : str := drop_while (Z.eqb c) s.
Definition trim_matches (f : char -> bool) (s : str) : str :=
  rev (drop_while f (rev (drop_while f s))).
(** [trim_start_matches(prefix)] for a non-empty prefix: every repetition goes. *)
Fixpoint trim_start_matches_fuel (fuel : nat) (p s : str) : str :=
  match fuel with
  | O => s
  | S fuel => match strip_prefix p s with
              | Some s' => trim_start_matches_fuel fuel p s'
              | None => s
              end
  end.
Definition trim_start_matches (p s : str) : str := trim_start_matches_fuel (length s) p s.

(** [split_whitespace]: the maximal runs of other characters. *)
Fixpoint split_ws (word : str) (s : str) : list str :=
  match s with
  | [] => match word with [] => [] | _ => [rev word] end
  | c :: s =>
      if is_whitespace c then match word with [] => split_ws [] s | _ => rev word :: split_ws [] s end
      else split_ws (c :: word) s
  end.
Definition split_whitespace (s : str) : list str := split_ws [] s.

(** [str::lines]: pieces between line feeds, a final empty piece dropped, one
    trailing carriage return dropped from each. *)
Definition strip_cr (s : str) : str :=
  match strip_suffix [c_cr] s with Some r => r | None => s end.
Definition lines (s : str) : list str :=
  let pieces := split_on c_nl s in
  map strip_cr (match rev pieces with [] :: r => rev r | _ => pieces end).

(** [str::find(needle)], as the text before and after the first occurrence. *)
Fixpoint find_str (needle s : str) : option (str * str) :=
  match strip_prefix needle s with
  | Some rest => Some ([], rest)
  | None =>
      match s with
      | [] => None
      | c :: s => match find_str needle s with
                  | Some (before, after) => Some (c :: before, after)
                  | None => None
                  end
      end
  end.
(** [split_once(char)] and [rsplit_once(char)]. *)
Definition split_once (c : char) (s : str) : option (str * str) := find_str [c] s.
Definition rsplit_once (c : char) (s : str) : option (str * str) :=
  match find_str [c] (rev s) with
  | Some (after, before) => Some (rev before, rev after)
  | None => None
  end.

(** [str::replace(from, to)] for a non-empty [from]; [replacen(from, to, 1)]. *)
Fixpoint replace_fuel (fuel : nat) (from to s : str) : str :=
  match fuel with
  | O => s
  | S fuel => match find_str from s with
              | Some (before, after) => before ++ to ++ replace_fuel fuel from to after
              | None => s
              end
  end.
Definition replace_str (from to s : str) : str := replace_fuel (length s) from to s.
Definition replace_char (from to : char) (s : str) : str :=
  map (fun c => if c =? from then to else c) s.
Definition replace_first (from to s : str) : str :=
  match find_str from s with Some (before, after) => before ++ to ++ after | None => s end.

(** ** Prefixes, suffixes and lengths *)
Lemma strip_prefix_app p s : strip_prefix p (p ++ s) = Some s.
Proof. induction p as [|c p IH]; cbn; [done|]. by rewrite Z.eqb_refl. Qed.
Lemma strip_prefix_Some p s r : strip_prefix p s = Some r <-> s = p ++ r.
Proof.
  split; [|intros ->; apply strip_prefix_app]. revert s. induction p as [|c p IH]; intros s H.
  { by simplify_eq/=. }
  destruct s as [|d s]; [done|]. cbn in H. destruct (c =? d) eqn:E; [|done].
  apply Z.eqb_eq in E as ->. by rewrite (IH s H).
Qed.
Lemma starts_with_spec s p : starts_with s p = true <-> exists r, s = p ++ r.
Proof.
  unfold starts_with. destruct (strip_prefix p s) as [r|] eqn:E.
  - apply strip_prefix_Some in E. split; eauto.
  - split; [done|]. intros [r Hr]. apply strip_prefix_Some in Hr. congruence.
Qed.
Lemma ends_with_snoc s c : ends_with (s ++ [c]) [c] = true.
Proof. unfold ends_with, strip_suffix. rewrite rev_app_distr. cbn. by rewrite Z.eqb_refl. Qed.
Lemma strip_suffix_Some p s r : strip_suffix p s = Some r <-> s = r ++ p.
Proof.
  unfold strip_suffix. destruct (strip_prefix (rev p) (rev s)) as [q|] eqn:E.
  - apply strip_prefix_Some in E. apply (f_equal (@rev Z)) in E.
    rewrite rev_involutive, rev_app_distr, rev_involutive in E. split.
    + intros [= <-]. done.
    + intros ->. f_equal. by apply app_inv_tail in E.
  - split; [done|]. intros ->. rewrite rev_app_distr, strip_prefix_app in E. done.
Qed.
Lemma strip_prefix_head a p b s : a <> b -> strip_prefix (a :: p) (b :: s) = None.
Proof. intros H. cbn. by apply Z.eqb_neq in H as ->. Qed.
Lemma utf8_len_pos c : 1 <= utf8_len c.
Proof. unfold utf8_len. destruct (c <? 128), (c <? 2048), (c <? 65536); lia. Qed.
Lemma len_cons c s : len (c :: s) = utf8_len c + len s.
Proof. done. Qed.
Lemma len_app s t : len (s ++ t) = len s + len t.
Proof. induction s as [|c s IH]; [done|]. cbn [app]. rewrite !len_cons. lia. Qed.
Lemma len_nonneg s : 0 <= len s.
Proof.
  induction s as [|c s IH]; [done|]. rewrite len_cons. pose proof (utf8_len_pos c). lia.
Qed.

(** ** Decimal printing ([usize::to_string]) *)
Fixpoint uint_str (d : Decimal.uint) : str :=
  match d with
  | Decimal.Nil => []
  | Decimal.D0 d => 48 :: uint_str d | Decimal.D1 d => 49 :: uint_str d
  | Decimal.D2 d => 50 :: uint_str d | Decimal.D3 d => 51 :: uint_str d
  | Decimal.D4 d => 52 :: uint_str d | Decimal.D5 d => 53 :: uint_str d
  | Decimal.D6 d => 54 :: uint_str d | Decimal.D7 d => 55 :: uint_str d
  | Decimal.D8 d => 56 :: uint_str d | Decimal.D9 d => 57 :: uint_str d
  end.
Definition show (n : Z) : str := uint_str (N.to_uint (Z.to_N n)).

Lemma uint_str_inj d e : uint_str d = uint_str e -> d = e.
Proof. revert e. induction d; intros []; cbn; intros [=]; f_equal; auto. Qed.
Lemma show_inj n m : 0 <= n -> 0 <= m -> show n = show m -> n = m.
Proof.
  intros Hn Hm H. apply uint_str_inj, DecimalN.Unsigned.to_uint_inj in H. lia.
Qed.
Lemma show_digits n : Forall (fun c => 48 <= c <= 57) (show n).
Proof. unfold show. induction (N.to_uint _); cbn; constructor; done || lia. Qed.

(** ** UTF-8 *)
Definition utf8_char (c : char) : list Z :=
  if c <? 128 then [c]
  else if c <? 2048 then [192 + c / 64; 128 + c mod 64]
  else if c <? 65536 then [224 + c / 4096; 128 + c / 64 mod 64; 128 + c mod 64]
  else [240 + c / 262144; 128 + c / 4096 mod 64; 128 + c / 64 mod 64; 128 + c mod 64].
(** [str::as_bytes]. *)
Definition utf8 (s : str) : list Z := concat (map utf8_char s).
(** The scalar values a Rust [char] can hold, surrogates aside. *)
Definition scalar (c : char) : Prop := 0 <= c < 1114112.

Lemma utf8_char_len c : Z.of_nat (length (utf8_char c)) = utf8_len c.
Proof. unfold utf8_char, utf8_len. repeat case_match; done. Qed.
Lemma utf8_length s : Z.of_nat (length (utf8 s)) = len s.
Proof.
  induction s as [|c s IH]; [done|]. unfold utf8, len in *. cbn [map concat foldr].
  rewrite length_app, Nat2Z.inj_add, IH, utf8_char_len. done.
Qed.
Lemma utf8_app s t : utf8 (s ++ t) = utf8 s ++ utf8 t.
Proof. unfold utf8. by rewrite map_app, concat_app. Qed.
(** The code is a prefix code: the first byte tells the length. *)
Lemma utf8_char_prefix c d s t :
  scalar c -> scalar d -> utf8_char c ++ s = utf8_char d ++ t -> c = d /\ s = t.
Proof.
  unfold scalar, utf8_char. intros Hc Hd.
  repeat match goal with |- context [Z.ltb ?a ?b] => destruct (Z.ltb_spec a b) end;
    cbn [app]; intros [=];
    first [subst; split; [done|done] | exfalso; Z.to_euclidean_division_equations; lia | idtac];
    (split; [Z.to_euclidean_division_equations; lia|done]).
Qed.
Lemma utf8_inj s t : Forall scalar s -> Forall scalar t -> utf8 s = utf8 t -> s = t.
Proof.
  assert (Hne : forall c rest, [] <> utf8_char c ++ rest).
  { intros c rest. unfold utf8_char. by repeat case_match. }
  intros Hs. revert t. induction Hs as [|c s Hc Hs IH]; intros [|d t] Ht; unfold utf8; cbn [map concat]; [done| | |].
  - intros H. by apply Hne in H.
  - intros H. symmetry in H. by apply Hne in H.
  - inversion_clear Ht. intros [-> ?]%utf8_char_prefix; [|done..]. f_equal. by apply IH.
Qed.

(** Decoding, as [String::from_utf8] and [String::from_utf8_lossy] do it: the bytes
    as characters, with [None] for each maximal part that is not UTF-8. A pending
    character expects [need] more bytes, the next of them between [lo] and [hi]. *)
Record Utf8Pending : Type := mkUtf8 { u8_need : nat; u8_lo : Z; u8_hi : Z; u8_acc : Z }.
Definition utf8_start (b : Z) : option char + Utf8Pending :=
  if b <? 0 then inl None
  else if b <? 128 then inl (Some b)
  else if b <? 194 then inl None
  else if b <? 224 then inr (mkUtf8 1 128 191 (b - 192))
  else if b =? 224 then inr (mkUtf8 2 160 191 0)
  else if b =? 237 then inr (mkUtf8 2 128 159 13)
  else if b <? 240 then inr (mkUtf8 2 128 191 (b - 224))
  else if b =? 240 then inr (mkUtf8 3 144 191 0)
  else if b <? 244 then inr (mkUtf8 3 128 191 (b - 240))
  else if b =? 244 then inr (mkUtf8 3 128 143 4)
  else inl None.
Fixpoint utf8_decode (pending : option Utf8Pending) (bytes : list Z) : list (option char) :=
  match bytes with
  | [] => match pending with Some _ => [None] | None => [] end
  | b :: rest =>
      let start := match utf8_start b with
                   | inl c => c :: utf8_decode None rest
                   | inr p => utf8_decode (Some p) rest
                   end in
      match pending with
      | None => start
      | Some p =>
          if (u8_lo p <=? b) && (b <=? u8_hi p) then
            let acc := u8_acc p * 64 + (b - 128) in
            match u8_need p with
            | S (S need) => utf8_decode (Some (mkUtf8 (S need) 128 191 acc)) rest
            | _ => Some acc :: utf8_decode None rest
            end
          else None :: start
      end
  end.
Definition from_utf8 (bytes : list Z) : option str := mapM id (utf8_decode None bytes).
Definition from_utf8_lossy (bytes : list Z) : str := map (default 65533) (utf8_decode None bytes).
(** The values a Rust [char] can hold. *)
Definition rust_char (c : char) : Prop := 0 <= c < 55296 \/ 57344 <= c < 1114112.

(** Settles the comparisons of a goal that the context decides. *)
Ltac settle_tests :=
  repeat match goal with
         | |- context [Z.ltb ?a ?b] => first [rewrite (proj2 (Z.ltb_lt a b)) by lia | rewrite (proj2 (Z.ltb_ge a b)) by lia]
         | |- context [Z.leb ?a ?b] => first [rewrite (proj2 (Z.leb_le a b)) by lia | rewrite (proj2 (Z.leb_gt a b)) by lia]
         | |- context [Z.eqb ?a ?b] => first [rewrite (proj2 (Z.eqb_eq a b)) by lia | rewrite (proj2 (Z.eqb_neq a b)) by lia]
         end.
Lemma utf8_next need lo hi acc r rest :
  lo <= 128 + r <= hi ->
  utf8_decode (Some (mkUtf8 (S need) lo hi acc)) ((128 + r) :: rest)
  = match need with
    | S need => utf8_decode (Some (mkUtf8 (S need) 128 191 (acc * 64 + r))) rest
    | O => Some (acc * 64 + r) :: utf8_decode None rest
    end.
Proof.
  intros Hr. cbn [utf8_decode u8_lo u8_hi u8_acc u8_need]. settle_tests. cbn [andb].
  replace (128 + r - 128) with r by lia. by destruct need.
Qed.
Lemma utf8_begin b p rest : utf8_start b = inr p -> utf8_decode None (b :: rest) = utf8_decode (Some p) rest.
Proof. cbn. by intros ->. Qed.
Lemma utf8_start_two q : 2 <= q < 32 -> utf8_start (192 + q) = inr (mkUtf8 1 128 191 q).
Proof. intros Hq. unfold utf8_start. settle_tests. do 2 f_equal. lia. Qed.
Lemma utf8_start_three q r :
  0 <= q < 16 -> 0 <= r < 64 -> 32 <= q * 64 + r -> q * 64 + r < 864 \/ 896 <= q * 64 + r ->
  exists lo hi, utf8_start (224 + q) = inr (mkUtf8 2 lo hi q) /\ lo <= 128 + r <= hi.
Proof.
  intros Hq Hr Hlo Hhi. unfold utf8_start. destruct (decide (q = 0)) as [->|]; [|destruct (decide (q = 13)) as [->|]];
    eexists _, _; settle_tests; (split; [do 2 f_equal; lia|lia]).
Qed.
Lemma utf8_start_four q r :
  0 <= q < 5 -> 0 <= r < 64 -> 16 <= q * 64 + r < 272 ->
  exists lo hi, utf8_start (240 + q) = inr (mkUtf8 3 lo hi q) /\ lo <= 128 + r <= hi.
Proof.
  intros Hq Hr Hb. unfold utf8_start. destruct (decide (q = 0)) as [->|]; [|destruct (decide (q = 4)) as [->|]];
    eexists _, _; settle_tests; (split; [do 2 f_equal; lia|lia]).
Qed.
Lemma utf8_decode_char c rest : rust_char c -> utf8_decode None (utf8_char c ++ rest) = Some c :: utf8_decode None rest.
Proof.
  unfold rust_char, utf8_char. intros Hc. destruct (Z.ltb_spec c 128).
  { cbn. unfold utf8_start. by settle_tests. }
  destruct (Z.ltb_spec c 2048); [|destruct (Z.ltb_spec c 65536)]; cbn [app].
  - erewrite utf8_begin by (apply utf8_start_two; Z.to_euclidean_division_equations; lia).
    rewrite utf8_next by (Z.to_euclidean_division_equations; lia). do 2 f_equal. Z.to_euclidean_division_equations; lia.
  - destruct (utf8_start_three (c / 4096) (c / 64 mod 64)) as (lo & hi & E & Hr);
      [Z.to_euclidean_division_equations; lia..|].
    rewrite (utf8_begin _ _ _ E), utf8_next, utf8_next by (done || Z.to_euclidean_division_equations; lia).
    do 2 f_equal. Z.to_euclidean_division_equations; lia.
  - destruct (utf8_start_four (c / 262144) (c / 4096 mod 64)) as (lo & hi & E & Hr);
      [Z.to_euclidean_division_equations; lia..|].
    rewrite (utf8_begin _ _ _ E), utf8_next, utf8_next, utf8_next by (done || Z.to_euclidean_division_equations; lia).
    do 2 f_equal. Z.to_euclidean_division_equations; lia.
Qed.
Lemma from_utf8_utf8 s : Forall rust_char s -> from_utf8 (utf8 s) = Some s.
Proof.
  intros Hs. unfold from_utf8. induction Hs as [|c s Hc Hs IH]; [done|].
  unfold utf8. cbn [map concat]. rewrite utf8_decode_char by done. cbn. unfold utf8 in IH. by rewrite IH.
Qed.

(** ** Trimming and words *)
Definition inked (s : str) : Prop := Forall (fun c => is_whitespace c = false) s.
Definition blank (s : str) : Prop := Forall (fun c => is_whitespace c = true) s.

Lemma drop_while_skip {A} (f : A -> bool) pad s :
  Forall (fun c => f c = true) pad -> drop_while f (pad ++ s) = drop_while f s.
Proof. induction 1 as [|c pad Hc _ IH]; [done|]. cbn. by rewrite Hc. Qed.
Lemma drop_while_stop {A} (f : A -> bool) c s : f c = false -> drop_while f (c :: s) = c :: s.
Proof. cbn. by intros ->. Qed.
Lemma drop_while_length {A} (f : A -> bool) s : (length (drop_while f s) <= length s)%nat.
Proof. induction s as [|c s IH]; cbn; [lia|]. destruct (f c); cbn; lia. Qed.
Lemma drop_while_again {A} (f : A -> bool) s : drop_while f (drop_while f s) = drop_while f s.
Proof. induction s as [|c s IH]; [done|]. cbn. destruct (f c) eqn:E; [done|]. cbn. by rewrite E. Qed.
Lemma drop_while_snoc {A} (f : A -> bool) s c : f c = false -> drop_while f (s ++ [c]) = drop_while f s ++ [c].
Proof. intros E. induction s as [|d s IH]; cbn; [by rewrite E|]. by destruct (f d). Qed.
Lemma trim_trim s : trim (trim s) = trim s.
Proof.
  unfold trim, trim_start. rewrite <-(drop_while_again _ s) at 1. destruct (drop_while is_whitespace s) as [|c r] eqn:E; [done|].
  assert (Hc : is_whitespace c = false).
  { pose proof (drop_while_again is_whitespace s) as Ha. rewrite E in Ha. cbn in Ha. destruct (is_whitespace c) eqn:Ec; [|done].
    apply (f_equal length) in Ha. pose proof (drop_while_length is_whitespace r). cbn in Ha. lia. }
  rewrite drop_while_stop by done. cbn [rev]. rewrite drop_while_snoc, rev_app_distr by done. cbn [rev app].
  rewrite drop_while_stop by done. cbn [rev]. by rewrite rev_involutive, drop_while_snoc, drop_while_again, rev_app_distr.
Qed.
Lemma blank_rev s : blank s -> blank (rev s).
Proof. intros H. by apply List.Forall_rev. Qed.
(** White space around a text that starts and ends with other characters goes. *)
Lemma trim_framed before c s d after :
  blank before -> blank after -> is_whitespace c = false -> is_whitespace d = false ->
  trim (before ++ (c :: s ++ [d]) ++ after) = c :: s ++ [d].
Proof.
  intros Hb Ha Hc Hd. unfold trim, trim_start. rewrite drop_while_skip by done.
  cbn [app]. rewrite drop_while_stop by done.
  change (c :: (s ++ [d]) ++ after) with ((c :: s ++ [d]) ++ after).
  rewrite rev_app_distr, drop_while_skip by (by apply blank_rev).
  change (c :: s ++ [d]) with ((c :: s) ++ [d]). rewrite rev_app_distr. cbn [rev app].
  rewrite drop_while_stop by done. cbn [rev]. by rewrite rev_app_distr, rev_involutive.
Qed.
Lemma trim_one before c after :
  blank before -> blank after -> is_whitespace c = false -> trim (before ++ [c] ++ after) = [c].
Proof.
  intros Hb Ha Hc. unfold trim, trim_start. rewrite drop_while_skip by done.
  cbn [app]. rewrite drop_while_stop by done. cbn [rev].
  rewrite drop_while_skip by (by apply blank_rev). by rewrite drop_while_stop.
Qed.
Lemma trim_inked before s after :
  blank before -> blank after -> inked s -> s <> [] -> trim (before ++ s ++ after) = s.
Proof.
  intros Hb Ha Hs Hne. inversion Hs as [|c s' Hc Hs']; subst; [done|].
  destruct s' as [|d s' _] using rev_ind; [by apply trim_one|].
  apply Forall_app in Hs' as [_ Hd]. inversion_clear Hd. by apply trim_framed.
Qed.
Lemma split_ws_word w s : inked s -> w ++ s <> [] -> split_ws (rev w) s = [w ++ s].
Proof.
  intros Hs. revert w. induction Hs as [|c s Hc Hs IH]; intros w Hne; cbn.
  - rewrite app_nil_r in *. destruct (rev w) as [|x r] eqn:E; [by apply (f_equal (@rev Z)) in E; rewrite rev_involutive in E|].
    by rewrite <-E, rev_involutive.
  - rewrite Hc. specialize (IH (w ++ [c])). rewrite rev_app_distr in IH. cbn in IH. rewrite IH.
    + by rewrite <-app_assoc.
    + by rewrite <-app_assoc; destruct w.
Qed.
Lemma split_whitespace_word s : inked s -> s <> [] -> split_whitespace s = [s].
Proof. intros Hs Hne. by apply (split_ws_word [] s). Qed.

(** ** Searching *)
Lemma find_str_char_none c s : ~ In c s -> find_str [c] s = None.
Proof.
  induction s as [|x s IH]; intros H; cbn; [done|].
  destruct (Z.eqb_spec c x) as [->|Hx]; [by destruct H; left|]. rewrite IH; [done|]. intros Hs. apply H. by right.
Qed.
Lemma find_str_char c a rest : ~ In c a -> find_str [c] (a ++ c :: rest) = Some (a, rest).
Proof.
  induction a as [|x a IH]; intros H; cbn; [by rewrite Z.eqb_refl|].
  destruct (Z.eqb_spec c x) as [->|Hx]; [by destruct H; left|]. rewrite IH; [done|]. intros Hs. apply H. by right.
Qed.
Lemma find_str_head_none c needle s : ~ In c s -> find_str (c :: needle) s = None.
Proof.
  induction s as [|x s IH]; intros H; cbn; [done|].
  destruct (Z.eqb_spec c x) as [->|Hx]; [by destruct H; left|]. rewrite IH; [done|]. intros Hs. apply H. by right.
Qed.
Lemma replace_str_absent c needle to s : ~ In c s -> replace_str (c :: needle) to s = s.
Proof. intros H. unfold replace_str. destruct (length s); [done|]. cbn [replace_fuel]. by rewrite find_str_head_none. Qed.

Lemma contains_char_false s c : ~ In c s -> contains_char s c = false.
Proof.
  intros Hn. unfold contains_char. destruct (existsb _ s) eqn:E; [|done].
  apply existsb_exists in E as (x & Hx & ->%Z.eqb_eq). done.
Qed.
Lemma split_on_field sep field rest : ~ In sep field -> split_on sep (field ++ sep :: rest) = field :: split_on sep rest.
Proof.
  induction field as [|c field IH]; intros Hn; cbn [app split_on]; [by rewrite Z.eqb_refl|]. rewrite IH by (intros ?; apply Hn; by right).
  destruct (Z.eqb_spec c sep) as [->|]; [destruct Hn; by left|done].
Qed.
Lemma split_on_last sep field : ~ In sep field -> split_on sep field = [field].
Proof.
  induction field as [|c field IH]; intros Hn; cbn [split_on]; [done|]. rewrite IH by (intros ?; apply Hn; by right).
  destruct (Z.eqb_spec c sep) as [->|]; [destruct Hn; by left|done].
Qed.

(** ** Lists *)
Lemma in_snoc {A} (x y : A) l : In x (l ++ [y]) <-> In x l \/ x = y.
Proof. rewrite in_app_iff. cbn. naive_solver. Qed.

Lemma mapM_app_Some {A B} (f : A -> option B) l1 l2 k1 k2 :
  mapM f l1 = Some k1 -> mapM f l2 = Some k2 -> mapM f (l1 ++ l2) = Some (k1 ++ k2).
Proof. rewrite !mapM_Some. apply Forall2_app. Qed.
Lemma position_Some {A} (p : A -> bool) l n : position p l = Some n -> exists a, l !! n = Some a /\ p a = true.
Proof.
  revert n. induction l as [|a l IH]; intros n; cbn; [done|]. destruct (p a) eqn:E.
  - intros [= <-]. by exists a.
  - destruct (position p l) as [m|]; cbn; [|done]. intros [= <-]. by apply IH.
Qed.
Lemma position_app {A} (p : A -> bool) l l' n : position p l = Some n -> position p (l ++ l') = Some n.
Proof.
  revert n. induction l as [|a l IH]; intros n; cbn; [done|]. destruct (p a); [done|].
  destruct (position p l) as [m|]; cbn; [|done]. intros [= <-]. by rewrite (IH m).
Qed.
Lemma position_lt {A} (p : A -> bool) l n : position p l = Some n -> (n < length l)%nat.
Proof. intros (a & Ha & _)%position_Some. by eapply lookup_lt_Some. Qed.
Lemma position_In {A} (p : A -> bool) l a : In a l -> p a = true -> exists n, position p l = Some n.
Proof.
  intros Hin Hp. induction l as [|b l IH]; [done|]. cbn. destruct (p b) eqn:E; [by eexists|].
  destruct Hin as [->|Hin]; [congruence|]. destruct (IH Hin) as [n ->]. by eexists.
Qed.

(** ** The depth of a JSON value *)
Fixpoint json_depth (v : json) : nat :=
  match v with
  | JArray items =>
      S ((fix deepest (l : list json) : nat := match l with [] => O | v :: l => Nat.max (json_depth v) (deepest l) end) items)
  | JObject fields =>
      S ((fix deepest (l : list (str * json)) : nat :=
            match l with [] => O | (_, v) :: l => Nat.max (json_depth v) (deepest l) end) fields)
  | _ => O
  end.
