(* ===== verification/Paths.v ===== *)
(** Unix paths as [std::path] reads them, the part of the file system the code
    consults, and the two normalizations built on it
    ([permissions/interactive.rs] and [external_observation.rs]).

    [std::path] compares paths by their components, so a [PathBuf] is the list of
    its components. *)
From S2P Require Import Prelude Text.

Inductive Component : Type := RootDir | CurDir | ParentDir | Normal (name : str).
#[global] Instance Component_eq_dec : EqDecision Component.
Proof. solve_decision. Defined.
Abbreviation Path := (list Component) (only parsing).

#[global] Instance Component_countable : countable.Countable Component.
Proof.
  refine (countable.inj_countable'
    (fun c => match c with RootDir => inl (inl tt) | CurDir => inl (inr tt)
                         | ParentDir => inr (inl tt) | Normal n => inr (inr n) end)
    (fun s => match s with inl (inl _) => RootDir | inl (inr _) => CurDir
                         | inr (inl _) => ParentDir | inr (inr n) => Normal n end) _).
  by intros [].
Defined.

(** [Path::components]: empty pieces and inner [.] pieces disappear; a leading
    [.] of a relative path stays. *)
Definition component_of (piece : str) : option Component :=
  if str_eqb piece [] || str_eqb piece $"." then None
  else if str_eqb piece $".." then Some ParentDir else Some (Normal piece).
Definition is_absolute (s : str) : bool := starts_with s $"/".
Definition components (s : str) : Path :=
  let pieces := split_on c_slash s in
  let body := omap component_of pieces in
  if is_absolute s then RootDir :: body
  else match pieces with
       | first :: _ => if str_eqb first $"." then CurDir :: body else body
       | [] => body
       end.
Definition is_normal (c : Component) : bool := match c with Normal _ => true | _ => false end.

Definition component_str (c : Component) : str :=
  match c with RootDir => [] | CurDir => $"." | ParentDir => $".." | Normal n => n end.
(** [to_string_lossy]. *)
Definition path_str (p : Path) : str :=
  match p with
  | [RootDir] => $"/"
  | _ => join $"/" (map component_str p)
  end.

(** [PathBuf::pop]: fails on the empty path and on the root. *)
Definition pop (p : Path) : option Path :=
  match rev p with
  | [] | RootDir :: _ => None
  | _ :: rest => Some (rev rest)
  end.
(** [PathBuf::push] and [Path::join] of one component. *)
Definition push (p : Path) (name : str) : Path := p ++ [Normal name].
(** [Path::strip_prefix] and [Path::starts_with]. *)
Fixpoint strip_path (prefix p : Path) : option Path :=
  match prefix, p with
  | [], _ => Some p
  | a :: prefix, b :: p => if decide (a = b) then strip_path prefix p else None
  | _ :: _, [] => None
  end.
Definition path_starts_with (p prefix : Path) : bool :=
  match strip_path prefix p with Some _ => true | None => false end.

(** ** The file system, as the code asks about it *)
Inductive FileKind : Type := Symlink | NotSymlink | NotFound | MetadataError.
Class FileSystem : Type := {
  canonicalize : Path -> option Path;
  path_exists : Path -> bool;
  (** [symlink_metadata]: does not follow the last component *)
  symlink_metadata : Path -> FileKind;
  is_file : Path -> bool;
  is_dir : Path -> bool;
  read_to_string : Path -> option str;
  (** [read_dir], as the names of the entries *)
  read_dir : Path -> option (list str);
}.

Section Normalize.
Context `{FileSystem}.

(** The loop both normalizations share: canonicalize when possible; otherwise
    the deepest ancestor that exists is canonicalized and the rest is put back.
    The ancestors of a path are the suffixes of its reversed components. *)
Fixpoint existing_ancestor (reversed : Path) (suffix : list str) : option (Path * list str) :=
  if path_exists (rev reversed) then Some (rev reversed, suffix)
  else match reversed with
       | Normal name :: rest => existing_ancestor rest (suffix ++ [name])
       | _ => None
       end.
Definition resolve_existing (lexical : Path) : Path :=
  match canonicalize lexical with
  | Some canonical => canonical
  | None =>
      match existing_ancestor (rev lexical) [] with
      | None => lexical
      | Some (current, suffix) =>
          foldl push (match canonicalize current with Some c => c | None => current end) (rev suffix)
      end
  end.

(** [normalize_abs_lexical]: [..] past the top is an error. *)
Fixpoint normalize_lexical (out : Path) (l : Path) : option Path :=
  match l with
  | [] => match out with [] => None | _ => Some out end
  | RootDir :: l => normalize_lexical [RootDir] l
  | CurDir :: l => normalize_lexical out l
  | Normal part :: l => normalize_lexical (push out part) l
  | ParentDir :: l => match pop out with Some out => normalize_lexical out l | None => None end
  end.
Definition normalize_abs_lexical (p : Path) : option Path := normalize_lexical [] p.
Definition normalize_abs_for_compare (p : Path) : option Path :=
  option_map resolve_existing (normalize_abs_lexical p).

(** [normalize_existing_prefix]: [..] past the top stays at the top. *)
Definition lexical_step (lexical : Path) (c : Component) : Path :=
  match c with
  | RootDir => [RootDir]
  | CurDir => lexical
  | Normal part => push lexical part
  | ParentDir => match pop lexical with Some l => l | None => lexical end
  end.
Definition normalize_existing_prefix (p : Path) : Path :=
  resolve_existing (foldl lexical_step [] p).
End Normalize.

(** ** Lemmas *)
Lemma strip_path_Some prefix p rest : strip_path prefix p = Some rest <-> p = prefix ++ rest.
Proof.
  revert p. induction prefix as [|a prefix IH]; intros p; cbn; [by split; [intros [= ->]|intros ->]|].
  destruct p as [|b p]; [done|]. destruct (decide (a = b)) as [->|Hab].
  - rewrite IH. split; [by intros ->|by intros [= ->]].
  - split; [done|]. by intros [= -> _].
Qed.
Lemma path_starts_with_spec p prefix : path_starts_with p prefix = true <-> exists rest, p = prefix ++ rest.
Proof.
  unfold path_starts_with. destruct (strip_path prefix p) as [rest|] eqn:E.
  - apply strip_path_Some in E. split; eauto.
  - split; [done|]. intros [rest Hr]. apply strip_path_Some in Hr. congruence.
Qed.
Lemma pop_push p name : pop (push p name) = Some p.
Proof. unfold pop, push. rewrite rev_app_distr. cbn. by rewrite rev_involutive. Qed.
