(* ===== verification/ShellLexer.v ===== *)
(** The quote-aware shell tokenizer of [permissions/shell/lexer.rs].

    The Rust [Lexer] is a mutable struct; here every method is a state
    transformer [LexM] that returns the updated lexer, or [Panic] where the
    Rust code would index or slice out of range, or [OutOfFuel] where a loop
    exceeds the iterations the model grants it. *)
From S2P Require Import Prelude.

(** The closed set of constructs the parser records instead of modelling. *)
Inductive OpaqueConstruct : Type :=
| CommandSubstitution | ProcessSubstitution | ArithmeticExpansion | AnsiCQuote
| Subshell | Group | FunctionDefinition | ControlFlow | Heredoc | Eval
| DynamicProgram | UnterminatedQuote | UnbalancedNesting | NestingTooDeep
| Oversized | Empty.

#[global] Instance OpaqueConstruct_eq_dec : EqDecision OpaqueConstruct.
Proof. solve_decision. Defined.

(** Declaration order, which [derive(Ord)] uses. *)
Definition opaque_rank (c : OpaqueConstruct) : nat :=
  match c with
  | CommandSubstitution => 0 | ProcessSubstitution => 1 | ArithmeticExpansion => 2
  | AnsiCQuote => 3 | Subshell => 4 | Group => 5 | FunctionDefinition => 6
  | ControlFlow => 7 | Heredoc => 8 | Eval => 9 | DynamicProgram => 10
  | UnterminatedQuote => 11 | UnbalancedNesting => 12 | NestingTooDeep => 13
  | Oversized => 14 | Empty => 15
  end%nat.

(** [BTreeSet<OpaqueConstruct>]: a strictly increasing list. *)
Fixpoint opaque_insert (c : OpaqueConstruct) (l : list OpaqueConstruct) : list OpaqueConstruct :=
  match l with
  | [] => [c]
  | d :: l' =>
      if (opaque_rank c <? opaque_rank d)%nat then c :: l
      else if (opaque_rank c =? opaque_rank d)%nat then l
      else d :: opaque_insert c l'
  end.
Definition opaque_contains (c : OpaqueConstruct) (l : list OpaqueConstruct) : bool :=
  existsb (fun d => bool_decide (c = d)) l.
Definition opaque_extend (l more : list OpaqueConstruct) : list OpaqueConstruct :=
  fold_left (fun acc c => opaque_insert c acc) more l.

Record Word : Type := mkWord {
  w_text : str;
  w_quoted : bool;
  w_dynamic : bool;
  w_glob : bool;
  w_assignment : bool;
}.
Definition default_word : Word := mkWord [] false false false false.
Definition push_text (s : str) (w : Word) : Word :=
  mkWord (w_text w ++ s) (w_quoted w) (w_dynamic w) (w_glob w) (w_assignment w).
Definition set_quoted (w : Word) : Word :=
  mkWord (w_text w) true (w_dynamic w) (w_glob w) (w_assignment w).
Definition set_dynamic (w : Word) : Word :=
  mkWord (w_text w) (w_quoted w) true (w_glob w) (w_assignment w).
Definition set_glob (w : Word) : Word :=
  mkWord (w_text w) (w_quoted w) (w_dynamic w) true (w_assignment w).
Definition set_assignment (w : Word) : Word :=
  mkWord (w_text w) (w_quoted w) (w_dynamic w) (w_glob w) true.

Inductive Connector : Type := Start | Sequence | And | Or | Pipe | Background.
#[global] Instance Connector_eq_dec : EqDecision Connector.
Proof. solve_decision. Defined.

Inductive RedirectKind : Type :=
| Input | Output | Append | ReadWrite | DupOutput | DupInput | HereString | HeredocKind.
#[global] Instance RedirectKind_eq_dec : EqDecision RedirectKind.
Proof. solve_decision. Defined.

Record Redirect : Type := mkRedirect {
  r_kind : RedirectKind;
  r_target : Word;
  r_body : option str;
}.

Record RawSegment : Type := mkSegment {
  s_connector : Connector;
  s_words : list Word;
  s_redirects : list Redirect;
}.

Record Lexed : Type := mkLexed {
  segments : list RawSegment;
  nested : list str;
  opaque : list OpaqueConstruct;
}.

Record PendingHeredoc : Type := mkPending {
  p_segment : nat;
  p_redirect : nat;
  p_delimiter : str;
  p_strip_tabs : bool;
  p_expands : bool;
}.

Record Lexer : Type := mkLexer {
  chars : str;
  index : nat;
  out : Lexed;
  current : RawSegment;
  pending : list PendingHeredoc;
}.

(** ** The lexer monad *)
Definition LexM (A : Type) : Type := Lexer -> Res (A * Lexer).
#[global] Instance lexm_ret : MRet LexM := fun _ a s => Ok (a, s).
#[global] Instance lexm_bind : MBind LexM := fun A B f m s =>
  match m s with
  | Ok (a, s') => f a s'
  | Panic => Panic
  | OutOfFuel => OutOfFuel
  end.

Definition gets {A} (f : Lexer -> A) : LexM A := fun s => Ok (f s, s).
Definition modify (f : Lexer -> Lexer) : LexM unit := fun s => Ok (tt, f s).
Definition lift_res {A} (r : Res A) : LexM A := fun s =>
  match r with Ok a => Ok (a, s) | Panic => Panic | OutOfFuel => OutOfFuel end.

Definition set_index (i : nat) (s : Lexer) : Lexer :=
  mkLexer (chars s) i (out s) (current s) (pending s).
Definition set_out (o : Lexed) (s : Lexer) : Lexer :=
  mkLexer (chars s) (index s) o (current s) (pending s).
Definition set_current (c : RawSegment) (s : Lexer) : Lexer :=
  mkLexer (chars s) (index s) (out s) c (pending s).
Definition set_pending (p : list PendingHeredoc) (s : Lexer) : Lexer :=
  mkLexer (chars s) (index s) (out s) (current s) p.

Definition advance (n : nat) : LexM unit := modify (fun s => set_index (index s + n) s).

Definition peek_at (s : Lexer) (offset : nat) : option char := chars s !! (index s + offset)%nat.
Definition peek (offset : nat) : LexM (option char) := gets (fun s => peek_at s offset).
Definition peek_is (offset : nat) (c : char) : LexM bool :=
  gets (fun s => bool_decide (peek_at s offset = Some c)).

Definition flag (c : OpaqueConstruct) : LexM unit :=
  modify (fun s => set_out (mkLexed (segments (out s)) (nested (out s))
                                    (opaque_insert c (opaque (out s)))) s).
Definition push_nested (text : str) : LexM unit :=
  modify (fun s => set_out (mkLexed (segments (out s)) (nested (out s) ++ [text])
                                    (opaque (out s))) s).
Definition set_words (ws : list Word) : LexM unit :=
  modify (fun s => set_current (mkSegment (s_connector (current s)) ws (s_redirects (current s))) s).
Definition push_word (w : Word) : LexM unit :=
  modify (fun s => set_current (mkSegment (s_connector (current s)) (s_words (current s) ++ [w])
                                          (s_redirects (current s))) s).
Definition push_current_redirect (r : Redirect) : LexM unit :=
  modify (fun s => set_current (mkSegment (s_connector (current s)) (s_words (current s))
                                          (s_redirects (current s) ++ [r])) s).

(** [self.chars[a..b]]: panics unless [a <= b <= len]. *)
Definition slice_chars (a b : nat) : LexM str := fun s =>
  if (a <=? b)%nat && (b <=? length (chars s))%nat
  then Ok (take (b - a) (drop a (chars s)), s)
  else Panic.

(** [while self.peek(0).is_some_and(f) { self.index += 1 }] *)
Fixpoint run_length (f : char -> bool) (l : str) : nat :=
  match l with
  | [] => 0
  | c :: l => if f c then S (run_length f l) else 0
  end.
Definition skip_while (f : char -> bool) : LexM unit :=
  modify (fun s => set_index (index s + run_length f (drop (index s) (chars s))) s).

(** [while let Some(c) = self.peek(0) { match c { '\\' => self.index += 2,
    q => break, _ => self.index += 1 } }]: a trailing backslash moves the index
    one past the end. *)
Fixpoint unescaped_length (q : char) (l : str) : nat :=
  match l with
  | [] => 0
  | c :: l =>
      if c =? c_backslash then
        match l with [] => 2 | _ :: l => S (S (unescaped_length q l)) end
      else if c =? q then 0
      else S (unescaped_length q l)
  end.
Definition skip_unescaped (q : char) : LexM unit :=
  modify (fun s => set_index (index s + unescaped_length q (drop (index s) (chars s))) s).

(** ** Character classes *)
Definition is_operator_start (c : char) : bool :=
  (c =? c_semi) || (c =? c_amp) || (c =? c_pipe) || (c =? c_lt) || (c =? c_gt)
  || (c =? c_lparen) || (c =? c_rparen).
Definition is_name_char (c : char) : bool := is_ascii_alphanumeric c || (c =? c_underscore).
Definition is_reserved_prefix (word : str) : bool :=
  one_of word ["if"; "then"; "elif"; "else"; "do"; "while"; "until"; "!"; "time"].
Definition is_blank (c : char) : bool := (c =? c_space) || (c =? c_tab).

(** ** Guards that only read the state *)
Definition at_command_start (s : Lexer) : bool :=
  match s_redirects (current s) with [] => true | _ => false end
  && forallb (fun w => negb (w_quoted w) && is_reserved_prefix (w_text w)) (s_words (current s)).

Definition after_function_keyword (s : Lexer) : bool :=
  match s_words (current s) with
  | [keyword; _] => str_eqb (w_text keyword) $"function"
  | _ => false
  end.

Definition names_function (s : Lexer) : bool :=
  match s_words (current s) with
  | [name] => negb (w_quoted name) && negb (w_assignment name) && negb (w_dynamic name)
              && negb (bool_decide (w_text name = []))
  | [_; _] => after_function_keyword s
  | _ => false
  end.

Definition at_word_boundary (s : Lexer) : bool :=
  (index s =? 0)%nat
  || match chars s !! (index s - 1)%nat with
     | Some c => is_whitespace c || (c =? c_semi) || (c =? c_amp) || (c =? c_pipe)
                 || (c =? c_lparen) || (c =? c_rparen)
     | None => false
     end.

Definition fd_redirect_ahead (s : Lexer) : bool :=
  at_word_boundary s
  && let offset := run_length is_ascii_digit (drop (index s) (chars s)) in
     match peek_at s offset with
     | Some c => (c =? c_lt) || (c =? c_gt)
     | None => false
     end
     && negb (bool_decide (peek_at s (offset + 1) = Some c_lparen)).

Definition next_non_space_after (s : Lexer) (offset : nat) : option char :=
  peek_at s (offset + run_length is_blank (drop (index s + offset) (chars s))).

(** [self.peek(1).is_none_or(char::is_whitespace)] *)
Definition next_none_or_whitespace (s : Lexer) : bool :=
  match peek_at s 1 with None => true | Some c => is_whitespace c end.

Definition finish_segment (next : Connector) : LexM unit :=
  modify (fun s =>
    let segment := current s in
    let s := set_current (mkSegment next [] []) s in
    match s_words segment, s_redirects segment with
    | [], [] =>
        match s_connector segment with
        | Start | Sequence => s
        | connector => set_current (mkSegment connector [] []) s
        end
    | _, _ =>
        set_out (mkLexed (segments (out s) ++ [segment]) (nested (out s)) (opaque (out s))) s
    end).

Definition skip_blank : LexM unit := skip_while is_whitespace.
Definition skip_inline_blank : LexM unit := skip_while is_blank.
Definition skip_comment : LexM unit := skip_while (fun c => negb (c =? c_nl)).

Definition skip_char (expected : char) : LexM unit :=
  b ← peek_is 0 expected;
  if (b : bool) then advance 1 else flag UnbalancedNesting.

(** Text wrapped by [lex_double_quoted] before it is lexed again. *)
Definition double_quoted_source (text : str) : str :=
  c_dquote
  :: concat (map (fun c => if c =? c_dquote then [c_backslash; c] else [c]) text)
  ++ [c_dquote].

(** ** Loops

    [loop fuel body a] runs [body] until it returns [inr]; [fuel] bounds the
    number of iterations. *)
Fixpoint loop {A B} (fuel : nat) (body : A -> LexM (A + B)) (a : A) : LexM B :=
  match fuel with
  | O => fun _ => OutOfFuel
  | S fuel => r ← body a; match r with inl a => loop fuel body a | inr b => mret b end
  end.
Definition continue {A B} (a : A) : LexM (A + B) := mret (inl a).
Definition break {A B} (b : B) : LexM (A + B) := mret (inr b).

Section Lex.

(** [extra] is granted on top of one iteration per remaining character, so
    that divergence can be stated for every fuel; [lex_rec] is the recursive
    call of [lex] through [lex_double_quoted]. *)
Context (extra : nat) (lex_rec : str -> Res Lexed).

Definition fuel_for (s : Lexer) : nat := S (length (chars s) + extra).

Definition scan_expansions (text : str) : LexM unit :=
  inner ← lift_res (lex_rec (double_quoted_source text));
  (match nested inner with [] => mret tt | _ => flag CommandSubstitution end) ;;
  modify (fun s => set_out (mkLexed (segments (out s)) (nested (out s) ++ nested inner)
                                    (opaque (out s))) s).

Definition balanced_step (open close : char) (start : nat) (depth : nat)
    : LexM (nat + option str) :=
  c ← peek 0;
  match c with
  | None => break None
  | Some c =>
      if c =? c_backslash then advance 2 ;; continue depth
      else if c =? c_squote then
        advance 1 ;; skip_while (fun c => negb (c =? c_squote)) ;; advance 1 ;; continue depth
      else if c =? c_dquote then
        advance 1 ;; skip_unescaped c_dquote ;; advance 1 ;; continue depth
      else if c =? close then
        let depth := (depth - 1)%nat in
        if (depth =? 0)%nat then
          finish ← gets (fun s => Nat.min (index s) (length (chars s)));
          text ← slice_chars start finish;
          break (Some text)
        else advance 1 ;; continue depth
      else if c =? open then advance 1 ;; continue (S depth)
      else advance 1 ;; continue depth
  end.

Definition read_balanced_text (open close : char) : LexM str :=
  start ← gets index;
  fuel ← gets fuel_for;
  found ← loop fuel (balanced_step open close start) 1%nat;
  match found with
  | Some text => mret text
  | None =>
      flag UnbalancedNesting ;;
      finish ← gets (fun s => Nat.min (index s) (length (chars s)));
      modify (fun s => set_index (length (chars s)) s) ;;
      slice_chars (Nat.min start finish) finish
  end.

Definition read_balanced_into_nested (open close : char) : LexM str :=
  inner ← read_balanced_text open close;
  closed ← peek_is 0 close;
  (if (closed : bool) then advance 1 else mret tt) ;;
  push_nested inner ;;
  mret inner.

Definition backtick_step (inner : str) : LexM (str + (str * bool)) :=
  c ← peek 0;
  match c with
  | None => break (inner, false)
  | Some c =>
      if c =? c_backslash then
        next ← peek 1;
        advance 2 ;;
        continue (match next with
                  | Some n =>
                      if (n =? c_backtick) || (n =? c_backslash) || (n =? c_dollar)
                      then inner ++ [n] else inner ++ [c_backslash; n]
                  | None => inner
                  end)
      else if c =? c_backtick then advance 1 ;; break (inner, true)
      else advance 1 ;; continue (inner ++ [c])
  end.

Definition read_backtick (word : Word) : LexM Word :=
  advance 1 ;;
  flag CommandSubstitution ;;
  fuel ← gets fuel_for;
  r ← loop fuel backtick_step [];
  (if (snd r : bool) then mret tt else flag UnterminatedQuote) ;;
  push_nested (fst r) ;;
  mret (set_dynamic (push_text ([c_backtick] ++ fst r ++ [c_backtick]) word)).

(** [read_dollar], with [read_double_quoted] as the continuation for the
    locale form [$"..."]. *)
Definition read_dollar_with (read_dq : Word -> LexM Word) (word : Word)
    (in_double_quotes : bool) : LexM Word :=
  advance 1 ;;
  c ← peek 0;
  second ← peek 1;
  match c with
  | Some c =>
      if (c =? c_lparen) && bool_decide (second = Some c_lparen) then
        advance 2 ;;
        flag ArithmeticExpansion ;;
        inner ← read_balanced_text c_lparen c_rparen;
        skip_char c_rparen ;;
        skip_char c_rparen ;;
        mret (set_dynamic (push_text ($"$((" ++ inner ++ $"))") word))
      else if c =? c_lparen then
        advance 1 ;;
        flag CommandSubstitution ;;
        inner ← read_balanced_into_nested c_lparen c_rparen;
        mret (set_dynamic (push_text ($"$(" ++ inner ++ $")") word))
      else if c =? c_lbrace then
        advance 1 ;;
        inner ← read_balanced_text c_lbrace c_rbrace;
        skip_char c_rbrace ;;
        (if contains_str inner $"$(" || contains_char inner c_backtick
         then scan_expansions inner else mret tt) ;;
        mret (set_dynamic (push_text ($"${" ++ inner ++ $"}") word))
      else if (c =? c_squote) && negb in_double_quotes then
        advance 1 ;;
        flag AnsiCQuote ;;
        start ← gets index;
        skip_unescaped c_squote ;;
        finish ← gets (fun s => Nat.min (index s) (length (chars s)));
        text ← slice_chars start finish;
        next ← peek 0;
        (match next with None => flag UnterminatedQuote | Some _ => mret tt end) ;;
        advance 1 ;;
        mret (set_dynamic (set_quoted (push_text ([c_dollar; c_squote] ++ text ++ [c_squote]) word)))
      else if (c =? c_dquote) && negb in_double_quotes then
        advance 1 ;;
        read_dq (set_quoted word)
      else if is_name_char c || (c =? c_quest) || (c =? c_hash) || (c =? c_at)
              || (c =? c_star) || (c =? c_bang) || (c =? c_dash) || (c =? c_dollar) then
        if is_name_char c && negb (is_ascii_digit c) then
          name ← gets (fun s => take (run_length is_name_char (drop (index s) (chars s)))
                                     (drop (index s) (chars s)));
          skip_while is_name_char ;;
          mret (set_dynamic (push_text ([c_dollar] ++ name) word))
        else
          advance 1 ;;
          mret (set_dynamic (push_text [c_dollar; c] word))
      else mret (push_text [c_dollar] word)
  | None => mret (push_text [c_dollar] word)
  end.

(** One iteration of [read_double_quoted]. Inside double quotes [read_dollar]
    never takes its locale branch, so the continuation given here is unused. *)
Definition double_quoted_step (word : Word) : LexM (Word + (Word * bool)) :=
  c ← peek 0;
  match c with
  | None => break (word, false)
  | Some c =>
      if c =? c_dquote then advance 1 ;; break (word, true)
      else if c =? c_backslash then
        advance 1 ;;
        e ← peek 0;
        match e with
        | Some e =>
            if (e =? c_dollar) || (e =? c_backtick) || (e =? c_dquote) || (e =? c_backslash)
            then advance 1 ;; continue (push_text [e] word)
            else if e =? c_nl then advance 1 ;; continue word
            else continue (push_text [c_backslash] word)
        | None => continue word
        end
      else if c =? c_dollar then
        w ← read_dollar_with (fun w => mret w) word true; continue w
      else if c =? c_backtick then w ← read_backtick word; continue w
      else advance 1 ;; continue (push_text [c] word)
  end.

Definition read_double_quoted (word : Word) : LexM Word :=
  fuel ← gets fuel_for;
  r ← loop fuel double_quoted_step word;
  (if (snd r : bool) then mret tt else flag UnterminatedQuote) ;;
  mret (fst r).

Definition read_dollar : Word -> bool -> LexM Word := read_dollar_with read_double_quoted.

Definition word_step (st : Word * bool) : LexM ((Word * bool) + Word) :=
  let '(word, name_prefix) := st in
  c ← peek 0;
  next ← peek 1;
  match c with
  | None => break word
  | Some c =>
      if is_whitespace c then break word
      else if is_operator_start c then break word
      else if c =? c_backslash then
        advance 1 ;;
        e ← peek 0;
        match e with
        | Some e =>
            if e =? c_nl then advance 1 ;; continue (word, false)
            else advance 1 ;; continue (set_quoted (push_text [e] word), false)
        | None => continue (word, false)
        end
      else if c =? c_squote then
        advance 1 ;;
        start ← gets index;
        skip_while (fun c => negb (c =? c_squote)) ;;
        close ← peek 0;
        (match close with None => flag UnterminatedQuote | Some _ => mret tt end) ;;
        finish ← gets index;
        text ← slice_chars start finish;
        advance 1 ;;
        continue (push_text text (set_quoted word), false)
      else if c =? c_dquote then
        advance 1 ;;
        w ← read_double_quoted (set_quoted word);
        continue (w, false)
      else if c =? c_dollar then w ← read_dollar word false; continue (w, false)
      else if c =? c_backtick then w ← read_backtick word; continue (w, false)
      else if (c =? c_eq) && name_prefix && negb (bool_decide (w_text word = [])) then
        advance 1 ;; continue (push_text [c] (set_assignment word), false)
      else if (c =? c_plus) && name_prefix && bool_decide (next = Some c_eq)
              && negb (bool_decide (w_text word = [])) then
        advance 2 ;; continue (push_text [c_plus; c_eq] (set_assignment word), false)
      else
        let empty := bool_decide (w_text word = []) in
        let name_prefix :=
          if negb (is_name_char c) || (empty && is_ascii_digit c) then false else name_prefix in
        let word := if (c =? c_star) || (c =? c_quest) || (c =? c_lbracket) || (c =? c_lbrace)
                    then set_glob word else word in
        let word := if (c =? c_tilde) && empty then set_dynamic word else word in
        advance 1 ;; continue (push_text [c] word, name_prefix)
  end.

Definition read_word : LexM Word :=
  fuel ← gets fuel_for;
  loop fuel word_step (default_word, true).

Definition function_body : LexM unit :=
  flag FunctionDefinition ;;
  set_words [] ;;
  skip_blank ;;
  c ← peek 0;
  match c with
  | Some c =>
      if c =? c_lbrace then
        advance 1 ;; _ ← read_balanced_into_nested c_lbrace c_rbrace; mret tt
      else if c =? c_lparen then
        advance 1 ;; _ ← read_balanced_into_nested c_lparen c_rparen; mret tt
      else flag UnbalancedNesting
  | None => flag UnbalancedNesting
  end.

Definition open_paren : LexM unit :=
  names ← gets (fun s => names_function s
                         && bool_decide (next_non_space_after s 1 = Some c_rparen));
  if (names : bool) then
    advance 1 ;;
    skip_while (fun c => negb (c =? c_rparen)) ;;
    advance 1 ;;
    function_body
  else
    start ← gets at_command_start;
    if (start : bool) then
      advance 1 ;;
      double ← peek_is 0 c_lparen;
      if (double : bool) then
        flag ArithmeticExpansion ;;
        advance 1 ;;
        _ ← read_balanced_text c_lparen c_rparen;
        skip_char c_rparen ;;
        skip_char c_rparen
      else
        flag Subshell ;;
        _ ← read_balanced_into_nested c_lparen c_rparen;
        mret tt
    else flag UnbalancedNesting ;; advance 1.

Definition process_substitution : LexM unit :=
  advance 2 ;;
  flag ProcessSubstitution ;;
  inner ← read_balanced_into_nested c_lparen c_rparen;
  push_word (mkWord ($"<(" ++ inner ++ $")") false true false false).

Definition push_redirect (kind : RedirectKind) : LexM unit :=
  skip_inline_blank ;;
  c ← peek 0;
  if match c with None => true | Some c => is_operator_start c || (c =? c_nl) end
  then flag UnbalancedNesting
  else
    target ← read_word;
    let kind :=
      match kind with
      | DupOutput =>
          if str_eqb (w_text target) $"-" || forallb is_ascii_digit (w_text target)
          then DupOutput else Output
      | other => other
      end in
    let body := match kind with HereString => Some (w_text target) | _ => None end in
    push_current_redirect (mkRedirect kind target body).

Definition heredoc : LexM unit :=
  dash ← peek_is 0 c_dash;
  (if (dash : bool) then advance 1 else mret tt) ;;
  skip_inline_blank ;;
  delimiter ← read_word;
  flag Heredoc ;;
  push_current_redirect (mkRedirect HeredocKind delimiter None) ;;
  modify (fun s => set_pending
    (pending s ++ [mkPending (length (segments (out s))) (length (s_redirects (current s)) - 1)
                             (w_text delimiter) dash (negb (w_quoted delimiter))]) s).

Definition redirect : LexM unit :=
  c ← peek 0;
  advance 1 ;;
  next ← peek 0;
  let at_ o x := bool_decide (o = Some x) in
  if at_ c c_gt && at_ next c_gt then advance 1 ;; push_redirect Append
  else if at_ c c_gt && at_ next c_pipe then advance 1 ;; push_redirect Output
  else if at_ c c_gt && at_ next c_amp then advance 1 ;; push_redirect DupOutput
  else if at_ c c_gt then push_redirect Output
  else if at_ c c_lt && at_ next c_lt then
    advance 1 ;;
    third ← peek_is 0 c_lt;
    if (third : bool) then advance 1 ;; push_redirect HereString else heredoc
  else if at_ c c_lt && at_ next c_gt then advance 1 ;; push_redirect ReadWrite
  else if at_ c c_lt && at_ next c_amp then advance 1 ;; push_redirect DupInput
  else push_redirect Input.

(** One line of a heredoc body. *)
Definition heredoc_step (p : PendingHeredoc) (body : str) : LexM (str + (str * bool)) :=
  more ← gets (fun s => (index s <? length (chars s))%nat);
  if (more : bool) then
    start ← gets index;
    skip_while (fun c => negb (c =? c_nl)) ;;
    finish ← gets index;
    line ← slice_chars start finish;
    newline ← peek_is 0 c_nl;
    (if (newline : bool) then advance 1 else mret tt) ;;
    let compared := if p_strip_tabs p then drop_while (Z.eqb c_tab) line else line in
    if str_eqb compared (p_delimiter p) then break (body, true)
    else continue (body ++ line ++ [c_nl])
  else break (body, false).

Definition set_body (body : str) (r : Redirect) : Redirect :=
  mkRedirect (r_kind r) (r_target r) (Some body).
Definition set_heredoc_body (p : PendingHeredoc) (body : str) (o : Lexed) : Lexed :=
  mkLexed
    (alter (fun seg => mkSegment (s_connector seg) (s_words seg)
                         (alter (set_body body) (p_redirect p) (s_redirects seg)))
           (p_segment p) (segments o))
    (nested o) (opaque o).

Definition read_heredoc (p : PendingHeredoc) : LexM unit :=
  fuel ← gets fuel_for;
  r ← loop fuel (heredoc_step p) [];
  (if (snd r : bool) then mret tt else flag UnterminatedQuote) ;;
  (if p_expands p then scan_expansions (fst r) else mret tt) ;;
  modify (fun s => set_out (set_heredoc_body p (fst r) (out s)) s).

Fixpoint for_each {A} (f : A -> LexM unit) (l : list A) : LexM unit :=
  match l with [] => mret tt | a :: l => f a ;; for_each f l end.

Definition read_pending_heredocs : LexM unit :=
  taken ← gets pending;
  modify (set_pending []) ;;
  for_each read_heredoc taken.

(** One iteration of the main loop [run]. *)
Definition run_step (_ : unit) : LexM (unit + unit) :=
  c ← peek 0;
  match c with
  | None => break tt
  | Some c =>
      boundary ← gets at_word_boundary;
      next ← peek 1;
      fd ← gets fd_redirect_ahead;
      start ← gets at_command_start;
      body ← gets (fun s => next_none_or_whitespace s && after_function_keyword s);
      group ← gets (fun s => at_command_start s && next_none_or_whitespace s);
      let next_is x := bool_decide (next = Some x) in
      (if (c =? c_space) || (c =? c_tab) then advance 1
       else if c =? c_cr then advance 1
       else if c =? c_nl then
         advance 1 ;; finish_segment Sequence ;; read_pending_heredocs
       else if (c =? c_hash) && boundary then skip_comment
       else if (c =? c_backslash) && next_is c_nl then advance 2
       else if c =? c_semi then
         (if next_is c_semi then flag ControlFlow ;; advance 2 else advance 1) ;;
         finish_segment Sequence
       else if c =? c_amp then
         if next_is c_amp then advance 2 ;; finish_segment And
         else if next_is c_gt then
           advance 2 ;;
           twice ← peek_is 0 c_gt;
           if (twice : bool) then advance 1 ;; push_redirect Append else push_redirect Output
         else advance 1 ;; finish_segment Background
       else if c =? c_pipe then
         if next_is c_pipe then advance 2 ;; finish_segment Or
         else if next_is c_amp then advance 2 ;; finish_segment Pipe
         else advance 1 ;; finish_segment Pipe
       else if ((c =? c_lt) || (c =? c_gt)) && next_is c_lparen then process_substitution
       else if (c =? c_lt) || (c =? c_gt) then redirect
       else if is_ascii_digit c && fd then skip_while is_ascii_digit ;; redirect
       else if c =? c_lparen then open_paren
       else if c =? c_rparen then
         flag UnbalancedNesting ;; advance 1 ;; finish_segment Sequence
       else if (c =? c_lbrace) && body then function_body
       else if (c =? c_lbrace) && group then
         advance 1 ;; flag Group ;; _ ← read_balanced_into_nested c_lbrace c_rbrace; mret tt
       else if (c =? c_rbrace) && start then flag UnbalancedNesting ;; advance 1
       else word ← read_word; push_word word) ;;
      continue tt
  end.

Definition run : LexM unit :=
  fuel ← gets fuel_for;
  loop fuel run_step tt ;;
  finish_segment Sequence ;;
  left ← gets pending;
  match left with
  | [] => mret tt
  | _ => flag UnterminatedQuote ;; modify (set_pending [])
  end.

Definition init_lexer (source : str) : Lexer :=
  mkLexer source 0 (mkLexed [] [] []) (mkSegment Start [] []) [].

Definition lex_with (source : str) : Res Lexed :=
  r ← run (init_lexer source); mret (out (snd r)).

End Lex.

(** [lex], with [depth] levels of re-lexing through [lex_double_quoted]. *)
Fixpoint lex_gen (extra depth : nat) (source : str) : Res Lexed :=
  match depth with
  | O => OutOfFuel
  | S depth => lex_with extra (lex_gen extra depth) source
  end.

(** Re-lexed text comes after a [$] or a [<] of the text it is part of, so the
    nesting of re-lexing is at most the number of those characters. *)
Definition relex_weight (s : str) : nat :=
  length (List.filter (fun c => (c =? c_dollar) || (c =? c_lt)) s).

Definition lex (source : str) : Res Lexed :=
  lex_gen 0 (S (relex_weight source)) source.
