(* ===== verification/ShellLexerFacts.v ===== *)
(** Correctness of the shell tokenizer: a weakest-precondition calculus for
    the lexer monad, termination and panic freedom on commands whose white
    space is the shell's own, and divergence on any other white space. *)
From S2P Require Import Prelude ShellLexer.

(** ** Weakest preconditions: [wp m s Q] says that [m], started in [s],
    returns normally and its result satisfies [Q]. *)
Definition wp {A} (m : LexM A) (s : Lexer) (Q : A -> Lexer -> Prop) : Prop :=
  match m s with Ok (a, s') => Q a s' | Panic => False | OutOfFuel => False end.

Lemma wp_bind {A B} (m : LexM A) (f : A -> LexM B) s Q :
  wp (m ≫= f) s Q = wp m s (fun a s' => wp (f a) s' Q).
Proof. unfold wp, mbind, lexm_bind. by destruct (m s) as [[a s']| |]. Qed.
Lemma wp_ret {A} (a : A) s (Q : A -> Lexer -> Prop) : wp (mret a) s Q = Q a s.
Proof. done. Qed.
Lemma wp_gets {A} (f : Lexer -> A) s (Q : A -> Lexer -> Prop) : wp (gets f) s Q = Q (f s) s.
Proof. done. Qed.
Lemma wp_modify f s (Q : unit -> Lexer -> Prop) : wp (modify f) s Q = Q tt (f s).
Proof. done. Qed.
Lemma wp_peek o s (Q : option Z -> Lexer -> Prop) : wp (peek o) s Q = Q (peek_at s o) s.
Proof. done. Qed.
Lemma wp_peek_is o c s (Q : bool -> Lexer -> Prop) :
  wp (peek_is o c) s Q = Q (bool_decide (peek_at s o = Some c)) s.
Proof. done. Qed.
Lemma wp_advance n s (Q : unit -> Lexer -> Prop) :
  wp (advance n) s Q = Q tt (set_index (index s + n) s).
Proof. done. Qed.
Lemma wp_continue {A B} (a : A) s (Q : A + B -> Lexer -> Prop) : wp (continue a) s Q = Q (inl a) s.
Proof. done. Qed.
Lemma wp_break {A B} (b : B) s (Q : A + B -> Lexer -> Prop) : wp (break b) s Q = Q (inr b) s.
Proof. done. Qed.
Lemma wp_skip_while f s (Q : unit -> Lexer -> Prop) :
  wp (skip_while f) s Q
  = Q tt (set_index (index s + run_length f (drop (index s) (chars s))) s).
Proof. done. Qed.
Lemma wp_skip_unescaped q s (Q : unit -> Lexer -> Prop) :
  wp (skip_unescaped q) s Q
  = Q tt (set_index (index s + unescaped_length q (drop (index s) (chars s))) s).
Proof. done. Qed.

Lemma wp_slice a b s (Q : str -> Lexer -> Prop) :
  (a <= b)%nat -> (b <= length (chars s))%nat ->
  Q (take (b - a) (drop a (chars s))) s -> wp (slice_chars a b) s Q.
Proof.
  intros H1 H2 HQ. unfold wp, slice_chars.
  apply Nat.leb_le in H1, H2. by rewrite H1, H2.
Qed.

Lemma wp_mono {A} (m : LexM A) s (Q Q' : A -> Lexer -> Prop) :
  wp m s Q -> (forall a s', Q a s' -> Q' a s') -> wp m s Q'.
Proof. unfold wp. destruct (m s) as [[a s']| |]; naive_solver. Qed.

Create Rewrite HintDb wp.
#[export] Hint Rewrite @wp_bind @wp_ret @wp_gets wp_modify wp_peek wp_peek_is wp_advance
  @wp_continue @wp_break wp_skip_while wp_skip_unescaped : wp.

(** Characters left to read; every loop of the lexer decreases it. *)
Definition left (s : Lexer) : nat := (length (chars s) - index s)%nat.

Lemma wp_loop {A B} (Inv : A -> Lexer -> Prop) (Q : B -> Lexer -> Prop)
    (body : A -> LexM (A + B)) :
  (forall a s, Inv a s ->
     wp (body a) s (fun r s' => match r with
                                | inl a' => Inv a' s' /\ (left s' < left s)%nat
                                | inr b => Q b s' end)) ->
  forall fuel a s, (left s < fuel)%nat -> Inv a s -> wp (loop fuel body a) s Q.
Proof.
  intros Hbody fuel. induction fuel as [|fuel IH]; intros a s Hf HI; [lia|].
  cbn [loop]. rewrite wp_bind. apply (wp_mono _ _ _ _ (Hbody a s HI)).
  intros [a'|b] s' Hr; [|done]. destruct Hr as [HI' Hl]. apply IH; [lia|done].
Qed.

(** ** Plain text: white space is blank, tab, carriage return or newline *)
Definition plain_char (c : char) : bool :=
  negb (is_whitespace c) || (c =? c_space) || (c =? c_tab) || (c =? c_nl) || (c =? c_cr).
Definition plain (s : str) : Prop := Forall (fun c => plain_char c = true) s.

Definition plain_word (w : Word) : Prop := plain (w_text w).
Definition plain_redirect (r : Redirect) : Prop :=
  plain_word (r_target r) /\ forall b, r_body r = Some b -> plain b.
Definition plain_segment (seg : RawSegment) : Prop :=
  Forall plain_word (s_words seg) /\ Forall plain_redirect (s_redirects seg).
Definition plain_lexed (l : Lexed) : Prop :=
  Forall plain_segment (segments l) /\ Forall plain (nested l).

Lemma plain_app a b : plain a -> plain b -> plain (a ++ b).
Proof. unfold plain. intros. by apply Forall_app. Qed.
Lemma plain_take n s : plain s -> plain (take n s).
Proof. apply Forall_take. Qed.
Lemma plain_drop n s : plain s -> plain (drop n s).
Proof. apply Forall_drop. Qed.
Lemma plain_lookup s i c : plain s -> s !! i = Some c -> plain_char c = true.
Proof. intros H Hi. by eapply Forall_lookup_1 in H. Qed.
Lemma plain_one c : plain_char c = true -> plain [c].
Proof. intros. by repeat constructor. Qed.
Lemma plain_double_quoted t : plain t -> plain (double_quoted_source t).
Proof.
  intros H. constructor; [done|]. apply Forall_app; split; [|by repeat constructor].
  induction H as [|c l Hc H IH]; cbn; [constructor|]. apply Forall_app; split; [|done].
  destruct (c =? c_dquote); repeat constructor; done.
Qed.

Lemma plain_cons c s : plain_char c = true -> plain s -> plain (c :: s).
Proof. by constructor. Qed.

Create HintDb plain.
#[export] Hint Resolve plain_cons plain_app plain_take plain_drop plain_one plain_double_quoted : plain.
#[export] Hint Extern 2 (plain _) => (by repeat constructor) : plain.
#[export] Hint Extern 1 (plain_char _ = true) => reflexivity : plain.
Ltac solve_plain :=
  unfold plain_word in *;
  cbn [w_text push_text set_dynamic set_quoted set_glob set_assignment default_word] in *;
  solve [auto 10 with plain].

(** ** Weights bound the nesting of re-lexing *)
Lemma relex_weight_app a b : relex_weight (a ++ b) = (relex_weight a + relex_weight b)%nat.
Proof. unfold relex_weight. by rewrite List.filter_app, length_app. Qed.

Lemma relex_weight_double_quoted t : relex_weight (double_quoted_source t) = relex_weight t.
Proof.
  unfold double_quoted_source.
  change (c_dquote :: ?l) with ([c_dquote] ++ l). rewrite !relex_weight_app. cbn [Nat.add].
  replace (relex_weight [c_dquote]) with 0%nat by done. rewrite Nat.add_0_r. cbn [Nat.add].
  induction t as [|c t IH]; [done|]. cbn [map concat]. rewrite relex_weight_app, IH.
  change (c :: t) with ([c] ++ t). rewrite relex_weight_app. f_equal.
  destruct (Z.eqb_spec c c_dquote) as [->|]; done.
Qed.

Lemma relex_weight_take n s : (relex_weight (take n s) <= relex_weight s)%nat.
Proof. rewrite <-(take_drop n s) at 2. rewrite relex_weight_app. lia. Qed.

Definition heavy (c : char) : bool := (c =? c_dollar) || (c =? c_lt).

Lemma relex_weight_drop s i a c :
  s !! i = Some c -> heavy c = true -> (i < a)%nat ->
  (relex_weight (drop a s) < relex_weight s)%nat.
Proof.
  intros Hi Hc Ha. rewrite <-(take_drop a s) at 2. rewrite relex_weight_app.
  assert (H : take a s !! i = Some c) by by rewrite lookup_take_lt.
  assert (H1 : relex_weight [c] = 1%nat) by (unfold relex_weight; unfold heavy in Hc; cbn; by rewrite Hc).
  rewrite <-(take_drop_middle _ _ _ H), relex_weight_app.
  change (c :: ?l) with ([c] ++ l). rewrite relex_weight_app. lia.
Qed.

Lemma run_length_le f l : (run_length f l <= length l)%nat.
Proof. induction l as [|c l IH]; cbn; [lia|]. destruct (f c); lia. Qed.

Lemma run_length_peek f s :
  (index s <= length (chars s))%nat ->
  (index s + run_length f (drop (index s) (chars s)) <= length (chars s))%nat.
Proof.
  intros H. pose proof (run_length_le f (drop (index s) (chars s))) as Hr.
  rewrite length_drop in Hr. lia.
Qed.

(** ** The lexer invariant *)
Section Total.
Context (extra : nat) (lex_rec : str -> Res Lexed) (weight : nat).
(** Re-lexing lighter plain text succeeds. *)
Context (lex_rec_ok : forall t, plain t -> (relex_weight t < weight)%nat ->
           exists l, lex_rec t = Ok l /\ plain_lexed l).

(** A character that starts re-lexed text has been read. *)
Definition passed (s : Lexer) : Prop :=
  exists i c, (i < index s)%nat /\ chars s !! i = Some c /\ heavy c = true.

Record wf (s : Lexer) : Prop := mkWf {
  wf_chars : plain (chars s);
  wf_weight : (relex_weight (chars s) <= weight)%nat;
  wf_pending : pending s <> [] -> passed s;
  wf_current : plain_segment (current s);
  wf_out : plain_lexed (out s);
}.

(** [s'] is a well-formed later state over the same text. *)
Definition adv (s s' : Lexer) : Prop :=
  chars s' = chars s /\ (index s <= index s')%nat /\ wf s'.

Lemma adv_refl s : wf s -> adv s s.
Proof. intros W. split; [done|]. split; [lia|done]. Qed.
Lemma adv_trans s1 s2 s3 : adv s1 s2 -> adv s2 s3 -> adv s1 s3.
Proof. intros (E1 & L1 & W1) (E2 & L2 & W2). split; [congruence|]. split; [lia|done]. Qed.

Lemma passed_adv s s' : chars s' = chars s -> (index s <= index s')%nat -> passed s -> passed s'.
Proof. intros E L (i & c & Hi & Hc & Hh). exists i, c. rewrite E. split; [lia|done]. Qed.

Lemma adv_set_index s i : wf s -> (index s <= i)%nat -> adv s (set_index i s).
Proof.
  intros W H. split; [done|]. split; [done|]. destruct W as [W1 W2 W3 W4 W5].
  constructor; try done. intros Hp. by eapply passed_adv, W3.
Qed.
Lemma adv_set_end s s' n : adv s s' -> n = length (chars s') -> (index s <= n)%nat ->
  adv s (set_index n s').
Proof.
  intros (E & L & [W1 W2 W3 W4 W5]) -> H. split; [done|]. split; [done|]. constructor; try done.
  intros Hp. destruct (W3 Hp) as (i & c & Hi & Hc & Hh). exists i, c. cbn.
  split; [by eapply lookup_lt_Some|done].
Qed.
Lemma adv_set_out s o : wf s -> plain_lexed o -> adv s (set_out o s).
Proof. intros [W1 W2 W3 W4 W5] Ho. split; [done|]. split; [cbn; lia|by constructor]. Qed.
Lemma adv_set_current s c : wf s -> plain_segment c -> adv s (set_current c s).
Proof. intros [W1 W2 W3 W4 W5] Hc. split; [done|]. split; [cbn; lia|by constructor]. Qed.

Lemma adv_clear_pending s : wf s -> adv s (set_pending [] s).
Proof. intros [W1 W2 W3 W4 W5]. split; [done|]. split; [cbn; lia|by constructor]. Qed.

Lemma adv_wf s s' : adv s s' -> wf s'.
Proof. by intros (_ & _ & W). Qed.

Lemma peek_lt s c : peek_at s 0 = Some c -> (index s < length (chars s))%nat.
Proof. unfold peek_at. rewrite Nat.add_0_r. apply lookup_lt_Some. Qed.
Lemma peek1_lt s c : peek_at s 1 = Some c -> (index s + 1 < length (chars s))%nat.
Proof. unfold peek_at. apply lookup_lt_Some. Qed.
Lemma peek_plain s o c : wf s -> peek_at s o = Some c -> plain_char c = true.
Proof. intros W H. eapply plain_lookup; [apply wf_chars, W|apply H]. Qed.

Lemma left_adv s s' : chars s' = chars s -> (index s < length (chars s))%nat ->
  (index s < index s')%nat -> (left s' < left s)%nat.
Proof. unfold left. intros -> ? ?. lia. Qed.

Lemma left_fuel s : (left s < fuel_for extra s)%nat.
Proof. unfold left, fuel_for. lia. Qed.

(** Primitive steps that keep the index. *)
Lemma wp_flag c s Q : wf s -> (forall s', adv s s' -> index s' = index s -> Q tt s') -> wp (flag c) s Q.
Proof.
  intros W HQ. apply HQ; [|done]. apply adv_set_out; [done|]. by destruct (wf_out s W).
Qed.

Lemma wp_push_nested t s Q : wf s -> plain t ->
  (forall s', adv s s' -> index s' = index s -> Q tt s') -> wp (push_nested t) s Q.
Proof.
  intros W Ht HQ. apply HQ; [|done]. apply adv_set_out; [done|]. destruct (wf_out s W).
  split; [done|]. cbn. apply Forall_app; split; [done|by constructor].
Qed.

Lemma wp_set_words s Q : wf s ->
  (forall s', adv s s' -> index s' = index s -> Q tt s') -> wp (set_words []) s Q.
Proof.
  intros W HQ. apply HQ; [|done]. apply adv_set_current; [done|].
  destruct (wf_current s W). split; [constructor|done].
Qed.

Lemma wp_push_word w s Q : wf s -> plain_word w ->
  (forall s', adv s s' -> index s' = index s -> Q tt s') -> wp (push_word w) s Q.
Proof.
  intros W Hw HQ. apply HQ; [|done]. apply adv_set_current; [done|].
  destruct (wf_current s W). split; [|done]. cbn. apply Forall_app; split; [done|by constructor].
Qed.

Lemma wp_push_current_redirect r s Q : wf s -> plain_redirect r ->
  (forall s', adv s s' -> index s' = index s -> Q tt s') -> wp (push_current_redirect r) s Q.
Proof.
  intros W Hw HQ. apply HQ; [|done]. apply adv_set_current; [done|].
  destruct (wf_current s W). split; [done|]. cbn. apply Forall_app; split; [done|by constructor].
Qed.

Lemma wp_finish_segment k s Q : wf s ->
  (forall s', adv s s' -> index s' = index s -> Q tt s') -> wp (finish_segment k) s Q.
Proof.
  intros W HQ. unfold finish_segment. rewrite wp_modify.
  destruct (wf_current s W) as [Hw Hr], (wf_out s W) as [Ho Hn].
  assert (W0 : adv s (set_current (mkSegment k [] []) s)) by (apply adv_set_current; done).
  assert (Wk : forall k', adv s (set_current (mkSegment k' [] []) (set_current (mkSegment k [] []) s))).
  { intros k'. eapply adv_trans; [apply W0|]. apply adv_set_current; [by eapply adv_wf|done]. }
  assert (Wo : adv s (set_out (mkLexed (segments (out s) ++ [current s]) (nested (out s)) (opaque (out s)))
                              (set_current (mkSegment k [] []) s))).
  { eapply adv_trans; [apply W0|]. apply adv_set_out; [by eapply adv_wf|]. split; [|done]. cbn.
    apply Forall_app; split; [done|by repeat constructor]. }
  cbn zeta.
  destruct (s_words (current s)), (s_redirects (current s)); try (by apply HQ).
  destruct (s_connector (current s)); by apply HQ.
Qed.

Lemma wp_skip_char c s Q : wf s -> (forall s', adv s s' -> Q tt s') -> wp (skip_char c) s Q.
Proof.
  intros W HQ. unfold skip_char. autorewrite with wp. case_bool_decide.
  - rewrite wp_advance. apply HQ, adv_set_index; [done|lia].
  - apply wp_flag; [done|]. intros s' H' _. by apply HQ.
Qed.

(** Automation for [adv] goals: chains of hypotheses and index updates. *)
Ltac solve_adv :=
  first
    [ assumption
    | lazymatch goal with |- adv ?s ?s => apply adv_refl; solve_wf end
    | lazymatch goal with
      | |- adv ?s (set_index ?i ?s1) =>
          apply (adv_trans _ s1); [solve_adv | apply adv_set_index; [solve_wf | cbn; lia]]
      end
    | match goal with
      | H : adv ?s2 ?s1 |- adv ?s ?s1 =>
          apply (adv_trans _ s2); [solve_adv | exact H]
      end ]
with solve_wf :=
  first
    [ assumption
    | lazymatch goal with
      | |- wf (set_index ?i ?s1) => apply (adv_wf s1), adv_set_index; [solve_wf | cbn; lia]
      end
    | match goal with H : adv _ ?s |- wf ?s => exact (adv_wf _ _ H) end ].

(** Facts about indices and lengths carried by [adv] hypotheses. *)
Ltac adv_facts :=
  repeat match goal with
  | H : adv ?s ?s' |- _ =>
      lazymatch goal with
      | _ : length (chars s') = length (chars s) |- _ => fail
      | _ => pose proof (proj1 (proj2 H)); pose proof (f_equal length (proj1 H))
      end
  end;
  repeat match goal with
  | H : peek_at ?s 0 = Some _ |- _ =>
      lazymatch goal with
      | _ : (index s < length (chars s))%nat |- _ => fail
      | _ => pose proof (peek_lt _ _ H)
      end
  end;
  cbn [chars index set_index] in *.
Ltac solve_index := unfold left; adv_facts; lia.

Ltac wp_if H :=
  match goal with |- wp (if ?b then _ else _) _ _ => destruct b eqn:H end.
Ltac solve_peek :=
  match goal with
  | H : peek_at _ _ = Some ?c |- plain_char ?c = true => eapply peek_plain; [|exact H]; solve_wf
  end.

Lemma balanced_ok open close s Q :
  wf s -> (index s <= length (chars s))%nat ->
  (forall n s', adv s s' -> Q (take n (drop (index s) (chars s))) s') ->
  wp (read_balanced_text extra open close) s Q.
Proof.
  intros W Hle HQ. unfold read_balanced_text. autorewrite with wp.
  apply (wp_mono _ _ (fun r s' => adv s s' /\
           forall t, r = Some t -> exists n, t = take n (drop (index s) (chars s)))).
  2: { intros [t|] s' [Ha Hr]; [by destruct (Hr t eq_refl) as [n ->]; apply HQ|].
       rewrite wp_bind. apply wp_flag; [solve_wf|]. intros s2 H2 Hi2.
       autorewrite with wp. apply wp_slice; [cbn; lia|cbn; lia|]. cbn.
       rewrite (proj1 H2), (proj1 Ha).
       match goal with |- Q (take ?n (drop ?m _)) _ => replace m with (index s) by solve_index end.
       apply HQ, adv_set_end; [solve_adv|solve_index|lia]. }
  apply (wp_loop (fun _ s' => adv s s')); [|apply left_fuel|solve_adv].
  intros d s1 H1. unfold balanced_step. autorewrite with wp.
  destruct (peek_at s1 0) as [c|] eqn:Hc; autorewrite with wp; [|done].
  repeat case_match; autorewrite with wp;
    try (split; [solve_adv|solve_index]).
  apply wp_slice; [solve_index|lia|]. autorewrite with wp. split; [done|].
  intros t [= <-]. rewrite (proj1 H1). eauto.
Qed.

Definition word_post (s : Lexer) (w : Word) (s' : Lexer) : Prop := adv s s' /\ plain_word w.

Lemma nested_ok open close s :
  wf s -> (index s <= length (chars s))%nat ->
  wp (read_balanced_into_nested extra open close) s (fun t s' => adv s s' /\ plain t).
Proof.
  intros W Hle. unfold read_balanced_into_nested. rewrite wp_bind.
  apply balanced_ok; [done|done|]. intros n s1 H1. autorewrite with wp.
  assert (Hp : plain (take n (drop (index s) (chars s)))) by (pose proof (wf_chars s W); solve_plain).
  case_bool_decide; autorewrite with wp; apply wp_push_nested; try solve_wf; try done;
    intros s2 H2 _; rewrite wp_ret; split; try done; solve_adv.
Qed.

Lemma scan_ok t s : wf s -> plain t -> (relex_weight t < weight)%nat ->
  wp (scan_expansions lex_rec t) s (fun _ s' => adv s s').
Proof.
  intros W Hp Hw. unfold scan_expansions. rewrite wp_bind.
  destruct (lex_rec_ok (double_quoted_source t)) as (l & Hl & Ho & Hn);
    [solve_plain|by rewrite relex_weight_double_quoted|].
  unfold wp at 1, lift_res. rewrite Hl. cbn beta iota.
  assert (Hfin : forall s1, adv s s1 ->
    wp (modify (λ s0, set_out (mkLexed (segments (out s0)) (nested (out s0) ++ nested l)
          (opaque (out s0))) s0)) s1 (fun _ s' => adv s s')).
  { intros s1 H1. autorewrite with wp. eapply adv_trans; [apply H1|].
    apply adv_set_out; [solve_wf|]. destruct (wf_out s1 (adv_wf _ _ H1)).
    split; [done|]. cbn. by apply Forall_app. }
  destruct (nested l); autorewrite with wp.
  - apply Hfin. solve_adv.
  - apply wp_flag; [done|]. intros s1 H1 _. by apply Hfin.
Qed.

Lemma passed_weight s a n : wf s -> (exists i c, (i < a)%nat /\ chars s !! i = Some c /\ heavy c = true) ->
  (relex_weight (take n (drop a (chars s))) < weight)%nat.
Proof.
  intros W (i & c & Hi & Hc & Hh).
  pose proof (relex_weight_take n (drop a (chars s))).
  pose proof (relex_weight_drop _ _ a _ Hc Hh Hi). pose proof (wf_weight s W). lia.
Qed.

Lemma backtick_ok w s c :
  wf s -> peek_at s 0 = Some c -> plain_word w ->
  wp (read_backtick extra w) s (fun w' s' => word_post s w' s' /\ (index s < index s')%nat).
Proof.
  intros W Hc Hw. unfold read_backtick. autorewrite with wp. apply wp_flag; [solve_wf|].
  intros s1 H1 Hi1. autorewrite with wp.
  apply (wp_mono _ _ (fun r s' => adv s1 s' /\ plain (fst r))).
  2: { intros [inner b] s2 [H2 Hp]. cbn [fst snd] in *.
       assert (Hfin : forall s3, adv s2 s3 -> wp
         (push_nested inner;; mret (set_dynamic (push_text ([c_backtick] ++ inner ++ [c_backtick]) w))) s3
         (fun w' s' => word_post s w' s' /\ (index s < index s')%nat)).
       { intros s3 H3. rewrite wp_bind. apply wp_push_nested; [solve_wf|done|]. intros s4 H4 _.
         rewrite wp_ret. split; [split; [solve_adv|]|solve_index].
         solve_plain. }
       destruct b; autorewrite with wp.
       - apply Hfin. solve_adv.
       - apply wp_flag; [solve_wf|]. intros s3 H3 _. by apply Hfin. }
  apply (wp_loop (fun inner s' => adv s1 s' /\ plain inner)); [|apply left_fuel|].
  2: { split; [solve_adv|constructor]. }
  intros inner s2 [H2 Hp]. unfold backtick_step. autorewrite with wp.
  destruct (peek_at s2 0) as [c2|] eqn:Hc2; autorewrite with wp; [|done].
  pose proof (peek_plain _ _ _ (adv_wf _ _ H2) Hc2) as Hpc.
  assert (Hp1 : forall n, peek_at s2 1 = Some n -> plain_char n = true)
    by (intros n; apply peek_plain; solve_wf).
  repeat case_match; autorewrite with wp; repeat case_match; simplify_eq;
    (split; [split; [solve_adv|solve_plain]|solve_index]) || (split; [solve_adv|done]).
Qed.

Lemma dollar_ok (read_dq : Word -> LexM Word) w dq s :
  (forall w s, wf s -> plain_word w -> wp (read_dq w) s (word_post s)) ->
  wf s -> peek_at s 0 = Some c_dollar -> plain_word w ->
  wp (read_dollar_with extra lex_rec read_dq w dq) s
     (fun w' s' => word_post s w' s' /\ (index s < index s')%nat).
Proof.
  intros Hdq W Hd Hw. unfold read_dollar_with. autorewrite with wp.
  set (s0 := set_index (index s + 1) s).
  assert (H0 : adv s s0) by (unfold s0; solve_adv).
  assert (Hi0 : (index s < index s0)%nat) by (cbn; lia).
  assert (Hp0 : exists i c, (i < index s0)%nat /\ chars s0 !! i = Some c /\ heavy c = true).
  { exists (index s), c_dollar. unfold peek_at in Hd. rewrite Nat.add_0_r in Hd. done. }
  assert (Hdone : forall t s', plain t -> adv s0 s' ->
            wp (mret (set_dynamic (push_text t w))) s'
               (fun w' s' => word_post s w' s' /\ (index s < index s')%nat)).
  { intros t s' Ht H'. rewrite wp_ret. split; [split; [solve_adv|]|adv_facts; lia].
    solve_plain. }
  clearbody s0.
  destruct (peek_at s0 0) as [c|] eqn:Hc; autorewrite with wp.
  2: { split; [split; [done|]|lia]. solve_plain. }
  assert (Hpc := peek_plain _ _ _ (adv_wf _ _ H0) Hc).
  assert (Hlt := peek_lt _ _ Hc).
  destruct ((c =? c_lparen) && bool_decide (peek_at s0 1 = Some c_lparen)) eqn:E1.
  { apply andb_true_iff in E1 as [_ E1%bool_decide_eq_true]. apply peek1_lt in E1.
    autorewrite with wp. apply wp_flag; [solve_wf|]. intros s1 H1 Hi1. rewrite wp_bind.
    apply balanced_ok; [solve_wf|solve_index|]. intros n s2 H2. rewrite wp_bind.
    apply wp_skip_char; [solve_wf|]. intros s3 H3. rewrite wp_bind.
    apply wp_skip_char; [solve_wf|]. intros s4 H4. apply Hdone; [|solve_adv].
    assert (plain (chars s1)) by (apply wf_chars; solve_wf). solve_plain. }
  destruct (c =? c_lparen).
  { autorewrite with wp. apply wp_flag; [solve_wf|]. intros s1 H1 Hi1. rewrite wp_bind.
    eapply wp_mono; [apply nested_ok; [solve_wf|solve_index]|]. intros t s2 [H2 Ht].
    apply Hdone; [solve_plain|solve_adv]. }
  destruct (c =? c_lbrace).
  { autorewrite with wp. apply balanced_ok; [solve_wf|cbn; lia|]. intros n s1 H1. rewrite wp_bind.
    apply wp_skip_char; [solve_wf|]. intros s2 H2.
    set (inner := take n _).
    assert (Hin : plain inner) by (pose proof (wf_chars s0 (adv_wf _ _ H0)); unfold inner; solve_plain).
    assert (Hwt : (relex_weight inner < weight)%nat).
    { apply passed_weight; [solve_wf|]. cbn. destruct Hp0 as (i & c' & ? & ? & ?). exists i, c'.
      split; [lia|done]. }
    clearbody inner. rewrite wp_bind. case_match.
    - eapply wp_mono; [apply scan_ok; [solve_wf|done|done]|]. intros [] s3 H3.
      apply Hdone; [solve_plain|solve_adv].
    - rewrite wp_ret. apply Hdone; [solve_plain|solve_adv]. }
  destruct ((c =? c_squote) && negb dq).
  { autorewrite with wp. apply wp_flag; [solve_wf|]. intros s1 H1 Hi1. autorewrite with wp.
    pose proof (proj1 H1) as Hch. cbn in Hch, Hi1.
    apply wp_slice; [cbn; rewrite Hch; lia|cbn; lia|]. autorewrite with wp.
    set (s2 := set_index _ s1). assert (H2 : adv s0 s2) by (unfold s2; solve_adv).
    set (t := take _ _).
    assert (Ht : plain t).
    { pose proof (wf_chars s1 (adv_wf _ _ H1)). unfold t, s2; cbn. solve_plain. }
    clearbody t s2.
    assert (Hfin : forall s3, adv s2 s3 -> wp (advance 1 ;; mret (set_dynamic (set_quoted
              (push_text ([c_dollar; c_squote] ++ t ++ [c_squote]) w)))) s3
              (fun w' s' => word_post s w' s' /\ (index s < index s')%nat)).
    { intros s3 H3. autorewrite with wp. split; [split; [solve_adv|]|solve_index].
      solve_plain. }
    destruct (peek_at s2 0); autorewrite with wp.
    - specialize (Hfin s2). autorewrite with wp in Hfin. apply Hfin; solve_adv.
    - apply wp_flag; [solve_wf|]. intros s3 H3 _. apply Hfin; done. }
  destruct ((c =? c_dquote) && negb dq).
  { autorewrite with wp. eapply wp_mono; [apply Hdq; [solve_wf|done]|].
    intros w' s1 [H1 Hw1]. split; [split; [solve_adv|done]|solve_index]. }
  repeat case_match; autorewrite with wp.
  - apply Hdone; [|solve_adv]. pose proof (wf_chars s0 (adv_wf _ _ H0)). solve_plain.
  - apply Hdone; [|solve_adv]. solve_plain.
  - split; [split; [done|]|lia]. solve_plain.
Qed.

Lemma double_quoted_ok w s : wf s -> plain_word w ->
  wp (read_double_quoted extra lex_rec w) s (word_post s).
Proof.
  intros W Hw. unfold read_double_quoted. autorewrite with wp.
  apply (wp_mono _ _ (fun r s' => word_post s (fst r) s')).
  2: { intros [w1 b] s1 [H1 Hw1]. cbn [fst snd] in *. destruct b; autorewrite with wp; [done|].
       apply wp_flag; [solve_wf|]. intros s2 H2 _. split; [solve_adv|done]. }
  apply (wp_loop (fun w' s' => word_post s w' s')); [|apply left_fuel|split; [solve_adv|done]].
  intros w1 s1 [H1 Hw1]. unfold double_quoted_step. autorewrite with wp.
  destruct (peek_at s1 0) as [c|] eqn:Hc; autorewrite with wp; [|done].
  assert (Hpc : plain_char c = true) by solve_peek.
  destruct (Z.eqb_spec c c_dquote) as [->|]; [autorewrite with wp; split; [solve_adv|done]|].
  destruct (Z.eqb_spec c c_backslash) as [->|].
  { autorewrite with wp. set (s2 := set_index _ s1).
    assert (H2 : adv s s2) by (unfold s2; solve_adv).
    assert (Hi2 : (index s1 < index s2)%nat) by (cbn; lia). clearbody s2.
    destruct (peek_at s2 0) as [e|] eqn:He;
      [assert (plain_char e = true) by solve_peek|];
      repeat case_match; autorewrite with wp;
      (split; [split; [solve_adv|solve_plain]|solve_index]). }
  destruct (Z.eqb_spec c c_dollar) as [->|].
  { rewrite wp_bind. eapply wp_mono; [apply dollar_ok; [|solve_wf|done|done]|].
    - intros w' s' W' Hw'. rewrite wp_ret. split; [solve_adv|done].
    - intros w2 s2 [[H2 Hw2] Hi]. rewrite wp_continue. split; [split; [solve_adv|done]|solve_index]. }
  destruct (Z.eqb_spec c c_backtick) as [->|].
  { rewrite wp_bind. eapply wp_mono; [eapply backtick_ok; [solve_wf|done|done]|].
    intros w2 s2 [[H2 Hw2] Hi]. rewrite wp_continue. split; [split; [solve_adv|done]|solve_index]. }
  autorewrite with wp. split; [split; [solve_adv|solve_plain]|solve_index].
Qed.

(** A word starts at [s] when the next character is neither white space nor an
    operator; only then is [read_word] sure to consume something. *)
Definition starts_word (s : Lexer) : Prop :=
  exists c, peek_at s 0 = Some c /\ is_whitespace c = false /\ is_operator_start c = false.

Definition word_inv (s : Lexer) (st : Word * bool) (s' : Lexer) : Prop :=
  word_post s (fst st) s' /\ (s' = s \/ (index s < index s')%nat).

Lemma word_step_ok s st s1 : word_inv s st s1 ->
  wp (word_step extra lex_rec st) s1
     (fun r s' => match r with
                  | inl st' => word_inv s st' s' /\ (left s' < left s1)%nat
                  | inr w => word_post s w s' /\ (starts_word s -> (index s < index s')%nat)
                  end).
Proof.
  destruct st as [w np]. intros [[H1 Hw] Hs]. cbn [fst] in *. unfold word_step. autorewrite with wp.
  assert (Hle : (index s <= index s1)%nat) by (adv_facts; lia).
  destruct (peek_at s1 0) as [c|] eqn:Hc; autorewrite with wp.
  2: { split; [done|]. intros (c & Hc' & _). destruct Hs as [->|]; [congruence|done]. }
  assert (Hpc : plain_char c = true) by solve_peek.
  assert (Hbreak : is_whitespace c || is_operator_start c = true ->
    word_post s w s1 /\ (starts_word s -> (index s < index s1)%nat)).
  { intros Hb. split; [done|]. intros (c' & Hc' & Hw' & Ho'). destruct Hs as [->|]; [|done].
    simplify_eq. by rewrite Hw', Ho' in Hb. }
  assert (Hnext : forall w' np' s2, adv s1 s2 -> plain_word w' -> (index s1 < index s2)%nat ->
    word_inv s (w', np') s2 /\ (left s2 < left s1)%nat).
  { intros w' np' s2 H2 Hw2 Hi. split; [split; [split; [solve_adv|done]|right; lia]|solve_index]. }
  destruct (is_whitespace c) eqn:Ews; [autorewrite with wp; by apply Hbreak|].
  destruct (is_operator_start c) eqn:Eop; [autorewrite with wp; by apply Hbreak|].
  destruct (Z.eqb_spec c c_backslash) as [->|].
  { autorewrite with wp. set (s2 := set_index _ s1).
    assert (H2 : adv s1 s2) by (unfold s2; solve_adv).
    assert (Hi2 : (index s1 < index s2)%nat) by (cbn; lia). clearbody s2.
    destruct (peek_at s2 0) as [e|] eqn:He;
      [assert (plain_char e = true) by solve_peek|];
      repeat case_match; autorewrite with wp; apply Hnext; (solve_adv || solve_plain || solve_index). }
  destruct (Z.eqb_spec c c_squote) as [->|].
  { autorewrite with wp. set (s2 := set_index _ (set_index _ s1)).
    assert (Hr := run_length_peek (fun c => negb (c =? c_squote)) (set_index (index s1 + 1) s1)).
    assert (H2 : adv s1 s2) by (unfold s2; solve_adv).
    assert (Hi2 : (index s1 + 1 <= index s2 <= length (chars s1))%nat)
      by (unfold s2; cbn in Hr |- *; adv_facts; lia).
    assert (Hfin : forall s3, adv s2 s3 -> index s3 = index s2 ->
      wp (finish ← gets index; text ← slice_chars (index (set_index (index s1 + 1) s1)) finish;
          advance 1 ;; continue (push_text text (set_quoted w), false)) s3
         (fun r s' => match r with
                  | inl st' => word_inv s st' s' /\ (left s' < left s1)%nat
                  | inr w => word_post s w s' /\ (starts_word s -> (index s < index s')%nat)
                  end)).
    { intros s3 H3 Hi3. autorewrite with wp.
      assert (Hch : chars s3 = chars s1) by by rewrite (proj1 H3).
      pose proof (wf_chars s3 (adv_wf _ _ H3)).
      apply wp_slice; [cbn; lia|rewrite Hch; lia|]. autorewrite with wp.
      apply Hnext; [solve_adv|solve_plain|cbn; lia]. }
    destruct (peek_at s2 0).
    - autorewrite with wp. specialize (Hfin s2). autorewrite with wp in Hfin. apply Hfin; [solve_adv|done].
    - apply wp_flag; [solve_wf|]. intros s3 H3 Hi3. by apply Hfin. }
  destruct (Z.eqb_spec c c_dquote) as [->|].
  { autorewrite with wp. eapply wp_mono; [apply double_quoted_ok; [solve_wf|done]|].
    intros w2 s2 [H2 Hw2]. rewrite wp_continue. apply Hnext; [solve_adv|done|solve_index]. }
  destruct (Z.eqb_spec c c_dollar) as [->|].
  { rewrite wp_bind. eapply wp_mono; [apply dollar_ok; [apply double_quoted_ok|solve_wf|done|done]|].
    intros w2 s2 [[H2 Hw2] Hi]. rewrite wp_continue. by apply Hnext. }
  destruct (Z.eqb_spec c c_backtick) as [->|].
  { rewrite wp_bind. eapply wp_mono; [eapply backtick_ok; [solve_wf|done|done]|].
    intros w2 s2 [[H2 Hw2] Hi]. rewrite wp_continue. by apply Hnext. }
  repeat case_match; autorewrite with wp; apply Hnext; (solve_adv || solve_plain || solve_index).
Qed.

Lemma word_ok s : wf s ->
  wp (read_word extra lex_rec) s
     (fun w s' => word_post s w s' /\ (starts_word s -> (index s < index s')%nat)).
Proof.
  intros W. unfold read_word. autorewrite with wp.
  apply (wp_loop (word_inv s)); [apply word_step_ok|apply left_fuel|].
  split; [split; [solve_adv|constructor]|by left].
Qed.

Lemma function_body_ok s : wf s ->
  wp (function_body extra) s
     (fun _ s' => adv s s' /\ (peek_at s 0 = Some c_lbrace -> (index s < index s')%nat)).
Proof.
  intros W. unfold function_body. rewrite wp_bind. apply wp_flag; [done|]. intros s1 H1 Hi1.
  rewrite wp_bind. apply wp_set_words; [solve_wf|]. intros s2 H2 Hi2. unfold skip_blank.
  autorewrite with wp.
  assert (Hn : peek_at s 0 = Some c_lbrace ->
    run_length is_whitespace (drop (index s2) (chars s2)) = 0%nat /\ peek_at s2 0 = Some c_lbrace).
  { unfold peek_at. rewrite !Nat.add_0_r, Hi2, Hi1, (proj1 H2), (proj1 H1). intros Hc. split; [|done].
    by rewrite (drop_S _ _ _ Hc). }
  set (s3 := set_index _ s2) in *. assert (H3 : adv s2 s3) by (unfold s3; solve_adv).
  assert (Hc3 : peek_at s 0 = Some c_lbrace -> peek_at s3 0 = Some c_lbrace).
  { intros Hc. destruct (Hn Hc) as [E Hp]. unfold s3. rewrite E. unfold peek_at in *. cbn.
    rewrite !Nat.add_0_r. by rewrite !Nat.add_0_r in Hp. }
  clearbody s3.
  assert (Hflag : peek_at s3 0 <> Some c_lbrace -> wp (flag UnbalancedNesting) s3
     (fun _ s' => adv s s' /\ (peek_at s 0 = Some c_lbrace -> (index s < index s')%nat))).
  { intros Hne. apply wp_flag; [solve_wf|]. intros s4 H4 _. split; [solve_adv|]. intros Hc.
    by apply Hc3 in Hc. }
  destruct (peek_at s3 0) as [c|] eqn:Hc; [|by apply Hflag].
  destruct (Z.eqb_spec c c_lbrace) as [->|].
  { autorewrite with wp. eapply wp_mono; [apply nested_ok; [solve_wf|solve_index]|].
    intros t s4 [H4 _]. autorewrite with wp. split; [solve_adv|]. intros _. solve_index. }
  destruct (Z.eqb_spec c c_lparen) as [->|].
  { autorewrite with wp. eapply wp_mono; [apply nested_ok; [solve_wf|solve_index]|].
    intros t s4 [H4 _]. autorewrite with wp. split; [solve_adv|]. intros _. solve_index. }
  apply Hflag. congruence.
Qed.

Lemma open_paren_ok s : wf s -> peek_at s 0 = Some c_lparen ->
  wp (open_paren extra) s (fun _ s' => adv s s' /\ (index s < index s')%nat).
Proof.
  intros W Hc. unfold open_paren. rewrite wp_bind, wp_gets. wp_if En; clear En.
  { autorewrite with wp. eapply wp_mono; [apply function_body_ok; solve_wf|].
    intros [] s1 [H1 _]. split; [solve_adv|solve_index]. }
  rewrite wp_bind, wp_gets. wp_if Es; clear Es.
  2: { rewrite wp_bind. apply wp_flag; [done|]. intros s1 H1 Hi1. autorewrite with wp.
       split; [solve_adv|solve_index]. }
  autorewrite with wp. wp_if Hd.
  - apply bool_decide_eq_true in Hd. rewrite wp_bind. apply wp_flag; [solve_wf|]. intros s1 H1 Hi1. autorewrite with wp.
    pose proof (peek_lt _ _ Hd).
    apply balanced_ok; [solve_wf|solve_index|]. intros n s2 H2. rewrite wp_bind.
    apply wp_skip_char; [solve_wf|]. intros s3 H3. apply wp_skip_char; [solve_wf|]. intros s4 H4.
    split; [solve_adv|solve_index].
  - rewrite wp_bind. apply wp_flag; [solve_wf|]. intros s1 H1 Hi1. rewrite wp_bind.
    eapply wp_mono; [apply nested_ok; [solve_wf|solve_index]|]. intros t s2 [H2 _].
    autorewrite with wp. split; [solve_adv|solve_index].
Qed.

Lemma process_substitution_ok s c c' : wf s -> peek_at s 0 = Some c -> peek_at s 1 = Some c' ->
  wp (process_substitution extra) s (fun _ s' => adv s s' /\ (index s < index s')%nat).
Proof.
  intros W Hc Hc'. apply peek1_lt in Hc'. unfold process_substitution. autorewrite with wp.
  apply wp_flag; [solve_wf|]. intros s1 H1 Hi1. rewrite wp_bind.
  eapply wp_mono; [apply nested_ok; [solve_wf|solve_index]|]. intros t s2 [H2 Ht].
  apply wp_push_word; [solve_wf|solve_plain|]. intros s3 H3 _. split; [solve_adv|solve_index].
Qed.

Lemma push_redirect_ok k s : wf s -> wp (push_redirect extra lex_rec k) s (fun _ s' => adv s s').
Proof.
  intros W. unfold push_redirect, skip_inline_blank. autorewrite with wp.
  set (s1 := set_index _ s). assert (H1 : adv s s1) by (unfold s1; solve_adv). clearbody s1.
  case_match.
  { apply wp_flag; [solve_wf|]. intros s2 H2 _. solve_adv. }
  rewrite wp_bind. eapply wp_mono; [apply word_ok; solve_wf|]. intros w s2 [[H2 Hw] _].
  apply wp_push_current_redirect; [solve_wf| |intros s3 H3 _; solve_adv].
  split; [done|]. cbn. intros b Hb. repeat case_match; naive_solver.
Qed.

Lemma heredoc_ok s : wf s -> passed s -> wp (heredoc extra lex_rec) s (fun _ s' => adv s s').
Proof.
  intros W Hp. unfold heredoc, skip_inline_blank. autorewrite with wp.
  assert (Hrest : forall s1 dash, adv s s1 ->
    wp (delimiter ← read_word extra lex_rec; flag Heredoc ;;
        push_current_redirect (mkRedirect HeredocKind delimiter None) ;;
        modify (fun s => set_pending (pending s ++ [mkPending (length (segments (out s)))
          (length (s_redirects (current s)) - 1) (w_text delimiter) dash (negb (w_quoted delimiter))]) s))
       s1 (fun _ s' => adv s s')).
  { intros s1 dash H1. rewrite wp_bind. eapply wp_mono; [apply word_ok; solve_wf|].
    intros w s2 [[H2 Hw] _]. rewrite wp_bind. apply wp_flag; [solve_wf|]. intros s3 H3 _.
    rewrite wp_bind. apply wp_push_current_redirect; [solve_wf|by split|]. intros s4 H4 _.
    rewrite wp_modify. assert (H : adv s s4) by solve_adv. destruct H as (E & L & [W1 W2 W3 W4 W5]).
    split; [done|]. split; [done|]. constructor; try done. intros _. by eapply passed_adv. }
  case_bool_decide; autorewrite with wp;
    (match goal with |- wp _ ?s1 _ => specialize (Hrest s1) end);
    setoid_rewrite wp_bind in Hrest; apply Hrest; solve_adv.
Qed.

Lemma redirect_ok s c : wf s -> peek_at s 0 = Some c ->
  wp (redirect extra lex_rec) s (fun _ s' => adv s s' /\ (index s < index s')%nat).
Proof.
  intros W Hc. unfold redirect. autorewrite with wp. rewrite Hc.
  assert (Hpush : forall k s1, adv s s1 -> (index s < index s1)%nat ->
    wp (push_redirect extra lex_rec k) s1 (fun _ s' => adv s s' /\ (index s < index s')%nat)).
  { intros k s1 H1 Hi. eapply wp_mono; [apply push_redirect_ok; solve_wf|]. intros [] s2 H2.
    split; [solve_adv|solve_index]. }
  assert (Hhere : forall s1, adv s s1 -> (index s < index s1)%nat -> c = c_lt ->
    wp (heredoc extra lex_rec) s1 (fun _ s' => adv s s' /\ (index s < index s')%nat)).
  { intros s1 H1 Hi ->. eapply wp_mono; [apply heredoc_ok; [solve_wf|]|].
    - exists (index s), c_lt. rewrite (proj1 H1). split; [lia|].
      unfold peek_at in Hc. by rewrite Nat.add_0_r in Hc.
    - intros [] s2 H2. split; [solve_adv|solve_index]. }
  set (s1 := set_index _ s). assert (H1 : adv s s1) by (unfold s1; solve_adv).
  assert (Hi : (index s < index s1)%nat) by (cbn; lia). clearbody s1.
  repeat (let E := fresh "E" in wp_if E; autorewrite with wp; try (apply Hpush; [solve_adv|solve_index])).
  apply Hhere; [solve_adv|solve_index|].
  match goal with H : bool_decide (Some c = Some c_lt) && _ = true |- _ =>
    apply andb_true_iff in H as [H%bool_decide_eq_true _]; by injection H end.
Qed.

(** ** Heredoc bodies *)
Definition heredoc_inv (s : Lexer) (body : str) (s' : Lexer) : Prop :=
  adv s s' /\ plain body /\
  (relex_weight body + relex_weight (drop (index s') (chars s'))
   <= relex_weight (drop (index s) (chars s)))%nat.

Lemma relex_weight_drop_le s i j : (i <= j)%nat ->
  (relex_weight (drop j s) <= relex_weight (drop i s))%nat.
Proof.
  intros H. replace j with (i + (j - i))%nat by lia. rewrite <-drop_drop.
  rewrite <-(take_drop (j - i) (drop i s)) at 2. rewrite relex_weight_app. lia.
Qed.

Lemma relex_weight_slice s i j : (i <= j)%nat ->
  (relex_weight (take (j - i) (drop i s)) + relex_weight (drop j s))%nat = relex_weight (drop i s).
Proof.
  intros H. rewrite <-relex_weight_app. f_equal.
  replace (drop j s) with (drop (j - i) (drop i s)) by (rewrite drop_drop; f_equal; lia).
  apply take_drop.
Qed.

Lemma run_length_progress f s c : peek_at s 0 = Some c -> f c = true ->
  (0 < run_length f (drop (index s) (chars s)))%nat.
Proof.
  unfold peek_at. rewrite Nat.add_0_r. intros Hc Hf. rewrite (drop_S _ _ _ Hc). cbn. rewrite Hf. lia.
Qed.

Lemma heredoc_step_ok p s body s1 : heredoc_inv s body s1 ->
  wp (heredoc_step p body) s1
     (fun r s' => match r with
                  | inl b => heredoc_inv s b s' /\ (left s' < left s1)%nat
                  | inr (b, _) => heredoc_inv s b s'
                  end).
Proof.
  intros (H1 & Hb & Hw). unfold heredoc_step. autorewrite with wp. wp_if Hlt; [|done].
  apply Nat.ltb_lt in Hlt. autorewrite with wp.
  set (f := fun c : Z => negb (c =? c_nl)). set (s2 := set_index _ s1).
  assert (H2 : adv s1 s2) by (unfold s2; solve_adv).
  assert (Hi2 : (index s2 <= length (chars s1))%nat) by (apply run_length_peek; lia).
  apply wp_slice; [solve_index|solve_index|]. rewrite wp_bind, wp_peek_is.
  set (line := take _ _).
  assert (Hline : plain line) by (pose proof (wf_chars s2 (adv_wf _ _ H2)); unfold line; solve_plain).
  assert (Hwl : (relex_weight line + relex_weight (drop (index s2) (chars s1)))%nat
                = relex_weight (drop (index s1) (chars s1))) by (apply relex_weight_slice; solve_index).
  assert (Hprog : peek_at s2 0 <> Some c_nl -> (index s1 < index s2)%nat).
  { intros Hnl. destruct (lookup_lt_is_Some_2 (chars s1) (index s1) Hlt) as [c Hc].
    assert (Hc' : peek_at s1 0 = Some c) by (unfold peek_at; by rewrite Nat.add_0_r).
    destruct (Z.eq_dec c c_nl) as [->|Hne].
    - exfalso. apply Hnl. unfold s2, peek_at. cbn. rewrite (drop_S _ _ _ Hc). cbn.
      by rewrite !Nat.add_0_r.
    - pose proof (run_length_progress f s1 c Hc') as Hr. unfold s2; cbn.
      enough (f c = true) as Hf by (specialize (Hr Hf); lia).
      unfold f. by apply negb_true_iff, Z.eqb_neq. }
  clearbody line s2 f.
  assert (Hfin : forall s3, adv s2 s3 -> (index s1 < index s3)%nat ->
    wp (if str_eqb (if p_strip_tabs p then drop_while (Z.eqb c_tab) line else line) (p_delimiter p)
        then break (body, true) else continue (body ++ line ++ [c_nl])) s3
       (fun r s' => match r with
                  | inl b => heredoc_inv s b s' /\ (left s' < left s1)%nat
                  | inr (b, _) => heredoc_inv s b s'
                  end)).
  { intros s3 H3 Hi3. pose proof (relex_weight_drop_le (chars s1) (index s2) (index s3)).
    assert (Hle := proj1 (proj2 H3)). assert (Hch : chars s3 = chars s1) by by rewrite (proj1 H3), (proj1 H2).
    destruct (str_eqb _ _); autorewrite with wp.
    - split; [solve_adv|]. split; [done|]. rewrite Hch. lia.
    - split; [|solve_index]. split; [solve_adv|]. split; [solve_plain|]. rewrite Hch.
      rewrite !relex_weight_app. replace (relex_weight [c_nl]) with 0%nat by done. lia. }
  case_bool_decide as Hnl; autorewrite with wp; apply Hfin; solve [solve_adv | cbn; solve_index | auto].
Qed.

Lemma read_heredoc_ok p s : wf s -> passed s ->
  wp (read_heredoc extra lex_rec p) s (fun _ s' => adv s s').
Proof.
  intros W (i & c & Hi & Hc & Hh). unfold read_heredoc. autorewrite with wp.
  apply (wp_mono _ _ (fun r s' => heredoc_inv s (fst r) s')).
  2: { intros [b t] s1 (H1 & Hb & Hw). cbn [fst snd] in *.
       assert (Hwb : (relex_weight b < weight)%nat).
       { pose proof (relex_weight_drop _ _ (index s) _ Hc Hh Hi). pose proof (wf_weight s W). lia. }
       assert (Hset : forall s2, adv s s2 -> adv s (set_out (set_heredoc_body p b (out s2)) s2)).
       { intros s2 H2. eapply adv_trans; [apply H2|]. apply adv_set_out; [solve_wf|].
         destruct (wf_out s2 (adv_wf _ _ H2)) as [Hs Hn]. split; [|done]. cbn.
         apply Forall_alter; [done|]. intros seg _ [Hsw Hsr]. split; [done|]. cbn.
         apply Forall_alter; [done|]. intros r _ [Hrt _]. split; [done|]. cbn. naive_solver. }
       assert (Hscan : forall s2, adv s s2 ->
         wp ((if p_expands p then scan_expansions lex_rec b else mret tt) ;;
             modify (fun s => set_out (set_heredoc_body p b (out s)) s)) s2 (fun _ s' => adv s s')).
       { intros s2 H2. rewrite wp_bind. destruct (p_expands p); autorewrite with wp; [|by apply Hset].
         eapply wp_mono; [apply scan_ok; [solve_wf|done|done]|]. intros [] s3 H3.
         rewrite wp_modify. apply Hset. solve_adv. }
       rewrite wp_bind. destruct t; [by apply Hscan|].
       apply wp_flag; [solve_wf|]. intros s2 H2 _. apply Hscan. solve_adv. }
  apply (wp_loop (heredoc_inv s)); [|apply left_fuel|].
  - intros b s1 Hinv. eapply wp_mono; [by apply heredoc_step_ok|]. by intros [?|[? ?]] s2.
  - split; [solve_adv|]. split; [constructor|]. cbn. lia.
Qed.

Lemma read_pending_ok s : wf s -> wp (read_pending_heredocs extra lex_rec) s (fun _ s' => adv s s').
Proof.
  intros W. unfold read_pending_heredocs. autorewrite with wp.
  assert (H0 : adv s (set_pending [] s)) by by apply adv_clear_pending.
  assert (Hp : pending s <> [] -> passed (set_pending [] s)) by apply (wf_pending s W).
  generalize dependent (set_pending [] s). induction (pending s) as [|p l IH]; intros s1 H1 Hp; [done|].
  cbn [for_each]. rewrite wp_bind. eapply wp_mono; [apply read_heredoc_ok; [solve_wf|by apply Hp]|].
  intros [] s2 H2. apply IH; [solve_adv|]. intros _.
  eapply passed_adv; [apply H2|apply H2|by apply Hp].
Qed.

(** ** The main loop *)
Lemma plain_not_whitespace c : plain_char c = true ->
  c <> c_space -> c <> c_tab -> c <> c_nl -> c <> c_cr -> is_whitespace c = false.
Proof.
  unfold plain_char. intros H H1 H2 H3 H4.
  apply Z.eqb_neq in H1, H2, H3, H4. rewrite H1, H2, H3, H4 in H. by destruct (is_whitespace c).
Qed.

Lemma fd_redirect_peek s : fd_redirect_ahead s = true ->
  exists c, peek_at (set_index (index s + run_length is_ascii_digit (drop (index s) (chars s))) s) 0
            = Some c.
Proof.
  unfold fd_redirect_ahead. intros H. apply andb_true_iff in H as [_ H].
  apply andb_true_iff in H as [H _]. unfold peek_at in *. cbn. rewrite Nat.add_0_r.
  destruct (chars s !! _); [eauto|done].
Qed.

Definition step_post (s : Lexer) (r : unit + unit) (s' : Lexer) : Prop :=
  match r with inl _ => adv s s' /\ (left s' < left s)%nat | inr _ => adv s s' end.

Lemma run_step_ok s : wf s -> wp (run_step extra lex_rec tt) s (step_post s).
Proof.
  intros W. unfold run_step. rewrite wp_bind, wp_peek.
  destruct (peek_at s 0) as [c|] eqn:Hc; [|exact (adv_refl s W)].
  rewrite !wp_bind, wp_gets. autorewrite with wp.
  assert (Hpc : plain_char c = true) by solve_peek.
  assert (Hlt := peek_lt _ _ Hc).
  apply (wp_mono _ _ (fun _ s' => adv s s' /\ (index s < index s')%nat)).
  2: { intros [] s1 [H1 Hi]. rewrite wp_continue. split; [done|solve_index]. }
  assert (Hadv : forall n k, wp (advance (S n) ;; finish_segment k) s
            (fun _ s' => adv s s' /\ (index s < index s')%nat)).
  { intros n k. autorewrite with wp. apply wp_finish_segment; [solve_wf|]. intros s1 H1 Hi.
    split; [solve_adv|solve_index]. }
  assert (Hpush : forall k s1, adv s s1 -> (index s < index s1)%nat ->
    wp (push_redirect extra lex_rec k) s1 (fun _ s' => adv s s' /\ (index s < index s')%nat)).
  { intros k s1 H1 Hi. eapply wp_mono; [apply push_redirect_ok; solve_wf|]. intros [] s2 H2.
    split; [solve_adv|solve_index]. }
  wp_if E1; [autorewrite with wp; split; [solve_adv|solve_index]|].
  apply orb_false_iff in E1 as [Esp%Z.eqb_neq Etab%Z.eqb_neq].
  wp_if Ecr; [autorewrite with wp; split; [solve_adv|solve_index]|]. apply Z.eqb_neq in Ecr.
  wp_if Enl.
  { autorewrite with wp. apply wp_finish_segment; [solve_wf|]. intros s1 H1 Hi1.
    eapply wp_mono; [apply read_pending_ok; solve_wf|]. intros [] s2 H2. split; [solve_adv|solve_index]. }
  apply Z.eqb_neq in Enl.
  wp_if Eh.
  { unfold skip_comment. autorewrite with wp.
    assert (Hr : (0 < run_length (fun c : Z => negb (c =? c_nl)%Z) (drop (index s) (chars s)))%nat).
    { eapply run_length_progress; [done|]. by apply negb_true_iff, Z.eqb_neq. }
    split; [solve_adv|cbn; lia]. }
  wp_if Ebs; [autorewrite with wp; split; [solve_adv|solve_index]|].
  wp_if Esemi.
  { rewrite wp_bind. wp_if E; [|apply (Hadv 0%nat)].
    rewrite wp_bind. apply wp_flag; [done|]. intros s1 H1 Hi1. rewrite wp_advance.
    apply wp_finish_segment; [solve_wf|]. intros s2 H2 Hi2. split; [solve_adv|solve_index]. }
  wp_if Eamp.
  { wp_if E; [apply (Hadv 1%nat)|]. wp_if E2; [|apply (Hadv 0%nat)].
    autorewrite with wp. wp_if E3; autorewrite with wp; apply Hpush; (solve_adv || solve_index). }
  wp_if Epipe.
  { wp_if E; [apply (Hadv 1%nat)|]. wp_if E2; [apply (Hadv 1%nat)|apply (Hadv 0%nat)]. }
  wp_if Eps.
  { apply andb_true_iff in Eps as [_ Eps%bool_decide_eq_true]. by eapply process_substitution_ok. }
  wp_if Erd; [by eapply redirect_ok|].
  wp_if Efd.
  { apply andb_true_iff in Efd as [Hdig Efd]. destruct (fd_redirect_peek s Efd) as [c' Hc'].
    autorewrite with wp. eapply wp_mono; [eapply redirect_ok; [solve_wf|done]|].
    intros [] s1 [H1 Hi]. split; [solve_adv|cbn in Hi; lia]. }
  wp_if Elp; [apply Z.eqb_eq in Elp as ->; by apply open_paren_ok|].
  wp_if Erp.
  { rewrite wp_bind. apply wp_flag; [done|]. intros s1 H1 Hi1. autorewrite with wp.
    apply wp_finish_segment; [solve_wf|]. intros s2 H2 Hi2. split; [solve_adv|solve_index]. }
  wp_if Ebody.
  { apply andb_true_iff in Ebody as [->%Z.eqb_eq _]. eapply wp_mono; [by apply function_body_ok|].
    intros [] s1 [H1 Hi]. auto. }
  wp_if Egroup.
  { autorewrite with wp. apply wp_flag; [solve_wf|]. intros s1 H1 Hi1. rewrite wp_bind.
    eapply wp_mono; [apply nested_ok; [solve_wf|solve_index]|]. intros t s2 [H2 _].
    autorewrite with wp. split; [solve_adv|solve_index]. }
  wp_if Erb.
  { rewrite wp_bind. apply wp_flag; [done|]. intros s1 H1 Hi1. autorewrite with wp.
    split; [solve_adv|solve_index]. }
  rewrite wp_bind. eapply wp_mono; [by apply word_ok|]. intros w s1 [[H1 Hw] Hi].
  apply wp_push_word; [solve_wf|done|]. intros s2 H2 Hi2. split; [solve_adv|]. rewrite Hi2. apply Hi.
  exists c. split; [done|]. split; [by apply plain_not_whitespace|].
  unfold is_operator_start. apply orb_false_iff in Erd as [-> ->].
  by rewrite Esemi, Eamp, Epipe, Elp, Erp.
Qed.

Lemma run_ok s : wf s -> wp (run extra lex_rec) s (fun _ s' => adv s s').
Proof.
  intros W. unfold run. autorewrite with wp.
  apply (wp_mono _ _ (fun _ s' => adv s s')).
  - apply (wp_loop (fun _ s' => adv s s')); [|apply left_fuel|solve_adv].
    intros [] s1 H1. eapply wp_mono; [apply run_step_ok; solve_wf|].
    intros [[]|[]] s2 H2; [destruct H2 as [H2 Hl]; split; [solve_adv|done]|]. cbn in H2. solve_adv.
  - intros [] s1 H1. rewrite wp_bind. apply wp_finish_segment; [solve_wf|]. intros s2 H2 _.
    autorewrite with wp. destruct (pending s2); [rewrite wp_ret; solve_adv|].
    rewrite wp_bind. apply wp_flag; [solve_wf|]. intros s3 H3 _. rewrite wp_modify.
    eapply adv_trans; [|apply adv_clear_pending; solve_wf]. solve_adv.
Qed.

Lemma lex_with_ok source : plain source -> (relex_weight source <= weight)%nat ->
  exists l, lex_with extra lex_rec source = Ok l /\ plain_lexed l.
Proof.
  intros Hp Hw. assert (W : wf (init_lexer source)) by (by repeat split).
  pose proof (run_ok _ W) as H. unfold wp in H. unfold lex_with, mbind, res_bind.
  destruct (run extra lex_rec (init_lexer source)) as [[[] s']| |]; [|done|done].
  exists (out s'). split; [done|]. apply (wf_out s' (adv_wf _ _ H)).
Qed.

End Total.

Lemma lex_gen_ok extra depth source :
  plain source -> (relex_weight source < depth)%nat ->
  exists l, lex_gen extra depth source = Ok l /\ plain_lexed l.
Proof.
  revert source. induction depth as [|depth IH]; intros source Hp Hw; [lia|].
  cbn [lex_gen]. apply (lex_with_ok extra _ (relex_weight source)); [|done|done].
  intros t Ht Hwt. apply IH; [done|lia].
Qed.

(** [lex] needs no more than one loop iteration per character and one level of
    re-lexing per [$] or [<]; its output is again plain text. *)
Lemma lex_ok source : plain source -> exists l, lex source = Ok l /\ plain_lexed l.
Proof. intros Hp. apply lex_gen_ok; [done|]. unfold lt. done. Qed.

(** ** Divergence on other white space *)
Definition exotic (c : char) : Prop := is_whitespace c = true /\ plain_char c = false.

Lemma exotic_neq c k : exotic c -> is_whitespace k = false \/ plain_char k = true -> (c =? k) = false.
Proof.
  intros [H1 H2] H. apply Z.eqb_neq. intros ->. destruct H; congruence.
Qed.

Lemma exotic_digit c : exotic c -> is_ascii_digit c = false.
Proof.
  intros [H _]. destruct (is_ascii_digit c) eqn:E; [|done].
  unfold is_ascii_digit, is_whitespace, in_range in *. lia.
Qed.

Lemma exotic_run_step extra lex_rec s c :
  peek_at s 0 = Some c -> exotic c ->
  exists s', run_step extra lex_rec tt s = Ok (inl tt, s') /\ peek_at s' 0 = Some c.
Proof.
  intros Hc He.
  assert (Hne : forall k, is_whitespace k = false \/ plain_char k = true -> (c =? k) = false)
    by (intros; by apply exotic_neq).
  exists (set_current (mkSegment (s_connector (current s)) (s_words (current s) ++ [default_word])
                                 (s_redirects (current s))) s).
  split; [|done].
  assert (Hw : read_word extra lex_rec s = Ok (default_word, s)).
  { unfold read_word, gets, mbind, lexm_bind, fuel_for. cbn [loop].
    unfold word_step, peek, gets, mbind, lexm_bind. rewrite Hc. by rewrite (proj1 He). }
  unfold run_step, peek, gets, mbind, lexm_bind. rewrite Hc.
  rewrite !Hne by (by left + by right). rewrite exotic_digit by done. cbn. by rewrite Hw.
Qed.

Lemma exotic_loop extra lex_rec fuel s c :
  peek_at s 0 = Some c -> exotic c -> loop fuel (run_step extra lex_rec) tt s = OutOfFuel.
Proof.
  revert s. induction fuel as [|fuel IH]; intros s Hc He; [done|].
  destruct (exotic_run_step extra lex_rec s c Hc He) as (s' & Hs & Hc').
  cbn [loop]. unfold mbind, lexm_bind. rewrite Hs. by apply IH.
Qed.

(** From any state whose next character is such white space, the main loop
    never returns, however much fuel it is given. *)
Lemma exotic_run extra lex_rec s c :
  peek_at s 0 = Some c -> exotic c -> run extra lex_rec s = OutOfFuel.
Proof.
  intros Hc He. unfold run, gets, mbind, lexm_bind. by rewrite (exotic_loop _ _ _ _ _ Hc He).
Qed.

Lemma lex_gen_exotic extra depth c rest : exotic c -> lex_gen extra depth (c :: rest) = OutOfFuel.
Proof.
  intros He. destruct depth as [|depth]; [done|]. cbn [lex_gen]. unfold lex_with, mbind, res_bind.
  by rewrite (exotic_run _ _ _ c).
Qed.

(** ** The tokenizer's contract *)

(** The tokenizer returns on every plain source: one loop iteration per
    character and one level of re-lexing per [$] or [<] are enough, no slice or
    index panics, and every word, nested script and heredoc body it yields is
    plain text again, so it can be tokenized in turn. *)
Theorem lex_total (source : str) :
  plain source -> exists l, lex source = Ok l /\ plain_lexed l.
Proof. apply lex_ok. Qed.

Lemma lex_total_witness :
  exists l, lex $"if a; then b `c $(d)` <<<'x'; fi" = Ok l /\ plain_lexed l.
Proof. apply (lex_total _). repeat constructor. Defined.
