(* ===== verification/Shell.v ===== *)
(** The shell-command classifier of [permissions/shell.rs]: the risk of a
    command line, computed from the tokens of [ShellLexer]. *)
From S2P Require Import Prelude ShellLexer.

Definition MAX_DEPTH : nat := 4.
Definition MAX_SOURCE_BYTES : Z := 64 * 1024.

Inductive ShellRisk : Type :=
| ReadOnly | Mutating | Opaque | RemoteCode | Escalating | Destructive | Catastrophic.
#[global] Instance ShellRisk_eq_dec : EqDecision ShellRisk.
Proof. solve_decision. Defined.

(** [derive(Ord)]: from least to most severe. *)
Definition risk_rank (r : ShellRisk) : nat :=
  match r with
  | ReadOnly => 0 | Mutating => 1 | Opaque => 2 | RemoteCode => 3
  | Escalating => 4 | Destructive => 5 | Catastrophic => 6
  end%nat.
Definition risk_max (a b : ShellRisk) : ShellRisk :=
  if (risk_rank a <=? risk_rank b)%nat then b else a.
Definition risk_le (a b : ShellRisk) : Prop := (risk_rank a <= risk_rank b)%nat.

Definition risk_as_str (r : ShellRisk) : str :=
  match r with
  | ReadOnly => $"read_only" | Mutating => $"mutating" | Opaque => $"opaque"
  | RemoteCode => $"remote_code" | Escalating => $"escalating"
  | Destructive => $"destructive" | Catastrophic => $"catastrophic"
  end.
Definition all_risks : list ShellRisk :=
  [ReadOnly; Mutating; Opaque; RemoteCode; Escalating; Destructive; Catastrophic].
Definition risk_parse (value : str) : option ShellRisk :=
  List.find (fun r => str_eqb (risk_as_str r) value) all_risks.
Definition is_hard_denial (r : ShellRisk) : bool :=
  match r with RemoteCode | Escalating | Destructive | Catastrophic => true | _ => false end.

Definition opaque_as_str (c : OpaqueConstruct) : str :=
  match c with
  | CommandSubstitution => $"command_substitution"
  | ProcessSubstitution => $"process_substitution"
  | ArithmeticExpansion => $"arithmetic_expansion"
  | AnsiCQuote => $"ansi_c_quote"
  | Subshell => $"subshell"
  | Group => $"group"
  | FunctionDefinition => $"function_definition"
  | ControlFlow => $"control_flow"
  | Heredoc => $"heredoc"
  | Eval => $"eval"
  | DynamicProgram => $"dynamic_program"
  | UnterminatedQuote => $"unterminated_quote"
  | UnbalancedNesting => $"unbalanced_nesting"
  | NestingTooDeep => $"nesting_too_deep"
  | Oversized => $"oversized"
  | Empty => $"empty"
  end.
Definition all_opaque : list OpaqueConstruct :=
  [CommandSubstitution; ProcessSubstitution; ArithmeticExpansion; AnsiCQuote; Subshell; Group;
   FunctionDefinition; ControlFlow; Heredoc; Eval; DynamicProgram;
   UnterminatedQuote; UnbalancedNesting; NestingTooDeep; Oversized; Empty].
Definition opaque_parse (value : str) : option OpaqueConstruct :=
  List.find (fun c => str_eqb (opaque_as_str c) value) all_opaque.

Record ShellCommand : Type := mkCommand {
  sc_depth : nat;
  sc_literal : list str;
  sc_effective : list str;
  sc_plain_words : bool;
  sc_wrapped : bool;
  sc_has_assignments : bool;
  sc_redirects : bool;
  sc_writes_file : bool;
  sc_piped_input : bool;
  sc_risk : ShellRisk;
}.
Definition literal_text (c : ShellCommand) : str := join $" " (sc_literal c).
Definition effective_text (c : ShellCommand) : str := join $" " (sc_effective c).

Record ShellAnalysis : Type := mkAnalysis {
  sa_commands : list ShellCommand;
  sa_opaque : list OpaqueConstruct;
  sa_only_pipes : bool;
  sa_risk : ShellRisk;
}.
Definition is_opaque (a : ShellAnalysis) : bool :=
  match sa_opaque a with [] => false | _ => true end.
Definition is_single_plain_command (a : ShellAnalysis) : bool :=
  match sa_commands a with
  | [c] => (sc_depth c =? 0)%nat && sc_plain_words c && negb (sc_wrapped c)
           && negb (sc_has_assignments c) && negb (sc_redirects c)
  | _ => false
  end && negb (is_opaque a).

(** ** Word tests *)
Definition basename (program : str) : str :=
  List.last (split_on c_slash program) program.

Definition short_flag (text : str) (flag : char) : bool :=
  starts_with text $"-" && negb (starts_with text $"--") && contains_char (drop 1 text) flag.

Definition is_harmless_device (path : str) : bool :=
  one_of path ["/dev/null"; "/dev/stdout"; "/dev/stderr"; "/dev/tty"; "/dev/zero";
               "/dev/random"; "/dev/urandom"]
  || starts_with path $"/dev/fd/".

Definition is_block_device (path : str) : bool :=
  match strip_prefix $"/dev/" path with
  | Some device =>
      existsb (fun p => starts_with device (lit p))
        ["sd"; "hd"; "vd"; "xvd"; "nvme"; "disk"; "rdisk"; "mmcblk"; "md"; "dm-"; "mapper/"; "loop"]
  | None => false
  end.

Definition strip_home (text : str) : option str :=
  let home p :=
    match strip_prefix p text with
    | Some rest => if bool_decide (rest = []) || starts_with rest $"/" then Some rest else None
    | None => None
    end in
  match home $"$HOME" with
  | Some rest => Some rest
  | None =>
      match home $"${HOME}" with
      | Some rest => Some rest
      | None =>
          match strip_prefix $"~" text with
          | Some rest => Some (drop_while (fun c => negb (c =? c_slash)) rest)
          | None => None
          end
      end
  end.

Definition SYSTEM_DIRS : list string :=
  ["Applications"; "Library"; "System"; "Users"; "Volumes"; "bin"; "boot"; "cores"; "dev"; "etc";
   "home"; "lib"; "lib32"; "lib64"; "opt"; "private"; "proc"; "root"; "run"; "sbin"; "srv"; "sys";
   "usr"; "var"].

(** Lexical normalization; [None] is the early [return true] on [..] above a
    home directory. [stack] is the reversed component vector. *)
Fixpoint root_components (home : bool) (components stack : list str) : option (list str) :=
  match components with
  | [] => Some stack
  | c :: rest =>
      if one_of c [""; "."; "*"] then root_components home rest stack
      else if str_eqb c $".." then
        match stack with
        | [] => if home then None else root_components home rest []
        | _ :: stack => root_components home rest stack
        end
      else root_components home rest (c :: stack)
  end.

Definition is_root_target (text : str) : bool :=
  let decide_on home rest :=
    match root_components home (split_on c_slash rest) [] with
    | None => true
    | Some [] => true
    | Some [single] => negb home && one_of single SYSTEM_DIRS
    | Some _ => false
    end in
  match strip_home text with
  | Some rest => decide_on true rest
  | None => if starts_with text $"/" then decide_on false text else false
  end.

Definition kills_every_process (args : list str) : bool :=
  let index :=
    match args with
    | first :: _ =>
        if one_of first ["-s"; "-n"] then 2
        else if starts_with first $"-" && (1 <? length args)%nat && negb (str_eqb first $"--")
        then 1 else 0
    | [] => 0
    end%nat in
  let index := if bool_decide (args !! index = Some $"--") then S index else index in
  existsb (str_eqb $"-1") (drop index args).

(** ** [rm] *)
Record RmScan : Type := mkRm {
  rm_recursive : bool; rm_force : bool; rm_targets : list Word; rm_done : bool;
}.
Definition rm_step (st : RmScan) (w : Word) : RmScan :=
  let text := w_text w in
  if negb (rm_done st) && str_eqb text $"--" then
    mkRm (rm_recursive st) (rm_force st) (rm_targets st) true
  else if negb (rm_done st) && starts_with text $"--" then
    mkRm (rm_recursive st || str_eqb text $"--recursive")
         (rm_force st || str_eqb text $"--force") (rm_targets st) (rm_done st)
  else if negb (rm_done st) && (1 <? len text) && starts_with text $"-" && negb (w_quoted w) then
    mkRm (rm_recursive st || (short_flag text 114 || short_flag text 82))
         (rm_force st || short_flag text 102) (rm_targets st) (rm_done st)
  else mkRm (rm_recursive st) (rm_force st) (rm_targets st ++ [w]) (rm_done st).

Definition rm_risk (args : list Word) (from_xargs : bool) : ShellRisk :=
  let st := fold_left rm_step args (mkRm false false [] false) in
  if rm_recursive st && existsb (fun w => is_root_target (w_text w)) (rm_targets st)
  then Catastrophic
  else
    let broad := existsb (fun w =>
      let text := w_text w in
      w_dynamic w || starts_with text $"/" || starts_with text $"~" || starts_with text $"*"
      || one_of text ["."; ".."; "./"; "../"]) (rm_targets st) in
    if rm_recursive st && rm_force st && (broad || from_xargs) then Destructive else Mutating.

(** ** Read-only allowlist *)
Definition option_executes_or_writes (value : str) : bool :=
  one_of value ["--output"; "--exec"; "--command"; "--config"; "--files-from"]
  || existsb (fun p => starts_with value (lit p))
       ["--output="; "--exec="; "--command="; "--config="; "--files-from="].
Definition short_option_contains : str -> char -> bool := short_flag.

(** [args.get(index)] while the leading global options are skipped: the
    remaining arguments from the subcommand on, [None] on a refused option. *)
Fixpoint git_skip_globals (args : list str) : option (list str) :=
  match args with
  | [] => Some []
  | value :: rest =>
      if one_of value ["--no-pager"; "-P"; "--no-optional-locks"] then git_skip_globals rest
      else if starts_with value $"-" then None
      else Some args
  end.

Definition read_only_git (args : list str) : bool :=
  match git_skip_globals args with
  | None => false
  | Some [] => false
  | Some (subcommand :: rest) =>
      if existsb (fun value =>
           one_of value ["--ext-diff"; "--textconv"; "--exec-path"; "--config-env"]
           || starts_with value $"--exec-path=" || starts_with value $"--config-env=") rest
      then false
      else if one_of subcommand ["status"; "diff"; "log"; "show"; "blame"; "grep"; "ls-files"; "rev-parse"]
      then negb (existsb (fun value =>
             option_executes_or_writes value
             || one_of value ["--paginate"; "-p"; "--ext-diff"; "--textconv"]
             || (starts_with value $"--format=" && contains_str value $"%(rest)")) rest)
      else if str_eqb subcommand $"remote" then
        match rest with [] => true | first :: _ => one_of first ["-v"; "show"] end
      else if str_eqb subcommand $"branch" then
        forallb (fun value => one_of value
          ["--all"; "-a"; "--list"; "--show-current"; "--verbose"; "-v"; "-vv"]) rest
      else false
  end.

Definition read_only_program (program : str) (args : list str) : bool :=
  let all check := forallb check args in
  if one_of program ["pwd"; "cat"; "head"; "tail"; "wc"; "stat"; "file"; "cut"; "tr"; "whoami";
                     "df"; "uname"]
  then all (fun v => negb (option_executes_or_writes v))
  else if str_eqb program $"ls" then
    all (fun v => negb (option_executes_or_writes v) && negb (short_option_contains v 76)
                  && negb (short_option_contains v 82)
                  && negb (one_of v ["--dereference"; "--recursive"]))
  else if str_eqb program $"rg" then
    all (fun v => negb (option_executes_or_writes v)
                  && negb (one_of v ["--pre"; "--hostname-bin"; "-L"; "--follow"])
                  && negb (starts_with v $"--pre=") && negb (starts_with v $"--hostname-bin="))
  else if str_eqb program $"grep" then
    all (fun v => negb (option_executes_or_writes v) && negb (short_option_contains v 102)
                  && negb (one_of v ["-R"; "-r"; "--recursive"; "--dereference-recursive";
                                     "--include"; "--exclude-from"; "--file"])
                  && negb (starts_with v $"--exclude-from=") && negb (starts_with v $"--file="))
  else if str_eqb program $"du" then
    all (fun v => negb (short_option_contains v 76) && negb (str_eqb v $"--dereference")
                  && negb (option_executes_or_writes v))
  else if str_eqb program $"date" then
    all (fun v => negb (one_of v ["-s"; "--set"]) && negb (short_option_contains v 115)
                  && negb (starts_with v $"--set=") && negb (option_executes_or_writes v))
  else if str_eqb program $"sort" then
    all (fun v => negb (one_of v ["-o"; "-T"; "--output"; "--temporary-directory";
                                  "--compress-program"])
                  && negb (short_option_contains v 111) && negb (short_option_contains v 84)
                  && negb (starts_with v $"--output=")
                  && negb (starts_with v $"--temporary-directory=")
                  && negb (starts_with v $"--compress-program=")
                  && negb (option_executes_or_writes v))
  else if str_eqb program $"uniq" then
    (length (List.filter (fun v => negb (starts_with v $"-")) args) <=? 1)%nat
  else if one_of program ["printf"; "echo"] then all (fun v => negb (starts_with v $"-"))
  else if str_eqb program $"find" then
    negb (existsb (fun v => one_of v
      ["-L"; "-H"; "-delete"; "-exec"; "-execdir"; "-ok"; "-okdir"; "-fprint"; "-fprint0";
       "-fprintf"; "-fls"; "-follow"; "-lname"]) args)
  else if str_eqb program $"sed" then false
  else if str_eqb program $"git" then read_only_git args
  else false.

(** ** Programs that write files *)
Fixpoint git_subcommand (args : list str) : option str :=
  match args with
  | [] => None
  | arg :: rest =>
      if one_of arg ["-c"; "-C"; "--git-dir"; "--work-tree"; "--namespace"; "--exec-path"]
      then match rest with [] => None | _ :: rest => git_subcommand rest end
      else if starts_with arg $"-" then git_subcommand rest
      else Some arg
  end.

Definition program_mutates_files (argv : list str) : bool :=
  match argv with
  | [] => false
  | program :: args =>
      if one_of program ["rm"; "rmdir"; "unlink"; "mv"; "cp"; "tee"; "dd"; "truncate"; "shred"; "ln";
                         "install"; "chmod"; "chown"; "chgrp"; "touch"; "mkdir"; "rsync"; "patch"]
      then true
      else if one_of program ["sed"; "perl"] then
        existsb (fun a => starts_with a $"-i" || starts_with a $"--in-place") args
      else if str_eqb program $"git" then
        match git_subcommand args with
        | Some sub => one_of sub ["add"; "am"; "apply"; "checkout"; "cherry-pick"; "clean"; "commit";
                                  "merge"; "mv"; "pull"; "push"; "rebase"; "reset"; "restore";
                                  "revert"; "rm"; "stash"; "switch"; "tag"]
        | None => false
        end
      else false
  end.

Definition writes_files (a : ShellAnalysis) : bool :=
  (risk_rank RemoteCode <=? risk_rank (sa_risk a))%nat
  || opaque_contains Eval (sa_opaque a)
  || opaque_contains DynamicProgram (sa_opaque a)
  || opaque_contains UnterminatedQuote (sa_opaque a)
  || opaque_contains NestingTooDeep (sa_opaque a)
  || opaque_contains Oversized (sa_opaque a)
  || existsb (fun c => sc_writes_file c || program_mutates_files (sc_effective c)) (sa_commands a).

(** ** The analyzer *)
Record Accumulator : Type := mkAcc {
  a_commands : list ShellCommand;
  a_opaque : list OpaqueConstruct;
}.
Definition AccM (A : Type) : Type := Accumulator -> Res (A * Accumulator).
#[global] Instance accm_ret : MRet AccM := fun _ a s => Ok (a, s).
#[global] Instance accm_bind : MBind AccM := fun A B f m s =>
  match m s with
  | Ok (a, s') => f a s'
  | Panic => Panic
  | OutOfFuel => OutOfFuel
  end.
Definition acc_opaque (c : OpaqueConstruct) : AccM unit :=
  fun s => Ok (tt, mkAcc (a_commands s) (opaque_insert c (a_opaque s))).
Definition acc_extend (cs : list OpaqueConstruct) : AccM unit :=
  fun s => Ok (tt, mkAcc (a_commands s) (opaque_extend (a_opaque s) cs)).
Definition acc_command (c : ShellCommand) : AccM unit :=
  fun s => Ok (tt, mkAcc (a_commands s ++ [c]) (a_opaque s)).
Definition acc_lift {A} (r : Res A) : AccM A := fun s =>
  match r with Ok a => Ok (a, s) | Panic => Panic | OutOfFuel => OutOfFuel end.

Record Flow : Type := mkFlow { fetches : bool; executes_stdin : bool }.
Definition default_flow : Flow := mkFlow false false.

Record Classified : Type := mkClassified {
  c_risk : ShellRisk;
  c_escalated : bool;
  c_wrapped : bool;
  c_from_xargs : bool;
  c_lookup : bool;
  c_writes_file : bool;
}.
Definition default_classified : Classified := mkClassified Mutating false false false false false.
Definition set_risk (r : ShellRisk) (c : Classified) : Classified :=
  mkClassified r (c_escalated c) (c_wrapped c) (c_from_xargs c) (c_lookup c) (c_writes_file c).
Definition set_escalated (c : Classified) : Classified :=
  mkClassified (c_risk c) true (c_wrapped c) (c_from_xargs c) (c_lookup c) (c_writes_file c).
Definition set_wrapped (c : Classified) : Classified :=
  mkClassified (c_risk c) (c_escalated c) true (c_from_xargs c) (c_lookup c) (c_writes_file c).
Definition set_from_xargs (c : Classified) : Classified :=
  mkClassified (c_risk c) (c_escalated c) (c_wrapped c) true (c_lookup c) (c_writes_file c).
Definition set_lookup (c : Classified) : Classified :=
  mkClassified (c_risk c) (c_escalated c) (c_wrapped c) (c_from_xargs c) true (c_writes_file c).
Definition set_writes (c : Classified) : Classified :=
  mkClassified (c_risk c) (c_escalated c) (c_wrapped c) (c_from_xargs c) (c_lookup c) true.

(** [skip_options(words, index, takes_value)], on [rest = words[index..]]. *)
Fixpoint skip_options_from (rest : list Word) (index : nat) (takes_value : list string) : nat :=
  match rest with
  | [] => index
  | word :: rest' =>
      let text := w_text word in
      if str_eqb text $"--" then S index
      else if (1 <? len text) && starts_with text $"-" then
        if one_of text takes_value then
          match rest' with
          | [] => S (S index)
          | _ :: rest'' => skip_options_from rest'' (S (S index)) takes_value
          end
        else skip_options_from rest' (S index) takes_value
      else index
  end.
Definition skip_options (words : list Word) (index : nat) (takes_value : list string) : nat :=
  skip_options_from (drop index words) index takes_value.

(** Length of the leading run without [f] ([take_while] of its negation). *)
Definition position_or_all (f : Word -> bool) (ws : list Word) : nat :=
  match position f ws with Some i => i | None => length ws end.

Section Analyze.
(** [analyze_into], for nested scripts. *)
Context (analyze_into : str -> nat -> AccM bool).

Definition analyze_nested_text (text : str) (dynamic : bool) (depth : nat) : AccM unit :=
  (if dynamic then acc_opaque DynamicProgram else mret tt) ;;
  _ ← analyze_into text (S depth);
  mret tt.

(** [skip_env(words, index, ...)], on [rest = words[index..]]; [total] is
    [words.len()]. *)
Fixpoint skip_env_from (rest : list Word) (index total depth : nat) : AccM nat :=
  match rest with
  | [] => mret index
  | word :: rest' =>
      let text := w_text word in
      if str_eqb text $"--" then mret (S index)
      else if one_of text ["-S"; "--split-string"] then
        match rest' with
        | script :: _ =>
            analyze_nested_text (w_text script) (w_dynamic script) depth ;; mret total
        | [] => mret (S (S index))
        end
      else
        match strip_prefix $"--split-string=" text with
        | Some script => analyze_nested_text script (w_dynamic word) depth ;; mret total
        | None =>
            if one_of text ["-u"; "--unset"; "-C"; "--chdir"; "-P"] then
              match rest' with
              | [] => mret (S (S index))
              | _ :: rest'' => skip_env_from rest'' (S (S index)) total depth
              end
            else if ((1 <? len text) && starts_with text $"-") || w_assignment word then
              skip_env_from rest' (S index) total depth
            else mret index
        end
  end.
Definition skip_env (words : list Word) (index depth : nat) : AccM nat :=
  skip_env_from (drop index words) index (length words) depth.

(** One round of [unwrap_wrappers] on the word at [index]: [inl] is the index
    after a wrapper, [inr] the early return. *)
Definition unwrap_one (words : list Word) (index depth : nat) (word : Word) (command : Classified)
    : AccM ((nat * Classified) + (nat * Classified)) :=
  let next := S index in
  let base := basename (w_text word) in
  let at_ s := str_eqb base (lit s) in
  let skip takes := mret (inl (skip_options words next takes, command)) in
  if at_ "sudo" then
    mret (inl (skip_options words next ["-u"; "-g"; "-h"; "-p"; "-C"; "-U"; "-r"; "-t"; "-T"; "-D"],
               set_escalated command))
  else if at_ "doas" then mret (inl (skip_options words next ["-u"; "-C"], set_escalated command))
  else if at_ "pkexec" then mret (inl (skip_options words next ["--user"], set_escalated command))
  else if at_ "run0" then
    mret (inl (skip_options words next ["-u"; "--user"; "-D"; "--chdir"], set_escalated command))
  else if at_ "env" then i ← skip_env words next depth; mret (inl (i, command))
  else if one_of base ["nohup"; "builtin"; "unbuffer"; "chronic"] then mret (inl (next, command))
  else if at_ "exec" then skip ["-a"]
  else if at_ "command" then
    if match words !! next with Some w => one_of (w_text w) ["-v"; "-V"] | None => false end
    then mret (inr (length words, set_lookup command))
    else skip []
  else if at_ "nice" then skip ["-n"; "--adjustment"]
  else if at_ "ionice" then skip ["-c"; "-n"; "-p"; "-t"; "-P"; "-u"]
  else if at_ "time" then
    let options := drop next words in
    let options := take (position_or_all (fun w => negb (starts_with (w_text w) $"-")) options) options in
    let command :=
      if existsb (fun w => one_of (w_text w) ["-o"; "--output"]
                           || starts_with (w_text w) $"--output=") options
      then set_writes command else command in
    mret (inl (skip_options words next ["-f"; "-o"; "--format"; "--output"], command))
  else if at_ "timeout" then
    mret (inl (S (skip_options words next ["-s"; "-k"; "--signal"; "--kill-after"]), command))
  else if at_ "stdbuf" then skip ["-i"; "-o"; "-e"]
  else if at_ "caffeinate" then skip ["-w"; "-t"]
  else if at_ "watch" then skip ["-n"; "--interval"; "-q"; "--equexit"; "--differences"]
  else if at_ "xargs" then
    mret (inl (skip_options words next
                 ["-a"; "-d"; "-E"; "-e"; "-I"; "-i"; "-L"; "-l"; "-n"; "-P"; "-s"; "--arg-file";
                  "--delimiter"; "--max-args"; "--max-procs"; "--max-lines"; "--replace"],
               set_from_xargs command))
  else mret (inr (index, command)).

(** [for _ in 0..8] over the wrappers. *)
Fixpoint unwrap_wrappers (rounds : nat) (words : list Word) (index depth : nat) (command : Classified)
    : AccM (nat * Classified) :=
  match rounds with
  | O => acc_opaque NestingTooDeep ;; mret (length words, command)
  | S rounds =>
      match words !! index with
      | None => mret (index, command)
      | Some word =>
          if w_dynamic word then mret (index, command)
          else
            r ← unwrap_one words index depth word command;
            match r with
            | inr done => mret done
            | inl (index, command) => unwrap_wrappers rounds words index depth (set_wrapped command)
            end
      end
  end.

(** Option scan of [classify_shell_invocation]: the remaining words and
    whether a command string was announced or stdin is read. *)
Fixpoint shell_options (args : list Word) (inline reads_stdin : bool) : list Word * bool * bool :=
  match args with
  | [] => ([], inline, reads_stdin)
  | word :: rest =>
      let text := w_text word in
      if str_eqb text $"--" || str_eqb text $"-" then (rest, inline, reads_stdin)
      else if one_of text ["-o"; "+o"; "--rcfile"; "--init-file"] then
        match rest with
        | [] => ([], inline, reads_stdin)
        | _ :: rest => shell_options rest inline reads_stdin
        end
      else if (1 <? len text) && (starts_with text $"-" || starts_with text $"+") then
        if negb (starts_with text $"--") then
          shell_options rest (inline || contains_char text 99) (reads_stdin || contains_char text 115)
        else shell_options rest (inline || str_eqb text $"--command") reads_stdin
      else (args, inline, reads_stdin)
  end.

Definition classify_shell_invocation (args : list Word) (depth : nat) (flow : Flow) : AccM Flow :=
  let '(rest, inline, reads_stdin) := shell_options args false false in
  match rest, inline with
  | script :: _, true => analyze_nested_text (w_text script) (w_dynamic script) depth ;; mret flow
  | [], true => acc_opaque UnbalancedNesting ;; mret flow
  | _ :: _, false => if reads_stdin then mret (mkFlow (fetches flow) true) else mret flow
  | [], false => mret (mkFlow (fetches flow) true)
  end.

Definition SHELLS : list string :=
  ["sh"; "bash"; "zsh"; "dash"; "ksh"; "mksh"; "ash"; "fish"; "busybox"].
Definition FETCHERS : list string := ["curl"; "wget"; "fetch"; "aria2c"; "http"; "https"; "xh"].
Definition is_interpreter (program : str) : bool :=
  one_of program ["perl"; "ruby"; "node"; "php"; "lua"; "deno"; "Rscript"; "tclsh"]
  || starts_with program $"python".

Definition dd_risk (texts : list str) : ShellRisk :=
  let target_risk target :=
    if is_block_device target then Catastrophic
    else if starts_with target $"/dev/" then Destructive else Mutating in
  match omap (strip_prefix $"of=") texts with
  | [] => Mutating
  | t :: ts => fold_left (fun r t => risk_max r (target_risk t)) ts (target_risk t)
  end.

Definition erases_disk (t : str) : bool :=
  let lower := to_ascii_lowercase t in
  starts_with lower $"erase"
  || one_of lower ["zerodisk"; "randomdisk"; "secureerase"; "partitiondisk"; "reformat"].

(** [classify_program(program, program_word, args, ...)] *)
Definition classify_program (program : str) (program_word : Word) (args : list Word) (depth : nat)
    (command : Classified) (flow : Flow) : AccM (Classified * Flow) :=
  let texts := map w_text args in
  let at_ s := str_eqb program (lit s) in
  let risk r := mret (set_risk r command, flow) in
  if one_of program SHELLS then
    let inner :=
      if at_ "busybox" then
        match args with
        | applet :: rest => if one_of (w_text applet) SHELLS then Some rest else None
        | [] => None
        end
      else Some args in
    match inner with
    | None => mret (command, flow)
    | Some args =>
        flow ← classify_shell_invocation args depth flow; mret (set_risk Mutating command, flow)
    end
  else if is_interpreter program then
    let inline := existsb (fun t => one_of t ["-c"; "-e"; "-E"; "-r"; "--eval"]) texts in
    let positional := existsb (fun t => negb (starts_with t $"-")) texts in
    mret (set_risk Mutating command,
          mkFlow (fetches flow)
                 (negb inline && (negb positional || existsb (str_eqb $"-") texts)))
  else if at_ "eval" then
    acc_opaque Eval ;;
    analyze_nested_text (join $" " texts) (existsb w_dynamic args) depth ;;
    risk Mutating
  else if at_ "su" then
    (match position (fun t => one_of t ["-c"; "--command"]) texts with
     | Some p =>
         match args !! (p + 1)%nat with
         | Some script => analyze_nested_text (w_text script) (w_dynamic script) depth
         | None => mret tt
         end
     | None => mret tt
     end) ;;
    mret (set_risk Escalating (set_escalated command), flow)
  else if one_of program FETCHERS then
    mret (set_risk Mutating command, mkFlow true (executes_stdin flow))
  else if at_ "rm" then risk (rm_risk args (c_from_xargs command))
  else if one_of program ["chmod"; "chown"; "chgrp"] then
    let recursive := existsb (fun t => str_eqb t $"--recursive" || short_flag t 82) texts in
    risk (if recursive && existsb (fun w => negb (starts_with (w_text w) $"-")
                                            && is_root_target (w_text w)) args
          then Catastrophic else Mutating)
  else if at_ "mkfs" || starts_with program $"mkfs." || starts_with program $"newfs"
          || one_of program ["mke2fs"; "wipefs"] then risk Catastrophic
  else if at_ "dd" then risk (dd_risk texts)
  else if at_ "diskutil" then
    risk (if existsb erases_disk texts then Catastrophic else Mutating)
  else if at_ "kill" && kills_every_process texts then risk Catastrophic
  else if one_of program ["shutdown"; "reboot"; "halt"; "poweroff"] then risk Catastrophic
  else if one_of program ["init"; "telinit"] && existsb (fun t => one_of t ["0"; "6"]) texts
  then risk Catastrophic
  else if at_ "systemctl"
          && existsb (fun t => one_of t ["poweroff"; "reboot"; "halt"; "kexec"]) texts
  then risk Catastrophic
  else if negb (c_wrapped command) && str_eqb program (w_text program_word)
          && read_only_program program texts then risk ReadOnly
  else risk Mutating.

(** Leading reserved words; [ControlFlow] for all but [!] and [time]. *)
Fixpoint skip_reserved (words : list Word) (index : nat) : AccM nat :=
  match words with
  | [] => mret index
  | w :: rest =>
      if negb (w_quoted w) && is_reserved_prefix (w_text w) then
        (if one_of (w_text w) ["!"; "time"] then mret tt else acc_opaque ControlFlow) ;;
        skip_reserved rest (S index)
      else mret index
  end.

Definition skip_keyword (words : list Word) (index : nat) : AccM nat :=
  match words !! index with
  | Some w =>
      if w_quoted w then mret index
      else if one_of (w_text w) ["for"; "case"; "select"; "[["; "coproc"] then
        acc_opaque ControlFlow ;; mret (length words)
      else if str_eqb (w_text w) $"function" then
        acc_opaque FunctionDefinition ;; mret (length words)
      else if one_of (w_text w) ["fi"; "done"; "esac"; "}"; "]]"; "in"] then mret (length words)
      else mret index
  | None => mret index
  end.

Fixpoint count_assignments (words : list Word) : nat :=
  match words with
  | w :: rest => if w_assignment w then S (count_assignments rest) else 0
  | [] => 0
  end.

(** The redirect loop of [classify_segment]: updated risk and file-write flag. *)
Fixpoint classify_redirects (redirects : list Redirect) (stdin : bool) (depth : nat)
    (risk : ShellRisk) (writes : bool) : AccM (ShellRisk * bool) :=
  match redirects with
  | [] => mret (risk, writes)
  | r :: rest =>
      let target := w_text (r_target r) in
      match r_kind r with
      | Output | Append | ReadWrite =>
          let writes := writes || (w_dynamic (r_target r) || negb (is_harmless_device target)) in
          let risk :=
            if is_block_device target then Catastrophic
            else if starts_with target $"/dev/" && negb (is_harmless_device target)
            then risk_max risk Destructive else risk in
          classify_redirects rest stdin depth risk writes
      | HeredocKind | HereString =>
          (if stdin then
             match r_body r with
             | Some body => _ ← analyze_into body (S depth); mret tt
             | None => mret tt
             end
           else mret tt) ;;
          classify_redirects rest stdin depth risk writes
      | _ => classify_redirects rest stdin depth risk writes
      end
  end.

Definition classify_segment (segment : RawSegment) (depth : nat) (pipeline_fetches : bool)
    : AccM Flow :=
  let words := s_words segment in
  index ← skip_reserved words 0;
  index ← skip_keyword words index;
  let assignments := count_assignments (drop index words) in
  let has_assignments := (0 <? assignments)%nat in
  let index := (index + assignments)%nat in
  p ← unwrap_wrappers 8 words index depth default_classified;
  let '(program_start, command) := p in
  let effective := drop (Nat.min program_start (length words)) words in
  r ← (match effective with
       | program_word :: args =>
           if w_dynamic program_word then
             acc_opaque DynamicProgram ;; mret (set_risk Opaque command, default_flow)
           else
             classify_program (basename (w_text program_word)) program_word args depth command
                              default_flow
       | [] =>
           mret (if c_escalated command then set_risk Escalating command
                 else if c_lookup command then set_risk ReadOnly command
                 else command, default_flow)
       end);
  let '(command, flow) := r in
  let risk := if c_escalated command then risk_max (c_risk command) Escalating else c_risk command in
  let piped := bool_decide (s_connector segment = Pipe) in
  let risk := if executes_stdin flow && pipeline_fetches && piped
              then risk_max risk RemoteCode else risk in
  rw ← classify_redirects (s_redirects segment) (executes_stdin flow) depth risk
         (c_writes_file command);
  let '(risk, writes_file) := rw in
  match words, s_redirects segment with
  | [], [] => mret flow
  | _, _ =>
      let risk := if writes_file || has_assignments then risk_max risk Mutating else risk in
      let effective_text :=
        match map w_text effective with
        | program :: rest => basename program :: rest
        | [] => []
        end in
      acc_command
        (mkCommand depth (map w_text words) effective_text
           (forallb (fun w => negb (w_quoted w) && negb (w_dynamic w) && negb (w_glob w)) words)
           (c_wrapped command) has_assignments
           (match s_redirects segment with [] => false | _ => true end)
           writes_file piped risk) ;;
      mret flow
  end.

Fixpoint classify_segments (segs : list RawSegment) (depth : nat) (pipeline_fetches : bool)
    : AccM unit :=
  match segs with
  | [] => mret tt
  | seg :: rest =>
      let fetching := if bool_decide (s_connector seg = Pipe) then pipeline_fetches else false in
      flow ← classify_segment seg depth fetching;
      classify_segments rest depth (fetching || fetches flow)
  end.

Fixpoint analyze_each (scripts : list str) (depth : nat) : AccM unit :=
  match scripts with
  | [] => mret tt
  | script :: rest => _ ← analyze_into script (S depth); analyze_each rest depth
  end.
End Analyze.

Section AnalyzeInto.
(** The tokenizer, [ShellLexer.lex] with some amount of fuel. *)
Context (lexer : str -> Res Lexed).

(** [analyze_into(source, depth, acc)]. Each nested call raises [depth] by one
    and a depth above [MAX_DEPTH] returns at once, so [rounds] never runs out
    while [MAX_DEPTH + 1 < depth + rounds]. *)
Fixpoint analyze_into_with (rounds : nat) (source : str) (depth : nat) : AccM bool :=
  if (MAX_DEPTH <? depth)%nat then acc_opaque NestingTooDeep ;; mret false
  else
    match rounds with
    | O => fun _ => OutOfFuel
    | S rounds =>
        lexed ← acc_lift (lexer source);
        acc_extend (opaque lexed) ;;
        let only_pipes := forallb (fun seg =>
          match s_connector seg with Start | Pipe => true | _ => false end) (segments lexed) in
        classify_segments (analyze_into_with rounds) (segments lexed) depth false ;;
        analyze_each (analyze_into_with rounds) (nested lexed) depth ;;
        mret only_pipes
    end.

Definition summarize (only_pipes : bool) (acc : Accumulator) : ShellAnalysis :=
  let opaque := match a_commands acc with
                | [] => opaque_insert Empty (a_opaque acc)
                | _ => a_opaque acc
                end in
  let risk := match map sc_risk (a_commands acc) with
              | [] => Opaque
              | r :: rs => fold_left risk_max rs r
              end in
  let risk := match opaque with [] => risk | _ => risk_max risk Opaque end in
  let risk := if opaque_contains FunctionDefinition opaque then risk_max risk Destructive else risk in
  mkAnalysis (a_commands acc) opaque only_pipes risk.

Definition analyze_with (command : str) : Res ShellAnalysis :=
  let acc := mkAcc [] [] in
  r ← (if MAX_SOURCE_BYTES <? len command
       then Ok (false, mkAcc [] (opaque_insert Oversized []))
       else analyze_into_with (S MAX_DEPTH) command 0 acc);
  mret (summarize (fst r) (snd r)).
End AnalyzeInto.

(** [shell::analyze] *)
Definition analyze : str -> Res ShellAnalysis := analyze_with lex.
