(* ===== verification/PermissionRule.v ===== *)
(** Permission rules: [tool_name.rs], [permissions/read_batch.rs] and
    [permissions/rule.rs]. The regular-expression engine and the JSON printer
    are third-party code, hence parameters of the definitions that call them. *)
From S2P Require Import Prelude.

Inductive PermissionDecision : Type := Allow | Deny | Ask.
#[global] Instance PermissionDecision_eq_dec : EqDecision PermissionDecision.
Proof. solve_decision. Defined.

(** ** Loops over fallible tests *)
Fixpoint any_res {A} (f : A -> Res bool) (l : list A) : Res bool :=
  match l with
  | [] => mret false
  | a :: l => b ← f a; if (b : bool) then mret true else any_res f l
  end.
Fixpoint all_res {A} (f : A -> Res bool) (l : list A) : Res bool :=
  match l with
  | [] => mret true
  | a :: l => b ← f a; if (b : bool) then all_res f l else mret false
  end.
(** [a || b] and [a && b] with a right operand evaluated on demand. *)
Definition or_else (a b : Res bool) : Res bool := x ← a; if (x : bool) then mret true else b.
Definition and_then (a b : Res bool) : Res bool := x ← a; if (x : bool) then b else mret false.

(** ** Tool names *)
Definition PREFIX : str := $"functions.".

(** [canonical_tool_name]: the byte slice [name[..PREFIX.len()]] panics when it
    ends inside a character. *)
Definition canonical_tool_name (name : str) : Res str :=
  if len PREFIX <? len name then
    match split_at_byte name (len PREFIX) with
    | None => Panic
    | Some (head, rest) => if eq_ignore_ascii_case head PREFIX then Ok rest else Ok name
    end
  else Ok name.

(** ** Batch reads *)
Definition MAX_BATCH_READ_FILES : nat := 32.
Definition MAX_BATCH_READ_PATH_BYTES : Z := 4096.

Fixpoint batch_paths (files : list json) : option (list str) :=
  match files with
  | [] => Some []
  | entry :: rest =>
      match jget_str $"path" entry with
      | Some path =>
          if negb (bool_decide (path = [])) && (len path <=? MAX_BATCH_READ_PATH_BYTES)
          then cons path <$> batch_paths rest else None
      | None => None
      end
  end.

(** [read_batch::paths]: [inl] is the [Err] case. *)
Definition paths (tool_name : str) (args : json) : Res (PermissionDecision + option (list str)) :=
  tool ← canonical_tool_name tool_name;
  if negb (eq_ignore_ascii_case tool $"read") then mret (inr None)
  else match jget $"files" args with
       | None => mret (inr None)
       | Some files =>
           match jget $"file_path" args with
           | Some _ => mret (inl Deny)
           | None =>
               match jas_array files with
               | Some l =>
                   if negb (Nat.eqb (length l) 0) && (length l <=? MAX_BATCH_READ_FILES)%nat then
                     match batch_paths l with
                     | Some ps => mret (inr (Some ps))
                     | None => mret (inl Deny)
                     end
                   else mret (inl Deny)
               | None => mret (inl Deny)
               end
           end
       end.

Definition member_args (path : str) : json := JObject [($"file_path", JString path)].

Fixpoint check_members (check_member : json -> Res PermissionDecision) (ps : list str)
    (decision : PermissionDecision) : Res PermissionDecision :=
  match ps with
  | [] => mret decision
  | path :: rest =>
      d ← check_member (member_args path);
      match d with
      | Deny => mret Deny
      | Ask => check_members check_member rest Ask
      | Allow => check_members check_member rest decision
      end
  end.

(** [read_batch::check] *)
Definition check_batch (tool_name : str) (args : json)
    (check_member : json -> Res PermissionDecision) : Res (option PermissionDecision) :=
  p ← paths tool_name args;
  match p with
  | inr None => mret None
  | inr (Some ps) => d ← check_members check_member ps Allow; mret (Some d)
  | inl denial => mret (Some denial)
  end.

(** ** Parsing rules *)
Record PermissionRule : Type := mkRule {
  rule : str;
  rule_tool_name : option str;
  arg_pattern : option str;
}.

Fixpoint split_first (c : char) (s : str) : option (str * str) :=
  match s with
  | [] => None
  | x :: s =>
      if x =? c then Some ([], s)
      else match split_first c s with Some (a, b) => Some (x :: a, b) | None => None end
  end.

Definition canonicalize_search_rule (tool_name : str) (pattern : option str)
    : option str * option str :=
  let lower := to_ascii_lowercase tool_name in
  if one_of lower ["grep"; "glob"; "bm25"] then
    let scoped := match pattern with
                  | None => lower ++ $" **"
                  | Some p => if str_eqb p $"*" then lower ++ $" **" else lower ++ $" " ++ p
                  end in
    (Some $"search", Some scoped)
  else (Some tool_name, pattern).

Definition parse_rule (rule : str) : option str * option str :=
  match split_first c_lparen rule with
  | Some (tool, rest) =>
      if ends_with rule [c_rparen]
      then canonicalize_search_rule tool (Some (removelast rest))
      else canonicalize_search_rule rule None
  | None => canonicalize_search_rule rule None
  end.

Definition new_rule (rule : str) : PermissionRule :=
  let '(tool, pattern) := parse_rule rule in mkRule rule tool pattern.

(** ** Globs *)
Definition is_regex_special (c : char) : bool :=
  contains_char ([c_dot; c_plus; c_caret; c_dollar; c_lparen; c_rparen; c_lbracket; 93; c_lbrace;
                  c_rbrace; c_pipe; c_backslash]) c.

(** [".*"], ["[^/\\]*"] and ["[^/\\]"] as the regular expression reads them. *)
Definition re_any : str := $".*".
Definition re_segment_char : str := [c_lbracket; c_caret; c_slash; c_backslash; c_backslash; 93].
Definition re_segment : str := re_segment_char ++ $"*".

Fixpoint glob_body (chars : str) : str :=
  match chars with
  | [] => []
  | c :: rest =>
      if c =? c_star then
        match rest with
        | d :: rest' =>
            if d =? c_star then
              match rest' with
              | e :: rest'' => if e =? c_slash then re_any ++ glob_body rest''
                               else re_any ++ glob_body rest'
              | [] => re_any ++ glob_body rest'
              end
            else re_segment ++ glob_body rest
        | [] => re_segment ++ glob_body rest
        end
      else if c =? c_quest then re_segment_char ++ glob_body rest
      else if is_regex_special c then c_backslash :: c :: glob_body rest
      else c :: glob_body rest
  end.
Definition glob_to_regex (pattern : str) : str := $"^" ++ glob_body pattern ++ $"$".

Definition normalize_slashes (text : str) : str :=
  map (fun c => if c =? c_backslash then c_slash else c) text.

Section Rules.
(** [Regex::new(pattern)] followed by [is_match(text)]; [None] when the pattern
    does not compile. *)
Context (regex_is_match : str -> str -> option bool).
(** [serde_json::to_string(args).unwrap_or_default()] *)
Context (json_to_string : json -> str).

Definition glob_match (pattern text : str) : bool :=
  match strip_suffix $":*" pattern with
  | Some prefix => starts_with text prefix
  | None =>
      let text := normalize_slashes text in
      match regex_is_match (glob_to_regex pattern) text with
      | Some b => b
      | None => starts_with text pattern
      end
  end.

Definition matches_tool_name (rule_tool actual_tool : str) : Res bool :=
  rule_tool ← canonical_tool_name rule_tool;
  actual_tool ← canonical_tool_name actual_tool;
  if contains_char rule_tool c_star || contains_char rule_tool c_quest
  then mret (glob_match rule_tool actual_tool)
  else if starts_with rule_tool $"mcp__" && starts_with actual_tool $"mcp__"
          && starts_with actual_tool rule_tool
  then mret true
  else mret (eq_ignore_ascii_case rule_tool actual_tool).

Definition matches_tool (r : PermissionRule) (tool_name : str) : Res bool :=
  match rule_tool_name r with
  | Some rule_tool => matches_tool_name rule_tool tool_name
  | None => mret false
  end.

Definition build_arg_string (tool_name : str) (args : json) : Res str :=
  tool ← canonical_tool_name tool_name;
  let tool := to_lowercase tool in
  let field k := match jget_str (lit k) args with Some s => s | None => [] end in
  mret (if str_eqb tool $"bash" then field "command"
        else if one_of tool ["read"; "write"; "edit"; "download"] then field "file_path"
        else if str_eqb tool $"search" then
          field "mode" ++ $" " ++ field "query" ++ $" " ++ field "path"
        else if str_eqb tool $"ls" then field "path"
        else json_to_string args).

Definition matches_args (pattern tool_name : str) (args : json) : Res bool :=
  p ← paths tool_name args;
  match p with
  | inr (Some ps) => mret (existsb (glob_match pattern) ps)
  | inl _ => mret false
  | inr None =>
      if str_eqb pattern $"*" then mret true
      else s ← build_arg_string tool_name args; mret (glob_match pattern s)
  end.

Definition matches (r : PermissionRule) (tool_name : str) (args : json) : Res bool :=
  m ← matches_tool r tool_name;
  if negb m then mret false
  else match arg_pattern r with
       | None => mret true
       | Some pattern => matches_args pattern tool_name args
       end.

Definition matches_shell_command (r : PermissionRule) (tool_name command : str) : Res bool :=
  m ← matches_tool r tool_name;
  if negb m then mret false
  else match arg_pattern r with
       | None => mret true
       | Some pattern =>
           if str_eqb pattern $"*" then mret true
           else match strip_suffix $":*" pattern with
                | Some prefix =>
                    match strip_prefix prefix command with
                    | Some rest => mret (bool_decide (rest = []) || starts_with rest $" ")
                    | None => mret false
                    end
                | None => mret (glob_match pattern command)
                end
       end.

Definition matches_all_args (r : PermissionRule) : bool :=
  match arg_pattern r with None => true | Some pattern => str_eqb pattern $"*" end.
End Rules.
