(* ===== verification/PermissionRuleFacts.v ===== *)
(** Correctness of permission rules: tool-name canonicalization, rule parsing,
    the glob translation against a declarative reading of globs, and the scope
    of legacy search grants. *)
From S2P Require Import Prelude Text PermissionRule.

(** ** Byte slices *)
Definition ascii (s : str) : Prop := Forall (fun c => 0 <= c < 128) s.

Ltac ascii_literal :=
  unfold ascii; cbn [lit];
  repeat (apply List.Forall_cons; [vm_compute; split; congruence|]); apply List.Forall_nil.

Lemma ascii_len s : ascii s -> len s = Z.of_nat (length s).
Proof.
  induction 1 as [|c s Hc Hs IH]; [done|]. rewrite len_cons, IH. cbn [length].
  unfold utf8_len. replace (c <? 128) with true by lia. lia.
Qed.

Lemma split_at_byte_app s n a b : split_at_byte s n = Some (a, b) -> s = a ++ b /\ len a = n.
Proof.
  revert n a. induction s as [|c s IH]; intros n a H; cbn [split_at_byte] in H;
    (destruct (n =? 0) eqn:En; [simplify_eq/=; split; [done|lia]|]); [done|].
  destruct (n <? utf8_len c); [done|].
  destruct (split_at_byte s (n - utf8_len c)) as [[a' b']|] eqn:E; [|done].
  simplify_eq. apply IH in E as [-> E]. split; [done|]. rewrite len_cons. lia.
Qed.

Lemma split_at_byte_ascii s (n : nat) :
  ascii s -> (n <= length s)%nat -> split_at_byte s (Z.of_nat n) = Some (take n s, drop n s).
Proof.
  intros Hs. revert n. induction Hs as [|c s Hc Hs IH]; intros n Hn.
  { destruct n; [done|cbn in Hn; lia]. }
  destruct n as [|n]; [done|]. cbn in Hn.
  cbn [split_at_byte]. rewrite (proj2 (Z.eqb_neq _ _)) by lia.
  assert (Hu : utf8_len c = 1) by (unfold utf8_len; replace (c <? 128) with true by lia; done).
  rewrite Hu. rewrite (proj2 (Z.ltb_ge _ _)) by lia.
  replace (Z.of_nat (S n) - 1) with (Z.of_nat n) by lia. by rewrite IH by lia.
Qed.

Lemma canonical_ascii name : ascii name -> exists t, canonical_tool_name name = Ok t /\ ascii t.
Proof.
  intros Ha. unfold canonical_tool_name. destruct (len PREFIX <? len name) eqn:E; [|by exists name].
  change (len PREFIX) with (Z.of_nat 10). rewrite (ascii_len name) in E by done.
  change (len PREFIX) with 10 in E.
  rewrite split_at_byte_ascii by (done || lia).
  destruct (eq_ignore_ascii_case _ _); [|by exists name]. eexists. split; [done|]. by apply Forall_drop.
Qed.

Definition three_bytes (s : str) : Prop := Forall (fun c => 2048 <= c < 65536) s.

Lemma split_at_three_bytes s n :
  three_bytes s -> n mod 3 <> 0 -> 0 <= n -> split_at_byte s n = None.
Proof.
  intros Hs. revert n. induction Hs as [|c s Hc Hs IH]; intros n Hm Hn; cbn [split_at_byte].
  { by replace (n =? 0) with false by (destruct (n =? 0) eqn:E; [|done]; apply Z.eqb_eq in E; by subst). }
  replace (n =? 0) with false by (destruct (n =? 0) eqn:E; [|done]; apply Z.eqb_eq in E; by subst).
  assert (Hu : utf8_len c = 3).
  { unfold utf8_len. replace (c <? 128) with false by lia. replace (c <? 2048) with false by lia.
    by replace (c <? 65536) with true by lia. }
  rewrite Hu. destruct (n <? 3) eqn:E3; [done|]. rewrite IH; [done| |lia].
  replace (n - 3) with (n + (-1) * 3) by lia. by rewrite Z.mod_add.
Qed.

Lemma three_bytes_len s : three_bytes s -> len s = 3 * Z.of_nat (length s).
Proof.
  induction 1 as [|c s Hc Hs IH]; [done|]. rewrite len_cons, IH. cbn [length]. unfold utf8_len.
  replace (c <? 128) with false by lia. replace (c <? 2048) with false by lia.
  replace (c <? 65536) with true by lia. lia.
Qed.

(** Canonicalization is total on ASCII tool names: it never panics, and it
    either keeps the name or strips one [functions.] prefix in any case. *)
Theorem canonical_tool_name_ascii (name : str) :
  ascii name ->
  exists t, canonical_tool_name name = Ok t
    /\ (t = name \/ exists p, name = p ++ t /\ eq_ignore_ascii_case p PREFIX = true /\ t <> []).
Proof.
  intros Ha. destruct (canonical_ascii name Ha) as (t & Ht & _). exists t. split; [done|].
  unfold canonical_tool_name in Ht. destruct (len PREFIX <? len name) eqn:El; [|simplify_eq; by left].
  destruct (split_at_byte name (len PREFIX)) as [[p r]|] eqn:E; [|done].
  apply split_at_byte_app in E as [-> Hl].
  destruct (eq_ignore_ascii_case p PREFIX) eqn:Ep; simplify_eq; [|by left].
  right. exists p. do 2 (split; [done|]). intros ->. rewrite app_nil_r in El. lia.
Qed.

Lemma canonical_tool_name_ascii_witness :
  exists t, canonical_tool_name $"Functions.Read" = Ok t /\
    (t = $"Functions.Read" \/ exists p, $"Functions.Read" = p ++ t
       /\ eq_ignore_ascii_case p PREFIX = true /\ t <> []).
Proof. apply canonical_tool_name_ascii. ascii_literal. Defined.

(** A tool name of four or more three-byte characters (any CJK name) makes
    canonicalization panic: the tenth byte falls inside a character. *)
Theorem canonical_tool_name_panics (name : str) :
  three_bytes name -> (4 <= length name)%nat -> canonical_tool_name name = Panic.
Proof.
  intros Ht Hl. unfold canonical_tool_name. change (len PREFIX) with 10.
  rewrite three_bytes_len by done. replace (10 <? _) with true by lia.
  by rewrite split_at_three_bytes.
Qed.

Lemma canonical_tool_name_panics_witness :
  canonical_tool_name [24037; 20855; 21517; 31216] = Panic.
Proof.
  apply canonical_tool_name_panics; [|cbn; lia]. repeat (constructor; [lia|]). constructor.
Defined.

(** ** Rule strings *)
Lemma split_first_app c a b : contains_char a c = false -> split_first c (a ++ c :: b) = Some (a, b).
Proof.
  induction a as [|x a IH]; cbn; intros H; [by rewrite Z.eqb_refl|].
  apply orb_false_iff in H as [Hx Ha]. rewrite Z.eqb_sym, Hx. by rewrite IH.
Qed.
Lemma split_first_none c a : contains_char a c = false -> split_first c a = None.
Proof.
  induction a as [|x a IH]; cbn; intros H; [done|].
  apply orb_false_iff in H as [Hx Ha]. rewrite Z.eqb_sym, Hx. by rewrite IH.
Qed.
Lemma removelast_snoc {A} (l : list A) x : removelast (l ++ [x]) = l.
Proof. rewrite removelast_app by done. by rewrite app_nil_r. Qed.

(** Rule strings parse back: [Tool(pattern)] yields that tool and that
    pattern (the pattern may itself contain parentheses), and a bare tool name
    yields the tool with no pattern, for every name outside the retired
    [grep], [glob] and [bm25]. *)
Theorem rule_parse_roundtrip (tool pattern : str) :
  contains_char tool c_lparen = false ->
  one_of (to_ascii_lowercase tool) ["grep"; "glob"; "bm25"] = false ->
  new_rule (tool ++ [c_lparen] ++ pattern ++ [c_rparen])
    = mkRule (tool ++ [c_lparen] ++ pattern ++ [c_rparen]) (Some tool) (Some pattern)
  /\ new_rule tool = mkRule tool (Some tool) None.
Proof.
  intros Hp Hl. unfold new_rule, parse_rule, canonicalize_search_rule. split.
  - change ([c_lparen] ++ pattern ++ [c_rparen]) with (c_lparen :: (pattern ++ [c_rparen])).
    rewrite (split_first_app c_lparen tool) by done.
    change (c_lparen :: (pattern ++ [c_rparen])) with ((c_lparen :: pattern) ++ [c_rparen]).
    rewrite !app_assoc, ends_with_snoc, removelast_snoc, Hl. done.
  - by rewrite split_first_none, Hl.
Qed.

Lemma rule_parse_roundtrip_witness :
  new_rule $"Bash(echo (x))" = mkRule $"Bash(echo (x))" (Some $"Bash") (Some $"echo (x)").
Proof. apply (rule_parse_roundtrip $"Bash" $"echo (x)"); reflexivity. Defined.

(** ** Globs *)

(** A declarative reading of a glob: [*] stands for a run of characters within
    one path segment, [**] (with the slash that follows it, if any) for a run of
    characters other than a line feed, [?] for one character of a segment. *)
Definition in_segment (c : char) : Prop := c <> c_slash /\ c <> c_backslash.

Inductive glob_matches : str -> str -> Prop :=
| gm_end : glob_matches [] []
| gm_star p s t : (forall p', p <> c_star :: p') -> Forall in_segment s ->
    glob_matches p t -> glob_matches (c_star :: p) (s ++ t)
| gm_path_slash p s t : Forall (fun c => c <> c_nl) s ->
    glob_matches p t -> glob_matches (c_star :: c_star :: c_slash :: p) (s ++ t)
| gm_path p s t : (forall p', p <> c_slash :: p') -> Forall (fun c => c <> c_nl) s ->
    glob_matches p t -> glob_matches (c_star :: c_star :: p) (s ++ t)
| gm_one p c t : in_segment c -> glob_matches p t -> glob_matches (c_quest :: p) (c :: t)
| gm_char p c t : c <> c_star -> c <> c_quest -> glob_matches p t -> glob_matches (c :: p) (c :: t).

(** The fragment of regular expressions that [glob_to_regex] emits. *)
Inductive re_item : Type := AnyStar | SegmentStar | SegmentChar | Char (c : char).

Definition render_item (i : re_item) : str :=
  match i with
  | AnyStar => re_any
  | SegmentStar => re_segment
  | SegmentChar => re_segment_char
  | Char c => if is_regex_special c then [c_backslash; c] else [c]
  end.
Definition render (items : list re_item) : str := concat (map render_item items).
(** A bare [*] or [?] after an item would be read as a repetition. *)
Definition item_ok (i : re_item) : Prop :=
  match i with Char c => c <> c_star /\ c <> c_quest | _ => True end.

(** Its documented meaning: [.] is any character but a line feed, [[^/\\]] any
    character but the two, [*] a repetition. *)
Inductive re_matches : list re_item -> str -> Prop :=
| re_end : re_matches [] []
| re_any_star l s t : Forall (fun c => c <> c_nl) s -> re_matches l t -> re_matches (AnyStar :: l) (s ++ t)
| re_segment_star l s t : Forall in_segment s -> re_matches l t -> re_matches (SegmentStar :: l) (s ++ t)
| re_segment_one l c t : in_segment c -> re_matches l t -> re_matches (SegmentChar :: l) (c :: t)
| re_char l c t : re_matches l t -> re_matches (Char c :: l) (c :: t).

(** What the code relies on of [regex::Regex]: when an anchored pattern of the
    fragment compiles, [is_match] decides its meaning. *)
Definition regex_documented (regex : str -> str -> option bool) : Prop :=
  forall items text b, Forall item_ok items ->
    regex ($"^" ++ render items ++ $"$") text = Some b -> (b = true <-> re_matches items text).

Fixpoint glob_items (chars : str) : list re_item :=
  match chars with
  | [] => []
  | c :: rest =>
      if c =? c_star then
        match rest with
        | d :: rest' =>
            if d =? c_star then
              match rest' with
              | e :: rest'' => if e =? c_slash then AnyStar :: glob_items rest''
                               else AnyStar :: glob_items rest'
              | [] => AnyStar :: glob_items rest'
              end
            else SegmentStar :: glob_items rest
        | [] => SegmentStar :: glob_items rest
        end
      else if c =? c_quest then SegmentChar :: glob_items rest
      else Char c :: glob_items rest
  end.

(** Case analysis of a glob, following its reading. *)
Ltac glob_cases p IH :=
  destruct p as [|c rest]; [|cbn [glob_items glob_body];
    destruct (c =? c_star) eqn:?Ec;
    [destruct rest as [|d rest']; [|destruct (d =? c_star) eqn:?Ed;
       [destruct rest' as [|e rest'']; [|destruct (e =? c_slash) eqn:?Ee]|]]
    |destruct (c =? c_quest) eqn:?Eq]].

Lemma glob_body_render p : glob_body p = render (glob_items p).
Proof.
  induction p as [p IH] using (induction_ltof1 _ (@length Z)); unfold ltof in IH.
  glob_cases p IH; try (unfold render; cbn [map concat render_item]; fold (render));
    rewrite ?IH by (cbn; lia); try done.
  unfold render. cbn [map concat render_item]. by destruct (is_regex_special c).
Qed.
Lemma glob_items_ok p : Forall item_ok (glob_items p).
Proof.
  induction p as [p IH] using (induction_ltof1 _ (@length Z)); unfold ltof in IH.
  glob_cases p IH; repeat constructor; try (apply IH; cbn; lia);
    by apply Z.eqb_neq.
Qed.

Lemma glob_items_sound p t : re_matches (glob_items p) t -> glob_matches p t.
Proof.
  revert t. induction p as [p IH] using (induction_ltof1 _ (@length Z)); unfold ltof in IH.
  intros t. glob_cases p IH; intros H; inversion H; subst; repeat match goal with
    | E : (_ =? _) = true |- _ => apply Z.eqb_eq in E; subst
    | E : (_ =? _) = false |- _ => apply Z.eqb_neq in E
    end; try solve [constructor].
  all: first [ apply gm_path_slash | apply gm_path | apply gm_star | apply gm_one | apply gm_char ];
    try done; try (intros ? [= ? ?]; congruence); try (apply IH; [cbn; lia|done]); try (intros ? ?; congruence).
Qed.

Lemma glob_items_complete p t : glob_matches p t -> re_matches (glob_items p) t.
Proof.
  induction 1 as [|p s t Hn Hs H IH|p s t Hs H IH|p s t Hn Hs H IH|p c t Hc H IH|p c t H1 H2 H IH];
    cbn [glob_items].
  - constructor.
  - change (c_star =? c_star) with true. cbn match. destruct p as [|d p]; [by constructor|].
    destruct (d =? c_star) eqn:E; [apply Z.eqb_eq in E as ->; by destruct (Hn p)|]. by constructor.
  - change (c_star =? c_star) with true. change (c_slash =? c_slash) with true. cbn match. by constructor.
  - change (c_star =? c_star) with true. cbn match. destruct p as [|d p]; [by constructor|].
    destruct (d =? c_slash) eqn:E; [apply Z.eqb_eq in E as ->; by destruct (Hn p)|]. by constructor.
  - change (c_quest =? c_star) with false. change (c_quest =? c_quest) with true. cbn match. by constructor.
  - apply Z.eqb_neq in H1 as ->, H2 as ->. by constructor.
Qed.

(** ** An executable engine for the fragment

    It decides the meaning above, so [regex_documented] is satisfiable. *)
Definition star_match (ok : char -> bool) (k : str -> bool) : str -> bool :=
  fix go t := k t || match t with c :: t' => ok c && go t' | [] => false end.
Definition segment_char (c : char) : bool := negb (c =? c_slash) && negb (c =? c_backslash).

Fixpoint match_items (items : list re_item) : str -> bool :=
  match items with
  | [] => fun t => bool_decide (t = [])
  | AnyStar :: l => star_match (fun c => negb (c =? c_nl)) (match_items l)
  | SegmentStar :: l => star_match segment_char (match_items l)
  | SegmentChar :: l => fun t => match t with c :: t => segment_char c && match_items l t | [] => false end
  | Char x :: l => fun t => match t with c :: t => (c =? x) && match_items l t | [] => false end
  end.

Fixpoint parse_items (fuel : nat) (s : str) : option (list re_item) :=
  match fuel with
  | O => None
  | S fuel =>
      if bool_decide (s = $"$") then Some []
      else match strip_prefix re_any s with
           | Some r => cons AnyStar <$> parse_items fuel r
           | None =>
               match strip_prefix re_segment s with
               | Some r => cons SegmentStar <$> parse_items fuel r
               | None =>
                   match strip_prefix re_segment_char s with
                   | Some r => cons SegmentChar <$> parse_items fuel r
                   | None =>
                       match s with
                       | c :: r =>
                           if c =? c_backslash then
                             match r with
                             | x :: r => if is_regex_special x then cons (Char x) <$> parse_items fuel r
                                         else None
                             | [] => None
                             end
                           else if is_regex_special c then None
                           else cons (Char c) <$> parse_items fuel r
                       | [] => None
                       end
                   end
               end
           end
  end.

Definition fragment_regex (pattern text : str) : option bool :=
  match strip_prefix $"^" pattern with
  | Some s => match parse_items (length s) s with
              | Some items => Some (match_items items text)
              | None => None
              end
  | None => None
  end.

Lemma star_match_spec ok k t :
  star_match ok k t = true <->
  exists s u, t = s ++ u /\ Forall (fun c => ok c = true) s /\ k u = true.
Proof.
  split.
  - induction t as [|c t IH]; cbn; rewrite orb_true_iff; intros [H|H]; try done.
    { by exists [], []. }
    { by exists [], (c :: t). }
    apply andb_true_iff in H as [Hc H]. destruct (IH H) as (s & u & -> & Hs & Hk).
    exists (c :: s), u. by repeat constructor.
  - intros (s & u & -> & Hs & Hk). induction Hs as [|c s Hc Hs IH].
    + destruct u; cbn; by rewrite Hk.
    + cbn. rewrite Hc, orb_true_iff. by right.
Qed.
Lemma segment_char_spec c : segment_char c = true <-> in_segment c.
Proof.
  unfold segment_char, in_segment. rewrite andb_true_iff, !negb_true_iff, !Z.eqb_neq. done.
Qed.

Lemma match_items_spec items t : match_items items t = true <-> re_matches items t.
Proof.
  revert t. induction items as [|i items IH]; intros t; cbn [match_items].
  { rewrite bool_decide_eq_true. split; [intros ->; constructor|by inversion 1]. }
  destruct i.
  - rewrite star_match_spec. split.
    + intros (s & u & -> & Hs & Hk). constructor; [|by apply IH].
      eapply List.Forall_impl; [|exact Hs]. intros c. by rewrite negb_true_iff, Z.eqb_neq.
    + inversion 1 as [|? s u Hs Hu| | |]; subst. exists s, u. split_and!; [done| |by apply IH].
      eapply List.Forall_impl; [|exact Hs]. intros c. by rewrite negb_true_iff, Z.eqb_neq.
  - rewrite star_match_spec. split.
    + intros (s & u & -> & Hs & Hk). constructor; [|by apply IH].
      eapply List.Forall_impl; [|exact Hs]. intros c. apply segment_char_spec.
    + inversion 1 as [| |? s u Hs Hu| |]; subst. exists s, u. split_and!; [done| |by apply IH].
      eapply List.Forall_impl; [|exact Hs]. intros c. apply segment_char_spec.
  - destruct t as [|c t]; [by split; [|inversion 1]|]. rewrite andb_true_iff, segment_char_spec, IH.
    split; [by intros [? ?]; constructor|by inversion 1].
  - destruct t as [|x t]; [by split; [|inversion 1]|]. rewrite andb_true_iff, Z.eqb_eq, IH.
    split; [by intros [-> ?]; constructor|by inversion 1].
Qed.

Lemma strip_any c s : c_dot <> c -> strip_prefix re_any (c :: s) = None.
Proof. apply (strip_prefix_head c_dot). Qed.
Lemma strip_segment c s : c_lbracket <> c ->
  strip_prefix re_segment (c :: s) = None /\ strip_prefix re_segment_char (c :: s) = None.
Proof. intros H. split; by apply (strip_prefix_head c_lbracket). Qed.
Lemma strip_any_segment s :
  strip_prefix re_any (re_segment ++ s) = None /\ strip_prefix re_any (re_segment_char ++ s) = None.
Proof. done. Qed.
Lemma not_special c x : is_regex_special c = false -> is_regex_special x = true -> x <> c.
Proof. congruence. Qed.

(** A segment character is not read as a repeated one. *)
Lemma segment_char_not_star items : Forall item_ok items ->
  strip_prefix re_segment (re_segment_char ++ render items ++ $"$") = None.
Proof.
  intros Hok. unfold re_segment. destruct Hok as [|i items Hi _]; [done|].
  change (render (i :: items)) with (render_item i ++ render items). rewrite <-!app_assoc.
  destruct i as [| | |c]; try done. cbn [render_item]. destruct (is_regex_special c); [done|].
  destruct Hi as [Hi _]. unfold re_segment_char. cbn [app]. repeat (cbn [strip_prefix]; rewrite Z.eqb_refl).
  apply strip_prefix_head. done.
Qed.

Lemma parse_render items fuel :
  Forall item_ok items -> (length items < fuel)%nat ->
  parse_items fuel (render items ++ $"$") = Some items.
Proof.
  intros Hok. revert fuel. induction Hok as [|i items Hi Hok IH]; intros fuel Hf;
    destruct fuel as [|fuel]; try lia; [done|].
  cbn [length] in Hf. specialize (IH fuel ltac:(lia)).
  change (render (i :: items)) with (render_item i ++ render items). rewrite <-app_assoc.
  destruct i as [| | |c]; cbn [render_item parse_items].
  - rewrite bool_decide_false by done. by rewrite strip_prefix_app, IH.
  - rewrite bool_decide_false by done. rewrite (proj1 (strip_any_segment _)). by rewrite strip_prefix_app, IH.
  - rewrite bool_decide_false by done. rewrite (proj2 (strip_any_segment _)).
    by rewrite segment_char_not_star, strip_prefix_app, IH.
  - destruct (is_regex_special c) eqn:Ec; cbn [app].
    + destruct (strip_segment c_backslash (c :: render items ++ $"$")) as [E1 E2]; [done|].
      rewrite bool_decide_false, strip_any, E1, E2, Z.eqb_refl, Ec by done. by rewrite IH.
    + pose proof (not_special c c_dollar Ec eq_refl). pose proof (not_special c c_dot Ec eq_refl).
      pose proof (not_special c c_lbracket Ec eq_refl). pose proof (not_special c c_backslash Ec eq_refl).
      destruct (strip_segment c (render items ++ $"$")) as [E1 E2]; [done|].
      rewrite bool_decide_false by (intros [= ? _]; by subst).
      rewrite strip_any, E1, E2, (proj2 (Z.eqb_neq c _)), Ec by done. by rewrite IH.
Qed.

Lemma render_length items : (length items <= length (render items))%nat.
Proof.
  induction items as [|i items IH]; [done|].
  change (render (i :: items)) with (render_item i ++ render items). rewrite length_app. cbn [length].
  assert (1 <= length (render_item i))%nat; [|lia].
  destruct i as [| | |c]; cbn [render_item]; [vm_compute; lia..|]. destruct (is_regex_special c); cbn; lia.
Qed.

Lemma fragment_regex_compiles items text : Forall item_ok items ->
  fragment_regex ($"^" ++ render items ++ $"$") text = Some (match_items items text).
Proof.
  intros Hok. unfold fragment_regex. rewrite strip_prefix_app, parse_render; [done|done|].
  rewrite length_app. cbn. pose proof (render_length items). lia.
Qed.

Lemma fragment_regex_documented : regex_documented fragment_regex.
Proof.
  intros items text b Hok H. rewrite fragment_regex_compiles in H by done. injection H as <-.
  apply match_items_spec.
Qed.

Lemma glob_compiles p text : fragment_regex (glob_to_regex p) text = Some (match_items (glob_items p) text).
Proof. unfold glob_to_regex. rewrite glob_body_render. apply fragment_regex_compiles, glob_items_ok. Qed.

Section Glob.
Context (regex : str -> str -> option bool) (Hregex : regex_documented regex).

Lemma glob_match_iff pattern text :
  strip_suffix $":*" pattern = None ->
  regex (glob_to_regex pattern) (normalize_slashes text) <> None ->
  glob_match regex pattern text = true <-> glob_matches pattern (normalize_slashes text).
Proof.
  intros Hs Hc. unfold glob_match. rewrite Hs. cbn zeta.
  destruct (regex _ _) as [b|] eqn:E; [|done].
  unfold glob_to_regex in E. rewrite glob_body_render in E.
  rewrite (Hregex _ _ _ (glob_items_ok pattern) E).
  split; [apply glob_items_sound|apply glob_items_complete].
Qed.
End Glob.

(** Glob matching agrees with the reading of globs: through the generated
    regular expression, [*] stays within a path segment, [**] crosses segments
    (swallowing the slash that follows it), [?] is one character and every other
    character, regex metacharacters included, stands for itself; the text's
    backslashes count as slashes. A pattern ending in [:*] is a plain prefix
    test. *)
Theorem glob_match_meaning (regex : str -> str -> option bool) (pattern text : str) :
  regex_documented regex ->
  regex (glob_to_regex pattern) (normalize_slashes text) <> None ->
  (strip_suffix $":*" pattern = None ->
     (glob_match regex pattern text = true <-> glob_matches pattern (normalize_slashes text)))
  /\ (forall prefix, pattern = prefix ++ $":*" ->
     (glob_match regex pattern text = true <-> exists rest, text = prefix ++ rest)).
Proof.
  intros Hr Hc. split; [intros Hs; by apply glob_match_iff|].
  intros prefix Hp. apply strip_suffix_Some in Hp. unfold glob_match. rewrite Hp. apply starts_with_spec.
Qed.

Lemma glob_match_meaning_witness :
  glob_match fragment_regex $"src/**/*.rs" $"src/a/b.rs" = true
  /\ glob_matches $"src/**/*.rs" $"src/a/b.rs".
Proof.
  assert (H : glob_match fragment_regex $"src/**/*.rs" $"src/a/b.rs" = true) by by vm_compute.
  split; [done|]. refine (proj1 (proj1 (glob_match_meaning fragment_regex $"src/**/*.rs" $"src/a/b.rs" _ _) _) H).
  - apply fragment_regex_documented.
  - by vm_compute.
  - by vm_compute.
Defined.

(** No glob that relies on [**] matches a text with a line feed where the
    [**] has to cover it: a rule whose whole argument pattern is [**] does not match
    arguments that contain one, although the documentation says [**] matches any
    sequence. *)
Theorem double_star_misses_line_feed (regex : str -> str -> option bool) (a b : str) :
  regex_documented regex ->
  regex (glob_to_regex $"**") (normalize_slashes (a ++ [c_nl] ++ b)) <> None ->
  glob_match regex $"**" (a ++ [c_nl] ++ b) = false.
Proof.
  intros Hr Hc. apply not_true_is_false. rewrite glob_match_iff by done. intros H.
  assert (Hin : In c_nl (normalize_slashes (a ++ [c_nl] ++ b))).
  { unfold normalize_slashes. rewrite map_app. apply in_or_app. right. by left. }
  revert H Hin. generalize (normalize_slashes (a ++ [c_nl] ++ b)). clear. intros text H Hin.
  inversion H as [|? ? ? Hn| |p s t Hn Hs Ht E1 E2| |]; subst; [by destruct (Hn [])|..]; try done.
  inversion Ht; subst. rewrite app_nil_r in Hin.
  rewrite List.Forall_forall in Hs. by apply (Hs c_nl).
Qed.

Lemma double_star_misses_line_feed_witness :
  glob_match fragment_regex $"**" ($"a" ++ [c_nl] ++ $"b") = false.
Proof.
  apply double_star_misses_line_feed; [apply fragment_regex_documented|by vm_compute].
Defined.

(** ** Legacy search grants *)

(** Characters with no meaning to the matcher: a glob that starts with them only
    matches texts that do. *)
Definition inert (c : char) : Prop :=
  c <> c_star /\ c <> c_quest /\ c <> 58 /\ c <> c_slash /\ c <> c_backslash.

Lemma glob_matches_prefix p q t : Forall inert p -> glob_matches (p ++ q) t -> exists t', t = p ++ t'.
Proof.
  intros Hp. revert t. induction Hp as [|c p Hc Hp IH]; intros t H; [by exists t|].
  destruct Hc as (H1 & H2 & _). cbn in H. inversion H; subst; try done.
  match goal with H : glob_matches (p ++ q) _ |- _ => apply IH in H as [t' ->] end. by exists t'.
Qed.

Lemma normalize_prefix p text t' : Forall inert p ->
  normalize_slashes text = p ++ t' -> exists r, text = p ++ r.
Proof.
  intros Hp. revert text. induction Hp as [|c p Hc Hp IH]; intros text H; [by exists text|].
  destruct text as [|x text]; [done|]. cbn in H. injection H as Hx Ht.
  apply IH in Ht as [r ->]. exists r. cbn. f_equal.
  destruct Hc as (_ & _ & _ & Hs & _). by destruct (x =? c_backslash).
Qed.

Lemma glob_match_prefix regex p q text :
  regex_documented regex -> Forall inert p -> glob_match regex (p ++ q) text = true ->
  exists r, text = p ++ r.
Proof.
  intros Hr Hp H. destruct (strip_suffix $":*" (p ++ q)) as [prefix|] eqn:Es.
  - unfold glob_match in H. rewrite Es in H. apply starts_with_spec in H as [r ->].
    apply strip_suffix_Some in Es. apply app_eq_app in Es as [l [[-> Hl]|[-> _]]].
    + destruct l as [|c l]; [exists r; by rewrite app_nil_r|].
      injection Hl as <- _. apply Forall_app in Hp as [_ Hp].
      inversion Hp as [|? ? (_ & _ & Hc & _)]; subst. by destruct Hc.
    + exists (l ++ r). by rewrite app_assoc.
  - destruct (regex (glob_to_regex (p ++ q)) (normalize_slashes text)) eqn:Ec.
    + apply glob_match_iff in H; [|done..|congruence].
      apply glob_matches_prefix in H as [t' H]; [|done]. by eapply normalize_prefix.
    + unfold glob_match in H. rewrite Es, Ec in H. apply starts_with_spec in H as [r H].
      rewrite <-app_assoc in H. by eapply normalize_prefix.
Qed.

Definition search_mode (m : string) : Prop := In m ["grep"; "glob"; "bm25"].

Lemma search_mode_pattern m pattern : search_mode m ->
  exists q, parse_rule (lit m ++ [c_lparen] ++ pattern ++ [c_rparen])
            = (Some $"search", Some ((lit m ++ $" ") ++ q)).
Proof.
  intros Hm. unfold parse_rule. assert (Hl : contains_char (lit m) c_lparen = false
    /\ to_ascii_lowercase (lit m) = lit m /\ one_of (lit m) ["grep"; "glob"; "bm25"] = true)
    by (destruct Hm as [<-|[<-|[<-|[]]]]; done).
  destruct Hl as (H1 & H2 & H3).
  change ([c_lparen] ++ pattern ++ [c_rparen]) with (c_lparen :: (pattern ++ [c_rparen])).
  rewrite (split_first_app c_lparen (lit m)) by done.
  change (c_lparen :: (pattern ++ [c_rparen])) with ((c_lparen :: pattern) ++ [c_rparen]).
  rewrite !app_assoc, ends_with_snoc, removelast_snoc. unfold canonicalize_search_rule.
  rewrite H2, H3. cbn zeta. destruct (str_eqb pattern $"*").
  - exists $"**". by rewrite <-app_assoc.
  - exists pattern. by rewrite app_assoc.
Qed.

Lemma build_arg_string_search to_json args :
  let field k := match jget_str (lit k) args with Some s => s | None => [] end in
  build_arg_string to_json $"search" args
  = Ok (field "mode" ++ $" " ++ field "query" ++ $" " ++ field "path").
Proof. done. Qed.

(** A persisted grant for a retired search tool stays within its mode: a
    rule [grep(...)], [glob(...)] or [bm25(...)], whatever its pattern, never
    matches a unified [search] call of another mode. *)
Theorem legacy_search_scope (regex : str -> str -> option bool) (to_json : json -> str)
    (granted used : string) (pattern : str) (args : json) :
  regex_documented regex -> search_mode granted -> search_mode used ->
  jget_str $"mode" args = Some (lit used) ->
  matches regex to_json (new_rule (lit granted ++ [c_lparen] ++ pattern ++ [c_rparen])) $"search" args
    = Ok true ->
  used = granted.
Proof.
  intros Hr Hg Hu Hmode H. unfold new_rule, matches in H.
  destruct (search_mode_pattern granted pattern Hg) as [q Hq]. rewrite Hq in H.
  change (matches_tool _ _ $"search") with (@Ok bool true) in H. cbn [negb] in H.
  unfold mbind, res_bind in H. cbn match in H. cbn [arg_pattern] in H. unfold matches_args in H.
  change (paths $"search" args) with (@Ok (PermissionDecision + option (list str)) (inr None)) in H.
  assert (Hi : Forall inert (lit granted ++ $" ")).
  { destruct Hg as [<-|[<-|[<-|[]]]]; repeat constructor; done. }
  unfold mbind, res_bind in H. destruct (str_eqb _ $"*") eqn:Es.
  { apply bool_decide_eq_true in Es. destruct Hg as [<-|[<-|[<-|[]]]]; done. }
  rewrite build_arg_string_search, Hmode in H. unfold mbind, res_bind in H. injection H as H.
  apply glob_match_prefix in H as [r H]; [|done|done].
  destruct Hg as [<-|[<-|[<-|[]]]], Hu as [<-|[<-|[<-|[]]]]; done.
Qed.

Lemma legacy_search_scope_witness :
  let args := JObject [($"mode", JString $"grep"); ($"query", JString $"x")] in
  matches fragment_regex (fun _ => []) (new_rule $"grep(*)") $"search" args = Ok true
  /\ "grep"%string = "grep"%string.
Proof.
  cbn zeta. split; [by vm_compute|].
  apply (legacy_search_scope fragment_regex (fun _ => []) "grep" "grep" $"*"
           (JObject [($"mode", JString $"grep"); ($"query", JString $"x")]));
    [apply fragment_regex_documented|by left|by left|reflexivity|by vm_compute].
Defined.
