(* ===== verification/PermissionPolicy.v ===== *)
(** Permission policies: [permissions/policy.rs], [permissions/manager.rs],
    [permissions/style_specialty.rs], the lane of a tool from [queue.rs] and the
    [PermissionChecker] trait of [permissions/mod.rs]. *)
From stdpp Require Import gmap.
From S2P Require Import Prelude ShellLexer Shell PermissionRule.

(** ** Lanes *)
Inductive SessionLane : Type := Control | Query | Execute | Generate.
#[global] Instance SessionLane_eq_dec : EqDecision SessionLane.
Proof. solve_decision. Defined.

Definition from_tool_name (tool_name : str) : SessionLane :=
  if one_of tool_name ["read"; "ls"; "list_files"; "search"; "web_fetch"; "web_search";
                       "code_symbols"; "code_navigation"; "code_diagnostics"] then Query
  else if one_of tool_name ["bash"; "write"; "edit"; "download"; "delete"; "move"; "copy"; "execute"]
  then Execute
  else Execute.

Definition yolo_lane_rule (lane : SessionLane) : str :=
  match lane with
  | Control => $"lane:control" | Query => $"lane:query"
  | Execute => $"lane:execute" | Generate => $"lane:generate"
  end.

(** ** Enforcement *)
Inductive PermissionEnforcement : Type := Enforced | Unrestricted.
#[global] Instance PermissionEnforcement_eq_dec : EqDecision PermissionEnforcement.
Proof. solve_decision. Defined.

Definition enforcement_parse (value : str) : option PermissionEnforcement :=
  let v := to_ascii_lowercase (trim value) in
  if str_eqb v $"enforced" then Some Enforced
  else if str_eqb v $"unrestricted" then Some Unrestricted
  else None.
Definition enforcement_as_str (e : PermissionEnforcement) : str :=
  match e with Enforced => $"enforced" | Unrestricted => $"unrestricted" end.

(** [resolve]: [None] is the [Err] case. *)
Definition enforcement_resolve (enforcement : option PermissionEnforcement) (enabled : option bool)
    : option PermissionEnforcement :=
  match enforcement, enabled with
  | Some Enforced, Some false => None
  | Some e, _ => Some e
  | None, Some false => None
  | None, _ => Some Enforced
  end.

(** ** Policies *)
Record PermissionPolicy : Type := mkPolicy {
  deny : list PermissionRule;
  allow : list PermissionRule;
  ask : list PermissionRule;
  default_decision : PermissionDecision;
  enforcement : PermissionEnforcement;
}.

Record PermissionPolicyWire : Type := mkWire {
  wire_deny : list PermissionRule;
  wire_allow : list PermissionRule;
  wire_ask : list PermissionRule;
  wire_default_decision : PermissionDecision;
  wire_enforcement : option PermissionEnforcement;
  wire_enabled : option bool;
}.
Definition policy_try_from (wire : PermissionPolicyWire) : option PermissionPolicy :=
  match enforcement_resolve (wire_enforcement wire) (wire_enabled wire) with
  | Some e => Some (mkPolicy (wire_deny wire) (wire_allow wire) (wire_ask wire)
                             (wire_default_decision wire) e)
  | None => None
  end.

Definition new_policy : PermissionPolicy := mkPolicy [] [] [] Ask Enforced.
Definition strict : PermissionPolicy := mkPolicy [] [] [] Ask Enforced.

Definition add_deny (rule : str) (p : PermissionPolicy) : PermissionPolicy :=
  mkPolicy (deny p ++ [new_rule rule]) (allow p) (ask p) (default_decision p) (enforcement p).
Definition add_allow (rule : str) (p : PermissionPolicy) : PermissionPolicy :=
  mkPolicy (deny p) (allow p ++ [new_rule rule]) (ask p) (default_decision p) (enforcement p).
Definition add_ask (rule : str) (p : PermissionPolicy) : PermissionPolicy :=
  mkPolicy (deny p) (allow p) (ask p ++ [new_rule rule]) (default_decision p) (enforcement p).
Definition deny_all (rules : list string) (p : PermissionPolicy) : PermissionPolicy :=
  fold_left (fun p r => add_deny (lit r) p) rules p.
Definition allow_all (rules : list string) (p : PermissionPolicy) : PermissionPolicy :=
  fold_left (fun p r => add_allow (lit r) p) rules p.
Definition ask_all (rules : list string) (p : PermissionPolicy) : PermissionPolicy :=
  fold_left (fun p r => add_ask (lit r) p) rules p.
Definition allow_yolo_lanes (lanes : list SessionLane) (p : PermissionPolicy) : PermissionPolicy :=
  fold_left (fun p l => add_allow (yolo_lane_rule l) p) lanes p.
Definition with_default (d : PermissionDecision) (p : PermissionPolicy) : PermissionPolicy :=
  mkPolicy (deny p) (allow p) (ask p) d (enforcement p).

(** ** Specialty styles and postures *)
Inductive AgentStyle : Type := GeneralPurpose | Plan | Verification | Explore | CodeReview.

Definition explore_permissions : PermissionPolicy :=
  let p := allow_all ["read"; "search"; "ls"; "web_fetch"; "web_search"; "update_plan"] new_policy in
  let p := deny_all ["write"; "edit"; "download"; "task"; "parallel_task"] p in
  let p := allow_all ["Bash(ls:*)"; "Bash(cat:*)"; "Bash(head:*)"; "Bash(tail:*)"; "Bash(find:*)";
                      "Bash(wc:*)"] p in
  let p := deny_all ["Bash(rm:*)"; "Bash(mv:*)"; "Bash(cp:*)"] p in
  with_default Deny p.
Definition plan_permissions : PermissionPolicy :=
  let p := allow_all ["read"; "search"; "ls"; "update_plan"] new_policy in
  let p := deny_all ["write"; "edit"; "download"; "bash"; "task"; "parallel_task"] p in
  with_default Deny p.
Definition verification_permissions : PermissionPolicy :=
  let p := allow_all ["read"; "search"; "ls"; "bash"; "web_fetch"; "web_search"; "update_plan"]
                     new_policy in
  let p := deny_all ["write"; "edit"; "download"; "task"; "parallel_task"] p in
  with_default Deny p.

Definition specialty_permission_policy (style : AgentStyle) : option PermissionPolicy :=
  match style with
  | GeneralPurpose => None
  | Explore => Some explore_permissions
  | Plan => Some plan_permissions
  | Verification | CodeReview => Some verification_permissions
  end.

Definition policy_for_posture (posture : str) : PermissionPolicy :=
  let v := to_ascii_lowercase (trim posture) in
  if str_eqb v $"plan" then plan_permissions
  else if str_eqb v $"auto" then allow_all ["read"; "search"; "ls"; "update_plan"] new_policy
  else if str_eqb v $"yolo" then allow_yolo_lanes [Query; Execute] new_policy
  else new_policy.

(** The [PermissionChecker] trait. *)
Class PermissionChecker (T : Type) : Type := {
  checker_check : T -> str -> json -> Res PermissionDecision;
  checker_expose : T -> str -> Res bool;
}.

Section Policy.
Context (regex_is_match : str -> str -> option bool) (json_to_string : json -> str).
Local Abbreviation matches := (matches regex_is_match json_to_string).
Local Abbreviation matches_tool := (matches_tool regex_is_match).
Local Abbreviation matches_shell_command := (matches_shell_command regex_is_match).

Definition is_lane_rule (lane : str) (r : PermissionRule) : bool := str_eqb (rule r) lane.

(** The rule loops of [check], once batches and shell commands are handled. *)
Definition check_rules (p : PermissionPolicy) (tool_name : str) (args : json)
    : Res PermissionDecision :=
  denied ← any_res (fun r => matches r tool_name args) (deny p);
  if (denied : bool) then mret Deny
  else if bool_decide (enforcement p = Unrestricted) then mret Allow
  else
    let lane_rule := yolo_lane_rule (from_tool_name tool_name) in
    allowed ← any_res (fun r => or_else (mret (is_lane_rule lane_rule r)) (matches r tool_name args))
                      (allow p);
    if (allowed : bool) then mret Allow
    else
      asked ← any_res (fun r => matches r tool_name args) (ask p);
      if (asked : bool) then mret Ask else mret (default_decision p).

(** [any_command_matches] of [check_bash]. *)
Definition any_command_matches (tool_name : str) (args : json) (a : ShellAnalysis)
    (r : PermissionRule) : Res bool :=
  or_else (matches r tool_name args)
    (any_res (fun c => or_else (matches_shell_command r tool_name (literal_text c))
                               (matches_shell_command r tool_name (effective_text c)))
             (sa_commands a)).

Definition every_command_allowed (p : PermissionPolicy) (tool_name : str) (a : ShellAnalysis)
    : Res bool :=
  if is_opaque a then mret false
  else all_res (fun c =>
         if sc_writes_file c then mret false
         else any_res (fun r => matches_shell_command r tool_name (literal_text c)) (allow p))
         (sa_commands a).

Definition check_bash (p : PermissionPolicy) (tool_name : str) (args : json) (command : str)
    : Res PermissionDecision :=
  a ← analyze command;
  denied ← any_res (any_command_matches tool_name args a) (deny p);
  if (denied : bool) then mret Deny
  else if bool_decide (sa_risk a = Catastrophic) then mret Deny
  else if bool_decide (enforcement p = Unrestricted) then mret Allow
  else
    let lane_rule := yolo_lane_rule (from_tool_name tool_name) in
    blanket ← any_res (fun r => or_else (mret (is_lane_rule lane_rule r))
                                  (and_then (matches_tool r tool_name) (mret (matches_all_args r))))
                      (allow p);
    if (blanket : bool) then mret Allow
    else
      every ← every_command_allowed p tool_name a;
      if (every : bool) then mret Allow
      else
        asked ← any_res (any_command_matches tool_name args a) (ask p);
        if (asked : bool) then mret Ask else mret (default_decision p).

(** [check] on one call: everything after the batch test. *)
Definition check_scalar (p : PermissionPolicy) (tool_name : str) (args : json)
    : Res PermissionDecision :=
  tool ← canonical_tool_name tool_name;
  if eq_ignore_ascii_case tool $"bash" then
    match jget_str $"command" args with
    | Some command => check_bash p tool_name args command
    | None => check_rules p tool_name args
    end
  else check_rules p tool_name args.

(** [PermissionPolicy::check], open in its recursive call on batch members. *)
Definition check_step (p : PermissionPolicy) (rec : str -> json -> Res PermissionDecision)
    (tool_name : str) (args : json) : Res PermissionDecision :=
  batch ← check_batch tool_name args (rec tool_name);
  match batch with
  | Some decision => mret decision
  | None => check_scalar p tool_name args
  end.

(** A member carries no [files], so one level of recursion is enough. *)
Definition check (p : PermissionPolicy) : str -> json -> Res PermissionDecision :=
  check_step p (check_step p (fun _ _ => OutOfFuel)).

Definition decision_is (d : PermissionDecision) (r : Res PermissionDecision) : Res bool :=
  (fun x => bool_decide (x = d)) <$> r.
Definition is_allowed (p : PermissionPolicy) (tool : str) (args : json) : Res bool :=
  decision_is Allow (check p tool args).
Definition is_denied (p : PermissionPolicy) (tool : str) (args : json) : Res bool :=
  decision_is Deny (check p tool args).
Definition requires_confirmation (p : PermissionPolicy) (tool : str) (args : json) : Res bool :=
  decision_is Ask (check p tool args).

(** ** Visibility *)
Definition declares_tool_access (p : PermissionPolicy) (tool_name : str) : Res bool :=
  any_res (fun r => matches_tool r tool_name) (allow p ++ ask p).

Definition expose_to_model (p : PermissionPolicy) (tool_name : str) : Res bool :=
  hidden ← any_res (fun r => and_then (matches_tool r tool_name) (mret (matches_all_args r))) (deny p);
  if (hidden : bool) then mret false
  else if bool_decide (enforcement p = Unrestricted) || bool_decide (default_decision p <> Deny)
  then mret true
  else declares_tool_access p tool_name.

#[global] Instance policy_checker : PermissionChecker PermissionPolicy := {
  checker_check := check;
  checker_expose := expose_to_model;
}.

(** ** Diagnostics *)
Record MatchingRules : Type := mkMatching {
  m_deny : list str; m_allow : list str; m_ask : list str;
}.
Definition matching_is_empty (m : MatchingRules) : bool :=
  match m_deny m, m_allow m, m_ask m with [], [], [] => true | _, _, _ => false end.
Fixpoint collect_matching (tool_name : str) (args : json) (rules : list PermissionRule)
    : Res (list str) :=
  match rules with
  | [] => mret []
  | r :: rest =>
      m ← matches r tool_name args;
      found ← collect_matching tool_name args rest;
      mret (if (m : bool) then rule r :: found else found)
  end.
Definition get_matching_rules (p : PermissionPolicy) (tool_name : str) (args : json)
    : Res MatchingRules :=
  d ← collect_matching tool_name args (deny p);
  a ← collect_matching tool_name args (allow p);
  k ← collect_matching tool_name args (ask p);
  mret (mkMatching d a k).

(** ** The per-session manager *)
Record PermissionManager : Type := mkManager {
  global_policy : PermissionPolicy;
  session_policies : gmap (list Z) PermissionPolicy;
}.
Definition new_manager : PermissionManager := mkManager new_policy ∅.
Definition with_global_policy (p : PermissionPolicy) : PermissionManager := mkManager p ∅.
Definition set_global_policy (p : PermissionPolicy) (m : PermissionManager) : PermissionManager :=
  mkManager p (session_policies m).
Definition set_session_policy (session : str) (p : PermissionPolicy) (m : PermissionManager)
    : PermissionManager := mkManager (global_policy m) (<[session := p]> (session_policies m)).
Definition remove_session_policy (session : str) (m : PermissionManager) : PermissionManager :=
  mkManager (global_policy m) (delete session (session_policies m)).
Definition get_effective_policy (m : PermissionManager) (session : str) : PermissionPolicy :=
  match session_policies m !! session with Some p => p | None => global_policy m end.

Definition manager_scalar (m : PermissionManager) (session tool_name : str) (args : json)
    : Res PermissionDecision :=
  let policy := get_effective_policy m session in
  denied ← any_res (fun r => matches r tool_name args) (deny policy);
  if (denied : bool) then mret Deny
  else
    globally ← (match session_policies m !! session with
                | None => mret false
                | Some _ => any_res (fun r => matches r tool_name args) (deny (global_policy m))
                end);
    if (globally : bool) then mret Deny
    else
      allowed ← any_res (fun r => matches r tool_name args) (allow policy);
      if (allowed : bool) then mret Allow
      else
        asked ← any_res (fun r => matches r tool_name args) (ask policy);
        if (asked : bool) then mret Ask else mret (default_decision policy).

Definition manager_step (m : PermissionManager) (session : str)
    (rec : str -> json -> Res PermissionDecision) (tool_name : str) (args : json)
    : Res PermissionDecision :=
  batch ← check_batch tool_name args (rec tool_name);
  match batch with
  | Some decision => mret decision
  | None => manager_scalar m session tool_name args
  end.
Definition manager_check (m : PermissionManager) (session : str)
    : str -> json -> Res PermissionDecision :=
  manager_step m session (manager_step m session (fun _ _ => OutOfFuel)).
End Policy.
