(* ===== verification/PermissionPolicyFacts.v ===== *)
(** Correctness of permission policies: deny precedence, the catastrophic floor,
    the meaning of each enforcement, the scope of shell grants, batch reads,
    visibility and the built-in postures; and where the session manager falls
    short of the policy it wraps. *)
From stdpp Require Import gmap.
From S2P Require Import Prelude ShellLexer Shell ShellFacts PermissionRule PermissionRuleFacts PermissionPolicy.

(** ** Fallible loops *)
Lemma bind_Ok {A B} (m : Res A) (f : A -> Res B) b :
  (m ≫= f) = Ok b -> exists a, m = Ok a /\ f a = Ok b.
Proof. destruct m; cbn; intros H; [by eexists|done|done]. Qed.

Lemma any_res_true {A} (f : A -> Res bool) l a b :
  any_res f l = Ok b -> In a l -> f a = Ok true -> b = true.
Proof.
  induction l as [|x l IH]; intros H Hin Ha; [done|]. cbn in H.
  apply bind_Ok in H as (y & Hy & H). destruct Hin as [->|Hin].
  - rewrite Ha in Hy. injection Hy as <-. by injection H as <-.
  - destruct y; [by injection H as <-|by apply IH].
Qed.
Lemma any_res_inv {A} (f : A -> Res bool) l :
  any_res f l = Ok true -> exists a, In a l /\ f a = Ok true.
Proof.
  induction l as [|x l IH]; intros H; [done|]. cbn in H. apply bind_Ok in H as ([] & Hx & H).
  - exists x. by split; [left|].
  - destruct (IH H) as (a & Hin & Ha). exists a. by split; [right|].
Qed.
Lemma any_res_false {A} (f : A -> Res bool) l a : any_res f l = Ok false -> In a l -> f a = Ok false.
Proof.
  induction l as [|x l IH]; intros H Hin; [done|]. cbn in H. apply bind_Ok in H as ([] & Hx & H); [done|].
  destruct Hin as [->|Hin]; [done|by apply IH].
Qed.
Lemma any_res_all_false {A} (f : A -> Res bool) l :
  (forall a, In a l -> f a = Ok false) -> any_res f l = Ok false.
Proof.
  induction l as [|x l IH]; intros H; [done|]. cbn. rewrite (H x) by by left.
  apply IH. intros a Ha. apply H. by right.
Qed.
Lemma all_res_inv {A} (f : A -> Res bool) l :
  all_res f l = Ok true -> Forall (fun a => f a = Ok true) l.
Proof.
  induction l as [|x l IH]; intros H; [constructor|]. cbn in H.
  apply bind_Ok in H as ([] & Hx & H); [|done]. constructor; [done|by apply IH].
Qed.
Lemma or_else_Ok a b r : or_else a b = Ok r -> a = Ok true \/ a = Ok false /\ b = Ok r.
Proof. unfold or_else. intros ([] & Ha & H)%bind_Ok; auto. Qed.
Lemma or_else_l a b r : a = Ok true -> or_else a b = Ok r -> r = true.
Proof. intros -> H. by injection H as <-. Qed.

Ltac bind H x E := apply bind_Ok in H as (x & E & H).

Section Policy.
Context (regex : str -> str -> option bool) (to_json : json -> str).
Local Abbreviation check := (check regex to_json).
Local Abbreviation check_scalar := (check_scalar regex to_json).
Local Abbreviation check_rules := (check_rules regex to_json).
Local Abbreviation check_bash := (check_bash regex to_json).
Local Abbreviation check_step := (check_step regex to_json).
Local Abbreviation matches := (matches regex to_json).

(** ** Batches *)
Lemma member_not_batch tool path r : paths tool (member_args path) = Ok r -> r = inr None.
Proof.
  unfold paths. intros H. bind H t Et.
  destruct (negb _); [by injection H as <-|]. change (jget $"files" (member_args path)) with (@None json) in H.
  by injection H as <-.
Qed.

Lemma check_batch_member tool path f r :
  check_batch tool (member_args path) f = Ok r -> r = None.
Proof.
  unfold check_batch. intros H. bind H x Ex. apply member_not_batch in Ex as ->. by injection H as <-.
Qed.

(** On one member, the depth of recursion does not matter. *)
Lemma step_member p rec rec' tool path :
  check_step p rec tool (member_args path) = check_step p rec' tool (member_args path).
Proof.
  unfold PermissionPolicy.check_step, check_batch.
  destruct (paths tool (member_args path)) as [r| |] eqn:E; [|done|done].
  by apply member_not_batch in E as ->.
Qed.

Lemma check_members_ext f g l d :
  (forall path, f (member_args path) = g (member_args path)) -> check_members f l d = check_members g l d.
Proof.
  intros H. revert d. induction l as [|x l IH]; intros d; [done|]. cbn. rewrite H.
  destruct (g (member_args x)) as [[]| |]; cbn; auto.
Qed.

Lemma check_fixpoint p tool args : check p tool args = check_step p (check p) tool args.
Proof.
  unfold PermissionPolicy.check at 1, PermissionPolicy.check_step, check_batch.
  destruct (paths tool args) as [[d|[ps|]]| |]; cbn; try done.
  rewrite (check_members_ext _ (check p tool)); [done|].
  intros path. exact (step_member p (fun _ _ => OutOfFuel) (check_step p (fun _ _ => OutOfFuel)) tool path).
Qed.

Lemma check_scalar_eq p tool args : paths tool args = Ok (inr None) ->
  check p tool args = check_scalar p tool args.
Proof. intros H. rewrite check_fixpoint. unfold PermissionPolicy.check_step, check_batch. by rewrite H. Qed.

Lemma check_member_eq p tool path d :
  check p tool (member_args path) = Ok d -> check_scalar p tool (member_args path) = Ok d.
Proof.
  intros H. rewrite <-H. symmetry. apply check_scalar_eq. rewrite check_fixpoint in H.
  unfold PermissionPolicy.check_step in H. bind H b Eb. unfold check_batch in Eb. bind Eb r Er.
  pose proof (member_not_batch _ _ _ Er). by subst.
Qed.

Lemma check_members_deny f l d0 d path :
  check_members f l d0 = Ok d -> In path l -> f (member_args path) = Ok Deny -> d = Deny.
Proof.
  revert d0. induction l as [|x l IH]; intros d0 H Hin Hd; [done|]. cbn in H. bind H y Ey.
  destruct Hin as [->|Hin].
  - rewrite Hd in Ey. injection Ey as <-. by injection H as <-.
  - destruct y; [by eapply IH|by injection H as <-|by eapply IH].
Qed.
Lemma check_members_result f l d0 d :
  check_members f l d0 = Ok d -> d = Deny \/ Forall (fun path => exists e, f (member_args path) = Ok e /\ e <> Deny) l.
Proof.
  revert d0. induction l as [|x l IH]; intros d0 H; [right; constructor|]. cbn in H. bind H y Ey.
  destruct y.
  1,3: destruct (IH _ H) as [->|Hl]; [by left|right; constructor; [by eexists|done]].
  left. by injection H as <-.
Qed.
Lemma check_members_allow f l d0 :
  check_members f l d0 = Ok Allow <-> d0 = Allow /\ Forall (fun path => f (member_args path) = Ok Allow) l.
Proof.
  revert d0. induction l as [|x l IH]; intros d0; cbn.
  { split; [intros [= ->]; by repeat constructor|by intros [-> _]]. }
  split.
  - intros H. bind H y Ey. destruct y; [|done|].
    + apply IH in H as [-> H]. by repeat constructor.
    + by apply IH in H as [H _].
  - intros [-> H]. inversion H as [|? ? Hx Hl]; subst. rewrite Hx. cbn. by apply IH.
Qed.

(** ** Deny rules *)
Lemma check_rules_deny p tool args r d :
  check_rules p tool args = Ok d -> In r (deny p) -> matches r tool args = Ok true -> d = Deny.
Proof.
  unfold PermissionPolicy.check_rules. intros H Hin Hm. bind H b Eb.
  by rewrite (any_res_true _ _ _ _ Eb Hin Hm) in H; injection H as <-.
Qed.
Lemma check_bash_deny p tool args c r d :
  check_bash p tool args c = Ok d -> In r (deny p) -> matches r tool args = Ok true -> d = Deny.
Proof.
  unfold PermissionPolicy.check_bash. intros H Hin Hm. bind H a Ea. bind H b Eb.
  assert (b = true) as ->; [|by injection H as <-].
  apply (any_res_true _ _ _ _ Eb Hin). unfold any_command_matches, or_else. by rewrite Hm.
Qed.
Lemma check_scalar_deny p tool args r d :
  check_scalar p tool args = Ok d -> In r (deny p) -> matches r tool args = Ok true -> d = Deny.
Proof.
  unfold PermissionPolicy.check_scalar. intros H Hin Hm. bind H t Et.
  destruct (eq_ignore_ascii_case _ _); [destruct (jget_str _ _)|].
  all: first [by eapply check_bash_deny; eauto | by eapply check_rules_deny; eauto].
Qed.

(** The scalar calls a call stands for: itself, or the members of a batch. *)
Definition covers (tool : str) (args one : json) : Prop :=
  (paths tool args = Ok (inr None) /\ one = args)
  \/ exists ps path, paths tool args = Ok (inr (Some ps)) /\ In path ps /\ one = member_args path.

Lemma check_covers_deny p tool args one d :
  check p tool args = Ok d -> covers tool args one ->
  (forall e, check_scalar p tool one = Ok e -> e = Deny) -> d = Deny.
Proof.
  intros H [[Hp ->]|(ps & path & Hp & Hin & ->)] Hone.
  - rewrite check_scalar_eq in H by done. by apply Hone.
  - rewrite check_fixpoint in H. unfold PermissionPolicy.check_step, check_batch in H.
    rewrite Hp in H. cbn in H. bind H b Eb. bind Eb x Ex. injection Eb as <-. injection H as <-.
    destruct (check_members_result _ _ _ _ Ex) as [->|Hall]; [done|].
    rewrite List.Forall_forall in Hall. destruct (Hall path Hin) as (e & He & Hne).
    destruct Hne. by apply Hone, check_member_eq.
Qed.

(** ** Why a call is denied *)
Definition shell_match (r : PermissionRule) (tool : str) (c : ShellCommand) : Prop :=
  matches_shell_command regex r tool (literal_text c) = Ok true
  \/ matches_shell_command regex r tool (effective_text c) = Ok true.

Definition rule_hits (r : PermissionRule) (tool : str) (one : json) : Prop :=
  matches r tool one = Ok true
  \/ exists command a c, jget_str $"command" one = Some command /\ analyze command = Ok a
       /\ In c (sa_commands a) /\ shell_match r tool c.

Definition catastrophic (one : json) : Prop :=
  exists command a, jget_str $"command" one = Some command /\ analyze command = Ok a
    /\ sa_risk a = Catastrophic.

Definition denial_reason (p : PermissionPolicy) (tool : str) (args : json) : Prop :=
  paths tool args = Ok (inl Deny)
  \/ exists one, covers tool args one
       /\ ((exists r, In r (deny p) /\ rule_hits r tool one) \/ catastrophic one).

Lemma any_command_hits tool args a r command :
  jget_str $"command" args = Some command -> analyze command = Ok a ->
  any_command_matches regex to_json tool args a r = Ok true -> rule_hits r tool args.
Proof.
  intros Hc Ha H. unfold any_command_matches in H. apply or_else_Ok in H as [H|[_ H]]; [by left|].
  apply any_res_inv in H as (c & Hin & H). right. exists command, a, c.
  do 3 (split; [done|]). apply or_else_Ok in H as [H|[_ H]]; [by left|by right].
Qed.

(** What [check] decides on one call when it is not denied for cause. *)
Definition residual (p : PermissionPolicy) (d : PermissionDecision) : Prop :=
  if bool_decide (enforcement p = Unrestricted) then d = Allow
  else d = Allow \/ d = Ask \/ d = default_decision p.

Lemma check_rules_cases p tool args d : check_rules p tool args = Ok d ->
  (d = Deny /\ exists r, In r (deny p) /\ matches r tool args = Ok true) \/ residual p d.
Proof.
  unfold PermissionPolicy.check_rules, residual. intros H. bind H b Eb.
  destruct b; [left; injection H as <-; split; [done|by apply any_res_inv]|right].
  destruct (bool_decide (enforcement p = Unrestricted)); [by injection H as <-|]. cbn zeta in H.
  bind H b1 E1. destruct b1; [injection H as <-; by left|].
  bind H b2 E2. destruct b2; injection H as <-; auto.
Qed.

Lemma check_bash_cases p tool args command d :
  jget_str $"command" args = Some command -> check_bash p tool args command = Ok d ->
  (d = Deny /\ ((exists r, In r (deny p) /\ rule_hits r tool args) \/ catastrophic args)) \/ residual p d.
Proof.
  unfold PermissionPolicy.check_bash, residual. intros Hc H. bind H a Ea. bind H b Eb.
  destruct b.
  { injection H as <-. left. split; [done|]. left. apply any_res_inv in Eb as (r & Hin & Hr).
    exists r. split; [done|]. by eapply any_command_hits. }
  destruct (bool_decide (sa_risk a = Catastrophic)) eqn:Er.
  { injection H as <-. left. split; [done|]. right. exists command, a. by apply bool_decide_eq_true in Er. }
  right. destruct (bool_decide (enforcement p = Unrestricted)); [by injection H as <-|]. cbn zeta in H.
  bind H b1 E1. destruct b1; [injection H as <-; by left|].
  bind H b2 E2. destruct b2; [injection H as <-; by left|].
  bind H b3 E3. destruct b3; injection H as <-; auto.
Qed.

Lemma check_scalar_cases p tool args d : check_scalar p tool args = Ok d ->
  (d = Deny /\ ((exists r, In r (deny p) /\ rule_hits r tool args) \/ catastrophic args)) \/ residual p d.
Proof.
  unfold PermissionPolicy.check_scalar. intros H. bind H t Et.
  assert (Hr : check_rules p tool args = Ok d ->
    (d = Deny /\ ((exists r, In r (deny p) /\ rule_hits r tool args) \/ catastrophic args)) \/ residual p d).
  { intros [[-> (r & Hin & Hm)]|Hres]%check_rules_cases; [|by right].
    left. split; [done|]. left. exists r. by split; [|left]. }
  destruct (eq_ignore_ascii_case _ _); [|by apply Hr].
  destruct (jget_str _ _) eqn:Ec; [by eapply check_bash_cases|by apply Hr].
Qed.

Lemma check_members_cases f l d0 d : check_members f l d0 = Ok d ->
  (d = Deny /\ exists path, In path l /\ f (member_args path) = Ok Deny)
  \/ (d = d0 /\ Forall (fun path => f (member_args path) = Ok Allow) l)
  \/ (d = Ask /\ exists path, In path l /\ f (member_args path) = Ok Ask).
Proof.
  revert d0. induction l as [|x l IH]; intros d0 H; cbn in H; [injection H as <-; auto|].
  bind H y Ey. destruct y.
  - destruct (IH _ H) as [(-> & q & Hq & Hd)|[(-> & Hl)|(-> & q & Hq & Hd)]].
    + left. split; [done|]. exists q. by split; [right|].
    + right. left. by repeat constructor.
    + right. right. split; [done|]. exists q. by split; [right|].
  - left. injection H as <-. split; [done|]. exists x. by split; [left|].
  - destruct (IH _ H) as [(-> & q & Hq & Hd)|[(-> & _)|(-> & _)]].
    + left. split; [done|]. exists q. by split; [right|].
    + right. right. split; [done|]. exists x. by split; [left|].
    + right. right. split; [done|]. exists x. by split; [left|].
Qed.

Lemma check_cases p tool args d : check p tool args = Ok d ->
  (d = Deny /\ denial_reason p tool args) \/ residual p d
  \/ (d = Allow /\ exists ps, paths tool args = Ok (inr (Some ps))).
Proof.
  intros H. rewrite check_fixpoint in H. unfold PermissionPolicy.check_step, check_batch in H.
  destruct (paths tool args) as [[e|[ps|]]| |] eqn:Ep; [| | |done|done]; cbn in H.
  - injection H as <-. assert (e = Deny) as ->.
    { unfold paths in Ep. bind Ep t Et. repeat (case_match; try (by injection Ep as <-); try done). }
    left. split; [done|]. by left.
  - bind H b Eb. bind Eb x Ex. injection Eb as <-. injection H as <-.
    assert (Hone : forall path e, In path ps -> check p tool (member_args path) = Ok e ->
      (e = Deny /\ denial_reason p tool args) \/ residual p e).
    { intros path e Hin He%check_member_eq. apply check_scalar_cases in He as [[-> Hr]|Hr]; [|by right].
      left. split; [done|]. right. exists (member_args path). split; [|done]. right. by exists ps, path. }
    destruct (check_members_cases _ _ _ _ Ex) as [(-> & q & Hq & Hd)|[(-> & _)|(-> & q & Hq & Hd)]].
    + destruct (Hone _ _ Hq Hd) as [?|?]; auto.
    + right. right. by split; [|exists ps].
    + destruct (Hone _ _ Hq Hd) as [[? _]|?]; [done|auto].
  - apply check_scalar_cases in H as [[-> Hr]|Hr]; [|by right; left].
    left. split; [done|]. right. exists args. split; [by left|done].
Qed.

(** ** Shell grants *)
Lemma bash_not_batch tool t args :
  canonical_tool_name tool = Ok t -> eq_ignore_ascii_case t $"bash" = true -> paths tool args = Ok (inr None).
Proof.
  intros Ht Hb. unfold paths. rewrite Ht. cbn. apply bool_decide_eq_true in Hb.
  unfold eq_ignore_ascii_case. by rewrite Hb.
Qed.
Lemma check_is_bash p tool t args command :
  canonical_tool_name tool = Ok t -> eq_ignore_ascii_case t $"bash" = true ->
  jget_str $"command" args = Some command -> check p tool args = check_bash p tool args command.
Proof.
  intros Ht Hb Hc. rewrite check_scalar_eq by by eapply bash_not_batch.
  unfold PermissionPolicy.check_scalar. rewrite Ht. cbn [mbind res_bind]. by rewrite Hb, Hc.
Qed.

(** An allow rule that covers every shell command: a lane rule or one without
    an argument pattern. *)
Definition blanket_allow (p : PermissionPolicy) (tool : str) : Prop :=
  exists r, In r (allow p) /\
    (rule r = yolo_lane_rule (from_tool_name tool)
     \/ (matches_tool regex r tool = Ok true /\ matches_all_args r = true)).

Lemma check_bash_allow p tool args command :
  check_bash p tool args command = Ok Allow -> enforcement p = Enforced -> default_decision p <> Allow ->
  blanket_allow p tool \/ exists a, analyze command = Ok a /\ sa_opaque a = [] /\
    Forall (fun c => sc_writes_file c = false /\ exists r, In r (allow p) /\
              matches_shell_command regex r tool (literal_text c) = Ok true) (sa_commands a).
Proof.
  unfold PermissionPolicy.check_bash. intros H He Hd. bind H a Ea. bind H b Eb.
  destruct b; [done|]. destruct (bool_decide _); [done|].
  rewrite bool_decide_false in H by by rewrite He. cbn zeta in H.
  bind H b1 E1. destruct b1.
  { left. apply any_res_inv in E1 as (r & Hin & H1). exists r. split; [done|].
    apply or_else_Ok in H1 as [H1|[_ H1]].
    - left. injection H1 as H1. by apply bool_decide_eq_true in H1.
    - right. unfold and_then in H1. apply bind_Ok in H1 as ([] & Hm & H1); [|done].
      by injection H1 as H1. }
  bind H b2 E2. destruct b2.
  { right. exists a. split; [done|]. unfold every_command_allowed in E2.
    destruct (is_opaque a) eqn:Eo; [done|]. split; [unfold is_opaque in Eo; by destruct (sa_opaque a)|].
    apply all_res_inv in E2. eapply List.Forall_impl; [|exact E2]. intros c Hc. cbn in Hc.
    destruct (sc_writes_file c); [done|]. split; [done|]. by apply any_res_inv in Hc. }
  bind H b3 E3. destruct b3; [done|]. by injection H as H.
Qed.

(** ** Every grant has a rule *)
Lemma opaque_insert_not_nil c l : opaque_insert c l <> [].
Proof.
  destruct l as [|d l]; [done|]. cbn [opaque_insert].
  destruct (_ <? _)%nat; [done|]. by destruct (_ =? _)%nat.
Qed.
Lemma analyze_empty_opaque command a : analyze command = Ok a -> sa_commands a = [] -> sa_opaque a <> [].
Proof.
  intros H. apply analyze_with_summarize in H as (q & acc & -> & _). cbn. intros ->.
  apply opaque_insert_not_nil.
Qed.

Definition grant (p : PermissionPolicy) (tool : str) (r : PermissionRule) : Prop :=
  In r (allow p) /\ (rule r = yolo_lane_rule (from_tool_name tool) \/ matches_tool regex r tool = Ok true).

Lemma matches_matches_tool r tool args : matches r tool args = Ok true -> matches_tool regex r tool = Ok true.
Proof. unfold PermissionRule.matches. intros H. bind H b Eb. by destruct b. Qed.
Lemma shell_matches_tool r tool c :
  matches_shell_command regex r tool c = Ok true -> matches_tool regex r tool = Ok true.
Proof. unfold matches_shell_command. intros H. bind H b Eb. by destruct b. Qed.

Lemma check_scalar_grant p tool args :
  check_scalar p tool args = Ok Allow -> enforcement p = Enforced -> default_decision p <> Allow ->
  exists r, grant p tool r.
Proof.
  unfold PermissionPolicy.check_scalar. intros H He Hd. bind H t Et.
  assert (Hrules : check_rules p tool args = Ok Allow -> exists r, grant p tool r).
  { clear H. unfold PermissionPolicy.check_rules. intros H. bind H b Eb. destruct b; [done|].
    rewrite bool_decide_false in H by by rewrite He. cbn zeta in H. bind H b1 E1. destruct b1.
    - apply any_res_inv in E1 as (r & Hin & H1). exists r. split; [done|].
      apply or_else_Ok in H1 as [H1|[_ H1]]; [left|right; by eapply matches_matches_tool].
      injection H1 as H1. by apply bool_decide_eq_true in H1.
    - bind H b2 E2. destruct b2; [done|]. by injection H as H. }
  destruct (eq_ignore_ascii_case _ _); [|by apply Hrules]. destruct (jget_str _ _) as [c|]; [|by apply Hrules].
  destruct (check_bash_allow _ _ _ _ H He Hd) as [(r & Hin & Hr)|(a & Ha & Ho & Hall)].
  - exists r. split; [done|]. destruct Hr as [?|[? _]]; auto.
  - pose proof (analyze_empty_opaque _ _ Ha) as Hne. destruct Hall as [|x l [_ (r & Hin & Hr)] _]; [by destruct Hne|].
    exists r. split; [done|]. right. by eapply shell_matches_tool.
Qed.

Lemma paths_nonempty tool args ps : paths tool args = Ok (inr (Some ps)) -> ps <> [].
Proof.
  unfold paths. intros H. bind H t Et. destruct (negb _); [done|].
  destruct (jget $"files" args); [|done]. destruct (jget $"file_path" args); [done|].
  destruct (jas_array _) as [l|]; [|done]. destruct l as [|x l]; [done|].
  destruct (_ && _); [|done]. cbn [batch_paths] in H. destruct (jget_str _ _); [|done].
  destruct (_ && _); [|done]. destruct (batch_paths l); [|done]. cbn in H. by injection H as <-.
Qed.

(** Some scalar call covered by an allowed one is allowed. *)
Lemma allow_covered p tool args : check p tool args = Ok Allow ->
  exists one, covers tool args one /\ check_scalar p tool one = Ok Allow.
Proof.
  intros H. rewrite check_fixpoint in H. unfold PermissionPolicy.check_step, check_batch in H.
  destruct (paths tool args) as [[e|[ps|]]| |] eqn:Ep; [| | |done|done]; cbn in H.
  - injection H as ->. exfalso. unfold paths in Ep. bind Ep t Et.
    repeat (case_match; try done).
  - bind H b Eb. bind Eb x Ex. injection Eb as <-. injection H as ->.
    apply check_members_allow in Ex as [_ Hall]. pose proof (paths_nonempty _ _ _ Ep) as Hne.
    destruct ps as [|path ps]; [done|]. inversion Hall as [|? ? Hp _]; subst.
    exists (member_args path). split; [right; exists (path :: ps), path; split_and!; [done|by left|done]|].
    by apply check_member_eq.
  - exists args. split; [by left|done].
Qed.

Lemma allow_has_grant p tool args :
  check p tool args = Ok Allow -> enforcement p = Enforced -> default_decision p <> Allow ->
  exists r, grant p tool r.
Proof. intros H He Hd. apply allow_covered in H as (one & _ & H). by eapply check_scalar_grant. Qed.

Lemma check_rules_ask p tool args :
  check_rules p tool args = Ok Ask -> ask p <> [] \/ default_decision p = Ask.
Proof.
  unfold PermissionPolicy.check_rules. intros H. bind H b Eb. destruct b; [done|].
  destruct (bool_decide _); [done|]. cbn zeta in H. bind H b1 E1. destruct b1; [done|].
  bind H b2 E2. destruct b2; [left; by destruct (ask p)|right; by injection H as H].
Qed.
Lemma check_bash_ask p tool args command :
  check_bash p tool args command = Ok Ask -> ask p <> [] \/ default_decision p = Ask.
Proof.
  unfold PermissionPolicy.check_bash. intros H. bind H a Ea. bind H b Eb. destruct b; [done|].
  destruct (bool_decide _); [done|]. destruct (bool_decide _); [done|]. cbn zeta in H.
  bind H b1 E1. destruct b1; [done|]. bind H b2 E2. destruct b2; [done|].
  bind H b3 E3. destruct b3; [left; by destruct (ask p)|right; by injection H as H].
Qed.
Lemma check_scalar_ask p tool args :
  check_scalar p tool args = Ok Ask -> ask p <> [] \/ default_decision p = Ask.
Proof.
  unfold PermissionPolicy.check_scalar. intros H. bind H t Et.
  destruct (eq_ignore_ascii_case _ _); [destruct (jget_str _ _)|];
    eauto using check_rules_ask, check_bash_ask.
Qed.
(** Confirmation is only ever requested by an ask rule or the default. *)
Lemma ask_has_cause p tool args :
  check p tool args = Ok Ask -> ask p <> [] \/ default_decision p = Ask.
Proof.
  intros H. rewrite check_fixpoint in H. unfold PermissionPolicy.check_step, check_batch in H.
  destruct (paths tool args) as [[e|[ps|]]| |] eqn:Ep; [| | |done|done]; cbn in H.
  - injection H as ->. exfalso. unfold paths in Ep. bind Ep t Et. repeat (case_match; try done).
  - bind H b Eb. bind Eb x Ex. injection Eb as <-. injection H as ->.
    destruct (check_members_cases _ _ _ _ Ex) as [(? & _)|[(? & _)|(_ & q & _ & Hq)]]; [done|done|].
    by eapply check_scalar_ask, check_member_eq.
  - by eapply check_scalar_ask.
Qed.

(** A rule that is a plain tool name matches that name only, in any case. *)
Lemma plain_rule_matches (n : string) tool :
  canonical_tool_name (lit n) = Ok (lit n) -> rule_tool_name (new_rule (lit n)) = Some (lit n) ->
  contains_char (lit n) c_star || contains_char (lit n) c_quest = false ->
  starts_with (lit n) $"mcp__" = false ->
  matches_tool regex (new_rule (lit n)) tool = Ok true ->
  exists t, canonical_tool_name tool = Ok t /\ to_ascii_lowercase t = to_ascii_lowercase (lit n).
Proof.
  intros Hc Hn Hs Hm H. unfold PermissionRule.matches_tool, matches_tool_name in H. rewrite Hn, Hc in H.
  bind H x Ex. injection Ex as <-. bind H t Et. exists t. split; [done|].
  rewrite Hs, Hm in H. cbn in H. injection H as H. by apply bool_decide_eq_true in H.
Qed.
Lemma lane_rule_not_plain tool (n : string) :
  starts_with (lit n) $"lane:" = false -> lit n <> yolo_lane_rule (from_tool_name tool).
Proof. intros H E. rewrite E in H. by destruct (from_tool_name tool). Qed.

(** ** Visibility *)
Lemma covers_not_batch tool args one : covers tool args one ->
  paths tool one = Ok (inr None) \/ exists r, paths tool args = Ok r /\ paths tool one = Ok r.
Proof.
  intros [[H ->]|(ps & path & H & Hin & ->)]; [by left|]. left.
  destruct (paths tool (member_args path)) as [r| |] eqn:E.
  - by rewrite (member_not_batch _ _ _ E).
  - unfold paths in *. by destruct (canonical_tool_name tool); cbn in *; repeat case_match.
  - unfold paths in *. by destruct (canonical_tool_name tool); cbn in *; repeat case_match.
Qed.
Lemma blanket_matches r tool one : paths tool one = Ok (inr None) ->
  matches_tool regex r tool = Ok true -> matches_all_args r = true -> matches r tool one = Ok true.
Proof.
  intros Hp Hm Ha. unfold PermissionRule.matches. rewrite Hm. unfold mbind, res_bind, matches_all_args in *.
  cbn [negb]. destruct (arg_pattern r) as [pat|]; [|done]. unfold matches_args, mbind, res_bind.
  by rewrite Hp, Ha.
Qed.

Lemma hidden_not_allowed p tool args :
  expose_to_model regex p tool = Ok false ->
  Forall (fun r => rule r <> yolo_lane_rule (from_tool_name tool)) (allow p) ->
  check p tool args <> Ok Allow.
Proof.
  intros He Hl H. unfold expose_to_model in He. bind He b Eb. destruct b.
  - apply any_res_inv in Eb as (r & Hin & Hr). unfold and_then in Hr.
    apply bind_Ok in Hr as ([] & Hm & Ha); [|done]. injection Ha as Ha.
    apply allow_covered in H as (one & Hcov & H).
    assert (Hp : paths tool one = Ok (inr None)).
    { destruct Hcov as [[Hp ->]|(ps & path & Hp & Hin' & ->)]; [done|].
      destruct (covers_not_batch tool args (member_args path)) as [?|(x & Hx & Hy)]; [right; eauto|done|].
      rewrite Hy. by rewrite (member_not_batch _ _ _ Hy). }
    assert (Allow = Deny); [|done].
    eapply check_scalar_deny; [exact H|exact Hin|by apply blanket_matches].
  - destruct (bool_decide (enforcement p = Unrestricted)) eqn:Eu; [done|]. cbn in He.
    destruct (bool_decide (default_decision p <> Deny)) eqn:Ed; [done|].
    apply bool_decide_eq_false in Eu, Ed. destruct (decide (default_decision p = Deny)) as [Hd|]; [|done].
    destruct (allow_has_grant p tool args H) as (r & Hin & [Hr|Hr]).
    + by destruct (enforcement p).
    + by rewrite Hd.
    + rewrite List.Forall_forall in Hl. by apply (Hl r).
    + unfold declares_tool_access in He. apply (any_res_false _ _ r) in He; [congruence|].
      apply in_or_app. by left.
Qed.
End Policy.

(** ** The policy's contract *)

(** C1. A deny rule that matches a call, or any member of a batch read, decides
    it: no allow rule, lane, default or enforcement overrides it. *)
Theorem deny_wins (regex : str -> str -> option bool) (to_json : json -> str)
    (p : PermissionPolicy) (tool : str) (args one : json) (r : PermissionRule) (d : PermissionDecision) :
  check regex to_json p tool args = Ok d -> covers tool args one ->
  In r (deny p) -> matches regex to_json r tool one = Ok true -> d = Deny.
Proof.
  intros H Hc Hin Hm. eapply check_covers_deny; [exact H|exact Hc|].
  intros e He. by eapply check_scalar_deny.
Qed.

Definition read_batch_args (paths : list string) : json :=
  JObject [($"files", JArray (map (fun q => JObject [($"path", JString (lit q))]) paths))].
Definition command_args (command : string) : json := JObject [($"command", JString (lit command))].
Definition file_args (path : string) : json := JObject [($"file_path", JString (lit path))].

Lemma deny_wins_witness :
  let p := add_deny $"Read(.env:*)" (allow_all ["read"] new_policy) in
  check fragment_regex (fun _ => []) p $"read" (read_batch_args ["src/a.rs"; ".env"]) = Ok Deny.
Proof.
  cbn zeta. destruct (check _ _ _ _ _) as [d| |] eqn:E; [|exfalso; by vm_compute in E..].
  f_equal. eapply (deny_wins fragment_regex (fun _ => []) _ $"read" _ (file_args ".env")
                     (new_rule $"Read(.env:*)") d E).
  - right. exists [$"src/a.rs"; $".env"], $".env". split; [by vm_compute|]. split; [|done]. right. by left.
  - by left.
  - by vm_compute.
Defined.

(** C2. The catastrophic floor: a shell call whose command line is classified
    catastrophic is denied by every policy, blanket allows, YOLO lanes and
    unrestricted enforcement included. *)
Theorem catastrophic_floor (regex : str -> str -> option bool) (to_json : json -> str)
    (p : PermissionPolicy) (tool t command : str) (args : json) (a : ShellAnalysis)
    (d : PermissionDecision) :
  canonical_tool_name tool = Ok t -> eq_ignore_ascii_case t $"bash" = true ->
  jget_str $"command" args = Some command -> analyze command = Ok a ->
  sa_risk a = Catastrophic -> check regex to_json p tool args = Ok d -> d = Deny.
Proof.
  intros Ht Hb Hc Ha Hr H. rewrite (check_is_bash _ _ _ _ _ _ _ Ht Hb Hc) in H.
  unfold check_bash in H. rewrite Ha in H. bind H x Ex. injection Ex as <-. bind H b Eb.
  rewrite (bool_decide_true _ Hr) in H. by destruct b; injection H as <-.
Qed.

Lemma catastrophic_floor_witness :
  let p := mkPolicy [] [new_rule $"bash"] [] Allow Unrestricted in
  check fragment_regex (fun _ => []) p $"Bash" (command_args "true; sudo rm -rf /") = Ok Deny.
Proof.
  cbn zeta. destruct (check _ _ _ _ _) as [d| |] eqn:E; [|exfalso; by vm_compute in E..].
  f_equal. destruct (analyze $"true; sudo rm -rf /") as [a| |] eqn:Ea; [|exfalso; by vm_compute in Ea..].
  refine (catastrophic_floor _ _ _ _ _ _ _ a d _ _ _ Ea _ E);
    [reflexivity|reflexivity|reflexivity|]. vm_compute in Ea. by injection Ea as <-.
Defined.

(** Unrestricted enforcement never asks, and denies only for cause: a
    malformed batch, a deny rule that hits the call, one of its members or one
    of the simple commands of its shell line, or a catastrophic command. *)
Theorem unrestricted_denies_for_cause (regex : str -> str -> option bool) (to_json : json -> str)
    (p : PermissionPolicy) (tool : str) (args : json) (d : PermissionDecision) :
  enforcement p = Unrestricted -> check regex to_json p tool args = Ok d ->
  d = Allow \/ (d = Deny /\ denial_reason regex to_json p tool args).
Proof.
  intros He H. apply check_cases in H as [H|[H|[-> _]]]; [by right| |by left].
  unfold residual in H. rewrite bool_decide_true in H by done. by left.
Qed.

Lemma unrestricted_denies_for_cause_witness :
  let p := mkPolicy [] [] [new_rule $"bash"] Ask Unrestricted in
  exists d, check fragment_regex (fun _ => []) p $"bash" (command_args "ls") = Ok d /\
    (d = Allow \/ (d = Deny /\ denial_reason fragment_regex (fun _ => []) p $"bash" (command_args "ls"))).
Proof.
  cbn zeta. exists Allow. split; [by vm_compute|].
  apply unrestricted_denies_for_cause; [reflexivity|by vm_compute].
Defined.

(** An argument-scoped shell grant covers only what was parsed: when no
    blanket rule allows the tool and the default does not, an allowed shell line
    has at least one command, no opaque construct, no file redirect, and every
    simple command of it, at every depth, matches an allow rule as written. *)
Theorem shell_grant_scope (regex : str -> str -> option bool) (to_json : json -> str)
    (p : PermissionPolicy) (tool t command : str) (args : json) :
  canonical_tool_name tool = Ok t -> eq_ignore_ascii_case t $"bash" = true ->
  jget_str $"command" args = Some command ->
  enforcement p = Enforced -> default_decision p <> Allow -> ~ blanket_allow regex p tool ->
  check regex to_json p tool args = Ok Allow ->
  exists a, analyze command = Ok a /\ sa_commands a <> [] /\ sa_opaque a = [] /\
    Forall (fun c => sc_writes_file c = false /\ exists r, In r (allow p) /\
              matches_shell_command regex r tool (literal_text c) = Ok true) (sa_commands a).
Proof.
  intros Ht Hb Hc He Hd Hn H. rewrite (check_is_bash _ _ _ _ _ _ _ Ht Hb Hc) in H.
  destruct (check_bash_allow _ _ _ _ _ _ H He Hd) as [?|(a & Ha & Ho & Hall)]; [done|].
  exists a. split_and!; [done| |done|done]. intros E. by apply (analyze_empty_opaque _ _ Ha).
Qed.

Lemma shell_grant_scope_witness :
  exists a, analyze $"git status && git log" = Ok a /\ sa_commands a <> [] /\ sa_opaque a = [] /\
    Forall (fun c => sc_writes_file c = false /\ exists r, In r (allow (add_allow $"Bash(git:*)" new_policy)) /\
              matches_shell_command fragment_regex r $"bash" (literal_text c) = Ok true) (sa_commands a).
Proof.
  refine (shell_grant_scope fragment_regex (fun _ => []) (add_allow $"Bash(git:*)" new_policy) $"bash" $"bash"
           _ (command_args "git status && git log") _ _ _ _ _ _ _);
    [reflexivity|reflexivity|reflexivity|reflexivity|done| |by vm_compute].
  intros (r & [<-|[]] & [H|[_ H]]); by vm_compute in H.
Defined.

(** A batch read is exactly as permitted as its members: [check] on the batch
    is allowed when and only when every path is, denied when some path is, and
    otherwise asks; and [check] satisfies its own recursive equation, so one
    level of unfolding loses nothing. *)
Theorem batch_read_members (regex : str -> str -> option bool) (to_json : json -> str)
    (p : PermissionPolicy) (tool : str) (args : json) (ps : list str) :
  paths tool args = Ok (inr (Some ps)) ->
  (check regex to_json p tool args = Ok Allow
     <-> Forall (fun path => check regex to_json p tool (member_args path) = Ok Allow) ps)
  /\ (forall d path, check regex to_json p tool args = Ok d -> In path ps ->
        check regex to_json p tool (member_args path) = Ok Deny -> d = Deny)
  /\ (forall a, check regex to_json p tool a
                = check_step regex to_json p (check regex to_json p) tool a).
Proof.
  intros Hp. split; [|split; [|intros a; apply check_fixpoint]].
  - rewrite check_fixpoint. unfold check_step, check_batch. rewrite Hp. cbn.
    split.
    + intros H. bind H b Eb. bind Eb x Ex. injection Eb as <-. injection H as ->.
      by apply check_members_allow in Ex as [_ Ex].
    + intros H. assert (Hx : check_members (check regex to_json p tool) ps Allow = Ok Allow)
        by by apply check_members_allow.
      by rewrite Hx.
  - intros d path H Hin Hd. rewrite check_fixpoint in H. unfold check_step, check_batch in H.
    rewrite Hp in H. cbn in H. bind H b Eb. bind Eb x Ex. injection Eb as <-. injection H as <-.
    by eapply check_members_deny.
Qed.

Lemma batch_read_members_witness :
  let p := add_allow $"Read(src/**)" new_policy in
  check fragment_regex (fun _ => []) p $"read" (read_batch_args ["src/a.rs"; "src/b/c.rs"]) = Ok Allow.
Proof.
  cbn zeta. apply (batch_read_members _ _ _ _ _ [$"src/a.rs"; $"src/b/c.rs"]); [by vm_compute|].
  repeat constructor; by vm_compute.
Defined.

(** A tool hidden from the model is never allowed to run: when
    [expose_to_model] answers no, no arguments make [check] answer [Allow],
    unless the policy grants the tool's whole lane. *)
Theorem hidden_never_allowed (regex : str -> str -> option bool) (to_json : json -> str)
    (p : PermissionPolicy) (tool : str) (args : json) :
  expose_to_model regex p tool = Ok false ->
  Forall (fun r => rule r <> yolo_lane_rule (from_tool_name tool)) (allow p) ->
  check regex to_json p tool args <> Ok Allow.
Proof. apply hidden_not_allowed. Qed.

Lemma hidden_never_allowed_witness :
  check fragment_regex (fun _ => []) plan_permissions $"web_fetch" JNull <> Ok Allow.
Proof.
  apply hidden_never_allowed; [by vm_compute|]. repeat constructor; by vm_compute.
Defined.

(** The exception is real: under a deny-by-default policy with a YOLO lane,
    a tool of that lane is hidden from the model although [check] allows it,
    because visibility ignores lane rules. *)
Theorem lane_grant_is_hidden :
  let p := with_default Deny (allow_yolo_lanes [Execute] new_policy) in
  expose_to_model fragment_regex p $"write" = Ok false
  /\ check fragment_regex (fun _ => []) p $"write" (file_args "a.txt") = Ok Allow.
Proof. by vm_compute. Qed.

(** The plan posture is read-only: whatever the arguments, the only tools it
    ever allows are [read], [search], [ls] and [update_plan], and it never asks. *)
Theorem plan_posture_read_only (regex : str -> str -> option bool) (to_json : json -> str)
    (tool : str) (args : json) (d : PermissionDecision) :
  check regex to_json (policy_for_posture $" Plan ") tool args = Ok d ->
  d <> Ask /\ (d = Allow -> exists t, canonical_tool_name tool = Ok t /\
     one_of (to_ascii_lowercase t) ["read"; "search"; "ls"; "update_plan"] = true).
Proof.
  change (policy_for_posture $" Plan ") with plan_permissions. intros H. split; intros ->.
  { by destruct (ask_has_cause _ _ _ _ _ H). }
  destruct (allow_has_grant _ _ _ _ _ H) as (r & Hin & Hr); [done|done|].
  change (allow plan_permissions)
    with (map (fun n => new_rule (lit n)) ["read"; "search"; "ls"; "update_plan"]) in Hin.
  apply in_map_iff in Hin as (n & <- & Hn). destruct Hr as [Hr|Hr].
  - exfalso. apply (lane_rule_not_plain tool n); [by repeat destruct Hn as [<-|Hn]|].
    rewrite <-Hr. by repeat destruct Hn as [<-|Hn].
  - destruct (plain_rule_matches regex n tool) as (t & Ht & Hl);
      [by repeat destruct Hn as [<-|Hn]..|done|].
    exists t. split; [done|]. rewrite Hl. by repeat destruct Hn as [<-|Hn].
Qed.

Lemma plan_posture_read_only_witness :
  Allow <> Ask /\ (Allow = Allow -> exists t, canonical_tool_name $"functions.Read" = Ok t /\
     one_of (to_ascii_lowercase t) ["read"; "search"; "ls"; "update_plan"] = true).
Proof.
  apply (plan_posture_read_only fragment_regex (fun _ => []) $"functions.Read" (file_args "a/b")).
  by vm_compute.
Defined.

(** The explore style is documented as read-only, yet its grant for
    every [find] command line allows [find . -delete], a command the classifier itself does not
    regard as read-only. *)
Theorem explore_allows_find_delete :
  exists p, specialty_permission_policy Explore = Some p
    /\ check fragment_regex (fun _ => []) p $"bash" (command_args "find . -delete") = Ok Allow
    /\ read_only_program $"find" [$"."; $"-delete"] = false.
Proof. exists explore_permissions. by vm_compute. Qed.

(** ** The session manager *)
Lemma manager_scalar_global_deny regex to_json m session tool args r d :
  manager_scalar regex to_json m session tool args = Ok d ->
  In r (deny (global_policy m)) -> matches regex to_json r tool args = Ok true -> d = Deny.
Proof.
  unfold manager_scalar, get_effective_policy. cbn zeta. intros H Hin Hm. bind H b Eb.
  destruct b; [by injection H as <-|]. bind H b1 E1.
  destruct (session_policies m !! session) as [q|].
  - by rewrite (any_res_true _ _ _ _ E1 Hin Hm) in H; injection H as <-.
  - by pose proof (any_res_true _ _ _ _ Eb Hin Hm).
Qed.

(** The session manager keeps global deny rules under every session
    override, for single calls and batch members alike; installing, replacing
    or removing session policies never lifts one. *)
Theorem manager_global_deny (regex : str -> str -> option bool) (to_json : json -> str)
    (m : PermissionManager) (session tool : str) (args one : json) (r : PermissionRule)
    (d : PermissionDecision) :
  manager_check regex to_json m session tool args = Ok d -> covers tool args one ->
  In r (deny (global_policy m)) -> matches regex to_json r tool one = Ok true -> d = Deny.
Proof.
  intros H Hc Hin Hm. unfold manager_check, manager_step at 1, check_batch in H.
  destruct Hc as [[Hp ->]|(ps & path & Hp & Hpath & ->)]; rewrite Hp in H; cbn in H.
  { by eapply manager_scalar_global_deny. }
  bind H b Eb. bind Eb x Ex. injection Eb as <-. injection H as <-.
  destruct (check_members_result _ _ _ _ Ex) as [->|Hall]; [done|].
  rewrite List.Forall_forall in Hall. destruct (Hall path Hpath) as (e & He & Hne). destruct Hne.
  unfold manager_step in He. bind He b Eb. apply check_batch_member in Eb as ->.
  by eapply manager_scalar_global_deny.
Qed.

Lemma manager_global_deny_witness :
  let m := set_session_policy $"s" (allow_all ["bash"] new_policy)
             (with_global_policy (add_deny $"Bash(rm:*)" new_policy)) in
  manager_check fragment_regex (fun _ => []) m $"s" $"bash" (command_args "rm x") = Ok Deny.
Proof.
  cbn zeta. destruct (manager_check _ _ _ _ _ _) as [d| |] eqn:E; [|exfalso; by vm_compute in E..].
  f_equal. eapply (manager_global_deny fragment_regex (fun _ => []) _ $"s" $"bash" _ (command_args "rm x")
                     (new_rule $"Bash(rm:*)") d E).
  - left. by vm_compute.
  - by left.
  - by vm_compute.
Defined.

(** The manager does not enforce the catastrophic floor: with the same
    policy, [PermissionPolicy::check] denies [rm -rf /] and
    [PermissionManager::check] allows it. *)
Theorem manager_misses_catastrophic_floor :
  let p := allow_all ["bash"] new_policy in
  check fragment_regex (fun _ => []) p $"bash" (command_args "rm -rf /") = Ok Deny
  /\ manager_check fragment_regex (fun _ => []) (with_global_policy p) $"s" $"bash"
       (command_args "rm -rf /") = Ok Allow.
Proof. by vm_compute. Qed.

(** A wire policy becomes unrestricted only when it says so: the retired
    [enabled = false] switch alone is refused, and enforcement names
    round-trip through [as_str] and [parse] up to case and blanks. *)
Theorem enforcement_contract :
  (forall w p, policy_try_from w = Some p -> enforcement p = Unrestricted ->
     wire_enforcement w = Some Unrestricted)
  /\ (forall w, wire_enabled w = Some false -> wire_enforcement w <> Some Unrestricted ->
     policy_try_from w = None)
  /\ (forall e, enforcement_parse ($"  " ++ enforcement_as_str e ++ [c_nl]) = Some e).
Proof.
  split_and!.
  - intros w p H He. unfold policy_try_from in H.
    destruct (wire_enforcement w) as [[]|], (wire_enabled w) as [[]|]; cbn in H; by simplify_eq.
  - intros w Hw He. unfold policy_try_from. rewrite Hw.
    by destruct (wire_enforcement w) as [[]|].
  - by intros [].
Qed.
