(* ===== verification/Planning.v ===== *)
(** Execution plans: [planning/mod.rs], with the theorems about replayed status
    notifications, readiness and plan identity. *)
From S2P Require Import Prelude Text.

Inductive TaskStatus : Type := Pending | InProgress | Completed | Failed | Skipped | Cancelled.
#[global] Instance TaskStatus_eq_dec : EqDecision TaskStatus.
Proof. solve_decision. Defined.

Definition status_display (s : TaskStatus) : str :=
  match s with
  | Pending => $"pending" | InProgress => $"in_progress" | Completed => $"completed"
  | Failed => $"failed" | Skipped => $"skipped" | Cancelled => $"cancelled"
  end.
Definition status_from_str (s : str) : option TaskStatus :=
  let v := to_lowercase s in
  if str_eqb v $"pending" then Some Pending
  else if one_of v ["in_progress"; "inprogress"] then Some InProgress
  else if one_of v ["completed"; "done"] then Some Completed
  else if str_eqb v $"failed" then Some Failed
  else if str_eqb v $"skipped" then Some Skipped
  else if one_of v ["cancelled"; "canceled"] then Some Cancelled
  else None.
Definition status_is_active (s : TaskStatus) : bool :=
  match s with Pending | InProgress => true | _ => false end.

Inductive TaskPriority : Type := High | Medium | Low.
#[global] Instance TaskPriority_eq_dec : EqDecision TaskPriority.
Proof. solve_decision. Defined.
Definition priority_display (p : TaskPriority) : str :=
  match p with High => $"high" | Medium => $"medium" | Low => $"low" end.
Definition priority_from_str (s : str) : option TaskPriority :=
  let v := to_lowercase s in
  if one_of v ["high"; "h"; "1"] then Some High
  else if one_of v ["medium"; "med"; "m"; "2"] then Some Medium
  else if one_of v ["low"; "l"; "3"] then Some Low
  else None.

Record Task : Type := mkTask {
  t_id : str;
  t_content : str;
  t_status : TaskStatus;
  t_priority : TaskPriority;
  t_tool : option str;
  t_dependencies : list str;
  t_success_criteria : option str;
}.
#[global] Instance Task_eq_dec : EqDecision Task.
Proof. solve_decision. Defined.
Definition new_task (id content : str) : Task := mkTask id content Pending Medium None [] None.
Definition with_priority (p : TaskPriority) (t : Task) : Task :=
  mkTask (t_id t) (t_content t) (t_status t) p (t_tool t) (t_dependencies t) (t_success_criteria t).
Definition with_status (s : TaskStatus) (t : Task) : Task :=
  mkTask (t_id t) (t_content t) s (t_priority t) (t_tool t) (t_dependencies t) (t_success_criteria t).
Definition with_tool (tool : str) (t : Task) : Task :=
  mkTask (t_id t) (t_content t) (t_status t) (t_priority t) (Some tool) (t_dependencies t)
         (t_success_criteria t).
Definition with_dependencies (deps : list str) (t : Task) : Task :=
  mkTask (t_id t) (t_content t) (t_status t) (t_priority t) (t_tool t) deps (t_success_criteria t).
Definition with_success_criteria (c : str) (t : Task) : Task :=
  mkTask (t_id t) (t_content t) (t_status t) (t_priority t) (t_tool t) (t_dependencies t) (Some c).

Inductive Complexity : Type := Simple | MediumComplexity | Complex | VeryComplex.
#[global] Instance Complexity_eq_dec : EqDecision Complexity.
Proof. solve_decision. Defined.

Record ExecutionPlan : Type := mkPlan {
  p_goal : str;
  p_execution_context : option str;
  p_steps : list Task;
  p_complexity : Complexity;
  p_required_tools : list str;
  p_estimated_steps : nat;
}.
#[global] Instance ExecutionPlan_eq_dec : EqDecision ExecutionPlan.
Proof. solve_decision. Defined.

Definition new_plan (goal : str) (c : Complexity) : ExecutionPlan := mkPlan goal None [] c [] 0.
Definition set_steps (steps : list Task) (p : ExecutionPlan) : ExecutionPlan :=
  mkPlan (p_goal p) (p_execution_context p) steps (p_complexity p) (p_required_tools p)
         (p_estimated_steps p).
Definition set_estimated (n : nat) (p : ExecutionPlan) : ExecutionPlan :=
  mkPlan (p_goal p) (p_execution_context p) (p_steps p) (p_complexity p) (p_required_tools p) n.

Definition wire_goal (p : ExecutionPlan) : str :=
  match p_execution_context p with
  | Some text => if bool_decide (trim text = []) then p_goal p else trim text
  | None => p_goal p
  end.

Definition add_step (step : Task) (p : ExecutionPlan) : ExecutionPlan :=
  let steps := p_steps p ++ [step] in set_estimated (length steps) (set_steps steps p).

Definition add_required_tool (tool : str) (p : ExecutionPlan) : ExecutionPlan :=
  if existsb (str_eqb tool) (p_required_tools p) then p
  else mkPlan (p_goal p) (p_execution_context p) (p_steps p) (p_complexity p)
              (p_required_tools p ++ [tool]) (p_estimated_steps p).

Definition merge_status (current incoming : TaskStatus) : TaskStatus :=
  if negb (status_is_active current) then current
  else if bool_decide (current = InProgress) && bool_decide (incoming = Pending) then current
  else incoming.

(** [iter_mut().find(|s| s.id == id)] followed by an update: the first match. *)
Fixpoint update_first (id : str) (f : Task -> Task) (steps : list Task) : list Task :=
  match steps with
  | [] => []
  | s :: rest => if str_eqb (t_id s) id then f s :: rest else s :: update_first id f rest
  end.
Definition find_step (id : str) (steps : list Task) : option Task :=
  List.find (fun s => str_eqb (t_id s) id) steps.

Definition merge_step (step existing : Task) : Task :=
  mkTask (t_id existing) (t_content step) (merge_status (t_status existing) (t_status step))
         (t_priority step) (t_tool step) (t_dependencies step) (t_success_criteria step).

Definition upsert_step (step : Task) (p : ExecutionPlan) : ExecutionPlan :=
  let steps := match find_step (t_id step) (p_steps p) with
               | Some _ => update_first (t_id step) (merge_step step) (p_steps p)
               | None => p_steps p ++ [step]
               end in
  let p := set_estimated (length steps) (set_steps steps p) in
  match t_tool step with Some tool => add_required_tool tool p | None => p end.

Definition is_ready (steps : list Task) (step : Task) : bool :=
  bool_decide (t_status step = Pending)
  && forallb (fun dep => match find_step dep steps with
                         | Some s => bool_decide (t_status s = Completed)
                         | None => false
                         end) (t_dependencies step).
Definition get_ready_steps (p : ExecutionPlan) : list Task :=
  List.filter (is_ready (p_steps p)) (p_steps p).

Definition mark_status (id : str) (status : TaskStatus) (p : ExecutionPlan) : ExecutionPlan :=
  set_steps (update_first id (fun s => with_status (merge_status (t_status s) status) s) (p_steps p)) p.

Definition pending_count (p : ExecutionPlan) : nat :=
  length (List.filter (fun s => bool_decide (t_status s = Pending)) (p_steps p)).
Definition has_deadlock (p : ExecutionPlan) : bool :=
  (0 <? pending_count p)%nat && match get_ready_steps p with [] => true | _ => false end.

(** ** Identity *)

(** What [definition_identity] hashes: every field but the statuses. *)
Record StepDefinition : Type := mkStepDefinition {
  sd_id : str; sd_content : str; sd_priority : TaskPriority; sd_tool : option str;
  sd_dependencies : list str; sd_success_criteria : option str;
}.
#[global] Instance StepDefinition_eq_dec : EqDecision StepDefinition.
Proof. solve_decision. Defined.
Record PlanDefinition : Type := mkPlanDefinition {
  pd_goal : str; pd_execution_context : option str; pd_complexity : Complexity;
  pd_required_tools : list str; pd_steps : list StepDefinition;
}.
#[global] Instance PlanDefinition_eq_dec : EqDecision PlanDefinition.
Proof. solve_decision. Defined.
Definition step_definition (s : Task) : StepDefinition :=
  mkStepDefinition (t_id s) (t_content s) (t_priority s) (t_tool s) (t_dependencies s)
                   (t_success_criteria s).
Definition plan_definition (p : ExecutionPlan) : PlanDefinition :=
  mkPlanDefinition (p_goal p) (p_execution_context p) (p_complexity p)
    (dedup (sort_strs (p_required_tools p))) (map step_definition (p_steps p)).

(** ** Goals *)

(** An [f32] is its bit pattern. *)
Definition f32_is_zero (bits : Z) : bool := (bits =? 0) || (bits =? 2 ^ 31).
Definition f32_one : Z := 1065353216.

Record AgentGoal : Type := mkGoal {
  g_description : str;
  g_success_criteria : list str;
  g_progress : Z;
  g_achieved : bool;
  g_created_at : Z;
  g_achieved_at : option Z;
}.
#[global] Instance AgentGoal_eq_dec : EqDecision AgentGoal.
Proof. solve_decision. Defined.
Definition new_goal (description : str) (now : Z) : AgentGoal := mkGoal description [] 0 false now None.
Definition with_criteria (criteria : list str) (g : AgentGoal) : AgentGoal :=
  mkGoal (g_description g) criteria (g_progress g) (g_achieved g) (g_created_at g) (g_achieved_at g).
Definition mark_achieved (now : Z) (g : AgentGoal) : AgentGoal :=
  mkGoal (g_description g) (g_success_criteria g) f32_one true (g_created_at g) (Some now).
