(* ===== verification/Goal.v ===== *)
(** Durable goals: the data, closed vocabularies and validation of
    [goal_control.rs], [goal_control/continuation.rs] and the identities they
    rest on ([execution_identity.rs], [content_digest.rs]). *)
From S2P Require Import Prelude Planning.

(** ** Closed vocabularies ([closed_set!]) *)
Definition closed_parse {A} (all : list A) (as_str : A -> str) (value : str) : option A :=
  List.find (fun a => str_eqb (as_str a) value) all.

Module States.
Inductive GoalState : Type := Active | Waiting | Paused | Completed | Cancelled.
End States.
Abbreviation GoalState := States.GoalState.
#[global] Instance GoalState_eq_dec : EqDecision GoalState.
Proof. solve_decision. Defined.
Definition goal_state_all : list GoalState :=
  [States.Active; States.Waiting; States.Paused; States.Completed; States.Cancelled].
Definition goal_state_as_str (s : GoalState) : str :=
  match s with
  | States.Active => $"active" | States.Waiting => $"waiting" | States.Paused => $"paused"
  | States.Completed => $"completed" | States.Cancelled => $"cancelled"
  end.

Module Ticks.
Inductive GoalTickDecisionV1 : Type :=
| Advance | Wait | NeedsInput | Paused | BudgetExhausted | Reconcile | Complete.
End Ticks.
Abbreviation GoalTickDecisionV1 := Ticks.GoalTickDecisionV1.
Definition goal_tick_all : list GoalTickDecisionV1 :=
  [Ticks.Advance; Ticks.Wait; Ticks.NeedsInput; Ticks.Paused; Ticks.BudgetExhausted;
   Ticks.Reconcile; Ticks.Complete].
Definition goal_tick_as_str (d : GoalTickDecisionV1) : str :=
  match d with
  | Ticks.Advance => $"advance" | Ticks.Wait => $"wait" | Ticks.NeedsInput => $"needs_input"
  | Ticks.Paused => $"paused" | Ticks.BudgetExhausted => $"budget_exhausted"
  | Ticks.Reconcile => $"reconcile" | Ticks.Complete => $"complete"
  end.

Module Commands.
Inductive GoalCommandKindV1 : Type :=
| Create | Revise | ProposePlan | AcceptPlan | Pause | Resume | Cancel | Tick
| DeclareWait | ObserveWait.
End Commands.
Abbreviation GoalCommandKindV1 := Commands.GoalCommandKindV1.
#[global] Instance GoalCommandKind_eq_dec : EqDecision GoalCommandKindV1.
Proof. solve_decision. Defined.
Definition goal_command_all : list GoalCommandKindV1 :=
  [Commands.Create; Commands.Revise; Commands.ProposePlan; Commands.AcceptPlan; Commands.Pause;
   Commands.Resume; Commands.Cancel; Commands.Tick; Commands.DeclareWait; Commands.ObserveWait].
Definition goal_command_as_str (k : GoalCommandKindV1) : str :=
  match k with
  | Commands.Create => $"create" | Commands.Revise => $"revise"
  | Commands.ProposePlan => $"propose_plan" | Commands.AcceptPlan => $"accept_plan"
  | Commands.Pause => $"pause" | Commands.Resume => $"resume" | Commands.Cancel => $"cancel"
  | Commands.Tick => $"tick" | Commands.DeclareWait => $"declare_wait"
  | Commands.ObserveWait => $"observe_wait"
  end.

Module Waits.
Inductive GoalWaitKindV1 : Type := QuestionAnswer | ConfirmationAnswer | SourceRevision | UtcDue.
End Waits.
Abbreviation GoalWaitKindV1 := Waits.GoalWaitKindV1.
#[global] Instance GoalWaitKind_eq_dec : EqDecision GoalWaitKindV1.
Proof. solve_decision. Defined.
Definition goal_wait_all : list GoalWaitKindV1 :=
  [Waits.QuestionAnswer; Waits.ConfirmationAnswer; Waits.SourceRevision; Waits.UtcDue].
Definition goal_wait_as_str (k : GoalWaitKindV1) : str :=
  match k with
  | Waits.QuestionAnswer => $"question_answer" | Waits.ConfirmationAnswer => $"confirmation_answer"
  | Waits.SourceRevision => $"source_revision" | Waits.UtcDue => $"utc_due"
  end.

Module Refusals.
Inductive GoalRefusal : Type :=
| NotFound | Conflict | WriterUnavailable | Waiting | Paused | BudgetExhausted | DeadlineExpired
| ReceiptUnsettled | EvidenceStale | ConditionUnsupported | LegacyAmbiguous | HostDriverConflict.
End Refusals.
Abbreviation GoalRefusal := Refusals.GoalRefusal.
#[global] Instance GoalRefusal_eq_dec : EqDecision GoalRefusal.
Proof. solve_decision. Defined.
Definition goal_refusal_all : list GoalRefusal :=
  [Refusals.NotFound; Refusals.Conflict; Refusals.WriterUnavailable; Refusals.Waiting;
   Refusals.Paused; Refusals.BudgetExhausted; Refusals.DeadlineExpired; Refusals.ReceiptUnsettled;
   Refusals.EvidenceStale; Refusals.ConditionUnsupported; Refusals.LegacyAmbiguous;
   Refusals.HostDriverConflict].
Definition goal_refusal_as_str (r : GoalRefusal) : str :=
  match r with
  | Refusals.NotFound => $"goal.not_found" | Refusals.Conflict => $"goal.conflict"
  | Refusals.WriterUnavailable => $"goal.writer_unavailable" | Refusals.Waiting => $"goal.waiting"
  | Refusals.Paused => $"goal.paused" | Refusals.BudgetExhausted => $"goal.budget_exhausted"
  | Refusals.DeadlineExpired => $"goal.deadline_expired"
  | Refusals.ReceiptUnsettled => $"goal.receipt_unsettled"
  | Refusals.EvidenceStale => $"goal.evidence_stale"
  | Refusals.ConditionUnsupported => $"goal.condition_unsupported"
  | Refusals.LegacyAmbiguous => $"goal.legacy_ambiguous"
  | Refusals.HostDriverConflict => $"goal.host_driver_conflict"
  end.

(** ** Errors

    [GoalControlError] without its message texts. [Diverges] is not a Rust
    value: it marks a loop that ran out of the model's fuel. *)
Inductive GoalControlError : Type :=
| Refused (refusal : GoalRefusal)
| UnknownClosedSet (value : str)
| Invalid (field : string)
| IdentityError
| Diverges.

Inductive GoalResult (A : Type) : Type := Good (a : A) | Bad (e : GoalControlError).
Arguments Good {A} a.
Arguments Bad {A} e.
#[global] Instance goal_ret : MRet GoalResult := fun _ a => Good a.
#[global] Instance goal_bind : MBind GoalResult := fun A B f m =>
  match m with Good a => f a | Bad e => Bad e end.
Definition refused {A} (r : GoalRefusal) : GoalResult A := Bad (Refused r).
Definition invalid {A} (field : string) : GoalResult A := Bad (Invalid field).
Definition ok_or {A} (o : option A) (e : GoalControlError) : GoalResult A :=
  match o with Some a => Good a | None => Bad e end.
(** [if cond { return Err(e) }] *)
Definition fail_if (cond : bool) (e : GoalControlError) : GoalResult unit :=
  if cond then Bad e else Good tt.
Fixpoint for_all {A} (f : A -> GoalResult unit) (l : list A) : GoalResult unit :=
  match l with [] => Good tt | a :: l => f a ;; for_all f l end.

(** ** Field validation *)
Definition validate_id (field : string) (value : str) : GoalResult unit :=
  fail_if (bool_decide (value = []) || (128 <? len value) || existsb is_control value) (Invalid field).
Definition validate_text (field : string) (value : str) (max_bytes : Z) : GoalResult unit :=
  fail_if (bool_decide (trim value = []) || (max_bytes <? len value) || contains_char value c_nul)
          (Invalid field).

Definition is_lower_hex (c : char) : bool := is_ascii_digit c || in_range 97 102 c.
(** [content_digest::validate_digest] *)
Definition validate_digest (value : str) : bool :=
  match strip_prefix $"sha256:" value with
  | Some hex => (len hex =? 64) && forallb is_lower_hex hex
  | None => false
  end.

(** ** Execution identities *)
Definition EXECUTION_IDENTITY_SCHEMA_V1 : str := $"a3s.code.execution-identity.v1".
Definition EXECUTION_PLAN_IDENTITY_DOMAIN_V1 : str := $"a3s.code.execution-plan.identity.v1".
Record ExecutionIdentityV1 : Type := mkIdentity { ei_schema : str; ei_domain : str; ei_digest : str }.
#[global] Instance ExecutionIdentity_eq_dec : EqDecision ExecutionIdentityV1.
Proof. solve_decision. Defined.

(** The character test excludes NUL and line breaks, which the code also tests. *)
Definition validate_domain (domain : str) : bool :=
  negb (bool_decide (domain = [])) && (len domain <=? 128)
  && forallb (fun c => is_ascii_lowercase c || is_ascii_digit c || (c =? c_dot) || (c =? c_dash)
                       || (c =? c_underscore)) domain.
(** [derive], from the digest of the canonical value under its domain. *)
Definition identity_derive (domain digest : str) : GoalResult ExecutionIdentityV1 :=
  if validate_domain domain then Good (mkIdentity EXECUTION_IDENTITY_SCHEMA_V1 domain digest)
  else Bad IdentityError.
Definition identity_validate (i : ExecutionIdentityV1) : GoalResult unit :=
  if str_eqb (ei_schema i) EXECUTION_IDENTITY_SCHEMA_V1 && validate_domain (ei_domain i)
     && validate_digest (ei_digest i)
  then Good tt else Bad IdentityError.

(** ** Commands and views *)
Record WorkspaceRef : Type := mkWorkspace { ws_id : str; ws_display_root : str }.
#[global] Instance WorkspaceRef_eq_dec : EqDecision WorkspaceRef.
Proof. solve_decision. Defined.

Definition GOAL_LEGACY_SOURCE_DOMAIN_V1 : str := $"a3s.code.goal-legacy-source.v1".
Record GoalImportSourceV1 : Type := mkImport { is_identity : ExecutionIdentityV1; is_paused : bool }.
#[global] Instance GoalImportSource_eq_dec : EqDecision GoalImportSourceV1.
Proof. solve_decision. Defined.

(** The fields every goal command shares. *)
Record GoalDefinitionCommandV1 : Type := mkDefinitionCommand {
  dc_kind : GoalCommandKindV1;
  dc_operation_id : str;
  dc_goal_id : str;
  dc_session_id : str;
  dc_workspace : WorkspaceRef;
  dc_goal : AgentGoal;
  dc_non_goals : list str;
  dc_scope_fact_sequences : list Z;
  dc_work_policy_digest : option str;
  dc_expected_goal_revision : option Z;
  dc_expected_plan_revision : option Z;
  dc_expected_goal_sequence : option Z;
  dc_import_source : option GoalImportSourceV1;
}.
Record GoalPlanCommandV1 : Type := mkPlanCommand {
  pc_kind : GoalCommandKindV1;
  pc_operation_id : str;
  pc_goal_id : str;
  pc_session_id : str;
  pc_workspace : WorkspaceRef;
  pc_work_policy_digest : option str;
  pc_expected_goal_revision : Z;
  pc_expected_plan_revision : option Z;
  pc_expected_goal_sequence : Z;
  pc_plan : option ExecutionPlan;
  pc_proposal_sequence : option Z;
}.
Record GoalControlCommandV1 : Type := mkControlCommand {
  cc_kind : GoalCommandKindV1;
  cc_operation_id : str;
  cc_goal_id : str;
  cc_session_id : str;
  cc_workspace : WorkspaceRef;
  cc_work_policy_digest : option str;
  cc_expected_goal_revision : Z;
  cc_expected_plan_revision : option Z;
  cc_expected_goal_sequence : Z;
}.

Inductive RequiredAction : Type := NoAction | WorkspaceChange | Address.
#[global] Instance RequiredAction_eq_dec : EqDecision RequiredAction.
Proof. solve_decision. Defined.
Record ExternalObservationV1 : Type := mkObservation {
  eo_schema : str; eo_kind : str; eo_subject : str; eo_digest : str; eo_payload : str;
  eo_source_revision : option str; eo_required_action : RequiredAction;
}.
#[global] Instance ExternalObservation_eq_dec : EqDecision ExternalObservationV1.
Proof. solve_decision. Defined.
Definition EXTERNAL_OBSERVATION_SCHEMA : str := $"a3s.code.external-observation.v1".

Inductive GoalWaitConditionV1 : Type :=
| CQuestionAnswer (question : str)
| CConfirmationAnswer (request : str)
| CSourceRevision (subject after_digest : str)
| CUtcDue (due_unix_ms : positive).
#[global] Instance GoalWaitCondition_eq_dec : EqDecision GoalWaitConditionV1.
Proof. solve_decision. Defined.
Definition condition_kind (c : GoalWaitConditionV1) : GoalWaitKindV1 :=
  match c with
  | CQuestionAnswer _ => Waits.QuestionAnswer | CConfirmationAnswer _ => Waits.ConfirmationAnswer
  | CSourceRevision _ _ => Waits.SourceRevision | CUtcDue _ => Waits.UtcDue
  end.
Definition condition_validate (c : GoalWaitConditionV1) : GoalResult unit :=
  match c with
  | CQuestionAnswer text | CConfirmationAnswer text => validate_text "wait.text" text 4096
  | CSourceRevision subject after =>
      validate_id "wait.subject" subject ;; validate_id "wait.after_digest" after
  | CUtcDue _ => Good tt
  end.

Inductive GoalWaitEvidenceV1 : Type :=
| EQuestionAnswer (answer : str)
| EConfirmationAnswer (approved : bool)
| ESourceRevision (observation : ExternalObservationV1)
| EUtcDue.
#[global] Instance GoalWaitEvidence_eq_dec : EqDecision GoalWaitEvidenceV1.
Proof. solve_decision. Defined.
Definition evidence_kind (e : GoalWaitEvidenceV1) : GoalWaitKindV1 :=
  match e with
  | EQuestionAnswer _ => Waits.QuestionAnswer | EConfirmationAnswer _ => Waits.ConfirmationAnswer
  | ESourceRevision _ => Waits.SourceRevision | EUtcDue => Waits.UtcDue
  end.

Record GoalWaitCommandV1 : Type := mkWaitCommand {
  wc_kind : GoalCommandKindV1;
  wc_operation_id : str;
  wc_goal_id : str;
  wc_session_id : str;
  wc_workspace : WorkspaceRef;
  wc_work_policy_digest : option str;
  wc_expected_goal_revision : Z;
  wc_expected_plan_revision : option Z;
  wc_expected_goal_sequence : Z;
  wc_step_id : str;
  wc_condition : option GoalWaitConditionV1;
  wc_evidence : option GoalWaitEvidenceV1;
}.
Record GoalWaitObservationV1 : Type := mkWaitObservation {
  wo_sequence : Z; wo_evidence : GoalWaitEvidenceV1; wo_observed_unix_ms : option Z;
}.
Record GoalWaitV1 : Type := mkWait {
  w_step_id : str;
  w_declared_sequence : Z;
  w_condition : GoalWaitConditionV1;
  w_observed : option GoalWaitObservationV1;
}.

Record DurableGoalBindingV1 : Type := mkBinding {
  b_goal_id : str;
  b_session_id : str;
  b_workspace : WorkspaceRef;
  b_goal_revision : Z;
  b_non_goals : list str;
  b_scope_fact_sequences : list Z;
  b_authorization_source : ExecutionIdentityV1;
  b_work_policy_digest : option str;
}.
#[global] Instance DurableGoalBinding_eq_dec : EqDecision DurableGoalBindingV1.
Proof. solve_decision. Defined.

Record DurableGoalDefinitionV1 : Type := mkDefinition {
  v_binding : DurableGoalBindingV1;
  v_state : GoalState;
  v_import_source : option GoalImportSourceV1;
  v_goal : AgentGoal;
  v_goal_sequence : Z;
  v_plan_revision : option Z;
  v_plan : option ExecutionPlan;
  v_plan_fact_sequence : option Z;
  v_plan_accepted : bool;
  v_waits : list GoalWaitV1;
}.

Definition wait_is_open (w : GoalWaitV1) : bool := match w_observed w with None => true | _ => false end.
Definition open_wait (v : DurableGoalDefinitionV1) (step_id : str) : option GoalWaitV1 :=
  List.find (fun w => str_eqb (w_step_id w) step_id && wait_is_open w) (v_waits v).
Definition ready_steps (v : DurableGoalDefinitionV1) : list Task :=
  match v_plan v with
  | None => []
  | Some plan => List.filter (fun s => match open_wait v (t_id s) with None => true | _ => false end)
                             (get_ready_steps plan)
  end.

(** ** Structural validation *)
Fixpoint distinct_positive (seen l : list Z) : bool :=
  match l with
  | [] => true
  | s :: l => negb (s =? 0) && negb (existsb (Z.eqb s) seen) && distinct_positive (s :: seen) l
  end.

Definition binding_validate (b : DurableGoalBindingV1) : GoalResult unit :=
  validate_id "goal_id" (b_goal_id b) ;;
  validate_id "session_id" (b_session_id b) ;;
  validate_text "workspace.id" (ws_id (b_workspace b)) 4096 ;;
  validate_text "workspace.display_root" (ws_display_root (b_workspace b)) 4096 ;;
  fail_if (b_goal_revision b =? 0) (Invalid "goal_revision") ;;
  fail_if ((32 <? length (b_non_goals b))%nat || (32 <? length (b_scope_fact_sequences b))%nat)
          (Invalid "scope") ;;
  for_all (fun text => validate_text "non_goals" text 1024) (b_non_goals b) ;;
  fail_if (negb (distinct_positive [] (b_scope_fact_sequences b))) (Invalid "scope_fact_sequences") ;;
  identity_validate (b_authorization_source b) ;;
  match b_work_policy_digest b with
  | Some digest => fail_if (negb (validate_digest digest)) (Invalid "work_policy_digest")
  | None => Good tt
  end.

Definition binding_next_revision (b : DurableGoalBindingV1) : GoalResult Z :=
  binding_validate b ;;
  ok_or (checked_add u32_max (b_goal_revision b) 1) (Invalid "goal_revision").

Definition validate_goal_definition (g : AgentGoal) : GoalResult unit :=
  validate_text "description" (g_description g) 4096 ;;
  fail_if (bool_decide (g_success_criteria g = []) || (32 <? length (g_success_criteria g))%nat)
          (Invalid "success_criteria") ;;
  for_all (fun c => validate_text "success_criteria" c 1024) (g_success_criteria g) ;;
  fail_if (negb (f32_is_zero (g_progress g)) || g_achieved g || bool_decide (g_achieved_at g <> None))
          (Invalid "progress").

(** *** Plans *)
Fixpoint validate_steps (seen : list str) (steps : list Task) : GoalResult unit :=
  match steps with
  | [] => Good tt
  | step :: rest =>
      validate_id "step.id" (t_id step) ;;
      fail_if (existsb (str_eqb (t_id step)) seen) (Invalid "step.id") ;;
      validate_text "step.content" (t_content step) 4096 ;;
      validate_text "step.success_criteria"
        (match t_success_criteria step with Some c => c | None => [] end) 1024 ;;
      (match t_tool step with Some tool => validate_id "step.tool" tool | None => Good tt end) ;;
      fail_if (64 <? length (t_dependencies step))%nat (Invalid "dependencies") ;;
      validate_steps (t_id step :: seen) rest
  end.

Fixpoint validate_dependencies (ids : list str) (self : str) (seen deps : list str) : GoalResult unit :=
  match deps with
  | [] => Good tt
  | d :: rest =>
      fail_if (str_eqb d self || negb (existsb (str_eqb d) ids) || existsb (str_eqb d) seen)
              (Invalid "dependencies") ;;
      validate_dependencies ids self (d :: seen) rest
  end.

Definition pending_copy (p : ExecutionPlan) : ExecutionPlan :=
  set_steps (map (with_status Pending) (p_steps p)) p.

(** One round: every ready step is marked completed. *)
Definition complete_all (ids : list str) (p : ExecutionPlan) : ExecutionPlan :=
  fold_left (fun p id => mark_status id Completed p) ids p.

(** The [while remaining.pending_count() > 0] loop. *)
Fixpoint drain (fuel : nat) (p : ExecutionPlan) : GoalResult unit :=
  if (0 <? pending_count p)%nat then
    match fuel with
    | O => Bad Diverges
    | S fuel =>
        match map t_id (get_ready_steps p) with
        | [] => invalid "dependencies"
        | ready => drain fuel (complete_all ready p)
        end
    end
  else Good tt.

(** Third-party code and the subsystems this one only consults. *)
Class GoalEnv : Type := {
  (** [VerificationReport], carried but never inspected here *)
  Report : Type;
  Report_eq_dec :: EqDecision Report;
  (** SHA-256 of a plan definition under the plan identity domain *)
  plan_digest : PlanDefinition -> str;
  (** SHA-256 of the authorization triple of a definition command *)
  authorization_digest : str -> WorkspaceRef -> GoalDefinitionCommandV1 -> str;
  (** [digest_bytes(domain, text)] *)
  digest_bytes : str -> str -> str;
}.

Section Validate.
Context `{GoalEnv}.

Definition definition_identity (p : ExecutionPlan) : GoalResult ExecutionIdentityV1 :=
  identity_derive EXECUTION_PLAN_IDENTITY_DOMAIN_V1 (plan_digest (plan_definition p)).

Definition validate_goal_plan (p : ExecutionPlan) : GoalResult ExecutionIdentityV1 :=
  validate_text "plan.goal" (p_goal p) 4096 ;;
  (match p_execution_context p with
   | Some context => validate_text "execution_context" context 32768
   | None => Good tt
   end) ;;
  fail_if (bool_decide (p_steps p = []) || (64 <? length (p_steps p))%nat
           || (64 <? length (p_required_tools p))%nat) (Invalid "plan") ;;
  for_all (validate_id "required_tools") (p_required_tools p) ;;
  validate_steps [] (p_steps p) ;;
  for_all (fun s => validate_dependencies (map t_id (p_steps p)) (t_id s) [] (t_dependencies s))
          (p_steps p) ;;
  drain (length (p_steps p)) (pending_copy p) ;;
  definition_identity p.
End Validate.

(** ** Continuation policy *)
Record GoalContinuationPolicyV1 : Type := mkContinuation {
  cp_automatic_enabled : bool;
  cp_max_slices : positive;
  cp_max_no_progress_slices : positive;
  cp_deadline_unix_ms : positive;
}.
#[global] Instance GoalContinuationPolicy_eq_dec : EqDecision GoalContinuationPolicyV1.
Proof. solve_decision. Defined.
Definition MAX_GOAL_SLICES : Z := 1000.
Definition MAX_GOAL_HORIZON_MS : Z := 30 * 24 * 60 * 60 * 1000.

Definition check_bounds (p : GoalContinuationPolicyV1) : GoalResult unit :=
  fail_if (MAX_GOAL_SLICES <? Zpos (cp_max_slices p)) (Invalid "max_slices").
Definition until_deadline (deadline : positive) : GoalResult GoalContinuationPolicyV1 :=
  let policy := mkContinuation true 1000 1000 deadline in
  check_bounds policy ;; mret policy.
Definition check_admission (p : GoalContinuationPolicyV1) (now : Z) : GoalResult unit :=
  check_bounds p ;;
  fail_if (MAX_GOAL_HORIZON_MS <? Z.max 0 (Zpos (cp_deadline_unix_ms p) - now))
          (Invalid "deadline_unix_ms").
Definition check_limits (p : GoalContinuationPolicyV1) (now admitted no_progress : Z)
    : GoalResult unit :=
  fail_if (now =? 0) (Invalid "now_unix_ms") ;;
  fail_if (Zpos (cp_deadline_unix_ms p) <=? now) (Refused Refusals.DeadlineExpired) ;;
  fail_if (negb (cp_automatic_enabled p) || (Zpos (cp_max_slices p) <=? admitted)
           || (Zpos (cp_max_no_progress_slices p) <=? no_progress))
          (Refused Refusals.BudgetExhausted).
