(* ===== verification/GoalLog.v ===== *)
(** The goal stream: facts, the fold that projects them to a goal definition and
    the operations that prepare new facts ([goal_control/facts.rs] and
    [goal_control/facts/]; [goal_control/continuation.rs]'s [preview_tick]). *)
From S2P Require Import Prelude Planning Goal.

Definition GOAL_FACT_SCHEMA_V1 : str := $"a3s.code.goal.fact.v1".

Module Kinds.
Inductive GoalFactKindV1 : Type :=
| Created | Revised | PlanProposed | PlanAccepted | SliceAdmitted | SliceSettled | StepAccepted
| WaitDeclared | WaitObserved | Paused | Resumed | Cancelled | Completed.
End Kinds.
Abbreviation GoalFactKindV1 := Kinds.GoalFactKindV1.
#[global] Instance GoalFactKind_eq_dec : EqDecision GoalFactKindV1.
Proof. solve_decision. Defined.
Definition fact_kind_all : list GoalFactKindV1 :=
  [Kinds.Created; Kinds.Revised; Kinds.PlanProposed; Kinds.PlanAccepted; Kinds.SliceAdmitted;
   Kinds.SliceSettled; Kinds.StepAccepted; Kinds.WaitDeclared; Kinds.WaitObserved; Kinds.Paused;
   Kinds.Resumed; Kinds.Cancelled; Kinds.Completed].
Definition fact_kind_as_str (k : GoalFactKindV1) : str :=
  match k with
  | Kinds.Created => $"a3s.goal.created" | Kinds.Revised => $"a3s.goal.revised"
  | Kinds.PlanProposed => $"a3s.goal.plan.proposed" | Kinds.PlanAccepted => $"a3s.goal.plan.accepted"
  | Kinds.SliceAdmitted => $"a3s.goal.slice.admitted" | Kinds.SliceSettled => $"a3s.goal.slice.settled"
  | Kinds.StepAccepted => $"a3s.goal.step.accepted" | Kinds.WaitDeclared => $"a3s.goal.wait.declared"
  | Kinds.WaitObserved => $"a3s.goal.wait.observed" | Kinds.Paused => $"a3s.goal.paused"
  | Kinds.Resumed => $"a3s.goal.resumed" | Kinds.Cancelled => $"a3s.goal.cancelled"
  | Kinds.Completed => $"a3s.goal.completed"
  end.
Definition fact_kind_parse (value : str) : GoalResult GoalFactKindV1 :=
  ok_or (closed_parse fact_kind_all fact_kind_as_str value) (UnknownClosedSet value).

Definition TURN_COMPLETE_FACT_KIND : str := $"turn.complete".

(** ** Fact bodies *)
Record ContinuationSource : Type := mkSource {
  cs_policy : GoalContinuationPolicyV1; cs_observed_unix_ms : Z;
}.
#[global] Instance ContinuationSource_eq_dec : EqDecision ContinuationSource.
Proof. solve_decision. Defined.
Record TokenUsage : Type := mkUsage {
  tu_prompt : Z; tu_completion : Z; tu_total : Z; tu_cache_read : option Z; tu_cache_write : option Z;
}.
#[global] Instance TokenUsage_eq_dec : EqDecision TokenUsage.
Proof. solve_decision. Defined.
Inductive GoalSliceOutcomeV1 : Type := SliceCompleted | SliceInterrupted.
#[global] Instance GoalSliceOutcome_eq_dec : EqDecision GoalSliceOutcomeV1.
Proof. solve_decision. Defined.
Definition slice_outcome_as_str (o : GoalSliceOutcomeV1) : str :=
  match o with SliceCompleted => $"completed" | SliceInterrupted => $"interrupted" end.

Record DefinitionBody : Type := mkDefinitionBody {
  db_binding : DurableGoalBindingV1;
  db_goal : AgentGoal;
  db_expected_goal_revision : option Z;
  db_expected_plan_revision : option Z;
  db_expected_goal_sequence : option Z;
  db_import_source : option GoalImportSourceV1;
}.
#[global] Instance DefinitionBody_eq_dec : EqDecision DefinitionBody.
Proof. solve_decision. Defined.
Record PlanBody : Type := mkPlanBody {
  pb_plan : option ExecutionPlan;
  pb_identity : ExecutionIdentityV1;
  pb_proposal_sequence : option Z;
  pb_expected_goal_revision : Z;
  pb_expected_plan_revision : option Z;
  pb_expected_goal_sequence : Z;
}.
#[global] Instance PlanBody_eq_dec : EqDecision PlanBody.
Proof. solve_decision. Defined.
Record ControlBody : Type := mkControlBody {
  cb_expected_goal_revision : Z;
  cb_expected_plan_revision : option Z;
  cb_expected_goal_sequence : Z;
}.
#[global] Instance ControlBody_eq_dec : EqDecision ControlBody.
Proof. solve_decision. Defined.
Record RunBody : Type := mkRunBody {
  rb_run_id : str;
  rb_step_id : str;
  rb_expected_goal_sequence : Z;
  rb_plan_fact_sequence : Z;
  rb_continuation : option ContinuationSource;
}.
#[global] Instance RunBody_eq_dec : EqDecision RunBody.
Proof. solve_decision. Defined.
Record SettledBody : Type := mkSettledBody {
  sb_run_id : str;
  sb_run_sequence : Z;
  sb_outcome : GoalSliceOutcomeV1;
  sb_completion_sequence : option Z;
  sb_step_sequence : option Z;
  sb_usage : option TokenUsage;
}.
#[global] Instance SettledBody_eq_dec : EqDecision SettledBody.
Proof. solve_decision. Defined.
Record CompletedBody : Type := mkCompletedBody { mb_step_sequence : Z; mb_settle_sequence : Z }.
#[global] Instance CompletedBody_eq_dec : EqDecision CompletedBody.
Proof. solve_decision. Defined.
Record WaitBody : Type := mkWaitBody {
  wb_expected_goal_revision : Z;
  wb_expected_plan_revision : option Z;
  wb_expected_goal_sequence : Z;
  wb_step_id : str;
  wb_condition : option GoalWaitConditionV1;
  wb_evidence : option GoalWaitEvidenceV1;
  wb_observed_unix_ms : option Z;
}.
#[global] Instance WaitBody_eq_dec : EqDecision WaitBody.
Proof. solve_decision. Defined.

Record GoalFact (T : Type) : Type := mkGoalFact {
  gf_schema : str;
  gf_session_id : str;
  gf_goal_id : str;
  gf_operation_id : str;
  gf_command_digest : str;
  gf_goal_revision : Z;
  gf_plan_revision : option Z;
  gf_work_policy_digest : option str;
  gf_body : T;
}.
Arguments mkGoalFact {T}.
Arguments gf_schema {T}.
Arguments gf_session_id {T}.
Arguments gf_goal_id {T}.
Arguments gf_operation_id {T}.
Arguments gf_command_digest {T}.
Arguments gf_goal_revision {T}.
Arguments gf_plan_revision {T}.
Arguments gf_work_policy_digest {T}.
Arguments gf_body {T}.
#[global] Instance GoalFact_eq_dec {T} `{EqDecision T} : EqDecision (GoalFact T).
Proof. solve_decision. Defined.

Section Facts.
Context `{GoalEnv}.

Record StepBody : Type := mkStepBody {
  tb_run_id : str;
  tb_step_id : str;
  tb_run_sequence : Z;
  tb_plan_identity : ExecutionIdentityV1;
  tb_source_sequence : Z;
  tb_source_digest : str;
  tb_attestation : option Report;
  tb_closes_goal : bool;
}.
#[global] Instance StepBody_eq_dec : EqDecision StepBody.
Proof. solve_decision. Defined.

(** A stored JSON payload, as the value it decodes to. The encodings of the
    bodies have different required fields and refuse unknown ones, so a payload
    decodes as at most one of them; anything else keeps its JSON. *)
Inductive Payload : Type :=
| PDefinition (f : GoalFact DefinitionBody)
| PPlan (f : GoalFact PlanBody)
| PRun (f : GoalFact RunBody)
| PSettled (f : GoalFact SettledBody)
| PCompleted (f : GoalFact CompletedBody)
| PStep (f : GoalFact StepBody)
| PControl (f : GoalFact ControlBody)
| PWait (f : GoalFact WaitBody)
| POther (j : json).
#[global] Instance Payload_eq_dec : EqDecision Payload.
Proof. solve_decision. Defined.

(** [a3s_effect::Fact]; of its cause the code only asks whether there is one. *)
Record Fact : Type := mkFact {
  f_seq : Z; f_kind : str; f_key : str; f_has_cause : bool; f_payload : Payload;
}.
#[global] Instance Fact_eq_dec : EqDecision Fact.
Proof. solve_decision. Defined.
Record NewFact : Type := mkNewFact { n_kind : str; n_key : str; n_payload : Payload }.

(** What [command_digest] hashes. *)
Inductive Digested : Type :=
| DDefinition (c : GoalDefinitionCommandV1)
| DPlan (c : GoalPlanCommandV1)
| DControl (c : GoalControlCommandV1)
| DWait (c : GoalWaitCommandV1)
| DRun (b : DurableGoalBindingV1) (plan_revision : option Z) (body : RunBody)
| DSettled (b : DurableGoalBindingV1) (plan_revision : option Z) (body : SettledBody)
| DCompleted (b : DurableGoalBindingV1) (plan_revision : option Z) (body : CompletedBody)
| DStep (b : DurableGoalBindingV1) (plan_revision : option Z) (body : StepBody).

Record PreparedDefinition : Type := mkPrepared {
  pending_fact : option NewFact; prepared : DurableGoalDefinitionV1;
}.

Definition goal_fact_key (goal_id operation_id : str) (kind : GoalFactKindV1) : GoalResult str :=
  validate_id "goal_id" goal_id ;;
  validate_id "operation_id" operation_id ;;
  mret ($"goal/" ++ digest_bytes $"a3s.code.goal-id.v1" goal_id ++ $"/"
        ++ digest_bytes $"a3s.code.goal-operation-id.v1" operation_id ++ $"/"
        ++ fact_kind_as_str kind).
End Facts.

(** The rest of the environment of the goal stream. *)
Class LogEnv `{GoalEnv} : Type := {
  (** [digest_json(COMMAND_DOMAIN, value)] *)
  command_digest : Digested -> str;
  (** [a3s_effect::cut_log]: last sequence and digest of a prefix *)
  cut_log : list Fact -> Z * str;
  (** [fact_control::has_unsettled_effects] *)
  has_unsettled_effects : list Fact -> bool;
  (** [fact_control::evidence_for_goal_step] *)
  evidence_for_goal_step : list Fact -> Z -> str -> str -> option Report -> option (list Report * str);
}.

Definition find_seq `{GoalEnv} (seq : Z) (facts : list Fact) : option Fact :=
  List.find (fun f => f_seq f =? seq) facts.
Definition find_key `{GoalEnv} (key : str) (facts : list Fact) : option Fact :=
  List.find (fun f => str_eqb (f_key f) key) facts.
(** [facts[..facts.iter().position(|f| f.seq == seq).unwrap_or(facts.len())]] *)
Definition before_seq `{GoalEnv} (seq : Z) (facts : list Fact) : list Fact :=
  match position (fun f => f_seq f =? seq) facts with
  | Some n => take n facts
  | None => facts
  end.

Section Log.
Context `{LogEnv}.

(** ** Common checks *)
Definition validate_source {T} (stored : GoalFact T) (fact : Fact) (session_id : str)
    (policy_digest : option str) (current : option DurableGoalDefinitionV1) : GoalResult unit :=
  if negb (str_eqb (gf_schema stored) GOAL_FACT_SCHEMA_V1)
     || negb (str_eqb (gf_session_id stored) session_id)
     || negb (bool_decide (gf_work_policy_digest stored = policy_digest))
  then refused Refusals.Conflict
  else
    kind ← fact_kind_parse (f_kind fact);
    key ← goal_fact_key (gf_goal_id stored) (gf_operation_id stored) kind;
    fail_if (negb (str_eqb (f_key fact) key) || f_has_cause fact || (f_seq fact =? 0)
             || match current with Some view => f_seq fact <=? v_goal_sequence view | None => false end)
            (Refused Refusals.Conflict).

Definition terminal (s : GoalState) : bool :=
  match s with States.Cancelled | States.Completed => true | _ => false end.

Definition with_sequence (seq : Z) (v : DurableGoalDefinitionV1) : DurableGoalDefinitionV1 :=
  mkDefinition (v_binding v) (v_state v) (v_import_source v) (v_goal v) seq (v_plan_revision v)
               (v_plan v) (v_plan_fact_sequence v) (v_plan_accepted v) (v_waits v).
Definition with_state (s : GoalState) (v : DurableGoalDefinitionV1) : DurableGoalDefinitionV1 :=
  mkDefinition (v_binding v) s (v_import_source v) (v_goal v) (v_goal_sequence v) (v_plan_revision v)
               (v_plan v) (v_plan_fact_sequence v) (v_plan_accepted v) (v_waits v).
Definition with_waits (ws : list GoalWaitV1) (v : DurableGoalDefinitionV1) : DurableGoalDefinitionV1 :=
  mkDefinition (v_binding v) (v_state v) (v_import_source v) (v_goal v) (v_goal_sequence v)
               (v_plan_revision v) (v_plan v) (v_plan_fact_sequence v) (v_plan_accepted v) ws.
Definition with_plan (p : option ExecutionPlan) (v : DurableGoalDefinitionV1) : DurableGoalDefinitionV1 :=
  mkDefinition (v_binding v) (v_state v) (v_import_source v) (v_goal v) (v_goal_sequence v)
               (v_plan_revision v) p (v_plan_fact_sequence v) (v_plan_accepted v) (v_waits v).

(** ** Definitions ([facts.rs]) *)
Definition AUTHORIZATION_DOMAIN : str := $"a3s.code.goal-authorization.v1".

Definition binding_for (command : GoalDefinitionCommandV1) (revision : Z)
    : GoalResult DurableGoalBindingV1 :=
  validate_id "operation_id" (dc_operation_id command) ;;
  validate_goal_definition (dc_goal command) ;;
  (match dc_import_source command with
   | Some source =>
       identity_validate (is_identity source) ;;
       fail_if (negb (bool_decide (dc_kind command = Commands.Create))
                || negb (str_eqb (ei_domain (is_identity source)) GOAL_LEGACY_SOURCE_DOMAIN_V1))
               (Refused Refusals.Conflict)
   | None => Good tt
   end) ;;
  authorization ← identity_derive AUTHORIZATION_DOMAIN
    (authorization_digest (dc_session_id command) (dc_workspace command) command);
  let binding := mkBinding (dc_goal_id command) (dc_session_id command) (dc_workspace command)
    revision (dc_non_goals command) (dc_scope_fact_sequences command) authorization
    (dc_work_policy_digest command) in
  binding_validate binding ;;
  mret binding.

Definition next_revision (command : GoalDefinitionCommandV1) (current : option DurableGoalDefinitionV1)
    : GoalResult Z :=
  match dc_kind command, current with
  | Commands.Create, None =>
      if bool_decide (dc_expected_goal_revision command = None)
         && bool_decide (dc_expected_plan_revision command = None)
         && bool_decide (dc_expected_goal_sequence command = None)
      then mret 1 else refused Refusals.Conflict
  | Commands.Revise, Some current =>
      if negb (terminal (v_state current))
         && str_eqb (dc_goal_id command) (b_goal_id (v_binding current))
         && bool_decide (dc_expected_goal_revision command = Some (b_goal_revision (v_binding current)))
         && bool_decide (dc_expected_plan_revision command = v_plan_revision current)
         && bool_decide (dc_expected_goal_sequence command = Some (v_goal_sequence current))
      then binding_next_revision (v_binding current) else refused Refusals.Conflict
  | (Commands.Create | Commands.Revise), _ => refused Refusals.Conflict
  | _, _ => refused Refusals.ConditionUnsupported
  end.

Definition definition_command (stored : GoalFact DefinitionBody) (kind : GoalCommandKindV1)
    : GoalDefinitionCommandV1 :=
  let body := gf_body stored in
  mkDefinitionCommand kind (gf_operation_id stored) (gf_goal_id stored) (gf_session_id stored)
    (b_workspace (db_binding body)) (db_goal body) (b_non_goals (db_binding body))
    (b_scope_fact_sequences (db_binding body)) (gf_work_policy_digest stored)
    (db_expected_goal_revision body) (db_expected_plan_revision body)
    (db_expected_goal_sequence body) (db_import_source body).

Definition definition_view (stored : GoalFact DefinitionBody) (sequence : Z)
    (current : option DurableGoalDefinitionV1) : DurableGoalDefinitionV1 :=
  let body := gf_body stored in
  mkDefinition (db_binding body)
    (match current with
     | Some view => v_state view
     | None => match db_import_source body with
               | Some source => if is_paused source then States.Paused else States.Active
               | None => States.Active
               end
     end)
    (match current with
     | Some view => match v_import_source view with Some s => Some s | None => db_import_source body end
     | None => db_import_source body
     end)
    (db_goal body) sequence (gf_plan_revision stored) None None false [].

(** Decoding a definition validates its goal ([deserialize_goal_definition]). *)
Definition decode_definition (p : Payload) : option (GoalFact DefinitionBody) :=
  match p with
  | PDefinition f => match validate_goal_definition (db_goal (gf_body f)) with
                     | Good _ => Some f
                     | Bad _ => None
                     end
  | _ => None
  end.

Definition plan_revision_of (current : option DurableGoalDefinitionV1) : option Z :=
  match current with Some view => v_plan_revision view | None => None end.

Definition fold_definition (fact : Fact) (kind : GoalCommandKindV1) (facts : list Fact)
    (current : option DurableGoalDefinitionV1) (session_id : str) (workspace : WorkspaceRef)
    (policy_digest : option str) : GoalResult (str * str * DurableGoalDefinitionV1) :=
  stored ← ok_or (decode_definition (f_payload fact)) (Refused Refusals.Conflict);
  validate_source stored fact session_id policy_digest current ;;
  let command := definition_command stored kind in
  revision ← next_revision command current;
  binding ← binding_for command revision;
  fail_if (negb (bool_decide (b_workspace binding = workspace))
           || negb (gf_goal_revision stored =? revision)
           || negb (bool_decide (gf_plan_revision stored = plan_revision_of current))
           || negb (bool_decide (db_binding (gf_body stored) = binding))
           || negb (str_eqb (gf_command_digest stored) (command_digest (DDefinition command)))
           || existsb (fun sequence => (f_seq fact <=? sequence)
                                       || negb (existsb (fun source => f_seq source =? sequence) facts))
                      (b_scope_fact_sequences binding))
          (Refused Refusals.Conflict) ;;
  mret (gf_operation_id stored, gf_command_digest stored, definition_view stored (f_seq fact) current).

(** ** Plans ([facts/plan.rs]) *)
Definition plan_validate_request (command : GoalPlanCommandV1) : GoalResult unit :=
  validate_id "operation_id" (pc_operation_id command) ;;
  validate_id "goal_id" (pc_goal_id command) ;;
  validate_id "session_id" (pc_session_id command) ;;
  fail_if ((pc_expected_goal_revision command =? 0) || (pc_expected_goal_sequence command =? 0))
          (Refused Refusals.Conflict) ;;
  match pc_kind command, pc_plan command, pc_proposal_sequence command with
  | Commands.ProposePlan, Some plan, None => validate_goal_plan plan ;; Good tt
  | Commands.AcceptPlan, None, Some sequence =>
      if 0 <? sequence then Good tt else refused Refusals.Conflict
  | (Commands.ProposePlan | Commands.AcceptPlan), _, _ => refused Refusals.Conflict
  | _, _, _ => refused Refusals.ConditionUnsupported
  end.

Definition plan_transition (current : DurableGoalDefinitionV1) (command : GoalPlanCommandV1)
    (sequence : Z) : GoalResult (DurableGoalDefinitionV1 * ExecutionIdentityV1) :=
  plan_validate_request command ;;
  fail_if (terminal (v_state current)
           || negb (str_eqb (pc_goal_id command) (b_goal_id (v_binding current)))
           || negb (str_eqb (pc_session_id command) (b_session_id (v_binding current)))
           || negb (bool_decide (pc_workspace command = b_workspace (v_binding current)))
           || negb (bool_decide (pc_work_policy_digest command = b_work_policy_digest (v_binding current)))
           || negb (pc_expected_goal_revision command =? b_goal_revision (v_binding current))
           || negb (bool_decide (pc_expected_plan_revision command = v_plan_revision current))
           || negb (pc_expected_goal_sequence command =? v_goal_sequence current))
          (Refused Refusals.Conflict) ;;
  match pc_plan command with
  | Some plan =>
      ident ← validate_goal_plan plan;
      revision ← ok_or (checked_add u32_max (match v_plan_revision current with Some r => r | None => 0 end) 1)
                       (Refused Refusals.Conflict);
      mret (mkDefinition (v_binding current) (v_state current) (v_import_source current) (v_goal current)
              sequence (Some revision) (Some (pending_copy plan)) (Some sequence) false [], ident)
  | None =>
      fail_if (v_plan_accepted current
               || negb (bool_decide (pc_proposal_sequence command = v_plan_fact_sequence current)))
              (Refused Refusals.Conflict) ;;
      plan ← ok_or (v_plan current) (Refused Refusals.NotFound);
      ident ← validate_goal_plan plan;
      mret (mkDefinition (v_binding current) (v_state current) (v_import_source current) (v_goal current)
              sequence (v_plan_revision current) (v_plan current) (v_plan_fact_sequence current) true
              (v_waits current), ident)
  end.

(** Decoding a plan validates it ([deserialize_plan]). *)
Definition decode_plan (p : Payload) : option (GoalFact PlanBody) :=
  match p with
  | PPlan f => match pb_plan (gf_body f) with
               | None => Some f
               | Some plan => match validate_goal_plan plan with Good _ => Some f | Bad _ => None end
               end
  | _ => None
  end.

Definition plan_command (stored : GoalFact PlanBody) (proposed : bool) (workspace : WorkspaceRef)
    : GoalPlanCommandV1 :=
  let body := gf_body stored in
  mkPlanCommand (if proposed then Commands.ProposePlan else Commands.AcceptPlan)
    (gf_operation_id stored) (gf_goal_id stored) (gf_session_id stored) workspace
    (gf_work_policy_digest stored) (pb_expected_goal_revision body) (pb_expected_plan_revision body)
    (pb_expected_goal_sequence body) (pb_plan body) (pb_proposal_sequence body).

Definition fold_plan (fact : Fact) (current : option DurableGoalDefinitionV1) (session_id : str)
    (workspace : WorkspaceRef) (policy_digest : option str)
    : GoalResult (str * str * DurableGoalDefinitionV1) :=
  current ← ok_or current (Refused Refusals.NotFound);
  stored ← ok_or (decode_plan (f_payload fact)) (Refused Refusals.Conflict);
  validate_source stored fact session_id policy_digest (Some current) ;;
  let command := plan_command stored (str_eqb (f_kind fact) (fact_kind_as_str Kinds.PlanProposed))
                              workspace in
  r ← plan_transition current command (f_seq fact);
  let '(view, ident) := r in
  fail_if (negb (gf_goal_revision stored =? b_goal_revision (v_binding current))
           || negb (bool_decide (gf_plan_revision stored = v_plan_revision view))
           || negb (bool_decide (pb_identity (gf_body stored) = ident))
           || negb (str_eqb (gf_command_digest stored) (command_digest (DPlan command))))
          (Refused Refusals.Conflict) ;;
  mret (gf_operation_id stored, gf_command_digest stored, view).

(** ** Control ([facts/control.rs]) *)
Definition control_validate_request (command : GoalControlCommandV1) : GoalResult unit :=
  validate_id "operation_id" (cc_operation_id command) ;;
  validate_id "goal_id" (cc_goal_id command) ;;
  validate_id "session_id" (cc_session_id command) ;;
  (match cc_kind command with
   | Commands.Pause | Commands.Resume | Commands.Cancel => Good tt
   | _ => refused Refusals.ConditionUnsupported
   end) ;;
  fail_if ((cc_expected_goal_revision command =? 0) || (cc_expected_goal_sequence command =? 0)
           || bool_decide (cc_expected_plan_revision command = Some 0)) (Refused Refusals.Conflict).

Definition control_transition (current : DurableGoalDefinitionV1) (command : GoalControlCommandV1)
    (sequence : Z) : GoalResult DurableGoalDefinitionV1 :=
  control_validate_request command ;;
  fail_if (terminal (v_state current)
           || negb (str_eqb (cc_goal_id command) (b_goal_id (v_binding current)))
           || negb (str_eqb (cc_session_id command) (b_session_id (v_binding current)))
           || negb (bool_decide (cc_workspace command = b_workspace (v_binding current)))
           || negb (bool_decide (cc_work_policy_digest command = b_work_policy_digest (v_binding current)))
           || negb (cc_expected_goal_revision command =? b_goal_revision (v_binding current))
           || negb (bool_decide (cc_expected_plan_revision command = v_plan_revision current))
           || negb (cc_expected_goal_sequence command =? v_goal_sequence current))
          (Refused Refusals.Conflict) ;;
  state ← (match cc_kind command, v_state current with
           | Commands.Pause, (States.Active | States.Waiting) => mret States.Paused
           | Commands.Resume, States.Paused => mret States.Active
           | Commands.Cancel, _ => mret States.Cancelled
           | _, _ => refused Refusals.Conflict
           end);
  mret (with_sequence sequence (with_state state current)).

Definition control_fact_kind (kind : GoalCommandKindV1) : GoalFactKindV1 :=
  match kind with
  | Commands.Pause => Kinds.Paused
  | Commands.Resume => Kinds.Resumed
  | _ => Kinds.Cancelled
  end.

Definition decode_control (p : Payload) : option (GoalFact ControlBody) :=
  match p with PControl f => Some f | _ => None end.

Definition control_command (stored : GoalFact ControlBody) (kind : GoalCommandKindV1)
    (workspace : WorkspaceRef) : GoalControlCommandV1 :=
  let body := gf_body stored in
  mkControlCommand kind (gf_operation_id stored) (gf_goal_id stored) (gf_session_id stored) workspace
    (gf_work_policy_digest stored) (cb_expected_goal_revision body) (cb_expected_plan_revision body)
    (cb_expected_goal_sequence body).

Definition fold_control (fact : Fact) (current : option DurableGoalDefinitionV1) (session_id : str)
    (workspace : WorkspaceRef) (policy_digest : option str)
    : GoalResult (str * str * DurableGoalDefinitionV1) :=
  current ← ok_or current (Refused Refusals.NotFound);
  stored ← ok_or (decode_control (f_payload fact)) (Refused Refusals.Conflict);
  validate_source stored fact session_id policy_digest (Some current) ;;
  kind ← ok_or (List.find (fun k => str_eqb (fact_kind_as_str (control_fact_kind k)) (f_kind fact))
                          [Commands.Pause; Commands.Resume; Commands.Cancel])
               (Refused Refusals.Conflict);
  let command := control_command stored kind workspace in
  view ← control_transition current command (f_seq fact);
  fail_if (negb (gf_goal_revision stored =? b_goal_revision (v_binding view))
           || negb (bool_decide (gf_plan_revision stored = v_plan_revision view))
           || negb (str_eqb (gf_command_digest stored) (command_digest (DControl command))))
          (Refused Refusals.Conflict) ;;
  mret (gf_operation_id stored, gf_command_digest stored, view).

(** ** Slices ([facts/run.rs], [facts/run/continuation.rs]) *)
Record ContinuationUsage : Type := mkContinuationUsage {
  u_admitted_slices : Z;
  u_slices_since_progress : Z;
  u_last_observed_unix_ms : Z;
  u_accepted_plan : option ExecutionIdentityV1;
  u_slice_plan : option ExecutionIdentityV1;
}.
Definition default_usage : ContinuationUsage := mkContinuationUsage 0 0 0 None None.

(** [ContinuationUsage::admit] *)
Definition usage_admit (u : ContinuationUsage) (source : ContinuationSource) : GoalResult ContinuationUsage :=
  fail_if (cs_observed_unix_ms source <? u_last_observed_unix_ms u) (Refused Refusals.Conflict) ;;
  check_limits (cs_policy source) (cs_observed_unix_ms source) (u_admitted_slices u) 0 ;;
  let stall := Zpos (cp_max_no_progress_slices (cs_policy source)) in
  let replanned := (u_slices_since_progress u =? stall)
                   && negb (bool_decide (u_accepted_plan u = u_slice_plan u)) in
  fail_if ((stall <=? u_slices_since_progress u) && negb replanned) (Refused Refusals.Waiting) ;;
  admitted ← ok_or (checked_add u64_max (u_admitted_slices u) 1) (Refused Refusals.BudgetExhausted);
  since ← ok_or (checked_add u64_max (u_slices_since_progress u) 1) (Refused Refusals.BudgetExhausted);
  mret (mkContinuationUsage admitted since (cs_observed_unix_ms source) (u_accepted_plan u)
                            (u_accepted_plan u)).

Definition decode_run (p : Payload) : option (GoalFact RunBody) :=
  match p with PRun f => Some f | _ => None end.

Definition matches_tick_run (facts : list Fact) (command : GoalControlCommandV1) : GoalResult bool :=
  key ← goal_fact_key (cc_goal_id command) (cc_operation_id command) Kinds.SliceAdmitted;
  match find_key key facts with
  | None => mret false
  | Some fact =>
      stored ← ok_or (decode_run (f_payload fact)) (Refused Refusals.Conflict);
      fail_if (negb (str_eqb (f_kind fact) (fact_kind_as_str Kinds.SliceAdmitted))
               || negb (bool_decide (cc_kind command = Commands.Tick))
               || negb (str_eqb (rb_run_id (gf_body stored)) (cc_operation_id command))
               || negb (str_eqb (gf_goal_id stored) (cc_goal_id command))
               || negb (str_eqb (gf_session_id stored) (cc_session_id command))
               || negb (bool_decide (gf_work_policy_digest stored = cc_work_policy_digest command))
               || negb (gf_goal_revision stored =? cc_expected_goal_revision command)
               || negb (bool_decide (gf_plan_revision stored = cc_expected_plan_revision command))
               || negb (rb_expected_goal_sequence (gf_body stored) =? cc_expected_goal_sequence command))
              (Refused Refusals.Conflict) ;;
      mret true
  end.

Definition current_step (view : DurableGoalDefinitionV1) : GoalResult Task :=
  if negb (v_plan_accepted view) then refused Refusals.HostDriverConflict
  else
    (match v_state view with
     | States.Active => Good tt
     | States.Paused => refused Refusals.Paused
     | States.Waiting => refused Refusals.Waiting
     | States.Cancelled | States.Completed => refused Refusals.Conflict
     end) ;;
    ok_or (head (ready_steps view)) (Refused Refusals.Waiting).

Definition run_digest (view : DurableGoalDefinitionV1) (body : RunBody) : str :=
  command_digest (DRun (v_binding view) (v_plan_revision view) body).

Definition fold_run (fact : Fact) (current : option DurableGoalDefinitionV1) (session_id : str)
    (workspace : WorkspaceRef) (policy_digest : option str) (usage : ContinuationUsage)
    : GoalResult (str * str * DurableGoalDefinitionV1 * ContinuationUsage) :=
  current ← ok_or current (Refused Refusals.NotFound);
  stored ← ok_or (decode_run (f_payload fact)) (Refused Refusals.Conflict);
  validate_source stored fact session_id policy_digest (Some current) ;;
  let body := gf_body stored in
  validate_id "run_id" (rb_run_id body) ;;
  step ← current_step current;
  fail_if (negb (bool_decide (b_workspace (v_binding current) = workspace))
           || negb (str_eqb (gf_operation_id stored) (rb_run_id body))
           || negb (str_eqb (gf_goal_id stored) (b_goal_id (v_binding current)))
           || negb (gf_goal_revision stored =? b_goal_revision (v_binding current))
           || negb (bool_decide (gf_plan_revision stored = v_plan_revision current))
           || negb (rb_expected_goal_sequence body =? v_goal_sequence current)
           || negb (bool_decide (Some (rb_plan_fact_sequence body) = v_plan_fact_sequence current))
           || negb (str_eqb (rb_step_id body) (t_id step))
           || negb (str_eqb (gf_command_digest stored) (run_digest current body)))
          (Refused Refusals.Conflict) ;;
  usage ← (match rb_continuation body with Some source => usage_admit usage source | None => mret usage end);
  mret (gf_operation_id stored, gf_command_digest stored, with_sequence (f_seq fact) current, usage).

(** ** Closeout ([facts/settle.rs]) *)
Definition settle_operation_id (run_id : str) : str :=
  digest_bytes $"a3s.code.goal-settle-operation.v1" run_id.
Definition step_operation_id (run_id : str) : str :=
  digest_bytes $"a3s.code.goal-step-operation.v1" run_id.
Definition complete_operation_id (goal_id : str) : str :=
  digest_bytes $"a3s.code.goal-complete-operation.v1" goal_id.

Definition is_kind (k : GoalFactKindV1) (f : Fact) : bool := str_eqb (f_kind f) (fact_kind_as_str k).

Definition slices (facts : list Fact) : list (Z * str * str) :=
  map (fun fact => match decode_run (f_payload fact) with
                   | Some stored => (f_seq fact, gf_goal_id stored, rb_run_id (gf_body stored))
                   | None => (f_seq fact, [], [])
                   end)
      (List.filter (is_kind Kinds.SliceAdmitted) facts).
Definition settled (facts : list Fact) (goal_id run_id : str) : bool :=
  match goal_fact_key goal_id (settle_operation_id run_id) Kinds.SliceSettled with
  | Good key => existsb (fun f => str_eqb (f_key f) key) facts
  | Bad _ => false
  end.
Definition unsettled_slices (facts : list Fact) : list str :=
  map (fun s => snd s)
      (List.filter (fun s => negb (settled facts (snd (fst s)) (snd s))) (slices facts)).
(** [wait::slice_unsettled] *)
Definition slice_unsettled (facts : list Fact) : bool :=
  negb (bool_decide (unsettled_slices facts = [])) || has_unsettled_effects facts.

Definition closeout_refs (facts : list Fact) (goal_id run_id : str) (run_sequence : Z)
    : GoalResult (option Z * option Z) :=
  let next := List.find (fun f => (run_sequence <? f_seq f) && is_kind Kinds.SliceAdmitted f) facts in
  let inside f := (run_sequence <? f_seq f)
                  && match next with Some e => f_seq f <? f_seq e | None => f_seq f <? u64_max end in
  step_key ← goal_fact_key goal_id (step_operation_id run_id) Kinds.StepAccepted;
  mret (fold_left (fun acc f =>
          if str_eqb (f_kind f) TURN_COMPLETE_FACT_KIND then (Some (f_seq f), snd acc)
          else if str_eqb (f_key f) step_key then (fst acc, Some (f_seq f))
          else acc)
        (List.filter inside facts) (None, None)).

Definition settle_digest (view : DurableGoalDefinitionV1) (body : SettledBody) : str :=
  command_digest (DSettled (v_binding view) (v_plan_revision view) body).
Definition decode_settled (p : Payload) : option (GoalFact SettledBody) :=
  match p with PSettled f => Some f | _ => None end.

Definition fold_settle (fact : Fact) (current : option DurableGoalDefinitionV1) (facts : list Fact)
    (session_id : str) (workspace : WorkspaceRef) (policy_digest : option str)
    : GoalResult (str * str * DurableGoalDefinitionV1) :=
  current ← ok_or current (Refused Refusals.NotFound);
  stored ← ok_or (decode_settled (f_payload fact)) (Refused Refusals.Conflict);
  validate_source stored fact session_id policy_digest (Some current) ;;
  let prefix := before_seq (f_seq fact) facts in
  let body := gf_body stored in
  slice ← ok_or (find_seq (sb_run_sequence body) prefix) (Refused Refusals.Conflict);
  refs ← closeout_refs prefix (b_goal_id (v_binding current)) (sb_run_id body) (sb_run_sequence body);
  let consistent := match sb_outcome body with
                    | SliceCompleted => bool_decide (sb_completion_sequence body <> None)
                                        && bool_decide (sb_usage body <> None)
                    | SliceInterrupted => bool_decide (sb_usage body = None)
                    end in
  if negb (is_kind Kinds.SliceAdmitted slice) then refused Refusals.Conflict
  else
    slice_key ← goal_fact_key (b_goal_id (v_binding current)) (sb_run_id body) Kinds.SliceAdmitted;
    fail_if (negb (str_eqb (f_key slice) slice_key)
             || negb consistent
             || negb (bool_decide (refs = (sb_completion_sequence body, sb_step_sequence body)))
             || has_unsettled_effects prefix
             || negb (str_eqb (gf_goal_id stored) (b_goal_id (v_binding current)))
             || negb (gf_goal_revision stored =? b_goal_revision (v_binding current))
             || negb (bool_decide (gf_plan_revision stored = v_plan_revision current))
             || negb (bool_decide (b_workspace (v_binding current) = workspace))
             || negb (str_eqb (gf_operation_id stored) (settle_operation_id (sb_run_id body)))
             || negb (str_eqb (gf_command_digest stored) (settle_digest current body)))
            (Refused Refusals.Conflict) ;;
    mret (gf_operation_id stored, gf_command_digest stored, current).

(** ** Completion ([facts/complete.rs]) *)
Definition payload_goal_id (p : Payload) : option str :=
  match p with
  | PDefinition f => Some (gf_goal_id f) | PPlan f => Some (gf_goal_id f) | PRun f => Some (gf_goal_id f)
  | PSettled f => Some (gf_goal_id f) | PCompleted f => Some (gf_goal_id f)
  | PStep f => Some (gf_goal_id f) | PControl f => Some (gf_goal_id f) | PWait f => Some (gf_goal_id f)
  | POther j => jas_str (jindex $"goal_id" j)
  end.

(** The Run of an acceptance that judged the goal itself, read off the raw
    payload; no other body has a [closes_goal] field. *)
Definition closing_run (p : Payload) (goal_revision : Z) (plan_revision : option Z) : option str :=
  match p with
  | PStep f =>
      if tb_closes_goal (gf_body f) && (gf_goal_revision f =? goal_revision)
         && bool_decide (gf_plan_revision f = plan_revision)
      then Some (tb_run_id (gf_body f)) else None
  | POther j =>
      let body := jindex $"body" j in
      if bool_decide (jindex $"closes_goal" body = JBool true)
         && bool_decide (jas_u64 (jindex $"goal_revision" j) = Some goal_revision)
         && match plan_revision with
            | None => bool_decide (jindex $"plan_revision" j = JNull)
            | Some n => bool_decide (jas_u64 (jindex $"plan_revision" j) = Some n)
            end
      then jas_str (jindex $"run_id" body) else None
  | _ => None
  end.

Definition finished (view : DurableGoalDefinitionV1) : bool :=
  bool_decide (v_state view = States.Active) && v_plan_accepted view
  && match v_plan view with
     | Some plan => negb (bool_decide (p_steps plan = []))
                    && forallb (fun s => bool_decide (t_status s = Completed)) (p_steps plan)
     | None => false
     end
  && forallb (fun w => negb (wait_is_open w)) (v_waits view).

Definition closure (facts : list Fact) (view : DurableGoalDefinitionV1)
    : GoalResult (option CompletedBody) :=
  if negb (finished view) || negb (bool_decide (unsettled_slices facts = []))
     || has_unsettled_effects facts
  then mret None
  else
    let goal_id := b_goal_id (v_binding view) in
    match List.find (fun f => is_kind Kinds.StepAccepted f
                              && bool_decide (payload_goal_id (f_payload f) = Some goal_id))
                    (rev facts) with
    | None => mret None
    | Some step =>
        match closing_run (f_payload step) (b_goal_revision (v_binding view)) (v_plan_revision view) with
        | None => mret None
        | Some run_id =>
            key ← goal_fact_key goal_id (settle_operation_id run_id) Kinds.SliceSettled;
            mret (match find_key key facts with
                  | Some s => Some (mkCompletedBody (f_seq step) (f_seq s))
                  | None => None
                  end)
        end
    end.

Definition completion_ready (facts : list Fact) (view : DurableGoalDefinitionV1) : GoalResult bool :=
  c ← closure facts view; mret (match c with Some _ => true | None => false end).

Definition complete_digest (view : DurableGoalDefinitionV1) (body : CompletedBody) : str :=
  command_digest (DCompleted (v_binding view) (v_plan_revision view) body).
Definition decode_completed (p : Payload) : option (GoalFact CompletedBody) :=
  match p with PCompleted f => Some f | _ => None end.

Definition fold_complete (fact : Fact) (current : option DurableGoalDefinitionV1) (facts : list Fact)
    (session_id : str) (workspace : WorkspaceRef) (policy_digest : option str)
    : GoalResult (str * str * DurableGoalDefinitionV1) :=
  current ← ok_or current (Refused Refusals.NotFound);
  stored ← ok_or (decode_completed (f_payload fact)) (Refused Refusals.Conflict);
  validate_source stored fact session_id policy_digest (Some current) ;;
  expected ← closure (before_seq (f_seq fact) facts) current;
  fail_if (negb (bool_decide (expected = Some (gf_body stored)))
           || negb (str_eqb (gf_goal_id stored) (b_goal_id (v_binding current)))
           || negb (gf_goal_revision stored =? b_goal_revision (v_binding current))
           || negb (bool_decide (gf_plan_revision stored = v_plan_revision current))
           || negb (bool_decide (b_workspace (v_binding current) = workspace))
           || negb (str_eqb (gf_operation_id stored) (complete_operation_id (b_goal_id (v_binding current))))
           || negb (str_eqb (gf_command_digest stored) (complete_digest current (gf_body stored))))
          (Refused Refusals.Conflict) ;;
  mret (gf_operation_id stored, gf_command_digest stored,
        with_sequence (f_seq fact) (with_state States.Completed current)).

(** ** Accepted steps ([facts/step.rs]) *)
Definition closes_goal (view : DurableGoalDefinitionV1) : bool :=
  match current_step view with
  | Good current =>
      match v_plan view with
      | Some plan => forallb (fun s => str_eqb (t_id s) (t_id current)
                                       || bool_decide (t_status s = Completed)) (p_steps plan)
      | None => false
      end
  | Bad _ => false
  end.

Definition step_digest (view : DurableGoalDefinitionV1) (body : StepBody) : str :=
  command_digest (DStep (v_binding view) (v_plan_revision view) body).
Definition decode_step (p : Payload) : option (GoalFact StepBody) :=
  match p with PStep f => Some f | _ => None end.

Definition bound_run (facts : list Fact) (view : DurableGoalDefinitionV1) (run_id : str)
    : GoalResult Fact :=
  fact ← ok_or (find_seq (v_goal_sequence view) facts) (Refused Refusals.EvidenceStale);
  stored ← ok_or (decode_run (f_payload fact)) (Refused Refusals.EvidenceStale);
  if negb (is_kind Kinds.SliceAdmitted fact) || negb (str_eqb (rb_run_id (gf_body stored)) run_id)
  then refused Refusals.EvidenceStale
  else
    step ← current_step view;
    fail_if (negb (str_eqb (rb_step_id (gf_body stored)) (t_id step))) (Refused Refusals.EvidenceStale) ;;
    mret fact.

Definition check_step_run (facts : list Fact) (view : DurableGoalDefinitionV1) (step_id run_id : str)
    : GoalResult unit :=
  bound_run facts view run_id ;;
  step ← current_step view;
  fail_if (negb (str_eqb (t_id step) step_id)) (Refused Refusals.EvidenceStale).

Definition payload_json (p : Payload) : json := match p with POther j => j | _ => JNull end.

Definition fold_step (fact : Fact) (current : option DurableGoalDefinitionV1) (facts : list Fact)
    (session_id : str) (workspace : WorkspaceRef) (policy_digest : option str)
    : GoalResult (str * str * DurableGoalDefinitionV1 * list Report) :=
  current ← ok_or current (Refused Refusals.NotFound);
  stored ← ok_or (decode_step (f_payload fact)) (Refused Refusals.EvidenceStale);
  validate_source stored fact session_id policy_digest (Some current) ;;
  let body := gf_body stored in
  finish ← ok_or (position (fun f => f_seq f =? tb_source_sequence body) facts)
                 (Refused Refusals.EvidenceStale);
  let prefix := take (S finish) facts in
  let '(cut_seq, cut_digest) := cut_log prefix in
  boundary ← ok_or (facts !! S finish) (Refused Refusals.ReceiptUnsettled);
  let previous := List.find (fun f => f_seq f <? f_seq fact) (rev facts) in
  let log_cut := jindex $"log_cut" (payload_json (f_payload boundary)) in
  if negb (str_eqb (tb_source_digest body) cut_digest)
     || negb (bool_decide (previous = Some boundary))
     || negb (str_eqb (f_kind boundary) TURN_COMPLETE_FACT_KIND)
     || negb (bool_decide (jas_u64 (jindex $"seq" log_cut) = Some cut_seq))
     || negb (bool_decide (jas_str (jindex $"digest" log_cut) = Some cut_digest))
     || negb (tb_run_sequence body =? v_goal_sequence current)
  then refused Refusals.EvidenceStale
  else
    step ← current_step current;
    if negb (str_eqb (tb_step_id body) (t_id step)) || (tb_closes_goal body && negb (closes_goal current))
    then refused Refusals.EvidenceStale
    else
      plan ← ok_or (v_plan current) (Refused Refusals.EvidenceStale);
      ident ← definition_identity plan;
      fail_if (negb (bool_decide (tb_plan_identity body = ident))
               || negb (str_eqb (gf_goal_id stored) (b_goal_id (v_binding current)))
               || negb (gf_goal_revision stored =? b_goal_revision (v_binding current))
               || negb (bool_decide (gf_plan_revision stored = v_plan_revision current))
               || negb (bool_decide (b_workspace (v_binding current) = workspace))
               || negb (str_eqb (gf_operation_id stored) (step_operation_id (tb_run_id body)))
               || negb (str_eqb (gf_command_digest stored) (step_digest current body)))
              (Refused Refusals.EvidenceStale) ;;
      bound_run prefix current (tb_run_id body) ;;
      evidence ← ok_or (evidence_for_goal_step prefix (tb_run_sequence body) session_id (tb_run_id body)
                          (tb_attestation body)) (Refused Refusals.EvidenceStale);
      let view := with_sequence (f_seq fact)
                    (with_plan (Some (mark_status (tb_step_id body) Completed plan)) current) in
      mret (gf_operation_id stored, gf_command_digest stored, view, fst evidence).

(** ** Waits ([facts/wait.rs]) *)
Definition wait_validate_request (command : GoalWaitCommandV1) : GoalResult unit :=
  validate_id "operation_id" (wc_operation_id command) ;;
  validate_id "goal_id" (wc_goal_id command) ;;
  validate_id "session_id" (wc_session_id command) ;;
  validate_id "step_id" (wc_step_id command) ;;
  fail_if ((wc_expected_goal_revision command =? 0) || (wc_expected_goal_sequence command =? 0)
           || match wc_expected_plan_revision command with None => true | Some r => r =? 0 end)
          (Refused Refusals.Conflict) ;;
  match wc_kind command, wc_condition command, wc_evidence command with
  | Commands.DeclareWait, Some condition, None => condition_validate condition
  | Commands.ObserveWait, None, Some _ => Good tt
  | _, _, _ => refused Refusals.ConditionUnsupported
  end.

Definition wait_fact_kind (command : GoalWaitCommandV1) : GoalFactKindV1 :=
  if bool_decide (wc_kind command = Commands.DeclareWait) then Kinds.WaitDeclared else Kinds.WaitObserved.

(** Whether [evidence] satisfies [condition]: [None] is a quiet observation,
    [Some clock] an admitted one with the host clock it read. *)
Definition observe (condition : GoalWaitConditionV1) (evidence : GoalWaitEvidenceV1)
    (clock : option Z) (last_clock : Z) : GoalResult (option (option Z)) :=
  match condition, evidence with
  | CQuestionAnswer _, EQuestionAnswer answer =>
      validate_text "wait.answer" answer 4096 ;; mret (Some None)
  | CConfirmationAnswer _, EConfirmationAnswer _ => mret (Some None)
  | CSourceRevision subject after, ESourceRevision o =>
      validate_id "observation.digest" (eo_digest o) ;;
      fail_if (negb (str_eqb (eo_schema o) EXTERNAL_OBSERVATION_SCHEMA)
               || negb (str_eqb (eo_subject o) subject) || (8192 <? len (eo_payload o)))
              (Refused Refusals.Conflict) ;;
      mret (if str_eqb (eo_digest o) after then None else Some None)
  | CUtcDue due, EUtcDue =>
      now ← ok_or (match clock with Some n => if 0 <? n then Some n else None | None => None end)
                  (Refused Refusals.Conflict);
      fail_if (now <? last_clock) (Refused Refusals.Conflict) ;;
      mret (if now <? Zpos due then None else Some (Some now))
  | _, _ => refused Refusals.ConditionUnsupported
  end.

Definition set_observed (index : nat) (o : GoalWaitObservationV1) (ws : list GoalWaitV1)
    : list GoalWaitV1 :=
  alter (fun w => mkWait (w_step_id w) (w_declared_sequence w) (w_condition w) (Some o)) index ws.

Definition wait_transition (current : DurableGoalDefinitionV1) (command : GoalWaitCommandV1)
    (sequence : Z) (clock : option Z) (last_clock : Z)
    : GoalResult (option DurableGoalDefinitionV1) :=
  wait_validate_request command ;;
  fail_if (negb (bool_decide (v_state current = States.Active))
           || negb (v_plan_accepted current)
           || negb (str_eqb (wc_goal_id command) (b_goal_id (v_binding current)))
           || negb (str_eqb (wc_session_id command) (b_session_id (v_binding current)))
           || negb (bool_decide (wc_workspace command = b_workspace (v_binding current)))
           || negb (bool_decide (wc_work_policy_digest command = b_work_policy_digest (v_binding current)))
           || negb (wc_expected_goal_revision command =? b_goal_revision (v_binding current))
           || negb (bool_decide (wc_expected_plan_revision command = v_plan_revision current))
           || negb (wc_expected_goal_sequence command =? v_goal_sequence current))
          (Refused Refusals.Conflict) ;;
  fail_if (negb (match v_plan current with
                 | Some plan => existsb (fun s => str_eqb (t_id s) (wc_step_id command)
                                                  && negb (bool_decide (t_status s = Completed)))
                                        (p_steps plan)
                 | None => false
                 end)) (Refused Refusals.NotFound) ;;
  let view := with_sequence sequence current in
  match wc_condition command with
  | Some condition =>
      fail_if (match open_wait current (wc_step_id command) with Some _ => true | None => false end)
              (Refused Refusals.Conflict) ;;
      mret (Some (with_waits (v_waits view ++ [mkWait (wc_step_id command) sequence condition None]) view))
  | None =>
      evidence ← ok_or (wc_evidence command) (Refused Refusals.ConditionUnsupported);
      index ← ok_or (position (fun w => str_eqb (w_step_id w) (wc_step_id command) && wait_is_open w)
                              (v_waits view)) (Refused Refusals.Conflict);
      wait ← ok_or (v_waits view !! index) (Refused Refusals.Conflict);
      observed ← observe (w_condition wait) evidence clock last_clock;
      mret (match observed with
            | None => None
            | Some at_ => Some (with_waits (set_observed index (mkWaitObservation sequence evidence at_)
                                                         (v_waits view)) view)
            end)
  end.

Definition decode_wait (p : Payload) : option (GoalFact WaitBody) :=
  match p with PWait f => Some f | _ => None end.
Definition wait_command (stored : GoalFact WaitBody) (declared : bool) (workspace : WorkspaceRef)
    : GoalWaitCommandV1 :=
  let body := gf_body stored in
  mkWaitCommand (if declared then Commands.DeclareWait else Commands.ObserveWait)
    (gf_operation_id stored) (gf_goal_id stored) (gf_session_id stored) workspace
    (gf_work_policy_digest stored) (wb_expected_goal_revision body) (wb_expected_plan_revision body)
    (wb_expected_goal_sequence body) (wb_step_id body) (wb_condition body) (wb_evidence body).

(** [facts[..facts.partition_point(|f| f.seq < seq)]] on a log in order. *)
Fixpoint prefix_below (seq : Z) (facts : list Fact) : list Fact :=
  match facts with
  | f :: rest => if f_seq f <? seq then f :: prefix_below seq rest else []
  | [] => []
  end.

Definition is_due (e : option GoalWaitEvidenceV1) : bool :=
  match e with Some EUtcDue => true | _ => false end.

Definition fold_wait (fact : Fact) (facts : list Fact) (current : option DurableGoalDefinitionV1)
    (session_id : str) (workspace : WorkspaceRef) (policy_digest : option str) (last_clock : Z)
    : GoalResult (str * str * DurableGoalDefinitionV1 * Z) :=
  current ← ok_or current (Refused Refusals.NotFound);
  stored ← ok_or (decode_wait (f_payload fact)) (Refused Refusals.Conflict);
  validate_source stored fact session_id policy_digest (Some current) ;;
  let command := wait_command stored (is_kind Kinds.WaitDeclared fact) workspace in
  let clock := wb_observed_unix_ms (gf_body stored) in
  fail_if (slice_unsettled (prefix_below (f_seq fact) facts)
           || negb (Bool.eqb (bool_decide (clock <> None)) (is_due (wc_evidence command))))
          (Refused Refusals.Conflict) ;;
  view ← wait_transition current command (f_seq fact) clock last_clock;
  view ← ok_or view (Refused Refusals.Conflict);
  fail_if (negb (gf_goal_revision stored =? b_goal_revision (v_binding view))
           || negb (bool_decide (gf_plan_revision stored = v_plan_revision view))
           || negb (str_eqb (gf_command_digest stored) (command_digest (DWait command))))
          (Refused Refusals.Conflict) ;;
  mret (gf_operation_id stored, gf_command_digest stored, view,
        match clock with Some c => c | None => last_clock end).

(** ** The projection ([fold_definitions]) *)
Record FoldedDefinitions : Type := mkFolded {
  fd_current : option DurableGoalDefinitionV1;
  fd_replay : option (str * DurableGoalDefinitionV1);
  fd_continuation : ContinuationUsage;
  fd_operations : list str;
}.
Definition empty_fold : FoldedDefinitions := mkFolded None None default_usage [].

Definition set_since (n : Z) (u : ContinuationUsage) : ContinuationUsage :=
  mkContinuationUsage (u_admitted_slices u) n (u_last_observed_unix_ms u) (u_accepted_plan u) (u_slice_plan u).
Definition set_last_observed (n : Z) (u : ContinuationUsage) : ContinuationUsage :=
  mkContinuationUsage (u_admitted_slices u) (u_slices_since_progress u) n (u_accepted_plan u) (u_slice_plan u).
Definition set_accepted (i : option ExecutionIdentityV1) (u : ContinuationUsage) : ContinuationUsage :=
  mkContinuationUsage (u_admitted_slices u) (u_slices_since_progress u) (u_last_observed_unix_ms u) i
                      (u_slice_plan u).

Definition is_goal_fact (f : Fact) : bool :=
  starts_with (f_kind f) $"a3s.goal." || starts_with (f_key f) $"goal/".

(** The [match fact_kind] of the loop: operation, digest, view and usage. *)
Definition fold_kind (kind : GoalFactKindV1) (fact : Fact) (facts : list Fact)
    (session_id : str) (workspace : WorkspaceRef) (policy_digest : option str)
    (current : option DurableGoalDefinitionV1) (usage : ContinuationUsage)
    : GoalResult (str * str * DurableGoalDefinitionV1 * ContinuationUsage) :=
  match kind with
  | Kinds.Created =>
      r ← fold_definition fact Commands.Create facts current session_id workspace policy_digest;
      mret (r, usage)
  | Kinds.Revised =>
      r ← fold_definition fact Commands.Revise facts current session_id workspace policy_digest;
      mret (r, usage)
  | Kinds.PlanProposed | Kinds.PlanAccepted =>
      r ← fold_plan fact current session_id workspace policy_digest; mret (r, usage)
  | Kinds.SliceAdmitted => fold_run fact current session_id workspace policy_digest usage
  | Kinds.SliceSettled =>
      r ← fold_settle fact current facts session_id workspace policy_digest; mret (r, usage)
  | Kinds.Completed =>
      r ← fold_complete fact current facts session_id workspace policy_digest; mret (r, usage)
  | Kinds.StepAccepted =>
      r ← fold_step fact current facts session_id workspace policy_digest;
      mret (fst r, set_since 0 usage)
  | Kinds.Paused | Kinds.Resumed | Kinds.Cancelled =>
      r ← fold_control fact current session_id workspace policy_digest; mret (r, usage)
  | Kinds.WaitDeclared | Kinds.WaitObserved =>
      r ← fold_wait fact facts current session_id workspace policy_digest (u_last_observed_unix_ms usage);
      mret (fst r, set_last_observed (snd r) usage)
  end.

Definition fold_one (facts : list Fact) (session_id : str) (workspace : WorkspaceRef)
    (policy_digest operation : option str) (st : FoldedDefinitions) (fact : Fact)
    : GoalResult FoldedDefinitions :=
  kind ← fact_kind_parse (f_kind fact);
  r ← fold_kind kind fact facts session_id workspace policy_digest (fd_current st) (fd_continuation st);
  let '(operation_id, digest, view, usage) := r in
  if existsb (str_eqb operation_id) (fd_operations st) then refused Refusals.Conflict
  else
    usage ← (if bool_decide (kind = Kinds.PlanAccepted) then
               match v_plan view with
               | Some plan => i ← definition_identity plan; mret (set_accepted (Some i) usage)
               | None => mret (set_accepted None usage)
               end
             else mret usage);
    mret (mkFolded (Some view)
                   (if bool_decide (operation = Some operation_id) then Some (digest, view)
                    else fd_replay st)
                   usage (operation_id :: fd_operations st)).

Fixpoint fold_facts (step : FoldedDefinitions -> Fact -> GoalResult FoldedDefinitions)
    (st : FoldedDefinitions) (l : list Fact) : GoalResult FoldedDefinitions :=
  match l with
  | [] => mret st
  | f :: rest => if is_goal_fact f then st ← step st f; fold_facts step st rest
                 else fold_facts step st rest
  end.

Definition fold_definitions (facts : list Fact) (session_id : str) (workspace : WorkspaceRef)
    (policy_digest operation : option str) : GoalResult FoldedDefinitions :=
  fold_facts (fold_one facts session_id workspace policy_digest operation) empty_fold facts.

Definition definition_from_facts (facts : list Fact) (session_id : str) (workspace : WorkspaceRef)
    (policy_digest : option str) : GoalResult (option DurableGoalDefinitionV1) :=
  st ← fold_definitions facts session_id workspace policy_digest None; mret (fd_current st).

Definition check_continuation (facts : list Fact) (session_id : str) (workspace : WorkspaceRef)
    (policy_digest : option str) (source : ContinuationSource) : GoalResult unit :=
  check_admission (cs_policy source) (cs_observed_unix_ms source) ;;
  st ← fold_definitions facts session_id workspace policy_digest None;
  _ ← usage_admit (fd_continuation st) source;
  mret tt.

(** ** Preparing facts *)
Definition new_fact (goal_id operation_id : str) (kind : GoalFactKindV1) (payload : Payload)
    : GoalResult NewFact :=
  key ← goal_fact_key goal_id operation_id kind;
  mret (mkNewFact (fact_kind_as_str kind) key payload).

Definition prepare_definition (facts : list Fact) (session_id : str) (workspace : WorkspaceRef)
    (policy_digest : option str) (command : GoalDefinitionCommandV1) : GoalResult PreparedDefinition :=
  fail_if (negb (str_eqb (dc_session_id command) session_id)
           || negb (bool_decide (dc_workspace command = workspace))) (Refused Refusals.NotFound) ;;
  fail_if (negb (bool_decide (dc_work_policy_digest command = policy_digest))) (Refused Refusals.Conflict) ;;
  binding_for command 1 ;;
  let digest := command_digest (DDefinition command) in
  st ← fold_definitions facts session_id workspace policy_digest (Some (dc_operation_id command));
  match fd_replay st with
  | Some (stored, definition) =>
      fail_if (negb (str_eqb stored digest)) (Refused Refusals.Conflict) ;;
      mret (mkPrepared None definition)
  | None =>
      fail_if (existsb (fun sequence => negb (existsb (fun f => f_seq f =? sequence) facts))
                       (dc_scope_fact_sequences command)) (Refused Refusals.NotFound) ;;
      revision ← next_revision command (fd_current st);
      binding ← binding_for command revision;
      let kind := if bool_decide (dc_kind command = Commands.Create) then Kinds.Created else Kinds.Revised in
      let stored := mkGoalFact GOAL_FACT_SCHEMA_V1 session_id (dc_goal_id command) (dc_operation_id command)
        digest revision (plan_revision_of (fd_current st)) (dc_work_policy_digest command)
        (mkDefinitionBody binding (dc_goal command) (dc_expected_goal_revision command)
           (dc_expected_plan_revision command) (dc_expected_goal_sequence command)
           (dc_import_source command)) in
      fact ← new_fact (dc_goal_id command) (dc_operation_id command) kind (PDefinition stored);
      mret (mkPrepared (Some fact) (definition_view stored 0 (fd_current st)))
  end.

Definition prepare_plan (facts : list Fact) (session_id : str) (workspace : WorkspaceRef)
    (policy_digest : option str) (command : GoalPlanCommandV1) : GoalResult PreparedDefinition :=
  fail_if (negb (str_eqb (pc_session_id command) session_id)
           || negb (bool_decide (pc_workspace command = workspace))) (Refused Refusals.NotFound) ;;
  fail_if (negb (bool_decide (pc_work_policy_digest command = policy_digest))) (Refused Refusals.Conflict) ;;
  plan_validate_request command ;;
  let digest := command_digest (DPlan command) in
  st ← fold_definitions facts session_id workspace policy_digest (Some (pc_operation_id command));
  match fd_replay st with
  | Some (stored, definition) =>
      fail_if (negb (str_eqb stored digest)) (Refused Refusals.Conflict) ;;
      mret (mkPrepared None definition)
  | None =>
      current ← ok_or (fd_current st) (Refused Refusals.NotFound);
      r ← plan_transition current command 0;
      let '(view, ident) := r in
      let kind := if bool_decide (pc_kind command = Commands.ProposePlan)
                  then Kinds.PlanProposed else Kinds.PlanAccepted in
      let stored := mkGoalFact GOAL_FACT_SCHEMA_V1 session_id (pc_goal_id command) (pc_operation_id command)
        digest (b_goal_revision (v_binding current)) (v_plan_revision view) (pc_work_policy_digest command)
        (mkPlanBody (pc_plan command) ident (pc_proposal_sequence command)
           (pc_expected_goal_revision command) (pc_expected_plan_revision command)
           (pc_expected_goal_sequence command)) in
      fact ← new_fact (pc_goal_id command) (pc_operation_id command) kind (PPlan stored);
      mret (mkPrepared (Some fact) view)
  end.

Definition prepare_control (facts : list Fact) (session_id : str) (workspace : WorkspaceRef)
    (policy_digest : option str) (command : GoalControlCommandV1) : GoalResult PreparedDefinition :=
  fail_if (negb (str_eqb (cc_session_id command) session_id)
           || negb (bool_decide (cc_workspace command = workspace))) (Refused Refusals.NotFound) ;;
  fail_if (negb (bool_decide (cc_work_policy_digest command = policy_digest))) (Refused Refusals.Conflict) ;;
  control_validate_request command ;;
  let digest := command_digest (DControl command) in
  st ← fold_definitions facts session_id workspace policy_digest (Some (cc_operation_id command));
  match fd_replay st with
  | Some (stored, definition) =>
      fail_if (negb (str_eqb stored digest)) (Refused Refusals.Conflict) ;;
      mret (mkPrepared None definition)
  | None =>
      current ← ok_or (fd_current st) (Refused Refusals.NotFound);
      view ← control_transition current command 0;
      let stored := mkGoalFact GOAL_FACT_SCHEMA_V1 session_id (cc_goal_id command) (cc_operation_id command)
        digest (b_goal_revision (v_binding current)) (v_plan_revision current) (cc_work_policy_digest command)
        (mkControlBody (cc_expected_goal_revision command) (cc_expected_plan_revision command)
           (cc_expected_goal_sequence command)) in
      fact ← new_fact (cc_goal_id command) (cc_operation_id command) (control_fact_kind (cc_kind command))
                      (PControl stored);
      mret (mkPrepared (Some fact) view)
  end.

Definition prepare_wait (facts : list Fact) (session_id : str) (workspace : WorkspaceRef)
    (policy_digest : option str) (command : GoalWaitCommandV1) (now : Z)
    : GoalResult (bool * PreparedDefinition) :=
  fail_if (negb (str_eqb (wc_session_id command) session_id)
           || negb (bool_decide (wc_workspace command = workspace))) (Refused Refusals.NotFound) ;;
  fail_if (negb (bool_decide (wc_work_policy_digest command = policy_digest))) (Refused Refusals.Conflict) ;;
  wait_validate_request command ;;
  let digest := command_digest (DWait command) in
  st ← fold_definitions facts session_id workspace policy_digest (Some (wc_operation_id command));
  match fd_replay st with
  | Some (stored, definition) =>
      fail_if (negb (str_eqb stored digest)) (Refused Refusals.Conflict) ;;
      mret (true, mkPrepared None definition)
  | None =>
      current ← ok_or (fd_current st) (Refused Refusals.NotFound);
      fail_if (slice_unsettled facts) (Refused Refusals.ReceiptUnsettled) ;;
      let clock := if is_due (wc_evidence command) then Some now else None in
      view ← wait_transition current command 0 clock (u_last_observed_unix_ms (fd_continuation st));
      match view with
      | None => mret (false, mkPrepared None current)
      | Some view =>
          let stored := mkGoalFact GOAL_FACT_SCHEMA_V1 session_id (wc_goal_id command)
            (wc_operation_id command) digest (b_goal_revision (v_binding current)) (v_plan_revision current)
            (wc_work_policy_digest command)
            (mkWaitBody (wc_expected_goal_revision command) (wc_expected_plan_revision command)
               (wc_expected_goal_sequence command) (wc_step_id command) (wc_condition command)
               (wc_evidence command) clock) in
          fact ← new_fact (wc_goal_id command) (wc_operation_id command) (wait_fact_kind command)
                          (PWait stored);
          mret (true, mkPrepared (Some fact) view)
      end
  end.

Definition prepare_run (facts : list Fact) (session_id : str) (workspace : WorkspaceRef)
    (policy_digest : option str) (run_id : option str) (continuation : option ContinuationSource)
    : GoalResult (option PreparedDefinition) :=
  st ← fold_definitions facts session_id workspace policy_digest run_id;
  match fd_current st with
  | None => match continuation with Some _ => refused Refusals.NotFound | None => mret None end
  | Some current =>
      run_id ← ok_or run_id (Refused Refusals.HostDriverConflict);
      validate_id "run_id" run_id ;;
      step ← current_step current;
      match fd_replay st with
      | Some (_, prior) =>
          key ← goal_fact_key (b_goal_id (v_binding current)) run_id Kinds.SliceAdmitted;
          let original := find_key key facts in
          fail_if (bool_decide (original = None)
                   || negb (v_goal_sequence prior =? v_goal_sequence current)) (Refused Refusals.Conflict) ;;
          stored ← ok_or (match original with Some f => decode_run (f_payload f) | None => None end)
                         (Refused Refusals.Conflict);
          fail_if (negb (bool_decide (rb_continuation (gf_body stored) = continuation)))
                  (Refused Refusals.Conflict) ;;
          mret (Some (mkPrepared None current))
      | None =>
          (match continuation with
           | Some source =>
               check_admission (cs_policy source) (cs_observed_unix_ms source) ;;
               _ ← usage_admit (fd_continuation st) source; mret tt
           | None => mret tt
           end) ;;
          plan_seq ← ok_or (v_plan_fact_sequence current) (Refused Refusals.Conflict);
          let body := mkRunBody run_id (t_id step) (v_goal_sequence current) plan_seq continuation in
          let stored := mkGoalFact GOAL_FACT_SCHEMA_V1 session_id (b_goal_id (v_binding current)) run_id
            (run_digest current body) (b_goal_revision (v_binding current)) (v_plan_revision current)
            (b_work_policy_digest (v_binding current)) body in
          fact ← new_fact (b_goal_id (v_binding current)) run_id Kinds.SliceAdmitted (PRun stored);
          mret (Some (mkPrepared (Some fact) current))
      end
  end.

Definition prepare_settlement (facts : list Fact) (session_id : str) (workspace : WorkspaceRef)
    (policy_digest : option str) (run_id : str) (usage : option TokenUsage) : GoalResult (option NewFact) :=
  v ← definition_from_facts facts session_id workspace policy_digest;
  match v with
  | None => mret None
  | Some view =>
      let goal_id := b_goal_id (v_binding view) in
      match List.find (fun s => str_eqb (snd (fst s)) goal_id && str_eqb (snd s) run_id) (slices facts) with
      | None => mret None
      | Some (run_sequence, _, _) =>
          if settled facts goal_id run_id then mret None
          else
            fail_if (has_unsettled_effects facts) (Refused Refusals.ReceiptUnsettled) ;;
            refs ← closeout_refs facts goal_id run_id run_sequence;
            let '(completion, step) := refs in
            let '(outcome, usage) := match completion, usage with
                                     | Some _, Some usage => (SliceCompleted, Some usage)
                                     | _, _ => (SliceInterrupted, None)
                                     end in
            let body := mkSettledBody run_id run_sequence outcome completion step usage in
            let operation := settle_operation_id run_id in
            let stored := mkGoalFact GOAL_FACT_SCHEMA_V1 session_id goal_id operation
              (settle_digest view body) (b_goal_revision (v_binding view)) (v_plan_revision view)
              (b_work_policy_digest (v_binding view)) body in
            fact ← new_fact goal_id operation Kinds.SliceSettled (PSettled stored);
            mret (Some fact)
      end
  end.

Fixpoint settle_each (facts : list Fact) (session_id : str) (workspace : WorkspaceRef)
    (policy_digest : option str) (runs : list str) : GoalResult (list NewFact) :=
  match runs with
  | [] => mret []
  | run_id :: rest =>
      fact ← prepare_settlement facts session_id workspace policy_digest run_id None;
      more ← settle_each facts session_id workspace policy_digest rest;
      mret (match fact with Some f => f :: more | None => more end)
  end.
Definition reconcile_slices (facts : list Fact) (session_id : str) (workspace : WorkspaceRef)
    (policy_digest : option str) : GoalResult (list NewFact) :=
  settle_each facts session_id workspace policy_digest (unsettled_slices facts).

Definition prepare_completion (facts : list Fact) (session_id : str) (workspace : WorkspaceRef)
    (policy_digest : option str) : GoalResult (option NewFact) :=
  v ← definition_from_facts facts session_id workspace policy_digest;
  match v with
  | None => mret None
  | Some view =>
      c ← closure facts view;
      match c with
      | None => mret None
      | Some body =>
          let goal_id := b_goal_id (v_binding view) in
          let operation := complete_operation_id goal_id in
          let stored := mkGoalFact GOAL_FACT_SCHEMA_V1 session_id goal_id operation
            (complete_digest view body) (b_goal_revision (v_binding view)) (v_plan_revision view)
            (b_work_policy_digest (v_binding view)) body in
          fact ← new_fact goal_id operation Kinds.Completed (PCompleted stored);
          mret (Some fact)
      end
  end.

Definition prepare_step (facts : list Fact) (session_id : str) (workspace : WorkspaceRef)
    (policy_digest : option str) (run_id : str) (attestation : option Report)
    : GoalResult (option (PreparedDefinition * list Report * str)) :=
  v ← definition_from_facts facts session_id workspace policy_digest;
  match v with
  | None => mret None
  | Some view =>
      run ← bound_run facts view run_id;
      match evidence_for_goal_step facts (f_seq run) session_id run_id attestation with
      | None => mret None
      | Some (reports, evidence) =>
          step ← current_step view;
          plan ← ok_or (v_plan view) (Refused Refusals.EvidenceStale);
          ident ← definition_identity plan;
          let '(cut_seq, cut_digest) := cut_log facts in
          let body := mkStepBody run_id (t_id step) (f_seq run) ident cut_seq cut_digest attestation
                                 (closes_goal view) in
          let operation := step_operation_id run_id in
          let stored := mkGoalFact GOAL_FACT_SCHEMA_V1 session_id (b_goal_id (v_binding view)) operation
            (step_digest view body) (b_goal_revision (v_binding view)) (v_plan_revision view)
            (b_work_policy_digest (v_binding view)) body in
          fact ← new_fact (b_goal_id (v_binding view)) operation Kinds.StepAccepted (PStep stored);
          mret (Some (mkPrepared (Some fact) view, reports, evidence))
      end
  end.

(** The fact the log makes of a pending one. *)
Definition append_fact (seq : Z) (n : NewFact) : Fact := mkFact seq (n_kind n) (n_key n) false (n_payload n).
Definition last_seq (facts : list Fact) : Z := List.last (map f_seq facts) 0.

Definition validate_step_append (facts : list Fact) (pending : NewFact) (session_id : str)
    (workspace : WorkspaceRef) (policy_digest : option str) : GoalResult (list Report) :=
  current ← definition_from_facts facts session_id workspace policy_digest;
  seq ← ok_or (checked_add u64_max (last_seq facts) 1) (Refused Refusals.Conflict);
  r ← fold_step (append_fact seq pending) current facts session_id workspace policy_digest;
  mret (snd r).

Definition refuse_unbound_goal_execution (facts : list Fact) : GoalResult unit :=
  fail_if (existsb (fun f => starts_with (f_kind f) $"a3s.goal.") facts)
          (Refused Refusals.HostDriverConflict).

(** ** Ticks ([continuation.rs]) *)
Definition payload_operation_id (p : Payload) : option str :=
  match p with
  | PDefinition f => Some (gf_operation_id f) | PPlan f => Some (gf_operation_id f)
  | PRun f => Some (gf_operation_id f) | PSettled f => Some (gf_operation_id f)
  | PCompleted f => Some (gf_operation_id f) | PStep f => Some (gf_operation_id f)
  | PControl f => Some (gf_operation_id f) | PWait f => Some (gf_operation_id f)
  | POther j => jas_str (jindex $"operation_id" j)
  end.

Definition preview_tick (facts : list Fact) (session_id : str) (workspace : WorkspaceRef)
    (policy_digest : option str) (command : GoalControlCommandV1) (original_run_unsettled : bool)
    (continuation : option ContinuationSource) : GoalResult GoalTickDecisionV1 :=
  validate_id "operation_id" (cc_operation_id command) ;;
  fail_if (negb (bool_decide (cc_kind command = Commands.Tick))) (Refused Refusals.ConditionUnsupported) ;;
  fail_if (negb (str_eqb (cc_session_id command) session_id)
           || negb (bool_decide (cc_workspace command = workspace))) (Refused Refusals.NotFound) ;;
  v ← definition_from_facts facts session_id workspace policy_digest;
  view ← ok_or (match v with
                | Some view => if str_eqb (b_goal_id (v_binding view)) (cc_goal_id command)
                               then Some view else None
                | None => None
                end) (Refused Refusals.NotFound);
  fail_if (negb (bool_decide (cc_work_policy_digest command = policy_digest))) (Refused Refusals.Conflict) ;;
  replay ← matches_tick_run facts command;
  if (replay : bool) then mret Ticks.Reconcile
  else
    fail_if (existsb (fun f => starts_with (f_kind f) $"a3s.goal."
                               && bool_decide (payload_operation_id (f_payload f)
                                               = Some (cc_operation_id command))) facts)
            (Refused Refusals.Conflict) ;;
    if original_run_unsettled || slice_unsettled facts then mret Ticks.Reconcile
    else
      fail_if (negb (cc_expected_goal_revision command =? b_goal_revision (v_binding view))
               || negb (bool_decide (cc_expected_plan_revision command = v_plan_revision view))
               || negb (cc_expected_goal_sequence command =? v_goal_sequence view))
              (Refused Refusals.Conflict) ;;
      match v_state view with
      | States.Paused => mret Ticks.Paused
      | States.Waiting => mret Ticks.Wait
      | States.Completed => mret Ticks.Complete
      | States.Cancelled => refused Refusals.Conflict
      | States.Active =>
          if negb (v_plan_accepted view) then mret Ticks.NeedsInput
          else if bool_decide (map t_id (ready_steps view) = []) then
            ready ← completion_ready facts view;
            if (ready : bool) then mret Ticks.Reconcile
            else
              let open := List.filter wait_is_open (v_waits view) in
              let needs_input :=
                bool_decide (length open = 0%nat)
                || existsb (fun w => match condition_kind (w_condition w) with
                                     | Waits.QuestionAnswer | Waits.ConfirmationAnswer => true
                                     | _ => false
                                     end) open in
              mret (if needs_input then Ticks.NeedsInput else Ticks.Wait)
          else match continuation with
               | None => mret Ticks.BudgetExhausted
               | Some source =>
                   match check_continuation facts session_id workspace policy_digest source with
                   | Good _ => mret Ticks.Advance
                   | Bad (Refused Refusals.BudgetExhausted) => mret Ticks.BudgetExhausted
                   | Bad (Refused Refusals.Waiting) => mret Ticks.NeedsInput
                   | Bad e => Bad e
                   end
               end
      end.
End Log.
