(* ===== verification/GoalPlanFacts.v ===== *)
(** Plan validation: a plan is accepted exactly when its steps have distinct ids
    and an acyclic dependency graph, and the validation loop ends. *)
From S2P Require Import Prelude Text Planning PlanningFacts Goal.

(** ** The error monad *)
Lemma gbind_Good {A B} (m : GoalResult A) (f : A -> GoalResult B) b :
  (m ≫= f) = Good b -> exists a, m = Good a /\ f a = Good b.
Proof. destruct m; cbn; intros E; [by eexists|done]. Qed.
Lemma fail_if_Good c e u : fail_if c e = Good u -> c = false.
Proof. by destruct c. Qed.
Ltac gbind H x E := apply gbind_Good in H as (x & E & H).

(** ** Plans whose statuses are pending or completed *)
Definition two_valued (steps : list Task) : Prop :=
  Forall (fun s => t_status s = Pending \/ t_status s = Completed) steps.
Definition is_pending (s : Task) : bool := bool_decide (t_status s = Pending).

(** A ranking that decreases along dependencies of pending steps. *)
Definition ranked (rank : str -> nat) (steps : list Task) : Prop :=
  forall s d, In s steps -> t_status s = Pending -> In d (t_dependencies s) ->
    exists s', find_step d steps = Some s' /\ (t_status s' = Completed \/ (rank d < rank (t_id s))%nat).

Lemma pending_count_length p : pending_count p = length (List.filter is_pending (p_steps p)).
Proof. done. Qed.

Lemma exists_min {A} (f : A -> nat) (l : list A) : l <> [] ->
  exists a, In a l /\ forall b, In b l -> (f a <= f b)%nat.
Proof.
  induction l as [|x l IH]; [done|]. intros _. destruct l as [|y l].
  - exists x. split; [by left|]. intros b [->|[]]. done.
  - destruct IH as (a & Hin & Hmin); [done|]. destruct (le_lt_dec (f x) (f a)) as [Hle|Hlt].
    + exists x. split; [by left|]. intros b [->|Hb]; [done|]. pose proof (Hmin b Hb). lia.
    + exists a. split; [by right|]. intros b [->|Hb]; [lia|by apply Hmin].
Qed.

(** A ranked plan with a pending step has a ready one. *)
Lemma ranked_progress rank p :
  two_valued (p_steps p) -> List.NoDup (map t_id (p_steps p)) -> ranked rank (p_steps p) ->
  (0 < pending_count p)%nat -> get_ready_steps p <> [].
Proof.
  intros Htwo Hnd Hr Hp. rewrite pending_count_length in Hp.
  destruct (exists_min (fun s => rank (t_id s)) (List.filter is_pending (p_steps p))) as (s & Hin & Hmin).
  { intros E. rewrite E in Hp. cbn in Hp. lia. }
  apply List.filter_In in Hin as [Hin Hs]. apply bool_decide_eq_true in Hs.
  intros E. assert (Hx : In s (get_ready_steps p)); [|by rewrite E in Hx].
  apply List.filter_In. split; [done|]. unfold is_ready. rewrite bool_decide_true by done. cbn.
  apply forallb_forall. intros d Hd. destruct (Hr s d Hin Hs Hd) as (s' & Hf & Hor). rewrite Hf.
  apply bool_decide_eq_true. destruct Hor as [|Hlt]; [done|].
  destruct (find_step_id _ _ _ Hf) as [Hid Hin']. unfold two_valued in Htwo.
  rewrite List.Forall_forall in Htwo. destruct (Htwo s' Hin') as [Hpend|]; [|done].
  exfalso. assert (Hle : (rank (t_id s) <= rank (t_id s'))%nat).
  { apply Hmin, List.filter_In. split; [done|]. by apply bool_decide_eq_true. }
  rewrite Hid in Hle. lia.
Qed.

(** ** One round of the loop *)
Lemma complete_all_other ids p id : ~ In id ids ->
  find_step id (p_steps (complete_all ids p)) = find_step id (p_steps p).
Proof.
  unfold complete_all. revert p. induction ids as [|i ids IH]; intros p Hn; [done|]. cbn [fold_left].
  rewrite IH by (intros ?; apply Hn; by right). unfold mark_status. cbn [p_steps set_steps].
  apply find_update_other; [|done]. intros ->. apply Hn. by left.
Qed.
Lemma complete_all_ids ids p : map t_id (p_steps (complete_all ids p)) = map t_id (p_steps p).
Proof.
  unfold complete_all. revert p. induction ids as [|i ids IH]; intros p; [done|]. cbn [fold_left].
  rewrite IH. unfold mark_status. cbn [p_steps set_steps]. by apply update_first_ids.
Qed.

(** What a round does to the steps, seen as a map over them. *)
Definition complete_step (ids : list str) (s : Task) : Task :=
  if existsb (str_eqb (t_id s)) ids then with_status (merge_status (t_status s) Completed) s else s.

Lemma update_first_map id f steps : List.NoDup (map t_id steps) ->
  update_first id f steps = map (fun s => if str_eqb (t_id s) id then f s else s) steps.
Proof.
  induction steps as [|s l IH]; intros Hn; [done|]. inversion_clear Hn as [|? ? Hs Hl]. cbn.
  destruct (str_eqb (t_id s) id) eqn:E; [|by rewrite IH]. f_equal.
  apply str_eqb_spec in E. rewrite <-(map_id l) at 1. apply map_ext_in. intros x Hx.
  destruct (str_eqb (t_id x) id) eqn:Ex; [|done]. apply str_eqb_spec in Ex.
  destruct Hs. rewrite E, <-Ex. by apply in_map.
Qed.
Lemma merge_completed_twice c : merge_status (merge_status c Completed) Completed = merge_status c Completed.
Proof. by destruct c. Qed.

Lemma complete_all_map ids p : List.NoDup (map t_id (p_steps p)) ->
  p_steps (complete_all ids p) = map (complete_step ids) (p_steps p).
Proof.
  unfold complete_all. revert p. induction ids as [|i ids IH]; intros p Hn; cbn [fold_left].
  { by rewrite (map_ext _ id), map_id. }
  rewrite IH by (unfold mark_status; cbn [p_steps set_steps]; by rewrite update_first_ids).
  unfold mark_status. cbn [p_steps set_steps]. rewrite update_first_map, map_map by done.
  apply map_ext. intros s. unfold complete_step. cbn [existsb].
  destruct (str_eqb (t_id s) i) eqn:E; cbn [orb]; [|done].
  change (t_id (with_status _ s)) with (t_id s). destruct (existsb _ ids); [|done].
  unfold with_status. cbn. by rewrite merge_completed_twice.
Qed.

Lemma complete_step_two_valued ids steps : two_valued steps -> two_valued (map (complete_step ids) steps).
Proof.
  intros Ht. apply Forall_map. eapply List.Forall_impl; [|exact Ht]. intros s Hs. unfold complete_step. cbn.
  destruct (existsb _ ids); [|done]. cbn. destruct Hs as [->| ->]; by right.
Qed.

Lemma filter_shrinks {A} (f g : A -> bool) (l : list A) :
  (forall a, In a l -> g a = true -> f a = true) -> (exists a, In a l /\ f a = true /\ g a = false) ->
  (length (List.filter g l) < length (List.filter f l))%nat.
Proof.
  assert (Hle : forall l, (forall a, In a l -> g a = true -> f a = true) ->
    (length (List.filter g l) <= length (List.filter f l))%nat).
  { clear. induction l as [|x l IH]; intros Hi; [done|]. cbn.
    assert (length (List.filter g l) <= length (List.filter f l))%nat by (apply IH; intros; apply Hi; [by right|done]).
    destruct (g x) eqn:Eg; [rewrite (Hi x) by (by left || done); cbn; lia|]. destruct (f x); cbn; lia. }
  induction l as [|x l IH]; intros Hi (a & Hin & Hf & Hg); [done|]. cbn.
  assert (Hi' : forall a, In a l -> g a = true -> f a = true) by (intros; apply Hi; [by right|done]).
  destruct Hin as [->|Hin].
  - rewrite Hf, Hg. cbn. specialize (Hle l Hi'). lia.
  - assert (length (List.filter g l) < length (List.filter f l))%nat by (apply IH; eauto).
    destruct (g x) eqn:Eg; [rewrite (Hi x) by (by left || done); cbn; lia|]. destruct (f x); cbn; lia.
Qed.

Lemma filter_map_length {A} (f g : A -> bool) (h : A -> A) (l : list A) :
  (forall a, In a l -> f (h a) = g a) -> length (List.filter f (map h l)) = length (List.filter g l).
Proof.
  induction l as [|x l IH]; intros Hx; [done|]. cbn. rewrite (Hx x) by by left.
  specialize (IH ltac:(intros; apply Hx; by right)). destruct (g x); cbn; lia.
Qed.

Lemma ready_pending p s : In s (get_ready_steps p) -> In s (p_steps p) /\ t_status s = Pending.
Proof.
  intros [Hin Hr]%List.filter_In. split; [done|]. unfold is_ready in Hr.
  apply andb_true_iff in Hr as [Hr _]. by apply bool_decide_eq_true in Hr.
Qed.

(** Completing the ready steps leaves strictly fewer pending ones. *)
Lemma round_shrinks p : List.NoDup (map t_id (p_steps p)) -> get_ready_steps p <> [] ->
  (pending_count (complete_all (map t_id (get_ready_steps p)) p) < pending_count p)%nat.
Proof.
  intros Hn Hr. rewrite !pending_count_length, complete_all_map by done.
  set (ids := map t_id (get_ready_steps p)).
  rewrite (filter_map_length _ (fun s => is_pending s && negb (existsb (str_eqb (t_id s)) ids))).
  2: { intros s _. unfold complete_step, is_pending. destruct (existsb _ ids) eqn:E; cbn;
       [|by rewrite andb_true_r]. by destruct (t_status s). }
  apply filter_shrinks; [by intros s _ [? _]%andb_true_iff|].
  destruct (get_ready_steps p) as [|s l] eqn:E; [done|]. exists s.
  destruct (ready_pending p s) as [Hin Hs]; [rewrite E; by left|].
  split; [done|]. unfold is_pending. rewrite bool_decide_true by done. split; [done|]. cbn.
  by rewrite str_eqb_refl.
Qed.

Lemma find_step_map ids steps d :
  find_step d (map (complete_step ids) steps) = complete_step ids <$> find_step d steps.
Proof.
  unfold find_step. induction steps as [|s l IH]; [done|]. cbn [map List.find].
  assert (Hid : t_id (complete_step ids s) = t_id s) by (unfold complete_step; by destruct (existsb _ ids)).
  rewrite Hid. by destruct (str_eqb (t_id s) d).
Qed.
Lemma complete_step_completed ids s : t_status s = Completed -> t_status (complete_step ids s) = Completed.
Proof. intros Hs. unfold complete_step. destruct (existsb _ ids); [cbn; by rewrite Hs|done]. Qed.
Lemma complete_step_pending ids s : t_status (complete_step ids s) = Pending ->
  t_status s = Pending /\ existsb (str_eqb (t_id s)) ids = false /\ complete_step ids s = s.
Proof.
  unfold complete_step. destruct (existsb _ ids) eqn:E; [|done]. cbn. by destruct (t_status s).
Qed.

Lemma ranked_round rank ids steps : ranked rank steps -> ranked rank (map (complete_step ids) steps).
Proof.
  intros Hr s d (s0 & <- & Hin)%in_map_iff Hp Hd.
  apply complete_step_pending in Hp as (Hp & _ & E). rewrite E in Hd |- *.
  destruct (Hr s0 d Hin Hp Hd) as (x & Hf & Hor). exists (complete_step ids x).
  rewrite find_step_map, Hf. split; [done|]. destruct Hor as [Hc|]; [left; by apply complete_step_completed|by right].
Qed.

Lemma drain_complete rank fuel p :
  two_valued (p_steps p) -> List.NoDup (map t_id (p_steps p)) -> ranked rank (p_steps p) ->
  (pending_count p <= fuel)%nat -> drain fuel p = Good tt.
Proof.
  revert p. induction fuel as [|fuel IH]; intros p Ht Hn Hr Hf; cbn [drain].
  { by replace (pending_count p) with 0%nat by lia. }
  destruct (0 <? pending_count p)%nat eqn:Ep; [|done]. apply Nat.ltb_lt in Ep.
  pose proof (ranked_progress rank p Ht Hn Hr Ep) as Hne. pose proof (round_shrinks p Hn Hne) as Hlt.
  set (ids := map t_id (get_ready_steps p)) in *.
  destruct ids as [|i ids'] eqn:Ei; [by destruct (get_ready_steps p)|]. rewrite <-Ei in *.
  apply IH; [|by rewrite complete_all_ids| |lia].
  - rewrite complete_all_map by done. by apply complete_step_two_valued.
  - rewrite complete_all_map by done. by apply ranked_round.
Qed.

Lemma drain_sound fuel p :
  two_valued (p_steps p) -> List.NoDup (map t_id (p_steps p)) -> drain fuel p = Good tt ->
  exists rank, ranked rank (p_steps p).
Proof.
  revert p. induction fuel as [|fuel IH]; intros p Ht Hn Hd; cbn [drain] in Hd;
    (destruct (0 <? pending_count p)%nat eqn:Ep;
     [|exists (fun _ => 0%nat); intros s d Hin Hs; apply Nat.ltb_ge in Ep; rewrite pending_count_length in Ep;
       assert (Hx : In s (List.filter is_pending (p_steps p)))
         by (apply List.filter_In; split; [done|by apply bool_decide_eq_true]);
       by destruct (List.filter is_pending (p_steps p)); [|cbn in Ep; lia]]); [done|].
  set (ids := map t_id (get_ready_steps p)) in *.
  assert (Hd' : drain fuel (complete_all ids p) = Good tt) by by destruct ids.
  destruct (IH _ ltac:(rewrite complete_all_map by done; by apply complete_step_two_valued)
              ltac:(by rewrite complete_all_ids) Hd') as [rank' Hr].
  exists (fun id => if existsb (str_eqb id) ids then 0 else S (rank' id))%nat.
  rewrite complete_all_map in Hr by done. intros s d Hin Hs Hdep.
  destruct (existsb (str_eqb (t_id s)) ids) eqn:Es.
  - apply existsb_exists in Es as (i & Hi & Ei%str_eqb_spec). unfold ids in Hi.
    apply in_map_iff in Hi as (r & Hid & Hready). pose proof (ready_pending _ _ Hready) as [Hinr _].
    assert (r = s) as ->.
    { apply (f_equal Some) in Hid. pose proof (find_step_nodup _ _ Hn Hin) as H1.
      pose proof (find_step_nodup _ _ Hn Hinr) as H2. injection Hid as Hid. rewrite Hid, <-Ei in H2. congruence. }
    apply List.filter_In in Hready as [_ Hready]. unfold is_ready in Hready.
    apply andb_true_iff in Hready as [_ Hready]. rewrite forallb_forall in Hready.
    specialize (Hready d Hdep). destruct (find_step d (p_steps p)) as [x|]; [|done].
    exists x. split; [done|]. left. by apply bool_decide_eq_true in Hready.
  - assert (Hcs : complete_step ids s = s) by (unfold complete_step; by rewrite Es).
    destruct (Hr s d) as (x & Hf & Hor); [rewrite <-Hcs; by apply in_map|done|done|].
    rewrite find_step_map in Hf. destruct (find_step d (p_steps p)) as [y|] eqn:Ey; [|done].
    injection Hf as <-. exists y. split; [done|]. pose proof (find_step_id _ _ _ Ey) as [Hy _].
    destruct (existsb (str_eqb d) ids) eqn:Edi; [right; lia|].
    assert (Hcy : complete_step ids y = y) by (unfold complete_step; by rewrite Hy, Edi).
    rewrite Hcy in Hor. destruct Hor as [Hor|Hor]; [by left|right; lia].
Qed.

Lemma drain_ends fuel p : List.NoDup (map t_id (p_steps p)) -> (pending_count p <= fuel)%nat ->
  drain fuel p <> Bad Diverges.
Proof.
  revert p. induction fuel as [|fuel IH]; intros p Hn Hf; cbn [drain].
  { by replace (pending_count p) with 0%nat by lia. }
  destruct (0 <? pending_count p)%nat; [|done].
  destruct (map t_id (get_ready_steps p)) as [|i ids] eqn:Ei; [done|]. rewrite <-Ei.
  apply IH; [by rewrite complete_all_ids|].
  assert (Hne : get_ready_steps p <> []) by (intros E; by rewrite E in Ei).
  pose proof (round_shrinks p Hn Hne). lia.
Qed.

(** ** Acyclic plans *)
Definition acyclic (p : ExecutionPlan) : Prop :=
  exists rank : str -> nat, forall s d, In s (p_steps p) -> In d (t_dependencies s) ->
    In d (map t_id (p_steps p)) /\ (rank d < rank (t_id s))%nat.

Lemma pending_copy_ids p : map t_id (p_steps (pending_copy p)) = map t_id (p_steps p).
Proof. unfold pending_copy. cbn. rewrite map_map. by apply map_ext. Qed.
Lemma pending_copy_two_valued p : two_valued (p_steps (pending_copy p)).
Proof. unfold pending_copy, two_valued. cbn. apply List.Forall_forall. intros s (x & <- & _)%in_map_iff. by left. Qed.
Lemma pending_copy_count p : (pending_count (pending_copy p) <= length (p_steps p))%nat.
Proof.
  rewrite pending_count_length. unfold pending_copy. cbn [p_steps set_steps].
  etrans; [apply List.filter_length_le|]. by rewrite length_map.
Qed.

Lemma acyclic_ranked p : acyclic p <-> exists rank, ranked rank (p_steps (pending_copy p)).
Proof.
  split; intros [rank Hr]; exists rank.
  - intros s d Hin _ Hd. unfold pending_copy in Hin. cbn in Hin. apply in_map_iff in Hin as (x & <- & Hin).
    destruct (Hr x d Hin Hd) as [Hex Hlt]. rewrite <-pending_copy_ids in Hex.
    destruct (find_step_In d _ Hex) as [y Hy]. exists y. split; [done|]. by right.
  - intros s d Hin Hd.
    assert (Hin' : In (with_status Pending s) (p_steps (pending_copy p))) by by apply in_map.
    destruct (Hr _ d Hin' eq_refl Hd) as (y & Hy & Hor).
    destruct (find_step_id _ _ _ Hy) as [Hid Hiny]. split.
    + rewrite <-pending_copy_ids, <-Hid. by apply in_map.
    + destruct Hor as [Hc|]; [|done]. unfold pending_copy in Hiny. cbn in Hiny.
      by apply in_map_iff in Hiny as (z & <- & _).
Qed.

Lemma drain_acyclic p : List.NoDup (map t_id (p_steps p)) ->
  (drain (length (p_steps p)) (pending_copy p) = Good tt <-> acyclic p).
Proof.
  intros Hn. rewrite acyclic_ranked.
  assert (Hn' : List.NoDup (map t_id (p_steps (pending_copy p)))) by by rewrite pending_copy_ids.
  split; [by apply drain_sound; [apply pending_copy_two_valued|]|].
  intros [rank Hr]. eapply drain_complete; [apply pending_copy_two_valued|done|exact Hr|apply pending_copy_count].
Qed.

(** ** The checks before the loop *)
Lemma existsb_str_eqb x l : existsb (str_eqb x) l = true <-> In x l.
Proof.
  rewrite existsb_exists. split; [by intros (y & Hy & ->%str_eqb_spec)|]. intros Hx. exists x.
  by rewrite str_eqb_refl.
Qed.
Lemma existsb_str_eqb_false x l : existsb (str_eqb x) l = false <-> ~ In x l.
Proof. rewrite <-existsb_str_eqb. by destruct (existsb _ l). Qed.

Lemma validate_steps_nodup seen steps u : validate_steps seen steps = Good u ->
  List.NoDup (map t_id steps) /\ forall s, In s steps -> ~ In (t_id s) seen.
Proof.
  revert seen. induction steps as [|s l IH]; intros seen Hv; [split; [constructor|done]|].
  cbn [validate_steps] in Hv. gbind Hv x1 E1. gbind Hv x2 E2. gbind Hv x3 E3. gbind Hv x4 E4.
  gbind Hv x5 E5. gbind Hv x6 E6. apply fail_if_Good, existsb_str_eqb_false in E2.
  destruct (IH _ Hv) as [Hnd Hnot]. split.
  - cbn. constructor; [|done]. intros (x & Hx & Hin)%in_map_iff.
    apply (Hnot x Hin). rewrite Hx. by left.
  - intros x [->|Hin]; [done|]. intros Hs. apply (Hnot x Hin). by right.
Qed.

Lemma for_all_Good {A} (f : A -> GoalResult unit) l u a :
  for_all f l = Good u -> In a l -> f a = Good tt.
Proof.
  induction l as [|x l IH]; intros Hf Hin; [done|]. cbn in Hf. gbind Hf y Ey.
  destruct Hin as [->|Hin]; [by destruct y|by apply IH].
Qed.
Lemma validate_dependencies_resolve ids self seen deps u d :
  validate_dependencies ids self seen deps = Good u -> In d deps -> d <> self /\ In d ids.
Proof.
  revert seen. induction deps as [|x l IH]; intros seen Hv Hin; [done|]. cbn in Hv. gbind Hv y Ey.
  destruct Hin as [->|Hin]; [|by eapply IH]. apply fail_if_Good in Ey.
  apply orb_false_iff in Ey as [Ey _]. apply orb_false_iff in Ey as [E1 E2].
  split; [by apply str_eqb_ne|]. apply negb_false_iff in E2. by apply existsb_str_eqb.
Qed.

Section Validated.
Context `{GoalEnv}.

Lemma validate_goal_plan_inv p i : validate_goal_plan p = Good i ->
  List.NoDup (map t_id (p_steps p)) /\ p_steps p <> [] /\ (length (p_steps p) <= 64)%nat
  /\ (forall s d, In s (p_steps p) -> In d (t_dependencies s) -> d <> t_id s /\ In d (map t_id (p_steps p)))
  /\ drain (length (p_steps p)) (pending_copy p) = Good tt /\ definition_identity p = Good i.
Proof.
  unfold validate_goal_plan. intros Hv. gbind Hv x1 E1. gbind Hv x2 E2. gbind Hv x3 E3. gbind Hv x4 E4.
  gbind Hv x5 E5. gbind Hv x6 E6. gbind Hv x7 E7.
  apply fail_if_Good, orb_false_iff in E3 as [E3 _]. apply orb_false_iff in E3 as [E3 E3'].
  apply bool_decide_eq_false in E3. apply Nat.ltb_ge in E3'.
  split_and!; [by eapply validate_steps_nodup|done|done| |by destruct x7|done].
  intros s d Hin Hd. pose proof (for_all_Good _ _ _ _ E6 Hin) as Hs.
  exact (validate_dependencies_resolve _ _ _ _ _ _ Hs Hd).
Qed.
End Validated.

(** Plan validation decides acyclicity and always ends: a validated plan has
    between 1 and 64 steps with distinct ids, every dependency names another
    step, and the dependency graph is acyclic (some ranking of the steps
    decreases along dependencies); the validation loop accepts every acyclic
    plan with distinct ids, and never runs for more rounds than there are
    steps. *)
Theorem plan_validation_acyclic `{GoalEnv} (p : ExecutionPlan) :
  (forall i, validate_goal_plan p = Good i ->
     List.NoDup (map t_id (p_steps p)) /\ (1 <= length (p_steps p) <= 64)%nat
     /\ (forall s d, In s (p_steps p) -> In d (t_dependencies s) -> d <> t_id s /\ In d (map t_id (p_steps p)))
     /\ acyclic p)
  /\ (List.NoDup (map t_id (p_steps p)) ->
       (drain (length (p_steps p)) (pending_copy p) = Good tt <-> acyclic p)
       /\ drain (length (p_steps p)) (pending_copy p) <> Bad Diverges).
Proof.
  split.
  - intros i (Hn & Hne & Hl & Hd & Hdr & _)%validate_goal_plan_inv. split_and!; [done| |done|done|].
    + destruct (p_steps p); [done|cbn; lia].
    + by apply drain_acyclic.
  - intros Hn. split; [by apply drain_acyclic|].
    apply drain_ends; [by rewrite pending_copy_ids|apply pending_copy_count].
Qed.

(** An acyclic plan never deadlocks: while its steps are only pending or
    completed and a pending one is left, some step is ready. *)
Theorem acyclic_plan_never_deadlocks (p : ExecutionPlan) :
  List.NoDup (map t_id (p_steps p)) -> acyclic p -> two_valued (p_steps p) -> has_deadlock p = false.
Proof.
  intros Hn [rank Hr] Ht. unfold has_deadlock. destruct (0 <? pending_count p)%nat eqn:Ep; [|done].
  apply Nat.ltb_lt in Ep. pose proof (ranked_progress rank p Ht Hn) as Hp.
  destruct (get_ready_steps p); [|done]. exfalso. apply Hp; [|done|done].
  intros s d Hin _ Hd. destruct (Hr s d Hin Hd) as [Hex Hlt].
  destruct (find_step_In d _ Hex) as [x Hx]. exists x. split; [done|]. by right.
Qed.

Lemma acyclic_plan_never_deadlocks_witness :
  let a := new_task $"a" $"first" in
  let b := with_dependencies [$"a"] (new_task $"b" $"second") in
  has_deadlock (add_step b (add_step (with_status Completed a) (new_plan $"g" Simple))) = false.
Proof.
  cbn zeta. apply acyclic_plan_never_deadlocks.
  - repeat constructor; cbn; intros [E|[]] || intros []; done.
  - exists (fun id => if str_eqb id $"a" then 0 else 1)%nat.
    intros s d [<-|[<-|[]]] Hd; cbn in Hd; [done|]. destruct Hd as [<-|[]].
    split; [by left|]. vm_compute. lia.
  - repeat constructor; by (left + right).
Defined.
