(* ===== verification/GoalMachine.v ===== *)
(** The abstract goal machine: the lifecycle a durable goal goes through, as a
    step relation on goal definitions, with its invariants by rule induction.
    [GoalLogFacts] shows that the fold of every accepted log is one of its runs. *)
From S2P Require Import Prelude Text Planning PlanningFacts Goal GoalPlanFacts GoalLog.

Section Machine.
Context `{LogEnv} (session : str) (workspace : WorkspaceRef) (policy : option str).

(** The binding names the session, workspace and policy of its log. *)
Definition bound_here (b : DurableGoalBindingV1) : Prop :=
  b_session_id b = session /\ b_workspace b = workspace /\ b_work_policy_digest b = policy
  /\ binding_validate b = Good tt.

Definition no_plan (v : DurableGoalDefinitionV1) : Prop :=
  v_plan v = None /\ v_plan_fact_sequence v = None /\ v_plan_accepted v = false /\ v_waits v = [].

Definition step_open (v : DurableGoalDefinitionV1) (step_id : str) : Prop :=
  exists p s, v_plan v = Some p /\ In s (p_steps p) /\ t_id s = step_id /\ t_status s <> Completed.

(** Which control a state admits, and where it leads. *)
Inductive control_step : GoalFactKindV1 -> GoalState -> GoalState -> Prop :=
| cs_pause s : s = States.Active \/ s = States.Waiting -> control_step Kinds.Paused s States.Paused
| cs_resume : control_step Kinds.Resumed States.Paused States.Active
| cs_cancel s : terminal s = false -> control_step Kinds.Cancelled s States.Cancelled.

Definition propose (seq revision : Z) (plan : ExecutionPlan) (c : DurableGoalDefinitionV1)
    : DurableGoalDefinitionV1 :=
  mkDefinition (v_binding c) (v_state c) (v_import_source c) (v_goal c) seq (Some revision)
    (Some (pending_copy plan)) (Some seq) false [].
Definition accept (seq : Z) (c : DurableGoalDefinitionV1) : DurableGoalDefinitionV1 :=
  mkDefinition (v_binding c) (v_state c) (v_import_source c) (v_goal c) seq (v_plan_revision c)
    (v_plan c) (v_plan_fact_sequence c) true (v_waits c).

Inductive goal_step (seq : Z)
    : option DurableGoalDefinitionV1 -> GoalFactKindV1 -> DurableGoalDefinitionV1 -> Prop :=
| gs_create v :
    bound_here (v_binding v) -> b_goal_revision (v_binding v) = 1 ->
    (v_state v = States.Active \/ v_state v = States.Paused) -> v_plan_revision v = None ->
    no_plan v -> v_goal_sequence v = seq ->
    goal_step seq None Kinds.Created v
| gs_revise c v :
    terminal (v_state c) = false -> bound_here (v_binding v) ->
    b_goal_id (v_binding v) = b_goal_id (v_binding c) ->
    b_goal_revision (v_binding v) = b_goal_revision (v_binding c) + 1 ->
    b_goal_revision (v_binding v) <= u32_max ->
    v_state v = v_state c -> v_plan_revision v = v_plan_revision c ->
    no_plan v -> v_goal_sequence v = seq ->
    goal_step seq (Some c) Kinds.Revised v
| gs_propose c plan identity revision :
    terminal (v_state c) = false -> validate_goal_plan plan = Good identity ->
    revision = match v_plan_revision c with Some r => r | None => 0 end + 1 -> revision <= u32_max ->
    goal_step seq (Some c) Kinds.PlanProposed (propose seq revision plan c)
| gs_accept c plan identity :
    terminal (v_state c) = false -> v_plan_accepted c = false -> v_plan c = Some plan ->
    v_plan_fact_sequence c <> None -> validate_goal_plan plan = Good identity ->
    goal_step seq (Some c) Kinds.PlanAccepted (accept seq c)
| gs_admitted c s :
    current_step c = Good s ->
    goal_step seq (Some c) Kinds.SliceAdmitted (with_sequence seq c)
| gs_settled c : goal_step seq (Some c) Kinds.SliceSettled c
| gs_step c s plan :
    current_step c = Good s -> v_plan c = Some plan ->
    goal_step seq (Some c) Kinds.StepAccepted
      (with_sequence seq (with_plan (Some (mark_status (t_id s) Completed plan)) c))
| gs_control c k s :
    terminal (v_state c) = false -> control_step k (v_state c) s ->
    goal_step seq (Some c) k (with_sequence seq (with_state s c))
| gs_declare c step_id condition :
    v_state c = States.Active -> v_plan_accepted c = true -> step_open c step_id ->
    open_wait c step_id = None ->
    goal_step seq (Some c) Kinds.WaitDeclared
      (with_waits (v_waits c ++ [mkWait step_id seq condition None]) (with_sequence seq c))
| gs_observe c step_id i w evidence clock :
    v_state c = States.Active -> v_plan_accepted c = true -> step_open c step_id ->
    v_waits c !! i = Some w -> w_step_id w = step_id -> wait_is_open w = true ->
    evidence_kind evidence = condition_kind (w_condition w) ->
    goal_step seq (Some c) Kinds.WaitObserved
      (with_waits (set_observed i (mkWaitObservation seq evidence clock) (v_waits c)) (with_sequence seq c))
| gs_complete c :
    finished c = true ->
    goal_step seq (Some c) Kinds.Completed (with_sequence seq (with_state States.Completed c)).

(** Sequences grow: a step happens at a sequence past the goal's. *)
Definition after (seq : Z) (c : option DurableGoalDefinitionV1) : Prop :=
  match c with Some v => v_goal_sequence v < seq | None => True end.

(** Runs of the machine, newest event last. *)
Inductive goal_run : list (GoalFactKindV1 * Z) -> option DurableGoalDefinitionV1 -> Prop :=
| run_nil : goal_run [] None
| run_snoc trace c kind seq v :
    goal_run trace c -> after seq c -> 0 < seq -> goal_step seq c kind v ->
    goal_run (trace ++ [(kind, seq)]) (Some v).

(** ** Invariants *)
Definition plan_ok (p : ExecutionPlan) : Prop :=
  List.NoDup (map t_id (p_steps p)) /\ acyclic p /\ two_valued (p_steps p)
  /\ p_steps p <> [] /\ exists i, definition_identity p = Good i.

Definition waits_ok (v : DurableGoalDefinitionV1) : Prop :=
  forall i j w w', v_waits v !! i = Some w -> v_waits v !! j = Some w' ->
    wait_is_open w = true -> wait_is_open w' = true -> w_step_id w = w_step_id w' -> i = j.

(** Recorded sequences are real ones: 0 marks a wait not yet appended. *)
Definition wait_recorded (w : GoalWaitV1) : Prop :=
  0 < w_declared_sequence w /\ forall o, w_observed w = Some o -> 0 < wo_sequence o.

Record view_ok (v : DurableGoalDefinitionV1) : Prop := {
  vo_bound : bound_here (v_binding v);
  vo_sequence : 0 < v_goal_sequence v;
  vo_revision : 1 <= b_goal_revision (v_binding v) <= u32_max;
  vo_plan_revision : forall r, v_plan_revision v = Some r -> 1 <= r <= u32_max;
  vo_plan : forall p, v_plan v = Some p -> plan_ok p /\ v_plan_fact_sequence v <> None
              /\ v_plan_revision v <> None;
  vo_accepted : v_plan_accepted v = true -> v_plan v <> None;
  vo_waits_need_plan : v_plan_accepted v = false -> v_waits v = [];
  vo_waits : waits_ok v;
  vo_recorded : List.Forall wait_recorded (v_waits v);
}.

(** Plans that differ in statuses only. *)
Definition shape (p : ExecutionPlan) : list (str * list str) :=
  map (fun s => (t_id s, t_dependencies s)) (p_steps p).
Lemma shape_ids p : map fst (shape p) = map t_id (p_steps p).
Proof. unfold shape. by rewrite map_map. Qed.
Lemma acyclic_shape p q : shape p = shape q -> acyclic p -> acyclic q.
Proof.
  intros E [rank Hr]. exists rank. intros s d Hin Hd.
  assert (Hs : In (t_id s, t_dependencies s) (shape p)).
  { rewrite E. unfold shape. apply in_map_iff. by exists s. }
  apply in_map_iff in Hs as (x & [= Hid Hdep] & Hx). rewrite <-Hdep in Hd.
  destruct (Hr x d Hx Hd) as [H1 H2]. rewrite <-Hid. split; [|done].
  rewrite <-shape_ids, <-E, shape_ids. done.
Qed.
Lemma mark_shape id st p : shape (mark_status id st p) = shape p.
Proof.
  unfold shape, mark_status. cbn. induction (p_steps p) as [|s l IH]; [done|]. cbn [update_first].
  destruct (str_eqb (t_id s) id); cbn; [done|]. by rewrite IH.
Qed.
Lemma pending_copy_shape p : shape (pending_copy p) = shape p.
Proof. unfold shape, pending_copy. cbn. rewrite map_map. by apply map_ext. Qed.
Lemma pending_copy_definition p : plan_definition (pending_copy p) = plan_definition p.
Proof. unfold plan_definition, pending_copy. cbn. rewrite map_map. f_equal. Qed.
Lemma mark_definition id st p : plan_definition (mark_status id st p) = plan_definition p.
Proof. exact (notify_all_definition [(id, st)] p). Qed.

Lemma pending_copy_plan_ok plan i : validate_goal_plan plan = Good i -> plan_ok (pending_copy plan).
Proof.
  intros (Hn & Hne & _ & _ & Hd & Hi)%validate_goal_plan_inv. split_and!.
  - by rewrite pending_copy_ids.
  - eapply acyclic_shape; [symmetry; apply pending_copy_shape|]. by apply drain_acyclic.
  - apply pending_copy_two_valued.
  - unfold pending_copy. cbn. by destruct (p_steps plan).
  - exists i. unfold definition_identity. by rewrite pending_copy_definition.
Qed.
Lemma mark_two_valued id steps : two_valued steps ->
  two_valued (update_first id (fun s => with_status (merge_status (t_status s) Completed) s) steps).
Proof.
  unfold two_valued. induction 1 as [|s l Hs Hl IH]; cbn [update_first]; [constructor|].
  destruct (str_eqb (t_id s) id); constructor; try done. right. cbn. by destruct Hs as [-> | ->].
Qed.
Lemma mark_plan_ok id p : plan_ok p -> plan_ok (mark_status id Completed p).
Proof.
  intros (Hn & Ha & Ht & Hne & i & Hi). split_and!.
  - rewrite <-shape_ids, mark_shape, shape_ids. done.
  - eapply acyclic_shape; [symmetry; apply mark_shape|done].
  - by apply mark_two_valued.
  - unfold mark_status. cbn. destruct (p_steps p) as [|s l]; [done|]. cbn. by destruct (str_eqb _ _).
  - exists i. unfold definition_identity. by rewrite mark_definition.
Qed.

(** ** Waits *)
Lemma open_wait_none v id : open_wait v id = None ->
  forall i w, v_waits v !! i = Some w -> wait_is_open w = true -> w_step_id w <> id.
Proof.
  unfold open_wait. intros Hf i w Hi Ho E. apply list_elem_of_lookup_2, list_elem_of_In in Hi.
  apply (List.find_none _ _ Hf) in Hi. rewrite Ho, E, str_eqb_refl in Hi. done.
Qed.
Lemma declare_waits_ok v w seq : waits_ok v -> open_wait v (w_step_id w) = None ->
  waits_ok (with_waits (v_waits v ++ [w]) (with_sequence seq v)).
Proof.
  intros Hv Hn i j a b Hi Hj Ha Hb E. cbn in Hi, Hj.
  apply lookup_app_Some in Hi as [Hi|[Hi1 Hi]], Hj as [Hj|[Hj1 Hj]].
  - by eapply Hv.
  - apply list_lookup_singleton_Some in Hj as [_ <-]. exfalso. by eapply (open_wait_none v _ Hn i a).
  - apply list_lookup_singleton_Some in Hi as [_ <-]. exfalso. by eapply (open_wait_none v _ Hn j b).
  - apply list_lookup_singleton_Some in Hi as [Hi _]. apply list_lookup_singleton_Some in Hj as [Hj _]. lia.
Qed.
Lemma set_observed_open i o ws j w : set_observed i o ws !! j = Some w -> wait_is_open w = true ->
  ws !! j = Some w /\ i <> j.
Proof.
  unfold set_observed. destruct (decide (i = j)) as [->|Hne].
  - rewrite list_lookup_alter_eq. destruct (ws !! j); cbn; intros [= <-]; done.
  - by rewrite list_lookup_alter_ne.
Qed.
Lemma observe_waits_ok v i o seq : waits_ok v ->
  waits_ok (with_waits (set_observed i o (v_waits v)) (with_sequence seq v)).
Proof.
  intros Hv a b x y Ha Hb Hx Hy E. cbn in Ha, Hb.
  apply set_observed_open in Ha as [Ha _]; [|done]. apply set_observed_open in Hb as [Hb _]; [|done].
  by eapply Hv.
Qed.
Lemma observe_recorded i o ws : 0 < wo_sequence o -> List.Forall wait_recorded ws ->
  List.Forall wait_recorded (set_observed i o ws).
Proof.
  intros Ho H1. revert i. induction H1 as [|w ws [Hd Hw] Hws IH]; intros [|i]; cbn; constructor; try done.
  - split; [done|]. by intros ? [= <-].
  - apply IH.
Qed.

(** ** Every step preserves the invariant *)
Lemma same_parts_ok v seq s : view_ok v -> 0 < seq -> view_ok (with_sequence seq (with_state s v)).
Proof. intros [] Hs. by constructor. Qed.

Lemma goal_step_ok seq c kind v :
  (forall x, c = Some x -> view_ok x) -> 0 < seq -> goal_step seq c kind v -> view_ok v.
Proof.
  intros Hc Hs Hstep. destruct Hstep as
    [v Hb Hr _ Hpr (Hp & Hps & Ha & Hw) Hq|c v _ Hb _ Hr Hmax _ Hpr (Hp & Hps & Ha & Hw) Hq|
     c plan i r _ Hv Hr Hmax|c plan i _ Ha Hp Hps Hv|c s _|c|c s plan _ Hp|c k s _ _|
     c id cond Hst Ha Hopen Hno|c id i w ev ck Hst Ha Hopen Hw Hid Ho Hk|c Hf];
    try (pose proof (Hc c eq_refl) as Hok); try (by apply same_parts_ok); try done.
  - constructor; unfold waits_ok; rewrite ?Hw, ?Hp, ?Ha, ?Hpr, ?Hq, ?Hr; try done; lia.
  - destruct (vo_revision _ Hok). constructor; unfold waits_ok; rewrite ?Hw, ?Hp, ?Ha, ?Hpr, ?Hq; try done; try lia.
    apply (vo_plan_revision _ Hok).
  - constructor; cbn; try done; try apply Hok.
    + intros x [= <-]. subst r. destruct (v_plan_revision c) as [q|] eqn:Eq; [|lia].
      pose proof (vo_plan_revision _ Hok q Eq). lia.
    + intros p [= <-]. split; [by eapply pending_copy_plan_ok|done].
  - constructor; cbn; try done; try apply Hok. rewrite Hp. done.
  - destruct Hok as [Hb Hq Hr Hpr Hpl Hac Hwn Hwo Hre]. constructor; cbn; try done.
    intros p [= <-]. destruct (Hpl plan Hp) as [Hpk Hx]. split; [by apply mark_plan_ok|done].
  - destruct Hok as [Hb Hq Hr Hpr Hpl Hac Hwn Hwo Hre]. constructor; cbn; try done.
    + by rewrite Ha.
    + by apply declare_waits_ok.
    + apply List.Forall_app. split; [done|]. constructor; [by split|constructor].
  - destruct Hok as [Hb Hq Hr Hpr Hpl Hac Hwn Hwo Hre]. constructor; cbn; try done.
    + by rewrite Ha.
    + by apply observe_waits_ok.
    + by apply observe_recorded.
Qed.

Lemma goal_run_ok trace c : goal_run trace c -> forall v, c = Some v -> view_ok v.
Proof.
  induction 1 as [|trace c kind seq v Hrun IH Ha Hs Hstep]; [done|]. intros x [= <-].
  by eapply goal_step_ok.
Qed.

(** ** Progress along a run *)
Lemma current_step_active c s : current_step c = Good s ->
  v_state c = States.Active /\ v_plan_accepted c = true /\ In s (ready_steps c).
Proof.
  unfold current_step. destruct (v_plan_accepted c); [|done]. destruct (v_state c); try done. cbn.
  destruct (ready_steps c) as [|x l]; [done|]. intros [= <-]. split_and!; try done. by left.
Qed.
Lemma finished_active c : finished c = true -> v_state c = States.Active.
Proof. unfold finished. intros [[[H1%bool_decide_eq_true _]%andb_true_iff _]%andb_true_iff _]%andb_true_iff. done. Qed.

(** A terminal goal only closes out its slices. *)
Lemma terminal_step seq c kind v : goal_step seq (Some c) kind v -> terminal (v_state c) = true ->
  kind = Kinds.SliceSettled /\ v = c.
Proof.
  intros Hstep. remember (Some c) as o eqn:Eo. destruct Hstep; simplify_eq; intros Ht; try congruence; try done;
    exfalso; repeat match goal with
    | H1 : current_step _ = Good _ |- _ => apply current_step_active in H1 as (H1 & _ & _)
    | H1 : finished _ = true |- _ => apply finished_active in H1
    | H1 : v_state _ = _ |- _ => rewrite H1 in Ht
    end; done.
Qed.

Definition revision_of (v : DurableGoalDefinitionV1) : Z :=
  match v_plan_revision v with Some r => r | None => 0 end.

(** What never goes backwards. *)
Record grows (c v : DurableGoalDefinitionV1) : Prop := {
  gr_goal : b_goal_id (v_binding v) = b_goal_id (v_binding c);
  gr_sequence : v_goal_sequence c <= v_goal_sequence v;
  gr_revision : b_goal_revision (v_binding c) <= b_goal_revision (v_binding v);
  gr_plan_revision : revision_of c <= revision_of v;
  gr_terminal : terminal (v_state c) = true -> v = c;
}.
#[global] Instance grows_preorder : PreOrder grows.
Proof.
  split; [by constructor|]. intros a b c [] []. constructor; [congruence|lia|lia|lia|].
  intros Ht. pose proof (gr_terminal0 Ht) as ->. auto.
Qed.
Lemma step_grows seq c kind v : goal_step seq (Some c) kind v -> v_goal_sequence c < seq -> grows c v.
Proof.
  intros Hstep Hs. constructor; [..|intros Ht; by apply (terminal_step _ _ _ _ Hstep Ht)];
    remember (Some c) as o eqn:Eo; destruct Hstep; simplify_eq; unfold revision_of; cbn; subst; try lia; try done.
  by match goal with E : v_plan_revision _ = _ |- _ => rewrite E end.
Qed.

(** Every step but a settlement moves the goal's sequence. *)
Lemma step_sequence seq c kind v : goal_step seq c kind v -> v_goal_sequence v = seq \/ c = Some v.
Proof. destruct 1; auto. Qed.

(** ** Completion *)
Record closed_goal (v : DurableGoalDefinitionV1) : Prop := {
  cg_accepted : v_plan_accepted v = true;
  cg_steps : exists p, v_plan v = Some p /\ p_steps p <> []
                       /\ List.Forall (fun s => t_status s = Completed) (p_steps p);
  cg_waits : List.Forall (fun w => wait_is_open w = false) (v_waits v);
}.
Lemma finished_closed v : finished v = true -> closed_goal v.
Proof.
  unfold finished. intros [[[_ Ha]%andb_true_iff Hp]%andb_true_iff Hw]%andb_true_iff. constructor; [done|..].
  - destruct (v_plan v) as [p|]; [|done]. apply andb_true_iff in Hp as [Hne Hall]. exists p.
    rewrite negb_true_iff, bool_decide_eq_false in Hne. rewrite forallb_forall in Hall. split_and!; try done.
    apply List.Forall_forall. intros s Hs. apply Hall in Hs. by apply bool_decide_eq_true in Hs.
  - rewrite forallb_forall in Hw. apply List.Forall_forall. intros w Hin. by apply negb_true_iff, Hw.
Qed.
Lemma completed_closed trace c : goal_run trace c -> forall v, c = Some v -> v_state v = States.Completed ->
  closed_goal v.
Proof.
  induction 1 as [|trace c kind seq v Hrun IH _ _ Hstep]; [done|]. intros x [= <-] Hs.
  destruct Hstep as [v ? ? [E|E]|c v Ht ? ? ? ? E|c plan i r Ht|c plan i Ht|c s [E _]%current_step_active|c|
    c s plan [E _]%current_step_active|c k s Ht Hc|c id cond E|c id i w ev ck E|c Hf]; cbn in *;
    try congruence; try (rewrite Hs in Ht; done); try (rewrite <-E, Hs in Ht; done).
  - by apply IH.
  - destruct Hc; done.
  - destruct (finished_closed _ Hf). by constructor.
Qed.
End Machine.
