(* ===== verification/GoalScenario.v ===== *)
(** A concrete goal, from its creation to its completion: an environment for the
    parameters of the goal stream and a log built by the code's own [prepare_*]
    operations. The theorems on goals are exercised on it. *)
From S2P Require Import Prelude Planning Goal GoalLog.

Definition sample_digest : str := $"sha256:" ++ repeat 48 64.

(** Hashes as injective texts, every effect settled, evidence always present. *)
#[global] Instance sample_env : GoalEnv := {
  Report := unit;
  plan_digest := fun _ => sample_digest;
  authorization_digest := fun _ _ _ => sample_digest;
  digest_bytes := fun domain text => domain ++ $":" ++ text;
}.
#[global] Instance sample_log_env : LogEnv := {
  command_digest := fun d => match d with
    | DDefinition c => $"definition:" ++ dc_operation_id c
    | DPlan c => $"plan:" ++ pc_operation_id c
    | DControl c => $"control:" ++ cc_operation_id c
    | DWait c => $"wait:" ++ wc_operation_id c
    | DRun _ _ b => $"run:" ++ rb_run_id b
    | DSettled _ _ b => $"settled:" ++ sb_run_id b
    | DCompleted _ _ _ => $"completed"
    | DStep _ _ b => $"step:" ++ tb_run_id b
    end;
  cut_log := fun facts => (last_seq facts, $"cut");
  has_unsettled_effects := fun _ => false;
  evidence_for_goal_step := fun _ _ _ _ _ => Some ([tt], $"evidence");
}.

Module Sample.
Definition session : str := $"session-1".
Definition workspace : WorkspaceRef := mkWorkspace $"ws-1" $"/work".
Definition goal : AgentGoal := with_criteria [$"tests pass"] (new_goal $"ship it" 1).
Definition plan : ExecutionPlan :=
  add_step (with_dependencies [$"a"] (with_success_criteria $"done" (new_task $"b" $"second")))
    (add_step (with_success_criteria $"done" (new_task $"a" $"first")) (new_plan $"ship it" Simple)).

Definition create : GoalDefinitionCommandV1 :=
  mkDefinitionCommand Commands.Create $"op-create" $"goal-1" session workspace goal [] [] None None None None None.
Definition propose (revision : option Z) (seq : Z) : GoalPlanCommandV1 :=
  mkPlanCommand Commands.ProposePlan $"op-propose" $"goal-1" session workspace None 1 revision seq (Some plan) None.
Definition accept (seq : Z) : GoalPlanCommandV1 :=
  mkPlanCommand Commands.AcceptPlan $"op-accept" $"goal-1" session workspace None 1 (Some 1) seq None (Some seq).
Definition control (kind : GoalCommandKindV1) (op : str) (seq : Z) : GoalControlCommandV1 :=
  mkControlCommand kind op $"goal-1" session workspace None 1 (Some 1) seq.
Definition declare_wait (seq : Z) : GoalWaitCommandV1 :=
  mkWaitCommand Commands.DeclareWait $"op-wait" $"goal-1" session workspace None 1 (Some 1) seq $"a"
    (Some (CQuestionAnswer $"which port?")) None.

(** Appending at the next sequence. *)
Definition push (n : NewFact) (facts : list Fact) : list Fact := facts ++ [append_fact (last_seq facts + 1) n].
Definition commit (r : GoalResult PreparedDefinition) (facts : list Fact) : list Fact :=
  match r with Good (mkPrepared (Some n) _) => push n facts | _ => facts end.
(** Decimal notation, enough for a log of under a hundred facts. *)
Definition decimal (n : Z) : str := if n <? 10 then [48 + n] else [48 + n / 10; 48 + n mod 10].
Definition turn_complete (facts : list Fact) : NewFact :=
  mkNewFact TURN_COMPLETE_FACT_KIND ($"turn") (POther (JObject [($"log_cut",
    JObject [($"seq", JNumber (decimal (last_seq facts))); ($"digest", JString $"cut")])])).

Definition created : list Fact := Eval vm_compute in commit (prepare_definition [] session workspace None create) [].
Definition proposed : list Fact := Eval vm_compute in commit (prepare_plan created session workspace None (propose None 1)) created.
Definition accepted : list Fact := Eval vm_compute in commit (prepare_plan proposed session workspace None (accept 2)) proposed.

(** One slice: admitted, worked, its step accepted, settled. *)
Definition start_run (run_id : str) (facts : list Fact) : list Fact :=
  match prepare_run facts session workspace None (Some run_id) None with
  | Good (Some p) => commit (Good p) facts
  | _ => facts
  end.
Definition settle (run_id : str) (facts : list Fact) : list Fact :=
  match prepare_settlement facts session workspace None run_id (Some (mkUsage 1 1 2 None None)) with
  | Good (Some n) => push n facts
  | _ => facts
  end.
Definition work (run_id : str) (facts : list Fact) : list Fact :=
  match prepare_step facts session workspace None run_id None with
  | Good (Some (mkPrepared (Some n) _, _, _)) => push n (push (turn_complete facts) facts)
  | _ => facts
  end.
Definition slice (run_id : str) (facts : list Fact) : list Fact := settle run_id (work run_id (start_run run_id facts)).

Definition all_steps : list Fact := Eval vm_compute in slice $"run-2" (slice $"run-1" accepted).
Definition completed : list Fact := Eval vm_compute in
  match prepare_completion all_steps session workspace None with Good (Some n) => push n all_steps | _ => all_steps end.
End Sample.
