(* ===== verification/GoalLogFacts.v ===== *)
(** The goal stream against the abstract goal machine: every log the fold
    accepts is a run of the machine, so its invariants hold of the folded
    definition; what happens when a log grows. *)
From S2P Require Import Prelude Text Planning PlanningFacts Goal GoalPlanFacts GoalLog GoalMachine GoalScenario.

(** ** Inverting a successful computation *)
Lemma ok_or_Good {A} (o : option A) e a : ok_or o e = Good a -> o = Some a.
Proof. destruct o; cbn; by intros [= ->]. Qed.
Lemma mret_Good {A} (a b : A) : (mret a : GoalResult A) = Good b -> a = b.
Proof. by intros [= ->]. Qed.

(** [guards] turns the boolean guards a computation passed into facts. *)
Ltac guard1 :=
  match goal with
  | H : fail_if _ _ = Good _ |- _ => apply fail_if_Good in H
  | H : ok_or _ _ = Good _ |- _ => apply ok_or_Good in H
  | H : (_ || _) = false |- _ => apply orb_false_iff in H as [? ?]
  | H : (_ && _) = true |- _ => apply andb_true_iff in H as [? ?]
  | H : negb _ = false |- _ => apply negb_false_iff in H
  | H : negb _ = true |- _ => apply negb_true_iff in H
  | H : str_eqb _ _ = true |- _ => apply str_eqb_spec in H
  | H : bool_decide _ = true |- _ => apply bool_decide_eq_true in H
  | H : bool_decide _ = false |- _ => apply bool_decide_eq_false in H
  | H : (_ =? _) = true |- _ => apply Z.eqb_eq in H
  | H : (_ =? _) = false |- _ => apply Z.eqb_neq in H
  | H : (_ <=? _) = false |- _ => apply Z.leb_gt in H
  | H : (_ <? _) = false |- _ => apply Z.ltb_ge in H
  | H : (_ <? _) = true |- _ => apply Z.ltb_lt in H
  end.
Ltac guards := repeat guard1.
(** [ginv] opens the binds, early returns and results of a [Good] computation. *)
Ltac ginv1 :=
  match goal with
  | H : (_ ≫= _) = Good _ |- _ => apply gbind_Good in H as (? & ? & H); cbv beta zeta in H
  | H : mret _ = Good _ |- _ => apply mret_Good in H
  | H : (if ?b then refused _ else _) = Good _ |- _ => destruct b eqn:?; [discriminate H|]
  | H : (let '(_, _) := ?x in _) = Good _ |- _ => destruct x
  end.
Ltac ginv := repeat ginv1.

Lemma kind_parse_Good s k : fact_kind_parse s = Good k -> s = fact_kind_as_str k.
Proof.
  unfold fact_kind_parse, closed_parse. intros H. guards. by apply find_some in H as [_ <-%str_eqb_spec].
Qed.
Lemma kind_parse_as_str k : fact_kind_parse (fact_kind_as_str k) = Good k.
Proof. by destruct k. Qed.
Lemma kind_as_str_inj k k' : fact_kind_as_str k = fact_kind_as_str k' -> k = k'.
Proof. intros E. pose proof (kind_parse_as_str k) as H. rewrite E, kind_parse_as_str in H. by injection H. Qed.

Section Refinement.
Context `{LogEnv} (session : str) (workspace : WorkspaceRef) (policy : option str).
Implicit Types (v : DurableGoalDefinitionV1) (c : option DurableGoalDefinitionV1) (f : Fact).
Abbreviation step := (goal_step session workspace policy).
Abbreviation ok := (view_ok session workspace policy).

Definition cur_ok c : Prop := forall x, c = Some x -> ok x.

Lemma validate_source_inv {T} (stored : GoalFact T) f c u :
  validate_source stored f session policy c = Good u ->
  gf_session_id stored = session /\ gf_work_policy_digest stored = policy /\ f_seq f <> 0 /\ after (f_seq f) c
  /\ f_has_cause f = false
  /\ exists k, f_kind f = fact_kind_as_str k
       /\ goal_fact_key (gf_goal_id stored) (gf_operation_id stored) k = Good (f_key f).
Proof.
  unfold validate_source. destruct (_ || _) eqn:E; [done|]. intros Hv. ginv. guards.
  match goal with H1 : fact_kind_parse _ = _ |- _ => apply kind_parse_Good in H1 end. subst.
  split_and!; try done.
  - destruct c as [v|]; [|done]. by guards.
  - by eexists.
Qed.

Lemma unit_Good (m : GoalResult unit) u : m = Good u -> m = Good tt.
Proof. by destruct u. Qed.
Lemma checked_add_Some max a b r : checked_add max a b = Some r -> r = a + b /\ r <= max.
Proof. unfold checked_add. destruct (_ <=? _) eqn:E; intros [= <-]. lia. Qed.

Lemma binding_for_inv command r b : binding_for command r = Good b ->
  binding_validate b = Good tt /\ b_goal_id b = dc_goal_id command /\ b_session_id b = dc_session_id command
  /\ b_workspace b = dc_workspace command /\ b_goal_revision b = r
  /\ b_work_policy_digest b = dc_work_policy_digest command
  /\ b_scope_fact_sequences b = dc_scope_fact_sequences command /\ b_non_goals b = dc_non_goals command.
Proof. unfold binding_for. intros Hb. ginv. subst b. split_and!; try done. by eapply unit_Good. Qed.

Lemma next_revision_inv command c r : next_revision command c = Good r ->
  (dc_kind command = Commands.Create /\ c = None /\ r = 1)
  \/ (dc_kind command = Commands.Revise /\ exists v, c = Some v /\ terminal (v_state v) = false
      /\ dc_goal_id command = b_goal_id (v_binding v) /\ r = b_goal_revision (v_binding v) + 1 /\ r <= u32_max).
Proof.
  unfold next_revision. destruct (dc_kind command), c as [v|]; try done; destruct (_ && _) eqn:E; try done.
  - intros [= <-]. by left.
  - unfold binding_next_revision. intros Hr. ginv. guards. right. split; [done|]. exists v.
    match goal with H1 : checked_add _ _ _ = _ |- _ => apply checked_add_Some in H1 as [-> Hle] end.
    by split_and!.
Qed.

(** ** Each fold is a step of the machine *)
Lemma fold_definition_step f k facts c op dg v :
  fold_definition f k facts c session workspace policy = Good (op, dg, v) ->
  step (f_seq f) c (if bool_decide (k = Commands.Create) then Kinds.Created else Kinds.Revised) v
  /\ f_seq f <> 0 /\ after (f_seq f) c.
Proof.
  intros Hf. unfold fold_definition in Hf. ginv. guards. injection Hf as <- <- <-. rename x into stored.
  match goal with H1 : validate_source _ _ _ _ _ = _ |- _ =>
    apply validate_source_inv in H1 as (Hs & Hp & Hq & Ha & _) end.
  match goal with H1 : binding_for _ _ = _ |- _ =>
    apply binding_for_inv in H1 as (Hv & Hg & Hse & Hw & Hr & Hpo & _); cbn in Hg, Hse, Hw, Hr, Hpo end.
  match goal with H1 : next_revision _ _ = _ |- _ => apply next_revision_inv in H1 as Hn end.
  assert (Hb : bound_here session workspace policy (db_binding (gf_body stored))).
  { split_and!; congruence. }
  split; [|done]. unfold definition_view.
  destruct Hn as [(Ek & -> & E1)|(Ek & cv & -> & Ht & Eg & Er & Hmax)]; cbn in Ek; subst k.
  - rewrite bool_decide_true by done. constructor; cbn; try done; try congruence.
    destruct (db_import_source _) as [[? []]|]; by (left + right).
  - cbn in Eg. cbn [plan_revision_of] in *. rewrite bool_decide_false by done.
    apply gs_revise; cbn; try done; congruence.
Qed.

(** The shape of an accepted plan request. *)
Lemma plan_request_inv command u : plan_validate_request command = Good u ->
  (pc_kind command = Commands.ProposePlan /\ exists plan, pc_plan command = Some plan)
  \/ (pc_kind command = Commands.AcceptPlan /\ pc_plan command = None
      /\ exists s, pc_proposal_sequence command = Some s /\ 0 < s).
Proof.
  unfold plan_validate_request. intros Hv. ginv.
  destruct (pc_kind command), (pc_plan command), (pc_proposal_sequence command) as [s|]; try done.
  - left. split; [done|]. by eexists.
  - right. split_and!; try done. exists s. split; [done|]. destruct (0 <? s) eqn:E; [lia|done].
Qed.
Lemma plan_transition_step v command seq w i : plan_transition v command seq = Good (w, i) ->
  step seq (Some v)
    (if bool_decide (pc_kind command = Commands.ProposePlan) then Kinds.PlanProposed else Kinds.PlanAccepted) w.
Proof.
  unfold plan_transition. intros Ht. ginv.
  match goal with H1 : plan_validate_request _ = _ |- _ => apply plan_request_inv in H1 as Hr end.
  guards. destruct Hr as [(Hk & plan & Hp)|(Hk & Hp & s & Hsq & _)]; rewrite Hk; rewrite Hp in Ht; ginv; guards.
  - injection Ht as <- <-. rewrite bool_decide_true by done.
    match goal with H1 : checked_add _ _ _ = _ |- _ => apply checked_add_Some in H1 as [-> Hle] end.
    by eapply gs_propose.
  - injection Ht as <- <-. rewrite bool_decide_false by done. eapply gs_accept; try done. congruence.
Qed.
Lemma fold_plan_step f k c op dg v : f_kind f = fact_kind_as_str k ->
  k = Kinds.PlanProposed \/ k = Kinds.PlanAccepted ->
  fold_plan f c session workspace policy = Good (op, dg, v) ->
  step (f_seq f) c k v /\ f_seq f <> 0 /\ after (f_seq f) c.
Proof.
  intros Ek Hk Hf. unfold fold_plan in Hf. ginv. guards. injection Hf as <- <- <-. subst c.
  match goal with H1 : validate_source _ _ _ _ _ = _ |- _ =>
    apply validate_source_inv in H1 as (Hs & Hp & Hq & Ha & _) end.
  split; [|done]. match goal with H1 : plan_transition _ _ _ = _ |- _ => apply plan_transition_step in H1 as Hstep end.
  rewrite Ek in Hstep. by destruct Hk as [-> | ->].
Qed.

Lemma control_transition_step v command seq w : control_transition v command seq = Good w ->
  step seq (Some v) (control_fact_kind (cc_kind command)) w.
Proof.
  unfold control_transition. intros Ht. ginv. guards. subst w. apply gs_control; [done|].
  destruct (cc_kind command), (v_state v) eqn:Es; try done; ginv; subst x1; cbn [control_fact_kind];
    constructor; auto.
Qed.
Lemma control_kind_find s k :
  List.find (fun k => str_eqb (fact_kind_as_str (control_fact_kind k)) s)
            [Commands.Pause; Commands.Resume; Commands.Cancel] = Some k ->
  s = fact_kind_as_str (control_fact_kind k).
Proof. by intros [_ <-%str_eqb_spec]%find_some. Qed.
Lemma fold_control_step f k c op dg v : f_kind f = fact_kind_as_str k ->
  fold_control f c session workspace policy = Good (op, dg, v) ->
  step (f_seq f) c k v /\ f_seq f <> 0 /\ after (f_seq f) c.
Proof.
  intros Ek Hf. unfold fold_control in Hf. ginv. guards. injection Hf as <- <- <-. subst c.
  match goal with H1 : validate_source _ _ _ _ _ = _ |- _ =>
    apply validate_source_inv in H1 as (Hs & Hp & Hq & Ha & _) end.
  split; [|done]. match goal with H1 : List.find _ _ = _ |- _ => apply control_kind_find in H1 end.
  match goal with H1 : control_transition _ _ _ = _ |- _ => apply control_transition_step in H1 as Hstep end.
  cbn in Hstep. assert (k = control_fact_kind x2) as -> by (apply kind_as_str_inj; congruence). done.
Qed.

Lemma fold_run_step f c u op dg v u' :
  fold_run f c session workspace policy u = Good (op, dg, v, u') ->
  step (f_seq f) c Kinds.SliceAdmitted v /\ f_seq f <> 0 /\ after (f_seq f) c.
Proof.
  intros Hf. unfold fold_run in Hf. ginv. guards. injection Hf as <- <- <- <-. subst c.
  match goal with H1 : validate_source _ _ _ _ _ = _ |- _ =>
    apply validate_source_inv in H1 as (Hs & Hp & Hq & Ha & _) end.
  split; [|done]. by eapply gs_admitted.
Qed.
Lemma fold_settle_step f c facts op dg v :
  fold_settle f c facts session workspace policy = Good (op, dg, v) ->
  step (f_seq f) c Kinds.SliceSettled v /\ f_seq f <> 0 /\ after (f_seq f) c.
Proof.
  intros Hf. unfold fold_settle in Hf. ginv. guards. injection Hf as <- <- <-. subst c.
  match goal with H1 : validate_source _ _ _ _ _ = _ |- _ =>
    apply validate_source_inv in H1 as (Hs & Hp & Hq & Ha & _) end.
  split; [|done]. constructor.
Qed.
Lemma closure_finished facts v body : closure facts v = Good (Some body) ->
  finished v = true /\ unsettled_slices facts = [] /\ has_unsettled_effects facts = false.
Proof.
  unfold closure. destruct (negb (finished v) || _ || _) eqn:E; [done|]. intros _. by guards.
Qed.
Lemma fold_complete_step f c facts op dg v :
  fold_complete f c facts session workspace policy = Good (op, dg, v) ->
  step (f_seq f) c Kinds.Completed v /\ f_seq f <> 0 /\ after (f_seq f) c.
Proof.
  intros Hf. unfold fold_complete in Hf. ginv. guards. injection Hf as <- <- <-. subst c.
  match goal with H1 : validate_source _ _ _ _ _ = _ |- _ =>
    apply validate_source_inv in H1 as (Hs & Hp & Hq & Ha & _) end.
  split; [|done]. subst x2.
  match goal with H1 : closure _ _ = _ |- _ => apply closure_finished in H1 as (Hfin & _) end. by constructor.
Qed.
Lemma fold_step_step f c facts op dg v reports :
  fold_step f c facts session workspace policy = Good (op, dg, v, reports) ->
  step (f_seq f) c Kinds.StepAccepted v /\ f_seq f <> 0 /\ after (f_seq f) c.
Proof.
  intros Hf. unfold fold_step in Hf. ginv. guards.
  match goal with H1 : validate_source _ _ _ _ _ = _ |- _ =>
    apply validate_source_inv in H1 as (Hs & Hp & Hq & Ha & _) end.
  injection Hf as <- <- <- <-. subst c. split; [|done].
  match goal with H1 : tb_step_id _ = t_id _ |- _ => rewrite H1 end. by eapply gs_step.
Qed.

Lemma wait_request_inv command u : wait_validate_request command = Good u ->
  (wc_kind command = Commands.DeclareWait /\ exists cond, wc_condition command = Some cond)
  \/ (wc_kind command = Commands.ObserveWait /\ wc_condition command = None).
Proof.
  unfold wait_validate_request. intros Hv. ginv.
  destruct (wc_kind command), (wc_condition command), (wc_evidence command); try done; [left|by right].
  split; [done|]. by eexists.
Qed.
Lemma observe_kind cond ev clock last_clock at_ : observe cond ev clock last_clock = Good (Some at_) ->
  evidence_kind ev = condition_kind cond.
Proof. by destruct cond, ev. Qed.
Lemma wait_transition_step v command seq clock last_clock w :
  wait_transition v command seq clock last_clock = Good (Some w) ->
  step seq (Some v) (wait_fact_kind command) w.
Proof.
  unfold wait_transition. intros Ht. ginv.
  match goal with H1 : wait_validate_request _ = _ |- _ => apply wait_request_inv in H1 as Hr end. guards.
  assert (Hopen : step_open v (wc_step_id command)).
  { destruct (v_plan v) as [p|] eqn:Ep; [|done].
    match goal with H1 : existsb _ _ = true |- _ => apply existsb_exists in H1 as (s & Hs & Hb) end. guards.
    by exists p, s. }
  unfold wait_fact_kind. destruct Hr as [(Hk & cond & Hc)|(Hk & Hc)]; rewrite Hk; rewrite Hc in Ht; ginv; guards.
  - rewrite bool_decide_true by done. injection Ht as <-. destruct (open_wait _ _) eqn:Eo; [done|].
    by apply gs_declare.
  - rewrite bool_decide_false by done.
    match goal with H1 : position _ _ = _ |- _ => apply position_Some in H1 as (y & Hy & Hb) end. guards.
    match goal with H1 : observe _ _ _ _ = Good ?o |- _ => destruct o as [at_|]; [|done] end.
    injection Ht as <-. simplify_eq.
    match goal with H1 : observe _ _ _ _ = _ |- _ => apply observe_kind in H1 end. by eapply gs_observe.
Qed.
Lemma fold_wait_step f k facts c last_clock op dg v u : f_kind f = fact_kind_as_str k ->
  k = Kinds.WaitDeclared \/ k = Kinds.WaitObserved ->
  fold_wait f facts c session workspace policy last_clock = Good (op, dg, v, u) ->
  step (f_seq f) c k v /\ f_seq f <> 0 /\ after (f_seq f) c.
Proof.
  intros Ek Hk Hf. unfold fold_wait in Hf. ginv. guards. injection Hf as <- <- <- <-. subst c.
  match goal with H1 : validate_source _ _ _ _ _ = _ |- _ =>
    apply validate_source_inv in H1 as (Hs & Hp & Hq & Ha & _) end.
  split; [|done]. subst x3.
  match goal with H1 : wait_transition _ _ _ _ _ = _ |- _ => apply wait_transition_step in H1 as Hstep end.
  unfold is_kind in Hstep. rewrite Ek in Hstep. by destruct Hk as [-> | ->].
Qed.

Lemma fold_kind_step f k facts c u op dg v u' : f_kind f = fact_kind_as_str k ->
  fold_kind k f facts session workspace policy c u = Good (op, dg, v, u') ->
  step (f_seq f) c k v /\ f_seq f <> 0 /\ after (f_seq f) c.
Proof.
  intros Ek Hf. destruct k; cbn [fold_kind] in Hf; try (by eapply fold_run_step); ginv;
    repeat match goal with x : _ * _ |- _ => destruct x end; cbn in Hf; injection Hf as <- <- <- <-;
    match goal with
    | H1 : fold_definition _ _ _ _ _ _ _ = _ |- _ => exact (fold_definition_step _ _ _ _ _ _ _ H1)
    | H1 : fold_plan _ _ _ _ _ = _ |- _ => eapply fold_plan_step; eauto
    | H1 : fold_settle _ _ _ _ _ _ = _ |- _ => by eapply fold_settle_step
    | H1 : fold_complete _ _ _ _ _ _ = _ |- _ => by eapply fold_complete_step
    | H1 : fold_step _ _ _ _ _ _ = _ |- _ => by eapply fold_step_step
    | H1 : fold_control _ _ _ _ _ = _ |- _ => by eapply fold_control_step
    | H1 : fold_wait _ _ _ _ _ _ _ = _ |- _ => eapply fold_wait_step; eauto
    end.
Qed.

(** ** The whole log *)
Record folded_one facts (operation : option str) (st st' : FoldedDefinitions) f k op dg v u : Prop := {
  fo_kind : f_kind f = fact_kind_as_str k;
  fo_fold : fold_kind k f facts session workspace policy (fd_current st) (fd_continuation st) = Good (op, dg, v, u);
  fo_fresh : ~ In op (fd_operations st);
  fo_current : fd_current st' = Some v;
  fo_operations : fd_operations st' = op :: fd_operations st;
  fo_replay : fd_replay st' = if bool_decide (operation = Some op) then Some (dg, v) else fd_replay st;
  fo_usage : (if bool_decide (k = Kinds.PlanAccepted) then
                match v_plan v with
                | Some plan => i ← definition_identity plan; mret (set_accepted (Some i) u)
                | None => mret (set_accepted None u)
                end
              else mret u) = Good (fd_continuation st');
}.
Lemma fold_one_inv facts operation st f st' :
  fold_one facts session workspace policy operation st f = Good st' <->
  exists k op dg v u, folded_one facts operation st st' f k op dg v u.
Proof.
  unfold fold_one. split.
  - intros Hf. ginv. subst st'.
    match goal with H1 : fact_kind_parse _ = _ |- _ => apply kind_parse_Good in H1 end.
    do 5 eexists. constructor; try done. by apply existsb_str_eqb_false.
  - intros (k & op & dg & v & u & [Hk Hf Hn Hc Ho Hr Hu]). rewrite Hk, kind_parse_as_str. cbn -[fold_kind].
    rewrite Hf. cbn -[bool_decide]. rewrite (proj2 (existsb_str_eqb_false _ _) Hn), Hu. cbn -[bool_decide].
    destruct st'. cbn in *. by subst.
Qed.

Lemma fold_one_kind facts operation st f st' :
  fold_one facts session workspace policy operation st f = Good st' ->
  exists k op dg v u, f_kind f = fact_kind_as_str k
    /\ fold_kind k f facts session workspace policy (fd_current st) (fd_continuation st) = Good (op, dg, v, u)
    /\ fd_current st' = Some v.
Proof. intros (k & op & dg & v & u & [])%fold_one_inv. by exists k, op, dg, v, u. Qed.

Lemma fold_facts_app step st l1 l2 :
  fold_facts step st (l1 ++ l2) = st' ← fold_facts step st l1; fold_facts step st' l2.
Proof.
  revert st. induction l1 as [|f l1 IH]; intros st; [done|]. cbn. destruct (is_goal_fact f); [|apply IH].
  destruct (step st f); [apply IH|done].
Qed.
(** Induction over the facts a fold has read. *)
Lemma fold_facts_ind (step : FoldedDefinitions -> Fact -> GoalResult FoldedDefinitions)
    (P : list Fact -> FoldedDefinitions -> Prop) st0 :
  P [] st0 ->
  (forall done st f, P done st -> is_goal_fact f = false -> P (done ++ [f]) st) ->
  (forall done st f st', P done st -> is_goal_fact f = true -> step st f = Good st' -> P (done ++ [f]) st') ->
  forall l st, fold_facts step st0 l = Good st -> P l st.
Proof.
  intros H1 H2 H3 l. induction l as [|f l IH] using rev_ind; intros st Hf.
  - cbn in Hf. ginv. by subst.
  - rewrite fold_facts_app in Hf. ginv. cbn in Hf. destruct (is_goal_fact f) eqn:E.
    + ginv. subst. eapply H3; eauto.
    + ginv. subst. eauto.
Qed.

Definition logged (f : Fact) (e : GoalFactKindV1 * Z) : Prop :=
  f_kind f = fact_kind_as_str (fst e) /\ f_seq f = snd e.
(** The machine events a log records. *)
Definition traces (facts : list Fact) (trace : list (GoalFactKindV1 * Z)) : Prop :=
  Forall2 logged (List.filter is_goal_fact facts) trace.

Lemma fold_run_machine facts operation done st :
  (forall f, In f done -> 0 <= f_seq f) ->
  fold_facts (fold_one facts session workspace policy operation) empty_fold done = Good st ->
  exists trace, traces done trace /\ goal_run session workspace policy trace (fd_current st).
Proof.
  intros Hseq Hf. revert Hseq. pattern done, st. revert done st Hf. apply fold_facts_ind.
  - intros _. exists []. split; constructor.
  - intros l st f IH Hg Hseq. destruct IH as (tr & Htr & Hrun); [intros; apply Hseq, in_or_app; by left|].
    exists tr. split; [|done]. unfold traces. rewrite List.filter_app. cbn. by rewrite Hg, app_nil_r.
  - intros l st f st' IH Hg (k & op & dg & v & u & Hk & Hf & Hc)%fold_one_kind Hseq.
    destruct IH as (tr & Htr & Hrun); [intros; apply Hseq, in_or_app; by left|].
    destruct (fold_kind_step _ _ _ _ _ _ _ _ _ Hk Hf) as (Hstep & Hne & Ha).
    exists (tr ++ [(k, f_seq f)]). split.
    + unfold traces. rewrite List.filter_app. cbn. rewrite Hg. apply Forall2_app; [done|].
      constructor; [|constructor]. by split.
    + rewrite Hc. eapply run_snoc; eauto.
      assert (0 <= f_seq f) by (apply Hseq, in_or_app; right; by left). lia.
Qed.

(** ** Logs that grow *)
Lemma fold_kind_det k f facts facts' c u r r' :
  fold_kind k f facts session workspace policy c u = Good r ->
  fold_kind k f facts' session workspace policy c u = Good r' -> r = r'.
Proof.
  destruct k; cbn [fold_kind]; intros H1 H2;
    unfold fold_definition, fold_settle, fold_complete, fold_step, fold_wait in H1, H2;
    ginv; guards; simplify_eq; try done;
    repeat match goal with x : _ * _ |- _ => destruct x end; simplify_eq; congruence.
Qed.
Lemma fold_one_det facts facts' operation st f a b :
  fold_one facts session workspace policy operation st f = Good a ->
  fold_one facts' session workspace policy operation st f = Good b -> a = b.
Proof.
  intros (k & op & dg & v & u & [Hk Hf Hn Hc Ho Hr Hu])%fold_one_inv
    (k' & op' & dg' & v' & u' & [Hk' Hf' Hn' Hc' Ho' Hr' Hu'])%fold_one_inv.
  assert (k' = k) as -> by (apply kind_as_str_inj; congruence).
  pose proof (fold_kind_det _ _ _ _ _ _ _ _ Hf Hf') as E. injection E as <- <- <- <-.
  rewrite Hu in Hu'. injection Hu' as Hu'. destruct a, b. cbn in *. congruence.
Qed.
Lemma fold_facts_det (s1 s2 : FoldedDefinitions -> Fact -> GoalResult FoldedDefinitions) :
  (forall st f a b, s1 st f = Good a -> s2 st f = Good b -> a = b) ->
  forall l st a b, fold_facts s1 st l = Good a -> fold_facts s2 st l = Good b -> a = b.
Proof.
  intros Hdet. induction l as [|f l IH]; intros st a b Ha Hb; cbn in Ha, Hb; [ginv; congruence|].
  destruct (is_goal_fact f); [|by eapply IH]. ginv.
  match goal with H1 : s1 _ _ = _, H2 : s2 _ _ = _ |- _ => pose proof (Hdet _ _ _ _ H1 H2) as -> end. by eapply IH.
Qed.

Definition cur_grows c c' : Prop := forall v, c = Some v -> exists v', c' = Some v' /\ grows v v'.
Lemma fold_grows facts operation st more st' :
  fold_facts (fold_one facts session workspace policy operation) st more = Good st' ->
  cur_grows (fd_current st) (fd_current st').
Proof.
  intros Hf. revert Hf. apply (fold_facts_ind _ (fun _ st' => cur_grows (fd_current st) (fd_current st'))); [|done|].
  - intros v E. by exists v.
  - intros _ s1 f s2 IH _ (k & op & dg & w & u & Hk & Hf & Hc)%fold_one_kind v Ev. destruct (IH v Ev) as (v1 & E1 & Hg).
    destruct (fold_kind_step _ _ _ _ _ _ _ _ _ Hk Hf) as (Hstep & Hne & Ha).
    rewrite E1 in Hstep, Ha. exists w. split; [done|]. etransitivity; [done|]. by eapply step_grows.
Qed.
Lemma fold_extends facts more operation st st' :
  fold_definitions facts session workspace policy operation = Good st ->
  fold_definitions (facts ++ more) session workspace policy operation = Good st' ->
  fold_facts (fold_one (facts ++ more) session workspace policy operation) st more = Good st'.
Proof.
  unfold fold_definitions. rewrite fold_facts_app. intros H1 H2. ginv.
  assert (x = st) as ->; [|done]. eapply fold_facts_det; [|done|exact H1].
  intros ? ? ? ?. apply fold_one_det.
Qed.
End Refinement.

(** A log as [a3s_effect] keeps it: sequences are unsigned. *)
Definition unsigned_log `{GoalEnv} (facts : list Fact) : Prop := List.Forall (fun f => 0 <= f_seq f) facts.

Lemma is_kind_logged `{GoalEnv} f k k' : f_kind f = fact_kind_as_str k -> is_kind k' f = bool_decide (k = k').
Proof.
  unfold is_kind. intros ->. case_bool_decide as E; [subst; apply str_eqb_refl|].
  apply str_eqb_ne. by intros ?%kind_as_str_inj.
Qed.

(** The step a slice or acceptance fact is about. *)
Definition acted_step `{GoalEnv} (f : Fact) : option str :=
  if is_kind Kinds.SliceAdmitted f then (fun b => rb_step_id (gf_body b)) <$> decode_run (f_payload f)
  else if is_kind Kinds.StepAccepted f then (fun b => tb_step_id (gf_body b)) <$> decode_step (f_payload f)
  else None.
Lemma acted_is_goal_fact `{GoalEnv} f id : acted_step f = Some id -> is_goal_fact f = true.
Proof.
  unfold acted_step, is_kind, is_goal_fact. destruct (str_eqb _ _) eqn:E; [|clear E; destruct (str_eqb _ _) eqn:E];
    try done; apply str_eqb_spec in E; by rewrite E.
Qed.
Lemma acted_current `{LogEnv} session workspace policy k f facts c u op dg v u' id :
  f_kind f = fact_kind_as_str k ->
  fold_kind k f facts session workspace policy c u = Good (op, dg, v, u') -> acted_step f = Some id ->
  exists w s, c = Some w /\ current_step w = Good s /\ t_id s = id.
Proof.
  unfold acted_step. intros Hk Hf. rewrite !(is_kind_logged f k) by done.
  case_bool_decide as E; [|case_bool_decide as E'; [|done]]; subst k; cbn [fold_kind] in Hf.
  - unfold fold_run in Hf. ginv. guards. intros Ha.
    match goal with H1 : decode_run _ = _ |- _ => rewrite H1 in Ha end. cbn in Ha. simplify_eq. eauto.
  - ginv. destruct x as [r reports]. unfold fold_step in *. ginv. guards. intros Ha.
    match goal with H1 : decode_step _ = _ |- _ => rewrite H1 in Ha end. cbn in Ha. simplify_eq. eauto.
Qed.
Lemma ready_step_inv v s : In s (ready_steps v) ->
  exists plan, v_plan v = Some plan /\ In s (p_steps plan) /\ t_status s = Pending /\ open_wait v (t_id s) = None
    /\ (forall d, In d (t_dependencies s) ->
          exists t, find_step d (p_steps plan) = Some t /\ t_status t = Completed).
Proof.
  unfold ready_steps. destruct (v_plan v) as [plan|]; [|done]. intros [Hr Hw]%filter_In.
  apply filter_In in Hr as [Hin Hr]. unfold is_ready in Hr. guards. exists plan. split_and!; try done.
  - by destruct (open_wait _ _).
  - rewrite forallb_forall in *. intros d Hd. match goal with H1 : forall _, _ |- _ => apply H1 in Hd end.
    destruct (find_step d _) as [t|]; [|done]. guards. by exists t.
Qed.

(** ** Which fact completed a step *)
(** The parts of a definition a step fact is bound to. *)
Definition same_plan `{GoalEnv} (c v : DurableGoalDefinitionV1) : Prop :=
  b_goal_revision (v_binding v) = b_goal_revision (v_binding c) /\ v_plan_revision v = v_plan_revision c
  /\ v_plan_fact_sequence v = v_plan_fact_sequence c.
(** [f] accepts step [id] of the plan [v] has now: it names the step, the goal
    revision, the plan revision and the plan's identity, and comes after the
    proposal of that plan. *)
Definition accepts_step `{GoalEnv} (v : DurableGoalDefinitionV1) (p : ExecutionPlan) (id : str) (f : Fact) : Prop :=
  is_kind Kinds.StepAccepted f = true
  /\ exists stored, decode_step (f_payload f) = Some stored /\ tb_step_id (gf_body stored) = id
     /\ gf_goal_revision stored = b_goal_revision (v_binding v) /\ gf_plan_revision stored = v_plan_revision v
     /\ definition_identity p = Good (tb_plan_identity (gf_body stored))
     /\ exists q, v_plan_fact_sequence v = Some q /\ q < f_seq f.
(** Every completed step has a fact of its own that accepted it. *)
Definition earned `{GoalEnv} (facts : list Fact) (v : DurableGoalDefinitionV1) : Prop :=
  (forall p q, v_plan v = Some p -> v_plan_fact_sequence v = Some q -> q <= v_goal_sequence v)
  /\ forall p s, v_plan v = Some p -> In s (p_steps p) -> t_status s = Completed ->
       exists f, In f facts /\ accepts_step v p (t_id s) f.

Section Earned.
Context `{LogEnv} (session : str) (workspace : WorkspaceRef) (policy : option str).

(** What a step does to the plan: no step of it is completed, it is as it was,
    or the current step is marked. *)
Lemma step_plan seq c kind v p : goal_step session workspace policy seq c kind v -> v_plan v = Some p ->
  (v_plan_fact_sequence v = Some seq /\ v_goal_sequence v = seq /\ forall s, In s (p_steps p) -> t_status s <> Completed)
  \/ exists w, c = Some w /\ same_plan w v /\ (v_goal_sequence v = seq \/ v = w)
     /\ (v_plan w = Some p
         \/ kind = Kinds.StepAccepted /\ exists s plan, current_step w = Good s /\ v_plan w = Some plan
              /\ p = mark_status (t_id s) Completed plan).
Proof.
  intros Hstep Hp. destruct Hstep as [v ? ? ? ? [E _]|c v ? ? ? ? ? ? ? [E _]|c plan i r|c plan i|c s|c|
    c s plan Hs E|c k s Ht Hc|c id cond|c id i w ev ck|c Hf]; cbn in Hp |- *; try congruence.
  - left. simplify_eq. split_and!; try done. unfold pending_copy. cbn. intros s (t & <- & _)%in_map_iff. done.
  - right. exists c. split_and!; [done..|by left|by left].
  - right. exists c. split_and!; [done..|by left|by left].
  - right. exists c. split_and!; [done..|by right|by left].
  - right. exists c. simplify_eq. split_and!; [done..|by left|right]. split; [done|]. by exists s, plan.
  - right. exists c. split_and!; [done..|by left|by left].
  - right. exists c. split_and!; [done..|by left|by left].
  - right. exists c. split_and!; [done..|by left|by left].
  - right. exists c. split_and!; [done..|by left|by left].
Qed.
Lemma accepts_step_same c v p q id f : same_plan c v -> plan_definition q = plan_definition p ->
  accepts_step c p id f -> accepts_step v q id f.
Proof.
  intros (Er & Ep & Eq) Ed (Hk & stored & Hd & Hid & Hr & Hp & Hi & x & Hx & Hlt). split; [done|].
  exists stored. unfold definition_identity in *. rewrite Er, Ep, Eq, Ed. split_and!; try done. by exists x.
Qed.
Lemma mark_completes id p s : In s (p_steps (mark_status id Completed p)) -> t_status s = Completed ->
  t_id s = id \/ In s (p_steps p).
Proof.
  unfold mark_status. cbn. induction (p_steps p) as [|t l IH]; [done|]. cbn [update_first].
  destruct (str_eqb (t_id t) id) eqn:E.
  - intros [<-|Hin] _; [left; by apply str_eqb_spec in E|right; by right].
  - intros [<-|Hin] Hs; [right; by left|]. destruct (IH Hin Hs); [by left|right; by right].
Qed.
Lemma fold_step_accepts f facts c r : fold_step f c facts session workspace policy = Good r ->
  f_kind f = fact_kind_as_str Kinds.StepAccepted ->
  forall w s p q, c = Some w -> current_step w = Good s -> v_plan w = Some p -> v_plan_fact_sequence w = Some q ->
    q <= v_goal_sequence w -> accepts_step w p (t_id s) f.
Proof.
  intros Hf Hk w s p q -> Hs Hp Hq Hle. unfold fold_step in Hf. ginv. guards. simplify_eq.
  match goal with H1 : validate_source _ _ _ _ _ = _ |- _ =>
    apply validate_source_inv in H1 as (_ & _ & _ & Ha & _) end. cbn in Ha.
  split; [rewrite (is_kind_logged f Kinds.StepAccepted) by done; by apply bool_decide_eq_true|].
  eexists. split_and!; try done; [congruence|]. exists q. split; [done|lia].
Qed.
Lemma earned_mono facts more v : earned facts v -> earned (facts ++ more) v.
Proof.
  intros [Hq He]. split; [done|]. intros p s Hp Hs Hc. destruct (He p s Hp Hs Hc) as (f & Hf & Ha).
  exists f. split; [apply in_app_iff; by left|done].
Qed.
Lemma fold_kind_earned k f facts l c u op dg v u' : f_kind f = fact_kind_as_str k ->
  fold_kind k f facts session workspace policy c u = Good (op, dg, v, u') ->
  (forall w, c = Some w -> view_ok session workspace policy w /\ earned l w) -> earned (l ++ [f]) v.
Proof.
  intros Hk Hf Hc. destruct (fold_kind_step _ _ _ _ _ _ _ _ _ _ _ _ Hk Hf) as (Hstep & _ & Hafter). split.
  - intros p q Hp Hq. destruct (step_plan _ _ _ _ _ Hstep Hp) as [(E & Eseq & _)|(w & -> & Hsame & Hseq & Hplan)].
    { simplify_eq. lia. }
    assert (exists p', v_plan w = Some p') as [p' Hp'] by (destruct Hplan as [?|(_ & s & plan & _ & ? & _)]; eauto).
    destruct (Hc w eq_refl) as [_ [Hle _]]. pose proof Hsame as (_ & _ & Eq). rewrite Eq in Hq.
    specialize (Hle p' q Hp' Hq). cbn in Hafter. destruct Hseq as [-> | ->]; lia.
  - intros p s Hp Hin Hs. destruct (step_plan _ _ _ _ _ Hstep Hp) as [(_ & _ & Hno)|(w & -> & Hsame & _ & Hplan)].
    { by destruct (Hno s Hin). }
    destruct (Hc w eq_refl) as [Hok [Hle Hearn]]. destruct Hplan as [Hw|(-> & t & plan & Ht & Hw & ->)].
    { destruct (Hearn p s Hw Hin Hs) as (g & Hg & Ha). exists g. split; [apply in_app_iff; by left|].
      by eapply accepts_step_same. }
    destruct (mark_completes _ _ _ Hin Hs) as [Hid|Hold].
    + exists f. split; [apply in_app_iff; right; by left|]. rewrite Hid.
      destruct (vo_plan _ _ _ _ Hok plan Hw) as (_ & Hq & _). destruct (v_plan_fact_sequence w) as [q|] eqn:Eq; [|done].
      cbn [fold_kind] in Hf. ginv. eapply accepts_step_same; [done|apply mark_definition|].
      by eapply fold_step_accepts; eauto.
    + destruct (Hearn plan s Hw Hold Hs) as (g & Hg & Ha). exists g. split; [apply in_app_iff; by left|].
      eapply accepts_step_same; [done|apply mark_definition|done].
Qed.
Lemma fold_earned facts operation l st : (forall f, In f l -> 0 <= f_seq f) ->
  fold_facts (fold_one facts session workspace policy operation) empty_fold l = Good st ->
  forall v, fd_current st = Some v -> view_ok session workspace policy v /\ earned l v.
Proof.
  intros Hseq Hf. revert Hseq. pattern l, st. revert l st Hf. apply fold_facts_ind; [done| |].
  - intros l st f IH _ Hseq v Hv. destruct (IH ltac:(intros; apply Hseq, in_or_app; by left) v Hv) as [Hok He].
    split; [done|]. by apply earned_mono.
  - intros l st f st' IH _ (k & op & dg & w & u & Hk & Hf & Hc)%fold_one_kind Hseq v Hv. rewrite Hc in Hv. simplify_eq.
    assert (Hprev : forall w, fd_current st = Some w -> view_ok session workspace policy w /\ earned l w)
      by (apply IH; intros; apply Hseq, in_or_app; by left).
    split; [|by eapply fold_kind_earned].
    destruct (fold_kind_step _ _ _ _ _ _ _ _ _ _ _ _ Hk Hf) as (Hstep & Hne & _).
    eapply goal_step_ok; [|..|exact Hstep]; [intros x Hx; by apply Hprev|].
    assert (0 <= f_seq f) by (apply Hseq, in_or_app; right; by left). lia.
Qed.
End Earned.

Section Claims.
Context `{LogEnv} (session : str) (workspace : WorkspaceRef) (policy : option str).

(** C5. The projection of the goal stream refines the goal machine: whenever the
    fold accepts a log, the goal facts of the log, in order, are the events of
    a run of the machine that ends in the folded definition. *)
Theorem log_refines_machine (facts : list Fact) (operation : option str) (st : FoldedDefinitions)
    (Hlog : unsigned_log facts)
    (Hfold : fold_definitions facts session workspace policy operation = Good st) :
  exists trace, traces facts trace /\ goal_run session workspace policy trace (fd_current st).
Proof. eapply fold_run_machine; [|exact Hfold]. by apply List.Forall_forall. Qed.

(** C38. Every definition the fold accepts is well formed: it is bound to the
    session, workspace and policy it was read for and passes its own
    validation, its goal and plan revisions are 32-bit and at least 1, a plan
    has distinct step ids, an acyclic graph, only pending and completed steps
    and a derivable identity, waits exist only under an accepted plan, at most
    one of them is open per step, and all their sequences are real. *)
Theorem folded_definition_well_formed (facts : list Fact) (operation : option str) (st : FoldedDefinitions)
    (v : DurableGoalDefinitionV1) (Hlog : unsigned_log facts)
    (Hfold : fold_definitions facts session workspace policy operation = Good st)
    (Hv : fd_current st = Some v) :
  view_ok session workspace policy v.
Proof.
  unshelve edestruct (fold_run_machine session workspace policy facts operation facts st) as (tr & _ & Hrun);
    [by apply List.Forall_forall|done|]. by eapply goal_run_ok.
Qed.

(** A goal never goes backwards: when a log with a goal grows and both logs
    are accepted, the goal keeps its id, its sequence, revision and plan
    revision do not decrease, and a completed or cancelled goal does not change
    at all. *)
Theorem goal_never_goes_backwards (facts more : list Fact) (operation : option str)
    (st st' : FoldedDefinitions) (v : DurableGoalDefinitionV1)
    (Hfold : fold_definitions facts session workspace policy operation = Good st)
    (Hfold' : fold_definitions (facts ++ more) session workspace policy operation = Good st')
    (Hv : fd_current st = Some v) :
  exists v', fd_current st' = Some v' /\ grows v v'.
Proof. exact (fold_grows session workspace policy _ _ _ _ _ (fold_extends session workspace policy _ _ _ _ _ Hfold Hfold') v Hv). Qed.

(** C39. Completion is earned: a goal is completed only when its plan was
    accepted, every step of the plan is completed, no wait is open, and each step
    of the plan has an accepted-step fact of its own in the log that names it and
    the goal's revision, plan revision and plan identity, and that was stored
    after the plan was proposed: what an earlier plan completed does not count. *)
Theorem completion_is_earned (facts : list Fact) (operation : option str) (st : FoldedDefinitions)
    (v : DurableGoalDefinitionV1) (Hlog : unsigned_log facts)
    (Hfold : fold_definitions facts session workspace policy operation = Good st)
    (Hv : fd_current st = Some v) (Hdone : v_state v = States.Completed) :
  closed_goal v
  /\ exists p, v_plan v = Some p
     /\ forall s, In s (p_steps p) -> exists f, In f facts /\ accepts_step v p (t_id s) f.
Proof.
  unshelve edestruct (fold_run_machine session workspace policy facts operation facts st) as (tr & Htr & Hrun);
    [by apply List.Forall_forall|done|].
  pose proof (completed_closed _ _ _ _ _ Hrun v Hv Hdone) as Hc. split; [done|].
  destruct (cg_steps _ Hc) as (p & Hp & _ & Hall). exists p. split; [done|]. intros s Hs.
  unshelve edestruct (fold_earned session workspace policy facts operation facts st) as (_ & _ & He);
    [exact v|by apply List.Forall_forall|done|done|].
  apply (He p s Hp Hs). by eapply List.Forall_forall in Hall.
Qed.

(** Work happens on ready steps only: a slice is admitted, or a step
    accepted, only for a step of the accepted plan of an active goal that is
    pending, whose dependencies are all completed and that has no open wait. *)
Theorem work_targets_ready_step (facts : list Fact) (f : Fact) (operation : option str)
    (st st' : FoldedDefinitions) (id : str)
    (Hfold : fold_definitions facts session workspace policy operation = Good st)
    (Hfold' : fold_definitions (facts ++ [f]) session workspace policy operation = Good st')
    (Hf : acted_step f = Some id) :
  exists v plan s, fd_current st = Some v /\ v_state v = States.Active /\ v_plan_accepted v = true
    /\ v_plan v = Some plan /\ In s (p_steps plan) /\ t_id s = id /\ t_status s = Pending
    /\ open_wait v id = None
    /\ (forall d, In d (t_dependencies s) ->
          exists t, find_step d (p_steps plan) = Some t /\ t_status t = Completed).
Proof.
  pose proof (fold_extends session workspace policy _ _ _ _ _ Hfold Hfold') as Hf'. clear Hfold Hfold'.
  cbn [fold_facts] in Hf'. rewrite (acted_is_goal_fact _ _ Hf) in Hf'. ginv.
  match goal with H1 : fold_one _ _ _ _ _ _ _ = _ |- _ => apply fold_one_kind in H1 as (k & op & dg & v & u & Hk & Hk' & _) end.
  destruct (acted_current _ _ _ _ _ _ _ _ _ _ _ _ _ Hk Hk' Hf) as (w & s & Hw & Hs & <-).
  destruct (current_step_active _ _ Hs) as (Ha & Hp & Hin). exists w.
  destruct (ready_step_inv _ _ Hin) as (plan & Hplan & Hins & Hpend & Hwait & Hdeps).
  exists plan, s. by split_and!.
Qed.
End Claims.

(** ** The sample goal *)
Definition sample_fold (facts : list Fact) : FoldedDefinitions :=
  match fold_definitions facts Sample.session Sample.workspace None None with
  | Good st => st
  | Bad _ => empty_fold
  end.
Lemma sample_unsigned : unsigned_log Sample.completed.
Proof. apply List.Forall_forall. intros f Hf. apply Z.leb_le. revert f Hf. by apply forallb_forall. Qed.

Lemma log_refines_machine_witness : exists trace, traces Sample.completed trace
  /\ goal_run Sample.session Sample.workspace None trace (fd_current (sample_fold Sample.completed)).
Proof.
  apply (log_refines_machine Sample.session Sample.workspace None Sample.completed None).
  - exact sample_unsigned.
  - vm_compute. reflexivity.
Defined.
Lemma folded_definition_well_formed_witness :
  exists v, fd_current (sample_fold Sample.completed) = Some v /\ view_ok Sample.session Sample.workspace None v.
Proof.
  eexists. split; [vm_compute; reflexivity|].
  apply (folded_definition_well_formed Sample.session Sample.workspace None Sample.completed None
           (sample_fold Sample.completed)); [exact sample_unsigned| |]; vm_compute; reflexivity.
Defined.
Lemma goal_never_goes_backwards_witness :
  match fd_current (sample_fold Sample.accepted) with
  | Some v => exists v', fd_current (sample_fold Sample.completed) = Some v' /\ grows v v'
  | None => False
  end.
Proof.
  destruct (fd_current (sample_fold Sample.accepted)) as [v|] eqn:E; [|vm_compute in E; discriminate E].
  apply (goal_never_goes_backwards Sample.session Sample.workspace None Sample.accepted
           (drop 3 Sample.completed) None (sample_fold Sample.accepted)); [..|exact E]; vm_compute; reflexivity.
Defined.
Lemma completion_is_earned_witness :
  exists v, fd_current (sample_fold Sample.completed) = Some v
    /\ option_map (fun p => map t_id (p_steps p)) (v_plan v) = Some [$"a"; $"b"]
    /\ closed_goal v /\ exists p, v_plan v = Some p
       /\ forall s, In s (p_steps p) -> exists f, In f Sample.completed /\ accepts_step v p (t_id s) f.
Proof.
  eexists. split; [vm_compute; reflexivity|].
  split; [vm_compute; reflexivity|].
  apply (completion_is_earned Sample.session Sample.workspace None Sample.completed None
           (sample_fold Sample.completed)); [exact sample_unsigned| | |]; vm_compute; reflexivity.
Defined.
Definition sample_slice : Fact := List.nth 3 Sample.completed (mkFact 0 [] [] false (POther JNull)).
Lemma work_targets_ready_step_witness :
  exists v plan s, fd_current (sample_fold Sample.accepted) = Some v /\ v_plan v = Some plan
    /\ In s (p_steps plan) /\ t_id s = $"a" /\ t_status s = Pending.
Proof.
  destruct (work_targets_ready_step Sample.session Sample.workspace None Sample.accepted sample_slice None
    (sample_fold Sample.accepted) (sample_fold (Sample.accepted ++ [sample_slice])) $"a")
    as (v & plan & s & E & _ & _ & Ep & Hin & Hid & Hp & _); [vm_compute; reflexivity..|].
  exists v, plan, s. by split_and!.
Defined.
