(* ===== verification/GoalFacade.v ===== *)
(** The host commands of a session on its goal ([agent_api/goal_facade.rs]):
    what each one appends to the log and the definition it returns. Leases, the
    writer fence and the log's storage are not part of the model: a command runs
    on the facts it read, and [log_append] stands for the log. *)
From S2P Require Import Prelude Planning Goal GoalLog.

(** [append_goal], on the facts the log appended. *)
Definition stamp_wait (seq : Z) (w : GoalWaitV1) : GoalWaitV1 :=
  mkWait (w_step_id w) (if w_declared_sequence w =? 0 then seq else w_declared_sequence w) (w_condition w)
    (match w_observed w with
     | Some o => Some (if wo_sequence o =? 0 then mkWaitObservation seq (wo_evidence o) (wo_observed_unix_ms o) else o)
     | None => None
     end).
Definition with_plan_sequence (seq : option Z) (v : DurableGoalDefinitionV1) : DurableGoalDefinitionV1 :=
  mkDefinition (v_binding v) (v_state v) (v_import_source v) (v_goal v) (v_goal_sequence v)
               (v_plan_revision v) (v_plan v) seq (v_plan_accepted v) (v_waits v).

(** The sequences of a prepared definition, once its fact has one. *)
Definition stamp (seq : Z) (kind : str) (view : DurableGoalDefinitionV1) : DurableGoalDefinitionV1 :=
  let view := with_sequence seq view in
  let view := if str_eqb kind (fact_kind_as_str Kinds.PlanProposed)
              then with_plan_sequence (Some seq) view else view in
  with_waits (map (stamp_wait seq) (v_waits view)) view.

Section Facade.
Context `{LogEnv}.

Definition append_goal (appended : list Fact) (pending : NewFact) (view : DurableGoalDefinitionV1)
    : GoalResult DurableGoalDefinitionV1 :=
  fact ← ok_or (List.find (fun f => str_eqb (f_key f) (n_key pending) && str_eqb (f_kind f) (n_kind pending))
                          appended) (Refused Refusals.Conflict);
  mret (stamp (f_seq fact) (n_kind pending) view).

(** What a session hands to its goal commands: itself, its workspace, the digest
    of its admitted work policy, and the log. [ld_append] is the log crate's
    append (the facts it stored), [ld_standing] the standing context
    [admit_nonexecuting_standing] stores first, and [ld_commit_policy] the policy
    fact [commit_policy] stores after it, when there is one still to store. *)
Record SessionLog : Type := mkSessionLog {
  ld_session : str;
  ld_workspace : WorkspaceRef;
  ld_policy : option str;
  ld_append : list Fact -> list NewFact -> GoalResult (list Fact);
  ld_standing : list Fact -> GoalResult (list Fact);
  ld_commit_policy : list Fact -> GoalResult (list Fact);
}.

(** The rest of a command, once its fact is prepared: [store_first] stores what goes
    before the fact, and the answer is the new log and the definition. *)
Definition commit_prepared (host : SessionLog) (store_first : list Fact -> GoalResult (list Fact))
    (facts : list Fact) (p : PreparedDefinition) : GoalResult (list Fact * DurableGoalDefinitionV1) :=
  match pending_fact p with
  | None => mret (facts, prepared p)
  | Some pending =>
      before ← store_first facts;
      let facts := facts ++ before in
      appended ← ld_append host facts [pending];
      view ← append_goal appended pending (prepared p);
      mret (facts ++ appended, view)
  end.
(** What a definition stores first: the standing context, then its policy. *)
Definition admit_definition (host : SessionLog) (facts : list Fact) : GoalResult (list Fact) :=
  standing ← ld_standing host facts;
  policy ← ld_commit_policy host (facts ++ standing);
  mret (standing ++ policy).

Definition apply_goal_definition (host : SessionLog) (facts : list Fact) (command : GoalDefinitionCommandV1)
    : GoalResult (list Fact * DurableGoalDefinitionV1) :=
  fail_if (bool_decide (dc_import_source command <> None)) (Refused Refusals.Conflict) ;;
  p ← prepare_definition facts (ld_session host) (ld_workspace host) (ld_policy host) command;
  commit_prepared host (admit_definition host) facts p.
(** [source] is the answer of the host's source verifier, which is asked only
    when there is a fact to store. *)
Definition apply_goal_import (host : SessionLog) (facts : list Fact) (command : GoalDefinitionCommandV1)
    (source : GoalResult unit) : GoalResult (list Fact * DurableGoalDefinitionV1) :=
  fail_if (bool_decide (dc_import_source command = None)) (Refused Refusals.Conflict) ;;
  p ← prepare_definition facts (ld_session host) (ld_workspace host) (ld_policy host) command;
  commit_prepared host (fun facts => source ;; admit_definition host facts) facts p.
Definition apply_goal_plan (host : SessionLog) (facts : list Fact) (command : GoalPlanCommandV1)
    : GoalResult (list Fact * DurableGoalDefinitionV1) :=
  p ← prepare_plan facts (ld_session host) (ld_workspace host) (ld_policy host) command;
  commit_prepared host (ld_standing host) facts p.
Definition apply_goal_control (host : SessionLog) (facts : list Fact) (command : GoalControlCommandV1)
    : GoalResult (list Fact * DurableGoalDefinitionV1) :=
  p ← prepare_control facts (ld_session host) (ld_workspace host) (ld_policy host) command;
  commit_prepared host (ld_standing host) facts p.
(** [now] is the host clock, read first. *)
Definition apply_goal_wait (host : SessionLog) (facts : list Fact) (command : GoalWaitCommandV1) (now : Z)
    : GoalResult (list Fact * DurableGoalDefinitionV1 * bool) :=
  p ← prepare_wait facts (ld_session host) (ld_workspace host) (ld_policy host) command now;
  r ← commit_prepared host (ld_standing host) facts (snd p);
  mret (r, fst p).

Definition check_goal_step_run (facts : list Fact) (host : SessionLog) (goal_id : str)
    (goal_revision plan_revision : Z) (step_id run_id : str) : GoalResult unit :=
  v ← definition_from_facts facts (ld_session host) (ld_workspace host) (ld_policy host);
  view ← ok_or v (Refused Refusals.NotFound);
  fail_if (negb (str_eqb (b_goal_id (v_binding view)) goal_id)
           || negb (b_goal_revision (v_binding view) =? goal_revision)
           || negb (bool_decide (v_plan_revision view = Some plan_revision)))
          (Refused Refusals.EvidenceStale) ;;
  check_step_run facts view step_id run_id.

(** Settles the slices left open, then completes the goal if that closed it. *)
Definition reconcile_goal_slices (host : SessionLog) (facts : list Fact)
    : GoalResult (list Fact * nat) :=
  pending ← reconcile_slices facts (ld_session host) (ld_workspace host) (ld_policy host);
  facts ← (if bool_decide (map n_key pending = []) then mret facts
           else appended ← ld_append host facts pending; mret (facts ++ appended));
  completed ← prepare_completion facts (ld_session host) (ld_workspace host) (ld_policy host);
  match completed with
  | None => mret (facts, length pending)
  | Some n => appended ← ld_append host facts [n]; mret (facts ++ appended, S (length pending))
  end.
End Facade.
