(* ===== verification/GoalCommit.v ===== *)
(** Commands against the log: a fact the code prepares is a fact the code
    accepts, the definition a command answers with is the one the log reads
    back, and repeating a command changes nothing. *)
From S2P Require Import Prelude Text Planning PlanningFacts Goal GoalPlanFacts GoalLog GoalMachine GoalScenario.
From S2P Require Import GoalLogFacts GoalFacade.

(** ** Reading a longer log *)
Lemma gbind_mono {A B C} (m : GoalResult A) (f : A -> GoalResult B) (f' : A -> GoalResult C) b r :
  (m ≫= f) = Good b -> (forall a, m = Good a -> f a = Good b -> f' a = r) -> (m ≫= f') = r.
Proof. destruct m as [a|e]; cbn; [|done]. eauto. Qed.

(** [pass] goes through a guard whose conditions are equations at hand. *)
Lemma fail_if_pass c e : c = false -> fail_if c e = Good tt.
Proof. by intros ->. Qed.
Ltac pass :=
  rewrite fail_if_pass; [cbn [mbind goal_bind]|
    repeat apply orb_false_intro; apply negb_false_iff;
    first [apply Z.eqb_eq|apply str_eqb_spec|apply bool_decide_eq_true]; cbn; congruence].

Section Later.
Context `{GoalEnv}.
(** [more] was appended after [facts]. *)
Definition later (facts more : list Fact) : Prop :=
  forall f g, In f facts -> In g more -> f_seq f < f_seq g.

Lemma before_seq_app facts more f : In f facts ->
  before_seq (f_seq f) (facts ++ more) = before_seq (f_seq f) facts.
Proof.
  intros Hin. unfold before_seq.
  destruct (position_In (fun g => f_seq g =? f_seq f) facts f Hin) as [n Hn]; [apply Z.eqb_refl|].
  rewrite (position_app _ _ _ _ Hn), Hn. apply take_app_le. apply position_lt in Hn. lia.
Qed.
Lemma prefix_below_app facts more f : In f facts ->
  prefix_below (f_seq f) (facts ++ more) = prefix_below (f_seq f) facts.
Proof.
  intros Hin. induction facts as [|g facts IH]; [done|]. cbn. destruct (f_seq g <? f_seq f) eqn:E; [|done].
  destruct Hin as [->|Hin]; [lia|]. by rewrite IH.
Qed.
Lemma prefix_below_all q facts : (forall f, In f facts -> f_seq f < q) -> prefix_below q facts = facts.
Proof.
  intros Hq. induction facts as [|f facts IH]; [done|]. cbn.
  rewrite (proj2 (Z.ltb_lt _ _) (Hq f (or_introl eq_refl))). f_equal. apply IH. intros g Hg. apply Hq. by right.
Qed.
Lemma previous_app facts more f : In f facts -> later facts more ->
  List.find (fun g => f_seq g <? f_seq f) (rev (facts ++ more)) = List.find (fun g => f_seq g <? f_seq f) (rev facts).
Proof.
  intros Hin Hl. rewrite rev_app_distr.
  assert (Hn : forall g, In g (rev more) -> (f_seq g <? f_seq f) = false).
  { intros g Hg. apply in_rev in Hg. pose proof (Hl f g Hin Hg). lia. }
  induction (rev more) as [|g l IH]; [done|]. cbn. rewrite (Hn g (or_introl eq_refl)). apply IH.
  intros h Hh. apply Hn. by right.
Qed.
End Later.

Section Commit.
Context `{LogEnv} (session : str) (workspace : WorkspaceRef) (policy : option str).
Implicit Types (v : DurableGoalDefinitionV1) (f g : Fact) (facts more : list Fact).

Ltac gmono Hf := eapply gbind_mono; [exact Hf|clear Hf; intros ? ? Hf; cbv beta zeta in Hf |- *].

Lemma fold_definition_stable f k facts more c r : later facts more ->
  fold_definition f k facts c session workspace policy = Good r ->
  fold_definition f k (facts ++ more) c session workspace policy = Good r.
Proof.
  intros Hl Hf. unfold fold_definition in *. do 4 gmono Hf.
  assert (E : forall l, existsb (fun q => (f_seq f <=? q) || negb (existsb (fun g => f_seq g =? q) facts)) l = false ->
            existsb (fun q => (f_seq f <=? q) || negb (existsb (fun g => f_seq g =? q) (facts ++ more))) l = false).
  { induction l as [|q l IH]; [done|]. cbn. intros Hq. guards. rewrite existsb_app.
    rewrite IH by done. match goal with Hx : existsb _ facts = true |- _ => rewrite Hx end. cbn. lia. }
  apply gbind_Good in Hf as (u & Hu & Hf). apply fail_if_Good in Hu. apply orb_false_iff in Hu as [Hu1 Hu2].
  rewrite Hu1, (E _ Hu2). exact Hf.
Qed.
Lemma fold_step_stable f facts more c r : In f facts -> later facts more ->
  fold_step f c facts session workspace policy = Good r ->
  fold_step f c (facts ++ more) session workspace policy = Good r.
Proof.
  intros Hin Hl Hf. unfold fold_step in *. do 3 gmono Hf. rewrite previous_app by done.
  match type of Hf with (?m ≫= _) = _ => destruct m as [n|] eqn:En; [|done] end.
  apply ok_or_Good in En. rewrite (position_app _ _ _ _ En). cbn in Hf |- *.
  rewrite take_app_le by (apply position_lt in En; lia). destruct (cut_log _) as [q d].
  match type of Hf with (?m ≫= _) = _ => destruct m as [b|] eqn:Eb; [|done] end.
  apply ok_or_Good in Eb. rewrite (lookup_app_l_Some _ _ _ _ Eb). exact Hf.
Qed.

Lemma fold_kind_stable k f facts more c u r : In f facts -> later facts more ->
  fold_kind k f facts session workspace policy c u = Good r ->
  fold_kind k f (facts ++ more) session workspace policy c u = Good r.
Proof.
  intros Hin Hl Hf. destruct k; cbn [fold_kind] in *; try exact Hf;
    try (unfold fold_settle, fold_complete in *; by rewrite before_seq_app);
    try (unfold fold_wait in *; by rewrite prefix_below_app);
    apply gbind_Good in Hf as (x & Hx & Hf).
  - by rewrite (fold_definition_stable _ _ _ _ _ _ Hl Hx).
  - by rewrite (fold_definition_stable _ _ _ _ _ _ Hl Hx).
  - by rewrite (fold_step_stable _ _ _ _ _ Hin Hl Hx).
Qed.
Lemma fold_one_stable facts more operation st f st' : In f facts -> later facts more ->
  fold_one facts session workspace policy operation st f = Good st' ->
  fold_one (facts ++ more) session workspace policy operation st f = Good st'.
Proof.
  intros Hin Hl (k & op & dg & v & u & [])%fold_one_inv. apply fold_one_inv. exists k, op, dg, v, u.
  constructor; try done. by apply fold_kind_stable.
Qed.
Lemma fold_facts_stable facts more operation l : (forall f, In f l -> In f facts) -> later facts more ->
  forall st st', fold_facts (fold_one facts session workspace policy operation) st l = Good st' ->
  fold_facts (fold_one (facts ++ more) session workspace policy operation) st l = Good st'.
Proof.
  intros Hl Hm. induction l as [|f l IH]; intros st st' Hf; [done|]. cbn in *. destruct (is_goal_fact f); [|auto].
  apply gbind_Good in Hf as (x & Hx & Hf). rewrite (fold_one_stable _ _ _ _ _ _ (Hl f (or_introl eq_refl)) Hm Hx).
  cbn. auto.
Qed.
Lemma fold_facts_skip step st l : List.Forall (fun f => is_goal_fact f = false) l -> fold_facts step st l = Good st.
Proof. induction 1 as [|f l Hf Hl IH]; [done|]. cbn. by rewrite Hf. Qed.

(** Appending one goal fact, after facts of other kinds. *)
Lemma fold_snoc facts standing operation st g st' :
  fold_definitions facts session workspace policy operation = Good st ->
  List.Forall (fun f => is_goal_fact f = false) standing -> later facts (standing ++ [g]) ->
  is_goal_fact g = true ->
  fold_one (facts ++ standing ++ [g]) session workspace policy operation st g = Good st' ->
  fold_definitions (facts ++ standing ++ [g]) session workspace policy operation = Good st'.
Proof.
  unfold fold_definitions. intros Hf Hs Hl Hg Hone.
  rewrite fold_facts_app, (fold_facts_stable facts (standing ++ [g]) operation facts (fun _ h => h) Hl _ _ Hf).
  cbn [mbind goal_bind]. rewrite fold_facts_app, fold_facts_skip by done. cbn [mbind goal_bind fold_facts].
  by rewrite Hg, Hone.
Qed.

(** ** What a fold says about its operations *)
Lemma fold_replay facts operation st :
  fold_definitions facts session workspace policy operation = Good st ->
  forall op, operation = Some op -> fd_replay st = None -> ~ In op (fd_operations st).
Proof.
  apply (fold_facts_ind _ (fun _ st => forall op, operation = Some op -> fd_replay st = None -> ~ In op (fd_operations st))).
  - intros op _ _ [].
  - auto.
  - intros _ s1 f s2 IH _ (k & o & dg & v & u & [_ _ _ _ Ho Hr _])%fold_one_inv op -> Hn. rewrite Ho. rewrite Hr in Hn.
    case_bool_decide as E; [done|]. intros [<-|Hin]; [done|]. by eapply IH.
Qed.
Lemma fold_after facts operation st q :
  fold_definitions facts session workspace policy operation = Good st ->
  (forall f, In f facts -> f_seq f < q) -> after q (fd_current st).
Proof.
  intros Hf. revert Hf. apply (fold_facts_ind _ (fun l st => (forall f, In f l -> f_seq f < q) -> after q (fd_current st))).
  - done.
  - intros l s1 f IH _ Hq. apply IH. intros g Hg. apply Hq, in_or_app. by left.
  - intros l s1 f s2 IH _ (k & o & dg & v & u & Hk & Hf & Hc)%fold_one_kind Hq. rewrite Hc. cbn.
    destruct (fold_kind_step _ _ _ _ _ _ _ _ _ _ _ _ Hk Hf) as (Hstep & _ & _).
    destruct (step_sequence _ _ _ _ _ _ _ Hstep) as [->|Hsame].
    + apply Hq, in_or_app. right. by left.
    + assert (Ha : after q (fd_current s1)) by (apply IH; intros g Hg; apply Hq, in_or_app; by left).
      by rewrite Hsame in Ha.
Qed.

(** ** Appending a prepared fact *)

(** The log between preparing a fact and storing it at [seq]: only facts of
    other kinds, which settle no effect and leave none open, come in between. *)
Record appended facts (standing : list Fact) (seq : Z) : Prop := {
  ap_standing : List.Forall (fun f => is_goal_fact f = false) standing;
  ap_between : later facts standing;
  ap_seq : forall f, In f (facts ++ standing) -> f_seq f < seq;
  ap_positive : 0 < seq;
  ap_effects : has_unsettled_effects (facts ++ standing) = has_unsettled_effects facts;
}.
Lemma appended_later facts standing g : appended facts standing (f_seq g) -> later facts (standing ++ [g]).
Proof.
  intros [_ Hb Hs _ _] f h Hf Hh. apply in_app_or in Hh as [Hh|[<-|[]]]; [by apply Hb|].
  apply Hs, in_or_app. by left.
Qed.
Lemma appended_after facts standing seq operation st : appended facts standing seq ->
  fold_definitions facts session workspace policy operation = Good st -> after seq (fd_current st).
Proof. intros Ha Hf. eapply fold_after; [exact Hf|]. intros f Hin. apply (ap_seq _ _ _ Ha), in_or_app. by left. Qed.

Lemma definition_identity_Good p : exists i, definition_identity p = Good i.
Proof. by eexists. Qed.
Lemma kind_is_goal k g : f_kind g = fact_kind_as_str k -> is_goal_fact g = true.
Proof. unfold is_goal_fact. intros ->. by destruct k. Qed.

Lemma commit_fresh facts standing operation st g k op dg v u :
  fold_definitions facts session workspace policy operation = Good st -> ~ In op (fd_operations st) ->
  appended facts standing (f_seq g) -> f_kind g = fact_kind_as_str k ->
  fold_kind k g (facts ++ standing ++ [g]) session workspace policy (fd_current st) (fd_continuation st)
    = Good (op, dg, v, u) ->
  exists st', fold_definitions (facts ++ standing ++ [g]) session workspace policy operation = Good st'
    /\ fd_current st' = Some v
    /\ fd_replay st' = if bool_decide (operation = Some op) then Some (dg, v) else fd_replay st.
Proof.
  intros Hf Hr Ha Hk Hkind.
  assert (exists u', (if bool_decide (k = Kinds.PlanAccepted) then
                match v_plan v with
                | Some plan => i ← definition_identity plan; mret (set_accepted (Some i) u)
                | None => mret (set_accepted None u)
                end
              else mret u) = Good u') as [u' Hu].
  { case_bool_decide; [|by eexists]. destruct (v_plan v) as [p|]; [|by eexists].
    destruct (definition_identity_Good p) as [i Hi]. rewrite Hi. by eexists. }
  exists (mkFolded (Some v) (if bool_decide (operation = Some op) then Some (dg, v) else fd_replay st) u'
                   (op :: fd_operations st)). split; [|done].
  eapply fold_snoc; [exact Hf|apply Ha|by apply appended_later|by eapply kind_is_goal|].
  apply fold_one_inv. exists k, op, dg, v, u. by constructor.
Qed.
Lemma commit_fact facts standing st g k op dg v u :
  fold_definitions facts session workspace policy (Some op) = Good st -> fd_replay st = None ->
  appended facts standing (f_seq g) -> f_kind g = fact_kind_as_str k ->
  fold_kind k g (facts ++ standing ++ [g]) session workspace policy (fd_current st) (fd_continuation st)
    = Good (op, dg, v, u) ->
  exists st', fold_definitions (facts ++ standing ++ [g]) session workspace policy (Some op) = Good st'
    /\ fd_current st' = Some v /\ fd_replay st' = Some (dg, v).
Proof.
  intros Hf Hr Ha Hk Hkind. destruct (commit_fresh _ _ _ _ _ _ _ _ _ _ Hf (fold_replay _ _ _ Hf _ eq_refl Hr) Ha Hk Hkind)
    as (st' & E1 & E2 & E3). exists st'. by rewrite bool_decide_true in E3.
Qed.

Lemma validate_prepared {T} (stored : GoalFact T) goal op k payload n seq c :
  gf_schema stored = GOAL_FACT_SCHEMA_V1 -> gf_session_id stored = session ->
  gf_work_policy_digest stored = policy -> gf_goal_id stored = goal -> gf_operation_id stored = op ->
  new_fact goal op k payload = Good n -> 0 < seq -> after seq c ->
  validate_source stored (append_fact seq n) session policy c = Good tt.
Proof.
  intros Hs Hse Hp <- <- Hn Hq Ha. unfold new_fact in Hn. ginv. subst n. unfold validate_source.
  rewrite Hs, Hse, !str_eqb_refl, bool_decide_true by done. cbn [negb orb f_kind append_fact n_kind].
  rewrite kind_parse_as_str. cbn [mbind goal_bind].
  match goal with H1 : goal_fact_key _ _ _ = _ |- _ => rewrite H1 end. cbn [mbind goal_bind append_fact f_key n_key f_has_cause f_seq].
  rewrite str_eqb_refl. cbn [negb orb]. rewrite (proj2 (Z.eqb_neq seq 0)) by lia. destruct c as [v|]; [|done]. cbn in Ha |- *.
  by rewrite (proj2 (Z.leb_gt _ _) Ha).
Qed.
Lemma append_kind seq n : f_kind (append_fact seq n) = n_kind n.
Proof. done. Qed.
Lemma append_seq seq n : f_seq (append_fact seq n) = seq.
Proof. done. Qed.
Lemma append_payload seq n : f_payload (append_fact seq n) = n_payload n.
Proof. done. Qed.
Lemma new_fact_inv goal op k payload n : new_fact goal op k payload = Good n ->
  n_kind n = fact_kind_as_str k /\ n_payload n = payload.
Proof. unfold new_fact. intros Hn. ginv. by subst n. Qed.

(** Stamping a prepared definition. *)
Lemma stamp_wait_recorded q w : wait_recorded w -> stamp_wait q w = w.
Proof.
  intros [Hd Ho]. destruct w as [id d cond [o|]]; unfold stamp_wait; cbn in *;
    rewrite (proj2 (Z.eqb_neq d 0)) by lia; [|done]. specialize (Ho o eq_refl).
  by rewrite (proj2 (Z.eqb_neq (wo_sequence o) 0)) by lia.
Qed.
Lemma stamp_waits_recorded q ws : List.Forall wait_recorded ws -> map (stamp_wait q) ws = ws.
Proof. induction 1 as [|w ws Hw Hws IH]; [done|]. cbn. by rewrite stamp_wait_recorded, IH. Qed.
Lemma stamp_declared q ws w : List.Forall wait_recorded ws -> w_declared_sequence w = 0 -> w_observed w = None ->
  map (stamp_wait q) (ws ++ [w]) = ws ++ [mkWait (w_step_id w) q (w_condition w) None].
Proof.
  intros Hr Hd Ho. rewrite map_app, stamp_waits_recorded by done. destruct w. cbn in *. by subst.
Qed.
Lemma stamp_observed q i ws ev at_ : List.Forall wait_recorded ws ->
  map (stamp_wait q) (set_observed i (mkWaitObservation 0 ev at_) ws)
  = set_observed i (mkWaitObservation q ev at_) ws.
Proof.
  intros Hr. revert i. induction Hr as [|w ws Hw Hws IH]; intros [|i]; cbn; try done.
  - rewrite stamp_waits_recorded by done. destruct w as [id d cond o], Hw as [Hd _]. unfold stamp_wait. cbn in *.
    by rewrite (proj2 (Z.eqb_neq d 0)) by lia.
  - rewrite stamp_wait_recorded by done. f_equal. apply IH.
Qed.
Lemma stamp_other q k v : k <> Kinds.PlanProposed ->
  stamp q (fact_kind_as_str k) v = with_waits (map (stamp_wait q) (v_waits v)) (with_sequence q v).
Proof. intros Hk. unfold stamp. by rewrite (proj2 (str_eqb_ne _ _)) by (by intros ?%kind_as_str_inj). Qed.
Lemma stamp_plain q k v : k <> Kinds.PlanProposed -> List.Forall wait_recorded (v_waits v) ->
  stamp q (fact_kind_as_str k) v = with_sequence q v.
Proof. intros Hk Hr. rewrite stamp_other, stamp_waits_recorded by done. by destruct v. Qed.

Lemma stamp_plan_revision q k v : v_plan_revision (stamp q k v) = v_plan_revision v.
Proof. unfold stamp. by destruct (str_eqb _ _). Qed.

Lemma stamp_binding q k v : v_binding (stamp q k v) = v_binding v.
Proof. unfold stamp. by destruct (str_eqb _ _). Qed.

(** The folded goal of a log of unsigned sequences is well formed. *)
Lemma fold_view_ok facts operation st v : unsigned_log facts ->
  fold_definitions facts session workspace policy operation = Good st -> fd_current st = Some v ->
  view_ok session workspace policy v.
Proof.
  intros Hl Hf Hv. unshelve edestruct (fold_run_machine session workspace policy facts operation facts st)
    as (tr & _ & Hrun); [by apply List.Forall_forall|done|]. by eapply goal_run_ok.
Qed.
Lemma fold_recorded facts operation st v : unsigned_log facts ->
  fold_definitions facts session workspace policy operation = Good st -> fd_current st = Some v ->
  List.Forall wait_recorded (v_waits v).
Proof. intros. by eapply vo_recorded, fold_view_ok. Qed.

(** *** Control *)
Lemma control_transition_seq v command q w : control_transition v command 0 = Good w ->
  control_transition v command q = Good (with_sequence q w).
Proof.
  unfold control_transition. intros Hf. do 3 gmono Hf. ginv. by subst w.
Qed.
Lemma control_transition_same v command q w : control_transition v command q = Good w ->
  v_binding w = v_binding v /\ v_plan_revision w = v_plan_revision v /\ v_waits w = v_waits v.
Proof. unfold control_transition. intros Hf. ginv. by subst w. Qed.
Lemma control_request_kind command u : control_validate_request command = Good u ->
  List.find (fun k => str_eqb (fact_kind_as_str (control_fact_kind k))
                              (fact_kind_as_str (control_fact_kind (cc_kind command))))
            [Commands.Pause; Commands.Resume; Commands.Cancel] = Some (cc_kind command).
Proof. unfold control_validate_request. intros Hv. ginv. by destruct (cc_kind command). Qed.
Lemma fold_kind_control kind g facts c u :
  fold_kind (control_fact_kind kind) g facts session workspace policy c u
  = r ← fold_control g c session workspace policy; mret (r, u).
Proof. by destruct kind. Qed.
Lemma control_command_eq command schema digest rev prev :
  cc_session_id command = session -> cc_workspace command = workspace ->
  control_command (mkGoalFact schema session (cc_goal_id command) (cc_operation_id command) digest rev prev
    (cc_work_policy_digest command) (mkControlBody (cc_expected_goal_revision command)
    (cc_expected_plan_revision command) (cc_expected_goal_sequence command))) (cc_kind command) workspace = command.
Proof. destruct command; cbn. by intros -> ->. Qed.
(** The log now reads back as [v], and remembers the operation that made it. *)
Definition reads_back facts (op digest : str) v : Prop :=
  exists st, fold_definitions facts session workspace policy (Some op) = Good st
    /\ fd_current st = Some v /\ fd_replay st = Some (digest, v).

(** Opens a [prepare_*] that returned a pending fact; [name_prepared] names what
    the commit needs of it. *)
Ltac open_fresh :=
  ginv; guards;
  match goal with st : FoldedDefinitions |- _ => destruct (fd_replay st) as [[]|] eqn:?; [by ginv|] end;
  ginv; guards.
Ltac name_prepared Ha :=
  match goal with H1 : new_fact _ _ _ _ = _ |- _ =>
    destruct (new_fact_inv _ _ _ _ _ H1) as [Hk Hpay]; rename H1 into Hn end;
  match goal with H1 : fold_definitions _ _ _ _ _ = _ |- _ =>
    pose proof (appended_after _ _ _ _ _ Ha H1) as Haft; rename H1 into Hfold end.

Lemma prepare_control_commits facts standing seq command n v :
  prepare_control facts session workspace policy command = Good (mkPrepared (Some n) v) ->
  unsigned_log facts -> appended facts standing seq ->
  reads_back (facts ++ standing ++ [append_fact seq n]) (cc_operation_id command)
    (command_digest (DControl command)) (stamp seq (n_kind n) v).
Proof.
  unfold prepare_control. intros Hp Hlog Ha. open_fresh. name_prepared Ha. injection Hp as -> ->.
  match goal with H1 : fd_current _ = Some ?c |- _ =>
    pose proof (fold_recorded _ _ _ _ Hlog Hfold H1) as Hrec; rename H1 into Hc end.
  match goal with H1 : control_transition _ _ _ = _ |- _ =>
    apply control_transition_same in H1 as Hsame; rename H1 into Ht end. destruct Hsame as (Hb & Hpr & Hw).
  rewrite Hk, stamp_plain; [|by destruct (cc_kind command)|by rewrite Hw].
  eapply commit_fact; [exact Hfold|done|exact Ha|exact Hk|]. rewrite Hc in Haft |- *.
  rewrite fold_kind_control. unfold fold_control. rewrite !append_kind, !append_seq, !append_payload, Hk, Hpay.
  cbn [decode_control ok_or mbind goal_bind].
  erewrite validate_prepared; [|done..|exact Hn|apply Ha|done]. erewrite control_request_kind by done.
  cbn [ok_or mbind goal_bind].
  rewrite control_command_eq by done. erewrite control_transition_seq by done. cbn [ok_or mbind goal_bind].
  pass. reflexivity.
Qed.

(** *** Plans *)
Lemma plan_transition_seq v command q w i : plan_transition v command 0 = Good (w, i) ->
  List.Forall wait_recorded (v_waits v) ->
  plan_transition v command q
  = Good (stamp q (fact_kind_as_str (if bool_decide (pc_kind command = Commands.ProposePlan)
                                     then Kinds.PlanProposed else Kinds.PlanAccepted)) w, i).
Proof.
  intros Hf Hr. unfold plan_transition in *.
  eapply gbind_mono; [exact Hf|]. clear Hf. intros u Hu%plan_request_inv Hf. gmono Hf.
  destruct Hu as [(Hk & plan & Hp)|(Hk & Hp & s & Hs & _)]; rewrite Hk; rewrite Hp in Hf |- *.
  - rewrite (bool_decide_true (Commands.ProposePlan = _)) by done. do 2 gmono Hf. ginv. by injection Hf as <- <-.
  - rewrite (bool_decide_false (Commands.AcceptPlan = _)) by done. do 3 gmono Hf. ginv. injection Hf as <- <-. by rewrite stamp_plain.
Qed.
Lemma plan_transition_same v command q w i : plan_transition v command q = Good (w, i) -> v_binding w = v_binding v.
Proof. unfold plan_transition. intros Hf. ginv. destruct (pc_plan command); ginv; by injection Hf as <- _. Qed.
Lemma plan_command_eq command schema digest rev prev ident u : plan_validate_request command = Good u ->
  pc_session_id command = session -> pc_workspace command = workspace ->
  plan_command (mkGoalFact schema session (pc_goal_id command) (pc_operation_id command) digest rev prev
    (pc_work_policy_digest command) (mkPlanBody (pc_plan command) ident (pc_proposal_sequence command)
    (pc_expected_goal_revision command) (pc_expected_plan_revision command) (pc_expected_goal_sequence command)))
    (bool_decide (pc_kind command = Commands.ProposePlan)) workspace = command.
Proof.
  intros Hv%plan_request_inv. destruct command; cbn in *. intros -> ->. unfold plan_command. cbn.
  destruct Hv as [[-> _]|[-> _]]; by case_bool_decide.
Qed.
Lemma fold_kind_plan (b : bool) g facts c u :
  fold_kind (if b then Kinds.PlanProposed else Kinds.PlanAccepted) g facts session workspace policy c u
  = r ← fold_plan g c session workspace policy; mret (r, u).
Proof. by destruct b. Qed.
Lemma plan_proposed_kind (b : bool) :
  str_eqb (fact_kind_as_str (if b then Kinds.PlanProposed else Kinds.PlanAccepted))
          (fact_kind_as_str Kinds.PlanProposed) = b.
Proof. by destruct b. Qed.
Lemma decode_plan_prepared command (stored : GoalFact PlanBody) u : plan_validate_request command = Good u ->
  pb_plan (gf_body stored) = pc_plan command -> decode_plan (PPlan stored) = Some stored.
Proof.
  unfold plan_validate_request, decode_plan. intros Hv ->. ginv.
  destruct (pc_kind command), (pc_plan command) as [plan|], (pc_proposal_sequence command); try done.
  by destruct (validate_goal_plan plan).
Qed.
Lemma prepare_plan_commits facts standing seq command n v :
  prepare_plan facts session workspace policy command = Good (mkPrepared (Some n) v) ->
  unsigned_log facts -> appended facts standing seq ->
  reads_back (facts ++ standing ++ [append_fact seq n]) (pc_operation_id command)
    (command_digest (DPlan command)) (stamp seq (n_kind n) v).
Proof.
  unfold prepare_plan. intros Hp Hlog Ha. open_fresh. name_prepared Ha. injection Hp as -> ->.
  match goal with H1 : fd_current _ = Some ?c |- _ =>
    pose proof (fold_recorded _ _ _ _ Hlog Hfold H1) as Hrec; rename H1 into Hc end.
  match goal with H1 : plan_transition _ _ _ = _ |- _ =>
    apply plan_transition_same in H1 as Hsame; rename H1 into Ht end.
  eapply commit_fact; [exact Hfold|done|exact Ha|exact Hk|]. rewrite Hc in Haft |- *.
  rewrite fold_kind_plan. unfold fold_plan. rewrite !append_kind, !append_seq, !append_payload, Hk, Hpay.
  erewrite decode_plan_prepared by done. cbn [ok_or mbind goal_bind].
  erewrite validate_prepared; [|done..|exact Hn|apply Ha|done]. cbn [mbind goal_bind].
  rewrite plan_proposed_kind. erewrite plan_command_eq, plan_transition_seq by done. cbn [mbind goal_bind].
  rewrite stamp_plan_revision. pass. reflexivity.
Qed.

(** *** Definitions *)
Lemma definition_command_eq command binding digest rev prev schema r :
  binding_for command r = Good binding -> dc_session_id command = session ->
  definition_command (mkGoalFact schema session (dc_goal_id command) (dc_operation_id command) digest rev prev
    (dc_work_policy_digest command) (mkDefinitionBody binding (dc_goal command) (dc_expected_goal_revision command)
    (dc_expected_plan_revision command) (dc_expected_goal_sequence command) (dc_import_source command)))
    (dc_kind command) = command.
Proof.
  intros (_ & _ & _ & Hw & _ & _ & Hs & Hn)%binding_for_inv Hse. destruct command. unfold definition_command. cbn in *.
  by rewrite Hw, Hs, Hn, Hse.
Qed.
Lemma fold_kind_definition kind g facts c u : kind = Commands.Create \/ kind = Commands.Revise ->
  fold_kind (if bool_decide (kind = Commands.Create) then Kinds.Created else Kinds.Revised) g facts
    session workspace policy c u
  = r ← fold_definition g kind facts c session workspace policy; mret (r, u).
Proof. by intros [-> | ->]. Qed.
Lemma decode_definition_prepared command r binding (stored : GoalFact DefinitionBody) :
  binding_for command r = Good binding -> db_goal (gf_body stored) = dc_goal command ->
  decode_definition (PDefinition stored) = Some stored.
Proof.
  unfold binding_for, decode_definition. intros Hb ->. ginv.
  match goal with H1 : validate_goal_definition _ = _ |- _ => by rewrite H1 end.
Qed.
(** Scope sequences name facts of the log the command was prepared on. *)
Lemma scope_recorded facts standing seq g scope : appended facts standing seq ->
  existsb (fun q => negb (existsb (fun f => f_seq f =? q) facts)) scope = false ->
  existsb (fun q => (seq <=? q) || negb (existsb (fun f => f_seq f =? q) (facts ++ standing ++ [g]))) scope = false.
Proof.
  intros Ha. induction scope as [|q scope IH]; [done|]. cbn. intros Hq. guards. rewrite IH by done.
  rewrite existsb_app. match goal with H1 : existsb _ facts = true |- _ => rewrite H1; rename H1 into Hin end.
  apply existsb_exists in Hin as (f & Hf & <-%Z.eqb_eq). cbn. rewrite !orb_false_r. apply Z.leb_gt.
  apply (ap_seq _ _ _ Ha), in_or_app. by left.
Qed.
Lemma prepare_definition_commits facts standing seq command n v :
  prepare_definition facts session workspace policy command = Good (mkPrepared (Some n) v) ->
  unsigned_log facts -> appended facts standing seq ->
  reads_back (facts ++ standing ++ [append_fact seq n]) (dc_operation_id command)
    (command_digest (DDefinition command)) (stamp seq (n_kind n) v).
Proof.
  unfold prepare_definition. intros Hp Hlog Ha. open_fresh. name_prepared Ha. injection Hp as -> <-.
  rewrite Hk, stamp_plain; [|by case_bool_decide|done].
  eapply commit_fact; [exact Hfold|done|exact Ha|exact Hk|].
  match goal with H1 : next_revision _ _ = _ |- _ => apply next_revision_inv in H1 as Hkind; rename H1 into Hrev end.
  match goal with H1 : binding_for _ 1 = _ |- _ => clear H1 end.
  match goal with H1 : binding_for _ _ = _ |- _ => rename H1 into Hb end.
  match goal with H1 : existsb _ _ = false |- _ => rename H1 into Hscope end.
  rewrite fold_kind_definition by (destruct Hkind as [[-> _]|[-> _]]; auto).
  unfold fold_definition. rewrite append_payload, Hpay.
  erewrite decode_definition_prepared by done. cbn [ok_or mbind goal_bind].
  erewrite validate_prepared; [|done..|exact Hn|apply Ha|done]. cbn [mbind goal_bind].
  erewrite definition_command_eq by done. rewrite Hrev. cbn [mbind goal_bind]. rewrite Hb. cbn [mbind goal_bind].
  apply binding_for_inv in Hb as (_ & _ & _ & Hw & _ & _ & Hs & _).
  rewrite append_seq, Hs, (scope_recorded _ _ _ _ _ Ha Hscope), orb_false_r. pass. reflexivity.
Qed.

(** *** Waits *)
Lemma prefix_below_new l g : (forall f, In f l -> f_seq f < f_seq g) -> prefix_below (f_seq g) (l ++ [g]) = l.
Proof.
  intros Hl. induction l as [|f l IH]; cbn; [by rewrite Z.ltb_irrefl|].
  rewrite (proj2 (Z.ltb_lt _ _) (Hl f (or_introl eq_refl))). f_equal. apply IH. intros h Hh. apply Hl. by right.
Qed.
Lemma goal_key_prefix goal op k key : goal_fact_key goal op k = Good key -> starts_with key $"goal/" = true.
Proof. unfold goal_fact_key. intros Hk. ginv. by subst key. Qed.
Lemma settled_standing facts standing goal run : List.Forall (fun f => is_goal_fact f = false) standing ->
  settled (facts ++ standing) goal run = settled facts goal run.
Proof.
  intros Hs. unfold settled. destruct (goal_fact_key _ _ _) as [key|] eqn:Ek; [|done]. apply goal_key_prefix in Ek.
  rewrite existsb_app. replace (existsb _ standing) with false; [apply orb_false_r|]. symmetry.
  induction Hs as [|f l Hf Hl IH]; [done|]. cbn. rewrite IH, orb_false_r. apply str_eqb_ne. intros <-.
  unfold is_goal_fact in Hf. by rewrite Ek, orb_true_r in Hf.
Qed.
Lemma slices_standing facts standing : List.Forall (fun f => is_goal_fact f = false) standing ->
  slices (facts ++ standing) = slices facts.
Proof.
  intros Hs. unfold slices. rewrite List.filter_app.
  replace (List.filter _ standing) with (@nil Fact); [by rewrite app_nil_r|]. symmetry.
  induction Hs as [|f l Hf Hl IH]; [done|]. cbn [List.filter].
  destruct (is_kind _ f) eqn:E; [|done]. apply str_eqb_spec, kind_is_goal in E. congruence.
Qed.
Lemma unsettled_standing facts standing : List.Forall (fun f => is_goal_fact f = false) standing ->
  unsettled_slices (facts ++ standing) = unsettled_slices facts.
Proof.
  intros Hs. unfold unsettled_slices. rewrite slices_standing by done. f_equal. apply List.filter_ext.
  intros [[q goal] run]. cbn. by rewrite settled_standing.
Qed.
Lemma slice_unsettled_standing facts standing seq : appended facts standing seq ->
  slice_unsettled (facts ++ standing) = slice_unsettled facts.
Proof. intros Ha. unfold slice_unsettled. by rewrite unsettled_standing, (ap_effects _ _ _ Ha) by apply Ha. Qed.

Lemma wait_transition_seq v command q clock last_clock w :
  wait_transition v command 0 clock last_clock = Good (Some w) -> List.Forall wait_recorded (v_waits v) ->
  wait_transition v command q clock last_clock = Good (Some (stamp q (fact_kind_as_str (wait_fact_kind command)) w)).
Proof.
  intros Hf Hr. rewrite stamp_other by (unfold wait_fact_kind; by case_bool_decide). unfold wait_transition in *.
  do 3 gmono Hf. destruct (wc_condition command) as [cond|].
  - gmono Hf. ginv. injection Hf as <-. do 2 f_equal. cbn. by rewrite stamp_declared.
  - do 4 gmono Hf. ginv. destruct a5 as [at_|]; [|done]. injection Hf as <-. do 2 f_equal. cbn.
    by rewrite stamp_observed.
Qed.
Lemma wait_transition_same v command q clock last_clock w :
  wait_transition v command q clock last_clock = Good (Some w) ->
  v_binding w = v_binding v /\ v_plan_revision w = v_plan_revision v.
Proof.
  unfold wait_transition. intros Hf. ginv. destruct (wc_condition command); ginv; [by injection Hf as <-|].
  match goal with H1 : observe _ _ _ _ = Good ?o |- _ => destruct o; [|done] end. by injection Hf as <-.
Qed.
Lemma wait_command_eq command schema digest rev prev clock u : wait_validate_request command = Good u ->
  wc_session_id command = session -> wc_workspace command = workspace ->
  wait_command (mkGoalFact schema session (wc_goal_id command) (wc_operation_id command) digest rev prev
    (wc_work_policy_digest command) (mkWaitBody (wc_expected_goal_revision command)
    (wc_expected_plan_revision command) (wc_expected_goal_sequence command) (wc_step_id command)
    (wc_condition command) (wc_evidence command) clock))
    (bool_decide (wc_kind command = Commands.DeclareWait)) workspace = command.
Proof.
  intros Hv%wait_request_inv. destruct command; cbn in *. intros -> ->. unfold wait_command. cbn.
  destruct Hv as [[-> _]|[-> _]]; by case_bool_decide.
Qed.
Lemma fold_kind_wait command g facts c u :
  fold_kind (wait_fact_kind command) g facts session workspace policy c u
  = r ← fold_wait g facts c session workspace policy (u_last_observed_unix_ms u);
    mret (fst r, set_last_observed (snd r) u).
Proof. unfold wait_fact_kind. by case_bool_decide. Qed.
Lemma wait_declared_kind command n seq : n_kind n = fact_kind_as_str (wait_fact_kind command) ->
  is_kind Kinds.WaitDeclared (append_fact seq n) = bool_decide (wc_kind command = Commands.DeclareWait).
Proof. intros Hk. rewrite (is_kind_logged (append_fact seq n) _ _ Hk). unfold wait_fact_kind. by destruct (bool_decide (wc_kind _ = _)). Qed.
Lemma prepare_wait_commits facts standing seq command now recorded n v :
  prepare_wait facts session workspace policy command now = Good (recorded, mkPrepared (Some n) v) ->
  unsigned_log facts -> appended facts standing seq ->
  reads_back (facts ++ standing ++ [append_fact seq n]) (wc_operation_id command)
    (command_digest (DWait command)) (stamp seq (n_kind n) v).
Proof.
  unfold prepare_wait. intros Hp Hlog Ha. open_fresh.
  match goal with H1 : wait_transition _ _ _ _ _ = Good ?o |- _ =>
    destruct o as [w|]; [|by ginv]; rename H1 into Ht end.
  ginv. name_prepared Ha. injection Hp as _ -> <-.
  match goal with H1 : fd_current _ = Some ?c |- _ =>
    pose proof (fold_recorded _ _ _ _ Hlog Hfold H1) as Hrec; rename H1 into Hc end.
  destruct (wait_transition_same _ _ _ _ _ _ Ht) as [Hb Hpr].
  eapply commit_fact; [exact Hfold|done|exact Ha|exact Hk|]. rewrite Hc in Haft |- *.
  rewrite fold_kind_wait. unfold fold_wait. rewrite (wait_declared_kind _ _ _ Hk), !append_seq, !append_payload, Hpay.
  cbn [decode_wait ok_or mbind goal_bind].
  erewrite validate_prepared; [|done..|exact Hn|apply Ha|done]. cbn [mbind goal_bind gf_body wb_observed_unix_ms].
  erewrite wait_command_eq by done.
  rewrite app_assoc, (prefix_below_new (facts ++ standing) (append_fact seq n) (ap_seq _ _ _ Ha) : prefix_below seq _ = _).
  erewrite slice_unsettled_standing by done.
  match goal with H1 : slice_unsettled _ = false |- _ => rewrite H1 end.
  rewrite fail_if_pass by (by destruct (is_due _)). cbn [mbind goal_bind].
  rewrite Hk. erewrite wait_transition_seq by done. cbn [ok_or mbind goal_bind].
  rewrite stamp_plan_revision, stamp_binding. pass. reflexivity.
Qed.

(** *** Slices *)
Lemma prepare_run_commits facts standing seq run_id source n v :
  prepare_run facts session workspace policy (Some run_id) source = Good (Some (mkPrepared (Some n) v)) ->
  unsigned_log facts -> appended facts standing seq ->
  exists st, fold_definitions (facts ++ standing ++ [append_fact seq n]) session workspace policy (Some run_id) = Good st
    /\ fd_current st = Some (with_sequence seq v).
Proof.
  unfold prepare_run. intros Hp Hlog Ha. ginv. rename x into st0.
  match goal with H1 : fold_definitions _ _ _ _ _ = _ |- _ => rename H1 into Hfold end.
  destruct (fd_current st0) as [cur|] eqn:Hc; [|by destruct source]. ginv. guards. simplify_eq.
  destruct (fd_replay st0) as [[]|] eqn:Hr; [by ginv|]. ginv. guards. 
  match goal with H1 : new_fact _ _ _ _ = _ |- _ =>
    destruct (new_fact_inv _ _ _ _ _ H1) as [Hk Hpay]; rename H1 into Hn end.
  pose proof (appended_after _ _ _ _ _ Ha Hfold) as Haft. injection Hp as -> <-.
  destruct (vo_bound _ _ _ _ (fold_view_ok _ _ _ _ Hlog Hfold Hc)) as (_ & Hws & Hpol & _). rewrite Hc in Haft.
  match goal with H1 : (match source with Some _ => _ | None => _ end) = _ |- _ => rename H1 into Hsrc end.
  assert (exists u', match source with Some s => usage_admit (fd_continuation st0) s | None => mret (fd_continuation st0) end
            = Good u') as [u' Hu].
  { destruct source; [|by eexists]. ginv. by eexists. }
  edestruct (commit_fact facts standing st0 (append_fact seq n)) as (st' & Hst & Hcur & _);
    [exact Hfold|done|exact Ha|exact Hk| |by exists st'].
  rewrite Hc. cbn [fold_kind]. unfold fold_run. rewrite !append_payload, Hpay. cbn [decode_run ok_or mbind goal_bind].
  erewrite validate_prepared; [|done..|exact Hn|apply Ha|done].
  cbn [mbind goal_bind gf_body rb_run_id rb_continuation].
  repeat (match goal with H1 : ?m = Good _ |- context [?m ≫= _] => rewrite H1; cbn [mbind goal_bind] end).
  pass. reflexivity.
Qed.
End Commit.
