(* ===== verification/GoalFacadeFacts.v ===== *)
(** Goal commands against a host log: what a command answers is what the log
    reads back, and repeating a command changes nothing. *)
From S2P Require Import Prelude Text Planning PlanningFacts Goal GoalPlanFacts GoalLog GoalMachine GoalScenario.
From S2P Require Import GoalLogFacts GoalFacade GoalCommit.

(** What the goal commands rely on of the log: a stored fact gets a sequence past
    every other, and the standing context and the policy fact are facts of other
    kinds that open and settle no effect. *)
Definition other_facts `{LogEnv} (facts stored : list Fact) : Prop :=
  List.Forall (fun f => is_goal_fact f = false) stored /\ later facts stored
  /\ has_unsettled_effects (facts ++ stored) = has_unsettled_effects facts.
Lemma other_facts_nil `{LogEnv} (facts : list Fact) : other_facts facts [].
Proof. split_and!; [constructor|by intros f g _ []|by rewrite app_nil_r]. Qed.
Lemma other_facts_app `{LogEnv} (facts : list Fact) one two : other_facts facts one -> other_facts (facts ++ one) two ->
  other_facts facts (one ++ two).
Proof.
  intros (Ho & Hl & He) (Ho' & Hl' & He'). split_and!.
  - by apply List.Forall_app.
  - intros f g Hf [Hg|Hg]%in_app_iff; [by apply Hl|]. apply Hl'; [apply in_app_iff; by left|done].
  - by rewrite app_assoc, He', He.
Qed.
Class LogContract `{LogEnv} (host : SessionLog) : Prop := {
  append_stores facts n stored : ld_append host facts [n] = Good stored ->
    exists seq, stored = [append_fact seq n] /\ 0 < seq /\ (forall f, In f facts -> f_seq f < seq);
  standing_other facts standing : ld_standing host facts = Good standing -> other_facts facts standing;
  policy_other facts policy : ld_commit_policy host facts = Good policy -> other_facts facts policy;
}.

(** The commands a host issues, and what a call finds outside the log: the clock
    and the answer of the source verifier. *)
Inductive GoalCommand : Type :=
| DefineGoal (c : GoalDefinitionCommandV1)
| ImportGoal (c : GoalDefinitionCommandV1)
| PlanGoal (c : GoalPlanCommandV1)
| ControlGoal (c : GoalControlCommandV1)
| WaitGoal (c : GoalWaitCommandV1).
Record Moment : Type := mkMoment { m_now : Z; m_source : GoalResult unit }.
Definition command_operation (c : GoalCommand) : str :=
  match c with
  | DefineGoal c | ImportGoal c => dc_operation_id c | PlanGoal c => pc_operation_id c
  | ControlGoal c => cc_operation_id c | WaitGoal c => wc_operation_id c
  end.

(** Evidence that does not meet a condition yet: a time still to come, or a
    source that has not moved. *)
Definition unmet (now : Z) (condition : GoalWaitConditionV1) (evidence : GoalWaitEvidenceV1) : Prop :=
  match condition, evidence with
  | CUtcDue due, EUtcDue => now < Zpos due
  | CSourceRevision _ after, ESourceRevision o => eo_digest o = after
  | _, _ => False
  end.
(** [c] observes an open wait of [v] whose condition is not met. *)
Definition quiet (now : Z) (c : GoalCommand) (v : DurableGoalDefinitionV1) : Prop :=
  exists command evidence w, c = WaitGoal command /\ wc_evidence command = Some evidence
    /\ In w (v_waits v) /\ w_step_id w = wc_step_id command /\ wait_is_open w = true
    /\ unmet now (w_condition w) evidence.

Section Host.
Context `{LogEnv} (host : SessionLog) `{!LogContract host}.
Implicit Types (facts : list Fact) (v : DurableGoalDefinitionV1).
Abbreviation reads := (reads_back (ld_session host) (ld_workspace host) (ld_policy host)).
Abbreviation folds facts op := (fold_definitions facts (ld_session host) (ld_workspace host) (ld_policy host) (Some op)).

Definition command_key (c : GoalCommand) : str :=
  command_digest match c with
  | DefineGoal c | ImportGoal c => DDefinition c
  | PlanGoal c => DPlan c | ControlGoal c => DControl c | WaitGoal c => DWait c
  end.
(** The answer of a command: the log it leaves, its definition, and whether the
    log holds it ([recorded] of a wait; the other commands always are). *)
Definition recorded {A} (m : GoalResult A) : GoalResult (A * bool) := r ← m; mret (r, true).
Definition prepare_command (at_ : Moment) facts (c : GoalCommand) : GoalResult (bool * PreparedDefinition) :=
  match c with
  | DefineGoal c | ImportGoal c =>
      p ← prepare_definition facts (ld_session host) (ld_workspace host) (ld_policy host) c; mret (true, p)
  | PlanGoal c => p ← prepare_plan facts (ld_session host) (ld_workspace host) (ld_policy host) c; mret (true, p)
  | ControlGoal c =>
      p ← prepare_control facts (ld_session host) (ld_workspace host) (ld_policy host) c; mret (true, p)
  | WaitGoal c => prepare_wait facts (ld_session host) (ld_workspace host) (ld_policy host) c (m_now at_)
  end.
Definition apply_command (at_ : Moment) facts (c : GoalCommand)
    : GoalResult (list Fact * DurableGoalDefinitionV1 * bool) :=
  match c with
  | DefineGoal c => recorded (apply_goal_definition host facts c)
  | ImportGoal c => recorded (apply_goal_import host facts c (m_source at_))
  | PlanGoal c => recorded (apply_goal_plan host facts c)
  | ControlGoal c => recorded (apply_goal_control host facts c)
  | WaitGoal c => apply_goal_wait host facts c (m_now at_)
  end.
(** What is stored before the fact of a command. *)
Definition command_admits (at_ : Moment) (c : GoalCommand) facts : GoalResult (list Fact) :=
  match c with
  | DefineGoal _ => admit_definition host facts
  | ImportGoal _ => m_source at_ ;; admit_definition host facts
  | _ => ld_standing host facts
  end.
(** The log remembers the operation of [c], answered with [v]. *)
Definition remembers facts (c : GoalCommand) v : Prop :=
  exists st, folds facts (command_operation c) = Good st /\ fd_replay st = Some (command_key c, v).

Lemma reads_remembers facts c v : reads facts (command_operation c) (command_key c) v -> remembers facts c v.
Proof. intros (st & Hf & _ & Hr). by exists st. Qed.
Lemma admits_other at_ c facts stored : command_admits at_ c facts = Good stored -> other_facts facts stored.
Proof.
  assert (forall stored, admit_definition host facts = Good stored -> other_facts facts stored) as Hadmit.
  { unfold admit_definition. intros st Ha. ginv. subst.
    eapply other_facts_app; [by apply standing_other|by apply policy_other]. }
  destruct c; cbn [command_admits]; intros Ha; [by apply Hadmit| |by apply standing_other..].
  ginv. by apply Hadmit.
Qed.
Lemma apply_command_prepares at_ facts c facts' v b : apply_command at_ facts c = Good (facts', v, b) ->
  exists p, prepare_command at_ facts c = Good (b, p)
    /\ commit_prepared host (command_admits at_ c) facts p = Good (facts', v).
Proof.
  destruct c; cbn [apply_command prepare_command command_admits]; unfold recorded,
    apply_goal_definition, apply_goal_import, apply_goal_plan, apply_goal_control, apply_goal_wait; intros Ha; ginv; simplify_eq.
  5: destruct x as [b p]; by eauto.
  all: match goal with H1 : ?m = Good _ |- context [?m] => rewrite H1 end; by eauto.
Qed.
(** A prepared command with nothing to store is answered with it, at any moment. *)
Lemma apply_command_replays at_ facts facts' r at' c v : apply_command at_ facts c = Good r ->
  prepare_command at' facts' c = Good (true, mkPrepared None v) -> apply_command at' facts' c = Good (facts', v, true).
Proof.
  destruct c; cbn [apply_command prepare_command]; unfold recorded,
    apply_goal_definition, apply_goal_import, apply_goal_plan, apply_goal_control, apply_goal_wait; intros Ha Hp; ginv; simplify_eq;
    repeat match goal with H1 : ?m = Good _ |- context [?m ≫= _] => rewrite H1; cbn [mbind goal_bind] end; done.
Qed.

(** A stored command reads back as the definition it answered with. *)
Lemma prepared_commits at_ facts c b n v standing seq :
  prepare_command at_ facts c = Good (b, mkPrepared (Some n) v) ->
  unsigned_log facts -> appended facts standing seq ->
  b = true
  /\ reads (facts ++ standing ++ [append_fact seq n]) (command_operation c) (command_key c) (stamp seq (n_kind n) v).
Proof.
  intros Hp Hl Ha. destruct c; cbn [prepare_command] in Hp.
  5:{ split; [|by eapply prepare_wait_commits].
      unfold prepare_wait in Hp. ginv. destruct (fd_replay _) as [[]|]; ginv; [by simplify_eq|].
      match goal with o : option DurableGoalDefinitionV1 |- _ => destruct o end; ginv; by simplify_eq. }
  all: ginv; simplify_eq; split; [done|].
  - by eapply prepare_definition_commits.
  - by eapply prepare_definition_commits.
  - by eapply prepare_plan_commits.
  - by eapply prepare_control_commits.
Qed.
Lemma gbind_pass {A} c e (f : unit -> GoalResult A) : c = false -> (fail_if c e ≫= f) = f tt.
Proof. by intros ->. Qed.
(** A command the log remembers is answered without a new fact. *)
Ltac replay Hf Hr :=
  ginv; guards;
  do 2 (etransitivity; [apply gbind_pass; repeat apply orb_false_intro; apply negb_false_iff;
    first [apply str_eqb_spec|apply bool_decide_eq_true]; done|cbv beta]);
  match goal with H1 : ?m = Good _ |- (?m ≫= _) = _ => rewrite H1; cbn [mbind goal_bind] end;
  rewrite Hf; cbn [mbind goal_bind]; rewrite Hr, str_eqb_refl; reflexivity.
Lemma prepare_definition_replays facts facts' c r v st :
  prepare_definition facts (ld_session host) (ld_workspace host) (ld_policy host) c = Good r ->
  folds facts' (dc_operation_id c) = Good st -> fd_replay st = Some (command_digest (DDefinition c), v) ->
  prepare_definition facts' (ld_session host) (ld_workspace host) (ld_policy host) c = Good (mkPrepared None v).
Proof. unfold prepare_definition. intros Hp Hf Hr. replay Hf Hr. Qed.
Lemma prepare_plan_replays facts facts' c r v st :
  prepare_plan facts (ld_session host) (ld_workspace host) (ld_policy host) c = Good r ->
  folds facts' (pc_operation_id c) = Good st -> fd_replay st = Some (command_digest (DPlan c), v) ->
  prepare_plan facts' (ld_session host) (ld_workspace host) (ld_policy host) c = Good (mkPrepared None v).
Proof. unfold prepare_plan. intros Hp Hf Hr. replay Hf Hr. Qed.
Lemma prepare_control_replays facts facts' c r v st :
  prepare_control facts (ld_session host) (ld_workspace host) (ld_policy host) c = Good r ->
  folds facts' (cc_operation_id c) = Good st -> fd_replay st = Some (command_digest (DControl c), v) ->
  prepare_control facts' (ld_session host) (ld_workspace host) (ld_policy host) c = Good (mkPrepared None v).
Proof. unfold prepare_control. intros Hp Hf Hr. replay Hf Hr. Qed.
Lemma prepare_wait_replays facts facts' c now now' r v st :
  prepare_wait facts (ld_session host) (ld_workspace host) (ld_policy host) c now = Good r ->
  folds facts' (wc_operation_id c) = Good st -> fd_replay st = Some (command_digest (DWait c), v) ->
  prepare_wait facts' (ld_session host) (ld_workspace host) (ld_policy host) c now' = Good (true, mkPrepared None v).
Proof. unfold prepare_wait. intros Hp Hf Hr. replay Hf Hr. Qed.
Lemma prepared_replays at_ at' facts facts' c p v : prepare_command at_ facts c = Good p ->
  remembers facts' c v -> prepare_command at' facts' c = Good (true, mkPrepared None v).
Proof.
  intros Hp (st & Hf & Hr). destruct c; cbn [prepare_command command_operation command_key] in *.
  5: by eapply prepare_wait_replays.
  all: ginv; simplify_eq.
  - by erewrite prepare_definition_replays.
  - by erewrite prepare_definition_replays.
  - by erewrite prepare_plan_replays.
  - by erewrite prepare_control_replays.
Qed.
Lemma append_goal_stamp seq n v : append_goal [append_fact seq n] n v = Good (stamp seq (n_kind n) v).
Proof. unfold append_goal. cbn. by rewrite !str_eqb_refl. Qed.

(** A wait command that is not recorded leaves the definition as it is, its
    condition unmet. *)
Lemma observe_quiet condition evidence now last_clock :
  observe condition evidence (if is_due (Some evidence) then Some now else None) last_clock = Good None ->
  unmet now condition evidence.
Proof.
  destruct condition, evidence; cbn -[fail_if EXTERNAL_OBSERVATION_SCHEMA]; intros Ho; ginv; try done.
  - destruct (str_eqb _ after_digest) eqn:E; [by apply str_eqb_spec|done].
  - repeat case_match; by simplify_eq/=; lia.
Qed.
Lemma transition_quiet now last_clock command v :
  wait_transition v command 0 (if is_due (wc_evidence command) then Some now else None) last_clock = Good None ->
  quiet now (WaitGoal command) v.
Proof.
  unfold wait_transition. intros Ht. ginv. destruct (wc_condition command); ginv; [done|]. guards.
  match goal with H1 : position _ _ = Some _ |- _ => apply position_Some in H1 as (w & Hw & [Hs Ho]%andb_prop) end.
  match goal with H1 : observe _ ?e _ _ = Good ?o |- _ => destruct o; [done|]; exists command, e, w end.
  simplify_eq. split_and!; try done.
  - by eapply list_elem_of_In, list_elem_of_lookup_2.
  - by apply str_eqb_spec.
  - eapply observe_quiet. by match goal with H1 : wc_evidence _ = _ |- _ => rewrite <-H1 end.
Qed.

(** A command prepared with nothing to store: the log remembers it, or it is a
    quiet observation. *)
Lemma prepared_none at_ facts c b v : prepare_command at_ facts c = Good (b, mkPrepared None v) ->
  (b = true /\ remembers facts c v)
  \/ b = false /\ quiet (m_now at_) c v
     /\ exists st, folds facts (command_operation c) = Good st /\ fd_replay st = None /\ fd_current st = Some v.
Proof.
  destruct c; cbn [prepare_command command_operation command_key]; intros Hp.
  5:{ unfold prepare_wait in Hp. ginv.
      match type of Hp with context [fd_replay ?st] => destruct (fd_replay st) as [[]|] eqn:Hr end; ginv; guards; simplify_eq.
      - left. split; [done|]. by eexists.
      - match goal with o : option DurableGoalDefinitionV1 |- _ => destruct o end; ginv; simplify_eq.
        right. split_and!; [done|by eapply transition_quiet|]. by eexists. }
  all: unfold prepare_definition, prepare_plan, prepare_control in Hp; ginv; simplify_eq; left; split; [done|].
  all: match goal with st : FoldedDefinitions |- _ =>
    exists st; split; [done|]; destruct (fd_replay st) as [[]|] eqn:Hr; ginv; guards; by simplify_eq end.
Qed.

Lemma commit_cases at_ c facts p facts' v : commit_prepared host (command_admits at_ c) facts p = Good (facts', v) ->
  (p = mkPrepared None v /\ facts' = facts)
  \/ exists n w standing seq, p = mkPrepared (Some n) w /\ appended facts standing seq
       /\ facts' = facts ++ standing ++ [append_fact seq n] /\ v = stamp seq (n_kind n) w.
Proof.
  unfold commit_prepared. destruct p as [[n|] w]; cbn [pending_fact prepared]; intros Hc; [right|left; by ginv; simplify_eq].
  ginv. match goal with H1 : command_admits _ _ _ = _ |- _ => apply admits_other in H1 as (Hs & Hl & He) end.
  match goal with H1 : ld_append _ _ _ = _ |- _ => apply append_stores in H1 as (seq & -> & Hq & Hlt) end.
  match goal with H1 : append_goal _ _ _ = _ |- _ => rewrite append_goal_stamp in H1 end. simplify_eq.
  exists n, w, x, seq. split_and!; try done. by rewrite <-app_assoc.
Qed.

(** The three ways a command is answered. *)
Lemma command_cases at_ facts c facts' v b : unsigned_log facts ->
  apply_command at_ facts c = Good (facts', v, b) ->
  (b = true /\ facts' = facts /\ remembers facts c v)
  \/ (b = true /\ exists standing n seq, facts' = facts ++ standing ++ [append_fact seq n]
       /\ reads facts' (command_operation c) (command_key c) v)
  \/ (b = false /\ facts' = facts /\ quiet (m_now at_) c v
      /\ exists st, folds facts (command_operation c) = Good st /\ fd_replay st = None /\ fd_current st = Some v).
Proof.
  intros Hlog Happly. destruct (apply_command_prepares _ _ _ _ _ _ Happly) as (p & Hp & Hc).
  destruct (commit_cases _ _ _ _ _ _ Hc) as [(-> & ->)|(n & w & standing & seq & -> & Ha & -> & ->)].
  - apply prepared_none in Hp as [(-> & Hr)|(-> & Hq & Hst)]; [by left|by right; right].
  - right. left. destruct (prepared_commits _ _ _ _ _ _ _ _ Hp Hlog Ha) as [-> Hr]. split; [done|]. by exists standing, n, seq.
Qed.

(** C10. A goal command answers with what the log reads back, in every case. When
    a definition, import, plan, control or wait command appends a fact, the log
    it leaves is one the projection accepts, its current definition is exactly
    the definition the command answered with, and the log remembers the operation
    with that definition. When it appends nothing and is answered as recorded,
    the log already remembered the operation, with exactly this command's digest
    and this definition. When it is answered as not recorded, it is a wait
    command whose operation the log does not know, observing an open wait whose
    condition its evidence does not meet yet (a time still to come, a source that
    has not moved), and the answer is the log's current definition. *)
Theorem command_answers_the_log (at_ : Moment) (facts facts' : list Fact) (c : GoalCommand)
    (v : DurableGoalDefinitionV1) (b : bool)
    (Hlog : unsigned_log facts) (Happly : apply_command at_ facts c = Good (facts', v, b)) :
  (b = true /\ facts' = facts /\ remembers facts c v)
  \/ (b = true /\ exists standing n seq, facts' = facts ++ standing ++ [append_fact seq n]
       /\ reads facts' (command_operation c) (command_key c) v)
  \/ (b = false /\ facts' = facts /\ quiet (m_now at_) c v
      /\ exists st, folds facts (command_operation c) = Good st /\ fd_replay st = None /\ fd_current st = Some v).
Proof. by apply command_cases. Qed.

(** C11. Goal commands are exactly-once: a command answered as recorded, repeated
    on the log it left, at any later moment (another clock, another answer of the
    import's source verifier), is answered with the same definition and appends
    nothing. A wait observation answered as not recorded has appended nothing
    either; it is looked at afresh each time, and answered the same at the same
    moment. *)
Theorem command_is_idempotent (at_ at' : Moment) (facts facts' : list Fact) (c : GoalCommand)
    (v : DurableGoalDefinitionV1) (b : bool)
    (Hlog : unsigned_log facts) (Happly : apply_command at_ facts c = Good (facts', v, b)) :
  if b then apply_command at' facts' c = Good (facts', v, true)
  else facts' = facts /\ apply_command at_ facts' c = Good (facts', v, false).
Proof.
  destruct (command_cases _ _ _ _ _ _ Hlog Happly) as [(-> & -> & Hr)|[(-> & s & n & seq & _ & Hr)|(-> & -> & _)]]; [| |done].
  all: eapply apply_command_replays; [exact Happly|].
  all: destruct (apply_command_prepares _ _ _ _ _ _ Happly) as (p & Hp & _); eapply prepared_replays; [exact Hp|].
  - done.
  - by apply reads_remembers.
Qed.
End Host.

(** ** A log that keeps the contract *)
Definition next_seq (facts : list Fact) : Z := foldr (fun f m => Z.max (f_seq f) m) 0 facts + 1.
Fixpoint store (seq : Z) (pending : list NewFact) : list Fact :=
  match pending with [] => [] | n :: rest => append_fact seq n :: store (seq + 1) rest end.
Definition sample_host : SessionLog :=
  mkSessionLog Sample.session Sample.workspace None (fun facts pending => Good (store (next_seq facts) pending))
    (fun _ => Good []) (fun _ => Good []).
Lemma next_seq_past facts : 0 < next_seq facts /\ forall f, In f facts -> f_seq f < next_seq facts.
Proof.
  unfold next_seq. induction facts as [|g facts [IH0 IH]]; [done|]. cbn. split; [lia|].
  intros f [->|Hf]; [lia|]. pose proof (IH f Hf). lia.
Qed.
#[global] Instance sample_contract : LogContract sample_host.
Proof.
  split.
  - intros facts n stored [= <-]. exists (next_seq facts). split; [done|]. apply next_seq_past.
  - intros facts standing [= <-]. by apply other_facts_nil.
  - intros facts policy [= <-]. by apply other_facts_nil.
Qed.

Definition sample_pause : GoalCommand := ControlGoal (Sample.control Commands.Pause $"op-pause" 3).
Definition sample_moment : Moment := mkMoment 1000 (Good tt).
Definition sample_paused : list Fact := Eval vm_compute in
  match apply_command sample_host sample_moment Sample.accepted sample_pause with Good r => fst (fst r) | Bad _ => [] end.
Lemma accepted_unsigned : unsigned_log Sample.accepted.
Proof. apply List.Forall_forall. intros f Hf. apply Z.leb_le. revert f Hf. by apply forallb_forall. Qed.

Lemma command_answers_the_log_witness :
  exists v, apply_command sample_host sample_moment Sample.accepted sample_pause = Good (sample_paused, v, true)
    /\ (true = true /\ sample_paused = Sample.accepted /\ remembers sample_host Sample.accepted sample_pause v
        \/ (true = true /\ exists standing n seq, sample_paused = Sample.accepted ++ standing ++ [append_fact seq n]
              /\ reads_back Sample.session Sample.workspace None sample_paused $"op-pause" (command_key sample_pause) v)
        \/ (true = false /\ sample_paused = Sample.accepted /\ quiet 1000 sample_pause v
            /\ exists st, fold_definitions Sample.accepted Sample.session Sample.workspace None (Some $"op-pause") = Good st
                 /\ fd_replay st = None /\ fd_current st = Some v)).
Proof.
  eexists. split; [vm_compute; reflexivity|].
  apply (command_answers_the_log sample_host sample_moment Sample.accepted sample_paused sample_pause);
    [exact accepted_unsigned|vm_compute; reflexivity].
Defined.
Lemma command_is_idempotent_witness :
  exists v, apply_command sample_host (mkMoment 2000 (Good tt)) sample_paused sample_pause = Good (sample_paused, v, true).
Proof.
  eexists. apply (command_is_idempotent sample_host sample_moment (mkMoment 2000 (Good tt)) Sample.accepted sample_paused sample_pause _ true);
    [exact accepted_unsigned|vm_compute; reflexivity].
Defined.

(** An observation is looked at afresh each time: too early it leaves no trace,
    and the very same command is recorded once the time has come. *)
Definition sample_due : GoalCommand :=
  WaitGoal (mkWaitCommand Commands.DeclareWait $"op-due" $"goal-1" Sample.session Sample.workspace None 1 (Some 1) 3 $"a"
              (Some (CUtcDue 5000)) None).
Definition sample_look : GoalCommand :=
  WaitGoal (mkWaitCommand Commands.ObserveWait $"op-look" $"goal-1" Sample.session Sample.workspace None 1 (Some 1) 4 $"a"
              None (Some EUtcDue)).
Definition sample_waiting : list Fact := Eval vm_compute in
  match apply_command sample_host sample_moment Sample.accepted sample_due with Good r => fst (fst r) | Bad _ => [] end.
Definition look_at (now : Z) : option (nat * bool) :=
  match apply_command sample_host (mkMoment now (Good tt)) sample_waiting sample_look with
  | Good (facts, _, b) => Some (length facts - length sample_waiting, b)%nat
  | Bad _ => None
  end.
Lemma observation_waits_for_its_time : look_at 4999 = Some (0%nat, false) /\ look_at 5000 = Some (1%nat, true).
Proof. split; vm_compute; reflexivity. Qed.
