(* ===== verification/GoalTickFacts.v ===== *)
(** Ticks and slices: an [Advance] preview is one the writer admits, and the
    host's continuation bounds hold of every accepted log. *)
From S2P Require Import Prelude Text Planning PlanningFacts Goal GoalPlanFacts GoalLog GoalMachine GoalScenario.
From S2P Require Import GoalLogFacts GoalFacade GoalCommit.

Section Ticks.
Context `{LogEnv} (session : str) (workspace : WorkspaceRef) (policy : option str).
Implicit Types (v : DurableGoalDefinitionV1) (f g : Fact) (facts more : list Fact).

(** ** The operation a fold looks for only affects its replay *)
Definition same_fold (st st' : FoldedDefinitions) : Prop :=
  fd_current st = fd_current st' /\ fd_continuation st = fd_continuation st' /\ fd_operations st = fd_operations st'.
Lemma fold_one_operation facts o o' s1 s2 f s1' : same_fold s1 s2 ->
  fold_one facts session workspace policy o s1 f = Good s1' ->
  exists s2', fold_one facts session workspace policy o' s2 f = Good s2' /\ same_fold s1' s2'.
Proof.
  intros (Hc & Hu & Ho) (k & op & dg & v & u & [Hk Hf Hn Hcur Hop _ Hus])%fold_one_inv.
  exists (mkFolded (Some v) (if bool_decide (o' = Some op) then Some (dg, v) else fd_replay s2)
                   (fd_continuation s1') (op :: fd_operations s2)). split.
  - apply fold_one_inv. exists k, op, dg, v, u. constructor; try done; congruence.
  - split_and!; [done..|cbn; congruence].
Qed.
Lemma fold_operation facts o o' st : fold_definitions facts session workspace policy o = Good st ->
  exists st', fold_definitions facts session workspace policy o' = Good st' /\ same_fold st st'.
Proof.
  unfold fold_definitions. assert (Hg : forall l s1 s2 s1', same_fold s1 s2 ->
    fold_facts (fold_one facts session workspace policy o) s1 l = Good s1' ->
    exists s2', fold_facts (fold_one facts session workspace policy o') s2 l = Good s2' /\ same_fold s1' s2').
  { induction l as [|f l IH]; intros s1 s2 s1' Hs Hf; cbn in Hf |- *; [ginv; subst; eauto|].
    destruct (is_goal_fact f); [|by eapply IH]. ginv.
    match goal with H1 : fold_one _ _ _ _ _ _ _ = _ |- _ =>
      destruct (fold_one_operation _ _ o' _ _ _ _ Hs H1) as (s2' & E & Hs') end. rewrite E. by eapply IH. }
  by apply Hg.
Qed.

(** ** Operations are those of the goal facts *)
Lemma fold_kind_operation k f facts c u op dg v u' :
  fold_kind k f facts session workspace policy c u = Good (op, dg, v, u') ->
  payload_operation_id (f_payload f) = Some op.
Proof.
  assert (D1 : forall p s, decode_definition p = Some s -> payload_operation_id p = Some (gf_operation_id s)).
  { intros [] s; cbn; try done. destruct (validate_goal_definition _); [|done]. by intros [= <-]. }
  assert (D2 : forall p s, decode_plan p = Some s -> payload_operation_id p = Some (gf_operation_id s)).
  { intros [] s; cbn; try done. destruct (pb_plan _) as [plan|]; [destruct (validate_goal_plan plan); [|done]|];
      by intros [= <-]. }
  destruct k; cbn [fold_kind]; intros Hf;
    unfold fold_definition, fold_plan, fold_run, fold_settle, fold_complete, fold_step, fold_control, fold_wait in Hf;
    ginv; guards; simplify_eq; cbn in *; simplify_eq; auto;
    match goal with H1 : _ (f_payload f) = Some _ |- _ =>
      destruct (f_payload f); cbn in H1; try discriminate H1; by injection H1 as <- end.
Qed.
Lemma fold_operations facts o st : fold_definitions facts session workspace policy o = Good st ->
  forall op, In op (fd_operations st) ->
  exists f, In f facts /\ starts_with (f_kind f) $"a3s.goal." = true /\ payload_operation_id (f_payload f) = Some op.
Proof.
  apply (fold_facts_ind _ (fun l st => forall op, In op (fd_operations st) -> exists f, In f l
    /\ starts_with (f_kind f) $"a3s.goal." = true /\ payload_operation_id (f_payload f) = Some op)).
  - intros op [].
  - intros l s1 f IH _ op Hop. destruct (IH op Hop) as (g & Hg & E). exists g. split; [apply in_or_app; by left|done].
  - intros l s1 f s2 IH _ (k & op' & dg & v & u & [Hk Hf _ _ Ho _ _])%fold_one_inv op. rewrite Ho.
    intros [<-|Hop].
    + exists f. split_and!; [apply in_or_app; right; by left|rewrite Hk; by destruct k|by eapply fold_kind_operation].
    + destruct (IH op Hop) as (g & Hg & E). exists g. split; [apply in_or_app; by left|done].
Qed.

Lemma validate_id_field a b value u : validate_id a value = Good u -> validate_id b value = Good tt.
Proof. unfold validate_id. by intros ->%fail_if_Good. Qed.

Lemma fold_replayed facts o st : fold_definitions facts session workspace policy o = Good st ->
  forall op, o = Some op -> fd_replay st <> None -> In op (fd_operations st).
Proof.
  apply (fold_facts_ind _ (fun _ st => forall op, o = Some op -> fd_replay st <> None -> In op (fd_operations st))).
  - done.
  - auto.
  - intros _ s1 f s2 IH _ (k & op' & dg & v & u & [_ _ _ _ Ho Hr _])%fold_one_inv op -> Hn. rewrite Ho.
    rewrite Hr in Hn. case_bool_decide as E; [left; congruence|right; by apply IH].
Qed.
Lemma fresh_not_replayed facts op st : fold_definitions facts session workspace policy (Some op) = Good st ->
  existsb (fun f => starts_with (f_kind f) $"a3s.goal."
             && bool_decide (payload_operation_id (f_payload f) = Some op)) facts = false ->
  ~ fd_replay st <> None.
Proof.
  intros Hf He Hr. destruct (fold_operations _ _ _ Hf op (fold_replayed _ _ _ Hf op eq_refl Hr)) as (f & Hin & Hk & Hp).
  enough (true = false) by done. rewrite <-He. symmetry. apply existsb_exists. exists f. split; [done|].
  by rewrite Hk, bool_decide_true.
Qed.
Lemma accepted_plan_sequence v : view_ok session workspace policy v -> v_plan_accepted v = true ->
  exists q, v_plan_fact_sequence v = Some q.
Proof.
  intros Hok Ha. pose proof (vo_accepted _ _ _ _ Hok Ha) as Hp. destruct (v_plan v) as [p|] eqn:Ep; [|done].
  destruct (vo_plan _ _ _ _ Hok p Ep) as (_ & Hs & _). destruct (v_plan_fact_sequence v); [by eexists|done].
Qed.
Lemma binding_goal_id b : binding_validate b = Good tt -> validate_id "goal_id" (b_goal_id b) = Good tt.
Proof. unfold binding_validate. intros Hb. ginv. by eapply unit_Good. Qed.
Lemma new_fact_Good goal op k payload : validate_id "goal_id" goal = Good tt ->
  validate_id "operation_id" op = Good tt -> exists n, new_fact goal op k payload = Good n.
Proof. intros H1 H2. unfold new_fact, goal_fact_key. rewrite H1. cbn [mbind goal_bind]. rewrite H2. by eexists. Qed.

(** What an Advance preview has checked. *)
Record advances facts (command : GoalControlCommandV1) (unsettled : bool)
    (continuation : option ContinuationSource) v source : Prop := {
  av_operation : validate_id "operation_id" (cc_operation_id command) = Good tt;
  av_view : definition_from_facts facts session workspace policy = Good (Some v);
  av_goal : b_goal_id (v_binding v) = cc_goal_id command;
  av_fresh : existsb (fun f => starts_with (f_kind f) $"a3s.goal."
               && bool_decide (payload_operation_id (f_payload f) = Some (cc_operation_id command))) facts = false;
  av_settled : unsettled = false /\ slice_unsettled facts = false;
  av_sequence : v_goal_sequence v = cc_expected_goal_sequence command;
  av_active : v_state v = States.Active /\ v_plan_accepted v = true;
  av_ready : map t_id (ready_steps v) <> [];
  av_source : continuation = Some source;
  av_bounds : check_continuation facts session workspace policy source = Good tt;
}.
Lemma advance_inv facts command unsettled continuation :
  preview_tick facts session workspace policy command unsettled continuation = Good Ticks.Advance ->
  exists v source, advances facts command unsettled continuation v source.
Proof.
  unfold preview_tick. intros Htick. ginv. guards.
  match goal with H1 : matches_tick_run _ _ = Good ?b |- _ => destruct b; [done|] end. ginv. guards.
  destruct (unsettled || slice_unsettled facts) eqn:Eu; [done|]. ginv. guards.
  match goal with H1 : (match ?o with Some _ => _ | None => _ end) = Some ?w |- _ =>
    destruct o as [v|]; [|done]; destruct (str_eqb _ _) eqn:Eg; [|done]; injection H1 as <- end. guards.
  destruct (v_state v) eqn:Es; try done. destruct (v_plan_accepted v) eqn:Ep; [cbn [negb] in Htick|done].
  destruct (bool_decide _) eqn:Er in Htick; [by ginv; repeat case_match|]. guards.
  destruct continuation as [source|]; [|done].
  destruct (check_continuation _ _ _ _ source) as [[]|[[] | | | |]] eqn:Ec; try done.
  exists v, source. constructor; try done. by eapply unit_Good.
Qed.

(** An Advance preview is honest: when a tick is previewed as Advance, no
    slice or effect is open, the command names the goal's current revision,
    plan and sequence, and admitting the run the tick names, on the same log and
    bounds, succeeds with a fact for the first ready step. *)
Theorem advance_is_admitted (facts : list Fact) (command : GoalControlCommandV1) (unsettled : bool)
    (continuation : option ContinuationSource) (Hlog : unsigned_log facts)
    (Htick : preview_tick facts session workspace policy command unsettled continuation = Good Ticks.Advance) :
  unsettled = false /\ slice_unsettled facts = false
  /\ exists v n, definition_from_facts facts session workspace policy = Good (Some v)
       /\ b_goal_id (v_binding v) = cc_goal_id command /\ v_goal_sequence v = cc_expected_goal_sequence command
       /\ prepare_run facts session workspace policy (Some (cc_operation_id command)) continuation
          = Good (Some (mkPrepared (Some n) v))
       /\ (t_id <$> head (ready_steps v)) = acted_step (append_fact 0 n).
Proof.
  destruct (advance_inv _ _ _ _ Htick) as (v & source & [Hop Hv Hg Hfresh [Hu Hs] Hseq [Ha Hacc] Hready -> Hb]).
  split; [done|]. split; [done|]. unfold definition_from_facts in Hv. ginv. rename x into st.
  match goal with H1 : fold_definitions _ _ _ _ _ = _ |- _ => rename H1 into Hfold end.
  destruct (fold_operation _ _ (Some (cc_operation_id command)) _ Hfold) as (st' & Hfold' & Hc & Hus & Ho).
  rewrite Hv in Hc. symmetry in Hc. pose proof (fold_view_ok _ _ _ _ _ _ _ Hlog Hfold Hv) as Hok.
  assert (Hr : fd_replay st' = None).
  { destruct (fd_replay st') eqn:Er; [|done]. exfalso. apply (fresh_not_replayed _ _ _ Hfold' Hfresh). congruence. }
  destruct (ready_steps v) as [|s rest] eqn:Es; [done|].
  destruct (vo_bound _ _ _ _ Hok) as (_ & _ & _ & Hbind).
  destruct (accepted_plan_sequence _ Hok Hacc) as [plan_seq Hps].
  destruct (new_fact_Good (b_goal_id (v_binding v)) (cc_operation_id command) Kinds.SliceAdmitted (PRun
    (mkGoalFact GOAL_FACT_SCHEMA_V1 session (b_goal_id (v_binding v)) (cc_operation_id command)
      (run_digest v (mkRunBody (cc_operation_id command) (t_id s) (v_goal_sequence v) plan_seq (Some source)))
      (b_goal_revision (v_binding v)) (v_plan_revision v) (b_work_policy_digest (v_binding v))
      (mkRunBody (cc_operation_id command) (t_id s) (v_goal_sequence v) plan_seq (Some source)))))
    as [n Hn]; [by apply binding_goal_id|done|].
  exists v, n. split_and!; try done.
  - unfold definition_from_facts. rewrite Hfold. cbn. by rewrite Hv.
  - unfold prepare_run. rewrite Hfold'. cbn [mbind goal_bind]. rewrite Hc. cbn [ok_or mbind goal_bind].
    rewrite (validate_id_field _ "run_id" _ _ Hop). cbn [mbind goal_bind].
    unfold current_step. rewrite Hacc, Ha, Es. cbn [negb mbind goal_bind ok_or head].
    rewrite Hr. unfold check_continuation in Hb. ginv.
    match goal with H1 : fold_definitions _ _ _ _ None = Good ?a |- _ => assert (a = st) as -> by congruence end.
    match goal with H1 : check_admission _ _ = _ |- _ => rewrite H1 end. cbn [mbind goal_bind].
    match goal with H1 : usage_admit _ _ = _ |- _ => rewrite <-Hus, H1 end. cbn [mbind goal_bind mret goal_ret].
    rewrite Hps. cbn [ok_or mbind goal_bind]. by rewrite Hn.
  - destruct (new_fact_inv _ _ _ _ _ Hn) as [Hk Hp]. unfold acted_step.
    by rewrite Es, (is_kind_logged (append_fact 0 n) _ _ Hk), append_payload, Hp.
Qed.

(** ** Continuation bounds *)

(** The host bounds a slice was admitted under, if it continues a goal. *)
Definition slice_source f : option ContinuationSource :=
  if is_kind Kinds.SliceAdmitted f then decode_run (f_payload f) ≫= (fun b => rb_continuation (gf_body b)) else None.
Definition count_slice (n : Z) f : Z := match slice_source f with Some _ => n + 1 | None => n end.
(** Continuing slices of a log, and those since its last accepted step. *)
Definition continuing_slices facts : Z := fold_left count_slice facts 0.
Definition stalled_slices facts : Z :=
  fold_left (fun n f => if is_kind Kinds.StepAccepted f then 0 else count_slice n f) facts 0.

Lemma slice_source_goal f : is_goal_fact f = false -> slice_source f = None /\ is_kind Kinds.StepAccepted f = false.
Proof.
  intros Hf. unfold slice_source. split; destruct (is_kind _ f) eqn:E; try done;
    apply str_eqb_spec, kind_is_goal in E; congruence.
Qed.
Lemma usage_admit_inv u source u' : usage_admit u source = Good u' ->
  u_admitted_slices u' = u_admitted_slices u + 1 /\ u_slices_since_progress u' = u_slices_since_progress u + 1
  /\ u_last_observed_unix_ms u' = cs_observed_unix_ms source
  /\ u_admitted_slices u < Zpos (cp_max_slices (cs_policy source))
  /\ u_slices_since_progress u <= Zpos (cp_max_no_progress_slices (cs_policy source))
  /\ u_last_observed_unix_ms u <= cs_observed_unix_ms source < Zpos (cp_deadline_unix_ms (cs_policy source)).
Proof.
  unfold usage_admit, check_limits. intros Hu. ginv.
  repeat match goal with H1 : ok_or _ _ = _ |- _ => apply ok_or_Good, checked_add_Some in H1 as [-> _] end.
  subst u'. cbn.
  repeat match goal with H1 : fail_if _ _ = _ |- _ => apply fail_if_Good in H1 end.
  match goal with H1 : (_ <=? u_slices_since_progress u) && _ = false |- _ => apply andb_false_iff in H1 end.
  guards. split_and!; lia.
Qed.
Lemma fold_kind_usage k f facts c u op dg v u' : f_kind f = fact_kind_as_str k ->
  fold_kind k f facts session workspace policy c u = Good (op, dg, v, u') ->
  u_admitted_slices u' = count_slice (u_admitted_slices u) f
  /\ u_slices_since_progress u'
     = (if is_kind Kinds.StepAccepted f then 0 else count_slice (u_slices_since_progress u) f)
  /\ (forall source, slice_source f = Some source -> usage_admit u source = Good u').
Proof.
  intros Hk Hf. unfold count_slice, slice_source. rewrite !(is_kind_logged f k) by done.
  destruct (decide (k = Kinds.SliceAdmitted)) as [->|Hne].
  - cbn [fold_kind] in Hf. unfold fold_run in Hf. ginv. guards. injection Hf as <- <- <- <-.
    match goal with H1 : decode_run _ = _ |- _ => rewrite H1 end. cbn.
    destruct (rb_continuation _) as [source|] eqn:Es; cbn.
    + match goal with H1 : usage_admit _ _ = _ |- _ => apply usage_admit_inv in H1 as Hi; rename H1 into Hu end.
      destruct Hi as (Hi1 & Hi2 & _). split_and!; try done. by intros ? [= <-].
    + ginv. by subst.
  - rewrite (bool_decide_false (k = Kinds.SliceAdmitted)) by done.
    destruct k; cbn [fold_kind] in Hf; try done; ginv; by simplify_eq.
Qed.
Lemma fold_usage facts o st : fold_definitions facts session workspace policy o = Good st ->
  u_admitted_slices (fd_continuation st) = continuing_slices facts
  /\ u_slices_since_progress (fd_continuation st) = stalled_slices facts.
Proof.
  apply (fold_facts_ind _ (fun l st => u_admitted_slices (fd_continuation st) = continuing_slices l
           /\ u_slices_since_progress (fd_continuation st) = stalled_slices l)); [done|..];
    unfold continuing_slices, stalled_slices; intros l s1 f;
    [intros IH Hf; destruct (slice_source_goal f Hf) as [Hs Ha]|
     intros s2 IH Hf (k & op & dg & v & u & [Hk Hkind _ _ _ _ Hu])%fold_one_inv];
    rewrite !fold_left_app; cbn [fold_left]; destruct IH as [IH1 IH2].
  - rewrite Ha. unfold count_slice. by rewrite Hs.
  - destruct (fold_kind_usage _ _ _ _ _ _ _ _ _ Hk Hkind) as (E1 & E2 & _). rewrite IH1 in E1. rewrite IH2 in E2.
    rewrite <-E1, <-E2. case_bool_decide; [|by ginv; subst].
    destruct (v_plan v); ginv; match goal with H1 : _ = fd_continuation _ |- _ => by rewrite <-H1 end.
Qed.

(** C40. Automatic work is bounded: in an accepted log that ends with a slice
    admitted under host bounds, the number of such slices is at most
    max_slices, the number since the last accepted step is at most
    max_no_progress_slices + 1 (the last one only after a replan), and the
    host clock did not move backwards and is before the deadline. *)
Theorem continuation_is_bounded (facts : list Fact) (f : Fact) (operation : option str)
    (st st' : FoldedDefinitions) (source : ContinuationSource)
    (Hfold : fold_definitions facts session workspace policy operation = Good st)
    (Hfold' : fold_definitions (facts ++ [f]) session workspace policy operation = Good st')
    (Hf : slice_source f = Some source) :
  continuing_slices (facts ++ [f]) <= Zpos (cp_max_slices (cs_policy source))
  /\ stalled_slices (facts ++ [f]) <= Zpos (cp_max_no_progress_slices (cs_policy source)) + 1
  /\ u_last_observed_unix_ms (fd_continuation st) <= cs_observed_unix_ms source
     < Zpos (cp_deadline_unix_ms (cs_policy source)).
Proof.
  destruct (fold_usage _ _ _ Hfold) as [E1 E2]. destruct (fold_usage _ _ _ Hfold') as [E1' E2'].
  pose proof (fold_extends session workspace policy _ _ _ _ _ Hfold Hfold') as Hx.
  cbn [fold_facts] in Hx. destruct (is_goal_fact f) eqn:Eg;
    [|destruct (slice_source_goal f Eg); congruence]. ginv. subst.
  match goal with H1 : fold_one _ _ _ _ _ _ _ = _ |- _ => apply fold_one_kind in H1 as (k & op & dg & v & u & Hk & Hkf & _) end.
  destruct (fold_kind_usage _ _ _ _ _ _ _ _ _ Hk Hkf) as (F1 & F2 & F3).
  destruct (usage_admit_inv _ _ _ (F3 _ Hf)) as (G1 & G2 & _ & G3 & G4 & G5).
  unfold continuing_slices, stalled_slices in *. rewrite !fold_left_app in *. cbn [fold_left] in *.
  unfold count_slice in *. rewrite Hf in *. rewrite E1 in *. rewrite E2 in *.
  split_and!; lia.
Qed.
End Ticks.

(** ** The sample goal *)
Definition sample_source : ContinuationSource := mkSource (mkContinuation true 10 3 1000) 500.
Definition sample_tick : GoalControlCommandV1 := Sample.control Commands.Tick $"run-1" 3.
Lemma advance_is_admitted_witness :
  preview_tick Sample.accepted Sample.session Sample.workspace None sample_tick false (Some sample_source)
    = Good Ticks.Advance
  /\ exists v n, prepare_run Sample.accepted Sample.session Sample.workspace None (Some $"run-1") (Some sample_source)
       = Good (Some (mkPrepared (Some n) v)).
Proof.
  assert (E : preview_tick Sample.accepted Sample.session Sample.workspace None sample_tick false (Some sample_source)
    = Good Ticks.Advance) by (vm_compute; reflexivity).
  split; [exact E|].
  destruct (advance_is_admitted Sample.session Sample.workspace None Sample.accepted sample_tick false
    (Some sample_source)) as (_ & _ & v & n & _ & _ & _ & Hr & _); [|exact E|exists v, n; exact Hr].
  apply List.Forall_forall. intros f Hf. apply Z.leb_le. revert f Hf. apply forallb_forall. vm_compute. reflexivity.
Defined.

Definition sample_continued : list Fact := Eval vm_compute in
  match prepare_run Sample.accepted Sample.session Sample.workspace None (Some $"run-1") (Some sample_source) with
  | Good (Some p) => Sample.commit (Good p) Sample.accepted
  | _ => []
  end.
Lemma continuation_is_bounded_witness : continuing_slices sample_continued <= 10.
Proof.
  destruct (fold_definitions Sample.accepted Sample.session Sample.workspace None None) as [st|e] eqn:E;
    [|vm_compute in E; discriminate E].
  destruct (fold_definitions sample_continued Sample.session Sample.workspace None None) as [st'|e] eqn:E';
    [|vm_compute in E'; discriminate E'].
  refine (proj1 (continuation_is_bounded Sample.session Sample.workspace None Sample.accepted
    (List.nth 3 sample_continued (mkFact 0 [] [] false (POther JNull))) None st st' sample_source E E' _)).
  vm_compute. reflexivity.
Defined.
