(* ===== verification/GoalCloseout.v ===== *)
(** Closing slices and goals: the facts the code prepares to settle a slice and to
    complete a goal are facts its own projection accepts. *)
From S2P Require Import Prelude Text Planning PlanningFacts Goal GoalPlanFacts GoalLog GoalMachine GoalScenario.
From S2P Require Import GoalLogFacts GoalFacade GoalCommit GoalTickFacts.

Section Closeout.
Context `{LogEnv} (session : str) (workspace : WorkspaceRef) (policy : option str).
Implicit Types (v : DurableGoalDefinitionV1) (f g : Fact) (facts more : list Fact).

(** Every goal fact of an accepted log was folded. *)
Lemma fold_member facts o st f : fold_definitions facts session workspace policy o = Good st ->
  In f facts -> is_goal_fact f = true ->
  exists s1 s2, fold_one facts session workspace policy o s1 f = Good s2.
Proof.
  intros Hfold. revert f. revert Hfold.
  apply (fold_facts_ind (fold_one facts session workspace policy o)
    (fun l _ => forall f, In f l -> is_goal_fact f = true ->
       exists s1 s2, fold_one facts session workspace policy o s1 f = Good s2)).
  - intros f [].
  - intros l s1 g IH Hg f [Hf|[<-|[]]]%in_app_or Hgf; [by apply IH|congruence].
  - intros l s1 g s2 IH Hg Hone f [Hf|[<-|[]]]%in_app_or Hgf; [by apply IH|by exists s1, s2].
Qed.
(** A slice of an accepted log has the key of its run. *)
Lemma slice_key facts o st f stored : fold_definitions facts session workspace policy o = Good st ->
  In f facts -> is_kind Kinds.SliceAdmitted f = true -> decode_run (f_payload f) = Some stored ->
  goal_fact_key (gf_goal_id stored) (rb_run_id (gf_body stored)) Kinds.SliceAdmitted = Good (f_key f).
Proof.
  intros Hf Hin Hk Hd. apply str_eqb_spec in Hk as Hkind.
  destruct (fold_member _ _ _ _ Hf Hin (kind_is_goal _ _ Hkind)) as (s1 & s2 & Hone).
  apply fold_one_kind in Hone as (k & op & dg & v & u & Hk' & Hfold & _).
  assert (k = Kinds.SliceAdmitted) as -> by (apply kind_as_str_inj; congruence).
  cbn [fold_kind] in Hfold. unfold fold_run in Hfold. ginv. guards.
  match goal with H1 : decode_run _ = Some ?s |- _ => assert (s = stored) as -> by congruence end.
  match goal with H1 : validate_source _ _ _ _ _ = _ |- _ =>
    apply validate_source_inv in H1 as (_ & _ & _ & _ & _ & k & Hk2 & Hkey) end.
  assert (k = Kinds.SliceAdmitted) as -> by (apply kind_as_str_inj; congruence). congruence.
Qed.
Lemma find_seq_unique facts f : List.NoDup (map f_seq facts) -> In f facts -> find_seq (f_seq f) facts = Some f.
Proof.
  intros Hn Hin. unfold find_seq. induction facts as [|g facts IH]; [done|]. cbn in *. inversion_clear Hn.
  destruct Hin as [->|Hin]; [by rewrite Z.eqb_refl|]. destruct (f_seq g =? f_seq f) eqn:E; [|by apply IH].
  apply Z.eqb_eq in E. exfalso. match goal with H1 : ~ In _ _ |- _ => apply H1 end. rewrite E. by apply in_map.
Qed.
Lemma before_seq_new l g : (forall f, In f l -> f_seq f < f_seq g) -> before_seq (f_seq g) (l ++ [g]) = l.
Proof.
  intros Hl. unfold before_seq. replace (position _ (l ++ [g])) with (Some (length l)).
  - by rewrite take_app_length.
  - symmetry. induction l as [|f l IH]; cbn; [by rewrite Z.eqb_refl|].
    rewrite (proj2 (Z.eqb_neq (f_seq f) (f_seq g))) by (pose proof (Hl f (or_introl eq_refl)); lia).
    by rewrite IH by (intros h Hh; apply Hl; by right).
Qed.
Lemma slices_find facts goal run q : goal <> [] ->
  List.find (fun s => str_eqb (snd (fst s)) goal && str_eqb (snd s) run) (slices facts) = Some (q, goal, run) ->
  exists f stored, In f facts /\ is_kind Kinds.SliceAdmitted f = true /\ decode_run (f_payload f) = Some stored
    /\ gf_goal_id stored = goal /\ rb_run_id (gf_body stored) = run /\ f_seq f = q.
Proof.
  intros Hne [Hin _]%find_some. unfold slices in Hin. apply in_map_iff in Hin as (f & E & Hf).
  apply filter_In in Hf as [Hf Hk]. destruct (decode_run (f_payload f)) as [stored|] eqn:Ed; [|by simplify_eq].
  exists f, stored. by simplify_eq.
Qed.

Lemma valid_id_nonempty field value : validate_id field value = Good tt -> value <> [].
Proof. unfold validate_id. intros Hv. guards. done. Qed.
Lemma settled_snoc facts goal run payload n seq :
  new_fact goal (settle_operation_id run) Kinds.SliceSettled payload = Good n ->
  settled (facts ++ [append_fact seq n]) goal run = true.
Proof.
  unfold new_fact, settled. intros Hn. ginv. subst n. match goal with H1 : goal_fact_key _ _ _ = _ |- _ => rewrite H1 end.
  rewrite existsb_app. cbn. by rewrite str_eqb_refl, !orb_true_r.
Qed.

(** The log a closeout is prepared on and the sequence it is stored at. *)
Record closing_log facts (seq : Z) (operation : str) : Prop := {
  cl_unsigned : unsigned_log facts;
  cl_distinct : List.NoDup (map f_seq facts);
  cl_seq : forall f, In f facts -> f_seq f < seq;
  cl_positive : 0 < seq;
  (** the host used the derived operation id for nothing else *)
  cl_operation : forall f, In f facts -> payload_operation_id (f_payload f) <> Some operation;
}.
Lemma closing_appended facts seq op : closing_log facts seq op -> appended facts [] seq.
Proof. intros []. constructor; rewrite ?app_nil_r; try done. by intros f g _ []. Qed.
Lemma closing_fresh facts seq op st : closing_log facts seq op ->
  fold_definitions facts session workspace policy None = Good st -> ~ In op (fd_operations st).
Proof. intros Hcl Hf Hin. destruct (fold_operations _ _ _ _ _ _ Hf op Hin) as (f & Hf' & _ & E). by eapply cl_operation. Qed.

Definition settled_fact v (body : SettledBody) : GoalFact SettledBody :=
  mkGoalFact GOAL_FACT_SCHEMA_V1 session (b_goal_id (v_binding v)) (settle_operation_id (sb_run_id body))
    (settle_digest v body) (b_goal_revision (v_binding v)) (v_plan_revision v) (b_work_policy_digest (v_binding v)) body.
Definition consistent (body : SettledBody) : bool :=
  match sb_outcome body with
  | SliceCompleted => bool_decide (sb_completion_sequence body <> None) && bool_decide (sb_usage body <> None)
  | SliceInterrupted => bool_decide (sb_usage body = None)
  end.
Lemma fold_settle_accepts facts seq n v body f :
  find_seq (sb_run_sequence body) facts = Some f -> is_kind Kinds.SliceAdmitted f = true ->
  goal_fact_key (b_goal_id (v_binding v)) (sb_run_id body) Kinds.SliceAdmitted = Good (f_key f) ->
  closeout_refs facts (b_goal_id (v_binding v)) (sb_run_id body) (sb_run_sequence body)
    = Good (sb_completion_sequence body, sb_step_sequence body) ->
  consistent body = true -> has_unsettled_effects facts = false ->
  b_workspace (v_binding v) = workspace -> b_work_policy_digest (v_binding v) = policy ->
  new_fact (b_goal_id (v_binding v)) (settle_operation_id (sb_run_id body)) Kinds.SliceSettled
    (PSettled (settled_fact v body)) = Good n ->
  (forall g, In g facts -> f_seq g < seq) -> 0 < seq -> after seq (Some v) ->
  fold_settle (append_fact seq n) (Some v) (facts ++ [append_fact seq n]) session workspace policy
  = Good (settle_operation_id (sb_run_id body), settle_digest v body, v).
Proof.
  intros Hfind Hk Hkey Hrefs Hc Heff Hws Hpol Hn Hl Hq Ha. destruct (new_fact_inv _ _ _ _ _ Hn) as [_ Hp].
  unfold fold_settle. rewrite append_payload, Hp. cbn [ok_or mbind goal_bind decode_settled].
  erewrite validate_prepared; [|done..|exact Hn|done|done]. cbn [mbind goal_bind].
  rewrite (before_seq_new facts (append_fact seq n) Hl : before_seq (f_seq _) _ = _).
  cbn [gf_body settled_fact]. rewrite Hfind. cbn [ok_or mbind goal_bind]. rewrite Hrefs. cbn [mbind goal_bind].
  rewrite Hk. cbn [negb]. rewrite Hkey. cbn [mbind goal_bind].
  change (match sb_outcome body with SliceCompleted => _ | SliceInterrupted => _ end) with (consistent body).
  rewrite Hc, Heff, str_eqb_refl. cbn [negb orb]. rewrite orb_false_r. pass. done.
Qed.

(** A settlement the code prepares is one its projection accepts: appended to
    the log it was prepared on, it leaves the goal's definition as it was and
    the slice settled, provided the operation id it derives from the run was
    not used by another command. *)
Theorem settlement_is_accepted (facts : list Fact) (seq : Z) (run_id : str) (usage : option TokenUsage) (n : NewFact)
    (Hlog : closing_log facts seq (settle_operation_id run_id))
    (Hprep : prepare_settlement facts session workspace policy run_id usage = Good (Some n)) :
  exists v st, definition_from_facts facts session workspace policy = Good (Some v)
    /\ fold_definitions (facts ++ [append_fact seq n]) session workspace policy None = Good st
    /\ fd_current st = Some v
    /\ settled (facts ++ [append_fact seq n]) (b_goal_id (v_binding v)) run_id = true.
Proof.
  unfold prepare_settlement in Hprep. apply gbind_Good in Hprep as (o & Ho & Hprep). destruct o as [v|]; [|done].
  exists v. unfold definition_from_facts in Ho |- *. apply gbind_Good in Ho as (st & Hfold & Hv). ginv.
  rewrite Hfold. cbn [mbind goal_bind]. rewrite Hv.
  pose proof (fold_view_ok _ _ _ _ _ _ _ (cl_unsigned _ _ _ Hlog) Hfold Hv) as Hok.
  destruct (vo_bound _ _ _ _ Hok) as (_ & Hws & Hpol & Hbind).
  destruct (List.find _ _) as [[[q goal] run]|] eqn:Hfind; [|done].
  destruct (settled facts _ run_id) eqn:Eset; [done|].
  apply gbind_Good in Hprep as (u & Heff & Hprep). apply gbind_Good in Hprep as ([c s] & Hrefs & Hprep).
  apply fail_if_Good in Heff.
  assert (Hg : exists body, sb_run_id body = run_id /\ sb_run_sequence body = q /\ sb_completion_sequence body = c
    /\ sb_step_sequence body = s /\ consistent body = true
    /\ new_fact (b_goal_id (v_binding v)) (settle_operation_id run_id) Kinds.SliceSettled
         (PSettled (settled_fact v body)) = Good n).
  { destruct c as [c|], usage as [us|]; ginv; simplify_eq;
      match goal with H1 : new_fact _ _ _ (PSettled ?st) = _ |- _ => exists (gf_body st) end; by split_and!. }
  destruct Hg as (body & <- & <- & <- & <- & Hcons & Hn).
  apply find_some in Hfind as Hmatch. destruct Hmatch as [_ [E1 E2]%andb_true_iff]. cbn in E1, E2.
  apply str_eqb_spec in E1, E2. subst goal run.
  destruct (slices_find facts _ _ _ (valid_id_nonempty _ _ (binding_goal_id _ Hbind)) Hfind)
    as (f & stored & Hin & Hk & Hd & Eg & Er & Eq).
  pose proof (slice_key _ _ _ _ _ Hfold Hin Hk Hd) as Hkey. rewrite Eg, Er in Hkey.
  pose proof (closing_appended _ _ _ Hlog) as Happ. pose proof (appended_after _ _ _ _ _ _ _ _ Happ Hfold) as Haft.
  rewrite Hv in Haft. destruct (new_fact_inv _ _ _ _ _ Hn) as [Hkn _].
  edestruct (commit_fresh session workspace policy facts [] None st (append_fact seq n)) as (st' & Hst & Hcur & _);
    [exact Hfold|by eapply closing_fresh|exact Happ|exact Hkn| |].
  { rewrite Hv. cbn [fold_kind app]. erewrite fold_settle_accepts; [reflexivity|..]; try done.
    - rewrite <-Eq. apply find_seq_unique; [apply Hlog|done].
    - apply Hlog.
    - apply Hlog. }
  exists st'. split_and!; try done. eapply settled_snoc; exact Hn.
Qed.

(** A completion the code prepares is one its projection accepts: appended to
    the log it was prepared on, it makes the goal completed, with nothing else
    changed, provided the operation id it derives from the goal was not used by
    another command; and it is only prepared when every slice and effect is
    settled and the goal's work is closed. *)
Theorem completion_is_accepted (facts : list Fact) (seq : Z) (n : NewFact) (v : DurableGoalDefinitionV1)
    (Hlog : closing_log facts seq (complete_operation_id (b_goal_id (v_binding v))))
    (Hview : definition_from_facts facts session workspace policy = Good (Some v))
    (Hprep : prepare_completion facts session workspace policy = Good (Some n)) :
  closed_goal v /\ unsettled_slices facts = [] /\ has_unsettled_effects facts = false
  /\ exists st, fold_definitions (facts ++ [append_fact seq n]) session workspace policy None = Good st
       /\ fd_current st = Some (with_sequence seq (with_state States.Completed v)).
Proof.
  unfold prepare_completion in Hprep. rewrite Hview in Hprep. cbn [mbind goal_bind] in Hprep.
  apply gbind_Good in Hprep as (o & Hcl & Hprep). destruct o as [body|]; [|done]. ginv. simplify_eq.
  match goal with H1 : new_fact _ _ _ _ = _ |- _ => rename H1 into Hn end.
  destruct (closure_finished _ _ _ Hcl) as (Hfin & Hsl & Heff). split_and!; [by apply finished_closed|done|done|].
  unfold definition_from_facts in Hview. ginv. rename x into st. rename Hview into Hv.
  match goal with H1 : fold_definitions _ _ _ _ _ = _ |- _ => rename H1 into Hfold end.
  pose proof (fold_view_ok _ _ _ _ _ _ _ (cl_unsigned _ _ _ Hlog) Hfold Hv) as Hok.
  destruct (vo_bound _ _ _ _ Hok) as (_ & Hws & Hpol & Hbind).
  pose proof (closing_appended _ _ _ Hlog) as Happ. pose proof (appended_after _ _ _ _ _ _ _ _ Happ Hfold) as Haft.
  rewrite Hv in Haft. destruct (new_fact_inv _ _ _ _ _ Hn) as [Hk Hp].
  edestruct (commit_fresh session workspace policy facts [] None st (append_fact seq n)) as (st' & Hst & Hcur & _);
    [exact Hfold|by eapply closing_fresh|exact Happ|exact Hk| |by exists st'].
  rewrite Hv. cbn [fold_kind app]. unfold fold_complete. rewrite append_payload, Hp.
  cbn [ok_or mbind goal_bind decode_completed].
  erewrite validate_prepared; [|done..|exact Hn|apply Hlog|done]. cbn [mbind goal_bind].
  rewrite (before_seq_new facts (append_fact seq n) (cl_seq _ _ _ Hlog) : before_seq (f_seq _) _ = _).
  rewrite Hcl. cbn [mbind goal_bind]. pass. reflexivity.
Qed.
End Closeout.

(** ** The sample goal *)
Lemma closing_sample facts seq op :
  forallb (fun f => (0 <=? f_seq f) && (f_seq f <? seq)
                    && negb (bool_decide (payload_operation_id (f_payload f) = Some op))) facts = true ->
  bool_decide (NoDup (map f_seq facts)) = true -> 0 < seq -> closing_log facts seq op.
Proof.
  intros Hf Hn%bool_decide_eq_true Hq. rewrite forallb_forall in Hf. constructor; try done.
  - apply List.Forall_forall. intros f Hin. apply Hf in Hin. guards. lia.
  - by apply NoDup_ListNoDup.
  - intros f Hin. apply Hf in Hin. guards. lia.
  - intros f Hin. apply Hf in Hin. by guards.
Qed.
Definition sample_worked : list Fact := Eval vm_compute in Sample.work $"run-1" (Sample.start_run $"run-1" Sample.accepted).
Lemma settlement_is_accepted_witness : exists n,
  prepare_settlement sample_worked Sample.session Sample.workspace None $"run-1" (Some (mkUsage 1 1 2 None None)) = Good (Some n)
  /\ exists v st, fold_definitions (sample_worked ++ [append_fact 7 n]) Sample.session Sample.workspace None None = Good st
       /\ fd_current st = Some v.
Proof.
  eexists. split; [vm_compute; reflexivity|].
  edestruct (settlement_is_accepted Sample.session Sample.workspace None sample_worked 7 $"run-1"
    (Some (mkUsage 1 1 2 None None))) as (v & st & _ & Hst & Hv & _);
    [apply closing_sample; vm_compute; reflexivity|vm_compute; reflexivity|].
  exists v, st. split; [exact Hst|exact Hv].
Defined.
Lemma completion_is_accepted_witness :
  match definition_from_facts Sample.all_steps Sample.session Sample.workspace None with
  | Good (Some v) => exists n st, prepare_completion Sample.all_steps Sample.session Sample.workspace None = Good (Some n)
      /\ fold_definitions (Sample.all_steps ++ [append_fact 12 n]) Sample.session Sample.workspace None None = Good st
      /\ fd_current st = Some (with_sequence 12 (with_state States.Completed v))
  | _ => False
  end.
Proof.
  destruct (definition_from_facts Sample.all_steps Sample.session Sample.workspace None) as [[v|]|] eqn:E;
    [|vm_compute in E; discriminate E|vm_compute in E; discriminate E].
  eexists. edestruct (completion_is_accepted Sample.session Sample.workspace None Sample.all_steps 12)
    as (_ & _ & _ & st & Hst & Hc); [|exact E|vm_compute; reflexivity|exists st; split; [vm_compute; reflexivity|split; [exact Hst|exact Hc]]].
  vm_compute in E. injection E as <-. apply closing_sample; vm_compute; reflexivity.
Defined.
