(* ===== verification/Verification.v ===== *)
(** Verification evidence ([verification.rs], [read_only_verifier.rs]): checks,
    reports and their summary, the commands a workspace declares as checks, how a
    shell command becomes evidence, and the gate in front of [GoalAchieved]. *)
From S2P Require Import Prelude Text Paths ShellLexer Shell.

Definition VERIFICATION_REPORT_SCHEMA : str := $"a3s.verification_report.v1".

Module Verdicts.
Inductive VerificationStatus : Type := Passed | Failed | NeedsReview | Skipped.
End Verdicts.
Abbreviation VerificationStatus := Verdicts.VerificationStatus.
#[global] Instance VerificationStatus_eq_dec : EqDecision VerificationStatus.
Proof. solve_decision. Defined.
Definition is_status (a b : VerificationStatus) : bool := bool_decide (a = b).

(** ** Checks *)
Record VerificationCheck : Type := mkCheck {
  vc_id : str;
  vc_kind : str;
  vc_description : str;
  vc_status : VerificationStatus;
  vc_required : bool;
  vc_suggested_tools : list str;
  vc_evidence_uris : list str;
  vc_residual_risk : option str;
}.
#[global] Instance VerificationCheck_eq_dec : EqDecision VerificationCheck.
Proof. solve_decision. Defined.
Definition required_check (id kind description : str) : VerificationCheck :=
  mkCheck id kind description Verdicts.NeedsReview true [] [] None.
Definition optional_check (id kind description : str) : VerificationCheck :=
  mkCheck id kind description Verdicts.NeedsReview false [] [] None.
Definition check_with_status (s : VerificationStatus) (c : VerificationCheck) : VerificationCheck :=
  mkCheck (vc_id c) (vc_kind c) (vc_description c) s (vc_required c) (vc_suggested_tools c)
          (vc_evidence_uris c) (vc_residual_risk c).
Definition with_suggested_tools (tools : list str) (c : VerificationCheck) : VerificationCheck :=
  mkCheck (vc_id c) (vc_kind c) (vc_description c) (vc_status c) (vc_required c) tools
          (vc_evidence_uris c) (vc_residual_risk c).
Definition with_evidence_uris (uris : list str) (c : VerificationCheck) : VerificationCheck :=
  mkCheck (vc_id c) (vc_kind c) (vc_description c) (vc_status c) (vc_required c)
          (vc_suggested_tools c) uris (vc_residual_risk c).
Definition check_with_residual_risk (risk : str) (c : VerificationCheck) : VerificationCheck :=
  mkCheck (vc_id c) (vc_kind c) (vc_description c) (vc_status c) (vc_required c)
          (vc_suggested_tools c) (vc_evidence_uris c) (Some risk).

Record ProgramVerificationHint : Type := mkHint {
  ph_kind : str; ph_message : str; ph_required : bool; ph_suggested_tools : list str;
  ph_evidence_uris : list str;
}.
Definition from_program_hint (subject : str) (index : nat) (hint : ProgramVerificationHint)
    : VerificationCheck :=
  let id := $"program:" ++ subject ++ $":" ++ ph_kind hint ++ $":" ++ show (Z.of_nat index) in
  let check := if ph_required hint then required_check id (ph_kind hint) (ph_message hint)
               else optional_check id (ph_kind hint) (ph_message hint) in
  with_evidence_uris (ph_evidence_uris hint) (with_suggested_tools (ph_suggested_tools hint) check).

(** ** Commands that count as checks *)
Record VerificationCommand : Type := mkVerificationCommand {
  vm_id : str;
  vm_kind : str;
  vm_description : str;
  vm_command : str;
  vm_required : bool;
  vm_timeout_ms : option Z;
  vm_expect_exit : Z;
}.
#[global] Instance VerificationCommand_eq_dec : EqDecision VerificationCommand.
Proof. solve_decision. Defined.
Definition required_command (id kind description command : str) : VerificationCommand :=
  mkVerificationCommand id kind description command true None 0.
Definition optional_command (id kind description command : str) : VerificationCommand :=
  mkVerificationCommand id kind description command false None 0.
Definition with_expect_exit (code : Z) (c : VerificationCommand) : VerificationCommand :=
  mkVerificationCommand (vm_id c) (vm_kind c) (vm_description c) (vm_command c) (vm_required c)
                        (vm_timeout_ms c) code.
Record VerificationPreset : Type := mkPreset {
  vp_id : str; vp_project_kind : str; vp_description : str; vp_commands : list VerificationCommand;
}.

Definition show_i32 (n : Z) : str := if n <? 0 then c_dash :: show (- n) else show n.

(** Every [artifact_uri] of a JSON value, at any depth. *)
Fixpoint collect_artifact_uris (value : json) : list str :=
  match value with
  | JObject fields =>
      match jget_str $"artifact_uri" value with Some uri => [uri] | None => [] end
      ++ (fix values (l : list (str * json)) : list str :=
            match l with [] => [] | (_, v) :: l => collect_artifact_uris v ++ values l end) fields
  | JArray items =>
      (fix values (l : list json) : list str :=
         match l with [] => [] | v :: l => collect_artifact_uris v ++ values l end) items
  | _ => []
  end.
Definition artifact_uris (metadata : option json) : list str :=
  dedup (sort_strs (match metadata with Some m => collect_artifact_uris m | None => [] end)).

Definition to_check (c : VerificationCommand) : VerificationCheck :=
  let check := if vm_required c then required_check (vm_id c) (vm_kind c) (vm_description c)
               else optional_check (vm_id c) (vm_kind c) (vm_description c) in
  with_suggested_tools [$"bash"] check.
Definition check_from_execution (c : VerificationCommand) (exit_code : Z) (metadata : option json)
    (execution_error : option str) : VerificationCheck :=
  let passed := (exit_code =? vm_expect_exit c)
                && match execution_error with None => true | Some _ => false end in
  let check := check_with_status (if passed then Verdicts.Passed else Verdicts.Failed) (to_check c) in
  let evidence := artifact_uris metadata in
  let check := match evidence with [] => check | _ => with_evidence_uris evidence check end in
  match execution_error with
  | Some error => check_with_residual_risk ($"verification command could not run: " ++ error) check
  | None =>
      if negb (exit_code =? vm_expect_exit c)
      then check_with_residual_risk ($"verification command exited with code " ++ show_i32 exit_code
             ++ $", expected " ++ show_i32 (vm_expect_exit c) ++ $": " ++ vm_command c) check
      else check
  end.

(** ** Reports *)
Record VerificationReport : Type := mkReport {
  vr_schema : str;
  vr_subject : str;
  vr_status : VerificationStatus;
  vr_checks : list VerificationCheck;
  vr_residual_risks : list str;
  vr_effect_digest : option str;
}.
#[global] Instance VerificationReport_eq_dec : EqDecision VerificationReport.
Proof. solve_decision. Defined.

Definition pending_check (c : VerificationCheck) : bool :=
  vc_required c && (is_status (vc_status c) Verdicts.NeedsReview || is_status (vc_status c) Verdicts.Skipped).
Definition derive_status (checks : list VerificationCheck) (residual_risks : list str) : VerificationStatus :=
  if existsb (fun c => is_status (vc_status c) Verdicts.Failed) checks then Verdicts.Failed
  else if existsb pending_check checks then Verdicts.NeedsReview
  else match residual_risks with
       | _ :: _ => Verdicts.NeedsReview
       | [] => match checks with [] => Verdicts.Skipped | _ => Verdicts.Passed end
       end.
Definition new_report (subject : str) (checks : list VerificationCheck) : VerificationReport :=
  mkReport VERIFICATION_REPORT_SCHEMA subject (derive_status checks []) checks [] None.
Definition from_program_hints (subject : str) (hints : list ProgramVerificationHint) : VerificationReport :=
  new_report ($"program:" ++ subject) (imap (from_program_hint subject) hints).
Definition with_effect_digest (digest : str) (r : VerificationReport) : VerificationReport :=
  mkReport (vr_schema r) (vr_subject r) (vr_status r) (vr_checks r) (vr_residual_risks r) (Some digest).
Definition report_with_residual_risk (risk : str) (r : VerificationReport) : VerificationReport :=
  let risks := vr_residual_risks r ++ [risk] in
  mkReport (vr_schema r) (vr_subject r) (derive_status (vr_checks r) risks) (vr_checks r) risks (vr_effect_digest r).

(** ** Summary *)
Record VerificationSummary : Type := mkSummary {
  vs_status : VerificationStatus;
  vs_report_count : nat;
  vs_required_check_count : nat;
  vs_pending_required_check_count : nat;
  vs_failed_check_count : nat;
  vs_residual_risk_count : nat;
  vs_pending_subjects : list str;
  vs_failed_subjects : list str;
}.
(** The mutable locals of [from_reports]. *)
Record Tally : Type := mkTally {
  ty_required : nat; ty_pending : nat; ty_failed : nat; ty_residual : nat;
  ty_pending_subjects : list str; ty_failed_subjects : list str;
}.
Definition bump (b : bool) (n : nat) : nat := if b then S n else n.
Definition note (b : bool) (subject : str) (l : list str) : list str := if b then l ++ [subject] else l.
Definition tally_check (subject : str) (t : Tally) (c : VerificationCheck) : Tally :=
  let pending := pending_check c in
  let failed := is_status (vc_status c) Verdicts.Failed in
  let risk := match vc_residual_risk c with Some _ => true | None => false end in
  mkTally (bump (vc_required c) (ty_required t)) (bump pending (ty_pending t))
          (bump failed (ty_failed t)) (bump risk (ty_residual t))
          (note risk subject (note pending subject (ty_pending_subjects t)))
          (note failed subject (ty_failed_subjects t)).
Definition tally_report (t : Tally) (r : VerificationReport) : Tally :=
  fold_left (tally_check (vr_subject r)) (vr_checks r)
    (mkTally (ty_required t) (ty_pending t) (ty_failed t) (ty_residual t + length (vr_residual_risks r))
       (note (is_status (vr_status r) Verdicts.NeedsReview) (vr_subject r) (ty_pending_subjects t))
       (note (is_status (vr_status r) Verdicts.Failed) (vr_subject r) (ty_failed_subjects t))).
Definition tally (reports : list VerificationReport) : Tally :=
  fold_left tally_report reports (mkTally 0 0 0 0 [] []).
Definition any_status (s : VerificationStatus) (reports : list VerificationReport) : bool :=
  existsb (fun r => is_status (vr_status r) s) reports.
Definition from_reports (reports : list VerificationReport) : VerificationSummary :=
  let t := tally reports in
  let status :=
    if (0 <? ty_failed t)%nat || any_status Verdicts.Failed reports then Verdicts.Failed
    else if (0 <? ty_pending t)%nat || (0 <? ty_residual t)%nat || any_status Verdicts.NeedsReview reports
         then Verdicts.NeedsReview
    else match reports with [] => Verdicts.Skipped | _ => Verdicts.Passed end in
  mkSummary status (length reports) (ty_required t) (ty_pending t) (ty_failed t) (ty_residual t)
            (dedup (sort_strs (ty_pending_subjects t))) (dedup (sort_strs (ty_failed_subjects t))).
Definition supports_goal_achievement (s : VerificationSummary) : bool :=
  is_status (vs_status s) Verdicts.Passed && (0 <? vs_report_count s)%nat
  && (0 <? vs_required_check_count s)%nat && (vs_pending_required_check_count s =? 0)%nat
  && (vs_failed_check_count s =? 0)%nat && (vs_residual_risk_count s =? 0)%nat.

(** ** Commands declared by the workspace *)
Definition node_script_command (package_manager script : str) : str :=
  if one_of package_manager ["pnpm"; "yarn"] then package_manager ++ $" " ++ script
  else if str_eqb package_manager $"bun" then $"bun run " ++ script
  else if str_eqb package_manager $"npm" && str_eqb script $"test" then $"npm test"
  else if str_eqb package_manager $"npm" then $"npm run " ++ script
  else package_manager ++ $" run " ++ script.

Section Workspace.
Context `{FileSystem} (json_parse : str -> option json).

Definition has_file (workspace : Path) (name : string) : bool := is_file (push workspace (lit name)).
Definition file_contains (path : Path) (needle : str) : bool :=
  match read_to_string path with Some content => contains_str content needle | None => false end.

Definition detect_node_package_manager (workspace : Path) (package : json) : str :=
  let named := match jget_str $"packageManager" package with
               | Some manager => option_map fst (split_once c_at manager)
               | None => None
               end in
  match named with
  | Some name => name
  | None =>
      if has_file workspace "pnpm-lock.yaml" then $"pnpm"
      else if has_file workspace "yarn.lock" then $"yarn"
      else if has_file workspace "bun.lockb" || has_file workspace "bun.lock" then $"bun"
      else $"npm"
  end.
Definition node_scripts : list (str * str * str * bool) :=
  [($"test", $"test", $"Run JavaScript tests", true);
   ($"typecheck", $"type_check", $"Run JavaScript type checks", false);
   ($"lint", $"lint", $"Run JavaScript lint checks", false)].
Definition node_verification_preset (workspace : Path) : option VerificationPreset :=
  package_json ← read_to_string (push workspace $"package.json");
  package ← json_parse package_json;
  scripts ← (match jget $"scripts" package with Some (JObject fields) => Some fields | _ => None end);
  let package_manager := detect_node_package_manager workspace package in
  let commands := omap (fun '(script, kind, description, required) =>
      if existsb (fun kv => str_eqb script (fst kv)) scripts then
        let command := node_script_command package_manager script in
        let id := $"node:" ++ script in
        Some (if (required : bool) then required_command id kind description command
              else optional_command id kind description command)
      else None) node_scripts in
  match commands with
  | [] => None
  | _ => Some (mkPreset $"node-default" $"node" $"Node.js package verification" commands)
  end.

Definition rust_preset : VerificationPreset :=
  mkPreset $"rust-default" $"rust" $"Rust cargo verification"
    [required_command $"rust:fmt" $"format" $"Check Rust formatting" $"cargo fmt -- --check";
     required_command $"rust:check" $"type_check" $"Run Rust type checking" $"cargo check";
     required_command $"rust:test" $"test" $"Run Rust tests" $"cargo test";
     optional_command $"rust:clippy" $"lint" $"Run Rust clippy lints" $"cargo clippy -- -D warnings"].
Definition go_preset : VerificationPreset :=
  mkPreset $"go-default" $"go" $"Go module verification"
    [required_command $"go:test" $"test" $"Run Go tests" $"go test ./...";
     optional_command $"go:vet" $"lint" $"Run go vet" $"go vet ./..."].
Definition python_commands (workspace : Path) : list VerificationCommand :=
  let pyproject := push workspace $"pyproject.toml" in
  (if is_dir (push workspace $"tests") || file_contains pyproject $"[tool.pytest"
      || has_file workspace "pytest.ini"
   then [required_command $"python:test" $"test" $"Run Python tests" $"python -m pytest"] else [])
  ++ (if has_file workspace "ruff.toml" || has_file workspace ".ruff.toml"
         || file_contains pyproject $"[tool.ruff"
      then [optional_command $"python:ruff" $"lint" $"Run Ruff lint checks" $"python -m ruff check ."] else [])
  ++ (if has_file workspace "mypy.ini" || has_file workspace ".mypy.ini"
         || file_contains pyproject $"[tool.mypy"
      then [optional_command $"python:mypy" $"type_check" $"Run mypy type checking" $"python -m mypy ."] else []).
Definition verification_presets_for_workspace (workspace : Path) : list VerificationPreset :=
  (if has_file workspace "Cargo.toml" then [rust_preset] else [])
  ++ (if has_file workspace "package.json" then option_list (node_verification_preset workspace) else [])
  ++ (if has_file workspace "pyproject.toml" || has_file workspace "pytest.ini" then
        match python_commands workspace with
        | [] => []
        | commands => [mkPreset $"python-default" $"python" $"Python project verification" commands]
        end
      else [])
  ++ (if has_file workspace "go.mod" then [go_preset] else []).

(** ** Acceptance criteria of active loops *)
Definition ACTIVE_GOAL_LOOP_STATUSES : list string := ["running"; "retrying"; "paused"].
Fixpoint first_status (ls : list str) : option str :=
  match ls with
  | [] => None
  | line :: ls =>
      match strip_prefix $"Status:" (trim line) with
      | Some status => Some (trim status)
      | None => first_status ls
      end
  end.
Definition loop_owns_active_acceptance_contract (loop_dir : Path) : bool :=
  match read_to_string (push loop_dir $"STATE.md") with
  | None => false
  | Some state =>
      match first_status (lines state) with
      | Some status => existsb (fun allowed => eq_ignore_ascii_case status (lit allowed)) ACTIVE_GOAL_LOOP_STATUSES
      | None => false
      end
  end.

(** [body[idx + needle.len()..]] for the first occurrence in the lower-cased text. *)
Definition after_ignore_case (needle body : str) : option str :=
  match find_str needle (to_ascii_lowercase body) with
  | Some (before, _) => Some (drop (length before + length needle) body)
  | None => None
  end.
Definition extract_acceptance_assert_command (body : str) : option str :=
  after ← after_ignore_case $"assert:" body;
  let after := trim_start after in
  match strip_prefix $"`" after with
  | Some rest =>
      '(command, _) ← find_str $"`" rest;
      let command := trim command in
      if str_eqb command [] then None else Some command
  | None =>
      match split_whitespace after with
      | token :: _ => if starts_with (to_ascii_lowercase token) $"expect:" then None else Some token
      | [] => None
      end
  end.
(** [str::parse::<i32>] on digits and minus signs. *)
Definition parse_i32 (s : str) : option Z :=
  n ← (match strip_prefix [c_dash] s with
       | Some digits => option_map Z.opp (parse_decimal digits)
       | None => parse_decimal s
       end);
  if (- 2 ^ 31 <=? n) && (n <? 2 ^ 31) then Some n else None.
Fixpoint take_while (f : char -> bool) (s : str) : str :=
  match s with [] => [] | c :: s => if f c then c :: take_while f s else [] end.
Definition extract_acceptance_expect_exit (body : str) : option Z :=
  after ← after_ignore_case $"expect:exit=" body;
  parse_i32 (take_while (fun c => is_ascii_digit c || (c =? c_dash)) after).

Fixpoint stays_inside (depth : Z) (l : Path) : bool :=
  match l with
  | [] => true
  | ParentDir :: l => if depth - 1 <? 0 then false else stays_inside (depth - 1) l
  | Normal _ :: l => stays_inside (depth + 1) l
  | RootDir :: _ => false
  | CurDir :: l => stays_inside depth l
  end.
Definition acceptance_file_path_allowed_in_workspace (workspace : Path) (path : str) : bool :=
  if str_eqb path [] then false
  else if negb (is_absolute path) then stays_inside 0 (components path)
  else match canonicalize workspace with
       | None => false
       | Some workspace_canon =>
           let candidate := components path in
           if negb (is_file candidate) then false
           else match canonicalize candidate with
                | None => false
                | Some file_canon => path_starts_with file_canon workspace_canon
                end
       end.
Definition plain_path_char (c : char) : bool :=
  is_ascii_alphanumeric c || (c =? c_slash) || (c =? c_dot) || (c =? c_underscore) || (c =? c_dash).
Definition shell_quote_acceptance_path (path : str) : str :=
  if str_eqb path [] then $"''"
  else if forallb plain_path_char path then path
  else [c_squote] ++ replace_str [c_squote] $"'\''" path ++ [c_squote].

Definition acceptance_criterion (loop_id : str) (workspace : Path) (index : nat) (line : str)
    : option VerificationCommand :=
  let trimmed := trim_start line in
  rest ← (match strip_prefix $"- [" trimmed with
          | Some rest => Some rest
          | None => strip_prefix $"* [" trimmed
          end);
  '(_, body) ← split_once c_rbracket rest;
  let body := trim (trim_start_char c_colon (trim body)) in
  let lower := to_ascii_lowercase body in
  let line_id := $"acceptance:" ++ loop_id ++ $":" ++ show (Z.of_nat index + 1) in
  if starts_with lower $"kind:command" then
    command ← extract_acceptance_assert_command body;
    Some (with_expect_exit (default 0 (extract_acceptance_expect_exit body))
            (required_command line_id $"acceptance_command"
               ($"ACCEPTANCE kind:command (" ++ loop_id ++ $")") command))
  else if starts_with lower $"kind:file_exists" || starts_with lower $"kind:file-exists" then
    path ← extract_acceptance_assert_command body;
    if acceptance_file_path_allowed_in_workspace workspace path then
      Some (required_command line_id $"acceptance_file_exists"
              ($"ACCEPTANCE kind:file_exists (" ++ loop_id ++ $")")
              ($"test -f " ++ shell_quote_acceptance_path path))
    else None
  else None.
Definition parse_acceptance_shell_commands (body loop_id : str) (workspace : Path)
    : list VerificationCommand :=
  omap id (imap (acceptance_criterion loop_id workspace) (lines body)).
Definition acceptance_shell_commands_for_workspace (workspace : Path) : list VerificationCommand :=
  let loops := push (push workspace $".a3s") $"loops" in
  match read_dir loops with
  | None => []
  | Some entries =>
      concat (map (fun name =>
        let path := push loops name in
        if negb (is_dir path) then []
        else if negb (loop_owns_active_acceptance_contract path) then []
        else match read_to_string (push path $"ACCEPTANCE.md") with
             | None => []
             | Some body => parse_acceptance_shell_commands body name workspace
             end) entries)
  end.
End Workspace.

(** ** Shell commands as evidence *)
Definition normalize_shell_command (command : str) : str := join $" " (split_whitespace command).
Definition shell_command_covers_preset (command preset : str) : bool :=
  let command := normalize_shell_command command in
  let preset := normalize_shell_command preset in
  if str_eqb command [] || str_eqb preset [] then false
  else if str_eqb command preset || starts_with command (preset ++ $" ") then true
  else
    let and_prefix := $"&& " ++ preset in
    let semi_prefix := $"; " ++ preset in
    contains_str command (and_prefix ++ $" ") || ends_with command and_prefix
    || contains_str command (semi_prefix ++ $" ") || ends_with command semi_prefix.

Record ExistenceCheck : Type := mkExistence { ex_segment : str; ex_path : str }.

(** Splitting on unquoted [&&], [||], [;] and line feeds; [cur] is the current
    segment, reversed. *)
Definition emit (cur : str) (rest : list str) : list str :=
  let segment := trim (rev cur) in if str_eqb segment [] then rest else segment :: rest.
Fixpoint segments_from (quote : option char) (cur s : str) : list str :=
  match s with
  | [] => emit cur []
  | ch :: s' =>
      match quote with
      | Some open => segments_from (if ch =? open then None else quote) (ch :: cur) s'
      | None =>
          if (ch =? c_squote) || (ch =? c_dquote) then segments_from (Some ch) (ch :: cur) s'
          else
            let single := if (ch =? c_semi) || (ch =? c_nl) then emit cur (segments_from None [] s')
                          else segments_from None (ch :: cur) s' in
            match s' with
            | ch2 :: s'' =>
                if ((ch =? c_amp) && (ch2 =? c_amp)) || ((ch =? c_pipe) && (ch2 =? c_pipe))
                then emit cur (segments_from None [] s'')
                else single
            | [] => single
            end
      end
  end.
Definition shell_segments (command : str) : list str := segments_from None [] command.

Definition unquote_shell_token (token : str) : option str :=
  let token := trim token in
  if str_eqb token [] then None
  else match strip_prefix [c_squote] token with
  | Some inner =>
      '(text, _) ← find_str [c_squote] inner;
      Some (replace_str $"'\''" [c_squote] text)
  | None =>
      match strip_prefix [c_dquote] token with
      | Some inner => '(text, _) ← find_str [c_dquote] inner; Some text
      | None => head (split_whitespace token)
      end
  end.

Definition existence_flag (s : str) : option str :=
  match strip_prefix $"-f" s with Some rest => Some rest | None => strip_prefix $"-e" s end.
Definition path_from_single_existence_check (command : str) : option str :=
  let trimmed := trim command in
  let trimmed := match strip_prefix $"command " trimmed with
                 | Some rest => trim_start rest
                 | None => trimmed
                 end in
  match strip_prefix $"[[" trimmed with
  | Some rest =>
      rest ← existence_flag (trim_start rest);
      rest ← strip_suffix $"]]" (trim_end (trim_start rest));
      unquote_shell_token (trim rest)
  | None =>
      rest ← (match strip_prefix $"test" trimmed with
              | Some rest => option_map trim_start (existence_flag (trim_start rest))
              | None =>
                  rest ← strip_prefix $"[" trimmed;
                  rest ← existence_flag (trim_start rest);
                  Some (trim_start (trim_end (trim_end_char c_rbracket (trim_end (trim_start rest)))))
              end);
      unquote_shell_token rest
  end.
Definition existence_checks (command : str) : list ExistenceCheck :=
  omap (fun segment => option_map (mkExistence segment) (path_from_single_existence_check segment))
       (shell_segments command).
Definition path_from_existence_check_command (command : str) : option str :=
  option_map ex_path (head (existence_checks command)).

(** ** Binding evidence to mutations *)
Definition mutation_path_matches (mutated verified : str) : bool :=
  let mutated := trim_start_matches $"./" mutated in
  let verified := trim_start_matches $"./" verified in
  if str_eqb mutated [] || str_eqb verified [] then false
  else if str_eqb mutated verified then true
  else ends_with mutated ($"/" ++ verified) || ends_with verified ($"/" ++ mutated).
Definition report_is_required_pass (r : VerificationReport) : bool :=
  is_status (vr_status r) Verdicts.Passed && existsb vc_required (vr_checks r)
  && forallb (fun c => is_status (vc_status c) Verdicts.Passed) (List.filter vc_required (vr_checks r)).

Definition content_mismatch (content_match : option (str * str)) : bool :=
  match content_match with
  | Some (expected, on_disk) => str_eqb (trim expected) [] || negb (str_eqb expected on_disk)
  | None => false
  end.
Definition bind_host_shell_reports_to_mutations_with_content (reports : list VerificationReport)
    (shell_command : option str) (mutation_paths : list str) (effect_digest : str)
    (content_match : option (str * str)) : list VerificationReport :=
  if bool_decide (mutation_paths = []) || str_eqb (trim effect_digest) [] then reports
  else match path_from_existence_check_command (default [] shell_command) with
  | None => reports
  | Some path =>
      if negb (existsb (fun mutated => mutation_path_matches mutated path) mutation_paths) then reports
      else if content_mismatch content_match then reports
      else map (fun r =>
             match vr_effect_digest r with
             | Some _ => r
             | None => if report_is_required_pass r then with_effect_digest effect_digest r else r
             end) reports
  end.
Definition bind_host_shell_reports_to_mutations (reports : list VerificationReport)
    (shell_command : option str) (mutation_paths : list str) (effect_digest : str) : list VerificationReport :=
  bind_host_shell_reports_to_mutations_with_content reports shell_command mutation_paths effect_digest None.

Definition host_report_for_verified_mutation_path_with_content (command : str) (exit_code : Z)
    (mutation_paths : list str) (effect_digest : str) (content_match : option (str * str))
    : option VerificationReport :=
  if negb (exit_code =? 0) || str_eqb (trim effect_digest) [] then None
  else
    path ← path_from_existence_check_command command;
    if negb (existsb (fun mutated => mutation_path_matches mutated path) mutation_paths) then None
    else if content_mismatch content_match then None
    else
      let description := match content_match with
        | Some _ => $"Host verified mutated path exists with matching content digest: " ++ path
        | None => $"Host verified mutated path still exists: " ++ path
        end in
      Some (with_effect_digest effect_digest
              (new_report ($"shell:mutation_path_verify:" ++ path)
                 [check_with_status Verdicts.Passed
                    (required_check ($"mutation_path_verify:" ++ path) $"mutation_path_verify" description)])).
Definition host_report_for_verified_mutation_path (command : str) (exit_code : Z)
    (mutation_paths : list str) (effect_digest : str) : option VerificationReport :=
  host_report_for_verified_mutation_path_with_content command exit_code mutation_paths effect_digest None.

(** ** Host contracts *)
Record VerificationContractV1 : Type := mkContract { ct_id : str; ct_command : str; ct_covers : list str }.
Definition all_normal (path : str) : bool := forallb is_normal (components path).
Definition covers_pattern_valid (pattern : str) : bool :=
  let path := default pattern (strip_suffix $"/**" pattern) in
  negb (str_eqb path [] || negb (all_normal path) || contains_char path c_nul).
Definition contract_valid (c : VerificationContractV1) : bool :=
  negb (str_eqb (trim (ct_id c)) []) && negb (str_eqb (trim (ct_command c)) [])
  && negb (bool_decide (ct_covers c = []))
  && negb (contains_char (ct_command c) c_nul || contains_char (ct_id c) c_nul)
  && forallb covers_pattern_valid (ct_covers c).
Definition new_contract (id command : str) (covers : list str) : option VerificationContractV1 :=
  let contract := mkContract id command (map (fun p => trim_start_matches $"./" (trim p)) covers) in
  if contract_valid contract then Some contract else None.
Definition contract_covers_path (pattern path : str) : bool :=
  let pattern := trim_start_matches $"./" (trim pattern) in
  let path := trim_start_matches $"./" (trim path) in
  if str_eqb pattern [] || str_eqb path [] then false
  else if negb (all_normal path) then false
  else if str_eqb path pattern then true
  else match strip_suffix $"/**" pattern with
       | Some prefix => starts_with path (trim_end_char c_slash prefix ++ $"/")
       | None => false
       end.
Definition host_report_for_verification_contract (c : VerificationContractV1) (command : str)
    (exit_code : Z) (mutation_paths : list str) (effect_digest : str) : option VerificationReport :=
  if negb (contract_valid c) || negb (exit_code =? 0) || str_eqb (trim effect_digest) []
     || bool_decide (mutation_paths = []) then None
  else if negb (str_eqb (trim command) (trim (ct_command c))) then None
  else
    let uncovered := List.filter (fun path =>
      negb (existsb (fun pattern => contract_covers_path pattern path) (ct_covers c))) mutation_paths in
    match uncovered with
    | _ :: _ => None
    | [] =>
        Some (with_effect_digest effect_digest
          (new_report ($"shell:contract:" ++ ct_id c)
             [check_with_status Verdicts.Passed
                (required_check ($"contract_verify:" ++ ct_id c) $"contract_verify"
                   ($"Host contract `" ++ ct_command c
                    ++ $"` (the declared suite) ran with exit 0 and covers every mutated path"))]))
    end.

(** ** The gate in front of [GoalAchieved] *)
Definition goal_achieved_after_evidence_gate (llm_achieved : bool) (reports : list VerificationReport) : bool :=
  llm_achieved && supports_goal_achievement (from_reports reports).
Definition passing_report (r : VerificationReport) : bool :=
  is_status (vr_status r) Verdicts.Passed
  && existsb (fun c => vc_required c && is_status (vc_status c) Verdicts.Passed) (vr_checks r).
Definition is_acceptance_verification_subject (subject : str) : bool := starts_with subject $"shell:acceptance:".
Definition reports_include_passing_acceptance (reports : list VerificationReport) : bool :=
  existsb (fun r => is_acceptance_verification_subject (vr_subject r) && passing_report r) reports.
Definition acceptance_loop_id_from_command_id (command_id : str) : option str :=
  rest ← strip_prefix $"acceptance:" command_id;
  '(loop_id, _) ← rsplit_once c_colon rest;
  if str_eqb loop_id [] then None else Some loop_id.
(** The subjects of one loop, as the code groups them by loop id. *)
Definition loop_subjects (loop_id : str) (commands : list VerificationCommand) : list str :=
  map (fun c => $"shell:" ++ vm_id c)
    (List.filter (fun c => bool_decide (acceptance_loop_id_from_command_id (vm_id c) = Some loop_id)) commands).
Definition reports_include_passing_active_acceptance (reports : list VerificationReport)
    (commands : list VerificationCommand) : bool :=
  let loops := omap (fun c => acceptance_loop_id_from_command_id (vm_id c)) commands in
  match loops with
  | [] => false
  | _ => forallb (fun loop_id =>
           existsb (fun r => existsb (str_eqb (vr_subject r)) (loop_subjects loop_id commands)
                             && passing_report r) reports) loops
  end.

Section Gate.
Context `{FileSystem} (json_parse : str -> option json).
Definition shell_verification_report_for_command (workspace : Path) (command : str) (exit_code : Z)
    (metadata : option json) (execution_error : option str) : option VerificationReport :=
  let declared := concat (map vp_commands (verification_presets_for_workspace json_parse workspace))
                  ++ acceptance_shell_commands_for_workspace workspace in
  matched ← List.find (fun c => shell_command_covers_preset command (vm_command c)) declared;
  Some (new_report ($"shell:" ++ vm_id matched)
          [check_from_execution matched exit_code metadata execution_error]).
Definition should_emit_goal_achieved_for_workspace (llm_achieved : bool)
    (reports : list VerificationReport) (workspace : option Path) : bool :=
  if negb (goal_achieved_after_evidence_gate llm_achieved reports) then false
  else match workspace with
  | None => true
  | Some workspace =>
      match acceptance_shell_commands_for_workspace workspace with
      | [] => true
      | acceptance => reports_include_passing_active_acceptance reports acceptance
      end
  end.
End Gate.

(** ** The read-only verifier ([read_only_verifier.rs]) *)
Inductive ReportAuthor : Type := AuthorVerifier | AuthorEditor | AuthorHost.
Definition MUTATING_TOOLS : list string := ["write"; "edit"; "patch"; "download"].
Definition NESTED_WRITER_TOOLS : list string := ["skill"; "task"; "batch"].
Definition should_invoke (enabled mutated : bool) : bool := enabled && mutated.
Definition is_dynamically_registered (tool : str) : bool :=
  starts_with tool $"mcp__" || starts_with tool $"plugin__".
Definition presentable (tool : str) : bool :=
  let tool := to_ascii_lowercase tool in
  if is_dynamically_registered tool then false
  else negb (one_of tool MUTATING_TOOLS) && negb (one_of tool NESTED_WRITER_TOOLS).
Definition git_command_mutates (args : json) : bool :=
  let command := default [] (jget_str $"command" args) in
  if str_eqb command $"checkout" then true
  else if str_eqb command $"branch" then match jget_str $"name" args with Some _ => true | None => false end
  else if str_eqb command $"stash" then
    match jget_str $"message" args with Some _ => true | None => false end
    || default false (jget $"include_untracked" args ≫= jas_bool)
  else if str_eqb command $"worktree" then
    match jget_str $"subcommand" args with Some s => one_of s ["create"; "remove"] | None => false end
  else false.
Definition looks_mutating (args : json) : Res bool :=
  let command := default [] (jget_str $"command" args) in
  match jget $"changed_paths" args with
  | Some _ => Ok true
  | None => analysis ← analyze command; Ok (writes_files analysis)
  end.
Definition tool_allowed (tool : str) (args : json) : Res bool :=
  let tool := to_ascii_lowercase tool in
  if one_of tool MUTATING_TOOLS || one_of tool NESTED_WRITER_TOOLS then Ok false
  else if is_dynamically_registered tool then Ok false
  else if str_eqb tool $"bash" then mutating ← looks_mutating args; Ok (negb mutating)
  else if str_eqb tool $"git" then Ok (negb (git_command_mutates args))
  else Ok true.
Definition nested_call_allowed (tool : str) (args : json) (declared_read_only : bool) : Res bool :=
  allowed ← tool_allowed tool args;
  if negb allowed then Ok false
  else Ok (one_of (to_ascii_lowercase tool) ["bash"; "git"; "program"] || declared_read_only).
Definition accept_report (author : ReportAuthor) (r : VerificationReport) : option VerificationReport :=
  match author with AuthorEditor => None | AuthorVerifier | AuthorHost => Some r end.
Definition failed_report (digest : str) : VerificationReport :=
  with_effect_digest digest
    (new_report $"verifier"
       [check_with_status Verdicts.Failed (required_check $"review" $"verifier" $"rejected")]).
