(* ===== verification/VerificationFacts.v ===== *)
(** Correctness of the verification evidence: what a summary that authorizes
    [GoalAchieved] guarantees, what a synthesized host report proves, and how
    shell text is read back. *)
From S2P Require Import Prelude Text Paths Shell Verification.

(** ** Statuses *)
Lemma is_status_true a b : is_status a b = true <-> a = b.
Proof. apply bool_decide_eq_true. Qed.
Lemma is_status_false a b : is_status a b = false <-> a <> b.
Proof. apply bool_decide_eq_false. Qed.
Create Rewrite HintDb evidence.
#[export] Hint Rewrite is_status_true is_status_false @existsb_exists @forallb_forall
  andb_true_iff orb_true_iff orb_false_iff negb_true_iff negb_false_iff str_eqb_spec str_eqb_ne : evidence.

Lemma existsb_none {A} (f : A -> bool) l : existsb f l = false <-> forall x, In x l -> f x = false.
Proof.
  split.
  - intros H x Hx. apply not_true_iff_false. intros Hf. apply not_true_iff_false in H. apply H.
    apply existsb_exists. eauto.
  - intros H. apply not_true_iff_false. intros (x & Hx & Hf)%existsb_exists. by rewrite H in Hf.
Qed.

(** ** Counting *)
Definition count {A} (f : A -> bool) (l : list A) : nat := length (List.filter f l).
Lemma count_zero {A} (f : A -> bool) l : count f l = 0%nat <-> forall x, In x l -> f x = false.
Proof.
  unfold count. induction l as [|x l IH]; cbn; [by split; [|intros]|].
  destruct (f x) eqn:E; cbn.
  - split; [done|]. intros H. rewrite (H x) in E by by left. done.
  - rewrite IH. split; [intros H y [->|Hy]; auto|auto].
Qed.
Lemma count_pos {A} (f : A -> bool) l : (0 < count f l)%nat <-> exists x, In x l /\ f x = true.
Proof.
  rewrite <-existsb_exists. destruct (existsb f l) eqn:E.
  - split; [done|]. intros _. apply existsb_exists in E as (x & Hx & Hf).
    assert (count f l <> 0%nat); [|lia]. rewrite count_zero. intros H. by rewrite H in Hf.
  - rewrite existsb_none, <-count_zero in E. rewrite E. split; [lia|done].
Qed.
Lemma count_app {A} (f : A -> bool) l k : count f (l ++ k) = (count f l + count f k)%nat.
Proof. unfold count. by rewrite List.filter_app, length_app. Qed.

Definition has_risk (c : VerificationCheck) : bool :=
  match vc_residual_risk c with Some _ => true | None => false end.
Definition is_failed (c : VerificationCheck) : bool := is_status (vc_status c) Verdicts.Failed.
Definition all_checks (reports : list VerificationReport) : list VerificationCheck :=
  concat (map vr_checks reports).

Lemma tally_checks subject checks t :
  let t' := fold_left (tally_check subject) checks t in
  ty_required t' = (ty_required t + count vc_required checks)%nat
  /\ ty_pending t' = (ty_pending t + count pending_check checks)%nat
  /\ ty_failed t' = (ty_failed t + count is_failed checks)%nat
  /\ ty_residual t' = (ty_residual t + count has_risk checks)%nat.
Proof.
  revert t. induction checks as [|c checks IH]; intros t; cbn [fold_left]; [cbn; lia|].
  destruct (IH (tally_check subject t c)) as (-> & -> & -> & ->).
  unfold tally_check, bump, count. cbn [ty_required ty_pending ty_failed ty_residual List.filter].
  change (is_status (vc_status c) Verdicts.Failed) with (is_failed c). fold (has_risk c).
  destruct (vc_required c), (pending_check c), (is_failed c), (has_risk c); cbn [length]; lia.
Qed.
Lemma tally_counts reports t :
  let t' := fold_left tally_report reports t in
  ty_required t' = (ty_required t + count vc_required (all_checks reports))%nat
  /\ ty_pending t' = (ty_pending t + count pending_check (all_checks reports))%nat
  /\ ty_failed t' = (ty_failed t + count is_failed (all_checks reports))%nat
  /\ ty_residual t' = (ty_residual t + count has_risk (all_checks reports)
                       + length (concat (map vr_residual_risks reports)))%nat.
Proof.
  revert t. induction reports as [|r reports IH]; intros t; cbn [fold_left]; [cbn; lia|].
  destruct (IH (tally_report t r)) as (-> & -> & -> & ->). unfold tally_report.
  destruct (tally_checks (vr_subject r) (vr_checks r)
    (mkTally (ty_required t) (ty_pending t) (ty_failed t) (ty_residual t + length (vr_residual_risks r))
       (note (is_status (vr_status r) Verdicts.NeedsReview) (vr_subject r) (ty_pending_subjects t))
       (note (is_status (vr_status r) Verdicts.Failed) (vr_subject r) (ty_failed_subjects t))))
    as (-> & -> & -> & ->).
  unfold all_checks. cbn [map concat ty_required ty_pending ty_failed ty_residual].
  rewrite !count_app, length_app. lia.
Qed.

(** ** The summary *)

(** A check that speaks against completion. *)
Definition clean_check (c : VerificationCheck) : Prop :=
  vc_status c <> Verdicts.Failed /\ vc_residual_risk c = None
  /\ (vc_required c = true -> vc_status c = Verdicts.Passed).
Definition clean_report (r : VerificationReport) : Prop :=
  vr_status r <> Verdicts.Failed /\ vr_status r <> Verdicts.NeedsReview /\ vr_residual_risks r = []
  /\ forall c, In c (vr_checks r) -> clean_check c.

Lemma clean_check_iff c :
  clean_check c <-> is_failed c = false /\ has_risk c = false /\ pending_check c = false.
Proof.
  unfold clean_check, is_failed, has_risk, pending_check.
  destruct (vc_residual_risk c), (vc_required c), (vc_status c); vm_compute; naive_solver.
Qed.
Lemma in_all_checks c reports : In c (all_checks reports) <-> exists r, In r reports /\ In c (vr_checks r).
Proof. unfold all_checks. rewrite in_concat. setoid_rewrite in_map_iff. naive_solver. Qed.
Lemma concat_nil {A B} (f : A -> list B) l : length (concat (map f l)) = 0%nat <-> forall x, In x l -> f x = [].
Proof.
  induction l as [|x l IH]; cbn; [by split; [|intros]|]. rewrite length_app. split.
  - intros H y [->|Hy]; [by apply nil_length_inv; lia|]. apply IH; [lia|done].
  - intros H. rewrite (H x) by by left. cbn. apply IH. auto.
Qed.

Lemma supports_iff reports :
  supports_goal_achievement (from_reports reports) = true <->
  (exists c, In c (all_checks reports) /\ vc_required c = true)
  /\ (forall r, In r reports -> clean_report r).
Proof.
  unfold supports_goal_achievement, from_reports. cbn [vs_status vs_report_count vs_required_check_count
    vs_pending_required_check_count vs_failed_check_count vs_residual_risk_count].
  unfold tally. destruct (tally_counts reports (mkTally 0 0 0 0 [] [])) as (-> & -> & -> & ->).
  cbn [ty_required ty_pending ty_failed ty_residual Nat.add].
  rewrite <-(count_pos vc_required).
  assert (Hclean : (forall r, In r reports -> clean_report r) <->
    count pending_check (all_checks reports) = 0%nat /\ count is_failed (all_checks reports) = 0%nat
    /\ (count has_risk (all_checks reports) + length (concat (map vr_residual_risks reports)) = 0)%nat
    /\ any_status Verdicts.Failed reports = false /\ any_status Verdicts.NeedsReview reports = false).
  { rewrite Nat.eq_add_0. unfold any_status. rewrite !count_zero, !existsb_none, concat_nil.
    setoid_rewrite in_all_checks. unfold clean_report.
    setoid_rewrite <-is_status_false.
    setoid_rewrite clean_check_iff. split.
    - intros Hc. repeat split; intros x;
        [intros (r & Hr & Hx); destruct (Hc r Hr) as (_ & _ & _ & Hk); by destruct (Hk x Hx) as (? & ? & ?)..
        |intros Hr; by apply (Hc x Hr)|intros Hr; by apply (Hc x Hr)|intros Hr; by apply (Hc x Hr)].
    - intros (H1 & H2 & [H3 H4] & H5 & H6) r Hr. repeat split; eauto. }
  rewrite Hclean. clear Hclean. split.
  - rewrite !andb_true_iff, is_status_true, !Nat.ltb_lt, !Nat.eqb_eq.
    intros (((((Hs & Hl) & Hr) & Hp) & Hf) & Hx). rewrite Hp, Hf, Hx in *. cbn in Hs.
    destruct (any_status Verdicts.Failed reports); [done|].
    by destruct (any_status Verdicts.NeedsReview reports).
  - intros (Hr & Hp & Hf & Hx & -> & ->). rewrite Hp, Hf, Hx.
    assert (Hl : (0 < length reports)%nat) by (destruct reports; cbn in *; lia).
    apply Nat.ltb_lt in Hr, Hl. rewrite Hr, Hl. by destruct reports.
Qed.

(** Structured evidence authorizes [GoalAchieved] exactly when some check was
    required and nothing speaks against it: no report is failed or pending, no
    report or check carries a residual risk, no check failed, and every required
    check passed. In particular no reports, skipped checks or optional-only
    passes never authorize completion. *)
Theorem achievement_evidence (llm_achieved : bool) (reports : list VerificationReport) :
  goal_achieved_after_evidence_gate llm_achieved reports = true <->
  llm_achieved = true
  /\ (exists r c, In r reports /\ In c (vr_checks r) /\ vc_required c = true /\ vc_status c = Verdicts.Passed)
  /\ forall r, In r reports -> clean_report r.
Proof.
  unfold goal_achieved_after_evidence_gate. rewrite andb_true_iff, supports_iff. setoid_rewrite in_all_checks.
  unfold clean_report, clean_check. naive_solver.
Qed.

(** ** Shell text *)

(** Characters that neither quote nor separate. *)
Definition inert (c : char) : bool :=
  negb ((c =? c_squote) || (c =? c_dquote) || (c =? c_semi) || (c =? c_nl) || (c =? c_amp) || (c =? c_pipe)).
Lemma segments_inert cur a s :
  Forall (fun c => inert c = true) a -> segments_from None cur (a ++ s) = segments_from None (rev a ++ cur) s.
Proof.
  intros Ha. revert cur. induction Ha as [|c a Hc Ha IH]; intros cur; [done|].
  cbn [app rev]. rewrite <-app_assoc. cbn [app]. rewrite <-IH. clear IH. unfold inert in Hc.
  rewrite negb_true_iff, !orb_false_iff in Hc. destruct Hc as (((((H1 & H2) & H3) & H4) & H5) & H6).
  cbn [segments_from]. rewrite H1, H2, H3, H4, H5, H6. cbn. by destruct (a ++ s).
Qed.
Lemma segments_quoted q cur a s :
  ~ In q a -> segments_from (Some q) cur (a ++ q :: s) = segments_from None (q :: rev a ++ cur) s.
Proof.
  revert cur. induction a as [|c a IH]; intros cur Hq; cbn; [by rewrite Z.eqb_refl|].
  destruct (Z.eqb_spec c q) as [->|Hc]; [by destruct Hq; left|].
  rewrite IH; [by rewrite <-app_assoc|]. intros H. apply Hq. by right.
Qed.

(** What may follow an existence check: nothing, or a further command. *)
Inductive continuation : str -> Prop :=
| ends_here : continuation []
| continues rest : continuation ($" && " ++ rest).
Lemma segments_end cur s :
  continuation s -> trim (rev cur) <> [] -> trim (rev (c_space :: cur)) = trim (rev cur) ->
  head (segments_from None cur s) = Some (trim (rev cur)).
Proof.
  intros [|rest] Hne Hsp; apply str_eqb_ne in Hne.
  - cbn [segments_from]. unfold emit. by rewrite Hne.
  - change (segments_from None cur ($" && " ++ rest))
      with (emit (c_space :: cur) (segments_from None [] (c_space :: rest))).
    unfold emit. by rewrite Hsp, Hne.
Qed.
Lemma head_check command segment path :
  head (shell_segments command) = Some segment -> path_from_single_existence_check segment = Some path ->
  path_from_existence_check_command command = Some path.
Proof.
  unfold path_from_existence_check_command, existence_checks. intros Hs Hp.
  destruct (shell_segments command) as [|x l]; [done|]. cbn in Hs. injection Hs as ->. cbn. by rewrite Hp.
Qed.

Definition test_f : str := $"test -f ".
(** Reading [test -f] followed by a token without surrounding white space. *)
Lemma test_f_token token path :
  head token <> None -> (forall c, head token = Some c -> is_whitespace c = false) ->
  trim (test_f ++ token) = test_f ++ token -> unquote_shell_token token = Some path ->
  path_from_single_existence_check (test_f ++ token) = Some path.
Proof.
  intros Hne Hc Ht Hu. destruct token as [|c token]; [done|].
  unfold path_from_single_existence_check. rewrite Ht.
  change (strip_prefix $"command " (test_f ++ c :: token)) with (@None str). cbv iota.
  change (strip_prefix $"[[" (test_f ++ c :: token)) with (@None str). cbv iota.
  change (strip_prefix $"test" (test_f ++ c :: token)) with (Some ($" -f " ++ c :: token)). cbv iota.
  change (trim_start ($" -f " ++ c :: token)) with ($"-f " ++ c :: token).
  change (existence_flag ($"-f " ++ c :: token)) with (Some (c_space :: c :: token)).
  cbn [option_map]. change (trim_start (c_space :: c :: token)) with (trim_start (c :: token)).
  unfold trim_start. rewrite drop_while_stop by (by apply Hc). exact Hu.
Qed.

Lemma trim_command (s : str) d :
  is_whitespace d = false ->
  trim (test_f ++ s ++ [d]) = test_f ++ s ++ [d]
  /\ trim ((test_f ++ s ++ [d]) ++ [c_space]) = test_f ++ s ++ [d].
Proof.
  intros Hd. change (test_f ++ s ++ [d]) with (116 :: ($"est -f " ++ s ++ [d])). rewrite app_assoc. split.
  - pose proof (trim_framed [] 116 ($"est -f " ++ s) d [] (Forall_nil_2 _) (Forall_nil_2 _) eq_refl Hd) as H.
    rewrite app_nil_r in H. exact H.
  - apply (trim_framed [] 116 ($"est -f " ++ s) d [c_space]); [constructor|by repeat constructor|done..].
Qed.
Lemma plain_path_char_inert c : plain_path_char c = true -> inert c = true /\ is_whitespace c = false.
Proof.
  unfold plain_path_char, inert, is_ascii_alphanumeric, is_ascii_digit, is_ascii_lowercase, is_ascii_uppercase,
    is_whitespace, in_range, c_slash, c_dot, c_underscore, c_dash, c_squote, c_dquote, c_semi, c_nl, c_amp, c_pipe.
  lia.
Qed.
Lemma test_f_inert : Forall (fun c => inert c = true) test_f.
Proof. by repeat constructor. Qed.

Lemma first_segment cur tail s d :
  continuation tail -> rev cur = test_f ++ s ++ [d] -> is_whitespace d = false ->
  head (segments_from None cur tail) = Some (test_f ++ s ++ [d]).
Proof.
  intros Ht Hc Hd. destruct (trim_command s d Hd) as [H1 H2]. rewrite segments_end; [by rewrite Hc, H1|done|..].
  - by rewrite Hc, H1.
  - cbn [rev]. by rewrite Hc, H1, H2.
Qed.
Lemma unquote_plain path :
  Forall (fun c => plain_path_char c = true) path -> path <> [] -> unquote_shell_token path = Some path.
Proof.
  intros Hp Hne. assert (Hi : inked path) by (eapply List.Forall_impl; [|exact Hp]; intros c Hc; by apply plain_path_char_inert).
  unfold unquote_shell_token. pose proof (trim_inked [] path [] (Forall_nil_2 _) (Forall_nil_2 _) Hi Hne) as Ht.
  rewrite app_nil_r in Ht. cbn [app] in Ht. rewrite Ht. rewrite (proj2 (str_eqb_ne _ _) Hne).
  destruct path as [|c path]; [done|]. inversion_clear Hp as [|?? Hc _].
  assert (strip_prefix [c_squote] (c :: path) = None /\ strip_prefix [c_dquote] (c :: path) = None) as [-> ->].
  { apply plain_path_char_inert in Hc as [Hc _]. unfold inert in Hc. split; apply strip_prefix_head; intros E; rewrite <-E in Hc; discriminate Hc. }
  by rewrite split_whitespace_word.
Qed.
Lemma unquote_single path : ~ In c_squote path -> unquote_shell_token (c_squote :: path ++ [c_squote]) = Some path.
Proof.
  intros Hq. unfold unquote_shell_token.
  pose proof (trim_framed [] c_squote path c_squote [] (Forall_nil_2 _) (Forall_nil_2 _) eq_refl eq_refl) as Ht.
  rewrite app_nil_r in Ht. cbn [app] in Ht. rewrite Ht. cbn [strip_prefix]. rewrite Z.eqb_refl.
  change (str_eqb (c_squote :: path ++ [c_squote]) []) with false. cbv iota.
  rewrite find_str_char by done. unfold mbind, option_bind. f_equal. by apply replace_str_absent.
Qed.

Lemma quoted_path_read_back path tail :
  path <> [] -> ~ In c_squote path -> continuation tail ->
  path_from_existence_check_command (test_f ++ shell_quote_acceptance_path path ++ tail) = Some path.
Proof.
  intros Hne Hq Ht. unfold shell_quote_acceptance_path. rewrite (proj2 (str_eqb_ne _ _) Hne).
  destruct (forallb plain_path_char path) eqn:Hp.
  - assert (Hf : Forall (fun c => plain_path_char c = true) path)
      by (apply List.Forall_forall; by rewrite forallb_forall in Hp).
    assert (Hi : Forall (fun c => inert c = true) path)
      by (eapply List.Forall_impl; [|exact Hf]; intros c Hc; by apply plain_path_char_inert).
    destruct path as [|d s _] using rev_ind; [done|].
    assert (Hd : is_whitespace d = false)
      by (apply Forall_app in Hf as [_ Hd]; inversion_clear Hd; by apply plain_path_char_inert).
    apply head_check with (test_f ++ s ++ [d]).
    + unfold shell_segments. rewrite app_assoc, segments_inert by (apply Forall_app; auto using test_f_inert).
      rewrite app_nil_r. apply first_segment; [done|by rewrite rev_involutive|done].
    + apply test_f_token; [by destruct s|..].
      * intros c Hc. destruct (s ++ [d]) as [|x r] eqn:E; [done|]. cbn in Hc. injection Hc as ->.
        inversion_clear Hf. by apply plain_path_char_inert.
      * exact (proj1 (trim_command s d Hd)).
      * by apply unquote_plain.
  - rewrite replace_str_absent by done. apply head_check with (test_f ++ (c_squote :: path) ++ [c_squote]).
    + unfold shell_segments. rewrite segments_inert by apply test_f_inert. cbn [app segments_from].
      change (c_squote =? c_squote) with true. cbn [orb]. rewrite <-app_assoc. cbn [app]. rewrite segments_quoted by done.
      apply (first_segment _ _ (c_squote :: path) c_squote); [done| |done].
      cbn [rev]. rewrite rev_app_distr. cbn [rev]. rewrite app_nil_r, !rev_involutive. by rewrite <-!app_assoc.
    + apply test_f_token; [done|by intros c [= <-]|exact (proj1 (trim_command (c_squote :: path) c_squote eq_refl))|by apply unquote_single].
Qed.

(** The path of an acceptance criterion survives the shell: the [test -f]
    command the host synthesizes for it, alone or followed by [&&] and any further
    command, is read back as an existence check of exactly that path, whatever
    white space, separators or double quotes the path contains, as long as it
    contains no single quote. *)
Theorem acceptance_path_roundtrip (path tail : str) :
  path <> [] -> ~ In c_squote path -> continuation tail ->
  path_from_existence_check_command (test_f ++ shell_quote_acceptance_path path ++ tail) = Some path.
Proof. apply quoted_path_read_back. Qed.
Lemma acceptance_path_roundtrip_witness :
  path_from_existence_check_command $"test -f 'a; b && c' && cargo test" = Some $"a; b && c".
Proof.
  apply (acceptance_path_roundtrip $"a; b && c" ($" && " ++ $"cargo test"));
    [done|by vm_compute; intuition discriminate|constructor].
Defined.

(** A path with a single quote is read back as another path: the criterion for
    [a'b] is quoted in the shell's way, the reader stops at the first quote and
    takes [a], so checking [a'b] yields a passing host report for a mutation of
    [a]. *)
Theorem quoted_path_misread :
  path_from_existence_check_command (test_f ++ shell_quote_acceptance_path $"a'b") = Some $"a"
  /\ exists r, host_report_for_verified_mutation_path (test_f ++ shell_quote_acceptance_path $"a'b") 0 [$"a"] $"digest" = Some r
               /\ vr_effect_digest r = Some $"digest" /\ vr_status r = Verdicts.Passed.
Proof. split; [by vm_compute|]. eexists. split; [by vm_compute|]. done. Qed.

(** ** Declared suites *)
Lemma find_skip {A} (f : A -> bool) x l : f x = false -> List.find f (x :: l) = List.find f l.
Proof. cbn. by intros ->. Qed.

(** A masked failure is recorded as a pass: in a workspace with a Cargo.toml,
    [cargo test || true] covers the [cargo test] preset, its exit code is 0
    whatever the tests did, and the report alone authorizes [GoalAchieved]. *)
Theorem masked_failure_counts_as_pass `{FileSystem} (json_parse : str -> option json) (workspace : Path) :
  has_file workspace "Cargo.toml" = true ->
  exists r, shell_verification_report_for_command json_parse workspace $"cargo test || true" 0 None None = Some r
            /\ vr_subject r = $"shell:rust:test" /\ vr_status r = Verdicts.Passed
            /\ goal_achieved_after_evidence_gate true [r] = true.
Proof.
  intros Hc. unfold shell_verification_report_for_command, verification_presets_for_workspace. rewrite Hc.
  cbn [app map concat vp_commands rust_preset]. do 2 (rewrite find_skip by by vm_compute).
  set (test := required_command $"rust:test" $"test" $"Run Rust tests" $"cargo test").
  exists (new_report $"shell:rust:test" [check_from_execution test 0 None None]).
  split; [|repeat split; by vm_compute]. cbn [List.find].
  by assert (shell_command_covers_preset $"cargo test || true" (vm_command test) = true) as -> by by vm_compute.
Qed.
Definition cargo_files : FileSystem := {|
  canonicalize := Some; path_exists := fun _ => true; symlink_metadata := fun _ => NotSymlink;
  is_file := fun p => bool_decide (p = [RootDir; Normal $"w"; Normal $"Cargo.toml"]);
  is_dir := fun _ => false; read_to_string := fun _ => None; read_dir := fun _ => None;
|}.
Lemma masked_failure_counts_as_pass_witness :
  exists r, @shell_verification_report_for_command cargo_files (fun _ => None) [RootDir; Normal $"w"] $"cargo test || true" 0 None None = Some r
            /\ vr_subject r = $"shell:rust:test" /\ vr_status r = Verdicts.Passed
            /\ goal_achieved_after_evidence_gate true [r] = true.
Proof. apply (@masked_failure_counts_as_pass cargo_files (fun _ => None) [RootDir; Normal $"w"]). by vm_compute. Defined.

Definition clean_pattern (s : str) : str := trim_start_matches $"./" (trim s).
(** What a pattern covers: itself, or everything below its directory; never a
    path with [..], [.] or a root. *)
Definition covered_by (pattern path : str) : Prop :=
  forallb is_normal (components (clean_pattern path)) = true
  /\ (clean_pattern path = clean_pattern pattern
      \/ exists dir rest, clean_pattern pattern = dir ++ $"/**"
                          /\ clean_pattern path = trim_end_char c_slash dir ++ $"/" ++ rest).
Lemma contract_covers_path_sound pattern path : contract_covers_path pattern path = true -> covered_by pattern path.
Proof.
  unfold contract_covers_path, covered_by, all_normal. fold (clean_pattern pattern) (clean_pattern path).
  destruct (_ || _); [done|]. destruct (forallb is_normal _); cbn; [|done]. intros H. split; [done|].
  destruct (str_eqb _ _) eqn:E; [left; by apply str_eqb_spec|right].
  destruct (strip_suffix _ _) as [dir|] eqn:Es; [|done]. apply strip_suffix_Some in Es.
  apply starts_with_spec in H as [rest Hr]. exists dir, rest. by rewrite Hr, <-app_assoc.
Qed.

(** A contract's report proves what it says: it is issued only when the
    declared command, unchanged, exited with 0 and every mutated path, without
    exception, is covered; and it is a passed required check bound to the digest. *)
Theorem contract_report_sound (c : VerificationContractV1) (command : str) (exit_code : Z)
    (paths : list str) (digest : str) (r : VerificationReport) :
  host_report_for_verification_contract c command exit_code paths digest = Some r ->
  exit_code = 0 /\ trim command = trim (ct_command c) /\ paths <> []
  /\ (forall path, In path paths -> exists pattern, In pattern (ct_covers c) /\ covered_by pattern path)
  /\ vr_effect_digest r = Some digest /\ clean_report r /\ report_is_required_pass r = true.
Proof.
  unfold host_report_for_verification_contract. intros H.
  destruct (_ || _) eqn:E1; [done|]. rewrite !orb_false_iff, !negb_false_iff, bool_decide_eq_false in E1.
  destruct E1 as (((_ & He) & _) & Hp). destruct (str_eqb (trim command) _) eqn:E2; [|done]. cbn in H.
  destruct (List.filter _ paths) as [|x l] eqn:Ef; [|done]. injection H as <-.
  split; [by apply Z.eqb_eq|]. split; [by apply str_eqb_spec|]. split; [done|]. split; [|split; [done|split; [|done]]].
  - intros path Hin. destruct (existsb (fun pattern => contract_covers_path pattern path) (ct_covers c)) eqn:Ex.
    + apply existsb_exists in Ex as (pattern & ? & ?). eauto using contract_covers_path_sound.
    + exfalso. assert (In path []) as []. rewrite <-Ef. apply filter_In. by rewrite Ex.
  - split; [done|]. split; [done|]. split; [done|]. intros ? [<-|[]]. done.
Qed.
Lemma contract_report_sound_witness :
  exists r, host_report_for_verification_contract (mkContract $"suite" $"npm test" [$"src/**"]) $" npm test" 0
              [$"src/a.ts"; $"./src/b/c.ts"] $"d" = Some r
    /\ exists pattern, In pattern [$"src/**"] /\ covered_by pattern $"src/a.ts".
Proof.
  eexists. split; [by vm_compute|]. refine (proj1 (proj2 (proj2 (proj2 (contract_report_sound
    (mkContract $"suite" $"npm test" [$"src/**"]) $" npm test" 0 [$"src/a.ts"; $"./src/b/c.ts"] $"d" _ _)))) _ _);
  [by vm_compute|by left].
Defined.

(** ** Acceptance of active loops *)

(** When the workspace has machine acceptance criteria on active loops,
    [GoalAchieved] is emitted only with clean evidence and, for every such loop, a
    passed report of one of that loop's own criteria. *)
Theorem acceptance_per_loop `{FileSystem} (reports : list VerificationReport) (workspace : Path)
    (command : VerificationCommand) (loop_id : str) :
  should_emit_goal_achieved_for_workspace true reports (Some workspace) = true ->
  In command (acceptance_shell_commands_for_workspace workspace) ->
  acceptance_loop_id_from_command_id (vm_id command) = Some loop_id ->
  (forall r, In r reports -> clean_report r)
  /\ exists r c, In r reports /\ vr_status r = Verdicts.Passed
       /\ In c (acceptance_shell_commands_for_workspace workspace) /\ vr_subject r = $"shell:" ++ vm_id c
       /\ acceptance_loop_id_from_command_id (vm_id c) = Some loop_id.
Proof.
  unfold should_emit_goal_achieved_for_workspace, goal_achieved_after_evidence_gate. intros He Hc Hl.
  destruct (supports_goal_achievement _) eqn:Hs; [|done]. apply supports_iff in Hs as [_ Hs]. split; [done|].
  cbn in He. destruct (acceptance_shell_commands_for_workspace workspace) as [|c0 l] eqn:Ea; [by destruct Hc|].
  rewrite <-Ea in *. clear Ea. unfold reports_include_passing_active_acceptance in He.
  set (cs := acceptance_shell_commands_for_workspace workspace) in *.
  assert (Hin : loop_id ∈ omap (fun c => acceptance_loop_id_from_command_id (vm_id c)) cs)
    by (apply list_elem_of_omap; exists command; by rewrite list_elem_of_In).
  destruct (omap _ cs) as [|x ids] eqn:Eo; [by apply not_elem_of_nil in Hin|]. rewrite <-Eo in *.
  rewrite forallb_forall in He. specialize (He loop_id). rewrite <-list_elem_of_In in He. specialize (He Hin).
  apply existsb_exists in He as (r & Hr & Hp). rewrite !andb_true_iff in Hp. destruct Hp as [Hsub Hp].
  unfold passing_report in Hp. rewrite andb_true_iff, is_status_true in Hp.
  apply existsb_exists in Hsub as (s & Hs' & Heq). apply str_eqb_spec in Heq. subst s.
  unfold loop_subjects in Hs'. apply in_map_iff in Hs' as (c & Hc' & Hf). apply filter_In in Hf as [Hf Hid].
  apply bool_decide_eq_true in Hid. exists r, c. naive_solver.
Qed.
(** One active loop with one criterion, and its passing report. *)
Definition loop_files : FileSystem := {|
  canonicalize := Some; path_exists := fun _ => true; symlink_metadata := fun _ => NotSymlink;
  is_file := fun _ => false; is_dir := fun _ => true;
  read_to_string := fun p => match rev p with
    | Normal n :: _ => if str_eqb n $"STATE.md" then Some $"Status: Running"
                       else Some $"- [ ] kind:command assert:`cargo test` expect:exit=0"
    | _ => None
    end;
  read_dir := fun _ => Some [$"g"];
|}.
Definition loop_report : VerificationReport :=
  new_report $"shell:acceptance:g:1"
    [check_with_status Verdicts.Passed (required_check $"acceptance:g:1" $"acceptance_command" $"suite")].
Lemma acceptance_per_loop_witness :
  exists r c, In r [loop_report] /\ vr_status r = Verdicts.Passed
    /\ In c (@acceptance_shell_commands_for_workspace loop_files [RootDir]) /\ vr_subject r = $"shell:" ++ vm_id c
    /\ acceptance_loop_id_from_command_id (vm_id c) = Some $"g".
Proof.
  refine (proj2 (@acceptance_per_loop loop_files [loop_report] [RootDir]
    (required_command $"acceptance:g:1" $"acceptance_command" $"ACCEPTANCE kind:command (g)" $"cargo test") $"g" _ _ _));
  [by vm_compute|by vm_compute; left|by vm_compute].
Defined.
