(* ===== verification/Effects.v ===== *)
(** The tool-effect records of the log crate ([a3s_effect]) as this repository
    builds and reads them, and what the code asks of third-party crates. The
    crate is not part of the repository: its records are given by their fields,
    its checks and parsers are parameters. *)
From S2P Require Import Prelude Text.

(** [ToolFileIdentityV1]; the kind is its wire name ([kind.as_str()]). *)
Record ToolFileIdentityV1 : Type := mkFileIdentity {
  fi_kind : str; fi_content_digest : option str; fi_mode : option Z;
}.
#[global] Instance ToolFileIdentityV1_eq_dec : EqDecision ToolFileIdentityV1.
Proof. solve_decision. Defined.
Record ToolPathChangeV1 : Type := mkChange {
  pc_path : str; pc_before : option ToolFileIdentityV1; pc_after : ToolFileIdentityV1;
}.
#[global] Instance ToolPathChangeV1_eq_dec : EqDecision ToolPathChangeV1.
Proof. solve_decision. Defined.

Module Completeness.
Inductive ToolObservationCompleteness : Type := Complete | Incomplete.
End Completeness.
Abbreviation ToolObservationCompleteness := Completeness.ToolObservationCompleteness.
#[global] Instance ToolObservationCompleteness_eq_dec : EqDecision ToolObservationCompleteness.
Proof. solve_decision. Defined.
Record ToolEffectObservationV1 : Type := mkEffects {
  ef_completeness : ToolObservationCompleteness;
  ef_changes : list ToolPathChangeV1;
  ef_unresolved : list str;
  ef_reason : option str;
}.
#[global] Instance ToolEffectObservationV1_eq_dec : EqDecision ToolEffectObservationV1.
Proof. solve_decision. Defined.
Definition ef_incomplete (e : ToolEffectObservationV1) : bool :=
  bool_decide (ef_completeness e = Completeness.Incomplete).

Module Outcomes.
Inductive ToolExecutionOutcome : Type := Succeeded | Failed | Denied | Cancelled | Unknown.
End Outcomes.
Abbreviation ToolExecutionOutcome := Outcomes.ToolExecutionOutcome.
#[global] Instance ToolExecutionOutcome_eq_dec : EqDecision ToolExecutionOutcome.
Proof. solve_decision. Defined.

Record ToolAdmissionIdentityV1 : Type := mkAdmission {
  ad_run_id : str; ad_thread_id : str; ad_capability_binding_digest : str;
}.
#[global] Instance ToolAdmissionIdentityV1_eq_dec : EqDecision ToolAdmissionIdentityV1.
Proof. solve_decision. Defined.
Record ToolInvocationIdentityV1 : Type := mkInvocation {
  ii_turn : Z; ii_cycle : Z; ii_tool_call_id : str; ii_batch_index : Z;
  ii_admission : option ToolAdmissionIdentityV1;
}.
#[global] Instance ToolInvocationIdentityV1_eq_dec : EqDecision ToolInvocationIdentityV1.
Proof. solve_decision. Defined.
(** [tp_other]: the recovery policy and the workspace baseline, compared but never
    read. *)
Record ToolPreparedV1 : Type := mkPreparedTool {
  tp_schema : str; tp_identity : ToolInvocationIdentityV1; tp_tool_name : str;
  tp_original_args_digest : str; tp_effective_args_digest : str; tp_other : json;
}.
#[global] Instance ToolPreparedV1_eq_dec : EqDecision ToolPreparedV1.
Proof. solve_decision. Defined.
Record ToolExecutionResultV1 : Type := mkResult {
  tr_schema : str; tr_identity : ToolInvocationIdentityV1; tr_prepared_digest : str;
  tr_outcome : ToolExecutionOutcome; tr_exit_code : option Z; tr_output : json;
  tr_effects : ToolEffectObservationV1;
}.
#[global] Instance ToolExecutionResultV1_eq_dec : EqDecision ToolExecutionResultV1.
Proof. solve_decision. Defined.
(** The result does not prove that the call finished with known effects. *)
Definition result_uncertain (r : ToolExecutionResultV1) : bool :=
  bool_decide (tr_outcome r = Outcomes.Unknown) || ef_incomplete (tr_effects r).

Class EffectEnv : Type := {
  (** [sha256::digest], [Value::to_string], [serde_json::from_str], [shell_words::quote] *)
  sha256 : list Z -> str;
  json_to_string : json -> str;
  json_parse : str -> option json;
  shell_words_quote : str -> str;
  (** [ToolInvocationIdentityV1::key] *)
  identity_key : ToolInvocationIdentityV1 -> option str;
  (** [serde_json::from_value::<ToolPreparedV1>], [ToolPreparedV1::validate] *)
  parse_prepared : json -> option ToolPreparedV1;
  prepared_valid : ToolPreparedV1 -> bool;
  (** the same for results and observations; [ensure_prepared] relates a result to
      its preparation *)
  parse_result : json -> option ToolExecutionResultV1;
  result_valid : ToolExecutionResultV1 -> bool;
  ensure_prepared : ToolExecutionResultV1 -> ToolPreparedV1 -> bool;
  parse_effects : json -> option ToolEffectObservationV1;
  effects_valid : ToolEffectObservationV1 -> bool;
}.
