(* ===== verification/Ledger.v ===== *)
(** The mutation ledger and the completion gate ([harness_loop.rs]), with the
    external observations the gate reads ([external_observation.rs]) and the
    registry of background workspace children ([porcelain.rs]). *)
From stdpp Require Import gmap.
From S2P Require Import Prelude Text Paths Verification Goal Effects.

Definition MUTATING_FILE_TOOLS : list string := ["write"; "edit"; "patch"; "download"].
Abbreviation keys := (gset (list Z)).

(** ** Closures of a run *)
Module Terminals.
Inductive CompletionTerminal : Type :=
| Narrative
| Verified (effect_digest : str)
| Waived (effect_digest : str)
| Distinct.
End Terminals.
Abbreviation CompletionTerminal := Terminals.CompletionTerminal.
#[global] Instance CompletionTerminal_eq_dec : EqDecision CompletionTerminal.
Proof. solve_decision. Defined.
Definition is_narrative (t : CompletionTerminal) : bool := bool_decide (t = Terminals.Narrative).
Definition completion_digest (t : CompletionTerminal) : option str :=
  match t with
  | Terminals.Narrative | Terminals.Distinct => None
  | Terminals.Verified d | Terminals.Waived d => Some d
  end.
Definition is_verified (t : CompletionTerminal) : bool :=
  match t with Terminals.Verified _ => true | _ => false end.
Definition bind_terminal (bound : list CompletionTerminal) (t : CompletionTerminal) : list CompletionTerminal :=
  if is_narrative t || existsb (fun b => bool_decide (b = t)) bound then bound else bound ++ [t].
Definition fold_step_completions (terminals : list CompletionTerminal) : CompletionTerminal :=
  match fold_left bind_terminal terminals [] with
  | [] => Terminals.Narrative
  | [one] => one
  | (first :: _) as many =>
      match completion_digest first with
      | Some digest =>
          if forallb (fun t => bool_decide (completion_digest t = Some digest)) many
          then if existsb is_verified many then Terminals.Verified digest else first
          else Terminals.Distinct
      | None => Terminals.Distinct
      end
  end.

Record CompletionWaiverV1 : Type := mkWaiver { wv_effect_digest : str; wv_reason : str }.
Definition new_waiver (effect_digest reason : str) : option CompletionWaiverV1 :=
  if str_eqb (trim effect_digest) [] || str_eqb (trim reason) [] then None
  else Some (mkWaiver effect_digest reason).
Record PlanRunAdmission : Type := mkAdmissionLabel { pr_claims : bool; pr_plan_digest : option str }.
Definition plan_run_label (p : PlanRunAdmission) : str :=
  match pr_claims p, option_map trim (pr_plan_digest p) with
  | true, Some digest => if str_eqb digest [] then $"ordinary" else $"plan_implementation"
  | _, _ => $"ordinary"
  end.

(** ** Background children ([porcelain.rs]) *)
Record ChildSlot : Type := mkSlot {
  sl_porcelain : option (list str); sl_head : option str; sl_nongit : bool;
  sl_settled : option (list str);
}.
Abbreviation Slots := (gmap (list Z) ChildSlot).
Record OpenWorkspaceChild : Type := mkChild {
  oc_task_id : str; oc_porcelain : option (list str); oc_head : option str; oc_nongit : bool;
}.
#[global] Instance OpenWorkspaceChild_eq_dec : EqDecision OpenWorkspaceChild.
Proof. solve_decision. Defined.
Definition child_marker (slots : Slots) (task_id : str) : option OpenWorkspaceChild :=
  slot ← slots !! task_id;
  match sl_settled slot with
  | Some _ => None
  | None => Some (mkChild task_id (sl_porcelain slot) (sl_head slot) (sl_nongit slot))
  end.
Definition take_settled_workspace_child (slots : Slots) (task_id : str) : option (list str) * Slots :=
  match slots !! task_id with
  | Some slot =>
      match sl_settled slot with
      | Some paths => (Some paths, delete task_id slots)
      | None => (None, slots)
      end
  | None => (None, slots)
  end.
Definition reserve_workspace_child (task_id : str) (slots : Slots) : Slots :=
  <[task_id := mkSlot None None false None]> slots.
Definition settle_workspace_child_paths (task_id : str) (paths : list str) (slots : Slots) : Slots :=
  match slots !! task_id with
  | Some slot => <[task_id := mkSlot (sl_porcelain slot) (sl_head slot) (sl_nongit slot) (Some paths)]> slots
  | None => slots
  end.
Definition workspace_child_pending (slots : Slots) (task_id : str) : bool :=
  bool_decide (is_Some (slots !! task_id)).
(** [is_harness_path] *)
Definition is_harness_path (path : str) : bool :=
  existsb (fun c => match c with
                    | Normal name => one_of name [".a3s"; ".a3s-code"; ".git"]
                    | _ => false
                    end) (components path).

(** ** The ledger *)
Record MutationRecord : Type := mkRecord {
  mr_tool : str; mr_path : str; mr_content_digest : str;
  mr_after_identity : option ToolFileIdentityV1;
}.
#[global] Instance MutationRecord_eq_dec : EqDecision MutationRecord.
Proof. solve_decision. Defined.
Record MutationLedger : Type := mkLedger {
  ml_records : list MutationRecord;
  ml_digest : str;
  ml_open_children : list OpenWorkspaceChild;
  ml_observation_incomplete : bool;
  ml_unresolved : keys;
  ml_applied_tool : keys;
  ml_applied_background : keys;
}.
Definition empty_ledger : MutationLedger := mkLedger [] [] [] false ∅ ∅ ∅.
Definition set_records (records : list MutationRecord) (digest : str) (l : MutationLedger) : MutationLedger :=
  mkLedger records digest (ml_open_children l) (ml_observation_incomplete l) (ml_unresolved l)
           (ml_applied_tool l) (ml_applied_background l).
Definition set_children (children : list OpenWorkspaceChild) (l : MutationLedger) : MutationLedger :=
  mkLedger (ml_records l) (ml_digest l) children (ml_observation_incomplete l) (ml_unresolved l)
           (ml_applied_tool l) (ml_applied_background l).
Definition set_observation_incomplete (incomplete : bool) (l : MutationLedger) : MutationLedger :=
  mkLedger (ml_records l) (ml_digest l) (ml_open_children l) incomplete (ml_unresolved l)
           (ml_applied_tool l) (ml_applied_background l).
Definition set_unresolved (unresolved : keys) (l : MutationLedger) : MutationLedger :=
  mkLedger (ml_records l) (ml_digest l) (ml_open_children l) (ml_observation_incomplete l) unresolved
           (ml_applied_tool l) (ml_applied_background l).
Definition set_applied (tool background : keys) (l : MutationLedger) : MutationLedger :=
  mkLedger (ml_records l) (ml_digest l) (ml_open_children l) (ml_observation_incomplete l) (ml_unresolved l)
           tool background.
Definition add_unresolved (key : str) (l : MutationLedger) : MutationLedger :=
  set_unresolved ({[ key ]} ∪ ml_unresolved l) l.
Definition extend_unresolved (ks : list str) (l : MutationLedger) : MutationLedger :=
  set_unresolved (list_to_set ks ∪ ml_unresolved l) l.

Definition ledger_is_empty (l : MutationLedger) : bool := bool_decide (ml_records l = []).
Definition ledger_paths (l : MutationLedger) : list str := map mr_path (ml_records l).
Definition has_open_children (l : MutationLedger) : bool := negb (bool_decide (ml_open_children l = [])).
Definition content_digest_for_path (l : MutationLedger) (path : str) : option str :=
  option_map mr_content_digest
    (List.find (fun r => mutation_path_matches (mr_path r) path) (rev (ml_records l))).
Definition has_content_digest (l : MutationLedger) (path : str) : bool :=
  existsb (fun r => negb (str_eqb (mr_content_digest r) []) && mutation_path_matches (mr_path r) path) (ml_records l).
Definition content_digest_matches (l : MutationLedger) (path digest : str) : bool :=
  let digest := trim digest in
  if str_eqb digest [] then false
  else existsb (fun r => str_eqb (mr_content_digest r) digest && mutation_path_matches (mr_path r) path) (ml_records l).

(** [workspace_relative_path] *)
Definition workspace_relative_path (workspace path : str) : str :=
  let trimmed := trim path in
  if negb (starts_with trimmed $"/") then trimmed
  else match strip_prefix (trim_end_char c_slash workspace ++ $"/") trimmed with
       | Some stripped => if str_eqb stripped [] then trimmed else stripped
       | None => trimmed
       end.

(** *** The effect digest *)
Definition be_bytes (n : Z) : list Z := [n / 2 ^ 24 mod 256; n / 2 ^ 16 mod 256; n / 2 ^ 8 mod 256; n mod 256].
Definition append_effect_field (field : list Z) : list Z := show (Z.of_nat (length field)) ++ [c_colon] ++ field.
Definition text_field (s : str) : list Z := append_effect_field (utf8 s).
Definition canonical_mode (mode : option Z) : list Z :=
  match mode with Some m => 1 :: be_bytes m | None => [0] end.
Definition canonical_digest (digest : option str) : list Z :=
  match digest with Some d => 1 :: text_field d | None => [0] end.
Definition canonical_record (r : MutationRecord) : list Z :=
  match mr_after_identity r with
  | Some after =>
      1 :: text_field (mr_path r) ++ text_field (fi_kind after) ++ canonical_mode (fi_mode after)
      ++ canonical_digest (fi_content_digest after)
  | None => 0 :: text_field (mr_path r) ++ text_field (mr_tool r) ++ text_field (mr_content_digest r)
  end.
Definition EFFECT_STATE_PREFIX : list Z := utf8 $"a3s.code.workspace-effect-state.v1" ++ [0].
Definition typed_canonical (records : list MutationRecord) : list Z :=
  EFFECT_STATE_PREFIX ++ concat (map canonical_record records).
Definition legacy_canonical (records : list MutationRecord) : list Z :=
  utf8 (join [c_nl] (map (fun r => mr_tool r ++ $"|" ++ mr_path r ++ $"|" ++ mr_content_digest r) records)).
Definition has_typed (records : list MutationRecord) : bool :=
  existsb (fun r => match mr_after_identity r with Some _ => true | None => false end) records.
Definition effect_canonical (records : list MutationRecord) : list Z :=
  if has_typed records then typed_canonical records else legacy_canonical records.

(** [left.path.cmp(&right.path).then(left.tool.cmp(&right.tool))] *)
Definition record_leb (a b : MutationRecord) : bool :=
  if str_eqb (mr_path a) (mr_path b) then str_leb (mr_tool a) (mr_tool b) else str_leb (mr_path a) (mr_path b).

Section Ledger.
Context `{EffectEnv}.

Definition effect_digest (records : list MutationRecord) : str := sha256 (effect_canonical records).
Definition rehash (records : list MutationRecord) (l : MutationLedger) : MutationLedger :=
  let records := sort_by record_leb records in set_records records (effect_digest records) l.
Definition content_digest (metadata : json) : str :=
  match jget_str $"after" metadata with
  | Some after => sha256 (utf8 after)
  | None => sha256 (utf8 (json_to_string metadata))
  end.

Definition ledger_push (tool path digest : str) (l : MutationLedger) : MutationLedger :=
  if is_harness_path path then l
  else
    let path := trim path in
    if str_eqb path [] then l
    else rehash (ml_records l ++ [mkRecord tool path digest None]) l.

Definition record_child_paths (task_id : str) (paths : list str) (l : MutationLedger) : MutationLedger :=
  let l := set_children (List.filter (fun c => negb (str_eqb (oc_task_id c) task_id)) (ml_open_children l)) l in
  fold_left (fun l path => ledger_push $"task" path [] l) paths l.

Definition observe_workspace_child (task_id : str) (slots : Slots) (l : MutationLedger) : MutationLedger * Slots :=
  let task_id := trim task_id in
  if str_eqb task_id [] then (l, slots)
  else match take_settled_workspace_child slots task_id with
  | (Some paths, slots) => (record_child_paths task_id paths l, slots)
  | (None, slots) =>
      match child_marker slots task_id with
      | None => (l, slots)
      | Some marker =>
          if existsb (fun c => str_eqb (oc_task_id c) (oc_task_id marker)) (ml_open_children l) then (l, slots)
          else (set_children (ml_open_children l ++ [marker]) l, slots)
      end
  end.

Definition record_changed_paths (tool : str) (metadata : json) (l : MutationLedger) : MutationLedger :=
  match jget $"changed_paths" metadata ≫= jas_array with
  | None => l
  | Some paths => fold_left (fun l path => match jas_str path with
                                           | Some path => ledger_push tool path (content_digest metadata) l
                                           | None => l
                                           end) paths l
  end.

(** [Value::as_i64] is zero. *)
Definition is_zero_i64 (v : json) : bool := bool_decide (jas_u64 v = Some 0).
Definition push_nested_calls (calls : option json) (name_key : str) : list (str * option json) :=
  match calls ≫= jas_array with
  | None => []
  | Some calls => omap (fun call =>
      if negb (bool_decide (jget $"success" call ≫= jas_bool = Some true)) then None
      else if negb (match jget $"exit_code" call with Some v => is_zero_i64 v | None => false end) then None
      else match jget_str name_key call with
           | Some name => if str_eqb name [] then None else Some (name, jget $"metadata" call)
           | None => None
           end) calls
  end.
Definition nested_tool_calls (metadata : json) : list (str * option json) :=
  push_nested_calls (jget $"program" metadata ≫= jget $"tool_calls") $"tool_name"
  ++ push_nested_calls (jget $"results" metadata) $"tool".

(** One call; [nested] observes the calls a wrapper published. *)
Definition observe_tool_with (nested : str -> option json -> MutationLedger * Slots -> MutationLedger * Slots)
    (tool : str) (exit_code : Z) (metadata : option json) (st : MutationLedger * Slots) : MutationLedger * Slots :=
  match metadata with
  | None => st
  | Some metadata =>
      let tool_key := to_ascii_lowercase tool in
      let '(l, slots) := st in
      let l := match jget $"changed_paths" metadata with
               | Some _ => record_changed_paths tool_key metadata l
               | None => l
               end in
      let st := match jget_str $"workspace_child" metadata with
                | Some task_id => observe_workspace_child task_id slots l
                | None => (l, slots)
                end in
      let record_nested_tool_effects :=
        fold_left (fun st '(name, metadata) => nested name metadata st) (nested_tool_calls metadata) in
      if negb (exit_code =? 0) then record_nested_tool_effects st
      else if one_of tool_key MUTATING_FILE_TOOLS then
        match jget_str $"file_path" metadata with
        | Some path => (ledger_push tool_key path (content_digest metadata) (fst st), snd st)
        | None => st
        end
      else record_nested_tool_effects st
  end.
(** The metadata of a nested call is a part of the wrapper's, so its depth bounds
    the recursion. *)
Fixpoint observe_nested (fuel : nat) (tool : str) (metadata : option json) (st : MutationLedger * Slots)
    : MutationLedger * Slots :=
  match fuel with
  | O => st
  | S fuel => observe_tool_with (observe_nested fuel) tool 0 metadata st
  end.
Definition observe_tool (tool : str) (exit_code : Z) (metadata : option json) (st : MutationLedger * Slots)
    : MutationLedger * Slots :=
  observe_tool_with (observe_nested (match metadata with Some m => json_depth m | None => O end))
                    tool exit_code metadata st.

(** *** Receipts *)
Definition observe_receipt_path (tool path : str) (after : ToolFileIdentityV1) (l : MutationLedger) : MutationLedger :=
  if str_eqb path [] || is_harness_path path then l
  else if existsb (fun r => str_eqb (mr_path r) path && bool_decide (mr_after_identity r = Some after)) (ml_records l)
  then l
  else
    let content := match fi_content_digest after with
                   | Some digest => default digest (strip_prefix $"sha256:" digest)
                   | None => []
                   end in
    rehash (List.filter (fun r => negb (str_eqb (mr_path r) path)) (ml_records l)
            ++ [mkRecord tool path content (Some after)]) l.
Definition observe_changes (tool : str) (changes : list ToolPathChangeV1) (l : MutationLedger) : MutationLedger :=
  fold_left (fun l change => observe_receipt_path tool (pc_path change) (pc_after change) l) changes l.

Definition observe_tool_receipt (tool : str) (result : ToolExecutionResultV1) (l : MutationLedger) : MutationLedger :=
  if negb (result_valid result) then add_unresolved $"tool_effect_schema_unsupported" l
  else match identity_key (tr_identity result) with
  | None => add_unresolved $"tool_effect_identity_mismatch" l
  | Some key =>
      if bool_decide (key ∈ ml_applied_tool l) then l
      else
        let l := set_applied ({[ key ]} ∪ ml_applied_tool l) (ml_applied_background l) l in
        let l := observe_changes tool (ef_changes (tr_effects result)) l in
        let l := if result_uncertain result then add_unresolved key l else l in
        extend_unresolved (ef_unresolved (tr_effects result)) l
  end.
Definition observe_background_receipt (fact_key : str) (effects : ToolEffectObservationV1) (l : MutationLedger)
    : MutationLedger :=
  if str_eqb (trim fact_key) [] then add_unresolved $"background-receipt-identity-missing" l
  else if negb (effects_valid effects) then add_unresolved ($"background-receipt-invalid:" ++ fact_key) l
  else if bool_decide (fact_key ∈ ml_applied_background l) then l
  else
    let l := set_applied (ml_applied_tool l) ({[ fact_key ]} ∪ ml_applied_background l) l in
    let l := observe_changes $"background" (ef_changes effects) l in
    let l := if ef_incomplete effects then add_unresolved ($"background-receipt-incomplete:" ++ fact_key) l else l in
    extend_unresolved (ef_unresolved effects) l.

Definition observe_unseen_paths (paths : list str) (l : MutationLedger) : MutationLedger :=
  let seen := map mr_path (ml_records l) in
  let accepted := List.filter (fun path =>
      negb (str_eqb path []) && negb (existsb (str_eqb path) seen)
      && negb (str_eqb path $".a3s") && negb (starts_with path $".a3s/")
      && negb (str_eqb path $".git") && negb (starts_with path $".git/"))
    (map (fun path => trim_start_matches $"./" (trim path)) paths) in
  match accepted with
  | [] => l
  | _ => rehash (ml_records l ++ map (fun path => mkRecord $"workspace" path [] None) accepted) l
  end.

(** *** Recovery *)
Definition CHILD_PREFIX : str := $"workspace-child:".
Definition restore_unresolved_tool_effects (unresolved settled : keys) (l : MutationLedger) : MutationLedger :=
  let l := set_unresolved (unresolved ∪ ml_unresolved l) l in
  let l := set_children (List.filter (fun c => bool_decide (CHILD_PREFIX ++ oc_task_id c ∉ settled))
                                     (ml_open_children l)) l in
  set_unresolved (filter (fun key => starts_with key CHILD_PREFIX = false \/ key ∉ settled) (ml_unresolved l)) l.

Fixpoint nodup_strs (l : list str) : bool :=
  match l with [] => true | x :: l => negb (existsb (str_eqb x) l) && nodup_strs l end.
(** [BTreeMap::from_iter]: the last record of a path. *)
Definition last_record (path : str) (records : list MutationRecord) : option MutationRecord :=
  List.find (fun r => str_eqb (mr_path r) path) (rev records).
Definition checkpoint_cache_covered_by (cached original : MutationLedger) : bool :=
  if has_open_children cached || ml_observation_incomplete cached
     || negb (bool_decide (ml_unresolved cached ⊆ ml_unresolved original)) then false
  else if bool_decide (ml_applied_tool original = ∅) && bool_decide (ml_applied_background original = ∅) then false
  else if negb (ledger_is_empty cached)
          && (bool_decide (ml_applied_tool cached = ∅) && bool_decide (ml_applied_background cached = ∅)) then false
  else if negb (bool_decide (ml_applied_tool cached ⊆ ml_applied_tool original))
          || negb (bool_decide (ml_applied_background cached ⊆ ml_applied_background original)) then false
  else
    forallb (fun record =>
        match mr_after_identity record with Some _ => true | None => false end
        && match last_record (mr_path record) (ml_records original) with
           | Some observed => bool_decide (mr_after_identity observed = mr_after_identity record)
                              && str_eqb (mr_content_digest observed) (mr_content_digest record)
           | None => false
           end) (ml_records cached)
    && nodup_strs (map mr_path (ml_records cached))
    && (ledger_is_empty cached || str_eqb (ml_digest cached) (effect_digest (ml_records cached))).
Definition checkpoint_negative_cache_covered_by (cached : MutationLedger) (validated : keys) : bool :=
  ledger_is_empty cached && bool_decide (ml_applied_tool cached = ∅)
  && bool_decide (ml_applied_background cached = ∅) && negb (has_open_children cached)
  && negb (ml_observation_incomplete cached) && negb (bool_decide (ml_unresolved cached = ∅))
  && bool_decide (ml_unresolved cached ⊆ validated).

Definition has_checkpoint_evidence (l : MutationLedger) : bool :=
  negb (ledger_is_empty l) || has_open_children l || negb (bool_decide (ml_unresolved l = ∅))
  || ml_observation_incomplete l || negb (bool_decide (ml_applied_tool l = ∅))
  || negb (bool_decide (ml_applied_background l = ∅)).
Definition begin_receipt_replay (l : MutationLedger) : MutationLedger := set_applied ∅ ∅ l.
Definition add_record (records : list MutationRecord) (record : MutationRecord) : list MutationRecord :=
  if existsb (fun current => str_eqb (mr_path current) (mr_path record)) records then records else records ++ [record].
Definition add_child (children : list OpenWorkspaceChild) (child : OpenWorkspaceChild) : list OpenWorkspaceChild :=
  if existsb (fun current => str_eqb (oc_task_id current) (oc_task_id child)) children then children
  else children ++ [child].
Definition CACHE_EVIDENCE_MISSING : str := $"tool_effect_cache_evidence_missing".
Definition restore_checkpoint_cache (cached : MutationLedger) (covered : bool) (l : MutationLedger) : MutationLedger :=
  let records := fold_left add_record (ml_records cached) (ml_records l) in
  let records_changed := negb (length records =? length (ml_records l))%nat in
  let children := fold_left add_child (ml_open_children cached) (ml_open_children l) in
  let unresolved := ml_unresolved cached ∪ ml_unresolved l in
  let unresolved := if has_checkpoint_evidence cached && negb covered
                    then {[ CACHE_EVIDENCE_MISSING ]} ∪ unresolved else unresolved in
  let l := mkLedger records (ml_digest l) children
             (ml_observation_incomplete l || ml_observation_incomplete cached) unresolved
             (ml_applied_tool l) (ml_applied_background l) in
  let l := begin_receipt_replay l in
  if records_changed then rehash records l else l.
Definition has_uncertain_tool_invocations (l : MutationLedger) : bool :=
  existsb (fun key => negb (starts_with key CHILD_PREFIX)) (elements (ml_unresolved l)).

(** [absorb_open_workspace_children] for one child of the snapshot; [await] is the
    outcome of waiting for a pending child ([None] when cancelled) and [delta] the
    re-read of a child whose slot is gone. *)
Definition absorb_child (await : str -> option (list str)) (delta : OpenWorkspaceChild -> list str * bool)
    (st : MutationLedger * Slots * bool) (child : OpenWorkspaceChild) : MutationLedger * Slots * bool :=
  let '(l, slots, incomplete) := st in
  match take_settled_workspace_child slots (oc_task_id child) with
  | (Some paths, slots) => (record_child_paths (oc_task_id child) paths l, slots, incomplete)
  | (None, slots) =>
      if workspace_child_pending slots (oc_task_id child) then
        match await (oc_task_id child) with
        | Some paths => (record_child_paths (oc_task_id child) paths l, delete (oc_task_id child) slots, incomplete)
        | None => (l, slots, incomplete)
        end
      else if oc_nongit child && bool_decide (oc_porcelain child = None) && bool_decide (oc_head child = None)
      then (l, slots, incomplete)
      else
        let '(paths, missed) := delta child in
        (record_child_paths (oc_task_id child) paths l, slots, incomplete || missed)
  end.
Definition absorb_open_workspace_children (await : str -> option (list str))
    (delta : OpenWorkspaceChild -> list str * bool) (l : MutationLedger) (slots : Slots)
    : MutationLedger * Slots * bool :=
  fold_left (absorb_child await delta) (ml_open_children l) (l, slots, false).
End Ledger.

(** ** External observations *)

(** [still_open]: the newest observation of each subject. The code collects them
    from a hash map, whose order is unspecified; here they keep their order of
    arrival. *)
Fixpoint newest (observations : list ExternalObservationV1) : list ExternalObservationV1 :=
  match observations with
  | [] => []
  | o :: rest => if existsb (fun later => str_eqb (eo_subject later) (eo_subject o)) rest then newest rest
                 else o :: newest rest
  end.
Definition waived (waivers : list CompletionWaiverV1) (digest : str) (o : ExternalObservationV1) : bool :=
  existsb (fun w => str_eqb (wv_effect_digest w) (eo_digest o)
                    || (negb (str_eqb digest []) && str_eqb (wv_effect_digest w) digest)) waivers.
Definition still_open (observations : list ExternalObservationV1) (waivers : list CompletionWaiverV1)
    (digest : str) : list ExternalObservationV1 :=
  List.filter (fun o => negb (waived waivers digest o))
    (List.filter (fun o => negb (bool_decide (eo_required_action o = NoAction))) (newest observations)).
Definition blocks_success (open : list ExternalObservationV1) : bool :=
  existsb (fun o => bool_decide (eo_required_action o = WorkspaceChange)) open.

(** ** The completion gate *)
Inductive CompletionGate : Type :=
| GateAllow (terminal : CompletionTerminal)
| GateContinue (message : str)
| GateIncomplete (message : str).

Definition report_binds_pass (r : VerificationReport) (digest : str) : bool :=
  if negb (bool_decide (vr_effect_digest r = Some digest)) then false
  else match List.filter vc_required (vr_checks r) with
  | [] => false
  | required =>
      forallb (fun c => is_status (vc_status c) Verdicts.Passed) required
      && negb (is_status (vr_status r) Verdicts.Failed || is_status (vr_status r) Verdicts.NeedsReview)
  end.

Definition UNBOUND_MUTATION_GATE : str := $"completion gate: workspace mutation ".
Definition SHOWN : nat := 4.
Definition mutation_paths_for_gate (l : MutationLedger) : str :=
  match dedup (sort_strs (ledger_paths l)) with
  | [] => []
  | paths =>
      let body := if (length paths <=? SHOWN)%nat then join $", " paths
                  else join $", " (take SHOWN paths) ++ $", and " ++ show (Z.of_nat (length paths - SHOWN)) ++ $" more" in
      $" (" ++ body ++ $")"
  end.
Definition min_str (l : list str) : option str := head (sort_strs l).

Section Gate.
Context `{EffectEnv}.
Definition unbound_mutation_next_step (l : MutationLedger) : str :=
  match min_str (List.filter (has_content_digest l) (ledger_paths l)) with
  | None => []
  | Some path =>
      let path := shell_words_quote path in
      $" Next step: run one `bash` command that exits 0 and includes `test -f " ++ path
      ++ $"` with the check that proves the change, for example `test -f " ++ path ++ $" && <test command>`."
  end.
Definition unbound_message (l : MutationLedger) (digest : str) : str :=
  UNBOUND_MUTATION_GATE ++ digest ++ mutation_paths_for_gate l
  ++ $" has no bound Passed verification and no host waiver. Assistant text does not count. Bind a verification_report.effect_digest to this digest with required checks Passed, or obtain a host waiver for this digest."
  ++ unbound_mutation_next_step l.
Definition unresolved_message (l : MutationLedger) : str :=
  $"tool_effect_unresolved: " ++ show (Z.of_nat (size (ml_unresolved l)))
  ++ $" invocation obligation(s) require identity-bound reconciliation; local scans, final text, and ordinary waivers cannot discharge them.".
Definition observation_message (open : list ExternalObservationV1) : str :=
  $"completion gate: external observation " ++ join $"," (map eo_digest open)
  ++ $" still requires a workspace change. A final answer does not clear it. Bind a newer observation of the same subject or a host waiver for the observation digest.".
Definition children_message (l : MutationLedger) : str :=
  $"completion gate: background workspace task " ++ join $"," (map oc_task_id (ml_open_children l))
  ++ $" has not been observed. A final answer does not observe its writes.".
Definition incomplete_message : str :=
  $"completion gate: workspace observation is incomplete, so this digest is not the effect. A final answer, a waiver, or a verification of a partial list does not close it.".

Definition decide_with_observations (l : MutationLedger) (reports : list VerificationReport)
    (waivers : list CompletionWaiverV1) (allow_continuation : bool)
    (observations : list ExternalObservationV1) : CompletionGate :=
  if negb (bool_decide (ml_unresolved l = ∅)) then GateIncomplete (unresolved_message l)
  else
    let open := still_open observations waivers (ml_digest l) in
    if blocks_success open then
      if allow_continuation then GateContinue (observation_message open)
      else GateIncomplete (observation_message open)
    else if has_open_children l then GateIncomplete (children_message l)
    else if ml_observation_incomplete l then GateIncomplete incomplete_message
    else if ledger_is_empty l then GateAllow Terminals.Narrative
    else
      let digest := ml_digest l in
      if existsb (fun w => str_eqb (wv_effect_digest w) digest) waivers
      then GateAllow (Terminals.Waived digest)
      else if existsb (fun r => report_binds_pass r digest) reports
      then GateAllow (Terminals.Verified digest)
      else GateIncomplete (unbound_message l digest).
Definition decide_completion (l : MutationLedger) (reports : list VerificationReport)
    (waivers : list CompletionWaiverV1) (allow_continuation : bool) : CompletionGate :=
  decide_with_observations l reports waivers allow_continuation [].
End Gate.

(** [unbound_mutation_digest]: the digest a host reads back from the message. *)
Definition unbound_mutation_digest (message : str) : option str :=
  '(_, rest) ← find_str UNBOUND_MUTATION_GATE message;
  digest ← head (split_on c_space rest);
  if str_eqb digest [] then None else Some digest.
(** [model_verification_context], as the message it quotes. *)
Definition model_verification_context (gate : CompletionGate) : option str :=
  match gate with
  | GateIncomplete message =>
      if negb (starts_with message UNBOUND_MUTATION_GATE) then None
      else match unbound_mutation_digest message with Some _ => Some message | None => None end
  | _ => None
  end.

(** ** Observations attached to a mutation *)
Record MutationObservationV1 : Type := mkMutationObservation {
  mo_path : str; mo_status : str; mo_workspace_revision : option Z; mo_items : list str;
}.
Definition observation_from_diagnostics (path : str) (revision : option Z) (stale : bool) (items : list str)
    : MutationObservationV1 :=
  if stale then mkMutationObservation path $"stale" revision []
  else mkMutationObservation path $"diagnostics" revision items.
Definition render_observation (o : MutationObservationV1) : str :=
  let items := match mo_items o with [] => [] | items => $" items=" ++ join $" | " items end in
  $"[mutation observation] path=" ++ mo_path o ++ $" status=" ++ mo_status o ++ items.
Definition model_visible_observation (output : str) (o : MutationObservationV1) : str :=
  if contains_str output $"[mutation observation]" then output
  else match output with [] => render_observation o | _ => output ++ [c_nl] ++ render_observation o end.
