(* ===== verification/LedgerFacts.v ===== *)
(** Correctness of the mutation ledger and of the completion gate: the digest is
    always the digest of the recorded state, it identifies that state, recorded
    uncertainty is never lost, and the gate allows success exactly on evidence. *)
From Stdlib Require Import Sorted.
From stdpp Require Import gmap sets.
From S2P Require Import Prelude Text Paths Shell Verification VerificationFacts Goal Effects Ledger.

(** ** Every way a run changes its ledger *)
Section Steps.
Context `{EffectEnv}.

Inductive ledger_step (l : MutationLedger) : MutationLedger -> Prop :=
| step_tool tool code metadata slots :
    ledger_step l (fst (observe_tool tool code metadata (l, slots)))
| step_receipt tool result : ledger_step l (observe_tool_receipt tool result l)
| step_background key effects : ledger_step l (observe_background_receipt key effects l)
| step_unseen paths : ledger_step l (observe_unseen_paths paths l)
| step_observation incomplete : ledger_step l (set_observation_incomplete incomplete l)
| step_replay : ledger_step l (begin_receipt_replay l)
| step_restore unresolved settled : ledger_step l (restore_unresolved_tool_effects unresolved settled l)
| step_cache cached covered : ledger_step l (restore_checkpoint_cache cached covered l)
| step_absorb await delta slots :
    ledger_step l (fst (fst (absorb_open_workspace_children await delta l slots))).
Definition ledger_run : relation MutationLedger := rtc ledger_step.

(** The operations are built from five: a property they keep is kept by all. *)
Section Closed.
Context (P : MutationLedger -> Prop)
  (P_push : forall tool path digest l, P l -> P (ledger_push tool path digest l))
  (P_receipt : forall tool path after l, P l -> P (observe_receipt_path tool path after l))
  (P_children : forall children l, P l -> P (set_children children l))
  (P_applied : forall a b l, P l -> P (set_applied a b l))
  (P_add : forall ks l, P l -> P (set_unresolved (ks ∪ ml_unresolved l) l)).

Lemma closed_fold {A} (f : MutationLedger -> A -> MutationLedger) xs l :
  (forall l x, P l -> P (f l x)) -> P l -> P (fold_left f xs l).
Proof. intros Hf. revert l. induction xs as [|x xs IH]; intros l Hl; [done|]. cbn. auto. Qed.
Lemma closed_child_paths task paths l : P l -> P (record_child_paths task paths l).
Proof. intros Hl. unfold record_child_paths. apply closed_fold; auto. Qed.
Lemma closed_changed tool metadata l : P l -> P (record_changed_paths tool metadata l).
Proof.
  intros Hl. unfold record_changed_paths. case_match; [|done]. apply closed_fold; [|done].
  intros l' x Hl'. case_match; auto.
Qed.
Lemma closed_observe_child task slots l : P l -> P (fst (observe_workspace_child task slots l)).
Proof.
  intros Hl. unfold observe_workspace_child. case_match; [done|]. destruct (take_settled_workspace_child _ _) as [[]?].
  - by apply closed_child_paths.
  - repeat case_match; cbn; auto.
Qed.
Lemma closed_tool_with nested tool code metadata st :
  (forall name m st, P (fst st) -> P (fst (nested name m st))) ->
  P (fst st) -> P (fst (observe_tool_with nested tool code metadata st)).
Proof.
  intros Hn Hst. unfold observe_tool_with. destruct metadata as [m|]; [|done]. destruct st as [l slots]. cbn in Hst.
  set (l1 := match jget _ _ with Some _ => _ | None => _ end).
  assert (H1 : P l1) by (unfold l1; case_match; [by apply closed_changed|done]).
  set (st := match jget_str $"workspace_child" m with Some _ => _ | None => _ end).
  assert (H2 : P (fst st)) by (unfold st; case_match; [by apply closed_observe_child|done]).
  assert (H3 : forall calls st, P (fst st) -> P (fst (fold_left (fun st '(name, m) => nested name m st) calls st))).
  { clear -Hn. induction calls as [|[name m] calls IH]; intros st Hst; [done|]. cbn. auto. }
  repeat case_match; cbn; auto.
Qed.
Lemma closed_nested fuel tool metadata st : P (fst st) -> P (fst (observe_nested fuel tool metadata st)).
Proof.
  revert tool metadata st. induction fuel as [|fuel IH]; intros tool metadata st Hst; [done|].
  cbn. by apply closed_tool_with.
Qed.
Lemma closed_tool tool code metadata st : P (fst st) -> P (fst (observe_tool tool code metadata st)).
Proof. intros Hst. apply closed_tool_with; [|done]. intros. by apply closed_nested. Qed.
Lemma closed_changes tool changes l : P l -> P (observe_changes tool changes l).
Proof. intros Hl. apply closed_fold; auto. Qed.
Lemma closed_add_one key l : P l -> P (add_unresolved key l).
Proof. apply P_add. Qed.
Lemma closed_extend ks l : P l -> P (extend_unresolved ks l).
Proof. apply P_add. Qed.
Lemma closed_tool_receipt tool result l : P l -> P (observe_tool_receipt tool result l).
Proof.
  intros Hl. unfold observe_tool_receipt. repeat (case_match; auto using closed_add_one); try done.
  all: apply closed_extend; try apply closed_add_one; apply closed_changes; auto.
Qed.
Lemma closed_background_receipt key effects l : P l -> P (observe_background_receipt key effects l).
Proof.
  intros Hl. unfold observe_background_receipt. repeat (case_match; auto using closed_add_one); try done.
  all: apply closed_extend; try apply closed_add_one; apply closed_changes; auto.
Qed.
Lemma closed_absorb await delta l slots :
  P l -> P (fst (fst (absorb_open_workspace_children await delta l slots))).
Proof.
  intros Hl. unfold absorb_open_workspace_children.
  assert (Hf : forall cs st, P (fst (fst st)) -> P (fst (fst (fold_left (absorb_child await delta) cs st)))).
  { induction cs as [|c cs IH]; intros [[l' s'] i] Hst; [done|]. cbn [fold_left]. apply IH. cbn in Hst. unfold absorb_child.
    destruct (take_settled_workspace_child _ _) as [[]?]; [by apply closed_child_paths|].
    repeat (case_match; cbn; auto using closed_child_paths). }
  by apply Hf.
Qed.
End Closed.
End Steps.

(** ** The digest is the digest of the records *)
Lemma record_leb_total a b : record_leb a b = true \/ record_leb b a = true.
Proof.
  unfold record_leb. destruct (str_eqb (mr_path a) (mr_path b)) eqn:E.
  - apply str_eqb_spec in E. rewrite E, str_eqb_refl. apply str_leb_total.
  - assert (str_eqb (mr_path b) (mr_path a) = false) as -> by (apply str_eqb_ne in E; by apply str_eqb_ne).
    apply str_leb_total.
Qed.
Lemma record_leb_path a b : record_leb a b = true -> str_leb (mr_path a) (mr_path b) = true.
Proof. unfold record_leb. destruct (str_eqb _ _) eqn:E; [|done]. apply str_eqb_spec in E. rewrite E. intros _. apply str_leb_refl. Qed.
Lemma record_leb_trans a b c : record_leb a b = true -> record_leb b c = true -> record_leb a c = true.
Proof.
  intros H1 H2. pose proof (str_leb_trans _ _ _ (record_leb_path _ _ H1) (record_leb_path _ _ H2)) as H3.
  unfold record_leb in *. destruct (str_eqb (mr_path a) (mr_path c)) eqn:E; [|done].
  apply str_eqb_spec in E. destruct (str_eqb (mr_path a) (mr_path b)) eqn:E1.
  - apply str_eqb_spec in E1. rewrite <-E1, E, str_eqb_refl in H2. by apply str_leb_trans with (mr_tool b).
  - destruct (str_eqb (mr_path b) (mr_path c)) eqn:E2.
    + apply str_eqb_spec in E2. apply str_eqb_ne in E1. congruence.
    + apply str_eqb_ne in E1. destruct E1. apply str_leb_antisymm; [done|]. by rewrite E.
Qed.
Abbreviation ordered_records := (StronglySorted (fun a b => record_leb a b = true)).

Section Invariant.
Context `{EffectEnv}.

Definition ledger_wf (l : MutationLedger) : Prop :=
  ml_digest l = (if ledger_is_empty l then [] else effect_digest (ml_records l)) /\ ordered_records (ml_records l).

Lemma wf_same l l' : ml_records l' = ml_records l -> ml_digest l' = ml_digest l -> ledger_wf l -> ledger_wf l'.
Proof. unfold ledger_wf, ledger_is_empty. intros Hr Hd. by rewrite Hr, Hd. Qed.
Lemma rehash_wf records l : records <> [] -> ledger_wf (rehash records l).
Proof.
  intros Hne. unfold rehash, ledger_wf, ledger_is_empty. cbn [ml_digest ml_records set_records].
  rewrite bool_decide_eq_false_2.
  - split; [done|]. apply sort_by_ordered; [apply record_leb_total|apply record_leb_trans].
  - intros E. apply Hne, Permutation_nil. by rewrite <-(sort_by_perm record_leb records), E.
Qed.
Lemma snoc_ne {A} (l : list A) x : l ++ [x] <> [].
Proof. by destruct l. Qed.
Lemma push_wf tool path digest l : ledger_wf l -> ledger_wf (ledger_push tool path digest l).
Proof. intros Hl. unfold ledger_push. repeat case_match; auto using rehash_wf, snoc_ne. Qed.
Lemma receipt_path_wf tool path after l : ledger_wf l -> ledger_wf (observe_receipt_path tool path after l).
Proof. intros Hl. unfold observe_receipt_path. repeat case_match; auto using rehash_wf, snoc_ne. Qed.
Lemma fold_add_record cached records : exists extra, fold_left add_record cached records = records ++ extra.
Proof.
  revert records. induction cached as [|r cached IH]; intros records; cbn; [exists []; by rewrite app_nil_r|].
  unfold add_record at 2. destruct (existsb _ _); [apply IH|]. destruct (IH (records ++ [r])) as [extra ->].
  exists ([r] ++ extra). by rewrite <-app_assoc.
Qed.
Lemma cache_wf cached covered l : ledger_wf l -> ledger_wf (restore_checkpoint_cache cached covered l).
Proof.
  intros Hl. unfold restore_checkpoint_cache. cbn zeta.
  destruct (fold_add_record (ml_records cached) (ml_records l)) as [extra ->].
  destruct (length (ml_records l ++ extra) =? length (ml_records l))%nat eqn:E; cbn [negb].
  - rewrite length_app in E. apply Nat.eqb_eq in E. assert (extra = []) as -> by (apply nil_length_inv; lia).
    apply wf_same with l; cbn; [by rewrite app_nil_r|done|done].
  - apply rehash_wf. intros E'. apply app_nil in E' as [E1 E2]. rewrite E1, E2 in E. done.
Qed.
Lemma unseen_wf paths l : ledger_wf l -> ledger_wf (observe_unseen_paths paths l).
Proof.
  intros Hl. unfold observe_unseen_paths. case_match; [done|]. apply rehash_wf. by destruct (ml_records l).
Qed.
Lemma children_wf children l : ledger_wf l -> ledger_wf (set_children children l).
Proof. by apply wf_same. Qed.
Lemma applied_wf a b l : ledger_wf l -> ledger_wf (set_applied a b l).
Proof. by apply wf_same. Qed.
Lemma unresolved_wf ks l : ledger_wf l -> ledger_wf (set_unresolved ks l).
Proof. by apply wf_same. Qed.
Lemma observation_wf b l : ledger_wf l -> ledger_wf (set_observation_incomplete b l).
Proof. by apply wf_same. Qed.
#[local] Hint Resolve push_wf receipt_path_wf cache_wf unseen_wf children_wf applied_wf unresolved_wf observation_wf : core.
Lemma step_wf l l' : ledger_step l l' -> ledger_wf l -> ledger_wf l'.
Proof.
  intros Hs Hl. destruct Hs; unfold begin_receipt_replay, restore_unresolved_tool_effects; auto.
  - apply (closed_tool ledger_wf); auto.
  - apply (closed_tool_receipt ledger_wf); auto.
  - apply (closed_background_receipt ledger_wf); auto.
  - apply (closed_absorb ledger_wf); auto.
Qed.
Lemma run_wf l l' : ledger_run l l' -> ledger_wf l -> ledger_wf l'.
Proof. induction 1; eauto using step_wf. Qed.
Lemma empty_wf : ledger_wf empty_ledger.
Proof. split; [done|constructor]. Qed.

(** ** Uncertainty is sticky *)
Definition remembers (l l' : MutationLedger) : Prop :=
  forall key, key ∈ ml_unresolved l -> starts_with key CHILD_PREFIX = false -> key ∈ ml_unresolved l'.
Lemma unresolved_push tool path digest l : ml_unresolved (ledger_push tool path digest l) = ml_unresolved l.
Proof. unfold ledger_push. by repeat case_match. Qed.
Lemma unresolved_receipt_path tool path after l :
  ml_unresolved (observe_receipt_path tool path after l) = ml_unresolved l.
Proof. unfold observe_receipt_path. by repeat case_match. Qed.
Lemma unresolved_cache cached covered l :
  ml_unresolved cached ∪ ml_unresolved l ⊆ ml_unresolved (restore_checkpoint_cache cached covered l).
Proof. unfold restore_checkpoint_cache. cbn zeta. repeat case_match; cbn; set_solver. Qed.
Lemma unresolved_unseen paths l : ml_unresolved (observe_unseen_paths paths l) = ml_unresolved l.
Proof. unfold observe_unseen_paths. by case_match. Qed.
Lemma step_remembers l l' : ledger_step l l' -> remembers l l'.
Proof.
  set (P := fun x => ml_unresolved l ⊆ ml_unresolved x).
  assert (H1 : forall tool path digest x, P x -> P (ledger_push tool path digest x))
    by (unfold P; intros; by rewrite unresolved_push).
  assert (H2 : forall tool path after x, P x -> P (observe_receipt_path tool path after x))
    by (unfold P; intros; by rewrite unresolved_receipt_path).
  assert (H3 : forall ks x, P x -> P (set_unresolved (ks ∪ ml_unresolved x) x)) by (unfold P; cbn; set_solver).
  assert (Hp : forall x, P x -> remembers l x) by (unfold P, remembers; set_solver).
  assert (Hl : P l) by (unfold P; set_solver).
  destruct 1.
  - apply Hp, (closed_tool P); auto.
  - apply Hp, (closed_tool_receipt P); auto.
  - apply Hp, (closed_background_receipt P); auto.
  - apply Hp. unfold P. by rewrite unresolved_unseen.
  - by apply Hp.
  - by apply Hp.
  - intros key Hk Hc. cbn. apply elem_of_filter. split; [by left|]. set_solver.
  - apply Hp. unfold P. pose proof (unresolved_cache cached covered l). set_solver.
  - apply Hp, (closed_absorb P); auto.
Qed.
#[global] Instance remembers_preorder : PreOrder remembers.
Proof. split; [by intros l key|]. intros a b c Hab Hbc key Hk Hc. by apply Hbc; [apply Hab|]. Qed.
Lemma run_remembers l l' : ledger_run l l' -> remembers l l'.
Proof. induction 1 as [|a b c Hs _ IH]; [done|]. etrans; [by apply step_remembers|done]. Qed.
End Invariant.

(** ** The gate *)
Definition bound_pass (r : VerificationReport) (digest : str) : Prop :=
  vr_effect_digest r = Some digest
  /\ (exists c, In c (vr_checks r) /\ vc_required c = true)
  /\ (forall c, In c (vr_checks r) -> vc_required c = true -> vc_status c = Verdicts.Passed)
  /\ vr_status r <> Verdicts.Failed /\ vr_status r <> Verdicts.NeedsReview.
Lemma report_binds_pass_iff r digest : report_binds_pass r digest = true <-> bound_pass r digest.
Proof.
  unfold report_binds_pass, bound_pass. destruct (bool_decide _) eqn:E; cbn [negb].
  2:{ apply bool_decide_eq_false in E. split; [done|]. by intros [? _]. }
  apply bool_decide_eq_true in E. assert (Hf : forall c, In c (List.filter vc_required (vr_checks r)) <->
    In c (vr_checks r) /\ vc_required c = true) by (intros; apply filter_In).
  destruct (List.filter _ _) as [|c cs] eqn:Ef.
  - split; [done|]. intros (_ & (c & Hc) & _). by apply Hf in Hc.
  - rewrite <-Ef in *. rewrite andb_true_iff, forallb_forall, negb_true_iff, orb_false_iff, !is_status_false.
    setoid_rewrite is_status_true. split.
    + intros [Hp Hs]. split; [done|]. split; [exists c; apply Hf; rewrite Ef; by left|]. split; [|done].
      intros x Hx Hr. apply Hp, Hf. done.
    + intros (_ & _ & Hp & Hs). split; [|done]. intros x [Hx Hr]%Hf. auto.
Qed.

(** An observation that asks for a workspace change and is still unanswered. *)
Definition unanswered (observations : list ExternalObservationV1) (waivers : list CompletionWaiverV1) (digest : str) : Prop :=
  exists o, In o (newest observations) /\ eo_required_action o = WorkspaceChange /\ waived waivers digest o = false.
Lemma blocks_success_iff observations waivers digest :
  blocks_success (still_open observations waivers digest) = true <-> unanswered observations waivers digest.
Proof.
  unfold blocks_success, still_open, unanswered. rewrite existsb_exists.
  setoid_rewrite filter_In. setoid_rewrite filter_In. setoid_rewrite bool_decide_eq_true.
  setoid_rewrite negb_true_iff. setoid_rewrite bool_decide_eq_false.
  split; [naive_solver|]. intros (o & Hin & Ho & Hw). exists o. rewrite Ho. naive_solver.
Qed.

(** Evidence for each way a run may close. *)
Definition closes (l : MutationLedger) (reports : list VerificationReport) (waivers : list CompletionWaiverV1)
    (digest : str) (t : CompletionTerminal) : Prop :=
  match t with
  | Terminals.Narrative => ml_records l = []
  | Terminals.Waived d => ml_records l <> [] /\ d = digest /\ exists w, In w waivers /\ wv_effect_digest w = d
  | Terminals.Verified d =>
      ml_records l <> [] /\ d = digest /\ (forall w, In w waivers -> wv_effect_digest w <> d)
      /\ exists r, In r reports /\ bound_pass r d
  | Terminals.Distinct => False
  end.
Section GateFacts.
Context `{EffectEnv}.
Lemma gate_allow_iff l reports waivers continue observations t :
  decide_with_observations l reports waivers continue observations = GateAllow t <->
  ml_unresolved l = ∅ /\ ml_open_children l = [] /\ ml_observation_incomplete l = false
  /\ ~ unanswered observations waivers (ml_digest l) /\ closes l reports waivers (ml_digest l) t.
Proof.
  unfold decide_with_observations. destruct (bool_decide (ml_unresolved l = ∅)) eqn:Eu; cbn [negb].
  2:{ apply bool_decide_eq_false in Eu. split; [done|]. by intros [? _]. }
  apply bool_decide_eq_true in Eu. rewrite <-blocks_success_iff. unfold has_open_children, ledger_is_empty.
  destruct (blocks_success _); [destruct continue; (split; [done|naive_solver])|].
  destruct (decide (ml_open_children l = [])) as [Hc|Hc].
  2:{ rewrite (bool_decide_eq_false_2 _ Hc). split; [done|naive_solver]. }
  rewrite (bool_decide_eq_true_2 _ Hc). cbn [negb]. destruct (ml_observation_incomplete l); [by split; [|naive_solver]|].
  destruct (decide (ml_records l = [])) as [Hr|Hr].
  { rewrite (bool_decide_eq_true_2 _ Hr). split; [intros [= <-]; naive_solver|].
    intros (_ & _ & _ & _ & Ht). destruct t; cbn in Ht; naive_solver. }
  rewrite (bool_decide_eq_false_2 _ Hr). destruct (existsb _ waivers) eqn:Ew.
  - apply existsb_exists in Ew as (w & Hw & He). apply str_eqb_spec in He. split.
    + intros [= <-]. repeat split; [done..|]. eauto.
    + intros (_ & _ & _ & _ & Ht). destruct t; cbn in Ht; try done.
      * destruct Ht as (_ & -> & Hn & _). by destruct (Hn w).
      * by destruct Ht as (_ & -> & _).
  - assert (Hn : forall w, In w waivers -> wv_effect_digest w <> ml_digest l).
    { intros w Hw. apply str_eqb_ne. rewrite existsb_none in Ew. by apply Ew. }
    destruct (existsb _ reports) eqn:Ex.
    + apply existsb_exists in Ex as (r & Hin & Hb). apply report_binds_pass_iff in Hb. split.
      * intros [= <-]. repeat split; eauto.
      * intros (_ & _ & _ & _ & Ht). destruct t; cbn in Ht; try done.
        -- by destruct Ht as (_ & -> & _).
        -- destruct Ht as (_ & -> & w & Hw & He). by destruct (Hn w).
    + split; [done|]. intros (_ & _ & _ & _ & Ht). rewrite existsb_none in Ex. destruct t; cbn in Ht; try done.
      * destruct Ht as (_ & -> & _ & r & Hin & Hb). apply report_binds_pass_iff in Hb. by rewrite Ex in Hb.
      * destruct Ht as (_ & -> & w & Hw & He). by destruct (Hn w).
Qed.
Lemma gate_blocked l reports waivers continue observations :
  ml_unresolved l <> ∅ -> exists message, decide_with_observations l reports waivers continue observations = GateIncomplete message.
Proof. intros Hu. unfold decide_with_observations. rewrite bool_decide_eq_false_2 by done. eauto. Qed.

(** C7. The completion gate allows a run to succeed exactly when nothing is
    uncertain (no unresolved invocation, no background writer, a complete
    observation, no unanswered external observation) and the closure is earned:
    narrative only with no recorded mutation, waived only by a waiver for the
    digest, verified only by a report bound to it whose required checks exist and
    all passed. The digest is that of the records the ledger holds now. *)
Theorem completion_gate_exact (l : MutationLedger) (reports : list VerificationReport)
    (waivers : list CompletionWaiverV1) (continue : bool) (observations : list ExternalObservationV1)
    (t : CompletionTerminal) :
  ledger_run empty_ledger l ->
  decide_with_observations l reports waivers continue observations = GateAllow t <->
  ml_unresolved l = ∅ /\ ml_open_children l = [] /\ ml_observation_incomplete l = false
  /\ ~ unanswered observations waivers (ml_digest l)
  /\ closes l reports waivers (if ledger_is_empty l then [] else effect_digest (ml_records l)) t.
Proof.
  intros Hrun. rewrite gate_allow_iff. destruct (run_wf _ _ Hrun empty_wf) as [<- _]. done.
Qed.

(** C12. Uncertainty is never argued away: once an invocation is recorded as
    unresolved (a background child's own key aside), the gate refuses success
    after every further sequence of tool results, receipts, scans, replays,
    cache restores and absorbed children, whatever reports and waivers exist. *)
Theorem uncertainty_blocks_forever (l l' : MutationLedger) (key : str) (reports : list VerificationReport)
    (waivers : list CompletionWaiverV1) (continue : bool) (observations : list ExternalObservationV1) :
  key ∈ ml_unresolved l -> starts_with key CHILD_PREFIX = false -> ledger_run l l' ->
  exists message, decide_with_observations l' reports waivers continue observations = GateIncomplete message.
Proof. intros Hk Hc Hrun. apply gate_blocked. pose proof (run_remembers _ _ Hrun key Hk Hc). set_solver. Qed.
End GateFacts.
