(* ===== verification/DigestFacts.v ===== *)
(** What the effect digest identifies: the bytes it hashes determine the recorded
    workspace state, and a ledger fed by receipts is a map from paths to file
    identities whatever the order, tools and repetitions of the receipts. *)
From Stdlib Require Import Sorted.
From stdpp Require Import gmap sets sorting.
From S2P Require Import Prelude Text Paths Shell Verification VerificationFacts Goal Effects Ledger LedgerFacts.

(** ** The encoding is injective *)
Lemma cons_split {A} (x y : A) l k : x :: l = y :: k -> x = y /\ l = k.
Proof. by intros [= -> ->]. Qed.
Lemma digits_split (d1 d2 x y : list Z) :
  Forall (fun c => 48 <= c <= 57) d1 -> Forall (fun c => 48 <= c <= 57) d2 ->
  d1 ++ c_colon :: x = d2 ++ c_colon :: y -> d1 = d2 /\ x = y.
Proof.
  intros H1. revert d2. induction H1 as [|a d1 Ha H1 IH]; intros [|b d2] H2 E; cbn in E.
  - by injection E.
  - inversion_clear H2 as [|?? Hb _]. injection E as <- _. unfold c_colon in Hb. lia.
  - injection E as -> _. unfold c_colon in Ha. lia.
  - inversion_clear H2. injection E as -> E. destruct (IH d2) as [-> ->]; auto.
Qed.
Lemma field_prefix a b s t : append_effect_field a ++ s = append_effect_field b ++ t -> a = b /\ s = t.
Proof.
  unfold append_effect_field. rewrite <-!app_assoc. cbn [app]. intros E.
  apply digits_split in E as [E1 E2]; [|apply show_digits..]. apply show_inj in E1; [|lia..].
  apply app_inj_1 in E2; [done|lia].
Qed.
Definition text_ok (s : str) : Prop := Forall scalar s.
Lemma text_field_prefix a b s t :
  text_ok a -> text_ok b -> text_field a ++ s = text_field b ++ t -> a = b /\ s = t.
Proof. intros Ha Hb [E ->]%field_prefix. split; [by apply utf8_inj|done]. Qed.
Definition u32 (n : Z) : Prop := 0 <= n < 2 ^ 32.
Lemma be_bytes_prefix a b s t : u32 a -> u32 b -> be_bytes a ++ s = be_bytes b ++ t -> a = b /\ s = t.
Proof.
  unfold u32, be_bytes. intros Ha Hb. cbn [app]. intros [= E1 E2 E3 E4 ->]. split; [|done].
  Z.to_euclidean_division_equations. lia.
Qed.

Definition option_ok {A} (P : A -> Prop) (o : option A) : Prop := match o with Some a => P a | None => True end.
Definition identity_ok (i : ToolFileIdentityV1) : Prop :=
  text_ok (fi_kind i) /\ option_ok text_ok (fi_content_digest i) /\ option_ok u32 (fi_mode i).
Definition record_ok (r : MutationRecord) : Prop :=
  text_ok (mr_tool r) /\ text_ok (mr_path r) /\ text_ok (mr_content_digest r)
  /\ option_ok identity_ok (mr_after_identity r).

Lemma mode_prefix a b s t :
  option_ok u32 a -> option_ok u32 b -> canonical_mode a ++ s = canonical_mode b ++ t -> a = b /\ s = t.
Proof.
  destruct a as [a|], b as [b|]; cbn [option_ok canonical_mode]; intros Ha Hb; try by intros [=].
  - rewrite <-!app_comm_cons. intros [_ E]%cons_split. by apply be_bytes_prefix in E as [-> ->].
Qed.
Lemma digest_prefix a b s t :
  option_ok text_ok a -> option_ok text_ok b -> canonical_digest a ++ s = canonical_digest b ++ t -> a = b /\ s = t.
Proof.
  destruct a as [a|], b as [b|]; cbn [option_ok canonical_digest]; intros Ha Hb; try by intros [=].
  - rewrite <-!app_comm_cons. intros [_ E]%cons_split. by apply text_field_prefix in E as [-> ->].
Qed.

(** What a record says of the workspace: a typed record its path and identity; a
    legacy record everything it has. *)
Definition record_state (r : MutationRecord) : str * (ToolFileIdentityV1 + str * str) :=
  (mr_path r, match mr_after_identity r with
              | Some after => inl after
              | None => inr (mr_tool r, mr_content_digest r)
              end).
Lemma canonical_record_prefix a b s t :
  record_ok a -> record_ok b -> canonical_record a ++ s = canonical_record b ++ t ->
  record_state a = record_state b /\ s = t.
Proof.
  unfold canonical_record, record_state, record_ok.
  destruct a as [tool1 path1 content1 [[k1 d1 m1]|]], b as [tool2 path2 content2 [[k2 d2 m2]|]];
    cbn [mr_tool mr_path mr_content_digest mr_after_identity fi_kind fi_content_digest fi_mode option_ok];
    intros (Ht1 & Hp1 & Hc1 & Hi1) (Ht2 & Hp2 & Hc2 & Hi2); rewrite <-!app_comm_cons; try by intros [=].
  - destruct Hi1 as (Hk1 & Hd1 & Hm1), Hi2 as (Hk2 & Hd2 & Hm2). cbn in *. intros [_ E]%cons_split. rewrite <-!app_assoc in E.
    apply text_field_prefix in E as [-> E]; [|done..]. apply text_field_prefix in E as [-> E]; [|done..].
    apply mode_prefix in E as [-> E]; [|done..]. by apply digest_prefix in E as [-> ->].
  - intros [_ E]%cons_split. rewrite <-!app_assoc in E.
    apply text_field_prefix in E as [-> E]; [|done..]. apply text_field_prefix in E as [-> E]; [|done..].
    by apply text_field_prefix in E as [-> ->].
Qed.
Lemma canonical_record_ne r s : canonical_record r ++ s <> [].
Proof. unfold canonical_record. by destruct (mr_after_identity r). Qed.
Lemma canonical_records_inj l1 l2 :
  Forall record_ok l1 -> Forall record_ok l2 ->
  concat (map canonical_record l1) = concat (map canonical_record l2) -> map record_state l1 = map record_state l2.
Proof.
  intros H1. revert l2. induction H1 as [|a l1 Ha H1 IH]; intros [|b l2] H2; cbn [map concat]; intros E.
  - done.
  - symmetry in E. by apply canonical_record_ne in E.
  - by apply canonical_record_ne in E.
  - inversion_clear H2. apply canonical_record_prefix in E as [-> E]; [|done..]. f_equal. by apply IH.
Qed.
Lemma canonical_record_state a b : record_state a = record_state b -> canonical_record a = canonical_record b.
Proof.
  unfold canonical_record, record_state. intros [= Hp Hs].
  destruct (mr_after_identity a), (mr_after_identity b); try done; injection Hs; intros; congruence.
Qed.
Lemma canonical_records_state l1 l2 :
  map record_state l1 = map record_state l2 -> map canonical_record l1 = map canonical_record l2.
Proof.
  revert l2. induction l1 as [|a l1 IH]; intros [|b l2]; try done. cbn [map]. intros [Ha Hl]%cons_split.
  by rewrite (canonical_record_state a b Ha), (IH l2 Hl).
Qed.

(** ** A ledger fed by receipts is a map *)
Definition tracked (path : str) : bool := negb (str_eqb path [] || is_harness_path path).
(** The abstract ledger: the last observed identity of every path. *)
Abbreviation Workspace := (gmap (list Z) ToolFileIdentityV1).
Definition spec_change (w : Workspace) (c : ToolPathChangeV1) : Workspace :=
  if tracked (pc_path c) then <[pc_path c := pc_after c]> w else w.
Definition spec_changes (cs : list ToolPathChangeV1) (w : Workspace) : Workspace := fold_left spec_change cs w.

Definition typed_entry (r : MutationRecord) : option (str * ToolFileIdentityV1) :=
  option_map (pair (mr_path r)) (mr_after_identity r).
Definition workspace_of (l : MutationLedger) : Workspace := list_to_map (omap typed_entry (ml_records l)).
(** Exactly one record per path, all of them typed. *)
Definition receipt_only (records : list MutationRecord) : Prop :=
  NoDup (map mr_path records) /\ Forall (fun r => is_Some (mr_after_identity r)) records.

Lemma typed_fst records :
  Forall (fun r => is_Some (mr_after_identity r)) records -> map fst (omap typed_entry records) = map mr_path records.
Proof. induction 1 as [|r records [i Hi] _ IH]; [done|]. cbn. unfold typed_entry at 1. rewrite Hi. cbn. by f_equal. Qed.
Lemma receipt_only_perm r1 r2 : r1 ≡ₚ r2 -> receipt_only r1 -> receipt_only r2.
Proof. intros Hp [Hn Hf]. split; [by rewrite <-Hp|by rewrite <-Hp]. Qed.
Lemma workspace_perm r1 r2 :
  r1 ≡ₚ r2 -> receipt_only r1 -> list_to_map (M := Workspace) (omap typed_entry r1) = list_to_map (omap typed_entry r2).
Proof.
  intros Hp [Hn Hf]. apply list_to_map_proper; [|by rewrite Hp]. by rewrite typed_fst.
Qed.
Lemma omap_entry r records :
  omap typed_entry (r :: records)
  = match typed_entry r with Some e => e :: omap typed_entry records | None => omap typed_entry records end.
Proof. done. Qed.
Lemma workspace_without path records :
  list_to_map (M := Workspace) (omap typed_entry (List.filter (fun r => negb (str_eqb (mr_path r) path)) records))
  = delete path (list_to_map (omap typed_entry records)).
Proof.
  induction records as [|r records IH]; cbn [List.filter]; [symmetry; apply delete_empty|].
  assert (He : forall p i, typed_entry r = Some (p, i) -> p = mr_path r)
    by (unfold typed_entry; destruct (mr_after_identity r); cbn; congruence).
  rewrite omap_entry. destruct (str_eqb (mr_path r) path) eqn:E; cbn [negb]; [|rewrite omap_entry].
  - apply str_eqb_spec in E. rewrite IH. destruct (typed_entry r) as [[p i]|]; [|done].
    rewrite (He p i), E by done. cbn. by rewrite delete_insert_eq.
  - apply str_eqb_ne in E. destruct (typed_entry r) as [[p i]|]; [|done].
    rewrite (He p i) by done. cbn. by rewrite IH, delete_insert_ne.
Qed.
Lemma filter_receipt_only f records : receipt_only records -> receipt_only (List.filter f records).
Proof.
  intros [Hn Hf]. induction records as [|r records IH]; [done|]. cbn in *.
  apply list.NoDup_cons in Hn as [Hr Hn]. inversion_clear Hf as [|?? Hi Hf'].
  destruct (IH Hn Hf') as [IHn IHf]. destruct (f r); [|done]. split; [|by constructor].
  cbn. apply list.NoDup_cons. split; [|done]. intros Hin. apply Hr. apply list_elem_of_In in Hin. apply list_elem_of_In.
  apply in_map_iff in Hin as (x & Hx & Hin). apply filter_In in Hin as [Hin _]. apply in_map_iff. eauto.
Qed.
Lemma filter_path_gone path records :
  path ∉ map mr_path (List.filter (fun r => negb (str_eqb (mr_path r) path)) records).
Proof.
  rewrite list_elem_of_In, in_map_iff. intros (r & Hr & Hin). apply filter_In in Hin as [_ Hin].
  by rewrite Hr, str_eqb_refl in Hin.
Qed.

Section Receipts.
Context `{EffectEnv}.
Lemma receipt_path_refines tool path after l :
  receipt_only (ml_records l) ->
  receipt_only (ml_records (observe_receipt_path tool path after l))
  /\ workspace_of (observe_receipt_path tool path after l)
     = spec_change (workspace_of l) (mkChange path None after).
Proof.
  intros Hro. unfold observe_receipt_path, spec_change, tracked. cbn [pc_path pc_after].
  destruct (str_eqb path [] || is_harness_path path); cbn [negb]; [done|].
  destruct (existsb _ (ml_records l)) eqn:Ex.
  - split; [done|]. apply existsb_exists in Ex as (r & Hin & Hr). rewrite andb_true_iff, str_eqb_spec, bool_decide_eq_true in Hr.
    destruct Hr as [<- Hi]. symmetry. apply insert_id, elem_of_list_to_map_1.
    + destruct Hro as [Hn Hf]. change (@fmap list list_fmap) with (@map). by rewrite typed_fst.
    + apply list_elem_of_omap. exists r. split; [by apply list_elem_of_In|]. unfold typed_entry. by rewrite Hi.
  - set (kept := List.filter _ _). set (new := mkRecord _ _ _ _).
    assert (Hk : receipt_only (new :: kept)).
    { destruct (filter_receipt_only (fun r => negb (str_eqb (mr_path r) path)) _ Hro) as [Hn Hf]. split.
      - cbn. apply list.NoDup_cons. split; [apply filter_path_gone|done].
      - constructor; [by eexists|done]. }
    assert (Hp : new :: kept ≡ₚ sort_by record_leb (kept ++ [new]))
      by (rewrite sort_by_perm; apply Permutation_cons_append).
    unfold workspace_of, rehash. cbn [ml_records set_records]. split; [by apply (receipt_only_perm (new :: kept))|].
    rewrite <-(workspace_perm (new :: kept)) by done. cbn [omap list_omap]. cbn. unfold kept.
    rewrite workspace_without. apply insert_delete_eq.
Qed.
Lemma changes_refine tool cs l :
  receipt_only (ml_records l) ->
  receipt_only (ml_records (observe_changes tool cs l))
  /\ workspace_of (observe_changes tool cs l) = spec_changes cs (workspace_of l).
Proof.
  revert l. induction cs as [|c cs IH]; intros l Hro; [done|]. cbn.
  destruct (receipt_path_refines tool (pc_path c) (pc_after c) l Hro) as [H1 H2].
  destruct (IH _ H1) as [H3 H4]. split; [done|]. unfold observe_changes in H4. rewrite H4, H2. done.
Qed.

(** *** Runs of receipts *)
Inductive ReceiptEvent : Type :=
| ToolReceipt (tool : str) (result : ToolExecutionResultV1)
| BackgroundReceipt (key : str) (effects : ToolEffectObservationV1).
Definition apply_event (l : MutationLedger) (e : ReceiptEvent) : MutationLedger :=
  match e with
  | ToolReceipt tool result => observe_tool_receipt tool result l
  | BackgroundReceipt key effects => observe_background_receipt key effects l
  end.
Definition project (events : list ReceiptEvent) : MutationLedger := fold_left apply_event events empty_ledger.

(** The specification: a receipt counts once, by its key, and overwrites the
    identities of the paths it names. *)
Definition spec_event (st : keys * keys * Workspace) (e : ReceiptEvent) : keys * keys * Workspace :=
  let '(tools, background, w) := st in
  match e with
  | ToolReceipt _ result =>
      match (if result_valid result then identity_key (tr_identity result) else None) with
      | Some key => if bool_decide (key ∈ tools) then st
                    else ({[ key ]} ∪ tools, background, spec_changes (ef_changes (tr_effects result)) w)
      | None => st
      end
  | BackgroundReceipt key effects =>
      if str_eqb (trim key) [] || negb (effects_valid effects) || bool_decide (key ∈ background) then st
      else (tools, {[ key ]} ∪ background, spec_changes (ef_changes effects) w)
  end.
Definition view (l : MutationLedger) : keys * keys * Workspace :=
  (ml_applied_tool l, ml_applied_background l, workspace_of l).

Lemma changes_applied tool cs l :
  ml_applied_tool (observe_changes tool cs l) = ml_applied_tool l
  /\ ml_applied_background (observe_changes tool cs l) = ml_applied_background l.
Proof.
  revert l. induction cs as [|c cs IH]; intros l; [done|]. cbn.
  destruct (IH (observe_receipt_path tool (pc_path c) (pc_after c) l)) as [H1 H2]. unfold observe_changes in H1, H2.
  rewrite H1, H2. unfold observe_receipt_path. by repeat case_match.
Qed.
Lemma event_refines e l :
  receipt_only (ml_records l) ->
  receipt_only (ml_records (apply_event l e)) /\ view (apply_event l e) = spec_event (view l) e.
Proof.
  intros Hro. destruct e as [tool result|key effects]; cbn [apply_event spec_event view].
  - unfold observe_tool_receipt. destruct (result_valid result); cbn [negb]; [|done].
    destruct (identity_key (tr_identity result)) as [key|]; [|done].
    destruct (bool_decide (key ∈ ml_applied_tool l)); [done|].
    set (l1 := set_applied _ _ _).
    destruct (changes_refine tool (ef_changes (tr_effects result)) l1 Hro) as [H1 H2].
    destruct (changes_applied tool (ef_changes (tr_effects result)) l1) as [H3 H4].
    unfold view, workspace_of in *. cbn in H2, H3, H4.
    destruct (result_uncertain result); cbn; rewrite ?H2, ?H3, ?H4; done.
  - unfold observe_background_receipt. destruct (str_eqb (trim key) []); [done|].
    destruct (effects_valid effects); cbn [negb orb]; [|done].
    destruct (bool_decide (key ∈ ml_applied_background l)); [done|].
    set (l1 := set_applied _ _ _).
    destruct (changes_refine $"background" (ef_changes effects) l1 Hro) as [H1 H2].
    destruct (changes_applied $"background" (ef_changes effects) l1) as [H3 H4].
    unfold view, workspace_of in *. cbn in H2, H3, H4.
    destruct (ef_incomplete effects); cbn; rewrite ?H2, ?H3, ?H4; done.
Qed.
Lemma project_from events l :
  receipt_only (ml_records l) ->
  receipt_only (ml_records (fold_left apply_event events l))
  /\ view (fold_left apply_event events l) = fold_left spec_event events (view l).
Proof.
  revert l. induction events as [|e events IH]; intros l Hro; [done|]. cbn.
  destruct (event_refines e l Hro) as [H1 H2]. destruct (IH _ H1) as [H3 H4]. split; [done|]. by rewrite H4, H2.
Qed.
Lemma project_receipt_only events : receipt_only (ml_records (project events)).
Proof. apply project_from. split; constructor. Qed.
Lemma project_run events : ledger_run empty_ledger (project events).
Proof.
  unfold project. generalize empty_ledger. induction events as [|e events IH]; intros l; cbn; [done|].
  eapply rtc_l; [|apply IH]. destruct e; cbn; constructor.
Qed.

(** C16. A ledger fed by receipts refines a finite map: whatever the sequence of
    tool and background receipts, each counts once by its key and the ledger
    holds, for every path any of them named outside the harness's own
    directories, exactly the identity the last of them reported. *)
Theorem receipts_refine_map (events : list ReceiptEvent) :
  (NoDup (map mr_path (ml_records (project events)))
   /\ Forall (fun r => is_Some (mr_after_identity r)) (ml_records (project events)))
  /\ view (project events) = fold_left spec_event events (∅, ∅, ∅).
Proof.
  destruct (project_from events empty_ledger) as [H1 H2]; [split; constructor|]. split; [done|]. exact H2.
Qed.
End Receipts.

(** ** The digest identifies the workspace state *)
Lemma typed_entry_state records :
  omap typed_entry records
  = omap (fun s => match snd s with inl after => Some (fst s, after) | inr _ => None end) (map record_state records).
Proof.
  induction records as [|r records IH]; [done|]. rewrite omap_entry, IH. cbn. unfold typed_entry.
  by destruct (mr_after_identity r).
Qed.
Lemma typed_state records :
  Forall (fun r => is_Some (mr_after_identity r)) records ->
  map record_state records = map (fun e => (fst e, inl (snd e))) (omap typed_entry records).
Proof.
  induction 1 as [|r records [i Hi] _ IH]; [done|]. rewrite omap_entry. unfold typed_entry at 1. rewrite Hi. cbn.
  rewrite <-IH. f_equal. unfold record_state. by rewrite Hi.
Qed.
Lemma entries_sorted records :
  ordered_records records ->
  StronglySorted (fun a b => str_leb (fst a) (fst b) = true) (omap typed_entry records).
Proof.
  induction 1 as [|r records Hs IH Hr]; [constructor|]. rewrite omap_entry. unfold typed_entry at 1.
  destruct (mr_after_identity r) as [i|]; cbn; [|done]. constructor; [done|]. apply List.Forall_forall.
  intros [p j] Hin. apply list_elem_of_In, list_elem_of_omap in Hin as (x & Hx & He). cbn.
  rewrite List.Forall_forall in Hr. apply list_elem_of_In in Hx. apply Hr, record_leb_path in Hx.
  unfold typed_entry in He. destruct (mr_after_identity x); [|done]. cbn in He. by injection He as <- _.
Qed.
Lemma same_map_same_state r1 r2 :
  receipt_only r1 -> receipt_only r2 -> ordered_records r1 -> ordered_records r2 ->
  list_to_map (M := Workspace) (omap typed_entry r1) = list_to_map (omap typed_entry r2) ->
  map record_state r1 = map record_state r2.
Proof.
  intros [Hn1 Hf1] [Hn2 Hf2] Ho1 Ho2 Hm. rewrite !typed_state by done. f_equal.
  assert (Hp : omap typed_entry r1 ≡ₚ omap typed_entry r2).
  { apply (list_to_map_inj (M := gmap (list Z))); [..|done]; change (@fmap list list_fmap) with (@map); by rewrite typed_fst. }
  eapply StronglySorted_unique_strong; [|by apply entries_sorted..|done].
  intros [p i] [q j] Hi Hj H1 H2. cbn in H1, H2. pose proof (str_leb_antisymm _ _ H1 H2) as ->. f_equal.
  rewrite <-Hp in Hj. assert (Hn : NoDup (map fst (omap typed_entry r1))) by by rewrite typed_fst.
  apply (elem_of_list_to_map_1 (M := gmap (list Z))) in Hi, Hj; [congruence|done..].
Qed.
Lemma has_typed_nonempty records : receipt_only records -> has_typed records = negb (bool_decide (records = [])).
Proof.
  intros [_ Hf]. destruct records as [|r records]; [done|]. inversion_clear Hf as [|?? [i Hi] _]. cbn. by rewrite Hi.
Qed.
Lemma canonical_identifies r1 r2 :
  receipt_only r1 -> receipt_only r2 -> ordered_records r1 -> ordered_records r2 ->
  Forall record_ok r1 -> Forall record_ok r2 ->
  effect_canonical r1 = effect_canonical r2 <->
  list_to_map (M := Workspace) (omap typed_entry r1) = list_to_map (omap typed_entry r2).
Proof.
  intros H1 H2 O1 O2 V1 V2. unfold effect_canonical. rewrite !has_typed_nonempty by done. split.
  - intros E. rewrite !typed_entry_state. do 2 f_equal.
    destruct r1 as [|a r1], r2 as [|b r2]; cbn [negb] in E; [done|discriminate E|discriminate E|].
    apply canonical_records_inj; [done..|]. by apply app_inv_head in E.
  - intros Hm. pose proof (same_map_same_state r1 r2 H1 H2 O1 O2 Hm) as Hs.
    assert (typed_canonical r1 = typed_canonical r2 /\ (r1 = [] <-> r2 = [])) as [-> Hnil].
    { split; [by unfold typed_canonical; rewrite (canonical_records_state r1 r2)|]. by destruct r1, r2. }
    destruct r1, r2; naive_solver.
Qed.

Section Identify.
Context `{EffectEnv}.
(** C15. The digest identifies the observed workspace: two ledgers fed by any two
    sequences of receipts hash the same bytes exactly when they hold the same map
    from paths to file identities, so the order of receipts, the tools that
    reported and repetitions never matter, and no two different states share the
    hashed bytes. *)
Theorem digest_identifies_workspace (e1 e2 : list ReceiptEvent) :
  Forall record_ok (ml_records (project e1)) -> Forall record_ok (ml_records (project e2)) ->
  effect_canonical (ml_records (project e1)) = effect_canonical (ml_records (project e2))
  <-> workspace_of (project e1) = workspace_of (project e2).
Proof.
  intros V1 V2. apply canonical_identifies; auto using project_receipt_only;
    apply (run_wf empty_ledger); auto using project_run, empty_wf.
Qed.
End Identify.
