(* ===== verification/Receipts.v ===== *)
(** Tool receipts as a projection of the session's log ([fact_control/receipts.rs],
    [receipts/cache_proof.rs], [recovery_unproved.rs], and the parts of
    [tool_results.rs], [history_seed.rs] and [tools/builtin/background.rs] they
    use): what the log proves of the workspace, what it leaves uncertain, and the
    cursor that checks a cached claim against it. *)
From stdpp Require Import gmap.
From S2P Require Import Prelude Text Paths Shell Verification Planning Goal GoalLog Effects Ledger.

(** ** JSON readings *)
Definition jis_null (v : json) : bool := match v with JNull => true | _ => false end.
(** [Value::as_i64] *)
Definition jas_i64 (v : json) : option Z :=
  match v with
  | JNumber (c :: digits) =>
      if c =? c_dash then
        n ← parse_decimal digits; if (1 <=? n) && (n <=? 2 ^ 63) then Some (- n) else None
      else n ← parse_decimal (c :: digits); if n <? 2 ^ 63 then Some n else None
  | _ => None
  end.
Definition jget_bool (key : str) (v : json) : option bool := jget key v ≫= jas_bool.
(** [u64::from_str]: an optional plus sign and digits, in range. *)
Definition parse_u64 (s : str) : option Z :=
  n ← parse_decimal (match strip_prefix [c_plus] s with Some digits => digits | None => s end);
  if n <=? u64_max then Some n else None.
Definition saturating_add (a b : Z) : Z := Z.min u64_max (a + b).

(** *** What [serde_json::from_value] accepts for derived types *)

(** A struct: an object, or an array of its fields in order. *)
Definition struct_view (names : list string) (v : json) : option json :=
  match v with
  | JObject _ => Some v
  | JArray items => if (length items <=? length names)%nat then Some (JObject (zip (map lit names) items)) else None
  | _ => None
  end.
(** A unit variant: its name, or an object from its name to null. *)
Definition unit_variant (v : json) : option str :=
  match v with
  | JString s => Some s
  | JObject [(s, JNull)] => Some s
  | _ => None
  end.

(** ** The result envelope ([tool_results.rs]) *)
Definition FACT_TOOL_RESULT_KIND : str := $"a3s.fact_tool_result".
Record FactToolResultEnvelope : Type := mkEnvelope {
  en_text : str; en_is_error : bool; en_images : list (str * str); en_exit_code : option Z;
  en_outcome : option ToolExecutionOutcome; en_workspace_child : option str;
  en_observation_incomplete : bool; en_metadata : option json;
}.
(** A serde [Option] field: absent and null are [None], a wrong type an error. *)
Definition optional_field {A} (f : json -> option A) (key : str) (v : json) : option (option A) :=
  match jget key v with
  | None | Some JNull => Some None
  | Some w => option_map Some (f w)
  end.
(** A field with [#[serde(default)]]. *)
Definition default_field {A} (f : json -> option A) (d : A) (key : str) (v : json) : option A :=
  match jget key v with None => Some d | Some w => f w end.
Definition list_of {A} (f : json -> option A) (v : json) : option (list A) := jas_array v ≫= mapM f.
Definition image_of (v : json) : option (str * str) :=
  v ← struct_view ["media_type"; "data"] v;
  media ← jget_str $"media_type" v; data ← jget_str $"data" v; Some (media, data).
Definition i32_of (v : json) : option Z :=
  n ← jas_i64 v; if (- 2 ^ 31 <=? n) && (n <? 2 ^ 31) then Some n else None.

Section Envelope.
Context `{EffectEnv} (parse_outcome : json -> option ToolExecutionOutcome).
Definition envelope_of (v : json) : option FactToolResultEnvelope :=
  text ← jget_str $"text" v;
  is_error ← jget_bool $"is_error" v;
  images ← default_field (list_of image_of) [] $"images" v;
  exit_code ← optional_field i32_of $"exit_code" v;
  outcome ← optional_field parse_outcome $"outcome" v;
  workspace_child ← optional_field jas_str $"workspace_child" v;
  observation_incomplete ← default_field jas_bool false $"observation_incomplete" v;
  metadata ← optional_field Some $"metadata" v;
  Some (mkEnvelope text is_error images exit_code outcome workspace_child observation_incomplete metadata).
Definition decode_fact_tool_result (body : str) : option FactToolResultEnvelope :=
  value ← json_parse body;
  if negb (bool_decide (jget_str $"kind" value = Some FACT_TOOL_RESULT_KIND)) then None
  else envelope_of value.
End Envelope.

(** ** Recorded calls ([history_seed.rs]) *)
Record RecordedCall : Type := mkCall { rc_id : str; rc_name : str; rc_args : json }.
Definition recorded_call_from (call : json) : RecordedCall :=
  mkCall (default $"tool" (jget_str $"id" call)) (default $"tool" (jget_str $"name" call))
         (default (JObject []) (jget $"args" call)).

(** ** Background terminals ([tools/builtin/background.rs]) *)
Module Dispositions.
Inductive BackgroundDisposition : Type := Completed | Cancelled | Failed | TimedOut | Unknown.
End Dispositions.
Definition disposition_parse (s : str) : option Dispositions.BackgroundDisposition :=
  if str_eqb s $"completed" then Some Dispositions.Completed
  else if str_eqb s $"cancelled" then Some Dispositions.Cancelled
  else if str_eqb s $"failed" then Some Dispositions.Failed
  else if str_eqb s $"timed_out" then Some Dispositions.TimedOut
  else if str_eqb s $"unknown" then Some Dispositions.Unknown
  else None.
Module Bases.
Inductive ProcessSettlementBasis : Type := ExecutionReturned | BackendDropContract | Unproven | AdmissionRefused.
End Bases.
Definition basis_parse (s : str) : option Bases.ProcessSettlementBasis :=
  if str_eqb s $"execution_returned" then Some Bases.ExecutionReturned
  else if str_eqb s $"backend_drop_contract" then Some Bases.BackendDropContract
  else if str_eqb s $"unproven" then Some Bases.Unproven
  else if str_eqb s $"admission_refused" then Some Bases.AdmissionRefused
  else None.
(** A non-negative exit code that fits an [i32]. *)
Definition exit_code_ok (v : json) : bool :=
  match jas_i64 v with Some code => (0 <=? code) && (code <? 2 ^ 31) | None => false end.

Definition background_terminal_fields_valid (payload : json) : bool :=
  forallb (fun name => match jget_bool (lit name) payload with Some _ => true | None => false end)
    ["process_settled"; "execution_future_released"; "output_facts_retained"; "observation_incomplete";
     "timed_out"; "cancelled"; "output_complete"]
  && match jget_str $"disposition" payload with
     | Some v => match disposition_parse v with Some _ => true | None => false end
     | None => false
     end
  && match jget_str $"process_settlement_basis" payload with
     | Some v => match basis_parse v with Some _ => true | None => false end
     | None => false
     end
  && match jget $"exit_code" payload with Some v => jis_null v || exit_code_ok v | None => false end
  && forallb (fun name => match jget_str (lit name) payload with Some v => negb (str_eqb v []) | None => false end)
       ["source_run"; "run"].
Definition flag_is (payload : json) (name : string) (b : bool) : bool :=
  bool_decide (jget_bool (lit name) payload = Some b).
Definition background_terminal_settled (payload : json) : bool :=
  let disposition := jget_str $"disposition" payload ≫= disposition_parse in
  let basis := jget_str $"process_settlement_basis" payload ≫= basis_parse in
  let flag := flag_is payload in
  if negb (flag "process_settled" true) || negb (flag "execution_future_released" true)
     || negb (flag "output_facts_retained" true) || negb (flag "observation_incomplete" false)
     || negb (flag "timed_out" false)
  then false
  else match disposition, basis with
  | Some Dispositions.Completed, Some Bases.ExecutionReturned =>
      flag "cancelled" false && flag "output_complete" true
      && match jget $"exit_code" payload with Some v => exit_code_ok v | None => false end
  | Some Dispositions.Cancelled, Some Bases.BackendDropContract =>
      flag "cancelled" true && flag "output_complete" false
      && match jget $"exit_code" payload with Some v => jis_null v | None => false end
  | Some Dispositions.Failed, Some Bases.AdmissionRefused =>
      flag "cancelled" false && flag "output_complete" false
      && match jget $"exit_code" payload with Some v => jis_null v | None => false end
  | _, _ => false
  end.

(** [model_position] *)
Definition model_position (key : str) : option (Z * Z) :=
  match split_on c_colon key with
  | [head; turn; cycle] =>
      if str_eqb head $"model" then turn ← parse_u64 turn; cycle ← parse_u64 cycle; Some (turn, cycle) else None
  | _ => None
  end.
Definition result_key (turn cycle : Z) (id : str) : str :=
  $"tool-result:" ++ show turn ++ $":" ++ show cycle ++ $":" ++ id.
Definition display_key (i : ToolInvocationIdentityV1) : str :=
  result_key (ii_turn i) (saturating_add (ii_cycle i) (ii_batch_index i)) (ii_tool_call_id i).

(** ** Sessions and threads ([fact_control.rs]) *)
Definition thread_char (c : char) : bool :=
  is_ascii_alphanumeric c || (c =? c_underscore) || (c =? c_dot) || (c =? c_colon) || (c =? c_dash).
Definition hex_digit (n : Z) : Z := if n <? 10 then 48 + n else 87 + n.
Definition hex_byte (b : Z) : str := [hex_digit (b / 16); hex_digit (b mod 16)].
Definition thread_for_session (session_id : str) : str :=
  if negb (str_eqb session_id []) && (len session_id <=? 128) && forallb thread_char session_id then session_id
  else take 128 ($"s-" ++ concat (map hex_byte (utf8 session_id))).

(** ** Recovery gaps ([recovery_unproved.rs]) *)
Definition RECOVERY_UNPROVED_FACT_KIND : str := $"recovery.unproved".
Definition RECOVERY_UNPROVED_SCHEMA : str := $"a3s.code.recovery-unproved.v1".
Definition LOOP_CHECKPOINT_SCHEMA_VERSION : Z := 1.
Record RecoveryUnprovedV1 : Type := mkRecovery {
  ru_schema : str; ru_session_id : str; ru_thread_id : str; ru_source_run_id : str;
  ru_version : Z; ru_content_digest : str; ru_binding_digest : option str;
}.
Inductive RecoveryUnprovedError : Type := RecoveryInvalid | RecoverySchemaUnsupported.
Definition recovery_code (e : RecoveryUnprovedError) : str :=
  match e with
  | RecoveryInvalid => $"tool_effect_recovery_unproved_invalid"
  | RecoverySchemaUnsupported => $"tool_effect_recovery_unproved_schema_unsupported"
  end.
Definition MAX_ID_BYTES : Z := 256.
Definition checkpoint_id_ok (value : str) : bool :=
  negb (str_eqb (trim value) [] || (MAX_ID_BYTES <? len value) || existsb is_control value).
(** [deny_unknown_fields]; the binding is nullable but required. *)
Definition RECOVERY_FIELDS : list string :=
  ["schema"; "session_id"; "thread_id"; "source_run_id"; "source_checkpoint_schema_version";
   "source_checkpoint_content_digest"; "source_capability_binding_digest"; "reason"].
Definition recovery_of (v : json) : option RecoveryUnprovedV1 :=
  v ← struct_view RECOVERY_FIELDS v;
  fields ← (match v with JObject fields => Some fields | _ => None end);
  if negb (forallb (fun kv => one_of (fst kv) RECOVERY_FIELDS) fields) then None
  else
    schema ← jget_str $"schema" v;
    session ← jget_str $"session_id" v;
    thread ← jget_str $"thread_id" v;
    run ← jget_str $"source_run_id" v;
    version ← jget $"source_checkpoint_schema_version" v ≫= jas_u64;
    content ← jget_str $"source_checkpoint_content_digest" v;
    binding ← (match jget $"source_capability_binding_digest" v with
               | None => None
               | Some JNull => Some None
               | Some w => option_map Some (jas_str w)
               end);
    reason ← jget_str $"reason" v;
    if (version <=? u32_max) && str_eqb reason $"cache_evidence_missing"
    then Some (mkRecovery schema session thread run version content binding) else None.
Definition recovery_validate (r : RecoveryUnprovedV1) : RecoveryUnprovedError + unit :=
  if negb (str_eqb (ru_schema r) RECOVERY_UNPROVED_SCHEMA) then inl RecoverySchemaUnsupported
  else if checkpoint_id_ok (ru_session_id r) && checkpoint_id_ok (ru_thread_id r)
          && str_eqb (ru_thread_id r) (thread_for_session (ru_session_id r))
          && checkpoint_id_ok (ru_source_run_id r)
          && (ru_version r <=? LOOP_CHECKPOINT_SCHEMA_VERSION)
          && validate_digest (ru_content_digest r)
          && match ru_binding_digest r with Some d => validate_digest d | None => true end
  then inr tt else inl RecoveryInvalid.

(** ** The debt a log leaves *)
Inductive ReceiptProjection : Type := ProjectTool (index : nat) | ProjectBackground (index : nat).
Inductive CacheProofOperation : Type :=
| Prepared (key : str) | Terminal (key : str) | AssertedUncertainty (key : str)
| BackgroundReady (key : str) | ChildSettled (key : str).
Definition phase (op : CacheProofOperation) : nat :=
  match op with
  | Prepared _ => 0 | Terminal _ => 1 | AssertedUncertainty _ | BackgroundReady _ => 2 | ChildSettled _ => 3
  end%nat.
Record CacheProofEvent : Type := mkProofEvent { pe_index : nat; pe_operation : CacheProofOperation }.
Record ValidatedUncertaintySource : Type := mkSourceOf {
  us_index : nat; us_key : str; us_background_key : option str;
}.
Record ReceiptDebt : Type := mkDebt {
  rd_paths : list str;
  rd_results : list (str * ToolExecutionResultV1);
  rd_background_results : list (str * ToolEffectObservationV1);
  rd_projection_order : list ReceiptProjection;
  rd_unresolved : keys;
  rd_integrity_invalid : bool;
  rd_validated : keys;
  rd_sources : list ValidatedUncertaintySource;
  rd_tool_fact_indices : list nat;
  rd_background_fact_indices : list nat;
}.
Definition empty_debt : ReceiptDebt := mkDebt [] [] [] [] ∅ false ∅ [] [] [].
Definition add_source (source : ValidatedUncertaintySource) (d : ReceiptDebt) : ReceiptDebt :=
  mkDebt (rd_paths d) (rd_results d) (rd_background_results d) (rd_projection_order d)
         ({[ us_key source ]} ∪ rd_unresolved d) (rd_integrity_invalid d) ({[ us_key source ]} ∪ rd_validated d)
         (rd_sources d ++ [source]) (rd_tool_fact_indices d) (rd_background_fact_indices d).
Definition add_validated_uncertainty (index : nat) (key : str) (d : ReceiptDebt) : ReceiptDebt :=
  add_source (mkSourceOf index key None) d.
Definition add_validated_background_uncertainty (index : nat) (fact_key key : str) (d : ReceiptDebt) : ReceiptDebt :=
  add_source (mkSourceOf index key (Some fact_key)) d.
Definition invalidate_evidence (key : str) (d : ReceiptDebt) : ReceiptDebt :=
  mkDebt (rd_paths d) (rd_results d) (rd_background_results d) (rd_projection_order d)
         ({[ key ]} ∪ rd_unresolved d) true (rd_validated d) (rd_sources d)
         (rd_tool_fact_indices d) (rd_background_fact_indices d).
Definition add_paths (paths : list str) (d : ReceiptDebt) : ReceiptDebt :=
  mkDebt (rd_paths d ++ paths) (rd_results d) (rd_background_results d) (rd_projection_order d)
         (rd_unresolved d) (rd_integrity_invalid d) (rd_validated d) (rd_sources d)
         (rd_tool_fact_indices d) (rd_background_fact_indices d).
(** Projecting one tool result, one background result. *)
Definition add_result (index : nat) (tool : str) (result : ToolExecutionResultV1) (d : ReceiptDebt) : ReceiptDebt :=
  mkDebt (rd_paths d ++ map pc_path (ef_changes (tr_effects result))) (rd_results d ++ [(tool, result)])
         (rd_background_results d) (rd_projection_order d ++ [ProjectTool (length (rd_results d))])
         (rd_unresolved d) (rd_integrity_invalid d) (rd_validated d) (rd_sources d)
         (rd_tool_fact_indices d ++ [index]) (rd_background_fact_indices d).
Definition add_background (index : nat) (key : str) (effects : ToolEffectObservationV1) (d : ReceiptDebt) : ReceiptDebt :=
  mkDebt (rd_paths d) (rd_results d) (rd_background_results d ++ [(key, effects)])
         (rd_projection_order d ++ [ProjectBackground (length (rd_background_results d))])
         (rd_unresolved d) (rd_integrity_invalid d) (rd_validated d) (rd_sources d)
         (rd_tool_fact_indices d) (rd_background_fact_indices d ++ [index]).

(** The locals of the fold, in groups. *)
Record TypedCalls : Type := mkTyped {
  tc_prepared : gmap (list Z) ToolPreparedV1;
  tc_terminals : gmap (list Z) ToolExecutionResultV1;
  tc_prepared_indices : gmap (list Z) nat;
  tc_terminal_indices : gmap (list Z) nat;
}.
Record LegacyCalls : Type := mkLegacy {
  lc_calls : gmap (list Z) RecordedCall;
  lc_results : keys;
  lc_active : list str;
  lc_confirmation : keys;
  lc_refused : keys;
  lc_protocol_one : keys;
}.
Abbreviation Binding := (option (str * str)).
Record Children : Type := mkChildren {
  ch_bindings : gmap (list Z) Binding;
  ch_binding_indices : gmap (list Z) nat;
  ch_background : gmap (list Z) Binding;
  ch_requirements : list (str * nat * str * bool);
  ch_settled_claims : keys;
}.
Record Fold : Type := mkFold { fo_debt : ReceiptDebt; fo_typed : TypedCalls; fo_legacy : LegacyCalls; fo_children : Children }.
Definition empty_fold : Fold :=
  mkFold empty_debt (mkTyped ∅ ∅ ∅ ∅) (mkLegacy ∅ ∅ [] ∅ ∅ ∅) (mkChildren ∅ ∅ ∅ [] ∅).
Definition on_debt (f : ReceiptDebt -> ReceiptDebt) (st : Fold) : Fold :=
  mkFold (f (fo_debt st)) (fo_typed st) (fo_legacy st) (fo_children st).
Definition on_legacy (f : LegacyCalls -> LegacyCalls) (st : Fold) : Fold :=
  mkFold (fo_debt st) (fo_typed st) (f (fo_legacy st)) (fo_children st).
Definition on_children (f : Children -> Children) (st : Fold) : Fold :=
  mkFold (fo_debt st) (fo_typed st) (fo_legacy st) (f (fo_children st)).
Definition set_typed (t : TypedCalls) (st : Fold) : Fold := mkFold (fo_debt st) t (fo_legacy st) (fo_children st).
Definition set_active (active : list str) (l : LegacyCalls) : LegacyCalls :=
  mkLegacy (lc_calls l) (lc_results l) active (lc_confirmation l) (lc_refused l) (lc_protocol_one l).

(** [entry(key).or_insert(index)] *)
Definition or_insert (key : str) (index : nat) (m : gmap (list Z) nat) : gmap (list Z) nat :=
  match m !! key with Some _ => m | None => <[key := index]> m end.

Section Fold.
Context `{EffectEnv} `{GoalEnv} (parse_outcome : json -> option ToolExecutionOutcome)
        (recovery_digest : RecoveryUnprovedV1 -> option str).
Local Abbreviation payload f := (payload_json (f_payload f)).

(** *** Recovery gaps *)
Definition recovery_key (r : RecoveryUnprovedV1) : RecoveryUnprovedError + str :=
  match recovery_validate r with
  | inl e => inl e
  | inr _ => match recovery_digest r with
             | Some digest => inr ($"recovery-unproved:" ++ digest)
             | None => inl RecoveryInvalid
             end
  end.
Definition validate_stored_fact (f : Fact) : RecoveryUnprovedError + str :=
  if negb (str_eqb (f_kind f) RECOVERY_UNPROVED_FACT_KIND) || f_has_cause f then inl RecoveryInvalid
  else match recovery_of (payload f) with
  | None => inl RecoveryInvalid
  | Some value =>
      match recovery_key value with
      | inl e => inl e
      | inr expected => if str_eqb (f_key f) expected then inr expected else inl RecoveryInvalid
      end
  end.
Definition fold_recovery (index : nat) (f : Fact) : Fold -> Fold :=
  on_debt (match validate_stored_fact f with
           | inr key => add_validated_uncertainty index key
           | inl error => invalidate_evidence ($"invalid-recovery-unproved:" ++ show (f_seq f) ++ $":" ++ recovery_code error)
           end).

(** *** Preparations *)
Definition stored_preparation (f : Fact) : option (str * ToolPreparedV1) :=
  value ← jget $"prepared" (payload f) ≫= parse_prepared;
  if prepared_valid value then key ← identity_key (tp_identity value); Some (key, value) else None.
Definition fold_prepared (index : nat) (f : Fact) (st : Fold) : Fold :=
  match stored_preparation f with
  | None => on_debt (invalidate_evidence ($"invalid-preparation:" ++ show (f_seq f))) st
  | Some (key, value) =>
      let t := fo_typed st in
      let conflict := match tc_prepared t !! key with
                      | Some earlier => negb (bool_decide (earlier = value))
                      | None => false
                      end in
      let st := if conflict then on_debt (invalidate_evidence ($"conflicting-preparation:" ++ key)) st else st in
      set_typed (mkTyped (<[key := value]> (tc_prepared t)) (tc_terminals t)
                         (or_insert key index (tc_prepared_indices t)) (tc_terminal_indices t)) st
  end.

(** *** Typed terminals *)

(** A stored result with the preparation it belongs to. *)
Definition stored_terminal (t : TypedCalls) (result : ToolExecutionResultV1) : option (str * ToolPreparedV1) :=
  key ← identity_key (tr_identity result);
  value ← tc_prepared t !! key;
  if ensure_prepared result value then Some (key, value) else None.
Definition metadata_str (envelope : option FactToolResultEnvelope) (name : string) : option str :=
  e ← envelope; metadata ← en_metadata e; jget_str (lit name) metadata.
(** Which runs a live child of a result is bound to. *)
Definition child_binding (result : ToolExecutionResultV1) (child : str) : Binding :=
  let envelope := jas_str (tr_output result) ≫= decode_fact_tool_result parse_outcome in
  let source_run := metadata_str envelope "source_run" in
  let effect_run := metadata_str envelope "run" in
  admission ← ii_admission (tr_identity result);
  if bool_decide (Some (ad_run_id admission) = source_run)
     && bool_decide ((envelope ≫= en_workspace_child) = strip_prefix CHILD_PREFIX child)
  then source ← source_run; effect ← effect_run; Some (source, effect)
  else None.
Definition bind_child (index : nat) (result : ToolExecutionResultV1) (st : Fold) (child : str) : Fold :=
  let binding := child_binding result child in
  let c := fo_children st in
  let conflict := match ch_bindings c !! child with
                  | Some previous => negb (bool_decide (previous = binding))
                  | None => false
                  end in
  let st := if conflict then on_debt (invalidate_evidence ($"background-binding-conflict:" ++ child)) st else st in
  on_children (fun c => mkChildren (<[child := binding]> (ch_bindings c))
    (match binding with Some _ => or_insert child index (ch_binding_indices c) | None => ch_binding_indices c end)
    (ch_background c) (ch_requirements c) (ch_settled_claims c)) st.
Definition fold_terminal (include_covered : bool) (covered : list str) (index : nat) (f : Fact) (receipt : json)
    (st : Fold) : Fold :=
  match parse_result receipt with
  | None => on_debt (invalidate_evidence ($"tool_effect_schema_unsupported:" ++ show (f_seq f))) st
  | Some result =>
      match stored_terminal (fo_typed st) result with
      | None => on_debt (invalidate_evidence ($"tool_effect_identity_mismatch:" ++ show (f_seq f))) st
      | Some (key, value) =>
          let display := display_key (tr_identity result) in
          let st := on_legacy (fun l => set_active (List.filter (fun a => negb (str_eqb a display)) (lc_active l)) l) st in
          let t := fo_typed st in
          let conflict := match tc_terminals t !! key with
                          | Some earlier => negb (bool_decide (earlier = result))
                          | None => false
                          end in
          let st := if conflict then on_debt (invalidate_evidence ($"conflicting-terminal:" ++ key)) st else st in
          let st := if result_uncertain result then on_debt (add_validated_uncertainty index key) st else st in
          let unresolved := ef_unresolved (tr_effects result) in
          let st := fold_left (fun st operation => on_debt (add_validated_uncertainty index operation) st) unresolved st in
          let st := fold_left (bind_child index result)
                      (List.filter (fun k => starts_with k CHILD_PREFIX) unresolved) st in
          let st := if include_covered || negb (existsb (str_eqb key) covered)
                    then on_debt (add_result index (tp_tool_name value) result) st else st in
          set_typed (mkTyped (tc_prepared t) (<[key := result]> (tc_terminals t)) (tc_prepared_indices t)
                             (or_insert key index (tc_terminal_indices t))) st
      end
  end.

(** *** Legacy calls and results *)
Definition turn_calls (f : Fact) : list json :=
  option_list (jget $"call" (payload f)) ++ default [] (jget $"also" (payload f) ≫= jas_array).
Definition record_call (protocol_one : bool) (turn cycle : Z) (l : LegacyCalls) (oc : nat * json) : LegacyCalls :=
  let '(offset, call) := oc in
  let requires_confirmation := bool_decide (jget_bool $"needs_confirmation" call = Some true) in
  let recorded := recorded_call_from call in
  let key := result_key turn (saturating_add cycle (Z.of_nat offset)) (rc_id recorded) in
  mkLegacy (<[key := recorded]> (lc_calls l)) (lc_results l) (lc_active l ++ [key])
           (if requires_confirmation then {[ key ]} ∪ lc_confirmation l else lc_confirmation l) (lc_refused l)
           (if protocol_one then {[ key ]} ∪ lc_protocol_one l else lc_protocol_one l).
Definition fold_model_turn (f : Fact) (st : Fold) : Fold :=
  match model_position (f_key f) with
  | None => on_debt (invalidate_evidence ($"legacy-invocation:" ++ show (f_seq f))) st
  | Some (turn, cycle) =>
      let protocol_one := bool_decide ((jget $"tool_effect_protocol" (payload f) ≫= jas_u64) = Some 1) in
      on_legacy (fun l => fold_left (record_call protocol_one turn cycle) (imap pair (turn_calls f)) (set_active [] l)) st
  end.
Definition fold_legacy_result (f : Fact) (st : Fold) : Fold :=
  let st := on_legacy (fun l => mkLegacy (lc_calls l) ({[ f_key f ]} ∪ lc_results l)
              (List.filter (fun a => negb (str_eqb a (f_key f))) (lc_active l))
              (lc_confirmation l) (lc_refused l) (lc_protocol_one l)) st in
  let st := on_debt (invalidate_evidence ($"legacy-result:" ++ show (f_seq f))) st in
  match lc_calls (fo_legacy st) !! f_key f with
  | Some call =>
      if bool_decide (jget_bool $"ok" (payload f) = Some true) && one_of (rc_name call) MUTATING_FILE_TOOLS then
        match jget_str $"file_path" (rc_args call) with
        | Some path => on_debt (add_paths [path]) st
        | None => st
        end
      else st
  | None => st
  end.
Definition call_id_is (l : LegacyCalls) (key : str) (id : option str) : bool :=
  match lc_calls l !! key with Some call => bool_decide (id = Some (rc_id call)) | None => false end.
Definition fold_refused (f : Fact) : Fold -> Fold :=
  on_legacy (fun l =>
    match lc_active l with
    | key :: rest =>
        if call_id_is l key (jget_str $"tool_call_id" (payload f)) && bool_decide (key ∈ lc_confirmation l)
        then mkLegacy (lc_calls l) (lc_results l) rest (lc_confirmation l) ({[ key ]} ∪ lc_refused l) (lc_protocol_one l)
        else l
    | [] => l
    end).
Definition fold_budget_denied (f : Fact) : Fold -> Fold :=
  on_legacy (fun l =>
    match lc_active l with
    | key :: _ =>
        if str_eqb (f_key f) (replace_first $"tool-result:" $"budget-denied:" key)
           && call_id_is l key (jget_str $"toolCallId" (payload f))
        then mkLegacy (lc_calls l) (lc_results l) [] (lc_confirmation l) (list_to_set (lc_active l) ∪ lc_refused l) (lc_protocol_one l)
        else l
    | [] => l
    end).

(** *** Background terminals *)
Definition exited (f : Fact) : bool := bool_decide (jget_str $"event" (payload f) = Some $"exited").
Definition path_set (paths : list json) : keys := list_to_set (omap jas_str paths).
Definition changed_set (effects : ToolEffectObservationV1) : keys := list_to_set (map pc_path (ef_changes effects)).
Definition background_observation (f : Fact) : option ToolEffectObservationV1 :=
  effects ← jget $"effects" (payload f) ≫= parse_effects;
  if effects_valid effects then Some effects else None.
Definition paths_match (observation : option ToolEffectObservationV1) (paths : list json) : bool :=
  match observation with
  | Some effects => (size (path_set paths) =? length paths)%nat && bool_decide (changed_set effects = path_set paths)
  | None => false
  end.
Definition task_is (f : Fact) (id : str) : bool := bool_decide (jget_str $"task_id" (payload f) = Some id).
Definition background_evidence_valid (f : Fact) (id : str) (paths : list json) : bool :=
  let observation := background_observation f in
  negb (str_eqb id []) && negb (str_eqb (trim (f_key f)) [])
  && match observation with Some _ => true | None => false end
  && paths_match observation paths && task_is f id && background_terminal_fields_valid (payload f).
Definition background_complete (f : Fact) (id : str) (paths : list json) : bool :=
  let observation := background_observation f in
  background_terminal_settled (payload f)
  && match observation with
     | Some effects => negb (ef_incomplete effects) && bool_decide (ef_unresolved effects = [])
     | None => false
     end
  && paths_match observation paths && task_is f id.
(** The runs a terminal names. *)
Definition terminal_binding (f : Fact) : Binding :=
  source ← jget_str $"source_run" (payload f); effect ← jget_str $"run" (payload f); Some (source, effect).

(** A valid terminal: its claim on the child and the uncertainty it admits. *)
Definition note_terminal (child fact_key : str) (index : nat) (complete : bool) (binding : Binding) (c : Children)
    : Children :=
  mkChildren (ch_bindings c) (ch_binding_indices c) (<[child := binding]> (ch_background c))
    (ch_requirements c ++ [(fact_key, index, child, complete)])
    (if complete then {[ child ]} ∪ ch_settled_claims c else ch_settled_claims c).
Definition background_uncertainties (f : Fact) (id : str) (complete : bool) : list str :=
  (if complete then [] else [$"background-evidence:" ++ id])
  ++ match background_observation f with
     | Some effects =>
         (if ef_incomplete effects then [$"background-receipt-incomplete:" ++ f_key f] else []) ++ ef_unresolved effects
     | None => []
     end.
Definition fold_valid_background (index : nat) (f : Fact) (id : str) (paths : list json) (st : Fold) : Fold :=
  let binding := terminal_binding f in
  let child := CHILD_PREFIX ++ id in
  let conflict := match ch_background (fo_children st) !! child with
                  | Some previous => negb (bool_decide (previous = binding))
                  | None => false
                  end in
  let st := if conflict then on_debt (invalidate_evidence ($"background-terminal-conflict:" ++ id)) st else st in
  let complete := background_complete f id paths in
  let st := fold_left (fun st key => on_debt (add_validated_background_uncertainty index (f_key f) key) st)
                      (background_uncertainties f id complete) st in
  on_children (note_terminal child (f_key f) index complete binding) st.
Definition project_background_path (id : str) (d : ReceiptDebt) (path : json) : ReceiptDebt :=
  match jas_str path with
  | Some path => add_paths [path] d
  | None => invalidate_evidence ($"background-path:" ++ id) d
  end.
Definition project_background (index : nat) (f : Fact) (id : str) (paths : list json) (d : ReceiptDebt) : ReceiptDebt :=
  let d := match background_observation f with
           | Some effects => add_background index (f_key f) effects d
           | None => d
           end in
  fold_left (project_background_path id) paths d.
Definition fold_background (include_covered : bool) (covered : list str) (index : nat) (f : Fact) (st : Fold) : Fold :=
  match jget_str $"workspace_child" (payload f), jget $"changed_paths" (payload f) ≫= jas_array with
  | Some id, Some paths =>
      let st := if background_evidence_valid f id paths then fold_valid_background index f id paths st
                else on_debt (invalidate_evidence ($"background-evidence:" ++ id)) st in
      if include_covered || negb (existsb (str_eqb (f_key f)) covered)
      then on_debt (project_background index f id paths) st else st
  | _, _ => on_debt (invalidate_evidence ($"background-terminal-invalid:" ++ show (f_seq f))) st
  end.

(** ** The fold of one fact *)

(** What the turn markers of a log say: the position after the last of them, and
    the receipts they cover. *)
Record Markers : Type := mkMarkers { mk_start : nat; mk_receipts : list str; mk_background : list str }.
Definition is_marker (f : Fact) : bool := str_eqb (f_kind f) TURN_COMPLETE_FACT_KIND.
Fixpoint after_last_marker (index : nat) (facts : list Fact) : nat :=
  match facts with
  | [] => O
  | f :: rest => Nat.max (if is_marker f then S index else O) (after_last_marker (S index) rest)
  end.
Definition marker_keys (name : string) (facts : list Fact) : list str :=
  f ← List.filter is_marker facts; omap jas_str (default [] (jget (lit name) (payload f) ≫= jas_array)).
Definition markers (facts : list Fact) : Markers :=
  mkMarkers (after_last_marker 0 facts) (marker_keys "receipt_keys" facts) (marker_keys "background_receipt_keys" facts).

Definition kind_is (f : Fact) (kind : string) : bool := str_eqb (f_kind f) (lit kind).
Definition flagged (f : Fact) (name : string) (b : bool) : bool := bool_decide (jget_bool (lit name) (payload f) = Some b).
Definition fold_fact (include_covered : bool) (m : Markers) (st : Fold) (i : nat * Fact) : Fold :=
  let '(index, f) := i in
  let current := (mk_start m <=? index)%nat in
  if str_eqb (f_kind f) RECOVERY_UNPROVED_FACT_KIND then fold_recovery index f st
  else if kind_is f "tool.prepared" then fold_prepared index f st
  else if kind_is f "tool.result" then
    match jget $"receipt" (payload f) with
    | Some receipt => fold_terminal include_covered (mk_receipts m) index f receipt st
    | None => if current || flagged f "unresolvedLegacy" true then fold_legacy_result f st else st
    end
  else if kind_is f "model.turn" then
    if current && bool_decide (jget_str $"kind" (payload f) = Some $"tool") then fold_model_turn f st else st
  else if kind_is f "confirmation.answered" then
    if current && flagged f "approved" false then fold_refused f st else st
  else if kind_is f "budget.denied" then if current then fold_budget_denied f st else st
  else if kind_is f "background.output" then
    if exited f then fold_background include_covered (mk_background m) index f st else st
  else st.
Definition fold_facts (include_covered : bool) (m : Markers) (facts : list Fact) : Fold :=
  fold_left (fold_fact include_covered m) (imap pair facts) empty_fold.

(** ** Closing the fold *)

(** The keys of a [BTreeMap], in order. *)
Definition keys_of {A} (m : gmap (list Z) A) : list str := sort_strs (map fst (map_to_list m)).
Definition entries {A} (m : gmap (list Z) A) : list (str * A) :=
  sort_by (fun a b => str_leb (fst a) (fst b)) (map_to_list m).
(** A background terminal names the runs its child was spawned with. *)
Definition binding_valid (c : Children) (child : str) : bool :=
  match ch_background c !! child with
  | Some (Some binding) => bool_decide (ch_bindings c !! child = Some (Some binding))
  | _ => false
  end.
Definition settled_children (c : Children) : keys :=
  filter (fun child => binding_valid c child = true /\ child ∈ ch_settled_claims c) (dom (ch_background c)).
Definition close_bindings (c : Children) (d : ReceiptDebt) : ReceiptDebt :=
  fold_left (fun d child => if binding_valid c child then d
                            else invalidate_evidence ($"background-terminal-unbound:" ++ child) d)
            (keys_of (ch_background c)) d.
(** When a background terminal and the spawn it answers are both on the log. *)
Record ProofIndices : Type := mkProofIndices {
  pi_background : gmap (list Z) nat; pi_settled : gmap (list Z) nat;
}.
Definition require_proof (c : Children) (p : ProofIndices) (r : str * nat * str * bool) : ProofIndices :=
  let '(fact_key, terminal_at, child, complete) := r in
  match ch_binding_indices c !! child with
  | Some spawn_at =>
      if binding_valid c child then
        let required := Nat.max terminal_at spawn_at in
        mkProofIndices (<[fact_key := required]> (pi_background p))
          (if complete then <[child := match pi_settled p !! child with
                                       | Some earlier => Nat.min earlier required
                                       | None => required
                                       end]> (pi_settled p)
           else pi_settled p)
      else p
  | None => p
  end.
Definition proof_indices (c : Children) : ProofIndices :=
  fold_left (require_proof c) (ch_requirements c) (mkProofIndices ∅ ∅).
(** A preparation without its terminal. *)
Definition mark_unterminated (t : TypedCalls) (d : ReceiptDebt) : ReceiptDebt :=
  let open : keys := dom (tc_prepared t) ∖ dom (tc_terminals t) in
  mkDebt (rd_paths d) (rd_results d) (rd_background_results d) (rd_projection_order d)
         (open ∪ rd_unresolved d) (rd_integrity_invalid d) (open ∪ rd_validated d) (rd_sources d)
         (rd_tool_fact_indices d) (rd_background_fact_indices d).
(** Typed preparations take the place of the calls they display. *)
Definition superseded (t : TypedCalls) : list str :=
  p ← map snd (map_to_list (tc_prepared t));
  let i := tp_identity p in [display_key i; result_key (ii_turn i) (ii_cycle i) (ii_tool_call_id i)].
Definition pending_calls (t : TypedCalls) (l : LegacyCalls) : list str :=
  List.filter (fun key => negb (existsb (str_eqb key) (superseded t)) && bool_decide (key ∉ lc_results l)
                          && bool_decide (key ∉ lc_refused l) && bool_decide (key ∉ lc_protocol_one l))
              (keys_of (lc_calls l)).
Definition close_legacy (pending : list str) (d : ReceiptDebt) : ReceiptDebt :=
  fold_left (fun d key => invalidate_evidence ($"legacy-pending:" ++ key) d) pending d.
Definition settle_debt (settled : keys) (d : ReceiptDebt) : ReceiptDebt :=
  mkDebt (dedup (sort_strs (List.filter (fun path => negb (is_harness_path path)) (rd_paths d))))
         (rd_results d) (rd_background_results d) (rd_projection_order d)
         (rd_unresolved d ∖ settled) (rd_integrity_invalid d) (rd_validated d ∖ settled) (rd_sources d)
         (rd_tool_fact_indices d) (rd_background_fact_indices d).
Definition close_fold (st : Fold) : ReceiptDebt :=
  let d := close_bindings (fo_children st) (fo_debt st) in
  let d := mark_unterminated (fo_typed st) d in
  let d := close_legacy (pending_calls (fo_typed st) (fo_legacy st)) d in
  settle_debt (settled_children (fo_children st)) d.

Definition fold_debt (facts : list Fact) : ReceiptDebt := close_fold (fold_facts false (markers facts) facts).
Definition settled_workspace_children (facts : list Fact) : keys :=
  settled_children (fo_children (fold_facts false (markers facts) facts)).
Definition unsettled_mutation_paths (facts : list Fact) : list str := rd_paths (fold_debt facts).
Definition has_unsettled_effects (facts : list Fact) : bool :=
  negb (bool_decide (rd_paths (fold_debt facts) = [])) || negb (bool_decide (rd_unresolved (fold_debt facts) = ∅)).

(** ** The events of a cache proof *)
Definition event_leb (a b : CacheProofEvent) : bool :=
  (pe_index a <? pe_index b)%nat
  || ((pe_index a =? pe_index b)%nat && (phase (pe_operation a) <=? phase (pe_operation b))%nat).
Definition map_events (operation : str -> CacheProofOperation) (m : gmap (list Z) nat) : list CacheProofEvent :=
  map (fun e => mkProofEvent (snd e) (operation (fst e))) (entries m).
Definition source_event (p : ProofIndices) (source : ValidatedUncertaintySource) : option CacheProofEvent :=
  let required := match us_background_key source with
                  | Some key => pi_background p !! key
                  | None => Some (us_index source)
                  end in
  option_map (fun index => mkProofEvent index (AssertedUncertainty (us_key source))) required.
Definition cache_proof_events (st : Fold) : list CacheProofEvent :=
  let p := proof_indices (fo_children st) in
  sort_by event_leb
    (map_events Prepared (tc_prepared_indices (fo_typed st))
     ++ map_events Terminal (tc_terminal_indices (fo_typed st))
     ++ omap (source_event p) (rd_sources (fo_debt st))
     ++ map_events BackgroundReady (pi_background p)
     ++ map_events ChildSettled (pi_settled p)).
(** [fold_cache_evidence]: the debt with everything covered included, and its
    proof events. *)
Definition fold_cache_evidence (facts : list Fact) : ReceiptDebt * list CacheProofEvent :=
  let st := fold_facts true (markers facts) facts in (close_fold st, cache_proof_events st).
End Fold.
