(* ===== verification/Evidence.v ===== *)
(** Verification reports on the wire, and the evidence of a goal step
    ([verification.rs], [agent/tool_result_runtime.rs],
    [fact_control/goal_evidence.rs]): a step is accepted on the receipts of the
    run it was admitted in, and on nothing else. *)
From stdpp Require Import gmap.
From S2P Require Import Prelude Text Verification Planning Goal GoalLog Effects Ledger Receipts.

(** ** Reports as JSON *)
Definition status_wire (s : VerificationStatus) : str :=
  match s with
  | Verdicts.Passed => $"passed" | Verdicts.Failed => $"failed"
  | Verdicts.NeedsReview => $"needs_review" | Verdicts.Skipped => $"skipped"
  end.
Definition status_of (v : json) : option VerificationStatus :=
  name ← unit_variant v;
  if str_eqb name $"passed" then Some Verdicts.Passed
  else if str_eqb name $"failed" then Some Verdicts.Failed
  else if str_eqb name $"needs_review" then Some Verdicts.NeedsReview
  else if str_eqb name $"skipped" then Some Verdicts.Skipped
  else None.
(** [skip_serializing_if = "Vec::is_empty"], [skip_serializing_if = "Option::is_none"] *)
Definition list_entry (name : string) (l : list str) : list (str * json) :=
  match l with [] => [] | _ => [(lit name, JArray (map JString l))] end.
Definition option_entry (name : string) (o : option str) : list (str * json) :=
  match o with None => [] | Some s => [(lit name, JString s)] end.
Definition check_value (c : VerificationCheck) : json :=
  JObject ([($"id", JString (vc_id c)); ($"kind", JString (vc_kind c));
            ($"description", JString (vc_description c)); ($"status", JString (status_wire (vc_status c)));
            ($"required", JBool (vc_required c))]
           ++ list_entry "suggested_tools" (vc_suggested_tools c)
           ++ list_entry "evidence_uris" (vc_evidence_uris c)
           ++ option_entry "residual_risk" (vc_residual_risk c)).
Definition report_value (r : VerificationReport) : json :=
  JObject ([($"schema", JString (vr_schema r)); ($"subject", JString (vr_subject r));
            ($"status", JString (status_wire (vr_status r))); ($"checks", JArray (map check_value (vr_checks r)))]
           ++ list_entry "residual_risks" (vr_residual_risks r)
           ++ option_entry "effect_digest" (vr_effect_digest r)).

Definition check_of (v : json) : option VerificationCheck :=
  v ← struct_view ["id"; "kind"; "description"; "status"; "required"; "suggested_tools"; "evidence_uris"; "residual_risk"] v;
  id ← jget_str $"id" v;
  kind ← jget_str $"kind" v;
  description ← jget_str $"description" v;
  status ← jget $"status" v ≫= status_of;
  required ← default_field jas_bool false $"required" v;
  suggested_tools ← default_field (list_of jas_str) [] $"suggested_tools" v;
  evidence_uris ← default_field (list_of jas_str) [] $"evidence_uris" v;
  residual_risk ← optional_field jas_str $"residual_risk" v;
  Some (mkCheck id kind description status required suggested_tools evidence_uris residual_risk).
Definition report_of (v : json) : option VerificationReport :=
  v ← struct_view ["schema"; "subject"; "status"; "checks"; "residual_risks"; "effect_digest"] v;
  schema ← jget_str $"schema" v;
  subject ← jget_str $"subject" v;
  status ← jget $"status" v ≫= status_of;
  checks ← jget $"checks" v ≫= list_of check_of;
  residual_risks ← default_field (list_of jas_str) [] $"residual_risks" v;
  effect_digest ← optional_field jas_str $"effect_digest" v;
  Some (mkReport schema subject status checks residual_risks effect_digest).

(** [collect_verification_report], as the reports it adds. *)
Definition report_author (metadata : json) : ReportAuthor :=
  let author := default $"host" (jget_str $"verification_author" metadata) in
  if str_eqb author $"editor" then AuthorEditor
  else if str_eqb author $"verifier" then AuthorVerifier else AuthorHost.
Definition collect_verification_report (metadata : option json) : list VerificationReport :=
  option_list
    (metadata ← metadata;
     report ← jget $"verification_report" metadata;
     report ← report_of report;
     accept_report (report_author metadata) report).

(** ** The evidence of a step *)
Section StepEvidence.
Context `{EffectEnv} `{GoalEnv} (parse_outcome : json -> option ToolExecutionOutcome)
        (recovery_digest : RecoveryUnprovedV1 -> option str)
        (evidence_text : list (str * ToolExecutionResultV1) -> option VerificationReport -> option str).

(** The pass over the receipts: ledger, reports and the one capability seen. *)
Record StepPass : Type := mkPass {
  sp_ledger : MutationLedger; sp_reports : list VerificationReport; sp_capability : option str;
}.
Definition read_receipt (session_id run_id : str) (acc : option StepPass) (r : str * ToolExecutionResultV1)
    : option StepPass :=
  pass ← acc;
  let '(tool, result) := r in
  admission ← ii_admission (tr_identity result);
  if negb (str_eqb (ad_run_id admission) run_id) || negb (str_eqb (ad_thread_id admission) session_id)
     || match sp_capability pass with
        | Some digest => negb (str_eqb digest (ad_capability_binding_digest admission))
        | None => false
        end
  then None
  else
    reports ← (if bool_decide (tr_outcome result = Outcomes.Succeeded) then
                 output ← jas_str (tr_output result) ≫= decode_fact_tool_result parse_outcome;
                 Some (sp_reports pass ++ collect_verification_report (en_metadata output))
               else Some (sp_reports pass));
    Some (mkPass (observe_tool_receipt tool result (sp_ledger pass)) reports
                 (Some (ad_capability_binding_digest admission))).
Definition attested (l : MutationLedger) (reports : list VerificationReport) (attestation : option VerificationReport)
    : option (list VerificationReport) :=
  match attestation with
  | None => Some reports
  | Some report =>
      if ledger_is_empty l || negb (bool_decide (vr_effect_digest report = Some (ml_digest l))) then None
      else report ← accept_report AuthorHost report; Some (reports ++ [report])
  end.
Definition EVIDENCE_LIMIT : Z := 32 * 1024.
Definition gate_allows (g : CompletionGate) : bool := match g with GateAllow _ => true | _ => false end.
(** The facts from the run's own admission on ([facts[start..]]). *)
Fixpoint from_seq (seq : Z) (facts : list Fact) : option (list Fact) :=
  match facts with
  | [] => None
  | f :: rest => if f_seq f =? seq then Some facts else from_seq seq rest
  end.
Definition evidence_for_goal_step (facts : list Fact) (run_sequence : Z) (session_id run_id : str)
    (attestation : option VerificationReport) : option (list VerificationReport * str) :=
  own ← from_seq run_sequence facts;
  let debt := fst (fold_cache_evidence parse_outcome recovery_digest own) in
  if rd_integrity_invalid debt || negb (bool_decide (rd_unresolved debt = ∅))
     || negb (bool_decide (rd_background_results debt = [])) || bool_decide (rd_results debt = [])
  then None
  else
    pass ← fold_left (read_receipt session_id run_id) (rd_results debt) (Some (mkPass empty_ledger [] None));
    reports ← attested (sp_ledger pass) (sp_reports pass) attestation;
    if existsb (fun r => negb (str_eqb (vr_schema r) VERIFICATION_REPORT_SCHEMA)) reports
       || negb (supports_goal_achievement (from_reports reports))
       || negb (gate_allows (decide_completion (sp_ledger pass) reports [] false))
    then None
    else
      evidence ← evidence_text (rd_results debt) attestation;
      if EVIDENCE_LIMIT <? len evidence then None else Some (reports, evidence).
End StepEvidence.
