(* ===== verification/Recovery.v ===== *)
(** Settling and recovering a session's effects ([fact_control/turn_facts.rs],
    [receipts/cache_proof.rs]): the marker a settlement appends, the replay of what
    the log leaves open into a fresh ledger, and the proof a cached ledger needs
    before it counts. *)
From stdpp Require Import gmap.
From S2P Require Import Prelude Text Verification Planning Goal GoalLog Effects Ledger Receipts Evidence.

(** ** The cursor of a cache proof *)
Record CacheProofCursor : Type := mkCursor {
  cu_next_event : nat;
  cu_last_boundary : option Z;
  cu_stopped : bool;
  cu_claimed : keys;
  cu_missing : keys;
  cu_missing_background : keys;
  cu_pending : keys;
  cu_asserted : keys;
  cu_settled : keys;
  cu_proven : keys;
}.
Definition new_cursor (claimed claimed_background : keys) : CacheProofCursor :=
  mkCursor 0 None false claimed claimed claimed_background ∅ ∅ ∅ ∅.
(** Every part that proof events change. *)
Definition set_proof (missing missing_background pending asserted settled proven : keys) (c : CacheProofCursor)
    : CacheProofCursor :=
  mkCursor (cu_next_event c) (cu_last_boundary c) (cu_stopped c) (cu_claimed c) missing missing_background
           pending asserted settled proven.
Definition activate (key : str) (c : CacheProofCursor) : CacheProofCursor :=
  set_proof (cu_missing c ∖ {[ key ]}) (cu_missing_background c) (cu_pending c) (cu_asserted c) (cu_settled c)
            ({[ key ]} ∪ cu_proven c) c.
Definition deactivate (key : str) (c : CacheProofCursor) : CacheProofCursor :=
  set_proof ({[ key ]} ∪ cu_missing c) (cu_missing_background c) (cu_pending c) (cu_asserted c) (cu_settled c)
            (cu_proven c ∖ {[ key ]}) c.
Definition with_pending (pending : keys) (c : CacheProofCursor) : CacheProofCursor :=
  set_proof (cu_missing c) (cu_missing_background c) pending (cu_asserted c) (cu_settled c) (cu_proven c) c.
Definition with_asserted (asserted : keys) (c : CacheProofCursor) : CacheProofCursor :=
  set_proof (cu_missing c) (cu_missing_background c) (cu_pending c) asserted (cu_settled c) (cu_proven c) c.
Definition apply (operation : CacheProofOperation) (c : CacheProofCursor) : CacheProofCursor :=
  match operation with
  | Prepared key =>
      if bool_decide (key ∈ cu_claimed c) && bool_decide (key ∉ cu_settled c)
      then activate key (with_pending ({[ key ]} ∪ cu_pending c) c) else c
  | Terminal key =>
      if bool_decide (key ∈ cu_pending c) then
        let c := with_pending (cu_pending c ∖ {[ key ]}) c in
        if bool_decide (key ∈ cu_asserted c) then c else deactivate key c
      else c
  | AssertedUncertainty key =>
      if bool_decide (key ∈ cu_claimed c) && bool_decide (key ∉ cu_settled c)
      then activate key (with_asserted ({[ key ]} ∪ cu_asserted c) c) else c
  | BackgroundReady key =>
      set_proof (cu_missing c) (cu_missing_background c ∖ {[ key ]}) (cu_pending c) (cu_asserted c) (cu_settled c)
                (cu_proven c) c
  | ChildSettled key =>
      if bool_decide (key ∈ cu_claimed c)
      then deactivate key (set_proof (cu_missing c) (cu_missing_background c) (cu_pending c ∖ {[ key ]})
                             (cu_asserted c ∖ {[ key ]}) ({[ key ]} ∪ cu_settled c) (cu_proven c) c)
      else c
  end.
Definition bump (c : CacheProofCursor) : CacheProofCursor :=
  mkCursor (S (cu_next_event c)) (cu_last_boundary c) (cu_stopped c) (cu_claimed c) (cu_missing c)
           (cu_missing_background c) (cu_pending c) (cu_asserted c) (cu_settled c) (cu_proven c).
Definition stop (c : CacheProofCursor) : CacheProofCursor :=
  mkCursor (cu_next_event c) (cu_last_boundary c) true (cu_claimed c) (cu_missing c)
           (cu_missing_background c) (cu_pending c) (cu_asserted c) (cu_settled c) (cu_proven c).
Definition reach (boundary : Z) (c : CacheProofCursor) : CacheProofCursor :=
  mkCursor (cu_next_event c) (Some boundary) (cu_stopped c) (cu_claimed c) (cu_missing c)
           (cu_missing_background c) (cu_pending c) (cu_asserted c) (cu_settled c) (cu_proven c).
(** The loop over the events not yet visited. *)
Fixpoint visit (boundary : Z) (events : list CacheProofEvent) (c : CacheProofCursor) : CacheProofCursor :=
  match events with
  | e :: rest =>
      if boundary <? Z.of_nat (pe_index e) then c else visit boundary rest (bump (apply (pe_operation e) c))
  | [] => c
  end.
Definition proof_ready (integrity_invalid : bool) (c : CacheProofCursor) : bool :=
  negb integrity_invalid && bool_decide (cu_missing c = ∅) && bool_decide (cu_missing_background c = ∅).
Definition USIZE_MAX : Z := 2 ^ 64 - 1.

Section Cursor.
Context (debt : ReceiptDebt) (events : list CacheProofEvent).
Definition advance_until (boundary : Z) (c : CacheProofCursor) : bool * CacheProofCursor :=
  if cu_stopped c || match cu_last_boundary c with Some previous => boundary <? previous | None => false end
  then (false, stop c)
  else
    let c := reach boundary (visit boundary (drop (cu_next_event c) events) c) in
    (proof_ready (rd_integrity_invalid debt) c, c).
Definition projection_fact_index (projection : ReceiptProjection) : option nat :=
  match projection with
  | ProjectTool index => rd_tool_fact_indices debt !! index
  | ProjectBackground index => rd_background_fact_indices debt !! index
  end.
Definition advance_to (projection : ReceiptProjection) (c : CacheProofCursor) : bool * CacheProofCursor :=
  match projection_fact_index projection with
  | None => (false, stop c)
  | Some boundary => advance_until (Z.of_nat boundary) c
  end.
Definition finish (c : CacheProofCursor) : bool * CacheProofCursor := advance_until USIZE_MAX c.
End Cursor.

(** ** Checkpoints *)

(** The parts of a [LoopCheckpoint] that recovery reads. *)
Record LoopCheckpoint : Type := mkCheckpoint {
  ck_run_id : str; ck_session_id : str; ck_capability_binding : option json;
  ck_reports : list VerificationReport; ck_mutations : MutationLedger;
}.
Inductive CheckpointMutationCacheCoverage : Type := Covered | Unproved.

Section Recovery.
Context `{EffectEnv} `{GoalEnv} (parse_outcome : json -> option ToolExecutionOutcome)
        (recovery_digest : RecoveryUnprovedV1 -> option str)
        (** [RunCapabilityBindingV1::validate] and its digest *)
        (capability_valid : json -> bool) (capability_digest : json -> option str)
        (** [a3s_effect::cut_log] *)
        (cut : list Fact -> Z * str).
Local Abbreviation payload f := (payload_json (f_payload f)).

(** *** Settlement *)
Definition terminal_fields (terminal : CompletionTerminal) : str * option str :=
  match terminal with
  | Terminals.Narrative => ($"narrative", None)
  | Terminals.Waived digest => ($"waived", Some digest)
  | Terminals.Verified digest => ($"verified", Some digest)
  | Terminals.Distinct => ($"distinct", None)
  end.
Definition exited_keys (facts : list Fact) : list str :=
  map f_key (List.filter (fun f => kind_is f "background.output" && exited f) facts).
Definition marker_payload (label : str) (digest : option str) (receipts background : list str) (at_cut : Z * str) : json :=
  JObject [($"terminal", JString label);
           ($"effect_digest", match digest with Some d => JString d | None => JNull end);
           ($"receipt_keys", JArray (map JString receipts));
           ($"background_receipt_keys", JArray (map JString background));
           ($"log_cut", JObject [($"seq", JNumber (show (fst at_cut))); ($"digest", JString (snd at_cut))])].
(** The fact [append_turn_complete_fact] appends, or its refusal. *)
Definition turn_complete_fact (facts : list Fact) (terminal : CompletionTerminal) : option NewFact :=
  let debt := fold_debt parse_outcome recovery_digest facts in
  if negb (bool_decide (rd_unresolved debt = ∅)) then None
  else
    receipt_keys ← mapM (fun r => identity_key (tr_identity (snd r))) (rd_results debt);
    let '(label, digest) := terminal_fields terminal in
    let at_cut := cut facts in
    Some (mkNewFact TURN_COMPLETE_FACT_KIND
            ($"turn-complete:" ++ show (fst at_cut) ++ $":" ++ snd at_cut)
            (POther (marker_payload label digest receipt_keys (exited_keys facts) at_cut))).

(** *** Replay *)
Definition project_receipt (debt : ReceiptDebt) (l : MutationLedger) (projection : ReceiptProjection) : MutationLedger :=
  match projection with
  | ProjectTool index =>
      match rd_results debt !! index with Some (tool, result) => observe_tool_receipt tool result l | None => l end
  | ProjectBackground index =>
      match rd_background_results debt !! index with
      | Some (key, effects) => observe_background_receipt key effects l
      | None => l
      end
  end.
Definition receipt_paths (debt : ReceiptDebt) : list str :=
  map pc_path (concat (map (fun r => ef_changes (tr_effects (snd r))) (rd_results debt))
               ++ concat (map (fun r => ef_changes (snd r)) (rd_background_results debt))).
Definition replay_unsettled_mutations_from_facts (workspace : str) (facts : list Fact) (l : MutationLedger)
    : MutationLedger :=
  let debt := fold_debt parse_outcome recovery_digest facts in
  let paths := map (workspace_relative_path workspace)
                   (List.filter (fun path => negb (existsb (str_eqb path) (receipt_paths debt))) (rd_paths debt)) in
  let l := observe_unseen_paths paths (begin_receipt_replay l) in
  let l := fold_left (project_receipt debt) (rd_projection_order debt) l in
  restore_unresolved_tool_effects (rd_unresolved debt) (settled_workspace_children parse_outcome recovery_digest facts) l.
(** [replay_unsettled_mutations]; [facts] is the read of the log, or its error. *)
Definition replay_unsettled_mutations (workspace : str) (facts : str + list Fact) (l : MutationLedger) : MutationLedger :=
  match facts with
  | inr facts => replay_unsettled_mutations_from_facts workspace facts l
  | inl error => restore_unresolved_tool_effects {[ $"tool_effect_log_unreadable:" ++ error ]} ∅ l
  end.

(** *** Coverage of a cached ledger *)
Definition frozen_binding (thread run_id : str) (expected : option str)
    (acc : option (gmap (list Z) str)) (r : str * ToolExecutionResultV1) : option (gmap (list Z) str) :=
  frozen ← acc;
  admission ← ii_admission (tr_identity (snd r));
  let digest := ad_capability_binding_digest admission in
  if negb (str_eqb (ad_thread_id admission) thread)
     || (str_eqb (ad_run_id admission) run_id && negb (bool_decide (expected = Some digest)))
  then None
  else match frozen !! ad_run_id admission with
       | Some earlier => if str_eqb earlier digest then Some (<[ad_run_id admission := digest]> frozen) else None
       | None => Some (<[ad_run_id admission := digest]> frozen)
       end.
(** The search for the first boundary that covers every claim. *)
Record CoverSearch : Type := mkSearch {
  cs_original : MutationLedger; cs_proof : CacheProofCursor;
  cs_tools : keys; cs_background : keys; cs_reports : list VerificationReport;
}.
Definition all_found (s : CoverSearch) : bool :=
  bool_decide (cs_tools s = ∅) && bool_decide (cs_background s = ∅) && bool_decide (cs_reports s = []).
Definition covers (ck : LoopCheckpoint) (s : CoverSearch) : bool :=
  let uncertainty := cu_proven (cs_proof s) in
  checkpoint_negative_cache_covered_by (ck_mutations ck) uncertainty
  || checkpoint_cache_covered_by (ck_mutations ck)
       (restore_unresolved_tool_effects uncertainty ∅ (cs_original s)).
Definition recorded_reports (ck : LoopCheckpoint) (result : ToolExecutionResultV1) : list VerificationReport :=
  match jas_str (tr_output result) ≫= decode_fact_tool_result parse_outcome with
  | Some envelope =>
      List.filter (fun r => bool_decide (vr_effect_digest r = Some (ml_digest (ck_mutations ck))))
                  (collect_verification_report (en_metadata envelope))
  | None => []
  end.
Definition search_step (ck : LoopCheckpoint) (debt : ReceiptDebt) (projection : ReceiptProjection) (s : CoverSearch)
    : CoverSearch :=
  match projection with
  | ProjectTool index =>
      match rd_results debt !! index with
      | Some (tool, result) =>
          let recorded := recorded_reports ck result in
          mkSearch (observe_tool_receipt tool result (cs_original s)) (cs_proof s)
            (match identity_key (tr_identity result) with Some key => cs_tools s ∖ {[ key ]} | None => cs_tools s end)
            (cs_background s)
            (List.filter (fun cached => bool_decide (cached ∉ recorded)) (cs_reports s))
      | None => s
      end
  | ProjectBackground index =>
      match rd_background_results debt !! index with
      | Some (key, effects) =>
          mkSearch (observe_background_receipt key effects (cs_original s)) (cs_proof s) (cs_tools s)
                   (cs_background s ∖ {[ key ]}) (cs_reports s)
      | None => s
      end
  end.
Definition set_cursor (c : CacheProofCursor) (s : CoverSearch) : CoverSearch :=
  mkSearch (cs_original s) c (cs_tools s) (cs_background s) (cs_reports s).
Fixpoint cover_search (ck : LoopCheckpoint) (debt : ReceiptDebt) (events : list CacheProofEvent)
    (order : list ReceiptProjection) (s : CoverSearch) : bool :=
  match order with
  | projection :: rest =>
      let '(ready, cursor) := advance_to debt events projection (cs_proof s) in
      let s := search_step ck debt projection (set_cursor cursor s) in
      if all_found s && ready then covers ck s else cover_search ck debt events rest s
  | [] =>
      if all_found s then
        let '(ready, cursor) := finish debt events (cs_proof s) in
        if ready then covers ck (set_cursor cursor s) else false
      else false
  end.
Definition expected_binding (ck : LoopCheckpoint) : option (option str) :=
  match ck_capability_binding ck with
  | None => Some None
  | Some binding => if capability_valid binding then digest ← capability_digest binding; Some (Some digest) else None
  end.
Definition checkpoint_mutation_cache_covered (facts : list Fact) (ck : LoopCheckpoint) (thread session_id : str) : bool :=
  if negb (str_eqb (ck_session_id ck) session_id) then false
  else match expected_binding ck with
  | None => false
  | Some expected =>
      let '(debt, events) := fold_cache_evidence parse_outcome recovery_digest facts in
      if rd_integrity_invalid debt then false
      else match fold_left (frozen_binding thread (ck_run_id ck) expected) (rd_results debt) (Some ∅) with
      | None => false
      | Some _ =>
          let cache := ck_mutations ck in
          let missing_reports := List.filter (fun r => is_status (vr_status r) Verdicts.Passed) (ck_reports ck) in
          if bool_decide (ml_applied_tool cache = ∅) && bool_decide (ml_applied_background cache = ∅)
             && negb (bool_decide (missing_reports = [])) then false
          else cover_search ck debt events (rd_projection_order debt)
                 (mkSearch empty_ledger (new_cursor (ml_unresolved cache) (ml_applied_background cache))
                           (ml_applied_tool cache) (ml_applied_background cache) missing_reports)
      end
  end.

(** *** Restoring a checkpoint *)
Definition restore_checkpoint_mutation_cache (workspace session_id : str) (facts : str + list Fact)
    (ck : LoopCheckpoint) (l : MutationLedger) : CheckpointMutationCacheCoverage * MutationLedger :=
  let thread := thread_for_session session_id in
  let covered := match facts with
                 | inr facts => checkpoint_mutation_cache_covered facts ck thread session_id
                 | inl _ => false
                 end in
  let has_reports := negb (bool_decide (ck_reports ck = [])) in
  let needs_negative_input :=
    match facts with inl _ => true | inr _ => false end
    || (negb covered && (has_checkpoint_evidence (ck_mutations ck) || has_reports)) in
  let l := restore_checkpoint_cache (ck_mutations ck) covered l in
  let l := if negb covered && has_reports
           then restore_unresolved_tool_effects {[ CACHE_EVIDENCE_MISSING ]} ∅ l else l in
  (if needs_negative_input then Unproved else Covered, replay_unsettled_mutations workspace facts l).
End Recovery.
