(* ===== verification/ReceiptFacts.v ===== *)
(** What the receipt fold guarantees: the typed part of a log is read the same way
    wherever the turn markers stand, an invocation without its terminal stays open,
    and a settlement covers exactly what it read. *)
From stdpp Require Import gmap sets.
From S2P Require Import Prelude Text Verification Goal GoalLog Effects Ledger LedgerFacts Receipts Evidence Recovery.

(** Two sessions can own one thread: the encoding of an invalid id is itself a
    valid id, and long encodings are cut. *)
Lemma threads_collide :
  thread_for_session $" " = thread_for_session $"s-20"
  /\ thread_for_session (repeat 32 64 ++ $"a") = thread_for_session (repeat 32 64 ++ $"b").
Proof. vm_compute. split; reflexivity. Qed.

Section Facts.
Context `{EffectEnv} `{GoalEnv} (parse_outcome : json -> option ToolExecutionOutcome)
        (recovery_digest : RecoveryUnprovedV1 -> option str).
Local Abbreviation payload f := (payload_json (f_payload f)).
Local Abbreviation step := (fold_fact parse_outcome recovery_digest).

(** ** Folds that agree on the typed part of a log *)
Definition agree (s t : Fold) : Prop :=
  rd_validated (fo_debt s) = rd_validated (fo_debt t) /\ rd_sources (fo_debt s) = rd_sources (fo_debt t)
  /\ fo_typed s = fo_typed t /\ fo_children s = fo_children t.
#[global] Instance agree_equiv : Equivalence agree.
Proof. split; [by intros s|intros s t (?&?&?&?); repeat split; done|]. intros s t u (?&?&?&?) (?&?&?&?). repeat split; congruence. Qed.

(** Operations the typed part does not see. *)
Definition invisible (f : ReceiptDebt -> ReceiptDebt) : Prop :=
  forall d, rd_validated (f d) = rd_validated d /\ rd_sources (f d) = rd_sources d.
Lemma agree_debt f st : invisible f -> agree (on_debt f st) st.
Proof. intros Hf. destruct (Hf (fo_debt st)). by repeat split. Qed.
Lemma agree_legacy f st : agree (on_legacy f st) st.
Proof. by repeat split. Qed.
Lemma invisible_invalidate key : invisible (invalidate_evidence key).
Proof. done. Qed.
Lemma invisible_paths paths : invisible (add_paths paths).
Proof. done. Qed.
Lemma invisible_result index tool result : invisible (add_result index tool result).
Proof. done. Qed.
Lemma invisible_project index f id paths : invisible (project_background index f id paths).
Proof.
  intros d. unfold project_background.
  assert (Hp : forall d, rd_validated (fold_left (project_background_path id) paths d) = rd_validated d
                         /\ rd_sources (fold_left (project_background_path id) paths d) = rd_sources d).
  { clear. induction paths as [|p paths IH]; intros d; [done|]. cbn [fold_left].
    destruct (IH (project_background_path id d p)) as [-> ->]. unfold project_background_path. by case_match. }
  destruct (Hp (match background_observation f with Some e => add_background index (f_key f) e d | None => d end)) as [-> ->].
  by case_match.
Qed.
(** Operations on the typed part. *)
#[global] Instance source_agree source : Proper (agree ==> agree) (on_debt (add_source source)).
Proof. intros s t (E1 & E2 & E3 & E4). repeat split; cbn; congruence. Qed.
#[global] Instance children_agree f : Proper (agree ==> agree) (on_children f).
Proof. intros s t (E1 & E2 & E3 & E4). repeat split; cbn; congruence. Qed.
#[global] Instance typed_agree t : Proper (agree ==> agree) (set_typed t).
Proof. intros s u (E1 & E2 & E3 & E4). by repeat split. Qed.
Lemma fold_agree {A} (f : Fold -> A -> Fold) xs s t :
  (forall s t x, agree s t -> agree (f s x) (f t x)) -> agree s t -> agree (fold_left f xs s) (fold_left f xs t).
Proof. intros Hf. revert s t. induction xs as [|x xs IH]; intros s t Hst; [done|]. cbn. auto. Qed.
Lemma agree_if (b : bool) f s t : invisible f -> agree s t -> agree (if b then on_debt f s else s) t.
Proof. intros Hf Hst. destruct b; [|done]. by rewrite (agree_debt _ _ Hf). Qed.
Lemma agree_if_both (b1 b2 : bool) f g s t :
  invisible f -> invisible g -> agree s t -> agree (if b1 then on_debt f s else s) (if b2 then on_debt g t else t).
Proof. intros Hf Hg Hst. apply agree_if; [done|]. symmetry. apply agree_if; [done|]. by symmetry. Qed.

Lemma bind_child_agree index result s t child :
  agree s t -> agree (bind_child parse_outcome index result s child) (bind_child parse_outcome index result t child).
Proof.
  intros Hst. unfold bind_child. pose proof Hst as (_ & _ & _ & ->). apply children_agree.
  by apply agree_if_both; [apply invisible_invalidate..|].
Qed.
Lemma terminal_agree i1 i2 c1 c2 index f receipt s t :
  agree s t ->
  agree (fold_terminal parse_outcome i1 c1 index f receipt s) (fold_terminal parse_outcome i2 c2 index f receipt t).
Proof.
  intros Hst. unfold fold_terminal. pose proof Hst as (_ & _ & Et & _).
  destruct (parse_result receipt) as [result|]; [|by rewrite !(agree_debt _ _ (invisible_invalidate _))].
  rewrite Et. destruct (stored_terminal (fo_typed t) result) as [[key value]|];
    [|by rewrite !(agree_debt _ _ (invisible_invalidate _))].
  cbn [on_legacy fo_typed]. rewrite Et. apply typed_agree.
  apply agree_if_both; [apply invisible_result..|].
  apply fold_agree; [by intros; apply bind_child_agree|].
  apply fold_agree; [by intros; apply source_agree|].
  assert (Hlegacy : forall (b : bool) f g, agree (if b then on_debt (invalidate_evidence f) (on_legacy g s) else on_legacy g s)
                                       (if b then on_debt (invalidate_evidence f) (on_legacy g t) else on_legacy g t)).
  { intros. apply agree_if_both; [apply invisible_invalidate..|]. by rewrite !agree_legacy. }
  destruct (result_uncertain result); [apply source_agree|]; apply Hlegacy.
Qed.
Lemma background_agree i1 i2 c1 c2 index f s t :
  agree s t -> agree (fold_background i1 c1 index f s) (fold_background i2 c2 index f t).
Proof.
  intros Hst. unfold fold_background.
  destruct (jget_str _ _) as [id|]; [|by rewrite !(agree_debt _ _ (invisible_invalidate _))].
  destruct (jget _ _ ≫= _) as [paths|]; [|by rewrite !(agree_debt _ _ (invisible_invalidate _))].
  apply agree_if_both; [apply invisible_project..|].
  destruct (background_evidence_valid f id paths); [|by rewrite !(agree_debt _ _ (invisible_invalidate _))].
  unfold fold_valid_background. pose proof Hst as (_ & _ & _ & ->). apply children_agree.
  apply fold_agree; [by intros; apply source_agree|]. by apply agree_if_both; [apply invisible_invalidate..|].
Qed.
Lemma legacy_result_agree f st : agree (fold_legacy_result f st) st.
Proof.
  unfold fold_legacy_result. cbn zeta.
  assert (Hst : forall k g, agree (on_debt (invalidate_evidence k) (on_legacy g st)) st)
    by (intros; by rewrite (agree_debt _ _ (invisible_invalidate _)), agree_legacy).
  repeat case_match; apply Hst.
Qed.
Lemma model_turn_agree f st : agree (fold_model_turn f st) st.
Proof.
  unfold fold_model_turn. destruct (model_position _) as [[turn cycle]|];
    [apply agree_legacy|by rewrite (agree_debt _ _ (invisible_invalidate _))].
Qed.
Lemma prepared_agree index f s t : agree s t -> agree (fold_prepared index f s) (fold_prepared index f t).
Proof.
  intros Hst. unfold fold_prepared. pose proof Hst as (_ & _ & Et & _).
  destruct (stored_preparation f) as [[key value]|]; [|by rewrite !(agree_debt _ _ (invisible_invalidate _))].
  rewrite Et. apply typed_agree. by apply agree_if_both; [apply invisible_invalidate..|].
Qed.
Lemma recovery_agree index f s t : agree s t -> agree (fold_recovery recovery_digest index f s) (fold_recovery recovery_digest index f t).
Proof.
  intros Hst. unfold fold_recovery. destruct (validate_stored_fact recovery_digest f) as [error|key].
  - by rewrite !(agree_debt _ _ (invisible_invalidate _)).
  - by apply source_agree.
Qed.
Lemma agree_when (b1 b2 : bool) (g h : Fold -> Fold) s t :
  (forall st, agree (g st) st) -> (forall st, agree (h st) st) -> agree s t ->
  agree (if b1 then g s else s) (if b2 then h t else t).
Proof. intros Hg Hh Hst. destruct b1, b2; by rewrite ?Hg, ?Hh. Qed.
(** One fact changes the typed part in one way, whatever the markers say. *)
Lemma step_agree i1 i2 m1 m2 s t x : agree s t -> agree (step i1 m1 s x) (step i2 m2 t x).
Proof.
  intros Hst. destruct x as [index f]. unfold fold_fact. cbn zeta.
  destruct (str_eqb _ RECOVERY_UNPROVED_FACT_KIND); [by apply recovery_agree|].
  destruct (kind_is f "tool.prepared"); [by apply prepared_agree|].
  destruct (kind_is f "tool.result").
  { destruct (jget _ _); [by apply terminal_agree|]. by apply agree_when; [apply legacy_result_agree..|]. }
  destruct (kind_is f "model.turn"); [by apply agree_when; [apply model_turn_agree..|]|].
  destruct (kind_is f "confirmation.answered"); [by apply agree_when; [intros; apply agree_legacy..|]|].
  destruct (kind_is f "budget.denied"); [by apply agree_when; [intros; apply agree_legacy..|]|].
  destruct (kind_is f "background.output"); [|done]. destruct (exited f); [by apply background_agree|done].
Qed.
Lemma run_agree i1 i2 m1 m2 xs s t : agree s t -> agree (fold_left (step i1 m1) xs s) (fold_left (step i2 m2) xs t).
Proof. revert s t. induction xs as [|x xs IH]; intros s t Hst; [done|]. cbn. by apply IH, step_agree. Qed.

(** ** Markers *)
Lemma marker_step i m st index f : is_marker f = true -> step i m st (index, f) = st.
Proof. unfold is_marker. intros E%str_eqb_spec. unfold fold_fact, kind_is. by rewrite E. Qed.
Lemma markers_skip i m st index ms :
  Forall (fun f => is_marker f = true) ms -> fold_left (step i m) (imap (fun n f => ((index + n)%nat, f)) ms) st = st.
Proof.
  intros Hms. revert index st. induction Hms as [|f ms Hf _ IH]; intros index st; [done|].
  rewrite imap_cons. cbn [fold_left]. rewrite marker_step by done.
  erewrite imap_ext; [apply (IH (S index))|]. intros n g _. cbn. f_equal. lia.
Qed.
Lemma fold_facts_markers i m facts ms :
  Forall (fun f => is_marker f = true) ms ->
  fold_facts parse_outcome recovery_digest i m (facts ++ ms) = fold_facts parse_outcome recovery_digest i m facts.
Proof. intros Hms. unfold fold_facts. rewrite imap_app, fold_left_app. by apply (markers_skip i m _ (length facts)). Qed.
Lemma facts_agree i1 i2 m1 m2 facts :
  agree (fold_facts parse_outcome recovery_digest i1 m1 facts) (fold_facts parse_outcome recovery_digest i2 m2 facts).
Proof. by apply run_agree. Qed.

(** ** Closing *)

(** Two debts that differ in what is unresolved. *)
Definition more_unresolved (ks : keys) (d d' : ReceiptDebt) : Prop :=
  rd_validated d' = rd_validated d /\ rd_paths d' = rd_paths d /\ rd_results d' = rd_results d
  /\ rd_unresolved d' = ks ∪ rd_unresolved d.
Lemma close_legacy_debt pending d : more_unresolved (list_to_set (map (app $"legacy-pending:") pending)) d (close_legacy pending d).
Proof.
  unfold close_legacy, more_unresolved. revert d.
  induction pending as [|x xs IH]; intros d; cbn [fold_left map list_to_set]; [repeat split; set_solver|].
  destruct (IH (invalidate_evidence ($"legacy-pending:" ++ x) d)) as (-> & -> & -> & ->). cbn. repeat split; set_solver.
Qed.
Definition unbound_keys (c : Children) : list str :=
  map (app $"background-terminal-unbound:") (List.filter (fun child => negb (binding_valid c child)) (keys_of (ch_background c))).
Lemma close_bindings_debt c d : more_unresolved (list_to_set (unbound_keys c)) d (close_bindings c d).
Proof.
  unfold close_bindings, more_unresolved, unbound_keys. revert d.
  induction (keys_of (ch_background c)) as [|x xs IH]; intros d; cbn [fold_left List.filter map list_to_set];
    [repeat split; set_solver|].
  destruct (binding_valid c x); [apply IH|]. cbn [negb map list_to_set].
  destruct (IH (invalidate_evidence ($"background-terminal-unbound:" ++ x) d)) as (-> & -> & -> & ->).
  cbn. repeat split; set_solver.
Qed.
Definition unterminated (st : Fold) : keys := dom (tc_prepared (fo_typed st)) ∖ dom (tc_terminals (fo_typed st)).
Lemma close_debt st :
  let d := close_fold st in let settled := settled_children (fo_children st) in
  rd_validated d = (unterminated st ∪ rd_validated (fo_debt st)) ∖ settled
  /\ rd_results d = rd_results (fo_debt st)
  /\ rd_paths d = dedup (sort_strs (List.filter (fun path => negb (is_harness_path path)) (rd_paths (fo_debt st))))
  /\ rd_unresolved d =
     (list_to_set (map (app $"legacy-pending:") (pending_calls (fo_typed st) (fo_legacy st)))
      ∪ (unterminated st ∪ (list_to_set (unbound_keys (fo_children st)) ∪ rd_unresolved (fo_debt st)))) ∖ settled.
Proof.
  cbn zeta. unfold close_fold. cbn [settle_debt rd_validated rd_results rd_paths rd_unresolved].
  destruct (close_legacy_debt (pending_calls (fo_typed st) (fo_legacy st))
    (mark_unterminated (fo_typed st) (close_bindings (fo_children st) (fo_debt st)))) as (-> & -> & -> & ->).
  cbn [mark_unterminated rd_validated rd_results rd_paths rd_unresolved].
  by destruct (close_bindings_debt (fo_children st) (fo_debt st)) as (-> & -> & -> & ->).
Qed.
Lemma close_agree s t :
  agree s t -> rd_validated (close_fold s) = rd_validated (close_fold t)
               /\ settled_children (fo_children s) = settled_children (fo_children t).
Proof.
  intros (E1 & _ & E3 & E4). destruct (close_debt s) as (-> & _), (close_debt t) as (-> & _).
  unfold unterminated. by rewrite E1, E3, E4.
Qed.

(** ** Properties every operation on the debt keeps *)
Section Kept.
Context (P : ReceiptDebt -> Prop)
  (P_source : forall source d, P d -> P (add_source source d))
  (P_invalidate : forall key d, P d -> P (invalidate_evidence key d))
  (P_paths : forall paths d, P d -> P (add_paths paths d))
  (P_result : forall index tool result d, P d -> P (add_result index tool result d))
  (P_background : forall index key effects d, P d -> P (add_background index key effects d)).
Local Abbreviation kept st := (P (fo_debt st)).
Lemma kept_fold {A} (f : Fold -> A -> Fold) xs st :
  (forall st x, kept st -> kept (f st x)) -> kept st -> kept (fold_left f xs st).
Proof. intros Hf. revert st. induction xs as [|x xs IH]; intros st Hst; [done|]. cbn. auto. Qed.
Lemma kept_bind index result st child : kept st -> kept (bind_child parse_outcome index result st child).
Proof. intros Hst. unfold bind_child. cbn zeta. cbn [on_children fo_debt]. repeat case_match; cbn; auto. Qed.
Lemma kept_terminal i c index f receipt st : kept st -> kept (fold_terminal parse_outcome i c index f receipt st).
Proof.
  intros Hst. unfold fold_terminal. destruct (parse_result receipt) as [result|]; [|cbn; auto].
  destruct (stored_terminal _ _) as [[key value]|]; [|cbn; auto]. cbn zeta. cbn [set_typed fo_debt].
  set (st1 := fold_left _ (List.filter _ _) _).
  assert (H1 : kept st1).
  { apply kept_fold; [by intros; apply kept_bind|]. apply kept_fold; [intros; cbn; by apply P_source|].
    repeat case_match; cbn; auto using P_source. all: apply P_source; auto. }
  case_match; cbn; auto.
Qed.
Lemma kept_project index f id paths d : P d -> P (project_background index f id paths d).
Proof.
  intros Hd. unfold project_background. set (d1 := match background_observation f with Some _ => _ | None => _ end).
  assert (H1 : P d1) by (unfold d1; case_match; auto). revert H1. generalize d1.
  induction paths as [|p paths IH]; intros d2 H2; [done|]. cbn [fold_left]. apply IH.
  unfold project_background_path. case_match; auto.
Qed.
Lemma kept_background i c index f st : kept st -> kept (fold_background i c index f st).
Proof.
  intros Hst. unfold fold_background. destruct (jget_str _ _) as [id|]; [|cbn; auto].
  destruct (jget _ _ ≫= _) as [paths|]; [|cbn; auto].
  set (st1 := if background_evidence_valid f id paths then _ else _).
  assert (H1 : kept st1).
  { unfold st1. case_match; [|cbn; auto]. unfold fold_valid_background. cbn [on_children fo_debt].
    apply kept_fold; [intros; cbn; by apply P_source|]. case_match; cbn; auto. }
  case_match; [|done]. cbn. by apply kept_project.
Qed.
Lemma kept_step i m st x : kept st -> kept (step i m st x).
Proof.
  intros Hst. destruct x as [index f]. unfold fold_fact. cbn zeta.
  case_match; [unfold fold_recovery; destruct (validate_stored_fact _ _); cbn; auto; by apply P_source|].
  case_match; [unfold fold_prepared; repeat case_match; cbn; auto|].
  case_match; [case_match; [by apply kept_terminal|]; case_match; [|done];
               unfold fold_legacy_result; repeat case_match; cbn; auto|].
  case_match; [case_match; [|done]; unfold fold_model_turn; destruct (model_position _) as [[]|]; cbn; auto|].
  case_match; [by case_match|]. case_match; [by case_match|]. case_match; [|done]. case_match; [by apply kept_background|done].
Qed.
Lemma kept_facts i m facts : P empty_debt -> kept (fold_facts parse_outcome recovery_digest i m facts).
Proof.
  intros Hd. unfold fold_facts. generalize (imap pair facts). intros xs.
  apply (kept_fold (step i m)); [by intros; apply kept_step|done].
Qed.
End Kept.

(** Validated uncertainty is a part of what is unresolved. *)
Lemma validated_unresolved i m facts :
  let st := fold_facts parse_outcome recovery_digest i m facts in
  rd_validated (fo_debt st) ⊆ rd_unresolved (fo_debt st).
Proof. apply (kept_facts (fun d => rd_validated d ⊆ rd_unresolved d)); cbn; set_solver. Qed.
Lemma close_validated_unresolved i m facts :
  let d := close_fold (fold_facts parse_outcome recovery_digest i m facts) in rd_validated d ⊆ rd_unresolved d.
Proof.
  pose proof (validated_unresolved i m facts) as Hv. cbn zeta in *.
  destruct (close_debt (fold_facts parse_outcome recovery_digest i m facts)) as (-> & _ & _ & ->). set_solver.
Qed.

(** A settlement marker cannot forgive uncertainty: whatever markers a log ends
    with, and whatever receipts they claim to cover, the log proves the same
    uncertain invocations and the same settled children as before, and all of the
    uncertainty is still unresolved. *)
Theorem markers_keep_uncertainty (facts ms : list Fact) :
  Forall (fun f => is_marker f = true) ms ->
  rd_validated (fold_debt parse_outcome recovery_digest (facts ++ ms)) = rd_validated (fold_debt parse_outcome recovery_digest facts)
  /\ settled_workspace_children parse_outcome recovery_digest (facts ++ ms)
     = settled_workspace_children parse_outcome recovery_digest facts
  /\ rd_validated (fold_debt parse_outcome recovery_digest facts)
     ⊆ rd_unresolved (fold_debt parse_outcome recovery_digest (facts ++ ms)).
Proof.
  intros Hms. unfold fold_debt, settled_workspace_children.
  pose proof (close_validated_unresolved false (markers (facts ++ ms)) (facts ++ ms)) as Hsub.
  rewrite fold_facts_markers in * by done.
  destruct (close_agree _ _ (facts_agree false false (markers (facts ++ ms)) (markers facts) facts)) as [E1 E2].
  rewrite <-E1. exact (conj eq_refl (conj E2 Hsub)).
Qed.

(** ** The typed calls of a log *)
Lemma typed_step i m st index f :
  fo_typed (step i m st (index, f)) =
    if kind_is f "tool.prepared" then fo_typed (fold_prepared index f st)
    else if kind_is f "tool.result" then
      match jget $"receipt" (payload f) with
      | Some receipt => fo_typed (fold_terminal parse_outcome i (mk_receipts m) index f receipt st)
      | None => fo_typed st
      end
    else fo_typed st.
Proof.
  unfold fold_fact. cbn zeta. destruct (str_eqb _ RECOVERY_UNPROVED_FACT_KIND) eqn:Er.
  { apply str_eqb_spec in Er. unfold kind_is. rewrite Er. unfold fold_recovery. by case_match. }
  case_match; [done|]. case_match.
  { case_match; [done|]. case_match; [|done]. by destruct (legacy_result_agree f st) as (_ & _ & -> & _). }
  case_match; [case_match; [|done]; by destruct (model_turn_agree f st) as (_ & _ & -> & _)|].
  case_match; [by case_match|]. case_match; [by case_match|]. case_match; [|done]. case_match; [|done].
  unfold fold_background. repeat (case_match; [|done]). unfold fold_valid_background.
  assert (Hf : forall xs st, fo_typed (fold_left (fun st key => on_debt (add_validated_background_uncertainty index (f_key f) key) st) xs st)
                             = fo_typed st) by (induction xs as [|x xs IH]; intros st'; [done|]; cbn [fold_left]; by rewrite IH).
  repeat case_match; cbn; rewrite ?Hf; done.
Qed.

Lemma typed_terminal i c index f receipt st :
  fo_typed (fold_terminal parse_outcome i c index f receipt st) =
    match parse_result receipt with
    | Some result =>
        match stored_terminal (fo_typed st) result with
        | Some (key, _) =>
            let t := fo_typed st in
            mkTyped (tc_prepared t) (<[key := result]> (tc_terminals t)) (tc_prepared_indices t)
                    (or_insert key index (tc_terminal_indices t))
        | None => fo_typed st
        end
    | None => fo_typed st
    end.
Proof. unfold fold_terminal. repeat case_match; done. Qed.
Lemma typed_prepared index f st :
  fo_typed (fold_prepared index f st) =
    match stored_preparation f with
    | Some (key, value) =>
        let t := fo_typed st in
        mkTyped (<[key := value]> (tc_prepared t)) (tc_terminals t) (or_insert key index (tc_prepared_indices t))
                (tc_terminal_indices t)
    | None => fo_typed st
    end.
Proof. unfold fold_prepared. by repeat case_match. Qed.
Lemma stored_terminal_key t result key value :
  stored_terminal t result = Some (key, value) -> identity_key (tr_identity result) = Some key /\ key ∈ dom (tc_prepared t).
Proof.
  unfold stored_terminal. intros E. apply bind_Some in E as (k & Ek & E). apply bind_Some in E as (v & Ev & E).
  case_match; [|done]. simplify_eq. split; [done|]. by apply elem_of_dom_2 in Ev.
Qed.
(** A terminal for the key that the log could hold. *)
Definition terminal_for (key : str) (f : Fact) : Prop :=
  exists receipt result, jget $"receipt" (payload f) = Some receipt /\ parse_result receipt = Some result
    /\ identity_key (tr_identity result) = Some key.
Definition prepares (key : str) (f : Fact) : Prop :=
  kind_is f "tool.prepared" = true /\ exists value, stored_preparation f = Some (key, value).
Lemma terminals_step i m st x key :
  key ∈ dom (tc_terminals (fo_typed (step i m st x))) -> key ∈ dom (tc_terminals (fo_typed st)) \/ terminal_for key x.2.
Proof.
  destruct x as [index f]. rewrite typed_step. cbn [snd].
  case_match; [rewrite typed_prepared; repeat case_match; by left|]. case_match; [|by left].
  destruct (jget $"receipt" (payload f)) as [receipt|] eqn:Er; [|by left]. rewrite typed_terminal.
  destruct (parse_result receipt) as [result|] eqn:Ep; [|by left].
  destruct (stored_terminal _ _) as [[k v]|] eqn:Es; [|by left]. cbn [tc_terminals].
  apply stored_terminal_key in Es as [Ek _]. rewrite dom_insert, elem_of_union, elem_of_singleton.
  intros [->|?]; [right|by left]. by exists receipt, result.
Qed.
Lemma prepared_step i m st x key :
  key ∈ dom (tc_prepared (fo_typed st)) \/ prepares key x.2 -> key ∈ dom (tc_prepared (fo_typed (step i m st x))).
Proof.
  destruct x as [index f]. rewrite typed_step. unfold prepares. cbn [snd]. intros [Hk|(-> & value & Ev)].
  - case_match.
    { rewrite typed_prepared. destruct (stored_preparation f) as [[k v]|]; [|done]. cbn. set_solver. }
    repeat case_match; try done. rewrite typed_terminal. repeat case_match; done.
  - rewrite typed_prepared, Ev. cbn. set_solver.
Qed.
Lemma in_imap_pair {A} (l : list A) x : In x l <-> exists n, In (n, x) (imap pair l).
Proof.
  setoid_rewrite <-list_elem_of_In. setoid_rewrite list_elem_of_lookup. setoid_rewrite list_lookup_imap. split.
  - intros (n & Hn). exists n, n. by rewrite Hn.
  - intros (n & k & Hk). apply fmap_Some in Hk as (y & Hy & [= _ ->]). by exists k.
Qed.
Lemma prepared_facts i m facts key :
  (exists f, In f facts /\ prepares key f) -> key ∈ dom (tc_prepared (fo_typed (fold_facts parse_outcome recovery_digest i m facts))).
Proof.
  intros (f & (n & Hx)%in_imap_pair & Hp). unfold fold_facts. apply in_split in Hx as (l1 & l2 & ->).
  rewrite fold_left_app. cbn [fold_left].
  assert (Hk : key ∈ dom (tc_prepared (fo_typed (step i m (fold_left (step i m) l1 empty_fold) (n, f)))))
    by (apply prepared_step; by right).
  revert Hk. generalize (step i m (fold_left (step i m) l1 empty_fold) (n, f)).
  induction l2 as [|x l2 IH]; intros st Hst; [done|]. cbn [fold_left]. apply IH, prepared_step. by left.
Qed.
Lemma terminal_facts i m facts key :
  key ∈ dom (tc_terminals (fo_typed (fold_facts parse_outcome recovery_digest i m facts))) ->
  exists f, In f facts /\ terminal_for key f.
Proof.
  unfold fold_facts. enough (Hgo : forall xs st, key ∈ dom (tc_terminals (fo_typed (fold_left (step i m) xs st))) ->
    key ∈ dom (tc_terminals (fo_typed st)) \/ exists x, In x xs /\ terminal_for key x.2).
  { intros [Hk|([n f] & Hin & Hf)]%Hgo; [cbn in Hk; set_solver|]. exists f. split; [|done]. apply in_imap_pair. by exists n. }
  induction xs as [|x xs IH]; intros st Hk; [by left|]. cbn [fold_left] in Hk.
  destruct (IH _ Hk) as [[?|?]%terminals_step|(y & Hy & Hf)]; [by left| |]; right; [exists x|exists y]; cbn; auto.
Qed.
Lemma unterminated_facts i m facts key :
  (exists f, In f facts /\ prepares key f) -> (forall f, In f facts -> ~ terminal_for key f) ->
  key ∈ unterminated (fold_facts parse_outcome recovery_digest i m facts).
Proof.
  intros Hp Ht. apply elem_of_difference. split; [by apply prepared_facts|]. intros (f & Hin & Hf)%terminal_facts. by eapply Ht.
Qed.
(** With nothing unresolved, every prepared call has its terminal. *)
Lemma all_terminated i m facts key :
  rd_unresolved (close_fold (fold_facts parse_outcome recovery_digest i m facts)) = ∅ ->
  (forall child, child ∈ settled_children (fo_children (fold_facts parse_outcome recovery_digest i m facts)) -> child <> key) ->
  (exists f, In f facts /\ prepares key f) -> exists g, In g facts /\ terminal_for key g.
Proof.
  intros Hu Hs Hp%(prepared_facts i m). apply (terminal_facts i m).
  destruct (decide (key ∈ dom (tc_terminals (fo_typed (fold_facts parse_outcome recovery_digest i m facts))))) as [|Hn]; [done|].
  exfalso. apply (not_elem_of_empty (C := keys) key). rewrite <-Hu.
  destruct (close_debt (fold_facts parse_outcome recovery_digest i m facts)) as (_ & _ & _ & ->).
  apply elem_of_difference. split; [|by intros ?%Hs]. by apply elem_of_union_r, elem_of_union_l, elem_of_difference.
Qed.

(** ** Only children settle *)
Definition prefixed (st : Fold) : Prop :=
  forall child, child ∈ dom (ch_background (fo_children st)) -> starts_with child CHILD_PREFIX = true.
Lemma bindings_background index result xs st :
  ch_background (fo_children (fold_left (bind_child parse_outcome index result) xs st)) = ch_background (fo_children st).
Proof.
  revert st. induction xs as [|x xs IH]; intros st; [done|]. cbn [fold_left]. rewrite IH. unfold bind_child.
  cbn [on_children fo_children ch_background]. by repeat case_match.
Qed.
Lemma fold_debt_children {A} (f : A -> ReceiptDebt -> ReceiptDebt) xs st :
  fo_children (fold_left (fun st x => on_debt (f x) st) xs st) = fo_children st.
Proof. revert st. induction xs as [|x xs IH]; intros st; [done|]. cbn [fold_left]. by rewrite IH. Qed.
Lemma terminal_background i c index f receipt st :
  ch_background (fo_children (fold_terminal parse_outcome i c index f receipt st)) = ch_background (fo_children st).
Proof.
  unfold fold_terminal. destruct (parse_result receipt); [|done]. destruct (stored_terminal _ _) as [[]|]; [|done].
  cbn zeta. cbn [set_typed fo_children].
  match goal with |- ch_background (fo_children (if ?b then on_debt ?g ?s else ?s)) = _ =>
    assert (Hs : ch_background (fo_children s) = ch_background (fo_children st)) end.
  { rewrite bindings_background, (fold_debt_children (add_validated_uncertainty index)). by repeat case_match. }
  destruct (i || _); exact Hs.
Qed.
Lemma prefixed_step i m st x : prefixed st -> prefixed (step i m st x).
Proof.
  destruct x as [index f]. unfold prefixed, fold_fact. cbn zeta. intros Hst.
  case_match; [unfold fold_recovery; by case_match|].
  case_match; [unfold fold_prepared; by repeat case_match|].
  case_match; [case_match; [by rewrite terminal_background|]; case_match; [|done];
               by destruct (legacy_result_agree f st) as (_ & _ & _ & ->)|].
  case_match; [case_match; [|done]; by destruct (model_turn_agree f st) as (_ & _ & _ & ->)|].
  case_match; [by case_match|]. case_match; [by case_match|]. case_match; [|done]. case_match; [|done].
  unfold fold_background. repeat (case_match; [|done]).
  set (st1 := if background_evidence_valid _ _ _ then _ else _).
  assert (Hst1 : forall child, child ∈ dom (ch_background (fo_children st1)) -> starts_with child CHILD_PREFIX = true).
  { unfold st1. case_match; [|done]. unfold fold_valid_background. cbn [on_children fo_children].
    rewrite (fold_debt_children (add_validated_background_uncertainty index (f_key f))). intros child. cbn [note_terminal ch_background]. rewrite dom_insert.
    assert (Hs : forall b k, dom (ch_background (fo_children (if b : bool then on_debt (invalidate_evidence k) st else st)))
                           = dom (ch_background (fo_children st))) by (by intros []).
    rewrite Hs, elem_of_union, elem_of_singleton. intros [->|?]; [|by apply Hst].
    apply starts_with_spec. eauto. }
  case_match; done.
Qed.
Lemma settled_prefixed i m facts child :
  child ∈ settled_children (fo_children (fold_facts parse_outcome recovery_digest i m facts)) ->
  starts_with child CHILD_PREFIX = true.
Proof.
  intros [_ Hd]%elem_of_filter. revert Hd. unfold fold_facts.
  enough (forall xs st, prefixed st -> prefixed (fold_left (step i m) xs st)) as Hp by (apply Hp; unfold prefixed; set_solver).
  induction xs as [|x xs IH]; intros st Hst; [done|]. cbn. by apply IH, prefixed_step.
Qed.

(** ** Recovery *)
Context (capability_valid : json -> bool) (capability_digest : json -> option str).
Local Abbreviation replay := (replay_unsettled_mutations parse_outcome recovery_digest).
Lemma project_run_from debt order l : ledger_run l (fold_left (project_receipt debt) order l).
Proof.
  revert l. induction order as [|p order IH]; intros l; cbn [fold_left]; [apply rtc_refl|].
  etrans; [|apply IH]. unfold project_receipt. repeat case_match; try apply rtc_refl; apply rtc_once; constructor.
Qed.
Lemma replay_run workspace facts l : ledger_run l (replay workspace facts l).
Proof.
  destruct facts as [error|facts]; cbn [replay_unsettled_mutations]; [apply rtc_once; constructor|].
  unfold replay_unsettled_mutations_from_facts. cbn zeta.
  eapply rtc_l; [apply step_replay|]. eapply rtc_l; [apply step_unseen|]. eapply rtc_r; [apply project_run_from|apply step_restore].
Qed.
(** The unresolved part of a log reaches the ledger. *)
Lemma replay_unresolved workspace facts l key :
  key ∈ rd_unresolved (fold_debt parse_outcome recovery_digest facts) -> starts_with key CHILD_PREFIX = false ->
  key ∈ ml_unresolved (replay workspace (inr facts) l).
Proof.
  intros Hk Hc. cbn [replay_unsettled_mutations]. unfold replay_unsettled_mutations_from_facts.
  cbn [restore_unresolved_tool_effects set_unresolved set_children ml_unresolved].
  apply elem_of_filter. split; [by left|]. by apply elem_of_union_l.
Qed.
(** C8. A session cannot recover past an invocation it never saw end: if the log
    holds a valid preparation and no result that names it, then after replay the
    completion gate refuses success, whatever turn markers the log holds and
    whatever reports, waivers and earlier ledger the run brings. *)
Theorem unterminated_blocks_recovery (facts : list Fact) (key workspace : str) (l : MutationLedger)
    (reports : list VerificationReport) (waivers : list CompletionWaiverV1) (continue : bool)
    (observations : list ExternalObservationV1) :
  (exists f, In f facts /\ prepares key f) -> (forall f, In f facts -> ~ terminal_for key f) ->
  starts_with key CHILD_PREFIX = false ->
  exists message,
    decide_with_observations (replay workspace (inr facts) l) reports waivers continue observations = GateIncomplete message.
Proof.
  intros Hp Ht Hc. apply gate_blocked, (non_empty_inhabited_L key), replay_unresolved; [|done].
  unfold fold_debt. destruct (close_debt (fold_facts parse_outcome recovery_digest false (markers facts) facts)) as (_ & _ & _ & ->).
  apply elem_of_difference. split; [|intros Hs%settled_prefixed; congruence].
  apply elem_of_union_r, elem_of_union_l, (unterminated_facts false (markers facts) facts key Hp Ht).
Qed.

Local Abbreviation restore := (restore_checkpoint_mutation_cache parse_outcome recovery_digest capability_valid capability_digest).
Lemma uncovered_cache_missing cached l :
  has_checkpoint_evidence cached = true -> CACHE_EVIDENCE_MISSING ∈ ml_unresolved (restore_checkpoint_cache cached false l).
Proof. intros E. unfold restore_checkpoint_cache. cbn zeta. rewrite E. cbn [andb negb]. case_match; cbn; set_solver. Qed.
(** A checkpoint that recovery reports as unproved cannot close a run: the
    ledger it leaves is refused by the completion gate, and so is every ledger the
    run reaches from it. *)
Theorem unproved_checkpoint_blocks (workspace session_id : str) (facts : str + list Fact) (ck : LoopCheckpoint)
    (l restored later : MutationLedger) (reports : list VerificationReport) (waivers : list CompletionWaiverV1)
    (continue : bool) (observations : list ExternalObservationV1) :
  restore workspace session_id facts ck l = (Unproved, restored) -> ledger_run restored later ->
  exists message, decide_with_observations later reports waivers continue observations = GateIncomplete message.
Proof.
  intros E Hrun. apply gate_blocked.
  enough (exists key, key ∈ ml_unresolved restored /\ starts_with key CHILD_PREFIX = false) as (key & Hk & Hc)
    by apply (non_empty_inhabited_L key), (run_remembers _ _ Hrun key Hk Hc).
  revert E. unfold restore_checkpoint_mutation_cache. cbn zeta. destruct facts as [error|facts].
  { intros [= <-]. exists ($"tool_effect_log_unreadable:" ++ error). split; [|done]. cbn.
    apply elem_of_filter. split; [by left|]. set_solver. }
  cbn [orb]. destruct (checkpoint_mutation_cache_covered _ _ _ _ facts ck _ _); cbn [negb andb]; [done|].
  destruct (has_checkpoint_evidence _ || _) eqn:He; [|done]. intros [= <-].
  exists CACHE_EVIDENCE_MISSING. split; [|done]. eapply run_remembers; [apply (replay_run workspace (inr facts))| |done].
  destruct (bool_decide (ck_reports ck = [])); cbn [negb] in *.
  - rewrite orb_false_r in He. by apply uncovered_cache_missing.
  - cbn. apply elem_of_filter. split; [by left|]. set_solver.
Qed.
End Facts.
