(* ===== verification/SettlementFacts.v ===== *)
(** A settlement settles: the marker built from a clean log covers all of it. *)
From stdpp Require Import gmap sets.
From S2P Require Import Prelude Text Goal GoalLog Effects Ledger Receipts ReceiptFacts Evidence Recovery.

Section Settlement.
Context `{EffectEnv} `{GoalEnv} (parse_outcome : json -> option ToolExecutionOutcome)
        (recovery_digest : RecoveryUnprovedV1 -> option str) (cut : list Fact -> Z * str).
Local Abbreviation payload f := (payload_json (f_payload f)).
Local Abbreviation step := (fold_fact parse_outcome recovery_digest).
Local Abbreviation run := (fold_facts parse_outcome recovery_digest).

(** ** A later reading of a log leaves less unresolved *)
Definition below (s t : Fold) : Prop := agree s t /\ rd_unresolved (fo_debt s) ⊆ rd_unresolved (fo_debt t).
Lemma below_source source s t : below s t -> below (on_debt (add_source source) s) (on_debt (add_source source) t).
Proof. intros [(E1 & E2 & E3 & E4) Hu]. split; [repeat split; cbn; congruence|]. cbn. set_solver. Qed.
Lemma below_invalidate key s t : below s t -> below (on_debt (invalidate_evidence key) s) (on_debt (invalidate_evidence key) t).
Proof. intros [Ha Hu]. split; [done|]. cbn. set_solver. Qed.
Lemma below_children f s t : below s t -> below (on_children f s) (on_children f t).
Proof. intros [(E1 & E2 & E3 & E4) Hu]. split; [repeat split; cbn; congruence|done]. Qed.
Lemma below_typed u s t : below s t -> below (set_typed u s) (set_typed u t).
Proof. intros [(E1 & E2 & E3 & E4) Hu]. by split; [repeat split|]. Qed.
Lemma below_fold {A} (f : Fold -> A -> Fold) xs s t :
  (forall s t x, below s t -> below (f s x) (f t x)) -> below s t -> below (fold_left f xs s) (fold_left f xs t).
Proof. intros Hf. revert s t. induction xs as [|x xs IH]; intros s t Hst; [done|]. cbn. auto. Qed.
Lemma below_if (b : bool) key s t :
  below s t -> below (if b then on_debt (invalidate_evidence key) s else s) (if b then on_debt (invalidate_evidence key) t else t).
Proof. intros Hst. destruct b; [by apply below_invalidate|done]. Qed.
Lemma below_grow s t t' :
  agree t t' -> rd_unresolved (fo_debt t) ⊆ rd_unresolved (fo_debt t') -> below s t -> below s t'.
Proof. intros Ht Hu [Ha Hs]. split; [by transitivity t|]. set_solver. Qed.
Lemma below_terminal i1 i2 c1 c2 index f receipt s t :
  below s t ->
  below (fold_terminal parse_outcome i1 c1 index f receipt s) (fold_terminal parse_outcome i2 c2 index f receipt t).
Proof.
  intros Hst. unfold fold_terminal. pose proof (proj1 Hst) as (_ & _ & Et & _).
  destruct (parse_result receipt) as [result|]; [|by apply below_invalidate]. rewrite Et.
  destruct (stored_terminal (fo_typed t) result) as [[key value]|]; [|by apply below_invalidate].
  cbn [on_legacy fo_typed]. rewrite Et. apply below_typed.
  assert (Hp : forall (b1 b2 : bool) s t, below s t ->
    below (if b1 then on_debt (add_result index (tp_tool_name value) result) s else s)
          (if b2 then on_debt (add_result index (tp_tool_name value) result) t else t)) by (by intros [] []).
  apply Hp. apply below_fold.
  { intros s' t' child Hb. unfold bind_child. pose proof (proj1 Hb) as (_ & _ & _ & ->). by apply below_children, below_if. }
  apply below_fold; [by intros; apply below_source|].
  assert (Hl : forall g, below (on_legacy g s) (on_legacy g t)) by done.
  destruct (result_uncertain result); [apply below_source|]; by apply below_if.
Qed.
Lemma below_legacy_result f s t : below s t -> below (fold_legacy_result f s) (fold_legacy_result f t).
Proof.
  intros [Ha Hu]. split; [by rewrite !legacy_result_agree|]. unfold fold_legacy_result. repeat case_match; cbn; set_solver.
Qed.
(** A background terminal every reading covers. *)
Lemma below_background c1 c2 index f s t :
  existsb (str_eqb (f_key f)) c1 = true -> below s t ->
  below (fold_background false c1 index f s) (fold_background false c2 index f t).
Proof.
  intros Hc Hst. unfold fold_background. rewrite Hc. cbn [orb negb].
  destruct (jget_str _ _) as [id|]; [|by apply below_invalidate].
  destruct (jget _ _ ≫= _) as [paths|]; [|by apply below_invalidate].
  set (s1 := if background_evidence_valid f id paths then _ else _).
  set (t1 := if background_evidence_valid f id paths then _ else _).
  assert (Hb : below s1 t1).
  { unfold s1, t1. destruct (background_evidence_valid f id paths); [|by apply below_invalidate].
    unfold fold_valid_background. pose proof (proj1 Hst) as (_ & _ & _ & ->). apply below_children.
    apply below_fold; [by intros; apply below_source|]. by apply below_if. }
  clearbody s1 t1. destruct (negb _); [|done]. eapply below_grow; [| |exact Hb].
  - symmetry. apply agree_debt, invisible_project.
  - apply (kept_project (fun d => rd_unresolved (fo_debt t1) ⊆ rd_unresolved d)); cbn; set_solver.
Qed.
(** One fact, read before the last marker of the later reading. *)
Definition covered_exits (m : Markers) (f : Fact) : Prop :=
  kind_is f "background.output" = true -> exited f = true -> existsb (str_eqb (f_key f)) (mk_background m) = true.
Lemma below_step m1 m2 s t index f :
  (index < mk_start m1)%nat -> covered_exits m1 f -> below s t ->
  below (step false m1 s (index, f)) (step false m2 t (index, f)).
Proof.
  intros Hi Hc Hst. unfold fold_fact. cbn zeta. rewrite (proj2 (Nat.leb_gt _ _) Hi). cbn [andb orb].
  assert (Hg : forall t', agree t t' -> rd_unresolved (fo_debt t) ⊆ rd_unresolved (fo_debt t') -> below s t')
    by (intros; by eapply below_grow).
  case_match.
  { unfold fold_recovery. destruct (validate_stored_fact _ _); [by apply below_invalidate|by apply below_source]. }
  case_match.
  { unfold fold_prepared. pose proof (proj1 Hst) as (_ & _ & -> & _).
    destruct (stored_preparation f) as [[key value]|]; [|by apply below_invalidate]. by apply below_typed, below_if. }
  case_match.
  { case_match; [by apply below_terminal|]. destruct (flagged f _ _); [rewrite orb_true_r; by apply below_legacy_result|].
    case_match; [|done]. apply Hg; [by rewrite legacy_result_agree|].
    unfold fold_legacy_result. repeat case_match; cbn; set_solver. }
  case_match; [case_match; [|done]; apply Hg; [by rewrite model_turn_agree|];
               unfold fold_model_turn; destruct (model_position _) as [[]|]; cbn; set_solver|].
  case_match; [case_match; [|done]; by apply Hg; [symmetry; apply agree_legacy|]|].
  case_match; [case_match; [|done]; by apply Hg; [symmetry; apply agree_legacy|]|].
  case_match; [|done]. case_match; [|done]. apply below_background; auto.
Qed.

(** ** What a reading projects *)

(** Steps that neither project a receipt nor record a call. *)
Definition quiet (s t : Fold) : Prop :=
  rd_results (fo_debt t) = rd_results (fo_debt s) /\ rd_paths (fo_debt t) = rd_paths (fo_debt s)
  /\ lc_calls (fo_legacy t) = lc_calls (fo_legacy s).
#[local] Instance quiet_preorder : PreOrder quiet.
Proof. split; [by intros s|]. intros s t u (E1 & E2 & E3) (F1 & F2 & F3). repeat split; congruence. Qed.
Lemma quiet_fold {A} (f : Fold -> A -> Fold) xs st : (forall st x, quiet st (f st x)) -> quiet st (fold_left f xs st).
Proof. intros Hf. revert st. induction xs as [|x xs IH]; intros st; [done|]. cbn. etrans; [apply Hf|apply IH]. Qed.
Lemma quiet_bind index result st child : quiet st (bind_child parse_outcome index result st child).
Proof. unfold bind_child. by repeat case_match. Qed.
Lemma terminal_projects i c index f receipt st result key value :
  parse_result receipt = Some result -> stored_terminal (fo_typed st) result = Some (key, value) ->
  exists st1, quiet st st1
    /\ fo_legacy (fold_terminal parse_outcome i c index f receipt st) = fo_legacy st1
    /\ fo_debt (fold_terminal parse_outcome i c index f receipt st) =
       if i || negb (existsb (str_eqb key) c) then add_result index (tp_tool_name value) result (fo_debt st1) else fo_debt st1.
Proof.
  intros Ep Es. unfold fold_terminal. rewrite Ep, Es. cbn zeta.
  match goal with |- context [if i || ?b then on_debt ?g ?st1 else ?st2] => exists st1 end.
  split; [|destruct (i || _); done].
  etrans; [|apply quiet_fold; intros; apply quiet_bind].
  etrans; [|apply quiet_fold; by intros]. by repeat case_match.
Qed.
Lemma terminal_quiet i c index f receipt st :
  parse_result receipt ≫= stored_terminal (fo_typed st) = None ->
  quiet st (fold_terminal parse_outcome i c index f receipt st).
Proof. unfold fold_terminal. destruct (parse_result receipt) as [result|]; [|done]. cbn. by intros ->. Qed.

(** Every terminal a reading accepts is covered or projected. *)
Definition accounted (m : Markers) (st : Fold) : Prop :=
  forall key, key ∈ dom (tc_terminals (fo_typed st)) ->
  existsb (str_eqb key) (mk_receipts m) = true
  \/ exists r, In r (rd_results (fo_debt st)) /\ identity_key (tr_identity r.2) = Some key.
(** A reading that projects nothing it covers, and has no call of its own. *)
Definition uncovered (m : Markers) (st : Fold) : Prop :=
  lc_calls (fo_legacy st) = ∅
  /\ (rd_results (fo_debt st) = [] -> rd_paths (fo_debt st) = [])
  /\ forall r, In r (rd_results (fo_debt st)) -> exists key, identity_key (tr_identity r.2) = Some key
       /\ key ∈ dom (tc_terminals (fo_typed st)) /\ existsb (str_eqb key) (mk_receipts m) = false.
Lemma results_grow i m st x : exists extra, rd_results (fo_debt (step i m st x)) = rd_results (fo_debt st) ++ extra.
Proof.
  apply (kept_step parse_outcome recovery_digest
    (fun d => exists extra, rd_results d = rd_results (fo_debt st) ++ extra)); cbn.
  1-3,5: naive_solver. 2: by exists []; rewrite app_nil_r.
  intros index tool result d [extra ->]. exists (extra ++ [(tool, result)]). by rewrite app_assoc.
Qed.
Lemma accounted_step m st x : accounted m st -> accounted m (step false m st x).
Proof.
  intros Ha key Hk. destruct (results_grow false m st x) as [extra Eg].
  assert (Hold : key ∈ dom (tc_terminals (fo_typed st)) ->
    existsb (str_eqb key) (mk_receipts m) = true
    \/ exists r, In r (rd_results (fo_debt (step false m st x))) /\ identity_key (tr_identity r.2) = Some key).
  { intros [?|(r & Hin & Hr)]%Ha; [by left|right]. exists r. split; [|done]. rewrite Eg. apply in_or_app. by left. }
  destruct x as [index f]. rewrite typed_step in Hk. destruct (kind_is f "tool.prepared") eqn:E1.
  { rewrite typed_prepared in Hk. apply Hold. by repeat case_match. }
  destruct (kind_is f "tool.result") eqn:E2; [|by apply Hold].
  destruct (jget $"receipt" (payload f)) as [receipt|] eqn:Er; [|by apply Hold].
  rewrite typed_terminal in Hk. destruct (parse_result receipt) as [result|] eqn:Ep; [|by apply Hold].
  destruct (stored_terminal (fo_typed st) result) as [[k value]|] eqn:Es; [|by apply Hold].
  cbn [tc_terminals] in Hk. rewrite dom_insert, elem_of_union, elem_of_singleton in Hk.
  destruct Hk as [->|Hk]; [|by apply Hold].
  destruct (existsb (str_eqb k) (mk_receipts m)) eqn:Ec; [by left|right].
  exists (tp_tool_name value, result). split; [|by apply stored_terminal_key in Es as [? _]].
  unfold fold_fact. cbn zeta. destruct (str_eqb (f_kind f) RECOVERY_UNPROVED_FACT_KIND) eqn:E0.
  { apply str_eqb_spec in E0. unfold kind_is in E2. by rewrite E0 in E2. }
  rewrite E1, E2, Er. destruct (terminal_projects false (mk_receipts m) index f receipt st result k value Ep Es) as (st1 & _ & _ & ->).
  rewrite Ec. cbn. apply in_or_app. right. by left.
Qed.
Lemma terminals_grow i m st x : dom (tc_terminals (fo_typed st)) ⊆ dom (tc_terminals (fo_typed (step i m st x))).
Proof.
  destruct x as [index f]. rewrite typed_step. case_match; [rewrite typed_prepared; by repeat case_match|].
  case_match; [|done]. case_match; [|done]. rewrite typed_terminal. repeat case_match; cbn; set_solver.
Qed.
Lemma background_quiet c index f st : existsb (str_eqb (f_key f)) c = true -> quiet st (fold_background false c index f st).
Proof.
  intros Hc. unfold fold_background. rewrite Hc. cbn [orb negb]. do 2 (case_match; [|done]). case_match; [|done].
  unfold fold_valid_background. etrans; [|by apply quiet_fold]. by case_match.
Qed.
(** Every step before the last marker is quiet, or projects an uncovered terminal. *)
Lemma early_step m st index f :
  (index < mk_start m)%nat -> covered_exits m f -> lc_calls (fo_legacy st) = ∅ ->
  quiet st (step false m st (index, f))
  \/ exists st1 tool result key, quiet st st1 /\ identity_key (tr_identity result) = Some key
       /\ existsb (str_eqb key) (mk_receipts m) = false
       /\ key ∈ dom (tc_terminals (fo_typed (step false m st (index, f))))
       /\ lc_calls (fo_legacy (step false m st (index, f))) = ∅
       /\ fo_debt (step false m st (index, f)) = add_result index tool result (fo_debt st1).
Proof.
  intros Hi Hc Hl. unfold fold_fact. cbn zeta. rewrite (proj2 (Nat.leb_gt _ _) Hi). cbn [andb orb].
  case_match; [left; unfold fold_recovery; by case_match|].
  case_match; [left; unfold fold_prepared; by repeat case_match|].
  case_match.
  - destruct (jget $"receipt" (payload f)) as [receipt|].
    + destruct (parse_result receipt) as [result|] eqn:Ep; [|left; apply terminal_quiet; by rewrite Ep].
      destruct (stored_terminal (fo_typed st) result) as [[key value]|] eqn:Es; [|left; apply terminal_quiet; by rewrite Ep].
      destruct (terminal_projects false (mk_receipts m) index f receipt st result key value Ep Es) as (st1 & Hq & El & Ed).
      cbn [orb] in Ed. destruct (existsb (str_eqb key) (mk_receipts m)) eqn:Ec; cbn [negb] in Ed.
      * left. destruct Hq as (F1 & F2 & F3). unfold quiet. by rewrite Ed, El, F1, F2, F3.
      * right. exists st1, (tp_tool_name value), result, key. pose proof (stored_terminal_key _ _ _ _ Es) as [Ek _].
        repeat split; try apply Hq; try done; [|by rewrite El, (proj2 (proj2 Hq))].
        rewrite typed_terminal, Ep, Es. cbn. set_solver.
    + left. case_match; [|done]. unfold fold_legacy_result. cbn [on_legacy on_debt fo_legacy lc_calls].
      rewrite Hl, lookup_empty. done.
  - left. case_match; [done|]. case_match; [done|]. case_match; [done|]. case_match; [|done]. case_match; [|done].
    apply background_quiet; auto.
Qed.
Lemma uncovered_step m st index f :
  (index < mk_start m)%nat -> covered_exits m f -> uncovered m st -> uncovered m (step false m st (index, f)).
Proof.
  intros Hi Hc (Hl & Hp & Hr). pose proof (terminals_grow false m st (index, f)) as Hg. unfold uncovered.
  destruct (early_step m st index f Hi Hc Hl) as [(E1 & E2 & E3)|(st1 & tool & result & key & Hq & Ek & Ec & Hk & El & Ed)].
  - rewrite E1, E2, E3. repeat split; [done..|]. intros r (key & ? & ? & ?)%Hr. exists key. set_solver.
  - rewrite Ed, El. destruct Hq as (F1 & F2 & F3). cbn [add_result rd_results rd_paths]. rewrite F1.
    split; [done|]. split; [by intros [_ ?]%app_eq_nil|]. intros r [(k & ? & ? & ?)%Hr|[<-|[]]]%in_app_or; [exists k; set_solver|].
    by exists key.
Qed.

(** ** The marker of a settlement *)
Lemma after_last_marker_snoc index facts f :
  is_marker f = true -> after_last_marker index (facts ++ [f]) = S (index + length facts).
Proof.
  intros Hf. revert index. induction facts as [|g facts IH]; intros index; cbn [app after_last_marker length].
  - rewrite Hf. lia.
  - rewrite IH. case_match; lia.
Qed.
Lemma marker_keys_snoc name facts f :
  is_marker f = true ->
  marker_keys name (facts ++ [f]) = marker_keys name facts ++ omap jas_str (default [] (jget (lit name) (payload f) ≫= jas_array)).
Proof.
  intros Hf. unfold marker_keys. rewrite filter_app. cbn [List.filter]. rewrite Hf, bind_app. cbn. by rewrite app_nil_r.
Qed.
Lemma omap_strings ks : omap jas_str (map JString ks) = ks.
Proof. induction ks as [|k ks IH]; [done|]. cbn. by f_equal. Qed.
Lemma existsb_str x xs : existsb (str_eqb x) xs = true <-> In x xs.
Proof. rewrite existsb_exists. setoid_rewrite str_eqb_spec. naive_solver. Qed.
(** The reading after a settlement's marker. *)
Lemma settled_markers facts terminal new f :
  turn_complete_fact parse_outcome recovery_digest cut facts terminal = Some new ->
  f_kind f = n_kind new -> f_payload f = n_payload new ->
  rd_unresolved (fold_debt parse_outcome recovery_digest facts) = ∅ /\ is_marker f = true
  /\ let m := markers (facts ++ [f]) in
     mk_start m = S (length facts)
     /\ (forall g, In g facts -> covered_exits m g)
     /\ (forall key, existsb (str_eqb key) (mk_receipts (markers facts)) = true -> existsb (str_eqb key) (mk_receipts m) = true)
     /\ (forall r key, In r (rd_results (fold_debt parse_outcome recovery_digest facts)) ->
          identity_key (tr_identity r.2) = Some key -> existsb (str_eqb key) (mk_receipts m) = true).
Proof.
  unfold turn_complete_fact. case_bool_decide as Eu; cbn [negb]; [|done]. intros E Ek Ep.
  apply bind_Some in E as (ks & Eks & E). destruct (terminal_fields terminal) as [label digest]. injection E as <-.
  cbn [n_kind n_payload] in Ek, Ep. assert (Hf : is_marker f = true) by (unfold is_marker; by rewrite Ek).
  split; [done|]. split; [done|]. cbn zeta. unfold markers. cbn [mk_start mk_receipts mk_background].
  rewrite after_last_marker_snoc, !marker_keys_snoc, Ep by done. cbn [payload_json].
  change (jget (lit "receipt_keys") (marker_payload _ _ _ _ _) ≫= jas_array) with (Some (map JString ks)).
  change (jget (lit "background_receipt_keys") (marker_payload _ _ _ _ _) ≫= jas_array)
    with (Some (map JString (exited_keys facts))).
  cbn [default from_option id]. rewrite !omap_strings. split; [lia|].
  split; [|split; setoid_rewrite existsb_str; setoid_rewrite in_app_iff; [by left|]].
  - intros g Hg Hb He. cbn [mk_background]. apply existsb_str, in_app_iff. right. apply in_map, filter_In.
    by rewrite Hb, He.
  - intros r key Hr Ek'. right. apply mapM_Some in Eks. apply list_elem_of_In, list_elem_of_lookup in Hr as (n & Hn).
    destruct (Forall2_lookup_l _ _ _ _ _ Eks Hn) as (k & Hk & E). rewrite E in Ek'. injection Ek' as ->.
    apply list_elem_of_In. by eapply list_elem_of_lookup_2.
Qed.
Lemma imap_pair_bound {A} (l : list A) : Forall (fun x => (x.1 < length l)%nat /\ In x.2 l) (imap pair l).
Proof.
  apply List.Forall_forall. intros [n x] Hx. apply list_elem_of_In, list_elem_of_lookup in Hx as (k & Hk). rewrite list_lookup_imap in Hk.
  apply fmap_Some in Hk as (y & Hk & [= <- <-]). cbn. split; [by eapply lookup_lt_Some|].
  apply list_elem_of_In. by eapply list_elem_of_lookup_2.
Qed.
Lemma readings m1 m2 xs s t :
  Forall (fun x => (x.1 < mk_start m1)%nat /\ covered_exits m1 x.2) xs ->
  below s t -> uncovered m1 s -> accounted m2 t ->
  below (fold_left (step false m1) xs s) (fold_left (step false m2) xs t)
  /\ uncovered m1 (fold_left (step false m1) xs s) /\ accounted m2 (fold_left (step false m2) xs t).
Proof.
  intros Hxs. revert s t. induction Hxs as [|[index f] xs [Hi Hc] _ IH]; intros s t Hb Hs Ht; [done|].
  cbn [fold_left]. apply IH; [by apply below_step|by apply uncovered_step|by apply accounted_step].
Qed.
Lemma smaller_debt (L U B R R' S : keys) :
  R' ⊆ R -> (L ∪ (U ∪ (B ∪ R))) ∖ S = ∅ -> (∅ ∪ (U ∪ (B ∪ R'))) ∖ S = ∅.
Proof. set_solver. Qed.
(** C13. A settlement settles: when a run may append its turn marker (nothing
    unresolved, every receipt identified), the log with the marker has no
    unsettled effect left, no open path and nothing unresolved, whatever typed
    receipts, background terminals and legacy results it holds. *)
Theorem settlement_settles (facts : list Fact) (terminal : CompletionTerminal) (new : NewFact) (f : Fact) :
  turn_complete_fact parse_outcome recovery_digest cut facts terminal = Some new ->
  f_kind f = n_kind new -> f_payload f = n_payload new ->
  has_unsettled_effects parse_outcome recovery_digest (facts ++ [f]) = false.
Proof.
  intros E Ek Ep. destruct (settled_markers _ _ _ _ E Ek Ep) as (Eu & Hm & Hstart & Hexit & Hold & Hnew). cbn zeta in *.
  set (m := markers (facts ++ [f])) in *.
  destruct (readings m (markers facts) (imap pair facts) empty_fold empty_fold) as (Hb & (Hl & Hp & Hr) & Ha).
  { eapply List.Forall_impl; [|apply imap_pair_bound]. intros x [Hi Hx]. split; [lia|auto]. }
  { by split. } { by repeat split. } { intros key. cbn. set_solver. }
  change (fold_left (step false m) (imap pair facts) empty_fold) with (run false m facts) in *.
  change (fold_left (step false (markers facts)) (imap pair facts) empty_fold) with (run false (markers facts) facts) in *.
  unfold fold_debt in *. destruct (close_debt (run false (markers facts) facts)) as (_ & Eres & _ & Eun).
  rewrite Eres in Hnew. rewrite Eun in Eu. destruct Hb as [(_ & _ & Et & Ec) Hu].
  assert (Hnone : rd_results (fo_debt (run false m facts)) = []).
  { destruct (rd_results (fo_debt (run false m facts))) as [|r rs]; [done|]. destruct (Hr r) as (key & Ekey & Hk & Hcov); [by left|].
    rewrite Et in Hk. destruct (Ha key Hk) as [?%Hold|(r' & Hin & Hr')]; [congruence|]. by rewrite (Hnew _ _ Hin Hr') in Hcov. }
  unfold has_unsettled_effects, fold_debt. fold m.
  rewrite fold_facts_markers by (by constructor). destruct (close_debt (run false m facts)) as (_ & _ & -> & ->).
  rewrite (Hp Hnone). cbn [List.filter]. rewrite bool_decide_eq_true_2 by done. cbn [negb orb].
  apply negb_false_iff, bool_decide_eq_true. unfold pending_calls, keys_of, unterminated. rewrite Hl, map_to_list_empty, Et, Ec.
  unfold unterminated in Eu. cbn [map list_to_set List.filter sort_strs sort_by foldr].
  exact (smaller_debt _ _ _ _ _ _ Hu Eu).
Qed.
End Settlement.
