(* ===== verification/CursorFacts.v ===== *)
(** The cache-proof cursor is exact: visiting each proof event once, it knows at
    every boundary what a search of the whole prefix would find. *)
From Stdlib Require Import Sorted.
From stdpp Require Import gmap sets.
From S2P Require Import Prelude Text Goal GoalLog Effects Ledger Receipts ReceiptFacts Evidence Recovery.

(** ** The reference: a search of the events up to a boundary *)
Definition happened (events : list CacheProofEvent) (boundary : Z) (operation : CacheProofOperation) : Prop :=
  exists e, In e events /\ Z.of_nat (pe_index e) <= boundary /\ pe_operation e = operation.
Definition proven_at (events : list CacheProofEvent) (boundary : Z) (claimed : keys) (key : str) : Prop :=
  let seen := happened events boundary in
  key ∈ claimed /\ ~ seen (ChildSettled key)
  /\ (seen (AssertedUncertainty key) \/ seen (Prepared key) /\ ~ seen (Terminal key)).

(** ** The state after a list of operations *)
Definition apply_all (c : CacheProofCursor) (ops : list CacheProofOperation) : CacheProofCursor :=
  fold_left (fun c op => bump (apply op c)) ops c.
(** No call is prepared again after its terminal. *)
Definition well_ordered (ops : list CacheProofOperation) : Prop :=
  forall l1 l2 key, ops = l1 ++ Prepared key :: l2 -> ~ In (Terminal key) l1.
Record exact_at (claimed background : keys) (ops : list CacheProofOperation) (c : CacheProofCursor) (k : str) : Prop := {
  at_settled : k ∈ cu_settled c <-> k ∈ claimed /\ In (ChildSettled k) ops;
  at_asserted : k ∈ cu_asserted c <-> k ∈ claimed /\ In (AssertedUncertainty k) ops /\ ~ In (ChildSettled k) ops;
  at_pending : k ∈ cu_pending c <->
    k ∈ claimed /\ In (Prepared k) ops /\ ~ In (Terminal k) ops /\ ~ In (ChildSettled k) ops;
  at_proven : k ∈ cu_proven c <-> k ∈ cu_pending c \/ k ∈ cu_asserted c;
  at_missing : k ∈ cu_missing c <-> k ∈ claimed /\ k ∉ cu_proven c;
  at_background : k ∈ cu_missing_background c <-> k ∈ background /\ ~ In (BackgroundReady k) ops;
}.
Definition exact_for (claimed background : keys) (ops : list CacheProofOperation) (c : CacheProofCursor) : Prop :=
  cu_claimed c = claimed /\ forall k, exact_at claimed background ops c k.
#[global] Instance CacheProofOperation_eq_dec : EqDecision CacheProofOperation.
Proof. solve_decision. Defined.
Lemma well_ordered_snoc ops op : well_ordered (ops ++ [op]) -> well_ordered ops.
Proof. intros Hw l1 l2 key ->. apply (Hw l1 (l2 ++ [op])). by rewrite <-app_assoc. Qed.
Definition op_key (op : CacheProofOperation) : str :=
  match op with Prepared k | Terminal k | AssertedUncertainty k | BackgroundReady k | ChildSettled k => k end.
(** An operation touches its own key only. *)
Lemma apply_other op c k :
  k <> op_key op ->
  (k ∈ cu_settled (apply op c) <-> k ∈ cu_settled c) /\ (k ∈ cu_asserted (apply op c) <-> k ∈ cu_asserted c)
  /\ (k ∈ cu_pending (apply op c) <-> k ∈ cu_pending c) /\ (k ∈ cu_proven (apply op c) <-> k ∈ cu_proven c)
  /\ (k ∈ cu_missing (apply op c) <-> k ∈ cu_missing c)
  /\ (k ∈ cu_missing_background (apply op c) <-> k ∈ cu_missing_background c).
Proof.
  intros Hne. destruct op; cbn [apply op_key] in *; repeat case_bool_decide; cbn;
    rewrite ?elem_of_union, ?elem_of_difference, ?elem_of_singleton; repeat split; tauto.
Qed.
Lemma exact_snoc claimed background ops op c :
  well_ordered (ops ++ [op]) -> exact_for claimed background ops c ->
  exact_for claimed background (ops ++ [op]) (bump (apply op c)).
Proof.
  intros Hw [Ec Hx].
  assert (Hfresh : forall key, op = Prepared key -> ~ In (Terminal key) ops) by (intros key ->; by apply (Hw ops [] key)).
  split; [destruct op; cbn [apply]; by repeat case_bool_decide|]. intros k. destruct (Hx k) as [Hs Ha Hp Hv Hm Hb].
  clear Hw Hx. destruct (decide (k = op_key op)) as [->|Hne].
  - specialize (Hfresh (op_key op)). destruct op; cbn [apply op_key] in *; repeat case_bool_decide; rewrite ?Ec in *;
      split; rewrite ?in_snoc; cbn -[In]; rewrite ?elem_of_union, ?elem_of_difference, ?elem_of_singleton;
      clear Ec; intuition congruence.
  - destruct (apply_other op c k Hne) as (E1 & E2 & E3 & E4 & E5 & E6). cbn [bump].
    assert (Hin : forall (mk : str -> CacheProofOperation), (forall k, op_key (mk k) = k) ->
              In (mk k) (ops ++ [op]) <-> In (mk k) ops).
    { intros mk Hmk. rewrite in_snoc. split; [|by left]. intros [?|E]; [done|]. by rewrite <-E, Hmk in Hne. }
    split; cbn -[In]; rewrite ?E1, ?E2, ?E3, ?E4, ?E5, ?E6, ?Hin by done; done.
Qed.
Lemma exact_all claimed background ops :
  well_ordered ops -> exact_for claimed background ops (apply_all (new_cursor claimed background) ops).
Proof.
  induction ops as [|op ops IH] using rev_ind; intros Hw; [split; [done|]; split; cbn; set_solver|].
  unfold apply_all. rewrite fold_left_app. cbn [fold_left]. apply exact_snoc; [done|]. apply IH. by eapply well_ordered_snoc.
Qed.

(** ** Advancing *)
Fixpoint upto (boundary : Z) (events : list CacheProofEvent) : list CacheProofEvent :=
  match events with
  | e :: rest => if boundary <? Z.of_nat (pe_index e) then [] else e :: upto boundary rest
  | [] => []
  end.
Lemma visit_upto b events c : visit b events c = apply_all c (map pe_operation (upto b events)).
Proof. revert c. induction events as [|e events IH]; intros c; [done|]. cbn [visit upto]. case_match; [done|]. by rewrite IH. Qed.
Lemma upto_split a b events : a <= b -> upto b events = upto a events ++ upto b (drop (length (upto a events)) events).
Proof.
  intros Hab. induction events as [|e events IH]; [done|]. cbn [upto].
  destruct (a <? _) eqn:Ea; cbn [length drop app]; [done|]. apply Z.ltb_ge in Ea.
  rewrite (proj2 (Z.ltb_ge b _)) by lia. by rewrite IH at 1.
Qed.
Lemma apply_reach op b c : apply op (reach b c) = reach b (apply op c).
Proof. destruct op; cbn [apply reach]; by repeat case_bool_decide. Qed.
Lemma apply_all_reach b c ops : apply_all (reach b c) ops = reach b (apply_all c ops).
Proof. revert c. induction ops as [|op ops IH]; intros c; [done|]. unfold apply_all in *. cbn [fold_left]. rewrite apply_reach. apply (IH (bump (apply op c))). Qed.
Lemma apply_frame op c :
  cu_next_event (apply op c) = cu_next_event c /\ cu_stopped (apply op c) = cu_stopped c
  /\ cu_last_boundary (apply op c) = cu_last_boundary c.
Proof. destruct op; cbn [apply]; by repeat case_bool_decide. Qed.
Lemma apply_all_frame c ops :
  cu_next_event (apply_all c ops) = (cu_next_event c + length ops)%nat /\ cu_stopped (apply_all c ops) = cu_stopped c
  /\ cu_last_boundary (apply_all c ops) = cu_last_boundary c.
Proof.
  revert c. induction ops as [|op ops IH]; intros c; [cbn; repeat split; lia|]. unfold apply_all in *. cbn [fold_left].
  destruct (IH (bump (apply op c))) as (-> & -> & ->). destruct (apply_frame op c) as (E1 & E2 & E3). cbn.
  rewrite E1, E2, E3. repeat split; lia.
Qed.
(** The cursor that visited every event up to a boundary. *)
Definition cursor_at (claimed background : keys) (events : list CacheProofEvent) (b : Z) : CacheProofCursor :=
  reach b (apply_all (new_cursor claimed background) (map pe_operation (upto b events))).
Section Advance.
Context (debt : ReceiptDebt) (events : list CacheProofEvent) (claimed background : keys).
Local Abbreviation at_ := (cursor_at claimed background events).
Lemma advance_new b :
  advance_until debt events b (new_cursor claimed background) = (proof_ready (rd_integrity_invalid debt) (at_ b), at_ b).
Proof. unfold advance_until. cbn [new_cursor cu_stopped cu_last_boundary orb cu_next_event drop]. by rewrite visit_upto. Qed.
Lemma advance_at a b :
  a <= b -> advance_until debt events b (at_ a) = (proof_ready (rd_integrity_invalid debt) (at_ b), at_ b).
Proof.
  intros Hab. unfold advance_until, cursor_at.
  destruct (apply_all_frame (new_cursor claimed background) (map pe_operation (upto a events))) as (En & Es & _).
  cbn [reach cu_stopped cu_last_boundary cu_next_event]. rewrite En, Es. cbn [new_cursor cu_stopped cu_next_event orb Nat.add].
  rewrite (proj2 (Z.ltb_ge b a)) by done. rewrite visit_upto, length_map, apply_all_reach. cbn [reach].
  unfold apply_all. rewrite <-fold_left_app, <-map_app, <-upto_split by done. done.
Qed.
Lemma advance_all bs a :
  Sorted Z.le (a :: bs) -> exists b, fold_left (fun c b => snd (advance_until debt events b c)) bs (at_ a) = at_ b
                                     /\ forall z, Sorted Z.le ((a :: bs) ++ [z]) -> b <= z.
Proof.
  revert a. induction bs as [|b bs IH]; intros a Hs; cbn [fold_left].
  { exists a. split; [done|]. intros z Hz. inversion Hz as [|? ? _ Hd]; subst. by inversion Hd. }
  inversion Hs as [|? ? Hs' Hd]; subst. inversion Hd; subst. rewrite advance_at by done.
  destruct (IH b Hs') as (last & E & Hl). exists last. split; [done|]. intros z Hz. apply Hl. by inversion Hz.
Qed.
(** Any ascending walk ends where one step would. *)
Lemma walk_end bs b :
  Sorted Z.le (bs ++ [b]) ->
  advance_until debt events b (fold_left (fun c b => snd (advance_until debt events b c)) bs (new_cursor claimed background))
  = (proof_ready (rd_integrity_invalid debt) (at_ b), at_ b).
Proof.
  destruct bs as [|a bs]; intros Hs; [apply advance_new|]. cbn [fold_left]. rewrite advance_new. cbn [snd].
  assert (Hs' : Sorted Z.le (a :: bs)).
  { clear -Hs. revert a Hs. induction bs as [|c bs IH]; intros a Hs; [by repeat constructor|].
    inversion Hs as [|? ? Hs' Hd]; subst. constructor; [by apply IH|]. by inversion Hd; constructor. }
  destruct (advance_all bs a Hs') as (last & -> & Hl). apply advance_at. by apply Hl.
Qed.
End Advance.

(** ** The events of a log are in order *)
Lemma event_leb_total a b : event_leb a b = true \/ event_leb b a = true.
Proof.
  unfold event_leb. destruct (Nat.lt_total (pe_index a) (pe_index b)) as [Hl|[He|Hl]].
  - left. by rewrite (proj2 (Nat.ltb_lt _ _) Hl).
  - rewrite He, Nat.ltb_irrefl, Nat.eqb_refl. cbn [orb andb]. rewrite !Nat.leb_le. lia.
  - right. by rewrite (proj2 (Nat.ltb_lt _ _) Hl).
Qed.
Lemma event_leb_spec a b :
  event_leb a b = true <->
  (pe_index a < pe_index b)%nat \/ pe_index a = pe_index b /\ (phase (pe_operation a) <= phase (pe_operation b))%nat.
Proof. unfold event_leb. by rewrite orb_true_iff, andb_true_iff, Nat.ltb_lt, Nat.eqb_eq, Nat.leb_le. Qed.
Lemma event_leb_trans a b c : event_leb a b = true -> event_leb b c = true -> event_leb a c = true.
Proof. rewrite !event_leb_spec. lia. Qed.
Local Abbreviation in_order := (StronglySorted (fun a b => event_leb a b = true)).
Lemma upto_happened b events op :
  in_order events -> In op (map pe_operation (upto b events)) <-> happened events b op.
Proof.
  intros Hs. unfold happened. rewrite in_map_iff. induction Hs as [|e events Hs IH Hall]; cbn [upto].
  { split; [by intros (? & _ & [])|by intros (? & [] & _)]. }
  destruct (b <? Z.of_nat (pe_index e)) eqn:Eb.
  - apply Z.ltb_lt in Eb. split; [by intros (? & _ & [])|]. intros (x & [<-|Hx] & Hi & _); [lia|].
    rewrite List.Forall_forall in Hall. apply Hall, event_leb_spec in Hx. lia.
  - apply Z.ltb_ge in Eb. split.
    + intros (x & Ex & [<-|Hx]); [exists e; by split; [left|]|].
      destruct (proj1 IH) as (y & Hy & Hi & Ey); [by exists x|]. exists y. by split; [right|].
    + intros (x & [<-|Hx] & Hi & Ex); [by exists e; split; [|left]|].
      destruct (proj2 IH) as (y & Ey & Hy); [by exists x|]. exists y. by split; [|right].
Qed.
Lemma upto_prefix b events : exists rest, events = upto b events ++ rest.
Proof. induction events as [|e events [rest IH]]; [by exists []|]. cbn [upto]. case_match; [by eexists|]. exists rest. cbn. by f_equal. Qed.
(** Each call has one preparation and one terminal event, in this order. *)
Definition calls_in_order (events : list CacheProofEvent) : Prop :=
  forall p t key, In p events -> In t events -> pe_operation p = Prepared key -> pe_operation t = Terminal key ->
  (pe_index p <= pe_index t)%nat.
Lemma ordered_well_ordered b events :
  in_order events -> calls_in_order events -> well_ordered (map pe_operation (upto b events)).
Proof.
  intros Hs Hc l1 l2 key E Ht. destruct (upto_prefix b events) as [rest Er].
  apply map_eq_app in E as (e1 & e2 & Eu & <- & E2). apply map_eq_cons in E2 as (p & e3 & -> & Ep & <-).
  apply in_map_iff in Ht as (t & Et & Ht). rewrite Eu, <-app_assoc in Er. rewrite Er in Hs, Hc.
  assert (Hle : (pe_index p <= pe_index t)%nat) by (eapply Hc; eauto; apply in_app_iff; [right; by left|by left]).
  assert (Hlt : event_leb t p = true).
  { clear -Hs Ht. induction e1 as [|x e1 IH]; [done|]. cbn in Hs. inversion Hs as [|? ? Hs' Hall]; subst.
    destruct Ht as [->|Ht]; [|by apply IH]. rewrite List.Forall_forall in Hall. apply Hall, in_app_iff. right. by left. }
  apply event_leb_spec in Hlt. rewrite Ep, Et in Hlt. cbn in Hlt. lia.
Qed.

Lemma in_map_events (mk : str -> CacheProofOperation) (m : gmap (list Z) nat) (e : CacheProofEvent) :
  In e (map_events mk m) <-> exists key, m !! key = Some (pe_index e) /\ pe_operation e = mk key.
Proof.
  unfold map_events, entries. rewrite in_map_iff. setoid_rewrite <-list_elem_of_In. setoid_rewrite elem_of_sort_by. split.
  - intros ([key n] & <- & Hin%elem_of_map_to_list). by exists key.
  - intros (key & Hk & Ho). exists (key, pe_index e). split; [|by apply elem_of_map_to_list]. destruct e. cbn in *. by subst.
Qed.
Lemma in_cache_events st e :
  In e (cache_proof_events st) ->
  (forall key, pe_operation e = Prepared key -> tc_prepared_indices (fo_typed st) !! key = Some (pe_index e))
  /\ (forall key, pe_operation e = Terminal key -> tc_terminal_indices (fo_typed st) !! key = Some (pe_index e)).
Proof.
  unfold cache_proof_events. cbn zeta. rewrite <-list_elem_of_In, elem_of_sort_by, !elem_of_app, !list_elem_of_In, !in_map_events.
  intros [(k & Hk & ->)|[(k & Hk & ->)|[Hs|[(k & Hk & ->)|(k & Hk & ->)]]]]; try (split; intros ? [= <-]; done).
  apply list_elem_of_In, list_elem_of_omap in Hs as (source & _ & E). unfold source_event in E.
  destruct (match us_background_key source with Some _ => _ | None => _ end); [|done]. injection E as <-. done.
Qed.

Section Log.
Context `{EffectEnv} `{GoalEnv} (parse_outcome : json -> option ToolExecutionOutcome)
        (recovery_digest : RecoveryUnprovedV1 -> option str).
Local Abbreviation step := (fold_fact parse_outcome recovery_digest).
(** Where a log prepared a call and where it ended it. *)
Definition indexed (n : nat) (t : TypedCalls) : Prop :=
  dom (tc_prepared_indices t) = dom (tc_prepared t)
  /\ (forall key i, tc_prepared_indices t !! key = Some i -> (i < n)%nat)
  /\ (forall key j, tc_terminal_indices t !! key = Some j -> exists i, tc_prepared_indices t !! key = Some i /\ (i <= j)%nat).
Lemma or_insert_lookup (key : str) (n : nat) (m : gmap (list Z) nat) (k : str) :
  or_insert key n m !! k = match m !! k with Some i => Some i | None => if decide (k = key) then Some n else None end.
Proof.
  unfold or_insert. destruct (m !! key) eqn:E.
  - destruct (m !! k) eqn:Ek; [done|]. case_decide; [congruence|done].
  - destruct (decide (k = key)) as [->|Hne]; [by rewrite lookup_insert, E, decide_True by done|].
    rewrite lookup_insert_ne by done. by destruct (m !! k).
Qed.
Lemma or_insert_dom (key : str) (n : nat) (m : gmap (list Z) nat) : dom (or_insert key n m) = {[ key ]} ∪ dom m.
Proof.
  unfold or_insert. destruct (m !! key) eqn:E; [|apply dom_insert_L]. apply elem_of_dom_2 in E. set_solver.
Qed.
Lemma indexed_weaken n t : indexed n t -> indexed (S n) t.
Proof. intros (E & Hp & Ht). split; [done|]. split; [|done]. intros key i ?%Hp. lia. Qed.
Lemma indexed_prepared n t key value :
  indexed n t ->
  indexed (S n) (mkTyped (<[key := value]> (tc_prepared t)) (tc_terminals t) (or_insert key n (tc_prepared_indices t))
                         (tc_terminal_indices t)).
Proof.
  intros (E & Hp & Ht). unfold indexed. cbn. setoid_rewrite or_insert_lookup. split; [by rewrite or_insert_dom, dom_insert_L, E|].
  split.
  - intros k i. destruct (_ !! k) eqn:Ek; [intros [= <-]; apply Hp in Ek; lia|]. case_decide; [intros [= <-]; lia|done].
  - intros k j (i & Hi & Hle)%Ht. exists i. by rewrite Hi.
Qed.
Lemma indexed_terminal n t key result :
  indexed n t -> key ∈ dom (tc_prepared t) ->
  indexed (S n) (mkTyped (tc_prepared t) (<[key := result]> (tc_terminals t)) (tc_prepared_indices t)
                         (or_insert key n (tc_terminal_indices t))).
Proof.
  intros (E & Hp & Ht) Hk. unfold indexed. cbn. setoid_rewrite or_insert_lookup. split; [done|].
  split; [intros k i ?%Hp; lia|]. intros k j. destruct (_ !! k) eqn:Ek; [intros [= <-]; by apply Ht|].
  case_decide as Ed; [|done]. intros [= <-]. subst k. rewrite <-E in Hk. apply elem_of_dom in Hk as (i & Hi).
  exists i. split; [done|]. apply Hp in Hi. lia.
Qed.
Lemma indexed_step i m st n f : indexed n (fo_typed st) -> indexed (S n) (fo_typed (step i m st (n, f))).
Proof.
  intros Hn. pose proof (indexed_weaken _ _ Hn) as Hw. rewrite typed_step. case_match.
  { rewrite typed_prepared. destruct (stored_preparation f) as [[key value]|]; [by apply indexed_prepared|done]. }
  case_match; [|done]. case_match; [|done]. rewrite typed_terminal. destruct (parse_result _) as [result|]; [|done].
  destruct (stored_terminal _ _) as [[key value]|] eqn:Es; [|done]. apply stored_terminal_key in Es as [_ Hk].
  by apply indexed_terminal.
Qed.
Lemma indexed_facts i m facts : exists n, indexed n (fo_typed (fold_facts parse_outcome recovery_digest i m facts)).
Proof.
  unfold fold_facts. change (imap pair facts) with (imap (fun n (f : Fact) => ((0 + n)%nat, f)) facts).
  assert (Hs : indexed 0 (fo_typed empty_fold)) by (split; [done|split; intros ? ?; cbn; by rewrite lookup_empty]).
  revert Hs. generalize empty_fold, 0%nat. induction facts as [|f facts IH]; intros st k Hs; [by exists k|].
  rewrite imap_cons. cbn [fold_left]. rewrite Nat.add_0_r. apply (indexed_step i m _ _ f) in Hs.
  destruct (IH _ _ Hs) as [n Hn]. exists n. erewrite imap_ext; [exact Hn|]. intros j g _. cbn. f_equal. lia.
Qed.
Lemma cache_events_in_order facts :
  let events := snd (fold_cache_evidence parse_outcome recovery_digest facts) in
  in_order events /\ calls_in_order events.
Proof.
  cbn [fold_cache_evidence snd]. split; [apply sort_by_ordered; [apply event_leb_total|apply event_leb_trans]|].
  intros p t key Hp Ht Ep Et. apply in_cache_events in Hp as [Hp _], Ht as [_ Ht]. specialize (Hp key Ep). specialize (Ht key Et).
  destruct (indexed_facts true (markers facts) facts) as (n & _ & _ & Hi). destruct (Hi _ _ Ht) as (i & Hpi & Hle). congruence.
Qed.

(** C14. The cursor that checks a cached claim is exact: after any ascending walk
    over a log's receipts it holds as proven precisely the claimed invocations that
    the events up to the boundary prove uncertain (asserted by a terminal, or
    prepared and not yet ended, and not a settled child), and it reports readiness
    precisely when the log is intact, every claim is proven and every claimed
    background receipt has arrived; each event is visited once. *)
Theorem cursor_exact (facts : list Fact) (claimed background : keys) (bs : list Z) (b : Z) :
  Sorted Z.le (bs ++ [b]) ->
  let '(debt, events) := fold_cache_evidence parse_outcome recovery_digest facts in
  let '(ready, c) := advance_until debt events b
      (fold_left (fun c b => snd (advance_until debt events b c)) bs (new_cursor claimed background)) in
  (forall key, key ∈ cu_proven c <-> proven_at events b claimed key)
  /\ (ready = true <->
      rd_integrity_invalid debt = false /\ (forall key, key ∈ claimed -> proven_at events b claimed key)
      /\ forall key, key ∈ background -> happened events b (BackgroundReady key))
  /\ cu_next_event c = length (upto b events).
Proof.
  intros Hs. pose proof (cache_events_in_order facts) as [Ho Hc].
  destruct (fold_cache_evidence parse_outcome recovery_digest facts) as [debt events]. cbn [snd] in *. rewrite walk_end by done.
  destruct (exact_all claimed background _ (ordered_well_ordered b events Ho Hc)) as [Ec Hx].
  set (ops := map pe_operation (upto b events)) in *. set (c := apply_all _ ops) in *.
  assert (Hp : forall key, key ∈ cu_proven c <-> proven_at events b claimed key).
  { intros key. destruct (Hx key) as [_ Ha Hpe Hv _ _]. unfold proven_at. rewrite Hv, Ha, Hpe.
    rewrite <-!(upto_happened b events _ Ho). fold ops. tauto. }
  unfold cursor_at. fold ops. fold c. split; [exact Hp|]. split.
  2:{ destruct (apply_all_frame (new_cursor claimed background) ops) as (En & _).
      fold c in En. cbn [reach cu_next_event]. rewrite En. unfold ops. by rewrite length_map. }
  unfold proof_ready. cbn [reach cu_missing cu_missing_background].
  rewrite !andb_true_iff, !bool_decide_eq_true, negb_true_iff, !set_eq.
  assert (Hm : (forall x, x ∈ cu_missing c <-> x ∈ (∅ : keys)) <-> forall key, key ∈ claimed -> proven_at events b claimed key).
  { split; intros Hall key; specialize (Hall key); rewrite (at_missing _ _ _ _ _ (Hx key)), <-Hp in *;
      [destruct (decide (key ∈ cu_proven c))|]; set_solver. }
  assert (Hb : (forall x, x ∈ cu_missing_background c <-> x ∈ (∅ : keys)) <->
               forall key, key ∈ background -> happened events b (BackgroundReady key)).
  { split; intros Hall key; specialize (Hall key); rewrite <-(upto_happened b events _ Ho) in *; fold ops;
      pose proof (at_background _ _ _ _ _ (Hx key)); [destruct (in_dec CacheProofOperation_eq_dec (BackgroundReady key) ops)|]; set_solver. }
  rewrite Hm, Hb. tauto.
Qed.
End Log.
