(* ===== verification/EvidenceFacts.v ===== *)
(** What an accepted goal step proves: reports survive the wire, and a step's
    evidence is the intact, complete and closed record of its own run. *)
From stdpp Require Import gmap sets.
From S2P Require Import Prelude Text Verification VerificationFacts Goal GoalLog GoalLogFacts Effects Ledger LedgerFacts Receipts ReceiptFacts Evidence.

(** ** Reports on the wire *)
Lemma status_roundtrip s : status_of (JString (status_wire s)) = Some s.
Proof. by destruct s. Qed.
Lemma list_of_strings l : list_of jas_str (JArray (map JString l)) = Some l.
Proof. unfold list_of. cbn. induction l as [|s l IH]; [done|]. cbn. cbn in IH. by rewrite IH. Qed.
Lemma list_of_map {A} (f : A -> json) (g : json -> option A) l :
  (forall a, g (f a) = Some a) -> list_of g (JArray (map f l)) = Some l.
Proof. intros Hg. unfold list_of. cbn. induction l as [|a l IH]; [done|]. cbn. rewrite Hg. cbn. cbn in IH. by rewrite IH. Qed.
(** A list that serializes, with a name for its JSON. *)
Lemma encoded_strings (l : list str) : exists v, JArray (map JString l) = v /\ list_of jas_str v = Some l.
Proof. eexists. split; [done|]. apply list_of_strings. Qed.
Lemma check_roundtrip c : check_of (check_value c) = Some c.
Proof.
  destruct c as [id kind description status required tools uris risk]. unfold check_of, check_value, list_entry.
  cbn [vc_suggested_tools vc_evidence_uris].
  destruct (encoded_strings tools) as (vt & -> & Et), (encoded_strings uris) as (vu & -> & Eu).
  destruct tools as [|t tools], uris as [|u uris], risk as [risk|], status;
    lazy -[list_of jas_str]; rewrite ?Et, ?Eu; done.
Qed.
(** A verification report survives serialization: what a tool result stores is
    read back as the same report, with every check, risk and effect digest. *)
Theorem report_roundtrip (r : VerificationReport) : report_of (report_value r) = Some r.
Proof.
  destruct r as [schema subject status checks risks digest]. unfold report_of, report_value, list_entry.
  cbn [vr_residual_risks vr_checks].
  destruct (encoded_strings risks) as (vr & -> & Er).
  pose proof (list_of_map check_value check_of checks check_roundtrip) as Ec. revert Ec.
  generalize (JArray (map check_value checks)). intros vc Ec.
  destruct risks as [|k risks], digest as [digest|], status;
    lazy -[list_of jas_str check_of]; rewrite Ec, ?Er; done.
Qed.

(** ** The evidence of a step *)
Section Evidence.
Context `{EffectEnv} `{GoalEnv} (parse_outcome : json -> option ToolExecutionOutcome)
        (recovery_digest : RecoveryUnprovedV1 -> option str)
        (evidence_text : list (str * ToolExecutionResultV1) -> option VerificationReport -> option str).

Definition ledger_of (results : list (str * ToolExecutionResultV1)) : MutationLedger :=
  fold_left (fun l r => observe_tool_receipt (fst r) (snd r) l) results empty_ledger.
Definition admitted (session_id run_id capability : str) (r : str * ToolExecutionResultV1) : Prop :=
  exists a, ii_admission (tr_identity r.2) = Some a /\ ad_run_id a = run_id /\ ad_thread_id a = session_id
            /\ ad_capability_binding_digest a = capability.
(** A report recorded by a successful call, not by the editor itself. *)
Definition recorded (results : list (str * ToolExecutionResultV1)) (r : VerificationReport) : Prop :=
  exists tool result envelope metadata value,
    In (tool, result) results /\ tr_outcome result = Outcomes.Succeeded
    /\ jas_str (tr_output result) ≫= decode_fact_tool_result parse_outcome = Some envelope
    /\ en_metadata envelope = Some metadata /\ jget $"verification_report" metadata = Some value
    /\ report_of value = Some r /\ report_author metadata <> AuthorEditor.
(** What evidence for a step of a run amounts to, over the run's own facts. *)
Record step_earned (own : list Fact) (session_id run_id : str) (attestation : option VerificationReport)
    (reports : list VerificationReport) (results : list (str * ToolExecutionResultV1)) : Prop := {
  se_results : rd_results (fst (fold_cache_evidence parse_outcome recovery_digest own)) = results /\ results <> [];
  se_intact : rd_integrity_invalid (fst (fold_cache_evidence parse_outcome recovery_digest own)) = false;
  se_known : rd_unresolved (fst (fold_cache_evidence parse_outcome recovery_digest own)) = ∅;
  se_bound : exists capability, Forall (admitted session_id run_id capability) results;
  se_reports : forall r, In r reports ->
    vr_schema r = VERIFICATION_REPORT_SCHEMA
    /\ (recorded results r
        \/ attestation = Some r /\ ml_records (ledger_of results) <> []
           /\ vr_effect_digest r = Some (ml_digest (ledger_of results)));
  se_closed : ml_unresolved (ledger_of results) = ∅
    /\ (ml_records (ledger_of results) = []
        \/ exists r, In r reports /\ bound_pass r (ml_digest (ledger_of results)));
  se_achieved : (exists r c, In r reports /\ In c (vr_checks r) /\ vc_required c = true /\ vc_status c = Verdicts.Passed)
    /\ forall r, In r reports -> clean_report r;
}.

Lemma collected r metadata :
  In r (collect_verification_report metadata) ->
  exists m value, metadata = Some m /\ jget $"verification_report" m = Some value /\ report_of value = Some r
                  /\ report_author m <> AuthorEditor.
Proof.
  unfold collect_verification_report. intros Hr. destruct (_ ≫= _) as [x|] eqn:E; [|done]. destruct Hr as [->|[]].
  apply bind_Some in E as (m & -> & E). apply bind_Some in E as (value & Ev & E). apply bind_Some in E as (rep & Er & E).
  exists m, value. repeat split; [done| |]; unfold accept_report in E; destruct (report_author m) eqn:Ea; simplify_eq; done.
Qed.
(** The pass over a list of receipts. *)
Definition passed (session_id run_id : str) (results : list (str * ToolExecutionResultV1)) (p : StepPass) : Prop :=
  sp_ledger p = ledger_of results
  /\ (forall r, In r (sp_reports p) -> recorded results r)
  /\ match sp_capability p with
     | Some capability => Forall (admitted session_id run_id capability) results
     | None => results = []
     end.
Lemma recorded_app results r more : recorded results r -> recorded (results ++ more) r.
Proof. intros (tool & result & e & m & v & Hin & Hr). exists tool, result, e, m, v. split; [apply in_app_iff; by left|done]. Qed.
Lemma read_passed session_id run_id results p r p' :
  passed session_id run_id results p -> read_receipt parse_outcome session_id run_id (Some p) r = Some p' ->
  passed session_id run_id (results ++ [r]) p'.
Proof.
  intros (El & Hr & Hc) E. destruct r as [tool result]. unfold read_receipt in E. cbn [mbind option_bind] in E.
  apply bind_Some in E as (a & Ea & E). destruct (_ || _) eqn:Eb; [done|]. apply bind_Some in E as (reports & Er & E).
  injection E as <-. rewrite !orb_false_iff, !negb_false_iff, !str_eqb_spec in Eb. destruct Eb as [[E1 E2] E3].
  unfold passed. cbn [sp_ledger sp_reports sp_capability]. split; [by rewrite El; unfold ledger_of; rewrite fold_left_app|]. split.
  - intros r Hin. case_bool_decide as Eo; [|injection Er as <-; by apply recorded_app, Hr].
    apply bind_Some in Er as (envelope & Ee & Er). injection Er as <-.
    apply in_app_iff in Hin as [Hin|Hin]; [by apply recorded_app, Hr|].
    apply collected in Hin as (m & value & Em & Ev & Ep & Hauthor). exists tool, result, envelope, m, value.
    split; [apply in_app_iff; right; by left|done].
  - apply Forall_app. split; [|repeat constructor; by exists a].
    destruct (sp_capability p) as [digest|]; [|by subst]. apply negb_false_iff, str_eqb_spec in E3. by subst.
Qed.
Lemma fold_read_none session_id run_id rs : fold_left (read_receipt parse_outcome session_id run_id) rs None = None.
Proof. by induction rs. Qed.
Lemma fold_passed session_id run_id rs results p p' :
  passed session_id run_id results p -> fold_left (read_receipt parse_outcome session_id run_id) rs (Some p) = Some p' ->
  passed session_id run_id (results ++ rs) p'.
Proof.
  revert results p. induction rs as [|r rs IH]; intros results p Hp E; cbn [fold_left] in E.
  { injection E as <-. by rewrite app_nil_r. }
  destruct (read_receipt parse_outcome session_id run_id (Some p) r) as [p1|] eqn:E1; [|by rewrite fold_read_none in E].
  rewrite (app_assoc results [r] rs : results ++ r :: rs = _). eapply IH; [by eapply read_passed|done].
Qed.

Lemma attested_reports results reports attestation all :
  attested (ledger_of results) reports attestation = Some all ->
  forall r, In r all -> In r reports
    \/ attestation = Some r /\ ml_records (ledger_of results) <> [] /\ vr_effect_digest r = Some (ml_digest (ledger_of results)).
Proof.
  unfold attested. destruct attestation as [a|]; [|intros [= <-]; by left].
  destruct (ledger_is_empty _ || _) eqn:E; [done|]. cbn. intros [= <-] r. rewrite in_snoc.
  apply orb_false_iff in E as [E1 E2]. unfold ledger_is_empty in E1. apply bool_decide_eq_false in E1.
  apply negb_false_iff, bool_decide_eq_true in E2. intros [?| ->]; [by left|by right].
Qed.
Lemma from_seq_suffix seq facts own : from_seq seq facts = Some own -> exists before, facts = before ++ own.
Proof.
  induction facts as [|f facts IH]; [done|]. cbn. case_match; [intros [= <-]; by exists []|].
  intros (before & ->)%IH. by exists (f :: before).
Qed.
Lemma evidence_earned facts seq session_id run_id attestation reports text :
  evidence_for_goal_step parse_outcome recovery_digest evidence_text facts seq session_id run_id attestation = Some (reports, text) ->
  exists own results, from_seq seq facts = Some own
    /\ step_earned own session_id run_id attestation reports results
    /\ evidence_text results attestation = Some text /\ len text <= EVIDENCE_LIMIT.
Proof.
  unfold evidence_for_goal_step. intros E. apply bind_Some in E as (own & Eo & E). exists own.
  destruct (rd_integrity_invalid _) eqn:Ei; [done|]. case_bool_decide as Eu; [|done]. case_bool_decide as Eb; [|done].
  case_bool_decide as Er; [done|]. cbn [orb negb] in E. apply bind_Some in E as (p & Ep & E).
  apply bind_Some in E as (all & Ea & E). destruct (_ || _) eqn:Eg; [done|]. apply bind_Some in E as (t & Et & E).
  destruct (EVIDENCE_LIMIT <? len t) eqn:El; [done|]. injection E as -> ->. apply Z.ltb_ge in El.
  assert (Hp : passed session_id run_id (rd_results (fst (fold_cache_evidence parse_outcome recovery_digest own))) p).
  { eapply (fold_passed _ _ _ []); [|exact Ep]. by repeat split. }
  destruct Hp as (Hl & Hrec & Hc). set (results := rd_results _) in *. exists results. split; [done|]. split; [|done].
  apply orb_false_iff in Eg as [[Es Each]%orb_false_iff Egate]. apply negb_false_iff in Each, Egate.
  rewrite Hl in Ea, Egate. pose proof (attested_reports _ _ _ _ Ea) as Hall.
  destruct (decide_completion _ _ _ _) as [terminal| |] eqn:Ed; try done. clear Egate.
  unfold decide_completion in Ed. apply gate_allow_iff in Ed as (Hun & _ & _ & _ & Hclose).
  apply supports_iff in Each. setoid_rewrite in_all_checks in Each.
  split; [done|done|done| | | | ].
  - destruct (sp_capability p) as [capability|]; [by exists capability|]. by rewrite Hc in Er.
  - intros r Hin. rewrite existsb_none in Es. specialize (Es r Hin). apply negb_false_iff, str_eqb_spec in Es.
    split; [done|]. destruct (Hall r Hin) as [?%Hrec|?]; [by left|by right].
  - split; [done|]. destruct terminal; cbn in Hclose; [by left| | |done].
    + right. destruct Hclose as (_ & -> & _ & r & Hin & Hb). by exists r.
    + by destruct Hclose as (_ & _ & w & [] & _).
  - unfold clean_report, clean_check. naive_solver.
Qed.
End Evidence.

(** ** Encoded sessions *)
Section Encoded.
Context `{EffectEnv} `{GoalEnv} (parse_outcome : json -> option ToolExecutionOutcome)
        (recovery_digest : RecoveryUnprovedV1 -> option str)
        (evidence_text : list (str * ToolExecutionResultV1) -> option VerificationReport -> option str).
(** A session whose id is not its own thread name can never have a goal step
    accepted: receipts are admitted under the encoded thread, and the evidence is
    compared with the raw id, so no log of the session yields evidence. *)
Theorem encoded_session_has_no_evidence (facts : list Fact) (seq : Z) (session_id run_id : str)
    (attestation : option VerificationReport) :
  thread_for_session session_id <> session_id ->
  (forall own r a, from_seq seq facts = Some own ->
     In r (rd_results (fst (fold_cache_evidence parse_outcome recovery_digest own))) ->
     ii_admission (tr_identity r.2) = Some a -> ad_thread_id a = thread_for_session session_id) ->
  evidence_for_goal_step parse_outcome recovery_digest evidence_text facts seq session_id run_id attestation = None.
Proof.
  intros Hne Hall. destruct (evidence_for_goal_step _ _ _ _ _ _ _ _) as [[reports text]|] eqn:E; [|done].
  apply evidence_earned in E as (own & results & Eo & Hearned & _).
  destruct (se_results _ _ _ _ _ _ _ _ Hearned) as [Er Hres], (se_bound _ _ _ _ _ _ _ _ Hearned) as [capability Hb].
  destruct results as [|r results]; [done|]. inversion Hb as [|? ? (a & Ea & _ & Et & _) _]; subst.
  destruct Hne. rewrite <-(Hall own r a Eo); [done| |done]. rewrite Er. by left.
Qed.
End Encoded.
