(* ===== verification/StepProof.v ===== *)
(** The goal stream over the real receipt fold: the interface that the goal
    projection asks of the host is discharged by the receipt fold, and an accepted
    step of a goal is traced back to the receipts that earned it. *)
From stdpp Require Import gmap sets.
From S2P Require Import Prelude Text Verification VerificationFacts Planning Goal GoalLog GoalLogFacts Effects Ledger LedgerFacts Receipts ReceiptFacts Evidence EvidenceFacts.

Section Step.
Context `{EffectEnv} (parse_outcome : json -> option ToolExecutionOutcome)
        (recovery_digest : RecoveryUnprovedV1 -> option str)
        (evidence_text : list (str * ToolExecutionResultV1) -> option VerificationReport -> option str)
        (hash_plan : PlanDefinition -> str)
        (hash_authorization : str -> WorkspaceRef -> GoalDefinitionCommandV1 -> str)
        (hash_bytes : str -> str -> str).
(** Reports are verification reports; hashes stay parameters. *)
#[local] Instance code_goal : GoalEnv := {
  Report := VerificationReport;
  plan_digest := hash_plan;
  authorization_digest := hash_authorization;
  digest_bytes := hash_bytes;
}.
Context (hash_command : Digested -> str) (cut : list Fact -> Z * str).
(** What the goal stream asks of the fact control, as the fact control provides it. *)
#[local] Instance code_log : LogEnv := {
  command_digest := hash_command;
  GoalLog.cut_log := cut;
  GoalLog.has_unsettled_effects := Receipts.has_unsettled_effects parse_outcome recovery_digest;
  GoalLog.evidence_for_goal_step := Evidence.evidence_for_goal_step parse_outcome recovery_digest evidence_text;
}.
Context (session : str) (workspace : WorkspaceRef) (policy : option str).

Lemma fold_step_evidence f current facts op dg v reports :
  fold_step f current facts session workspace policy = Good (op, dg, v, reports) ->
  exists body prefix rest text, decode_step (f_payload f) = Some body /\ facts = prefix ++ rest
    /\ Evidence.evidence_for_goal_step parse_outcome recovery_digest evidence_text prefix (tb_run_sequence (gf_body body))
         session (tb_run_id (gf_body body)) (tb_attestation (gf_body body)) = Some (reports, text).
Proof.
  unfold fold_step. intros E. ginv. guards. destruct x9 as [reports' text]. simplify_eq. cbn [fst] in *.
  match goal with H1 : GoalLog.evidence_for_goal_step (take ?n _) _ _ _ _ = _, H2 : decode_step _ = Some ?stored |- _ =>
    exists stored, (take n facts), (drop n facts), text; by rewrite take_drop end.
Qed.
Lemma fold_facts_visits (one : FoldedDefinitions -> Fact -> GoalResult FoldedDefinitions) l st st' f :
  GoalLog.fold_facts one st l = Good st' -> In f l -> is_goal_fact f = true -> exists s s', one s f = Good s'.
Proof.
  revert st. induction l as [|g l IH]; intros st E; [done|]. cbn [GoalLog.fold_facts] in E. intros [->|Hin] Hf.
  - rewrite Hf in E. ginv. eauto.
  - destruct (is_goal_fact g); ginv; eauto.
Qed.
Lemma accepted_is_goal_fact f : is_kind Kinds.StepAccepted f = true -> is_goal_fact f = true.
Proof. unfold is_kind, is_goal_fact. intros E%str_eqb_spec. by rewrite E. Qed.

(** C6. Every accepted step of a goal was earned by its own run: for each
    acceptance fact in a log the goal stream accepts, the facts between the run's
    admission and the source the acceptance cites are intact and leave nothing
    unresolved, each prepared call among them has its terminal, every receipt was
    admitted to that run, session and one capability, the reports come from
    successful calls or the host's attestation of that very effect and never from
    the editor, a required check passed and none failed or is pending, and a
    recorded mutation is closed by a passing report bound to its digest. *)
Theorem accepted_step_is_proved (facts : list Fact) (f : Fact) (operation : option str) (st : FoldedDefinitions) :
  fold_definitions facts session workspace policy operation = Good st -> In f facts -> is_kind Kinds.StepAccepted f = true ->
  exists stored prefix rest own reports results,
    decode_step (f_payload f) = Some stored /\ facts = prefix ++ rest
    /\ from_seq (tb_run_sequence (gf_body stored)) prefix = Some own
    /\ step_earned parse_outcome recovery_digest own session (tb_run_id (gf_body stored)) (tb_attestation (gf_body stored))
         reports results
    /\ forall key, starts_with key CHILD_PREFIX = false -> (exists g, In g own /\ prepares key g) ->
         exists g, In g own /\ terminal_for key g.
Proof.
  intros Hfold Hin Hk. destruct (fold_facts_visits _ _ _ _ f Hfold Hin (accepted_is_goal_fact _ Hk)) as (s & s' & Hone).
  apply fold_one_kind in Hone as (k & op & dg & v & u & Ek & E & _).
  rewrite (is_kind_logged _ _ _ Ek) in Hk. apply bool_decide_eq_true in Hk. subst k. cbn [fold_kind] in E. ginv.
  match goal with H1 : fold_step _ _ _ _ _ _ = Good ?r |- _ => destruct r as [[[op' dg'] v'] reports] end.
  match goal with H1 : fold_step _ _ _ _ _ _ = _ |- _ => apply fold_step_evidence in H1 as (stored & prefix & rest & text & Ed & Ef & Ee) end.
  apply evidence_earned in Ee as (own & results & Eo & Hearned & _). exists stored, prefix, rest, own, reports, results.
  split_and!; [done..|]. intros key Hc Hp. pose proof (se_known _ _ _ _ _ _ _ _ Hearned) as Hu.
  apply (all_terminated parse_outcome recovery_digest true (markers own)); [exact Hu| |done].
  intros child Hs%settled_prefixed ->. congruence.
Qed.
End Step.
