(* ===== verification/Porcelain.v ===== *)
(** What changed in the workspace ([porcelain.rs]): git status read as exact path
    names, file identities of dirty and hidden paths, the bounded walk of a tree
    without git, the difference of two observations, and the typed receipt made
    from it. The answers of git, of the directory reader and of the file observer
    at one moment are a parameter. *)
From stdpp Require Import gmap.
From S2P Require Import Prelude Text Paths Effects Ledger.

Abbreviation bytes := (list Z) (only parsing).
Definition FILE_WALK_CAP : Z := 4096.
Definition NONGIT_WALK_CAP : Z := 2 ^ 18.
Definition OBSERVATION_PATH_BYTE_CAP : Z := 4096.
Definition OBSERVATION_BYTE_CAP : Z := 64 * 1024 * 1024.
Definition CHANGED_PATH_BYTE_CAP : Z := 2 ^ 30.

(** ** Records *)
Record ContentStamp : Type := mkStamp {
  cs_path : str; cs_present : bool; cs_len : Z; cs_modified : Z; cs_mode : Z; cs_kind : Z;
  cs_content_digest : option str;
}.
#[global] Instance ContentStamp_eq_dec : EqDecision ContentStamp.
Proof. solve_decision. Defined.
Record NodeStamp : Type := mkNode {
  ns_path : str; ns_kind : Z; ns_dev : Z; ns_ino : Z; ns_mode : Z; ns_len : Z;
  ns_modified : Z * Z; ns_changed : Z * Z;
}.
#[global] Instance NodeStamp_eq_dec : EqDecision NodeStamp.
Proof. solve_decision. Defined.
(** The fields of [libc::stat] the code reads. *)
Record Stat : Type := mkStat {
  st_mode : Z; st_dev : Z; st_ino : Z; st_size : Z; st_mtime : Z; st_mtime_nsec : Z; st_ctime : Z; st_ctime_nsec : Z;
}.
Record Snapshot : Type := mkSnapshot {
  sn_porcelain : option (list str); sn_head : option str; sn_stamps : list ContentStamp;
  sn_stamps_incomplete : bool; sn_git_worktree : bool;
}.
Definition observes_git (s : Snapshot) : bool :=
  sn_git_worktree s || match sn_porcelain s with Some _ => true | None => false end.
Record PathDelta : Type := mkDelta { pd_paths : list str; pd_incomplete : bool }.
Record FileIndex : Type := mkIndex { fx_entries : list NodeStamp; fx_incomplete : bool }.

(** The workspace at one moment: [git] within its time and output bounds, the
    entries of one directory up to a limit, and the identity of one file under the
    remaining byte budget. *)
Class Moment : Type := {
  git : list str -> option bytes;
  directory_entries : list bytes -> Z -> option (list (bytes * Stat) * bool);
  observe_identity_unix : str -> Z -> option ContentStamp * Z;
}.

(** ** Path names in git's notation *)
Definition octal (n : Z) : str := [48 + n / 64 mod 8; 48 + n / 8 mod 8; 48 + n mod 8].
Definition quote_char (c : char) : str :=
  if (c =? c_backslash) || (c =? c_dquote) then [c_backslash; c]
  else if ((0 <=? c) && (c <=? 31)) || (c =? 127) then c_backslash :: octal c
  else [c].
Definition quote_git_path (path : str) : str := [c_dquote] ++ concat (map quote_char path) ++ [c_dquote].

Definition is_octal (c : char) : bool := (48 <=? c) && (c <=? 55).
(** [u8::saturating_mul(8)] and [saturating_add] of the next digit *)
Definition octal_next (value : Z) (digit : char) : Z := Z.min 255 (Z.min 255 (value * 8) + (digit - 48)).
Definition simple_escape (c : char) : option Z :=
  if (c =? c_backslash) || (c =? c_dquote) then Some c
  else if c =? 110 then Some 10 else if c =? 116 then Some 9 else if c =? 114 then Some 13
  else if c =? 97 then Some 7 else if c =? 98 then Some 8 else if c =? 102 then Some 12
  else if c =? 118 then Some 11 else None.
Fixpoint decode_inner (s : str) : option bytes :=
  match s with
  | [] => Some []
  | c :: s =>
      if negb (c =? c_backslash) then tail ← decode_inner s; Some (utf8_char c ++ tail)
      else match s with
      | [] => None
      | next :: s =>
          match simple_escape next with
          | Some b => tail ← decode_inner s; Some (b :: tail)
          | None =>
              if negb (is_octal next) then None
              else
                let value := next - 48 in
                match s with
                | d1 :: s1 =>
                    if is_octal d1 then
                      match s1 with
                      | d2 :: s2 =>
                          if is_octal d2
                          then tail ← decode_inner s2; Some (octal_next (octal_next value d1) d2 :: tail)
                          else tail ← decode_inner s1; Some (octal_next value d1 :: tail)
                      | [] => Some [octal_next value d1]
                      end
                    else tail ← decode_inner s; Some (value :: tail)
                | [] => Some [value]
                end
          end
      end
  end.
Definition decode_git_path (raw : str) : option str :=
  let raw := trim raw in
  match raw with
  | c :: rest =>
      if negb (c =? c_dquote) then Some raw
      else match rev rest with
      | last :: reversed => if last =? c_dquote then decode_inner (rev reversed) ≫= from_utf8 else None
      | [] => None
      end
  | [] => Some raw
  end.

(** [split_arrow]: the first arrow outside quotes. *)
Definition ARROW : str := $" -> ".
Fixpoint arrow_from (quoted escaped : bool) (before : str) (s : str) : option (str * str) :=
  match s with
  | [] => None
  | c :: rest =>
      if quoted then
        arrow_from (escaped || negb (c =? c_dquote)) (negb escaped && (c =? c_backslash)) (c :: before) rest
      else if c =? c_dquote then arrow_from true false (c :: before) rest
      else match strip_prefix ARROW s with
      | Some after =>
          let from := trim (rev before) in
          let to := trim after in
          if str_eqb from [] || str_eqb to [] then None else Some (from, to)
      | None => arrow_from false false (c :: before) rest
      end
  end.
Definition split_arrow (body : str) : option (str * str) := arrow_from false false [] body.

Definition is_rename (status : str) : bool := contains_char status 82 || contains_char status 67.
Definition readable_path (piece : str) : option str :=
  path ← decode_git_path piece;
  if str_eqb path [] || contains_char path c_nl then None else Some path.
Definition paths_of (line : str) : option (list str) :=
  if len line <? 4 then None
  else
    '(status, _) ← split_at_byte line 2;
    '(_, body) ← split_at_byte line 3;
    let body := trim body in
    if str_eqb body [] then None
    else mapM readable_path
           (if is_rename status then match split_arrow body with Some (from, to) => [from; to] | None => [body] end
            else [body]).

(** ** Reading git's output *)
Definition nul_fields (output : bytes) : list bytes := List.filter (fun p => negb (str_eqb p [])) (split_on 0 output).
Definition status_line (status path : str) : str := status ++ [c_space] ++ quote_git_path path.
(** The status letters and the name of one field. *)
Definition status_field (part : bytes) : option (str * str) :=
  if OBSERVATION_PATH_BYTE_CAP + 3 <? Z.of_nat (length part) then None
  else
    text ← from_utf8 part;
    if (len text <? 4) || negb (bool_decide (part !! 2%nat = Some c_space)) then None
    else
      '(status, _) ← split_at_byte text 2;
      '(_, path) ← split_at_byte text 3;
      Some (status, path).
Definition at_cap (records : list str) (extra : Z) : bool := FILE_WALK_CAP <? Z.of_nat (length records) + extra.
(** The source of a rename is a deletion when it is named. *)
Definition deletion (path : str) : list str := if str_eqb path [] then [] else [status_line $"D " path].
Fixpoint read_records (records : list str) (incomplete : bool) (parts : list bytes) : list str * bool :=
  match parts with
  | [] => (records, incomplete)
  | part :: parts =>
      if at_cap records 1 then (records, true)
      else match status_field part with
      | None => read_records records true parts
      | Some (status, path) =>
          if is_rename status then
            if at_cap records 2 then (records, true)
            else match parts with
            | [] => (if str_eqb path [] then records else records ++ [status_line status path], true)
            | dest :: parts =>
                match from_utf8 dest with
                | None => read_records records true parts
                | Some dest =>
                    let bad := str_eqb dest [] || (OBSERVATION_PATH_BYTE_CAP <? len dest) in
                    read_records (records ++ (if bad then [] else [status_line status dest]) ++ deletion path)
                                 (incomplete || bad) parts
                end
            end
          else if str_eqb path [] then read_records records true parts
          else read_records (records ++ [status_line status path]) incomplete parts
      end
  end.
Definition porcelain_records (output : bytes) : list str * bool := read_records [] false (nul_fields output).

(** [bind_git_path]: outside the workspace, unusable, or relative to it. *)
Definition bind_git_path (path prefix : str) : unit + option str :=
  match strip_prefix prefix path with
  | None => inr None
  | Some relative =>
      if str_eqb relative [] || (OBSERVATION_PATH_BYTE_CAP <? len relative)
         || existsb (fun c => negb (is_normal c)) (components relative)
      then inl tt else inr (Some relative)
  end.
Definition scope_path (status prefix : str) (path : str) : option (list str) :=
  match bind_git_path path prefix with
  | inl _ => None
  | inr None => Some []
  | inr (Some relative) => Some [status_line status relative]
  end.
Definition scope_record (prefix record : str) : option (list str) :=
  '(status, _) ← split_at_byte record 2;
  paths ← paths_of record;
  scoped ← mapM (scope_path status prefix) paths;
  Some (concat scoped).
Definition scope_porcelain_records (records : list str) (prefix : str) : option (list str) :=
  scoped ← mapM (scope_record prefix) records; Some (concat scoped).

Definition hidden_flag (b : Z) : bool := (b =? 83) || (b =? 115) || (b =? 104).
Fixpoint read_hidden (paths : list str) (incomplete : bool) (parts : list bytes) : list str * bool :=
  match parts with
  | [] => (paths, incomplete)
  | part :: parts =>
      match part with
      | flag :: sep :: _ :: _ =>
          if negb (sep =? c_space) then read_hidden paths true parts
          else if negb (hidden_flag flag) then read_hidden paths incomplete parts
          else match from_utf8 (drop 2 part) with
          | None => read_hidden paths true parts
          | Some path =>
              if str_eqb path [] || contains_char path c_nl || (OBSERVATION_PATH_BYTE_CAP <? len path)
              then read_hidden paths true parts
              else if Z.of_nat (length paths) =? FILE_WALK_CAP then (paths, true)
              else read_hidden (paths ++ [path]) incomplete parts
          end
      | _ => read_hidden paths true parts
      end
  end.
Definition parse_hidden_index_paths (output : bytes) : list str * bool := read_hidden [] false (nul_fields output).
Fixpoint scope_hidden (prefix : str) (paths : list str) : list str * bool :=
  match paths with
  | [] => ([], false)
  | path :: paths =>
      let '(scoped, incomplete) := scope_hidden prefix paths in
      match bind_git_path path prefix with
      | inr (Some relative) => (relative :: scoped, incomplete)
      | inr None => (scoped, incomplete)
      | inl _ => (scoped, true)
      end
  end.
Fixpoint read_names (prefix : str) (names : list str) (parts : list bytes) : option (list str) :=
  match parts with
  | [] => Some names
  | part :: parts =>
      name ← from_utf8 part;
      if str_eqb name [] || contains_char name c_nl || (OBSERVATION_PATH_BYTE_CAP <? len name)
         || (Z.of_nat (length names) =? FILE_WALK_CAP) then None
      else match bind_git_path name prefix with
      | inl _ => None
      | inr None => read_names prefix names parts
      | inr (Some relative) => read_names prefix (names ++ [relative]) parts
      end
  end.

(** ** Differences of two readings *)
Definition sorted_set (paths : list str) : list str := dedup (sort_strs paths).
Definition porcelain_paths (lines : list str) : option (list str) :=
  found ← mapM paths_of lines; Some (sorted_set (concat found)).
(** The lines on one side only. *)
Definition without (lines others : list str) : list str :=
  List.filter (fun line => negb (existsb (str_eqb line) others)) lines.
Definition is_none {A} (o : option A) : bool := match o with None => true | Some _ => false end.
Definition diff_porcelain (before after : list str) : PathDelta :=
  let changed := without after before ++ without before after in
  mkDelta (sorted_set (concat (omap paths_of changed))) (existsb (fun line => is_none (paths_of line)) changed).
Definition changed_paths (before after : list str) : list str := pd_paths (diff_porcelain before after).
(** The two halves of [combine_delta]: status lines and revisions. *)
Definition status_delta (before_porcelain after_porcelain : option (list str)) : PathDelta :=
  match before_porcelain, after_porcelain with
  | Some before, Some after => diff_porcelain before after
  | Some _, None => mkDelta [] true
  | None, _ => mkDelta [] false
  end.
Definition revision_delta (before_head after_head : option str) (names : option (list str)) : PathDelta :=
  match before_head, after_head with
  | Some before, Some after =>
      if str_eqb before after then mkDelta [] false
      else match names with Some names => mkDelta names false | None => mkDelta [] true end
  | Some _, None => mkDelta [] true
  | None, _ => mkDelta [] false
  end.
Definition combine_delta (before_porcelain after_porcelain : option (list str)) (before_head after_head : option str)
    (names : option (list str)) : PathDelta :=
  let statuses := status_delta before_porcelain after_porcelain in
  let revisions := revision_delta before_head after_head names in
  mkDelta (sorted_set (pd_paths statuses ++ pd_paths revisions)) (pd_incomplete statuses || pd_incomplete revisions).
Definition drop_foreign_revision (paths revision_paths still_dirty : list str) : list str :=
  match revision_paths with
  | [] => paths
  | _ => List.filter (fun path => negb (existsb (str_eqb path) revision_paths) || existsb (str_eqb path) still_dirty) paths
  end.
(** The stamp a path had before: the last of the list. *)
Definition stamp_of (path : str) (stamps : list ContentStamp) : option ContentStamp :=
  List.find (fun s => str_eqb (cs_path s) path) (rev stamps).
Definition content_changes (before after : list ContentStamp) : list str :=
  omap (fun stamp => match stamp_of (cs_path stamp) before with
                     | Some previous => if bool_decide (previous = stamp) then None else Some (cs_path stamp)
                     | None => None
                     end) after.
Definition source_paths (paths : list str) : list str := List.filter (fun path => negb (is_harness_path path)) paths.

(** ** One moment *)
Definition S_IFMT : Z := 61440.
Definition node_kind (mode : Z) : option Z :=
  let format := Z.land mode S_IFMT in
  if format =? 32768 then Some 0 else if format =? 16384 then Some 1 else if format =? 40960 then Some 2 else None.
Definition node_stamp (relative : str) (s : Stat) : option NodeStamp :=
  if str_eqb relative [] || (OBSERVATION_PATH_BYTE_CAP <? len relative) then None
  else
    kind ← node_kind (st_mode s);
    if st_size s <? 0 then None
    else Some (mkNode relative kind (st_dev s) (st_ino s) (st_mode s) (st_size s)
                      (st_mtime s, st_mtime_nsec s) (st_ctime s, st_ctime_nsec s)).
Definition HARNESS_NAMES : list string := [".git"; ".a3s"; ".a3s-code"].

(** The state of the walk; the stack holds the directories still to read, the next
    one first. *)
Record Walk : Type := mkWalk {
  wk_entries : list NodeStamp; wk_incomplete : bool; wk_visited : Z; wk_stack : list (list bytes);
}.
Definition visit_entry (dir : list bytes) (w : Walk) (entry : bytes * Stat) : Walk :=
  let '(name, stat) := entry in
  let visited := wk_visited w + 1 in
  if one_of name HARNESS_NAMES then mkWalk (wk_entries w) (wk_incomplete w) visited (wk_stack w)
  else
    let path := dir ++ [name] in
    match (relative ← from_utf8 (join [c_slash] path); node_stamp relative stat) with
    | None => mkWalk (wk_entries w) true visited (wk_stack w)
    | Some stamp =>
        mkWalk (wk_entries w ++ [stamp]) (wk_incomplete w) visited
               (if ns_kind stamp =? 1 then path :: wk_stack w else wk_stack w)
    end.
Definition stamp_leb (a b : ContentStamp) : bool := str_leb (cs_path a) (cs_path b).
Definition node_leb (a b : NodeStamp) : bool := str_leb (ns_path a) (ns_path b).
Fixpoint dedup_stamps (l : list ContentStamp) : list ContentStamp :=
  match l with
  | a :: ((b :: _) as rest) =>
      match dedup_stamps rest with
      | b' :: rest' => if str_eqb (cs_path a) (cs_path b') then a :: rest' else a :: b' :: rest'
      | [] => [a]
      end
  | _ => l
  end.

Section Observe.
Context `{Moment}.

(** *** Walking a tree without git *)
Fixpoint walk (fuel : nat) (cap : Z) (w : Walk) : Res Walk :=
  match wk_stack w with
  | [] => Ok w
  | dir :: stack =>
      match fuel with
      | O => OutOfFuel
      | S fuel =>
          let w := mkWalk (wk_entries w) (wk_incomplete w) (wk_visited w) stack in
          match directory_entries dir (cap - wk_visited w) with
          | None => walk fuel cap (mkWalk (wk_entries w) true (wk_visited w) (wk_stack w))
          | Some (found, incomplete) =>
              let w := mkWalk (wk_entries w) (wk_incomplete w || incomplete) (wk_visited w) (wk_stack w) in
              let w := fold_left (visit_entry dir) found w in
              if (cap <=? wk_visited w) && negb (bool_decide (wk_stack w = []))
              then Ok (mkWalk (wk_entries w) true (wk_visited w) (wk_stack w))
              else walk fuel cap w
          end
      end
  end.
Definition index_files_within (cap : Z) : Res FileIndex :=
  w ← walk (S (Z.to_nat cap)) cap (mkWalk [] false 0 [[]]);
  Ok (mkIndex (sort_by node_leb (wk_entries w)) (wk_incomplete w)).
Definition index_files : Res FileIndex := index_files_within NONGIT_WALK_CAP.
Definition node_of (path : str) (entries : list NodeStamp) : option NodeStamp :=
  List.find (fun s => str_eqb (ns_path s) path) (rev entries).
Definition index_delta (before after : FileIndex) : PathDelta :=
  if fx_incomplete before || fx_incomplete after then mkDelta [] true
  else
    let changed := List.filter (fun path => negb (bool_decide (node_of path (fx_entries before) = node_of path (fx_entries after))))
                               (map ns_path (fx_entries after)) in
    let gone := List.filter (fun path => is_none (node_of path (fx_entries after))) (map ns_path (fx_entries before)) in
    mkDelta (sorted_set (changed ++ gone)) false.
Definition file_delta (before : FileIndex) : Res PathDelta := after ← index_files; Ok (index_delta before after).

(** *** Identities of named files *)
Definition observe_file_identity (relative : str) (budget : Z) : option ContentStamp * Z :=
  if OBSERVATION_PATH_BYTE_CAP <? len relative then (None, budget) else observe_identity_unix relative budget.
Record Stamping : Type := mkStamping {
  sg_stamps : list ContentStamp; sg_incomplete : bool; sg_bytes : Z; sg_paths : Z;
}.
Fixpoint stamp_each (seen : list str) (paths : list str) (g : Stamping) : Stamping :=
  match paths with
  | [] => g
  | path :: rest =>
      if OBSERVATION_PATH_BYTE_CAP <? len path
      then stamp_each seen rest (mkStamping (sg_stamps g) true (sg_bytes g) (sg_paths g))
      else if existsb (str_eqb path) seen || is_harness_path path then stamp_each (path :: seen) rest g
      else if sg_paths g =? 0 then mkStamping (sg_stamps g) true (sg_bytes g) (sg_paths g)
      else
        let '(stamp, budget) := observe_file_identity path (sg_bytes g) in
        stamp_each (path :: seen) rest
          (mkStamping (sg_stamps g ++ option_list stamp) (sg_incomplete g || is_none stamp) budget (sg_paths g - 1))
  end.
(** [stamp_paths] with the remaining budgets of bytes and paths. *)
Definition stamp_paths (paths : list str) (byte_budget path_budget : Z) : Stamping :=
  let g := stamp_each [] paths (mkStamping [] false byte_budget path_budget) in
  mkStamping (sort_by stamp_leb (sg_stamps g)) (sg_incomplete g) (sg_bytes g) (sg_paths g).
Fixpoint line_paths (paths : list str) (incomplete : bool) (lines : list str) : list str * bool :=
  match lines with
  | [] => (paths, incomplete)
  | line :: lines =>
      match paths_of line with
      | Some found =>
          if Z.of_nat (length paths + length found) <=? FILE_WALK_CAP then line_paths (paths ++ found) incomplete lines
          else (paths, true)
      | None => line_paths paths true lines
      end
  end.
Definition stamp_lines (lines : list str) (byte_budget path_budget : Z) : Stamping :=
  let '(paths, incomplete) := line_paths [] false lines in
  let g := stamp_paths paths byte_budget path_budget in
  mkStamping (sg_stamps g) (incomplete || sg_incomplete g) (sg_bytes g) (sg_paths g).

(** *** Git *)
Definition git_args (l : list string) : list str := map lit l.
Definition workspace_git_prefix : option str :=
  output ← git (git_args ["rev-parse"; "--show-prefix"]);
  text ← from_utf8 output;
  prefix ← strip_suffix [c_nl] text;
  if (OBSERVATION_PATH_BYTE_CAP <? len prefix) || contains_char prefix c_nl
     || (negb (str_eqb prefix []) && negb (ends_with prefix [c_slash])) then None
  else Some prefix.
Definition status_lines : option (list str) :=
  prefix ← workspace_git_prefix;
  output ← git (git_args ["status"; "--porcelain"; "-z"; "-u"; "--"; "."]);
  let '(records, incomplete) := porcelain_records output in
  if (incomplete : bool) then None else scope_porcelain_records records prefix.
Definition inside_work_tree : bool :=
  match git (git_args ["rev-parse"; "--is-inside-work-tree"]) with
  | Some output => str_eqb (trim (from_utf8_lossy output)) $"true"
  | None => false
  end.
Definition hidden_index_paths : option (list str * bool) :=
  prefix ← workspace_git_prefix;
  output ← git (git_args ["ls-files"; "--full-name"; "-v"; "-z"; "--"; "."]);
  let '(paths, incomplete) := parse_hidden_index_paths output in
  let '(scoped, unusable) := scope_hidden prefix paths in
  Some (scoped, incomplete || unusable).
Definition revision : option str :=
  output ← git (git_args ["rev-parse"; "HEAD"]);
  let revision := trim (from_utf8_lossy output) in
  if str_eqb revision [] then None else Some revision.
Definition names_between (before after : str) : option (list str) :=
  prefix ← workspace_git_prefix;
  output ← git (git_args ["diff"; "--name-only"; "--no-relative"; "-z"] ++ [before; after] ++ git_args ["--"; "."]);
  read_names prefix [] (nul_fields output).

(** *** Snapshots and deltas *)
Definition snapshot : Snapshot :=
  let porcelain := status_lines in
  let git_worktree := negb (is_none porcelain) || inside_work_tree in
  let '(stamps, incomplete) :=
    match porcelain with
    | None => ([], git_worktree)
    | Some lines =>
        let g := stamp_lines lines OBSERVATION_BYTE_CAP FILE_WALK_CAP in
        match hidden_index_paths with
        | None => (sg_stamps g, true)
        | Some (paths, parse_incomplete) =>
            let extra := stamp_paths paths (sg_bytes g) (sg_paths g) in
            (dedup_stamps (sort_by stamp_leb (sg_stamps g ++ sg_stamps extra)),
             sg_incomplete g || parse_incomplete || sg_incomplete extra)
        end
    end in
  mkSnapshot porcelain revision stamps incomplete git_worktree.
Definition command_delta (before : Snapshot) (attribute_revision : bool) : PathDelta :=
  let after := snapshot in
  let names := match sn_head before, sn_head after with
               | Some b, Some a => if str_eqb b a then Some [] else names_between b a
               | _, _ => Some []
               end in
  let names_for_combine := if attribute_revision || is_none names then names else Some [] in
  let observed := combine_delta (sn_porcelain before) (sn_porcelain after) (sn_head before) (sn_head after) names_for_combine in
  let incomplete := pd_incomplete observed || sn_stamps_incomplete before || sn_stamps_incomplete after in
  let paths := pd_paths observed ++ content_changes (sn_stamps before) (sn_stamps after) in
  let paths :=
    if negb attribute_revision && negb incomplete then
      match names, sn_porcelain after with
      | Some names, Some lines =>
          match porcelain_paths lines with
          | Some still_dirty => drop_foreign_revision paths names still_dirty
          | None => paths
          end
      | _, _ => paths
      end
    else paths in
  mkDelta (sorted_set paths) incomplete.
Definition delta (before : Snapshot) : PathDelta := command_delta before true.

(** [Watch]: the baseline of one command. *)
Record Watch : Type := mkWatch { wa_snapshot : Snapshot; wa_files : option FileIndex }.
Definition start_watch : Res Watch :=
  let s := snapshot in
  if observes_git s then Ok (mkWatch s None) else files ← index_files; Ok (mkWatch s (Some files)).
Definition finish_observed_with_revision (w : Watch) (attribute_revision : bool) : Res PathDelta :=
  let observed := command_delta (wa_snapshot w) attribute_revision in
  files ← (match wa_files w with Some files => file_delta files | None => Ok (mkDelta [] false) end);
  Ok (mkDelta (sorted_set (pd_paths observed ++ pd_paths files)) (pd_incomplete observed || pd_incomplete files)).
Definition finish_with_revision (w : Watch) (attribute_revision : bool) : Res (list str) :=
  observed ← finish_observed_with_revision w attribute_revision; Ok (pd_paths observed).
(** [RunWatch::file_changes] *)
Definition file_changes (w : Watch) : Res PathDelta :=
  match wa_files w with
  | None => Ok (mkDelta [] false)
  | Some files => observed ← file_delta files; Ok (mkDelta (source_paths (pd_paths observed)) (pd_incomplete observed))
  end.
Definition snapshot_from_parts (porcelain : option (list str)) (head : option str) (stamps : list ContentStamp) : Snapshot :=
  mkSnapshot porcelain head stamps (is_none porcelain && negb (is_none head)) (negb (is_none porcelain) || negb (is_none head)).
Definition baseline_delta (porcelain : option (list str)) (head : option str) (stamps : list ContentStamp) : PathDelta :=
  let observed := delta (snapshot_from_parts porcelain head stamps) in
  mkDelta (source_paths (pd_paths observed)) (pd_incomplete observed).
End Observe.

(** ** The typed receipt of a delta *)
Inductive ToolFileKind : Type := KindMissing | KindFile | KindDirectory | KindSymlink | KindUnknown.
Definition stamp_file_kind (s : ContentStamp) : ToolFileKind :=
  if negb (cs_present s) then KindMissing
  else if cs_kind s =? 0 then KindFile else if cs_kind s =? 1 then KindDirectory
  else if cs_kind s =? 2 then KindSymlink else KindUnknown.
Definition out_of_scope (path : str) : bool :=
  (OBSERVATION_PATH_BYTE_CAP <? len path) || contains_char path c_nul
  || existsb (fun c => match c with Normal _ | CurDir => false | _ => true end) (components path).
Definition INCOMPLETE_REASON : str := $"tool_effect_observation_incomplete: workspace read or observation budget failed".
Definition CONTRACT_REASON : str :=
  $"tool_effect_observation_incomplete: typed receipt contract or canonical size bound failed".

Section Receipt.
Context `{Moment} `{EffectEnv}
        (** [ToolFileKind::as_str], [MAX_TOOL_EFFECT_PATHS], [ToolEffectObservationV1::complete(Vec::new())]
            and [ToolEffectObservationV1::incomplete] *)
        (kind_name : ToolFileKind -> str) (max_paths : nat)
        (no_effects : ToolEffectObservationV1) (incomplete_effects : str -> ToolEffectObservationV1).
Definition stamp_identity (s : ContentStamp) : ToolFileIdentityV1 :=
  mkFileIdentity (kind_name (stamp_file_kind s))
                 (option_map (fun digest => $"sha256:" ++ digest) (cs_content_digest s))
                 (if cs_present s then Some (cs_mode s) else None).
Definition unknown_identity : ToolFileIdentityV1 := mkFileIdentity (kind_name KindUnknown) None None.
Fixpoint observe_each (paths : list str) (budget : Z) (changes : list ToolPathChangeV1) (incomplete : bool)
    : list ToolPathChangeV1 * bool :=
  match paths with
  | [] => (changes, incomplete)
  | path :: paths =>
      if str_eqb path [] || (OBSERVATION_PATH_BYTE_CAP <? len path) then observe_each paths budget changes true
      else
        match observe_file_identity path budget with
        | (Some stamp, budget) =>
            observe_each paths budget (changes ++ [mkChange path None (stamp_identity stamp)]) incomplete
        | (None, budget) => observe_each paths budget (changes ++ [mkChange path None unknown_identity]) true
        end
  end.
Definition observe_path_effects_within (d : PathDelta) (budget : Z) : ToolEffectObservationV1 :=
  let invalid_scope := existsb out_of_scope (pd_paths d) in
  let paths := sorted_set (List.filter (fun p => negb (out_of_scope p) && negb (is_harness_path p)) (pd_paths d)) in
  let too_many := (max_paths <? length paths)%nat in
  let '(changes, incomplete) :=
    observe_each (take max_paths paths) budget (ef_changes no_effects) (pd_incomplete d || invalid_scope || too_many) in
  let effects :=
    if (incomplete : bool) then mkEffects Completeness.Incomplete changes (ef_unresolved no_effects) (Some INCOMPLETE_REASON)
    else mkEffects (ef_completeness no_effects) changes (ef_unresolved no_effects) (ef_reason no_effects) in
  if effects_valid effects then effects else incomplete_effects CONTRACT_REASON.
Definition observe_path_effects (d : PathDelta) : ToolEffectObservationV1 :=
  observe_path_effects_within d CHANGED_PATH_BYTE_CAP.
End Receipt.
