(* ===== verification/PorcelainFacts.v ===== *)
(** Path names survive git's quoting and the line format of the code, and the
    output of git status is read back as exactly the names it lists. *)
From S2P Require Import Prelude Text Paths Effects Ledger Porcelain.

(** ** Quoted names *)
Definition plain_ascii (c : char) : Prop := 0 < c < 128.
Lemma utf8_ascii c : 0 <= c < 128 -> utf8_char c = [c].
Proof. intros Hc. unfold utf8_char. by settle_tests. Qed.
Lemma utf8_ascii_all s : Forall plain_ascii s -> utf8 s = s.
Proof.
  induction 1 as [|c s Hc _ IH]; [done|]. unfold utf8 in *. cbn [map concat]. rewrite utf8_ascii by (unfold plain_ascii in Hc; lia).
  cbn. by rewrite IH.
Qed.
Lemma quote_cases c :
  (c = c_backslash \/ c = c_dquote) /\ quote_char c = [c_backslash; c]
  \/ (0 <= c <= 31 \/ c = 127) /\ quote_char c = c_backslash :: octal c
  \/ (c <> c_backslash /\ c <> c_dquote) /\ quote_char c = [c].
Proof.
  unfold quote_char. destruct (Z.eqb_spec c c_backslash); [by left; split; [left|]|].
  destruct (Z.eqb_spec c c_dquote); [by left; split; [right|]|]. cbn [orb].
  destruct (Z.leb_spec 0 c), (Z.leb_spec c 31), (Z.eqb_spec c 127); cbn [andb orb];
    try (by right; right); (right; left; split; [lia|done]).
Qed.
(** The digits of an escape, and the value they decode to. *)
Lemma octal_digits c : 0 <= c <= 127 ->
  exists a b d, octal c = [48 + a; 48 + b; 48 + d] /\ 0 <= a < 2 /\ 0 <= b < 8 /\ 0 <= d < 8 /\ c = a * 64 + b * 8 + d.
Proof.
  intros Hc. exists (c / 64 mod 8), (c / 8 mod 8), (c mod 8). split; [done|]. Z.to_euclidean_division_equations; lia.
Qed.
Lemma decode_escape a b d rest :
  0 <= a < 2 -> 0 <= b < 8 -> 0 <= d < 8 ->
  decode_inner (c_backslash :: 48 + a :: 48 + b :: 48 + d :: rest)
  = (tail ← decode_inner rest; Some (a * 64 + b * 8 + d :: tail)).
Proof.
  intros Ha Hb Hd. cbn [decode_inner]. change (c_backslash =? c_backslash) with true. cbn [negb].
  assert (simple_escape (48 + a) = None) as ->.
  { unfold simple_escape, c_backslash, c_dquote. settle_tests. done. }
  unfold is_octal. settle_tests. cbn [negb andb]. unfold octal_next.
  destruct (decode_inner rest); cbn; [|done]. do 2 f_equal. lia.
Qed.
Lemma decode_quoted_char c rest :
  decode_inner (quote_char c ++ rest) = (tail ← decode_inner rest; Some (utf8_char c ++ tail)).
Proof.
  destruct (quote_cases c) as [[Hc ->]|[[Hc ->]|[[H1 H2] ->]]].
  - cbn [app decode_inner]. change (c_backslash =? c_backslash) with true. cbn [negb].
    assert (simple_escape c = Some c) as -> by (unfold simple_escape; destruct Hc as [->| ->]; done).
    rewrite utf8_ascii by (unfold c_backslash, c_dquote in Hc; lia). done.
  - destruct (octal_digits c) as (a & b & d & -> & Ha & Hb & Hd & ->); [lia|]. cbn [app].
    rewrite decode_escape, utf8_ascii by lia. done.
  - cbn [app decode_inner]. by rewrite (proj2 (Z.eqb_neq _ _) H1).
Qed.
Lemma decode_quoted_inner path : decode_inner (concat (map quote_char path)) = Some (utf8 path).
Proof.
  induction path as [|c path IH]; [done|]. cbn [map concat]. rewrite decode_quoted_char, IH. reflexivity.
Qed.
Lemma trim_quoted path : trim (quote_git_path path) = quote_git_path path.
Proof.
  unfold quote_git_path. cbn [app]. pose proof (trim_framed [] c_dquote (concat (map quote_char path)) c_dquote []) as Ht.
  rewrite app_nil_r in Ht. apply Ht; done || constructor.
Qed.
Lemma decode_quoted path : Forall rust_char path -> decode_git_path (quote_git_path path) = Some path.
Proof.
  intros Hp. unfold decode_git_path. rewrite trim_quoted. unfold quote_git_path. cbn [app].
  change (c_dquote =? c_dquote) with true. cbn [negb]. rewrite rev_app_distr. cbn [rev app].
  change (c_dquote =? c_dquote) with true. cbv iota. rewrite rev_involutive, decode_quoted_inner. cbn.
  by apply from_utf8_utf8.
Qed.

(** ** Lines *)
Lemma arrow_quoted_char c before rest :
  exists before', arrow_from true false before (quote_char c ++ rest) = arrow_from true false before' rest.
Proof.
  destruct (quote_cases c) as [[Hc ->]|[[Hc ->]|[[H1 H2] ->]]].
  - eexists. cbn [app arrow_from]. change (c_backslash =? c_dquote) with false. change (c_backslash =? c_backslash) with true.
    reflexivity.
  - destruct (octal_digits c) as (a & b & d & -> & Ha & Hb & Hd & _); [lia|]. cbn [app arrow_from].
    change (c_backslash =? c_dquote) with false. change (c_backslash =? c_backslash) with true. cbn [orb negb andb].
    unfold c_dquote, c_backslash. settle_tests. cbn [orb negb andb]. eauto.
  - cbn [app arrow_from]. rewrite (proj2 (Z.eqb_neq _ _) H1), (proj2 (Z.eqb_neq _ _) H2). cbn. eauto.
Qed.
Lemma arrow_quoted path before : arrow_from true false before (concat (map quote_char path) ++ [c_dquote]) = None.
Proof.
  revert before. induction path as [|c path IH]; intros before; [done|].
  cbn [map concat]. rewrite <-app_assoc. destruct (arrow_quoted_char c before (concat (map quote_char path) ++ [c_dquote])) as [b ->].
  apply IH.
Qed.
Definition named (path : str) : Prop := Forall rust_char path /\ path <> [] /\ ~ In c_nl path.
Lemma readable_quoted path : named path -> readable_path (quote_git_path path) = Some path.
Proof.
  intros (Hr & Hne & Hn). unfold readable_path. rewrite decode_quoted by done. cbn.
  rewrite (proj2 (str_eqb_ne _ _)), contains_char_false by done. done.
Qed.
Lemma len_pos s : 0 <= len s.
Proof. induction s as [|c s IH]; [done|]. rewrite len_cons. pose proof (utf8_len_pos c). lia. Qed.
Lemma split_status a b x rest :
  plain_ascii a -> plain_ascii b -> plain_ascii x ->
  split_at_byte (a :: b :: x :: rest) 2 = Some ([a; b], x :: rest) /\ split_at_byte (a :: b :: x :: rest) 3 = Some ([a; b; x], rest).
Proof.
  unfold plain_ascii. intros Ha Hb Hx. cbn [split_at_byte]. unfold utf8_len. settle_tests. by destruct rest.
Qed.
Lemma mapM_one {A B} (f : A -> option B) x y : f x = Some y -> mapM f [x] = Some [y].
Proof. cbn. by intros ->. Qed.
(** A line that the code writes for a name is read back as that name. *)
Lemma paths_of_line a b path :
  plain_ascii a -> plain_ascii b -> named path -> paths_of (status_line [a; b] path) = Some [path].
Proof.
  intros Ha Hb Hp. unfold paths_of, status_line. cbn [app].
  destruct (split_status a b c_space (quote_git_path path)) as [-> ->]; [done|done|unfold plain_ascii, c_space; lia|].
  assert (Hlen : (len (a :: b :: c_space :: quote_git_path path) <? 4) = false).
  { apply Z.ltb_ge. unfold quote_git_path. rewrite !len_cons, !len_app. pose proof (utf8_len_pos a). pose proof (utf8_len_pos b).
    pose proof (len_pos (concat (map quote_char path))). change (utf8_len c_space) with 1. change (len [c_dquote]) with 1. lia. }
  rewrite Hlen. cbn [mbind option_bind].
  rewrite trim_quoted.
  change (str_eqb (quote_git_path path) []) with false. cbv iota.
  assert (split_arrow (quote_git_path path) = None) as -> by apply arrow_quoted.
  destruct (is_rename [a; b]); by apply mapM_one, readable_quoted.
Qed.

(** ** The output of git status *)

(** An entry of [git status --porcelain -z]: two status letters and a name, and for
    a rename or copy a second name in a field of its own. *)
Inductive GitEntry : Type :=
| PlainEntry (x y : char) (path : str)
| RenameEntry (x y : char) (path other : str).
Definition entry_bytes (e : GitEntry) : list Z :=
  match e with
  | PlainEntry x y path => utf8 (x :: y :: c_space :: path) ++ [0]
  | RenameEntry x y path other => utf8 (x :: y :: c_space :: path) ++ [0] ++ utf8 other ++ [0]
  end.
Definition name_ok (path : str) : Prop := named path /\ ~ In 0 path /\ len path <= OBSERVATION_PATH_BYTE_CAP.
Definition entry_ok (e : GitEntry) : Prop :=
  match e with
  | PlainEntry x y path => plain_ascii x /\ plain_ascii y /\ is_rename [x; y] = false /\ name_ok path
  | RenameEntry x y path other => plain_ascii x /\ plain_ascii y /\ is_rename [x; y] = true /\ name_ok path /\ name_ok other
  end.
Definition entry_records (e : GitEntry) : list str :=
  match e with
  | PlainEntry x y path => [status_line [x; y] path]
  | RenameEntry x y path other => [status_line [x; y] other; status_line $"D " path]
  end.
Definition entry_paths (e : GitEntry) : list str :=
  match e with PlainEntry _ _ path => [path] | RenameEntry _ _ path other => [other; path] end.

Lemma utf8_no_nul s : Forall rust_char s -> ~ In 0 s -> ~ In 0 (utf8 s).
Proof.
  intros Hs Hn Hin. unfold utf8 in Hin. apply in_concat in Hin as (part & Hp & H0). apply in_map_iff in Hp as (c & <- & Hc).
  rewrite List.Forall_forall in Hs. specialize (Hs c Hc). assert (c <> 0) by congruence. unfold rust_char, utf8_char in *.
  destruct (c <? 128), (c <? 2048), (c <? 65536); cbn in H0; Z.to_euclidean_division_equations; lia.
Qed.
Lemma nul_fields_field field rest :
  ~ In 0 field -> field <> [] -> nul_fields (field ++ 0 :: rest) = field :: nul_fields rest.
Proof.
  intros Hn Hne. unfold nul_fields. rewrite split_on_field by done. cbn [List.filter].
  by rewrite (proj2 (str_eqb_ne _ _)).
Qed.
Definition entry_fields (e : GitEntry) : list (list Z) :=
  match e with
  | PlainEntry x y path => [utf8 (x :: y :: c_space :: path)]
  | RenameEntry x y path other => [utf8 (x :: y :: c_space :: path); utf8 other]
  end.
Lemma first_field x y path :
  plain_ascii x -> plain_ascii y -> name_ok path ->
  ~ In 0 (utf8 (x :: y :: c_space :: path)) /\ utf8 (x :: y :: c_space :: path) = x :: y :: c_space :: utf8 path
  /\ Forall rust_char (x :: y :: c_space :: path).
Proof.
  intros Hx Hy [[Hr _] [H0 _]]. assert (Hs : Forall rust_char (x :: y :: c_space :: path)).
  { repeat constructor; unfold plain_ascii, rust_char, c_space in *; (lia || done). }
  split; [|split; [|done]].
  - apply utf8_no_nul; [done|]. unfold plain_ascii, c_space in *. cbn. intros [?|[?|[?|?]]]; (lia || done).
  - change (x :: y :: c_space :: path) with ([x; y; c_space] ++ path).
    rewrite utf8_app, (utf8_ascii_all [x; y; c_space]); [done|]. unfold plain_ascii, c_space in *. repeat constructor; lia.
Qed.
Lemma utf8_nonempty path : path <> [] -> utf8 path <> [].
Proof.
  intros Hne E. apply (f_equal (fun l => Z.of_nat (length l))) in E. rewrite utf8_length in E. destruct path as [|c path]; [done|].
  rewrite len_cons in E. pose proof (utf8_len_pos c). pose proof (len_pos path). cbn in E. lia.
Qed.
Lemma entry_split e rest : entry_ok e -> nul_fields (entry_bytes e ++ rest) = entry_fields e ++ nul_fields rest.
Proof.
  destruct e as [x y path|x y path other]; cbn [entry_ok entry_bytes entry_fields]; intros He.
  - destruct He as (Hx & Hy & _ & Hp). destruct (first_field x y path Hx Hy Hp) as (Hn & E & _).
    rewrite <-app_assoc. cbn [app]. apply nul_fields_field; [done|]. by rewrite E.
  - destruct He as (Hx & Hy & _ & Hp & [[Hr [Hne _]] [H0 _]]). destruct (first_field x y path Hx Hy Hp) as (Hn & E & _).
    rewrite <-!app_assoc. cbn [app]. rewrite nul_fields_field; [|done|by rewrite E].
    rewrite nul_fields_field; [done|by apply utf8_no_nul|by apply utf8_nonempty].
Qed.
Lemma output_split entries :
  Forall entry_ok entries -> nul_fields (concat (map entry_bytes entries)) = concat (map entry_fields entries).
Proof. induction 1 as [|e entries He _ IH]; [done|]. cbn [map concat]. by rewrite entry_split, IH. Qed.
Lemma status_field_entry x y path :
  plain_ascii x -> plain_ascii y -> name_ok path -> status_field (utf8 (x :: y :: c_space :: path)) = Some ([x; y], path).
Proof.
  intros Hx Hy Hp. destruct (first_field x y path Hx Hy Hp) as (_ & E & Hs). destruct Hp as [[_ [Hne _]] [_ Hl]].
  unfold status_field. rewrite utf8_length. rewrite !len_cons.
  assert (utf8_len x = 1 /\ utf8_len y = 1 /\ utf8_len c_space = 1) as (-> & -> & ->).
  { unfold plain_ascii, utf8_len, c_space in *. by settle_tests. }
  assert (1 <= len path) by (destruct path as [|c path]; [done|rewrite len_cons; pose proof (utf8_len_pos c); pose proof (len_pos path); lia]).
  rewrite (proj2 (Z.ltb_ge _ _)) by lia. rewrite from_utf8_utf8 by done. cbn [mbind option_bind].
  rewrite !len_cons, E, (proj2 (Z.ltb_ge _ 4)) by (pose proof (utf8_len_pos x); pose proof (utf8_len_pos y); pose proof (utf8_len_pos c_space); lia).
  rewrite bool_decide_eq_true_2 by done. cbn [orb negb].
  destruct (split_status x y c_space path) as [-> ->]; [done..|by unfold plain_ascii, c_space; lia|done].
Qed.
Lemma read_entries entries records :
  Forall entry_ok entries -> Z.of_nat (length (records ++ concat (map entry_records entries))) <= FILE_WALK_CAP ->
  read_records records false (concat (map entry_fields entries)) = (records ++ concat (map entry_records entries), false).
Proof.
  intros He. revert records. induction He as [|e entries He _ IH]; intros records Hl; cbn [map concat] in *; [by rewrite app_nil_r|].
  assert (Hcap : forall n, Z.of_nat n <= Z.of_nat (length (entry_records e)) -> at_cap records (Z.of_nat n) = false).
  { intros n Hn. apply Z.ltb_ge. rewrite !length_app in Hl. lia. }
  rewrite app_assoc in Hl |- *. destruct e as [x y path|x y path other]; cbn [entry_fields entry_records app] in *.
  - destruct He as (Hx & Hy & Hr & Hp). cbn [read_records]. change 1 with (Z.of_nat 1).
    rewrite (Hcap 1%nat), status_field_entry, Hr, (proj2 (str_eqb_ne _ _)) by (done || apply Hp || cbn; lia). by apply IH.
  - destruct He as (Hx & Hy & Hr & Hp & Ho). cbn [read_records]. change 1 with (Z.of_nat 1). change 2 with (Z.of_nat 2).
    rewrite (Hcap 1%nat), status_field_entry, Hr, (Hcap 2%nat) by (done || cbn; lia).
    destruct Ho as [[Hro [Hne _]] [_ Hlo]]. rewrite from_utf8_utf8 by done. unfold deletion.
    rewrite !(proj2 (str_eqb_ne _ _)), (proj2 (Z.ltb_ge _ _)) by (done || apply Hp). by apply IH.
Qed.
Lemma entry_records_paths e : entry_ok e -> mapM paths_of (entry_records e) = Some (map (fun p => [p]) (entry_paths e)).
Proof.
  destruct e as [x y path|x y path other]; cbn [entry_ok entry_records entry_paths].
  - intros (Hx & Hy & _ & [Hp _]). by apply mapM_one, paths_of_line.
  - intros (Hx & Hy & _ & [Hp _] & [Ho _]). cbn [mapM]. rewrite paths_of_line by done. cbn [mbind option_bind].
    change ($"D ") with [68; 32]. rewrite paths_of_line by (done || unfold plain_ascii; lia). done.
Qed.

(** ** The lines of a workspace *)
(** Names of the repository that lie below the workspace are usable ones. *)
Definition binds (prefix path : str) : Prop :=
  forall relative, strip_prefix prefix path = Some relative ->
  relative <> [] /\ forallb is_normal (components relative) = true.
Lemma bound_name prefix path relative :
  name_ok path -> binds prefix path -> strip_prefix prefix path = Some relative ->
  bind_git_path path prefix = inr (Some relative) /\ named relative.
Proof.
  intros [(Hr & _ & Hn) [_ Hl]] Hb Hs. destruct (Hb _ Hs) as [Hne Hc]. unfold bind_git_path. rewrite Hs.
  apply strip_prefix_Some in Hs as ->. rewrite len_app in Hl. pose proof (len_pos prefix).
  rewrite (proj2 (str_eqb_ne _ _)), (proj2 (Z.ltb_ge _ _)) by (done || lia). cbn [orb]. split.
  - destruct (existsb _ _) eqn:E; [|done]. apply existsb_exists in E as (c & Hin & Hf). rewrite forallb_forall in Hc.
    by rewrite Hc in Hf.
  - apply Forall_app in Hr as [_ Hr]. split; [done|]. split; [done|]. intros Hin. apply Hn, in_app_iff. by right.
Qed.
Lemma scoped_name x y prefix path :
  plain_ascii x -> plain_ascii y -> name_ok path -> binds prefix path ->
  exists lines, scope_record prefix (status_line [x; y] path) = Some lines
    /\ mapM paths_of lines = Some (map (fun p => [p]) (option_list (strip_prefix prefix path))).
Proof.
  intros Hx Hy Hp Hb. unfold scope_record. rewrite paths_of_line by (done || apply Hp). unfold status_line. cbn [app].
  destruct (split_status x y c_space (quote_git_path path)) as [-> _]; [done..|unfold plain_ascii, c_space; lia|].
  cbn [mbind option_bind]. destruct (strip_prefix prefix path) as [relative|] eqn:Es.
  - destruct (bound_name _ _ _ Hp Hb Es) as [E Hn]. eexists. split; [unfold mapM, scope_path; by rewrite E|].
    cbn [option_list map]. apply mapM_one, paths_of_line; done.
  - eexists. split; [unfold mapM, scope_path, bind_git_path; by rewrite Es|]. done.
Qed.
Lemma mapM_cons_Some {A B} (f : A -> option B) x l y k : f x = Some y -> mapM f l = Some k -> mapM f (x :: l) = Some (y :: k).
Proof. cbn. intros -> ->. done. Qed.
(** The lines of an entry, as status letters and name. *)
Definition entry_names (e : GitEntry) : list (char * char * str) :=
  match e with
  | PlainEntry x y path => [(x, y, path)]
  | RenameEntry x y path other => [(x, y, other); (68, 32, path)]
  end.
Definition line_of (t : char * char * str) : str := let '(x, y, path) := t in status_line [x; y] path.
Definition line_ok (prefix : str) (t : char * char * str) : Prop :=
  let '(x, y, path) := t in plain_ascii x /\ plain_ascii y /\ name_ok path /\ binds prefix path.
Lemma entry_lines entries : concat (map entry_records entries) = map line_of (concat (map entry_names entries)).
Proof. induction entries as [|[] entries IH]; cbn; [done|by rewrite IH..]. Qed.
Lemma entry_names_paths entries : map snd (concat (map entry_names entries)) = concat (map entry_paths entries).
Proof. induction entries as [|[] entries IH]; cbn; [done|by rewrite IH..]. Qed.
Lemma entry_names_ok prefix entries :
  Forall entry_ok entries -> Forall (binds prefix) (concat (map entry_paths entries)) ->
  Forall (line_ok prefix) (concat (map entry_names entries)).
Proof.
  induction 1 as [|e entries He _ IH]; cbn; [constructor|]. intros [Hb Hbs]%Forall_app. apply Forall_app. split; [|by apply IH].
  destruct e as [x y path|x y path other]; cbn in *.
  - inversion_clear Hb. constructor; [|constructor]. cbn. naive_solver.
  - inversion_clear Hb as [|?? Ho Hb']. inversion_clear Hb'. destruct He as (? & ? & _ & ? & ?).
    constructor; [|constructor; [|constructor]]; split_and!; done || unfold plain_ascii; lia.
Qed.
Lemma scope_lines prefix names :
  Forall (line_ok prefix) names ->
  exists lines, scope_porcelain_records (map line_of names) prefix = Some lines
    /\ mapM paths_of lines = Some (map (fun p => [p]) (omap (strip_prefix prefix) (map snd names))).
Proof.
  unfold scope_porcelain_records. induction 1 as [|[[x y] path] names (Hx & Hy & Hp & Hb) _ (lines & E & IH)]; [by eexists|].
  apply bind_Some in E as (groups & E & [= <-]). destruct (scoped_name x y prefix path Hx Hy Hp Hb) as (l & El & Hl).
  pose proof (mapM_cons_Some _ _ _ _ _ El E) as Em. cbn [map line_of]. eexists. split; [by setoid_rewrite Em|]. cbn [concat].
  rewrite (mapM_app_Some _ _ _ _ _ Hl IH). cbn. by destruct (strip_prefix prefix path).
Qed.

Section Status.
Context `{Moment}.
(** C21. Git's status is read as exactly the names it lists: for at most
    [FILE_WALK_CAP] paths with usable names (valid Unicode, not empty, without line
    feed and NUL, within the size cap; quotes, backslashes, other control characters
    and arrows included; renames and copies with both of theirs), the lines the code
    keeps name precisely the entries' paths below the workspace, relative to it. *)
Theorem status_is_read_exactly (prefix : str) (entries : list GitEntry) :
  workspace_git_prefix = Some prefix ->
  git (git_args ["status"; "--porcelain"; "-z"; "-u"; "--"; "."]) = Some (concat (map entry_bytes entries)) ->
  Forall entry_ok entries -> Forall (binds prefix) (concat (map entry_paths entries)) ->
  Z.of_nat (length (concat (map entry_paths entries))) <= FILE_WALK_CAP ->
  exists lines, status_lines = Some lines
    /\ porcelain_paths lines = Some (sorted_set (omap (strip_prefix prefix) (concat (map entry_paths entries)))).
Proof.
  intros Ep Eg He Hb Hl. unfold status_lines. rewrite Ep, Eg. cbn [mbind option_bind]. unfold porcelain_records.
  rewrite output_split, (read_entries entries []) by (done || rewrite entry_lines, app_nil_l, length_map, <-(length_map snd), entry_names_paths; done).
  cbn [app]. rewrite entry_lines. destruct (scope_lines prefix _ (entry_names_ok prefix entries He Hb)) as (lines & -> & E).
  exists lines. split; [done|]. unfold porcelain_paths. rewrite E, entry_names_paths. cbn. do 2 f_equal.
  generalize (omap (strip_prefix prefix) (concat (map entry_paths entries))). intros l. induction l as [|p l IH]; [done|]. cbn. by rewrite IH.
Qed.
End Status.
