(* ===== verification/ObservationFacts.v ===== *)
(** What a workspace observation proves: a complete delta names exactly what
    changed, the walk of a tree without git returns and lists exactly the tree, and
    a complete receipt covers every source path of its delta. *)
From stdpp Require Import sets.
From S2P Require Import Prelude Text Paths Effects Ledger Porcelain PorcelainFacts.

Lemma in_sorted_set p l : In p (sorted_set l) <-> In p l.
Proof. unfold sorted_set. rewrite <-!list_elem_of_In, elem_of_dedup. apply elem_of_sort_by. Qed.
Lemma existsb_str_In x l : existsb (str_eqb x) l = true <-> In x l.
Proof.
  rewrite existsb_exists. split; [intros (y & Hy & ->%str_eqb_spec); done|intros Hx; exists x; by rewrite str_eqb_refl].
Qed.
Lemma in_omap {A B} (f : A -> option B) l y : In y (omap f l) <-> exists x, In x l /\ f x = Some y.
Proof. rewrite <-list_elem_of_In, list_elem_of_omap. setoid_rewrite list_elem_of_In. done. Qed.

(** ** Differences *)
Definition one_sided (before after : list str) (line : str) : Prop :=
  In line after /\ ~ In line before \/ In line before /\ ~ In line after.
Definition status_changed (before after : list str) (path : str) : Prop :=
  exists line paths, one_sided before after line /\ paths_of line = Some paths /\ In path paths.
Definition content_changed (before after : list ContentStamp) (path : str) : Prop :=
  exists now was, In now after /\ cs_path now = path /\ stamp_of path before = Some was /\ was <> now.
Lemma in_without line lines others : In line (without lines others) <-> In line lines /\ ~ In line others.
Proof.
  unfold without. rewrite filter_In, negb_true_iff, <-not_true_iff_false, existsb_str_In. done.
Qed.
Lemma in_changed line before after : In line (without after before ++ without before after) <-> one_sided before after line.
Proof. rewrite in_app_iff, !in_without. done. Qed.
Lemma diff_paths before after path : In path (pd_paths (diff_porcelain before after)) <-> status_changed before after path.
Proof.
  unfold diff_porcelain, status_changed. cbn [pd_paths]. rewrite in_sorted_set, in_concat. setoid_rewrite in_omap.
  setoid_rewrite in_changed. naive_solver.
Qed.
Lemma diff_complete before after :
  pd_incomplete (diff_porcelain before after) = false <-> forall line, one_sided before after line -> is_Some (paths_of line).
Proof.
  unfold diff_porcelain. cbn [pd_incomplete]. rewrite <-not_true_iff_false, existsb_exists. setoid_rewrite in_changed. split.
  - intros Hn line Hl. destruct (paths_of line) eqn:E; [done|]. destruct Hn. exists line. by rewrite E.
  - intros Hs (line & Hl & E). destruct (Hs _ Hl) as [? Hp]. by rewrite Hp in E.
Qed.
Lemma in_content_changes before after path : In path (content_changes before after) <-> content_changed before after path.
Proof.
  unfold content_changes. rewrite in_omap. split.
  - intros (now & Hin & E). destruct (stamp_of _ before) as [was|] eqn:Es; [|done]. case_bool_decide as Hd; [done|].
    injection E as <-. by exists now, was.
  - intros (now & was & Hin & <- & E & Hd). exists now. rewrite E. by rewrite bool_decide_eq_false_2.
Qed.

(** ** Deltas of two moments *)
Section Delta.
Context `{Moment}.
Definition revision_changed (before after : option str) (path : str) : Prop :=
  exists h h' names, before = Some h /\ after = Some h' /\ h <> h' /\ names_between h h' = Some names /\ In path names.
Definition moved (before after : option str) : option (list str) :=
  match before, after with
  | Some b, Some a => if str_eqb b a then Some [] else names_between b a
  | _, _ => Some []
  end.
Lemma delta_unfold before :
  delta before =
    let combined := combine_delta (sn_porcelain before) (sn_porcelain snapshot) (sn_head before) (sn_head snapshot)
                                  (moved (sn_head before) (sn_head snapshot)) in
    mkDelta (sorted_set (pd_paths combined ++ content_changes (sn_stamps before) (sn_stamps snapshot)))
            (pd_incomplete combined || sn_stamps_incomplete before || sn_stamps_incomplete snapshot).
Proof. reflexivity. Qed.
Lemma status_delta_exact before after :
  pd_incomplete (status_delta before after) = false ->
  (forall path, In path (pd_paths (status_delta before after)) <->
     exists b a, before = Some b /\ after = Some a /\ status_changed b a path)
  /\ forall b, before = Some b -> exists a, after = Some a /\ forall line, one_sided b a line -> is_Some (paths_of line).
Proof.
  destruct before as [b|], after as [a|]; cbn [status_delta]; intros Hc; [|cbn in *; naive_solver..]. split.
  - intros path. rewrite diff_paths. naive_solver.
  - intros ? [= <-]. exists a. split; [done|]. by apply diff_complete.
Qed.
Lemma revision_delta_exact before after :
  let d := revision_delta before after (moved before after) in
  pd_incomplete d = false ->
  (forall path, In path (pd_paths d) <-> revision_changed before after path)
  /\ forall h, before = Some h -> exists h', after = Some h' /\ (h <> h' -> is_Some (names_between h h')).
Proof.
  unfold revision_changed. destruct before as [h|], after as [h'|]; cbn; intros Hc; [|naive_solver..].
  destruct (str_eqb h h') eqn:E; [apply str_eqb_spec in E as <-|apply str_eqb_ne in E].
  - cbn. split; [|naive_solver]. intros path. split; [done|]. intros (? & ? & ? & [= <-] & [= <-] & ? & _). done.
  - destruct (names_between h h') eqn:En; cbn in *; [|done]. split; [naive_solver|]. intros ? [= <-]. eauto.
Qed.
(** C22. A complete observation is exact: when the delta since a baseline is not
    marked incomplete, its paths are precisely those named by a status line that
    appeared or disappeared between two statuses that were read, those that differ
    between two revisions that were read, and those stamped at both moments with
    different stamps. What was read for the baseline was read again: a baseline with
    a status has a status now with every changed line readable, a baseline with a
    revision has one now with the names between the two, and the stamps of both
    moments are complete. (A baseline that itself lacks its status or revision says
    nothing about that part, see [unread_head_misses_a_commit].) *)
Theorem complete_delta_exact (before : Snapshot) :
  pd_incomplete (delta before) = false ->
  (forall path, In path (pd_paths (delta before)) <->
     (exists b a, sn_porcelain before = Some b /\ sn_porcelain snapshot = Some a /\ status_changed b a path)
     \/ revision_changed (sn_head before) (sn_head snapshot) path \/ content_changed (sn_stamps before) (sn_stamps snapshot) path)
  /\ (forall b, sn_porcelain before = Some b ->
        exists a, sn_porcelain snapshot = Some a /\ forall line, one_sided b a line -> is_Some (paths_of line))
  /\ (forall h, sn_head before = Some h ->
        exists h', sn_head snapshot = Some h' /\ (h <> h' -> is_Some (names_between h h')))
  /\ sn_stamps_incomplete before = false /\ sn_stamps_incomplete snapshot = false.
Proof.
  rewrite delta_unfold. cbn zeta. unfold combine_delta. cbn [pd_incomplete pd_paths]. rewrite !orb_false_iff. intros [[[Hs Hr] ->] ->].
  destruct (status_delta_exact _ _ Hs) as [Hs1 Hs2]. destruct (revision_delta_exact _ _ Hr) as [Hr1 Hr2].
  split; [|done]. intros path. rewrite in_sorted_set, in_app_iff, in_sorted_set, in_app_iff, in_content_changes, Hs1, Hr1. tauto.
Qed.
End Delta.

(** ** The walk of a tree *)
Definition node_at (dir : list (list Z)) (name : list Z) (stat : Stat) : option NodeStamp :=
  relative ← from_utf8 (join [c_slash] (dir ++ [name])); node_stamp relative stat.
(** A child the walk keeps, with its stamp. *)
Definition kept_child (dir : list (list Z)) (found : list (list Z * Stat)) (name : list Z) (stamp : NodeStamp) : Prop :=
  exists stat, In (name, stat) found /\ one_of name HARNESS_NAMES = false /\ node_at dir name stat = Some stamp.
Lemma kept_child_cons dir name' stat' found name stamp :
  kept_child dir ((name', stat') :: found) name stamp <->
  (name' = name /\ one_of name' HARNESS_NAMES = false /\ node_at dir name' stat' = Some stamp) \/ kept_child dir found name stamp.
Proof.
  unfold kept_child. split.
  - intros (stat & [[= -> ->]|Hin] & Hh & E); [by left|right; eauto].
  - intros [(<- & Hh & E)|(stat & Hin & Hh & E)]; [exists stat'; by split; [left|]|exists stat; by split; [right|]].
Qed.
Lemma kept_harness dir name' stat found name stamp :
  one_of name' HARNESS_NAMES = true -> kept_child dir ((name', stat) :: found) name stamp <-> kept_child dir found name stamp.
Proof. rewrite kept_child_cons. intros E. split; [intros [(_ & E' & _)|?]; [congruence|done]|by right]. Qed.
Lemma kept_stamp dir name' stat stamp' found name stamp :
  one_of name' HARNESS_NAMES = false -> node_at dir name' stat = Some stamp' ->
  kept_child dir ((name', stat) :: found) name stamp <-> (name = name' /\ stamp = stamp') \/ kept_child dir found name stamp.
Proof.
  rewrite kept_child_cons. intros E En. split.
  - intros [(-> & _ & Es)|?]; [left; split; [done|congruence]|by right].
  - intros [[-> ->]|?]; [by left|by right].
Qed.
Lemma visit_entry_eq dir w name stat :
  visit_entry dir w (name, stat) =
    if one_of name HARNESS_NAMES then mkWalk (wk_entries w) (wk_incomplete w) (wk_visited w + 1) (wk_stack w)
    else match node_at dir name stat with
         | None => mkWalk (wk_entries w) true (wk_visited w + 1) (wk_stack w)
         | Some stamp => mkWalk (wk_entries w ++ [stamp]) (wk_incomplete w) (wk_visited w + 1)
                                (if ns_kind stamp =? 1 then (dir ++ [name]) :: wk_stack w else wk_stack w)
         end.
Proof. reflexivity. Qed.
Lemma visit_counts dir found w :
  let w' := fold_left (visit_entry dir) found w in
  wk_visited w' = wk_visited w + Z.of_nat (length found) /\ (length (wk_stack w') <= length (wk_stack w) + length found)%nat.
Proof.
  cbn zeta. revert w. induction found as [|[name stat] found IH]; intros w; cbn [fold_left length]; [split; lia|].
  destruct (IH (visit_entry dir w (name, stat))) as [E Hs]. rewrite visit_entry_eq in E, Hs |- *.
  destruct (one_of name _); [cbn in *; lia|]. destruct (node_at dir name stat) as [stamp|]; [|cbn in *; lia].
  cbn in *. destruct (ns_kind stamp =? 1); cbn in *; lia.
Qed.
Lemma visit_keeps dir found w :
  let w' := fold_left (visit_entry dir) found w in
  wk_incomplete w' = false ->
  wk_incomplete w = false
  /\ (forall stamp, In stamp (wk_entries w') <-> In stamp (wk_entries w) \/ exists name, kept_child dir found name stamp)
  /\ (forall d, In d (wk_stack w') <->
        In d (wk_stack w) \/ exists name stamp, kept_child dir found name stamp /\ ns_kind stamp = 1 /\ d = dir ++ [name])
  /\ (forall name stat, In (name, stat) found -> one_of name HARNESS_NAMES = false -> is_Some (node_at dir name stat)).
Proof.
  cbn zeta. revert w. induction found as [|[name stat] found IH]; intros w; cbn [fold_left].
  { intros Hc. unfold kept_child. split_and!; [done|intros; split; [by left|]; intros [?|(? & ? & [] & _)]; done| |done].
    intros d. split; [by left|]. intros [?|(? & ? & (? & [] & _) & _)]; done. }
  intros Hc. destruct (IH _ Hc) as (Hi & He & Hs & Hr). rewrite visit_entry_eq in Hi, He, Hs |- *.
  destruct (one_of name _) eqn:Eh; cbn [wk_entries wk_incomplete wk_stack] in *.
  { setoid_rewrite kept_harness; [|done..]. split_and!; [done..|]. intros n s [[= -> ->]|Hin] Hn; [congruence|eauto]. }
  destruct (node_at dir name stat) as [stamp|] eqn:En; cbn [wk_entries wk_incomplete wk_stack] in *; [|done].
  split_and!; [done| | |intros n s [[= -> ->]|Hin] Hn; eauto].
  - intros st. rewrite He, in_snoc. setoid_rewrite (kept_stamp _ _ _ _ _ _ _ Eh En). split.
    + intros [[?| ->]|[n ?]]; eauto.
    + intros [?|(n & [[-> ->]|?])]; eauto.
  - intros d. rewrite Hs. setoid_rewrite (kept_stamp _ _ _ _ _ _ _ Eh En). split.
    + destruct (Z.eqb_spec (ns_kind stamp) 1) as [Hk1|Hk1]; cbn [In]; [intros [[<-|?]|(n & st & ? & ? & ?)]|intros [?|(n & st & ? & ? & ?)]]; eauto 8.
    + intros [?|(n & st & [[-> ->]|?] & Hk & ->)]; [left; case_match; [by right|done]| |right; eauto].
      left. rewrite Hk. by left.
Qed.

Section Walk.
Context `{Moment}.
(** [directory_entries] reads at most [limit] entries. *)
Definition bounded_directories : Prop :=
  forall dir limit found incomplete, 0 <= limit -> directory_entries dir limit = Some (found, incomplete) ->
  Z.of_nat (length found) <= limit.
Lemma walk_returns fuel cap w :
  bounded_directories -> 0 <= wk_visited w <= cap -> Z.of_nat (length (wk_stack w)) + (cap - wk_visited w) <= Z.of_nat fuel ->
  exists w', walk fuel cap w = Ok w'.
Proof.
  intros Hb. revert w. induction fuel as [|fuel IH]; intros w Hv Hf; cbn [walk].
  { destruct (wk_stack w); cbn [length] in Hf; [eauto|lia]. }
  destruct (wk_stack w) as [|dir stack] eqn:Es; [eauto|]. cbn [length wk_visited wk_stack] in *.
  destruct (directory_entries dir (cap - wk_visited w)) as [[found inc]|] eqn:Ed.
  - pose proof (Hb dir (cap - wk_visited w) found inc ltac:(lia) Ed) as Hlen.
    destruct (visit_counts dir found (mkWalk (wk_entries w) (wk_incomplete w || inc) (wk_visited w) stack)) as [Ev Hs].
    cbn [wk_visited wk_stack wk_entries wk_incomplete] in *. destruct (_ && _) eqn:Eb; [eauto|].
    apply IH; rewrite Ev; lia.
  - apply IH; cbn; lia.
Qed.
Lemma index_returns cap : bounded_directories -> 0 <= cap -> exists index, index_files_within cap = Ok index.
Proof.
  intros Hb Hc. unfold index_files_within. destruct (walk_returns (S (Z.to_nat cap)) cap (mkWalk [] false 0 [[]])) as [w E];
    [done|cbn [wk_visited wk_stack length]; lia..|]. setoid_rewrite E. cbn. eauto.
Qed.

(** The tree: [listing] is what each directory holds. *)
Context (listing : list (list Z) -> list (list Z * Stat)).
Definition reads_listing : Prop :=
  forall dir limit found, directory_entries dir limit = Some (found, false) -> found = listing dir.
Inductive tree_dir : list (list Z) -> Prop :=
| tree_root : tree_dir []
| tree_child dir name stamp :
    tree_dir dir -> kept_child dir (listing dir) name stamp -> ns_kind stamp = 1 -> tree_dir (dir ++ [name]).
Definition tree_node (stamp : NodeStamp) : Prop := exists dir name, tree_dir dir /\ kept_child dir (listing dir) name stamp.
Definition readable_tree : Prop :=
  forall dir name stat, tree_dir dir -> In (name, stat) (listing dir) -> one_of name HARNESS_NAMES = false ->
  is_Some (node_at dir name stat).

(** Of the directories read so far, everything is recorded and every directory
    below is read or waiting. *)
Record walked (read : list (list (list Z))) (w : Walk) : Prop := {
  wd_dirs : forall dir, In dir read \/ In dir (wk_stack w) -> tree_dir dir;
  wd_root : In [] read \/ In [] (wk_stack w);
  wd_nodes : forall stamp, In stamp (wk_entries w) -> tree_node stamp;
  wd_kept : forall dir name stamp, In dir read -> kept_child dir (listing dir) name stamp ->
    In stamp (wk_entries w) /\ (ns_kind stamp = 1 -> In (dir ++ [name]) read \/ In (dir ++ [name]) (wk_stack w));
  wd_readable : forall dir name stat, In dir read -> In (name, stat) (listing dir) -> one_of name HARNESS_NAMES = false ->
    is_Some (node_at dir name stat);
}.
Lemma walked_step read dir stack entries visited incomplete :
  let w := mkWalk entries incomplete visited (dir :: stack) in
  let w' := fold_left (visit_entry dir) (listing dir) (mkWalk entries incomplete visited stack) in
  walked read w -> wk_incomplete w' = false -> walked (dir :: read) w'.
Proof.
  cbn zeta. intros [Hd Hr Hn Hk Hx] Hc. destruct (visit_keeps _ _ _ Hc) as (_ & He & Hs & Ha). cbn [wk_stack wk_entries] in *.
  assert (Hdir : tree_dir dir) by (apply Hd; right; by left). split; setoid_rewrite Hs || idtac; setoid_rewrite He || idtac; cbn [In] in *.
  - intros d [[<-|?]|[?|(name & stamp & Hkc & Hkind & ->)]]; [done|eauto..|]. by eapply tree_child.
  - naive_solver.
  - intros stamp [?|(name & Hkc)]; [eauto|]. by exists dir, name.
  - intros d name stamp [<-|Hin] Hkc.
    + split; [eauto|]. intros Hkind. right. right. eauto.
    + destruct (Hk d name stamp Hin Hkc) as [? Hw]. split; [by left|]. intros Hkind. destruct (Hw Hkind) as [?|[<-|?]]; eauto.
  - intros d name stat [<-|Hin]; eauto.
Qed.
Lemma walk_keeps_incomplete fuel cap w w' : walk fuel cap w = Ok w' -> wk_incomplete w' = false -> wk_incomplete w = false.
Proof.
  revert w. induction fuel as [|fuel IH]; intros w; cbn [walk].
  { destruct (wk_stack w); [by intros [= <-]|done]. }
  destruct (wk_stack w) as [|dir stack]; [by intros [= <-]|]. destruct (directory_entries _ _) as [[found inc]|].
  - destruct (_ && _); intros E Hc; [by injection E as <-|]. apply IH in E as Hi; [|done].
    apply visit_keeps in Hi as (Hi & _). cbn in Hi. by apply orb_false_iff in Hi as [? _].
  - intros E Hc. by apply IH in E.
Qed.
Lemma walk_exact fuel cap w w' read :
  reads_listing -> walked read w -> walk fuel cap w = Ok w' -> wk_incomplete w' = false ->
  exists read', walked read' w' /\ wk_stack w' = [].
Proof.
  intros Hl. revert read w. induction fuel as [|fuel IH]; intros read [entries inc visited stack] Hw; cbn [walk wk_stack].
  { destruct stack; [intros [= <-]; eauto|done]. }
  destruct stack as [|dir stack]; [intros [= <-]; eauto|]. cbn [wk_visited wk_entries wk_incomplete].
  destruct (directory_entries _ _) as [[found inc']|] eqn:Ed.
  - destruct (_ && _); intros E Hc; [by injection E as <-|]. pose proof (walk_keeps_incomplete _ _ _ _ E Hc) as Hi.
    destruct (visit_keeps _ _ _ Hi) as (Hi' & _). cbn in Hi'. apply orb_false_iff in Hi' as [-> ->]. apply Hl in Ed as ->.
    eapply IH; [|exact E|done]. by apply walked_step.
  - intros E Hc. by apply walk_keeps_incomplete in E.
Qed.
Lemma index_exact cap index :
  reads_listing -> index_files_within cap = Ok index -> fx_incomplete index = false ->
  (forall stamp, In stamp (fx_entries index) <-> tree_node stamp) /\ readable_tree.
Proof.
  intros Hl E Hc. unfold index_files_within in E. destruct (walk _ _ _) as [w| |] eqn:Ew; [|done..]. injection E as <-.
  cbn [fx_incomplete fx_entries] in *. assert (Hw : walked [] (mkWalk [] false 0 [[]])).
  { split; cbn; [intros dir [[]|[<-|[]]]; constructor|by right; left|done..]. }
  destruct (walk_exact _ _ _ _ _ Hl Hw Ew Hc) as (read & [Hd Hr Hn Hk Hx] & Es).
  rewrite Es in *. assert (Hall : forall dir, tree_dir dir -> In dir read).
  { induction 1 as [|dir name stamp Hdir IH Hkc Hkind]; [by destruct Hr|]. by destruct (Hk _ _ _ IH Hkc) as [_ [?|[]]]. }
  split; [|intros dir name stat Hdir; by apply Hx, Hall].
  intros stamp. rewrite <-list_elem_of_In, elem_of_sort_by, list_elem_of_In. split; [apply Hn|].
  intros (dir & name & Hdir & Hkc). by apply (Hk dir name stamp); [apply Hall|].
Qed.
End Walk.

(** ** Deltas of trees *)
Definition unique_paths (listing : list (list Z) -> list (list Z * Stat)) : Prop :=
  forall s s', tree_node listing s -> tree_node listing s' -> ns_path s = ns_path s' -> s = s'.
Lemma node_of_Some path entries s :
  (forall s s', In s entries -> In s' entries -> ns_path s = ns_path s' -> s = s') ->
  node_of path entries = Some s <-> In s entries /\ ns_path s = path.
Proof.
  intros Hu. unfold node_of. split.
  - intros [Hin E]%find_some. apply in_rev in Hin. by apply str_eqb_spec in E.
  - intros [Hin E]. destruct (List.find _ (rev entries)) as [s'|] eqn:Ef.
    + apply find_some in Ef as [Hin' E']. apply in_rev in Hin'. apply str_eqb_spec in E'. f_equal. apply Hu; congruence.
    + pose proof (find_none _ _ Ef s) as Hn. rewrite <-in_rev in Hn. cbn in Hn. rewrite E, str_eqb_refl in Hn. by discriminate (Hn Hin).
Qed.
Lemma index_delta_changes before after path :
  fx_incomplete before = false -> fx_incomplete after = false ->
  In path (pd_paths (index_delta before after)) <-> node_of path (fx_entries before) <> node_of path (fx_entries after).
Proof.
  intros Eb Ea. unfold index_delta. rewrite Eb, Ea. cbn [orb pd_paths]. rewrite in_sorted_set, in_app_iff, !filter_In, !in_map_iff.
  assert (Hin : forall entries s, node_of path entries = Some s -> exists x, ns_path x = path /\ In x entries).
  { intros entries s [Hin E]%find_some. apply in_rev in Hin. apply str_eqb_spec in E. eauto. }
  assert (Hnone : forall entries x, ns_path x = path -> In x entries -> is_Some (node_of path entries)).
  { intros entries x E Hx. unfold node_of. destruct (List.find _ (rev entries)) eqn:Ef; [done|].
    pose proof (find_none _ _ Ef x) as Hn. rewrite <-in_rev in Hn. cbn in Hn. rewrite E, str_eqb_refl in Hn. by discriminate (Hn Hx). }
  split.
  - intros [[_ Hd]|[(x & E & Hx) Hg]].
    + by apply negb_true_iff, bool_decide_eq_false in Hd.
    + destruct (Hnone _ _ E Hx) as [s ->]. by destruct (node_of path (fx_entries after)).
  - intros Hd. destruct (node_of path (fx_entries after)) as [s|] eqn:E.
    + left. split; [by apply (Hin _ s)|]. by apply negb_true_iff, bool_decide_eq_false.
    + right. destruct (node_of path (fx_entries before)) as [s|] eqn:E'; [|done]. split; [by apply (Hin _ s)|done].
Qed.
(** A workspace without git is observed exactly: the walk returns, whatever the
    tree; and when the two walks were complete, the paths of the delta are precisely
    those whose node appeared, disappeared or changed its stat identity, among all
    nodes of the two trees outside the harness's directories. *)
Theorem tree_delta_exact (m1 m2 : Moment) (l1 l2 : list (list Z) -> list (list Z * Stat)) (before : FileIndex) :
  @bounded_directories m2 -> @reads_listing m1 l1 -> @reads_listing m2 l2 -> unique_paths l1 -> unique_paths l2 ->
  @index_files m1 = Ok before ->
  exists d, @file_delta m2 before = Ok d
    /\ (pd_incomplete d = false -> forall path, In path (pd_paths d) <->
          exists s, ns_path s = path /\ (tree_node l1 s /\ ~ tree_node l2 s \/ tree_node l2 s /\ ~ tree_node l1 s)).
Proof.
  intros Hb Hl1 Hl2 Hu1 Hu2 E1. destruct (@index_returns m2 NONGIT_WALK_CAP Hb) as [after E2]; [done|].
  exists (index_delta before after). unfold file_delta, index_files at 1. setoid_rewrite E2. split; [done|].
  intros Hc path. assert (fx_incomplete before = false /\ fx_incomplete after = false) as [C1 C2].
  { unfold index_delta in Hc. by destruct (fx_incomplete before), (fx_incomplete after). }
  destruct (@index_exact m1 l1 _ _ Hl1 E1 C1) as [N1 _]. destruct (@index_exact m2 l2 _ _ Hl2 E2 C2) as [N2 _].
  rewrite index_delta_changes by done.
  assert (S1 : forall s, node_of path (fx_entries before) = Some s <-> tree_node l1 s /\ ns_path s = path).
  { intros s. rewrite node_of_Some, N1; [done|]. intros ??. rewrite !N1. apply Hu1. }
  assert (S2 : forall s, node_of path (fx_entries after) = Some s <-> tree_node l2 s /\ ns_path s = path).
  { intros s. rewrite node_of_Some, N2; [done|]. intros ??. rewrite !N2. apply Hu2. }
  split.
  - intros Hd. destruct (node_of path (fx_entries before)) as [s|] eqn:F1.
    + exists s. destruct (proj1 (S1 s) eq_refl) as [? E]. split; [done|]. left. split; [done|]. intros Ht.
      apply Hd. symmetry. by apply S2.
    + destruct (node_of path (fx_entries after)) as [s|] eqn:F2; [|done]. exists s. destruct (proj1 (S2 s) eq_refl) as [? E].
      split; [done|]. right. split; [done|]. intros Ht. by discriminate (proj2 (S1 s) (conj Ht E)).
  - intros (s & E & [[Ht Hn]|[Ht Hn]]) Heq.
    + rewrite (proj2 (S1 s) (conj Ht E)) in Heq. symmetry in Heq. by apply S2 in Heq as [? _].
    + rewrite (proj2 (S2 s) (conj Ht E)) in Heq. by apply S1 in Heq as [? _].
Qed.

(** ** Receipts *)
Section Receipts.
Context `{Moment} `{EffectEnv} (kind_name : ToolFileKind -> str) (max_paths : nat)
        (no_effects : ToolEffectObservationV1) (incomplete_effects : str -> ToolEffectObservationV1).
(** The change of a path whose identity was read. *)
Definition identified (path : str) (change : ToolPathChangeV1) : Prop :=
  exists budget stamp budget', observe_file_identity path budget = (Some stamp, budget')
    /\ change = mkChange path None (stamp_identity kind_name stamp).
Lemma observe_each_complete paths budget changes incomplete :
  let '(changes', incomplete') := observe_each kind_name paths budget changes incomplete in
  incomplete' = false ->
  incomplete = false
  /\ (forall path, In path paths -> exists change, In change changes' /\ identified path change)
  /\ (forall change, In change changes' -> In change changes \/ exists path, In path paths /\ identified path change)
  /\ (forall change, In change changes -> In change changes').
Proof.
  revert budget changes incomplete. induction paths as [|path paths IH]; intros budget changes incomplete; cbn [observe_each].
  { intros ->. split_and!; [done..|by left|done]. }
  destruct (str_eqb path [] || _).
  { specialize (IH budget changes true). destruct (observe_each _ _ _ _ _). intros Hc. by destruct (IH Hc). }
  destruct (observe_file_identity path budget) as [[stamp|] budget'] eqn:Eo.
  - specialize (IH budget' (changes ++ [mkChange path None (stamp_identity kind_name stamp)]) incomplete).
    destruct (observe_each _ _ _ _ _) as [changes' inc']. intros Hc. destruct (IH Hc) as (Hi & Hp & Hs & Hk).
    assert (Hid : identified path (mkChange path None (stamp_identity kind_name stamp))) by (by exists budget, stamp, budget').
    split_and!; [done| | |].
    + intros p [<-|Hin]; [|eauto]. eexists. split; [|done]. apply Hk, in_snoc. by right.
    + intros change [Hin|(p & Hin & Hd)]%Hs; [|right; exists p; by split; [right|]].
      apply in_snoc in Hin as [?| ->]; [by left|]. right. exists path. by split; [left|].
    + intros change Hin. apply Hk, in_snoc. by left.
  - specialize (IH budget' (changes ++ [mkChange path None (unknown_identity kind_name)]) true).
    destruct (observe_each _ _ _ _ _). intros Hc. by destruct (IH Hc).
Qed.
(** C23. A complete receipt covers its delta: when the observation made from a delta
    is complete, the delta itself was complete and inside the workspace, every
    changed source path has a change with the identity the observer read for it,
    and every change is of such a path, so no mutation is dropped by caps, budgets,
    failed reads or the validity bound without the receipt saying so. *)
Theorem complete_receipt_covers (d : PathDelta) (budget : Z) :
  let e := observe_path_effects_within kind_name max_paths no_effects incomplete_effects d budget in
  (forall reason, ef_completeness (incomplete_effects reason) = Completeness.Incomplete) ->
  ef_changes no_effects = [] -> ef_completeness e = Completeness.Complete ->
  pd_incomplete d = false /\ (forall path, In path (pd_paths d) -> out_of_scope path = false)
  /\ (forall path, In path (pd_paths d) -> is_harness_path path = false ->
        exists change, In change (ef_changes e) /\ identified path change)
  /\ (forall change, In change (ef_changes e) ->
        exists path, In path (pd_paths d) /\ is_harness_path path = false /\ identified path change).
Proof.
  cbn zeta. unfold observe_path_effects_within. intros Hinc Hno. rewrite Hno. cbn zeta.
  set (paths := sorted_set _). pose proof (observe_each_complete (take max_paths paths) budget [] (pd_incomplete d || existsb out_of_scope (pd_paths d) || (max_paths <? length paths)%nat)) as Hspec.
  destruct (observe_each _ _ _ _ _) as [changes incomplete]. destruct incomplete; [case_match; cbn; [done|by rewrite Hinc]|].
  case_match; [|by rewrite Hinc]. cbn [ef_completeness ef_changes]. intros _.
  destruct (Hspec eq_refl) as (Hi & Hp & Hc & _). apply orb_false_iff in Hi as [[Hd Hs]%orb_false_iff Hm].
  rewrite take_ge in Hp, Hc by (apply Nat.ltb_ge in Hm; lia).
  assert (Hscope : forall path, In path (pd_paths d) -> out_of_scope path = false).
  { intros path Hin. destruct (out_of_scope path) eqn:E; [|done]. rewrite <-not_true_iff_false, existsb_exists in Hs. destruct Hs. eauto. }
  assert (Hpaths : forall path, In path paths <-> In path (pd_paths d) /\ is_harness_path path = false).
  { intros path. unfold paths. rewrite in_sorted_set, filter_In, andb_true_iff, !negb_true_iff. naive_solver. }
  split_and!; [done..| |].
  - intros path Hin Hh. apply Hp. by apply Hpaths.
  - intros change Hin. destruct (Hc change Hin) as [[]|(path & Hpath & Hid)]. apply Hpaths in Hpath as [? ?]. eauto.
Qed.
End Receipts.
