(* ===== verification/WriteClaims.v ===== *)
(** Write claims between concurrent sessions and typed external observations
    ([external_observation.rs]): one process-wide map from path identities to the
    session that has dirtied the path, and every operation on it. *)
From stdpp Require Import gmap.
From S2P Require Import Prelude Text Paths Goal Effects Ledger Receipts.

(** ** Observations *)
Definition MAX_OBSERVATION_PAYLOAD : Z := 8192.
Definition new_observation (kind subject digest payload : str) (action : RequiredAction)
    : option ExternalObservationV1 :=
  if str_eqb (trim digest) [] || (MAX_OBSERVATION_PAYLOAD <? len payload) then None
  else Some (mkObservation EXTERNAL_OBSERVATION_SCHEMA kind subject digest payload None action).
Definition with_revision (revision : str) (o : ExternalObservationV1) : ExternalObservationV1 :=
  mkObservation (eo_schema o) (eo_kind o) (eo_subject o) (eo_digest o) (eo_payload o) (Some revision)
                (eo_required_action o).
Definition action_debug (a : RequiredAction) : str :=
  match a with NoAction => $"None" | WorkspaceChange => $"WorkspaceChange" | Address => $"Address" end.
Definition model_input_fragment (o : ExternalObservationV1) : str :=
  $"[external observation schema=" ++ eo_schema o ++ $" kind=" ++ eo_kind o ++ $" subject=" ++ eo_subject o
  ++ $" digest=" ++ eo_digest o ++ $" action=" ++ action_debug (eo_required_action o) ++ $"]".
(** [observation_from_value]: the derived reading of the struct. *)
Definition action_of (v : json) : option RequiredAction :=
  name ← unit_variant v;
  if str_eqb name $"none" then Some NoAction
  else if str_eqb name $"workspace_change" then Some WorkspaceChange
  else if str_eqb name $"address" then Some Address
  else None.
Definition OBSERVATION_FIELDS : list string :=
  ["schema"; "kind"; "subject"; "digest"; "payload"; "source_revision"; "required_action"].
Definition observation_from_value (v : json) : option ExternalObservationV1 :=
  v ← struct_view OBSERVATION_FIELDS v;
  schema ← jget_str $"schema" v;
  kind ← jget_str $"kind" v;
  subject ← jget_str $"subject" v;
  digest ← jget_str $"digest" v;
  payload ← jget_str $"payload" v;
  revision ← optional_field jas_str $"source_revision" v;
  action ← jget $"required_action" v ≫= action_of;
  Some (mkObservation schema kind subject digest payload revision action).

(** ** Claims *)

(** The process-wide [dirty] map: each claimed path and its owner. *)
Abbreviation Claims := (gmap (list Component) (list Z)).
Inductive ClaimError : Type :=
| NoSession
| OutsideWorkspace
| NoFile
| OwnedBy (path : Path) (owner : str).
#[global] Instance ClaimError_eq_dec : EqDecision ClaimError.
Proof. solve_decision. Defined.
Definition claim_error_text (e : ClaimError) : str :=
  match e with
  | NoSession => $"write requires a session id"
  | OutsideWorkspace => $"write path must stay inside the workspace"
  | NoFile => $"write path must name a file"
  | OwnedBy path owner => $"concurrent write to " ++ path_str path ++ $" is already owned by session " ++ owner
  end.
Abbreviation ClaimResult := (ClaimError + unit)%type.

(** [Path::file_name] and [Path::extension] *)
Definition file_name (p : Path) : option str :=
  match rev p with Normal name :: _ => Some name | _ => None end.
Definition extension (p : Path) : option str :=
  name ← file_name p;
  match rsplit_once c_dot name with
  | Some (stem, ext) => if str_eqb stem [] then None else Some ext
  | None => None
  end.
Definition is_interpreter_build_artifact (relative : str) : bool :=
  match extension (components relative) with
  | Some ext => str_eqb ext $"pyc" || str_eqb ext $"pyo"
  | None => false
  end
  || existsb (fun c => str_eqb (component_str c) $"__pycache__") (components relative).

Section Claims.
Context `{FileSystem}.

Definition canonical_root (workspace : Path) : Path :=
  match canonicalize workspace with Some p => p | None => workspace end.
Definition absolute_inside_root (root workspace raw : Path) : ClaimError + Path :=
  match strip_path root raw with
  | Some relative => inr relative
  | None =>
      match strip_path workspace raw with
      | Some relative => inr relative
      | None =>
          match strip_path root (normalize_existing_prefix raw) with
          | Some relative => inr relative
          | None => inl OutsideWorkspace
          end
      end
  end.
(** The loop of [claim_identity]; the parts are kept with the last one first. *)
Fixpoint claim_parts (reversed : list str) (l : Path) : ClaimError + list str :=
  match l with
  | [] => inr (rev reversed)
  | Normal part :: l => claim_parts (part :: reversed) l
  | CurDir :: l => claim_parts reversed l
  | ParentDir :: l => match reversed with [] => inl OutsideWorkspace | _ :: reversed => claim_parts reversed l end
  | RootDir :: _ => inl OutsideWorkspace
  end.
Definition claim_identity (workspace : Path) (relative : str) : ClaimError + Path :=
  let root := canonical_root workspace in
  let raw := components relative in
  match (if is_absolute relative then absolute_inside_root root workspace raw else inr raw) with
  | inl e => inl e
  | inr under_root =>
      match claim_parts [] under_root with
      | inl e => inl e
      | inr [] => inl NoFile
      | inr parts => inr (foldl push root parts)
      end
  end.

Definition claim_write (session_id : str) (workspace : Path) (relative : str) (claims : Claims) : ClaimResult * Claims :=
  if is_interpreter_build_artifact relative then (inr tt, claims)
  else match claim_identity workspace relative with
  | inl e => (inl e, claims)
  | inr path =>
      match claims !! path with
      | Some owner => if str_eqb owner session_id then (inr tt, claims) else (inl (OwnedBy path owner), claims)
      | None => (inr tt, <[path := session_id]> claims)
      end
  end.
(** [session_id.filter(|id| !id.trim().is_empty())] *)
Definition bound_session (session_id : option str) : option str :=
  id ← session_id; if str_eqb (trim id) [] then None else Some id.
Definition claim_bound_write (session_id : option str) (workspace : Path) (relative : str) (claims : Claims)
    : ClaimResult * Claims :=
  match bound_session session_id with
  | None => (inl NoSession, claims)
  | Some session_id => claim_write session_id workspace relative claims
  end.

(** A claim of another session below the workspace. *)
Definition foreign (session_id : str) (workspace : Path) (claim : Path * str) : bool :=
  negb (str_eqb (snd claim) []) && negb (str_eqb (snd claim) session_id) && path_starts_with (fst claim) workspace.
(** The code reports whichever foreign claim the hash map yields first. *)
Definition refuse_foreign_workspace_owner (session_id : option str) (workspace : Path) (claims : Claims)
    : ClaimResult * Claims :=
  let session_id := trim (default [] session_id) in
  let workspace := canonical_root workspace in
  let claims := filter (fun claim : Path * str =>
                  (foreign session_id workspace claim && negb (path_exists (fst claim))) = false) claims in
  match List.find (foreign session_id workspace) (map_to_list claims) with
  | Some (path, owner) => (inl (OwnedBy path owner), claims)
  | None => (inr tt, claims)
  end.
Definition foreign_workspace_claim (session_id : option str) (workspace : Path) (claims : Claims) : ClaimResult * Claims :=
  match bound_session session_id with
  | None => (inl NoSession, claims)
  | Some session_id => refuse_foreign_workspace_owner (Some session_id) workspace claims
  end.
Definition session_owns_write (session_id : str) (workspace : Path) (relative : str) (claims : Claims) : bool :=
  match claim_identity workspace relative with
  | inl _ => false
  | inr path => bool_decide (claims !! path = Some session_id)
  end.
Definition adopt_write_claim (from_session to_session : str) (workspace : Path) (relative : str) (claims : Claims)
    : ClaimResult * Claims :=
  let to_session := trim to_session in
  if str_eqb to_session [] then (inl NoSession, claims)
  else match claim_identity workspace relative with
  | inl e => (inl e, claims)
  | inr path =>
      match claims !! path with
      | Some owner =>
          if str_eqb owner to_session || str_eqb owner from_session then (inr tt, <[path := to_session]> claims)
          else (inl (OwnedBy path owner), claims)
      | None => (inr tt, <[path := to_session]> claims)
      end
  end.
Definition release_write_claim (session_id : str) (workspace : Path) (relative : str) (claims : Claims) : Claims :=
  match claim_identity workspace relative with
  | inl _ => claims
  | inr path => if bool_decide (claims !! path = Some session_id) then delete path claims else claims
  end.
(** Also the drop of a [ChildWriteClaimGuard]. *)
Definition release_session (session_id : str) (claims : Claims) : Claims :=
  filter (fun claim : Path * str => snd claim <> session_id) claims.
Definition settle_child_write_claims (parent_session : option str) (child_session : str) (workspace : Path)
    (paths : list str) (claims : Claims) : Claims :=
  match (parent ← parent_session; let parent := trim parent in if str_eqb parent [] then None else Some parent) with
  | None => release_session child_session claims
  | Some parent =>
      release_session child_session
        (fold_left (fun claims path => snd (adopt_write_claim child_session parent workspace path claims)) paths claims)
  end.
End Claims.
