(* ===== verification/WriteClaimsFacts.v ===== *)
(** What the write claims promise: a claim names a file below the workspace, it
    stays with its owner until the owner gives it up or its file is gone, and the
    settlement of a child moves its observed paths and nothing else. *)
From stdpp Require Import gmap sets.
From S2P Require Import Prelude Text Paths WriteClaims.

(** ** Identities *)
Lemma push_all root parts : foldl push root parts = root ++ map Normal parts.
Proof.
  revert root. induction parts as [|x parts IH]; intros root; cbn; [by rewrite app_nil_r|].
  rewrite IH. unfold push. by rewrite <-app_assoc.
Qed.
Lemma claim_parts_app reversed l parts : claim_parts reversed l = inr parts -> forall l',
  claim_parts reversed (l ++ l') = claim_parts (rev parts) l'.
Proof.
  revert reversed. induction l as [|[] l IH]; intros reversed E l'; cbn in *.
  - injection E as <-. by rewrite rev_involutive.
  - done.
  - by apply IH.
  - destruct reversed; [done|]. by apply IH.
  - by apply IH.
Qed.

Section Identity.
Context `{FileSystem}.
(** A claimed path is a file strictly below the canonical root. *)
Lemma identity_confined workspace relative path :
  claim_identity workspace relative = inr path ->
  exists parts, parts <> [] /\ path = canonical_root workspace ++ map Normal parts.
Proof.
  unfold claim_identity. intros E.
  destruct (if is_absolute relative then _ else _) as [e|under]; [done|].
  destruct (claim_parts [] under) as [e|[|x parts]]; [done..|]. injection E as <-.
  exists (x :: parts). split; [done|]. exact (push_all _ (x :: parts)).
Qed.
(** The absolute spelling of a workspace path is the relative one's claim. *)
Lemma identity_absolute workspace relative absolute :
  is_absolute absolute = true -> is_absolute relative = false ->
  components absolute = canonical_root workspace ++ components relative ->
  claim_identity workspace absolute = claim_identity workspace relative.
Proof.
  intros Ha Hr Hc. unfold claim_identity. rewrite Ha, Hr. unfold absolute_inside_root.
  by rewrite (proj2 (strip_path_Some _ _ (components relative)) Hc).
Qed.
End Identity.

(** ** Histories of the claim map

    Each operation sees the file system of its moment. *)
Inductive ClaimAction : Type :=
| ClaimWrite (session : option str) (workspace : Path) (relative : str)
| OverwriteWorkspace (session : option str) (workspace : Path)
| RunCommand (session : option str) (workspace : Path)
| AdoptClaim (from_session to_session : str) (workspace : Path) (relative : str)
| ReleaseClaim (session : str) (workspace : Path) (relative : str)
| SettleChild (parent : option str) (child : str) (workspace : Path) (paths : list str)
| EndSession (session : str).
Definition perform (step : FileSystem * ClaimAction) (claims : Claims) : Claims :=
  let '(_, a) := step in
  match a with
  | ClaimWrite s w r => snd (claim_bound_write s w r claims)
  | OverwriteWorkspace s w => snd (foreign_workspace_claim s w claims)
  | RunCommand s w => snd (refuse_foreign_workspace_owner s w claims)
  | AdoptClaim f t w r => snd (adopt_write_claim f t w r claims)
  | ReleaseClaim s w r => release_write_claim s w r claims
  | SettleChild p c w paths => settle_child_write_claims p c w paths claims
  | EndSession s => release_session s claims
  end.
Definition perform_all (steps : list (FileSystem * ClaimAction)) (claims : Claims) : Claims :=
  fold_left (fun claims step => perform step claims) steps claims.

(** The only ways an owner loses a claim: its own release, its end, an adoption or
    settlement that names it as the finished child, or a check by another session
    that finds the claimed file gone. *)
Definition gives_up (step : FileSystem * ClaimAction) (path : Path) (owner : str) : Prop :=
  let '(_, a) := step in
  match a with
  | ClaimWrite _ _ _ => False
  | OverwriteWorkspace _ w | RunCommand _ w =>
      path_exists path = false /\ path_starts_with path (canonical_root w) = true
  | AdoptClaim f _ w r => f = owner /\ claim_identity w r = inr path
  | ReleaseClaim s w r => s = owner /\ claim_identity w r = inr path
  | SettleChild _ c _ _ => c = owner
  | EndSession s => s = owner
  end.
#[global] Instance gives_up_dec step path owner : Decision (gives_up step path owner).
Proof. destruct step as [fs []]; cbn; apply _. Defined.

Section Kept.
Context `{FileSystem}.
Implicit Types (claims : Claims).
Lemma claim_write_kept s w r claims path owner :
  claims !! path = Some owner -> snd (claim_write s w r claims) !! path = Some owner.
Proof.
  intros E. unfold claim_write. case_match; [done|]. case_match; [done|]. case_match.
  - by case_match.
  - cbn. rewrite lookup_insert_ne; [done|]. congruence.
Qed.
Lemma adopt_kept f t w r claims path owner :
  claims !! path = Some owner -> (f = owner -> claim_identity w r = inr path -> trim t = owner) ->
  snd (adopt_write_claim f t w r claims) !! path = Some owner.
Proof.
  intros E Hf. unfold adopt_write_claim. case_match; [done|].
  destruct (claim_identity w r) as [e|p] eqn:Ei; [done|]. destruct (decide (p = path)) as [->|Hne].
  - rewrite E. destruct (str_eqb owner (trim t)) eqn:Et; cbn [orb].
    + apply str_eqb_spec in Et as ->. cbn. by rewrite lookup_insert_eq.
    + destruct (str_eqb owner f) eqn:Ef; [|done]. apply str_eqb_spec in Ef as <-. cbn.
      by rewrite lookup_insert_eq, Hf.
  - repeat case_match; cbn; rewrite ?lookup_insert_ne by done; done.
Qed.
Lemma foreign_check_kept s w claims path owner :
  claims !! path = Some owner ->
  ~ (path_exists path = false /\ path_starts_with path (canonical_root w) = true) ->
  snd (refuse_foreign_workspace_owner s w claims) !! path = Some owner.
Proof.
  intros E Hn. unfold refuse_foreign_workspace_owner. cbn zeta.
  assert (forall c, filter (fun claim : Path * str =>
            (foreign (trim (default [] s)) (canonical_root w) claim && negb (path_exists (fst claim))) = false) claims = c ->
            c !! path = Some owner) as Hc.
  { intros c <-. apply map_lookup_filter_Some_2; [done|]. unfold foreign. cbn.
    destruct (path_exists path), (path_starts_with path _); rewrite ?andb_false_r; cbn; try done; naive_solver. }
  by repeat case_match; cbn; apply Hc.
Qed.
Lemma release_session_lookup s claims path owner :
  release_session s claims !! path = Some owner <-> claims !! path = Some owner /\ owner <> s.
Proof. unfold release_session. by rewrite map_lookup_filter_Some. Qed.
Lemma adopt_all_kept f t w paths claims path owner :
  claims !! path = Some owner -> f <> owner ->
  fold_left (fun claims path => snd (adopt_write_claim f t w path claims)) paths claims !! path = Some owner.
Proof.
  intros E Hf. revert claims E. induction paths as [|r paths IH]; intros claims E; cbn; [done|].
  apply IH. by apply adopt_kept; [|intros].
Qed.
End Kept.

Lemma perform_kept step claims path owner :
  claims !! path = Some owner -> ~ gives_up step path owner -> perform step claims !! path = Some owner.
Proof.
  destruct step as [fs [s w r|s w|s w|f t w r|s w r|p c w paths|s]]; cbn; intros E Hn.
  - unfold claim_bound_write. case_match; [by apply claim_write_kept|done].
  - unfold foreign_workspace_claim. case_match; [by apply foreign_check_kept|done].
  - by apply foreign_check_kept.
  - apply adopt_kept; [done|]. intros -> Hi. by destruct Hn.
  - unfold release_write_claim. case_match; [done|]. case_bool_decide as Hd; [|done].
    rewrite lookup_delete_ne; [done|]. intros ->. apply Hn. split; [congruence|done].
  - unfold settle_child_write_claims. case_match; apply release_session_lookup; (split; [|congruence]); [|done].
    apply adopt_all_kept; congruence.
  - apply release_session_lookup. split; [done|congruence].
Qed.
(** A claim that a history took from its owner was given up at some step of it. *)
Lemma claim_lost steps claims path owner :
  claims !! path = Some owner -> perform_all steps claims !! path <> Some owner ->
  exists before step after, steps = before ++ step :: after
    /\ perform_all before claims !! path = Some owner /\ gives_up step path owner.
Proof.
  revert claims. induction steps as [|step steps IH]; intros claims E Hl; [done|].
  destruct (decide (perform step claims !! path = Some owner)) as [E'|E'].
  - destruct (IH _ E' Hl) as (before & s & after & -> & Hb & Hg). by exists (step :: before), s, after.
  - exists [], step, steps. split; [done|]. split; [done|].
    apply dec_stable. intros Hn. by apply E', perform_kept.
Qed.

(** ** The claims of the code *)
Section Claimed.
Context `{FileSystem}.
Lemma claimed_owner s w r claims claims' path :
  claim_bound_write (Some s) w r claims = (inr tt, claims') -> is_interpreter_build_artifact r = false ->
  claim_identity w r = inr path -> claims' !! path = Some s.
Proof.
  unfold claim_bound_write, bound_session. cbn. destruct (str_eqb (trim s) []); cbn; [done|].
  intros E Ha Hi. unfold claim_write in E. rewrite Ha, Hi in E. destruct (claims !! path) as [o|] eqn:El.
  - destruct (str_eqb o s) eqn:Es; [|done]. apply str_eqb_spec in Es as <-. by injection E as <-.
  - injection E as <-. by rewrite lookup_insert_eq.
Qed.
Lemma claim_refused s w r claims claims' path owner :
  claim_bound_write (Some s) w r claims = (inr tt, claims') -> is_interpreter_build_artifact r = false ->
  claim_identity w r = inr path -> claims !! path = Some owner -> owner = s.
Proof.
  unfold claim_bound_write, bound_session. cbn. destruct (str_eqb (trim s) []); cbn; [done|].
  intros E Ha Hi Hp. unfold claim_write in E. rewrite Ha, Hi, Hp in E.
  destruct (str_eqb owner s) eqn:Es; [|done]. by apply str_eqb_spec.
Qed.
End Claimed.

(** C20. Writes are exclusive between sessions, by claim identity: when one session
    has claimed a path and later another session's claim of a path with the same
    identity succeeds, after whatever operations of any sessions, then in between
    the first session still held the claim when it was given up: by its own release
    or end, by an adoption or settlement that names it as the finished child, or by
    a check that found the file gone. Interpreter build artifacts are never claimed,
    and spellings whose identity differs (through a symlinked directory, see
    [symlink_hides_a_claim]) are different claims. *)
Theorem write_claims_exclusive (fs1 fs2 : FileSystem) (s1 s2 : str) (w1 w2 : Path) (r1 r2 : str)
    (claims c1 c3 : Claims) (path : Path) (steps : list (FileSystem * ClaimAction)) :
  is_interpreter_build_artifact r1 = false -> is_interpreter_build_artifact r2 = false ->
  @claim_identity fs1 w1 r1 = inr path -> @claim_identity fs2 w2 r2 = inr path -> s1 <> s2 ->
  @claim_bound_write fs1 (Some s1) w1 r1 claims = (inr tt, c1) ->
  @claim_bound_write fs2 (Some s2) w2 r2 (perform_all steps c1) = (inr tt, c3) ->
  exists before step after, steps = before ++ step :: after
    /\ perform_all before c1 !! path = Some s1 /\ gives_up step path s1.
Proof.
  intros Ha1 Ha2 Hi1 Hi2 Hne E1 E2. apply (claim_lost steps c1 path s1).
  - by eapply (@claimed_owner fs1 s1 w1 r1).
  - intros Hp. apply Hne. by eapply (@claim_refused fs2 s2 w2 r2).
Qed.

Section Settlement.
Context `{FileSystem}.
Implicit Types (claims : Claims).
Lemma adopt_gains child parent w r claims path :
  claim_identity w r = inr path -> trim parent <> [] ->
  (claims !! path = None \/ claims !! path = Some child \/ claims !! path = Some (trim parent)) ->
  snd (adopt_write_claim child parent w r claims) !! path = Some (trim parent).
Proof.
  intros Hi Hp Ho. unfold adopt_write_claim. rewrite Hi. destruct (str_eqb (trim parent) []) eqn:Et.
  { by apply str_eqb_spec in Et. }
  destruct Ho as [->|[->| ->]]; rewrite ?str_eqb_refl, ?orb_true_r; cbn; by rewrite lookup_insert_eq.
Qed.
Lemma adopt_only child parent w r claims path owner :
  snd (adopt_write_claim child parent w r claims) !! path = Some owner ->
  claims !! path = Some owner \/ owner = trim parent /\ claim_identity w r = inr path.
Proof.
  unfold adopt_write_claim. case_match; [by left|]. destruct (claim_identity w r) as [e|p]; [by left|].
  assert (forall c : Claims, c = <[p := trim parent]> claims -> c !! path = Some owner ->
          claims !! path = Some owner \/ owner = trim parent /\ inr p = (inr path : ClaimError + Path)) as Hins.
  { intros c ->. destruct (decide (p = path)) as [->|Hne].
    - rewrite lookup_insert_eq. intros [= <-]. by right.
    - rewrite lookup_insert_ne by done. by left. }
  destruct (claims !! p); [case_match|]; cbn; intros E; eauto.
Qed.
Lemma adopt_all_only child parent w paths claims path owner :
  fold_left (fun claims path => snd (adopt_write_claim child parent w path claims)) paths claims !! path = Some owner ->
  claims !! path = Some owner \/ owner = trim parent /\ exists r, In r paths /\ claim_identity w r = inr path.
Proof.
  revert claims. induction paths as [|r paths IH]; intros claims E; cbn in *; [by left|].
  destruct (IH _ E) as [E'|(-> & r' & Hr & Hi)]; [|right; eauto].
  apply adopt_only in E' as [?|[-> Hi]]; [by left|right; eauto].
Qed.
Lemma adopt_all_gains child parent w paths claims path r :
  In r paths -> claim_identity w r = inr path -> trim parent <> [] -> child <> trim parent ->
  (claims !! path = None \/ claims !! path = Some child \/ claims !! path = Some (trim parent)) ->
  fold_left (fun claims path => snd (adopt_write_claim child parent w path claims)) paths claims !! path
  = Some (trim parent).
Proof.
  intros Hin Hi Hp Hne. revert claims. induction paths as [|r' paths IH]; intros claims Ho; [done|]. cbn.
  destruct Hin as [->|Hin]; [by apply adopt_all_kept; [apply adopt_gains|]|].
  apply IH; [done|]. destruct (snd (adopt_write_claim child parent w r' claims) !! path) as [o|] eqn:E; [|by left].
  right. apply adopt_only in E as [E|[-> _]]; [|by right]. destruct Ho as [Ho|[Ho|Ho]]; rewrite Ho in E; [done|left|right]; congruence.
Qed.
(** The settlement of a child moves its work and nothing else: afterwards the
    child holds no claim, the parent holds every observed path that was free, the
    child's or its own, every claim of a third session is as it was, and no claim is
    new except the parent's on observed paths. *)
Theorem child_settlement (parent child : str) (workspace : Path) (paths : list str) (claims : Claims) :
  trim parent <> [] -> child <> trim parent ->
  let settled := settle_child_write_claims (Some parent) child workspace paths claims in
  (forall path, settled !! path <> Some child)
  /\ (forall relative path, In relative paths -> claim_identity workspace relative = inr path ->
        claims !! path = None \/ claims !! path = Some child \/ claims !! path = Some (trim parent) ->
        settled !! path = Some (trim parent))
  /\ (forall path owner, owner <> child -> claims !! path = Some owner -> settled !! path = Some owner)
  /\ (forall path owner, settled !! path = Some owner -> claims !! path = Some owner
        \/ owner = trim parent /\ exists relative, In relative paths /\ claim_identity workspace relative = inr path).
Proof.
  intros Hp Hne. unfold settle_child_write_claims. cbn. destruct (str_eqb (trim parent) []) eqn:Et.
  { by apply str_eqb_spec in Et. }
  assert (Htt : trim (trim parent) = trim parent) by apply trim_trim.
  split_and!; intros *.
  - by intros [_ ?]%release_session_lookup.
  - intros Hin Hi Ho. apply release_session_lookup. split; [|done].
    pose proof (adopt_all_gains child (trim parent) workspace paths claims path relative) as Hg. rewrite Htt in Hg. by apply Hg.
  - intros Ho E. apply release_session_lookup. split; [|done]. by apply adopt_all_kept.
  - intros [E _]%release_session_lookup. apply adopt_all_only in E. by rewrite Htt in E.
Qed.
End Settlement.

(** ** Concrete histories *)
Module ClaimSample.
Definition root : Path := [RootDir; Normal $"w"].
(** A disk on which every path is its own canonical path, and one on which the
    claimed file is gone. *)
Definition disk (present : bool) : FileSystem := {|
  canonicalize := Some; path_exists := fun _ => present; symlink_metadata := fun _ => NotSymlink;
  is_file := fun _ => present; is_dir := fun _ => false; read_to_string := fun _ => None; read_dir := fun _ => None |}.
Definition guest : Path := root ++ [Normal $"guest.txt"].
(** The map after session a has claimed the file. *)
Definition held : Claims := snd (@claim_bound_write (disk true) (Some $"a") root $"guest.txt" ∅).
Definition gone : FileSystem * ClaimAction := (disk false, RunCommand (Some $"b") root).
End ClaimSample.
Import ClaimSample.

Lemma claimed (r : ClaimResult * Claims) : fst r = inr tt -> r = (inr tt, snd r).
Proof. destruct r. cbn. by intros ->. Qed.
(** Session b claims the respelled file after its own check found it deleted. *)
Lemma write_claims_exclusive_witness :
  exists before step after, [gone] = before ++ step :: after
    /\ perform_all before held !! guest = Some $"a" /\ gives_up step guest $"a".
Proof.
  eapply (write_claims_exclusive (disk true) (disk true) $"a" $"b" root root $"guest.txt" $"/w/sub/../guest.txt" ∅ held);
    [reflexivity..|discriminate|apply claimed|apply claimed]; vm_compute; reflexivity.
Defined.
Lemma child_settlement_witness :
  @settle_child_write_claims (disk true) (Some $"parent") $"a" root [$"./guest.txt"; $"new.txt"] held !! guest = Some $"parent".
Proof.
  destruct (@child_settlement (disk true) $"parent" $"a" root [$"./guest.txt"; $"new.txt"] held) as (_ & Hg & _);
    [discriminate..|].
  apply (Hg $"./guest.txt"); [by left|reflexivity|]. right. left. vm_compute. reflexivity.
Defined.

(** A session whose id has outer white space is a stranger to its own claims: the
    claim stores the id as it is, the check compares it with the trimmed id. *)
Lemma padded_session_refuses_itself :
  let claims := snd (@claim_bound_write (disk true) (Some $" a") root $"x" ∅) in
  fst (@foreign_workspace_claim (disk true) (Some $" a") root claims) = inl (OwnedBy (root ++ [Normal $"x"]) $" a").
Proof. vm_compute. reflexivity. Qed.

(** Relative spellings are compared without the disk: when [link] is a symlink to
    [real], two sessions can both claim the one file. *)
Definition linked (p : Path) : option Path :=
  match p with
  | [RootDir; Normal w; Normal d; Normal f] => Some [RootDir; Normal w; Normal (if str_eqb d $"link" then $"real" else d); Normal f]
  | _ => Some p
  end.
Lemma symlink_hides_a_claim :
  let disk := {| canonicalize := linked; path_exists := fun _ => true; symlink_metadata := fun _ => NotSymlink;
                 is_file := fun _ => true; is_dir := fun _ => true; read_to_string := fun _ => None; read_dir := fun _ => None |} in
  linked (root ++ [Normal $"link"; Normal $"f"]) = linked (root ++ [Normal $"real"; Normal $"f"])
  /\ fst (@claim_bound_write disk (Some $"a") root $"real/f" ∅) = inr tt
  /\ fst (@claim_bound_write disk (Some $"b") root $"link/f" (snd (@claim_bound_write disk (Some $"a") root $"real/f" ∅))) = inr tt.
Proof. vm_compute. repeat split. Qed.
