(* ===== verification/Interactive.v ===== *)
(** The guardrail of interactive hosts ([permissions/risk.rs],
    [permissions/interactive.rs], [permissions/interactive/assessment.rs]): every
    call gets an explainable risk level, and the approval mode turns the level into
    an action. *)
From S2P Require Import Prelude Text Paths ShellLexer Shell PermissionRule PermissionPolicy.

(** ** The vocabulary ([risk.rs]) *)
Module Levels.
Inductive ToolRiskLevel : Type := Routine | Bounded | High | Critical.
End Levels.
Abbreviation ToolRiskLevel := Levels.ToolRiskLevel.
#[global] Instance ToolRiskLevel_eq_dec : EqDecision ToolRiskLevel.
Proof. solve_decision. Defined.
Definition level_rank (l : ToolRiskLevel) : nat :=
  match l with Levels.Routine => 0 | Levels.Bounded => 1 | Levels.High => 2 | Levels.Critical => 3 end.
Module Actions.
Inductive ToolRiskAction : Type := Allow | RequireConfirmation | ReviewByLlm | RuleDeny.
End Actions.
Abbreviation ToolRiskAction := Actions.ToolRiskAction.
#[global] Instance ToolRiskAction_eq_dec : EqDecision ToolRiskAction.
Proof. solve_decision. Defined.
Module RiskTypes.
Inductive ToolRiskType : Type :=
| ReadOnly | WorkspaceMutation | CommandExecution | VersionControl | NetworkRead | Delegation
| DynamicExecution | ExternalIntegration | Composite | Unknown.
End RiskTypes.
Abbreviation ToolRiskType := RiskTypes.ToolRiskType.
#[global] Instance ToolRiskType_eq_dec : EqDecision ToolRiskType.
Proof. solve_decision. Defined.
Module Targets.
Inductive OperationTarget : Type :=
| Workspace | OutsideWorkspace | PublicNetwork | ExternalService | HostEnvironment | PrivilegedSystem
| Multiple | Unknown.
End Targets.
Module Scopes.
Inductive ImpactScope : Type :=
| Observation | SingleResource | Workspace | ExternalService | Host | SystemWide | Unknown.
End Scopes.
Module Reversals.
Inductive Reversibility : Type := NotApplicable | Easy | Conditional | Difficult | Irreversible | Unknown.
End Reversals.
Module Sensitivities.
Inductive EnvironmentSensitivity : Type :=
| None | Workspace | Network | Host | Credentials | Privileged | Mixed | Unknown.
End Sensitivities.
Module Reasons.
Inductive ToolRiskReason : Type :=
| KnownReadOnly | BoundedWorkspaceMutation | BoundedVersionControlMutation | UnboundedCommandExecution
| DynamicOrDelegatedExecution | ExternalOrUnknownIntegration | EnvironmentSensitiveOperation
| ForceOrDestructiveOperation | MalformedOrUnknownOperation | WorkspaceBoundaryEscape
| SymlinkBoundaryEscape | CatastrophicOperation | CompositeInvocation.
End Reasons.
Abbreviation ToolRiskReason := Reasons.ToolRiskReason.
#[global] Instance ToolRiskReason_eq_dec : EqDecision ToolRiskReason.
Proof. solve_decision. Defined.

Record ToolRiskDimensions : Type := mkDimensions {
  td_tool_type : ToolRiskType;
  td_operation_target : Targets.OperationTarget;
  td_impact_scope : Scopes.ImpactScope;
  td_reversibility : Reversals.Reversibility;
  td_environment_sensitivity : Sensitivities.EnvironmentSensitivity;
}.
Record ToolRiskAssessment : Type := mkAssessment {
  ra_level : ToolRiskLevel; ra_dimensions : ToolRiskDimensions; ra_reasons : list ToolRiskReason;
}.
(** [ToolRiskAssessment::new]: each reason once, in order of first mention. *)
Definition add_reason (seen : list ToolRiskReason) (reason : ToolRiskReason) : list ToolRiskReason :=
  if bool_decide (reason ∈ seen) then seen else seen ++ [reason].
Definition new_assessment (level : ToolRiskLevel) (dimensions : ToolRiskDimensions) (reasons : list ToolRiskReason)
    : ToolRiskAssessment :=
  mkAssessment level dimensions (fold_left add_reason reasons []).
Definition baseline_action (a : ToolRiskAssessment) : ToolRiskAction :=
  match ra_level a with
  | Levels.Routine => Actions.Allow
  | Levels.Bounded => Actions.RequireConfirmation
  | Levels.High => Actions.ReviewByLlm
  | Levels.Critical => Actions.RuleDeny
  end.

(** ** Approval modes *)
Module Modes.
Inductive InteractiveApprovalMode : Type := Default | Plan | Auto | Force.
End Modes.
Abbreviation InteractiveApprovalMode := Modes.InteractiveApprovalMode.
#[global] Instance InteractiveApprovalMode_eq_dec : EqDecision InteractiveApprovalMode.
Proof. solve_decision. Defined.
(** [None] is the refusal of an unknown name. *)
Definition mode_parse (value : str) : option InteractiveApprovalMode :=
  let v := to_ascii_lowercase (trim value) in
  if str_eqb v $"default" then Some Modes.Default
  else if str_eqb v $"plan" then Some Modes.Plan
  else if str_eqb v $"auto" then Some Modes.Auto
  else if str_eqb v $"force" || str_eqb v $"yolo" then Some Modes.Force
  else None.
Definition mode_as_str (m : InteractiveApprovalMode) : str :=
  match m with
  | Modes.Default => $"default" | Modes.Plan => $"plan" | Modes.Auto => $"auto" | Modes.Force => $"force"
  end.
Definition action_for (m : InteractiveApprovalMode) (a : ToolRiskAssessment) : ToolRiskAction :=
  match m, ra_level a with
  | _, Levels.Routine => Actions.Allow
  | Modes.Plan, (Levels.Bounded | Levels.High) => Actions.RuleDeny
  | (Modes.Auto | Modes.Force), Levels.Bounded => Actions.Allow
  | _, Levels.Bounded => Actions.RequireConfirmation
  | Modes.Force, Levels.High => Actions.Allow
  | _, Levels.High => Actions.ReviewByLlm
  | _, Levels.Critical => Actions.RuleDeny
  end.
Definition apply_mode (m : InteractiveApprovalMode) (a : ToolRiskAssessment) : PermissionDecision :=
  match action_for m a with
  | Actions.Allow => Allow
  | Actions.RequireConfirmation | Actions.ReviewByLlm => Ask
  | Actions.RuleDeny => Deny
  end.

(** ** Paths and the workspace *)
Definition clean_shell_char (c : char) : bool := existsb (Z.eqb c) [39; 34; 40; 41; 91; 93; 123; 125; 44; 58].
Definition clean_shell_token (token : str) : str := trim_matches clean_shell_char token.
Definition is_ascii_alphabetic (c : char) : bool := is_ascii_lowercase c || is_ascii_uppercase c.
Definition path_is_lexically_absolute (path : str) : bool :=
  match path with
  | a :: b :: _ => is_ascii_alphabetic a && (b =? c_colon)
  | _ => false
  end || starts_with path $"//" || starts_with path $"/".
(** The loop over the components, from a depth. *)
Fixpoint escapes_from (depth : Z) (pieces : list str) : bool :=
  match pieces with
  | [] => false
  | p :: rest =>
      if str_eqb p [] || str_eqb p $"." then escapes_from depth rest
      else if str_eqb p $".." then if depth =? 0 then true else escapes_from (depth - 1) rest
      else escapes_from (depth + 1) rest
  end.
Definition relative_path_escapes (path : str) : bool := escapes_from 0 (split_on c_slash path).
Definition to_forward (path : str) : str := replace_char c_backslash c_slash path.

Section Guardrail.
Context `{FileSystem}.

Definition path_escapes_workspace_root (root : Path) (input : str) : bool :=
  if is_absolute input || path_is_lexically_absolute input then
    match normalize_abs_for_compare root, normalize_abs_for_compare (components input) with
    | Some root_cmp, Some target_cmp => negb (path_starts_with target_cmp root_cmp)
    | _, _ => true
    end
  else relative_path_escapes input.
Definition path_is_outside_workspace (path : str) (workspace : option Path) : bool :=
  let path := trim (to_forward path) in
  if str_eqb path [] then false
  else if starts_with path $"~" || starts_with path $"$HOME" || starts_with path $"${HOME}" then true
  else match workspace with
       | None => path_is_lexically_absolute path || relative_path_escapes path
       | Some root => path_escapes_workspace_root root path
       end.
Definition workspace_relative_path (root : Path) (path : str) : option str :=
  if negb (is_absolute path) && negb (path_is_lexically_absolute path) then Some (to_forward path)
  else
    root_cmp ← normalize_abs_for_compare root;
    target_cmp ← normalize_abs_for_compare (components path);
    relative ← strip_path root_cmp target_cmp;
    Some (to_forward (path_str relative)).

(** *** Symlinks *)
Definition is_glob (name : str) : bool := existsb (fun c => existsb (Z.eqb c) [42; 63; 91; 93; 123; 125]) name.
Fixpoint walk_symlinks (stop_at_shell_glob : bool) (current : Path) (l : Path) : bool :=
  match l with
  | [] => false
  | CurDir :: rest => walk_symlinks stop_at_shell_glob current rest
  | Normal name :: rest =>
      if stop_at_shell_glob && is_glob name then false
      else
        let current := push current name in
        match symlink_metadata current with
        | Symlink => true
        | NotSymlink => walk_symlinks stop_at_shell_glob current rest
        | NotFound => false
        | MetadataError => true
        end
  | (RootDir | ParentDir) :: _ => true
  end.
Definition path_crosses_symlink (root : Path) (path : str) (stop_at_shell_glob : bool) : bool :=
  if path_is_outside_workspace path (Some root) then false
  else match workspace_relative_path root path with
       | None => true
       | Some relative => walk_symlinks stop_at_shell_glob root (components relative)
       end.
Definition shell_path_crosses_symlink (root : Path) (args : json) : bool :=
  match jget_str $"command" args with
  | None => false
  | Some command =>
      existsb (fun token => path_crosses_symlink root token true)
        (List.filter (fun token => negb (str_eqb token []) && negb (starts_with token $"-"))
                     (map clean_shell_token (split_whitespace command)))
  end.
Definition is_batch (tool_name : str) : bool := str_eqb (to_ascii_lowercase tool_name) $"batch".
Definition atomic_crosses_symlink (root : Path) (tool_name : str) (args : json) : bool :=
  let tool := to_ascii_lowercase tool_name in
  if str_eqb tool $"bash" then shell_path_crosses_symlink root args
  else if str_eqb tool $"read" then
    match jget_str $"file_path" args with
    | Some path => path_crosses_symlink root path false
    | None =>
        match jget $"files" args ≫= jas_array with
        | Some files => existsb (fun entry => match jget_str $"path" entry with
                                              | Some path => path_crosses_symlink root path false
                                              | None => false
                                              end) files
        | None => false
        end
    end
  else
    let field := if one_of tool ["write"; "edit"; "patch"; "download"] then Some $"file_path"
                 else if one_of tool ["search"; "ls"; "code_symbols"; "code_navigation"; "code_diagnostics"]
                 then Some $"path" else None in
    match field ≫= (fun field => jget_str field args) with
    | Some path => path_crosses_symlink root path false
    | None => false
    end.
(** The arguments of a batch's member are a part of the batch's, so the depth of
    the JSON bounds the recursion. *)
Fixpoint crosses_fuel (fuel : nat) (root : Path) (tool_name : str) (args : json) : bool :=
  match fuel with
  | O => false
  | S fuel =>
      if is_batch tool_name then
        match jget $"invocations" args ≫= jas_array with
        | None => false
        | Some invocations =>
            existsb (fun invocation =>
              match jget_str $"tool" invocation, jget $"args" invocation with
              | Some tool, Some tool_args => crosses_fuel fuel root tool tool_args
              | _, _ => false
              end) invocations
        end
      else atomic_crosses_symlink root tool_name args
  end.
Definition invocation_crosses_local_symlink (root : Path) (tool_name : str) (args : json) : bool :=
  crosses_fuel (S (json_depth args)) root tool_name args.

(** ** Classifying a call *)
Definition stricter_permission (left right : PermissionDecision) : PermissionDecision :=
  match left, right with
  | Deny, _ | _, Deny => Deny
  | Ask, _ | _, Ask => Ask
  | Allow, Allow => Allow
  end.
Definition classify_path_value (path : str) (safe_decision : PermissionDecision) (workspace : option Path)
    : PermissionDecision :=
  if str_eqb (trim path) [] then Ask
  else if path_is_outside_workspace path workspace then Deny else safe_decision.
Definition classify_scoped_path (args : json) (field : str) (safe_decision : PermissionDecision)
    (workspace : option Path) : PermissionDecision :=
  let missing := if str_eqb field $"path" then safe_decision else Ask in
  match jget_str field args with
  | None => missing
  | Some path => if str_eqb (trim path) [] then missing else classify_path_value path safe_decision workspace
  end.
Fixpoint classify_files (files : list json) (decision : PermissionDecision) (workspace : option Path)
    : PermissionDecision :=
  match files with
  | [] => decision
  | entry :: rest =>
      match jget_str $"path" entry with
      | None => Ask
      | Some path => classify_files rest (stricter_permission decision (classify_path_value path Allow workspace)) workspace
      end
  end.
Definition classify_read (args : json) (workspace : option Path) : PermissionDecision :=
  match jget_str $"file_path" args with
  | Some path => classify_path_value path Allow workspace
  | None =>
      match jget $"files" args ≫= jas_array with
      | None | Some [] => Ask
      | Some files => classify_files files Allow workspace
      end
  end.

(** *** Structured git calls *)
Definition has (args : json) (field : string) : bool := match jget (lit field) args with Some _ => true | None => false end.
Definition only_git_keys (args : json) (allowed : list string) : bool :=
  match args with JObject fields => forallb (fun kv => one_of (fst kv) allowed) fields | _ => false end.
Definition valid_non_option_string (args : json) (field : string) : bool :=
  match jget_str (lit field) args with
  | Some value => negb (str_eqb (trim value) []) && negb (starts_with (trim value) $"-")
  | None => false
  end.
Definition optional_if (args : json) (field : string) (test : json -> bool) : bool :=
  match jget (lit field) args with Some value => test value | None => true end.
Definition valid_optional_non_option_string (args : json) (field : string) : bool :=
  optional_if args field (fun _ => valid_non_option_string args field).
Definition is_string (v : json) : bool := match v with JString _ => true | _ => false end.
Definition valid_optional_string (args : json) (field : string) : bool := optional_if args field is_string.
Definition valid_optional_positive_integer (args : json) (field : string) : bool :=
  optional_if args field (fun v => match jas_u64 v with Some n => 0 <? n | None => false end).
Definition valid_optional_nonnegative_integer (args : json) (field : string) : bool :=
  optional_if args field (fun v => match jas_u64 v with Some _ => true | None => false end).
(** [value != false]; also what [as_bool() != Some(false)] says. *)
Definition forced (args : json) : bool :=
  match jget $"force" args with Some (JBool false) | None => false | Some _ => true end.
Definition worktree_subcommand (args : json) : option str := jget_str $"subcommand" args.
Definition pages (args : json) : bool :=
  only_git_keys args ["command"; "limit"; "max_count"; "cursor"] && valid_optional_positive_integer args "limit"
  && valid_optional_positive_integer args "max_count" && valid_optional_string args "cursor".
Definition classify_git (args : json) : PermissionDecision :=
  match jget_str $"command" args with
  | None => Ask
  | Some command =>
      if forced args then Ask
      else
        let named name := str_eqb command (lit name) in
        let reads :=
          (named "status" && only_git_keys args ["command"])
          || (named "log" && pages args)
          || (named "diff" && only_git_keys args ["command"; "target"; "byte_offset"; "max_bytes"]
              && valid_optional_non_option_string args "target" && valid_optional_nonnegative_integer args "byte_offset"
              && valid_optional_positive_integer args "max_bytes")
          || (named "remote" && only_git_keys args ["command"; "remote_name"; "cursor"]
              && valid_optional_string args "remote_name" && valid_optional_string args "cursor")
          || (named "branch" && negb (has args "name") && pages args)
          || (named "stash" && negb (has args "message") && negb (has args "include_untracked")
              && only_git_keys args ["command"; "cursor"] && valid_optional_string args "cursor")
          || (named "worktree" && str_eqb (default $"list" (worktree_subcommand args)) $"list"
              && only_git_keys args ["command"; "subcommand"; "cursor"] && valid_optional_string args "subcommand"
              && valid_optional_string args "cursor") in
        if reads then Allow else Ask
  end.
Definition git_call_is_known_bounded_mutation (args : json) : bool :=
  if forced args then false
  else match jget_str $"command" args with
  | None => false
  | Some command =>
      if str_eqb command $"branch" then valid_non_option_string args "name"
      else if str_eqb command $"checkout" then valid_non_option_string args "ref"
      else if str_eqb command $"stash" then
        match jget_str $"message" args with Some _ => true | None => false end
        || default false (jget $"include_untracked" args ≫= jas_bool)
      else if str_eqb command $"remote" then match jget_str $"remote_name" args with Some _ => true | None => false end
      else if str_eqb command $"worktree" then bool_decide (worktree_subcommand args = Some $"add")
      else false
  end.

(** *** Bash *)
Definition is_read_only_bash_command (command : str) (a : ShellAnalysis) (workspace : option Path) : bool :=
  bool_decide (sa_risk a = ReadOnly) && sa_only_pipes a
  && negb (existsb (fun c => is_whitespace c && negb (c =? c_space)) command)
  && forallb (fun c => (sc_depth c =? 0)%nat && sc_plain_words c && negb (sc_redirects c)
                       && negb (sc_has_assignments c) && negb (sc_wrapped c)
                       && negb (existsb (fun word => path_is_outside_workspace (clean_shell_token word) workspace)
                                        (sc_effective c)))
             (sa_commands a).
Definition classify_bash (args : json) (workspace : option Path) : Res PermissionDecision :=
  match jget_str $"command" args with
  | None => Ok Ask
  | Some command =>
      let command := trim command in
      if str_eqb command [] then Ok Ask
      else
        a ← analyze command;
        if is_hard_denial (sa_risk a) then Ok Deny
        else if is_read_only_bash_command command a workspace then Ok Allow else Ok Ask
  end.
Definition is_catastrophic_bash_command (command : str) : Res bool :=
  a ← analyze command; Ok (is_hard_denial (sa_risk a)).

Definition QUIET_TOOLS : list string :=
  ["web_search"; "web_fetch"; "search_skills"; "generate_object"; "update_plan"; "ask_user"; "ask_user_form"].
Definition classify_atomic_tool (tool_name : str) (args : json) (workspace : option Path) : Res PermissionDecision :=
  let tool := to_ascii_lowercase tool_name in
  if str_eqb tool $"read" then Ok (classify_read args workspace)
  else if one_of tool ["search"; "ls"; "code_symbols"; "code_navigation"; "code_diagnostics"]
  then Ok (classify_scoped_path args $"path" Allow workspace)
  else if one_of tool QUIET_TOOLS then Ok Allow
  else if one_of tool ["write"; "edit"] then Ok (classify_scoped_path args $"file_path" Ask workspace)
  else if str_eqb tool $"download" then
    if negb (has args "file_path") then Ok Ask else Ok (classify_scoped_path args $"file_path" Ask workspace)
  else if str_eqb tool $"patch" then Ok (classify_scoped_path args $"file_path" Ask workspace)
  else if str_eqb tool $"bash" then classify_bash args workspace
  else if str_eqb tool $"git" then Ok (classify_git args)
  else Ok Ask.
Definition bounded_file_target (args : json) (workspace : option Path) : bool :=
  match jget_str $"file_path" args with
  | Some path => negb (str_eqb (trim path) []) && negb (path_is_outside_workspace path workspace)
  | None => false
  end.
Definition atomic_tool_is_bounded (tool_name : str) (args : json) (workspace : option Path) : bool :=
  let tool := to_ascii_lowercase tool_name in
  if one_of tool ["write"; "edit"; "patch"] then bounded_file_target args workspace
  else if str_eqb tool $"download" then negb (has args "file_path") || bounded_file_target args workspace
  else if str_eqb tool $"git" then
    bool_decide (classify_git args = Ask) && git_call_is_known_bounded_mutation args
  else false.

(** ** Assessments ([assessment.rs]) *)
Definition MAX_BATCH_RISK_DEPTH : nat := 16.
Definition tool_risk_type (tool_name : str) : ToolRiskType :=
  let tool := to_ascii_lowercase tool_name in
  if one_of tool ["read"; "search"; "ls"; "code_symbols"; "code_navigation"; "code_diagnostics"; "search_skills"; "generate_object"]
  then RiskTypes.ReadOnly
  else if one_of tool ["write"; "edit"; "patch"; "download"] then RiskTypes.WorkspaceMutation
  else if str_eqb tool $"bash" then RiskTypes.CommandExecution
  else if str_eqb tool $"git" then RiskTypes.VersionControl
  else if one_of tool ["web_search"; "web_fetch"] then RiskTypes.NetworkRead
  else if one_of tool ["task"; "parallel_task"] then RiskTypes.Delegation
  else if one_of tool ["program"; "dynamic_workflow"; "skill"] then RiskTypes.DynamicExecution
  else if str_eqb tool $"runtime" then RiskTypes.ExternalIntegration
  else if str_eqb tool $"batch" then RiskTypes.Composite
  else RiskTypes.Unknown.
Definition routine_assessment (tool_name : str) : ToolRiskAssessment :=
  let tool_type := tool_risk_type tool_name in
  let '(target, sensitivity) :=
    match tool_type with
    | RiskTypes.NetworkRead => (Targets.PublicNetwork, Sensitivities.Network)
    | RiskTypes.CommandExecution => (Targets.HostEnvironment, Sensitivities.Host)
    | _ => (Targets.Workspace, Sensitivities.Workspace)
    end in
  new_assessment Levels.Routine
    (mkDimensions tool_type target Scopes.Observation Reversals.NotApplicable sensitivity) [Reasons.KnownReadOnly].
Definition bounded_assessment (tool_name : str) : ToolRiskAssessment :=
  let tool_type := tool_risk_type tool_name in
  if eq_ignore_ascii_case tool_name $"download" then
    new_assessment Levels.Bounded
      (mkDimensions tool_type Targets.Multiple Scopes.Workspace Reversals.Easy Sensitivities.Mixed)
      [Reasons.BoundedWorkspaceMutation]
  else
    let '(reversibility, reason) :=
      if bool_decide (tool_type = RiskTypes.VersionControl)
      then (Reversals.Conditional, Reasons.BoundedVersionControlMutation)
      else (Reversals.Easy, Reasons.BoundedWorkspaceMutation) in
    new_assessment Levels.Bounded
      (mkDimensions tool_type Targets.Workspace Scopes.Workspace reversibility Sensitivities.Workspace) [reason].
Definition high_assessment (tool_name : str) (reason : ToolRiskReason) : ToolRiskAssessment :=
  let tool_type := tool_risk_type tool_name in
  let '(target, scope, sensitivity) :=
    match tool_type with
    | RiskTypes.ExternalIntegration | RiskTypes.Unknown =>
        (Targets.ExternalService, Scopes.ExternalService, Sensitivities.Mixed)
    | _ => (Targets.HostEnvironment, Scopes.Host, Sensitivities.Host)
    end in
  new_assessment Levels.High (mkDimensions tool_type target scope Reversals.Unknown sensitivity) [reason].
Definition critical_assessment (d : ToolRiskDimensions) (reason : ToolRiskReason) : ToolRiskAssessment :=
  new_assessment Levels.Critical d [reason].
Definition malformed_batch_assessment : ToolRiskAssessment :=
  new_assessment Levels.High
    (mkDimensions RiskTypes.Composite Targets.Multiple Scopes.Unknown Reversals.Unknown Sensitivities.Unknown)
    [Reasons.CompositeInvocation; Reasons.MalformedOrUnknownOperation].
Definition is_object (v : json) : bool := match v with JObject _ => true | _ => false end.
Definition ask_reason (tool_name : str) (args : json) : ToolRiskReason :=
  match tool_risk_type tool_name with
  | RiskTypes.CommandExecution => Reasons.UnboundedCommandExecution
  | RiskTypes.Delegation | RiskTypes.DynamicExecution => Reasons.DynamicOrDelegatedExecution
  | RiskTypes.VersionControl =>
      if forced args then Reasons.ForceOrDestructiveOperation else Reasons.MalformedOrUnknownOperation
  | RiskTypes.ExternalIntegration | RiskTypes.Unknown => Reasons.ExternalOrUnknownIntegration
  | _ => Reasons.MalformedOrUnknownOperation
  end.
Definition deny_assessment (tool_name : str) : ToolRiskAssessment :=
  let tool_type := tool_risk_type tool_name in
  if bool_decide (tool_type = RiskTypes.CommandExecution) then
    critical_assessment (mkDimensions tool_type Targets.PrivilegedSystem Scopes.SystemWide Reversals.Irreversible
                                      Sensitivities.Privileged) Reasons.CatastrophicOperation
  else
    critical_assessment (mkDimensions tool_type Targets.OutsideWorkspace Scopes.Host Reversals.Unknown Sensitivities.Host)
                        Reasons.WorkspaceBoundaryEscape.
Definition assess_atomic (tool_name : str) (args : json) (workspace : option Path) : Res ToolRiskAssessment :=
  if negb (is_object args) then Ok (high_assessment tool_name Reasons.MalformedOrUnknownOperation)
  else
    decision ← classify_atomic_tool tool_name args workspace;
    Ok (match decision with
        | Allow => routine_assessment tool_name
        | Ask => if atomic_tool_is_bounded tool_name args workspace then bounded_assessment tool_name
                 else high_assessment tool_name (ask_reason tool_name args)
        | Deny => deny_assessment tool_name
        end).
(** The loop over a batch: the riskiest member so far and every reason. *)
Fixpoint assess_members (assess : str -> json -> Res ToolRiskAssessment) (invocations : list json)
    (highest : option ToolRiskAssessment) (reasons : list ToolRiskReason) : Res ToolRiskAssessment :=
  match invocations with
  | [] =>
      Ok (match highest with
          | None => malformed_batch_assessment
          | Some h =>
              new_assessment (ra_level h)
                (mkDimensions RiskTypes.Composite Targets.Multiple (td_impact_scope (ra_dimensions h))
                   (td_reversibility (ra_dimensions h)) (td_environment_sensitivity (ra_dimensions h)))
                reasons
          end)
  | invocation :: rest =>
      match jget_str $"tool" invocation, jget $"args" invocation with
      | Some tool, Some tool_args =>
          if is_object tool_args then
            child ← assess tool tool_args;
            let riskier := match highest with
                           | None => true
                           | Some current => (level_rank (ra_level current) <? level_rank (ra_level child))%nat
                           end in
            assess_members assess rest (if riskier then Some child else highest) (reasons ++ ra_reasons child)
          else Ok malformed_batch_assessment
      | _, _ => Ok malformed_batch_assessment
      end
  end.
(** [assess_tool_at_depth], by the levels of nesting left. *)
Fixpoint assess_tool_at (levels : nat) (tool_name : str) (args : json) (workspace : option Path)
    : Res ToolRiskAssessment :=
  if is_batch tool_name then
    match jget $"invocations" args ≫= jas_array with
    | None | Some [] => Ok malformed_batch_assessment
    | Some invocations =>
        match levels with
        | O => Ok malformed_batch_assessment
        | S levels => assess_members (fun tool args => assess_tool_at levels tool args workspace) invocations None
                                     [Reasons.CompositeInvocation]
        end
    end
  else assess_atomic tool_name args workspace.
Definition assess_tool (tool_name : str) (args : json) (workspace : option Path) : Res ToolRiskAssessment :=
  assess_tool_at MAX_BATCH_RISK_DEPTH tool_name args workspace.
Definition assessment_permission (a : ToolRiskAssessment) : PermissionDecision :=
  match ra_level a with
  | Levels.Routine => Allow
  | Levels.Bounded | Levels.High => Ask
  | Levels.Critical => Deny
  end.

(** ** The guardrail *)
Record InteractiveToolGuardrail : Type := mkGuardrail { ig_mode : InteractiveApprovalMode; ig_workspace : option Path }.
Definition new_guardrail (mode : InteractiveApprovalMode) : InteractiveToolGuardrail := mkGuardrail mode None.
Definition guardrail_for_mode (mode : str) : option InteractiveToolGuardrail := option_map new_guardrail (mode_parse mode).
Definition with_workspace (workspace : Path) (g : InteractiveToolGuardrail) : InteractiveToolGuardrail :=
  mkGuardrail (ig_mode g) (Some workspace).
Definition default_guardrail : InteractiveToolGuardrail := new_guardrail Modes.Default.
Definition risk_assessment (tool_name : str) (args : json) : Res ToolRiskAssessment := assess_tool tool_name args None.
Definition risk_decision (tool_name : str) (args : json) : Res PermissionDecision :=
  a ← assess_tool tool_name args None; Ok (assessment_permission a).
Definition workspace_boundary_assessment (g : InteractiveToolGuardrail) (tool_name : str) (args : json)
    : option ToolRiskAssessment :=
  root ← ig_workspace g;
  if invocation_crosses_local_symlink root tool_name args then
    Some (critical_assessment (mkDimensions (tool_risk_type tool_name) Targets.OutsideWorkspace Scopes.Host
                                            Reversals.Unknown Sensitivities.Host) Reasons.SymlinkBoundaryEscape)
  else None.
Definition assess (g : InteractiveToolGuardrail) (tool_name : str) (args : json) : Res ToolRiskAssessment :=
  match workspace_boundary_assessment g tool_name args with
  | Some a => Ok a
  | None => assess_tool tool_name args (ig_workspace g)
  end.
Definition risk_action (g : InteractiveToolGuardrail) (tool_name : str) (args : json) : Res ToolRiskAction :=
  a ← assess g tool_name args; Ok (action_for (ig_mode g) a).
Definition guardrail_check (g : InteractiveToolGuardrail) (tool_name : str) (args : json) : Res PermissionDecision :=
  a ← assess g tool_name args; Ok (apply_mode (ig_mode g) a).
(** The guardrail is a [PermissionChecker]; it exposes every tool. *)
#[global] Instance guardrail_checker : PermissionChecker InteractiveToolGuardrail := {
  checker_check := guardrail_check;
  checker_expose := fun _ _ => Ok true;
}.
End Guardrail.
