(* ===== verification/InteractiveFacts.v ===== *)
(** What the interactive guardrail guarantees: catastrophic commands and escapes are
    denied in every mode, a batch is as risky as its riskiest member, plan mode only
    reads, and an approved file path stays under the workspace. *)
From S2P Require Import Prelude Text Paths ShellLexer Shell ShellFacts PermissionRule PermissionPolicy Interactive.

(** ** The recursion over batches ends *)
Lemma depth_array items v : In v items -> (json_depth v < json_depth (JArray items))%nat.
Proof.
  cbn. induction items as [|w items IH]; [done|]. intros [->|Hin]; [lia|]. specialize (IH Hin). lia.
Qed.
Lemma depth_object fields k v : In (k, v) fields -> (json_depth v < json_depth (JObject fields))%nat.
Proof.
  cbn. induction fields as [|[k' w] fields IH]; [done|]. intros [[= -> ->]|Hin]; [lia|]. specialize (IH Hin). lia.
Qed.
Lemma depth_jget key v w : jget key v = Some w -> (json_depth w < json_depth v)%nat.
Proof.
  unfold jget. destruct v as [| | | | |fields]; try done. destruct (List.find _ fields) as [[k x]|] eqn:E; [|done].
  intros [= <-]. apply List.find_some in E as [Hin _]. by eapply depth_object.
Qed.
Lemma jget_array_depth key v items w : jget key v ≫= jas_array = Some items -> In w items -> (json_depth w < json_depth v)%nat.
Proof.
  intros E Hw. apply bind_Some in E as (x & Ex & E). apply depth_jget in Ex. destruct x; try done. injection E as ->.
  apply depth_array in Hw. lia.
Qed.
Lemma existsb_ext_in {A} (f g : A -> bool) l : (forall x, In x l -> f x = g x) -> existsb f l = existsb g l.
Proof. induction l as [|x l IH]; intros Hfg; [done|]. cbn. rewrite Hfg by by left. f_equal. apply IH. intros y Hy. apply Hfg. by right. Qed.

Section Facts.
Context `{FileSystem}.
(** The depth of the arguments is fuel enough: more changes nothing. *)
Lemma crosses_fuel_enough root n m tool args :
  (json_depth args < n)%nat -> (json_depth args < m)%nat -> crosses_fuel n root tool args = crosses_fuel m root tool args.
Proof.
  revert m tool args. induction n as [|n IH]; intros m tool args Hn Hm; [lia|]. destruct m as [|m]; [lia|]. cbn [crosses_fuel].
  destruct (is_batch tool); [|done]. destruct (jget _ _ ≫= _) as [invocations|] eqn:E; [|done]. apply existsb_ext_in.
  intros v Hv. destruct (jget_str _ v); [|done]. destruct (jget $"args" v) as [targs|] eqn:Ea; [|done].
  pose proof (jget_array_depth _ _ _ _ E Hv). apply depth_jget in Ea. apply IH; lia.
Qed.

(** ** Levels and decisions *)
Definition strictness (d : PermissionDecision) : nat := match d with Allow => 0 | Ask => 1 | Deny => 2 end.
Definition decision_of (mode : InteractiveApprovalMode) (rank : nat) : PermissionDecision :=
  match mode, rank with
  | _, 0%nat => Allow
  | Modes.Plan, _ => Deny
  | (Modes.Auto | Modes.Force), 1%nat => Allow
  | Modes.Force, 2%nat => Allow
  | _, (1 | 2)%nat => Ask
  | _, _ => Deny
  end.
Lemma apply_mode_rank mode a : apply_mode mode a = decision_of mode (level_rank (ra_level a)).
Proof. destruct a as [l d r]. by destruct mode, l. Qed.
Lemma decision_monotone mode r1 r2 : (r1 <= r2)%nat -> (strictness (decision_of mode r1) <= strictness (decision_of mode r2))%nat.
Proof. intros Hr. destruct mode, r1 as [|[|[|r1]]], r2 as [|[|[|r2]]]; cbn; lia. Qed.
Lemma stricter_of d1 d2 : stricter_permission d1 d2 = if (strictness d1 <=? strictness d2)%nat then d2 else d1.
Proof. by destruct d1, d2. Qed.
Lemma decision_max mode r1 r2 :
  decision_of mode (Nat.max r1 r2) = stricter_permission (decision_of mode r1) (decision_of mode r2).
Proof.
  rewrite stricter_of. destruct (Nat.le_ge_cases r1 r2) as [Hr|Hr]; pose proof (decision_monotone mode _ _ Hr) as Hd.
  - by rewrite Nat.max_r, (proj2 (Nat.leb_le _ _) Hd) by done.
  - rewrite Nat.max_l by done. destruct (Nat.leb_spec (strictness (decision_of mode r1)) (strictness (decision_of mode r2))); [|done].
    destruct (decision_of mode r1), (decision_of mode r2); cbn in *; try done; lia.
Qed.

(** ** Batches *)
Definition member_of (invocation : json) : option (str * json) :=
  tool ← jget_str $"tool" invocation; args ← jget $"args" invocation; if is_object args then Some (tool, args) else None.
Definition rank_of (a : ToolRiskAssessment) : nat := level_rank (ra_level a).
Lemma members_level f invocations ms cs highest reasons :
  mapM member_of invocations = Some ms -> Forall2 (fun m c => f m.1 m.2 = Ok c) ms cs ->
  (highest <> None \/ ms <> []) ->
  exists a, assess_members f invocations highest reasons = Ok a
    /\ rank_of a = Nat.max (from_option rank_of 0%nat highest) (list_max (map rank_of cs)).
Proof.
  revert ms cs highest reasons. induction invocations as [|v invocations IH]; intros ms cs highest reasons Hm Hc Hne.
  - injection Hm as <-. inversion Hc; subst. destruct highest as [h|]; [|by destruct Hne]. cbn [assess_members].
    eexists. split; [done|]. cbn [map list_max from_option]. by rewrite Nat.max_0_r.
  - cbn in Hm. apply bind_Some in Hm as ([tool args] & Ev & Hm). apply bind_Some in Hm as (ms' & Hm & [= <-]).
    inversion Hc as [|? c ? cs' Ec Hc']; subst. cbn [fst snd] in Ec. unfold member_of in Ev.
    apply bind_Some in Ev as (t & Et & Ev). apply bind_Some in Ev as (ar & Ea & Ev). destruct (is_object ar) eqn:Eo; [|done].
    injection Ev as -> ->. cbn [assess_members]. rewrite Et, Ea, Eo, Ec. cbn [mbind res_bind].
    match goal with |- context [assess_members _ _ ?h _] => set (hi := h) end.
    destruct (IH ms' cs' hi (reasons ++ ra_reasons c) Hm Hc') as (a & E & Er).
    { left. unfold hi. destruct highest as [h|]; [by case_match|done]. }
    exists a. split; [done|]. rewrite Er. unfold hi, rank_of, list_max. cbn [map fold_right].
    destruct highest as [h|]; [|by rewrite Nat.max_0_l].
    cbn [from_option].
    destruct (Nat.ltb_spec (level_rank (ra_level h)) (level_rank (ra_level c))); cbn [from_option]; lia.
Qed.
Lemma decisions_max mode rs :
  decision_of mode (list_max rs) = foldr (fun r d => stricter_permission (decision_of mode r) d) Allow rs.
Proof. induction rs as [|r rs IH]; [by destruct mode|].
  unfold list_max in *. cbn [foldr]. by rewrite decision_max, IH.
Qed.
(** A batch is treated as its strictest member, in every mode: when each member
    is well formed and can be assessed, the batch is assessed too, at the highest
    level among them, and the decision of every approval mode for the batch is the
    strictest of its decisions for the members. *)
Theorem batch_is_strictest_member (levels : nat) (workspace : option Path) (tool : str) (args : json)
    (invocations : list json) (ms : list (str * json)) (cs : list ToolRiskAssessment) :
  is_batch tool = true -> jget $"invocations" args ≫= jas_array = Some invocations -> invocations <> [] ->
  mapM member_of invocations = Some ms ->
  Forall2 (fun m c => assess_tool_at levels m.1 m.2 workspace = Ok c) ms cs ->
  exists a, assess_tool_at (S levels) tool args workspace = Ok a
    /\ rank_of a = list_max (map rank_of cs)
    /\ forall mode, apply_mode mode a = foldr stricter_permission Allow (map (apply_mode mode) cs).
Proof.
  intros Hb Hi Hne Hm Hc. cbn [assess_tool_at]. rewrite Hb, Hi.
  destruct (members_level (fun tool args => assess_tool_at levels tool args workspace) invocations ms cs None
              [Reasons.CompositeInvocation] Hm Hc) as (a & E & Er).
  { right. intros ->. by destruct invocations as [|v vs]; [|cbn in Hm; apply bind_Some in Hm as (? & _ & Hm); apply bind_Some in Hm as (? & _ & ?)]. }
  exists a. split; [by destruct invocations|]. cbn [from_option Nat.max] in Er. split; [done|]. intros mode.
  rewrite apply_mode_rank. change (level_rank (ra_level a)) with (rank_of a). rewrite Er, decisions_max. clear.
  induction cs as [|c cs IH]; [done|]. cbn [map foldr]. by rewrite IH, apply_mode_rank.
Qed.

(** ** Commands *)
Definition is_tool (name : string) (tool : str) : Prop := to_ascii_lowercase tool = lit name.
Lemma jget_object key args v : jget key args = Some v -> is_object args = true.
Proof. unfold jget. by destruct args. Qed.
Lemma jget_str_object key args s : jget_str key args = Some s -> is_object args = true.
Proof. unfold jget_str. destruct (jget key args) eqn:E; [|done]. intros _. by eapply jget_object. Qed.
(** A tool name, whatever its case, by the branches it takes. *)
Ltac by_name H := revert H; unfold is_tool; match goal with |- context [to_ascii_lowercase ?t] => generalize (to_ascii_lowercase t) end; intros ? ->; reflexivity.
Lemma bash_is_not_batch tool : is_tool "bash" tool -> is_batch tool = false.
Proof. intros Ht. unfold is_batch. by_name Ht. Qed.
Lemma bash_type tool : is_tool "bash" tool -> tool_risk_type tool = RiskTypes.CommandExecution.
Proof. intros Ht. unfold tool_risk_type. by_name Ht. Qed.
Lemma classify_atomic_bash tool args workspace :
  is_tool "bash" tool -> classify_atomic_tool tool args workspace = classify_bash args workspace.
Proof. intros Ht. unfold classify_atomic_tool. by_name Ht. Qed.
Lemma bash_not_bounded tool args workspace : is_tool "bash" tool -> atomic_tool_is_bounded tool args workspace = false.
Proof. intros Ht. unfold atomic_tool_is_bounded. by_name Ht. Qed.
Lemma assess_bash tool args command workspace a :
  is_tool "bash" tool -> jget_str $"command" args = Some command -> trim command <> [] -> analyze (trim command) = Ok a ->
  assess_tool tool args workspace =
    Ok (if is_hard_denial (sa_risk a) then deny_assessment tool
        else if is_read_only_bash_command (trim command) a workspace then routine_assessment tool
        else high_assessment tool Reasons.UnboundedCommandExecution).
Proof.
  intros Ht Hc Hne Ha. unfold assess_tool, MAX_BATCH_RISK_DEPTH. cbn [assess_tool_at]. unfold assess_atomic.
  rewrite bash_is_not_batch, (jget_str_object _ _ _ Hc), classify_atomic_bash by done. cbn [negb].
  unfold classify_bash. rewrite Hc, (proj2 (str_eqb_ne _ _) Hne), Ha. cbn [mbind res_bind].
  destruct (is_hard_denial _); [done|]. destruct (is_read_only_bash_command _ _ _); [done|]. cbn [mbind res_bind].
  rewrite bash_not_bounded by done. unfold ask_reason. by rewrite bash_type.
Qed.
(** No mode and no workspace lets a catastrophic command through: a shell
    command that the classifier puts on its denial floor (remote code, escalation,
    destruction, catastrophe) is denied by every guardrail, also in force mode. *)
Theorem catastrophic_command_is_denied (g : InteractiveToolGuardrail) (tool : str) (args : json) (command : str) (a : ShellAnalysis) :
  is_tool "bash" tool -> jget_str $"command" args = Some command -> analyze (trim command) = Ok a ->
  trim command <> [] -> is_hard_denial (sa_risk a) = true ->
  guardrail_check g tool args = Ok Deny.
Proof.
  intros Ht Hc Ha Hne Hd. unfold guardrail_check, assess, workspace_boundary_assessment.
  assert (Hcrit : forall d r, apply_mode (ig_mode g) (critical_assessment d r) = Deny) by (intros; by destruct (ig_mode g)).
  assert (Hbash : (x ← assess_tool tool args (ig_workspace g); Ok (apply_mode (ig_mode g) x)) = Ok Deny).
  { rewrite (assess_bash tool args command _ a) by done. rewrite Hd. cbn [mbind res_bind]. unfold deny_assessment.
    destruct (bool_decide _); by rewrite Hcrit. }
  destruct (ig_workspace g) as [root|]; cbn [mbind option_bind]; [|done].
  destruct (invocation_crosses_local_symlink root tool args); [|done]. cbn [mbind res_bind]. by rewrite Hcrit.
Qed.

(** ** Paths *)
Definition is_name (p : str) : bool := negb (str_eqb p [] || str_eqb p $"." || str_eqb p $"..").
Definition count {A} (f : A -> bool) (l : list A) : Z := Z.of_nat (length (List.filter f l)).
(** A path climbs above its start: some prefix goes up more often than down. *)
Definition climbs (pieces : list str) : Prop :=
  exists l1 l2, pieces = l1 ++ l2 /\ count is_name l1 < count (str_eqb $"..") l1.
Lemma count_cons {A} (f : A -> bool) x l : count f (x :: l) = (if f x then 1 else 0) + count f l.
Proof. unfold count. cbn [List.filter]. case_match; cbn [length]; lia. Qed.
Lemma escapes_from_spec depth pieces :
  0 <= depth ->
  escapes_from depth pieces = true <->
  exists l1 l2, pieces = l1 ++ l2 /\ depth + count is_name l1 < count (str_eqb $"..") l1.
Proof.
  revert depth. induction pieces as [|p pieces IH]; intros depth Hd; cbn [escapes_from].
  { split; [done|]. intros (l1 & l2 & E & Hc). destruct l1; [unfold count in Hc; cbn in Hc; lia|done]. }
  assert (Hcons : forall k, (exists l1 l2, pieces = l1 ++ l2 /\ depth + k + count is_name l1 < count (str_eqb $"..") l1) ->
            (if is_name p then 1 else 0) - (if str_eqb $".." p then 1 else 0) = k ->
            exists l1 l2, p :: pieces = l1 ++ l2 /\ depth + count is_name l1 < count (str_eqb $"..") l1).
  { intros k (l1 & l2 & -> & Hc) Hk. exists (p :: l1), l2. split; [done|]. rewrite !count_cons. lia. }
  assert (Hsplit : forall k, (if is_name p then 1 else 0) - (if str_eqb $".." p then 1 else 0) = k -> 0 <= depth + k ->
            (exists l1 l2, p :: pieces = l1 ++ l2 /\ depth + count is_name l1 < count (str_eqb $"..") l1) ->
            exists l1 l2, pieces = l1 ++ l2 /\ depth + k + count is_name l1 < count (str_eqb $"..") l1).
  { intros k Hk H0 ([|q l1] & l2 & E & Hc); [unfold count in Hc; cbn in Hc; lia|]. injection E as <- ->.
    exists l1, l2. split; [done|]. rewrite !count_cons in Hc. lia. }
  unfold is_name in Hcons, Hsplit. destruct (str_eqb p [] || str_eqb p $".") eqn:Ed.
  { assert (Eu : str_eqb $".." p = false).
    { apply str_eqb_ne. intros <-. by apply orb_true_iff in Ed as [?|?]. }
    rewrite Eu in *. cbn [orb negb] in *. rewrite <-(Z.add_0_r depth) at 1. rewrite IH by lia. split; [by intros ?%Hcons|].
    intros ?%(Hsplit 0); [done|done|lia]. }
  destruct (str_eqb p $"..") eqn:Eu.
  { apply str_eqb_spec in Eu as ->. rewrite str_eqb_refl in *. cbn [orb negb] in *.
    destruct (depth =? 0) eqn:E0.
    - split; [|done]. intros _. exists [$".."], pieces. split; [done|]. apply Z.eqb_eq in E0.
      change (count is_name [$".."]) with 0. change (count (str_eqb $"..") [$".."]) with 1. lia.
    - apply Z.eqb_neq in E0. replace (depth - 1) with (depth + -1) by lia. rewrite IH by lia. split; [by intros ?%Hcons|].
      intros ?%(Hsplit (-1)); [done|done|lia]. }
  assert (Eu' : str_eqb $".." p = false) by (apply str_eqb_ne; intros <-; by rewrite str_eqb_refl in Eu).
  rewrite Eu' in *. cbn [orb negb] in *. rewrite IH by lia. split; [by intros ?%Hcons|]. intros ?%(Hsplit 1); [done|done|lia].
Qed.
(** The counter of the code finds exactly the paths that climb. *)
Lemma relative_path_escapes_spec path : relative_path_escapes path = true <-> climbs (split_on c_slash path).
Proof. unfold relative_path_escapes. rewrite escapes_from_spec by lia. done. Qed.

(** *** Confined paths *)
Definition home_path (p : str) : bool := starts_with p $"~" || starts_with p $"$HOME" || starts_with p $"${HOME}".
(** A path stays under the workspace: it is not a home path, a relative path never
    climbs, an absolute one resolves to a place below the resolved root. *)
Definition confined (root : Path) (path : str) : Prop :=
  let p := trim (to_forward path) in
  p = [] \/ home_path p = false /\
    if is_absolute p || path_is_lexically_absolute p
    then exists r rest, normalize_abs_for_compare root = Some r /\ normalize_abs_for_compare (components p) = Some (r ++ rest)
    else ~ climbs (split_on c_slash p).
Lemma outside_spec root path : path_is_outside_workspace path (Some root) = false <-> confined root path.
Proof.
  unfold path_is_outside_workspace, confined. set (p := trim (to_forward path)).
  destruct (str_eqb p []) eqn:Ep; [apply str_eqb_spec in Ep; by split; [left|]|]. apply str_eqb_ne in Ep.
  fold (home_path p). destruct (home_path p); [split; [done|naive_solver]|].
  unfold path_escapes_workspace_root. destruct (_ || _).
  - destruct (normalize_abs_for_compare root) as [r|]; [|split; [done|naive_solver]].
    destruct (normalize_abs_for_compare (components p)) as [t|]; [|split; [done|naive_solver]].
    rewrite negb_false_iff, path_starts_with_spec. naive_solver.
  - rewrite <-not_true_iff_false, relative_path_escapes_spec. naive_solver.
Qed.
(** No symlink on the way: a component below the root that is one hides behind a
    component that does not exist. *)
Definition under (root : Path) (l : Path) : Path := root ++ List.filter is_normal l.
Definition no_symlink (root : Path) (l : Path) : Prop :=
  forall before name after, l = before ++ Normal name :: after ->
  symlink_metadata (under root (before ++ [Normal name])) = Symlink ->
  exists b1 missing b2, before = b1 ++ Normal missing :: b2 /\ symlink_metadata (under root (b1 ++ [Normal missing])) = NotFound.
Lemma under_name root name l : under (push root name) l = under root (Normal name :: l).
Proof. unfold under, push. cbn [List.filter is_normal]. by rewrite <-app_assoc. Qed.
Lemma walk_no_symlink current l : walk_symlinks false current l = false -> no_symlink current l.
Proof.
  revert current. induction l as [|c l IH]; intros current Hw before name after E Hs; [by destruct before|].
  cbn [walk_symlinks andb] in Hw. destruct c as [| | |n]; try done.
  - destruct before as [|b before]; [done|]. injection E as <- E.
    destruct (IH _ Hw before name after E Hs) as (b1 & m & b2 & -> & Hm). by exists (CurDir :: b1), m, b2.
  - destruct before as [|b before].
    + injection E as <- <-. change (under current ([] ++ [Normal n])) with (push current n) in Hs. by rewrite Hs in Hw.
    + injection E as <- E. cbn [app] in Hs. rewrite <-under_name in Hs.
      destruct (symlink_metadata (push current n)) eqn:Em; try done.
      * destruct (IH _ Hw before name after E Hs) as (b1 & m & b2 & -> & Hm). exists (Normal n :: b1), m, b2.
        split; [done|]. by rewrite <-Hm, under_name.
      * by exists [], n, before.
Qed.
(** What the guardrail knows of a path it let through: as it is spelled, a relative
    path crosses no symlink; for an absolute path this is known of the place it
    resolves to, below the resolved root. *)
Definition unlinked (root : Path) (path : str) : Prop :=
  if is_absolute path || path_is_lexically_absolute path
  then exists r rest, normalize_abs_for_compare root = Some r /\ normalize_abs_for_compare (components path) = Some (r ++ rest)
       /\ no_symlink root (components (to_forward (path_str rest)))
  else no_symlink root (components (to_forward path)).
Lemma not_crossing root path :
  path_is_outside_workspace path (Some root) = false -> path_crosses_symlink root path false = false -> unlinked root path.
Proof.
  intros Ho. unfold path_crosses_symlink, workspace_relative_path, unlinked. rewrite Ho, <-negb_orb.
  destruct (is_absolute path || _); cbn [negb]; [|apply walk_no_symlink].
  destruct (normalize_abs_for_compare root) as [r|]; [|done]. cbn [mbind option_bind].
  destruct (normalize_abs_for_compare (components path)) as [t|]; [|done]. cbn [mbind option_bind].
  destruct (strip_path r t) as [rest|] eqn:Es; [|done]. cbn [mbind option_bind]. apply strip_path_Some in Es as ->.
  intros Hw%walk_no_symlink. by exists r, rest.
Qed.

(** The paths a file tool is given: the file it reads, writes, edits, patches or
    downloads to, the entries of a read of several files, or where it searches or
    lists. *)
Definition PATH_TOOLS : list string := ["search"; "ls"; "code_symbols"; "code_navigation"; "code_diagnostics"].
Definition WRITE_TOOLS : list string := ["write"; "edit"; "patch"; "download"].
Definition named_paths (tool_name : str) (args : json) : list str :=
  let tool := to_ascii_lowercase tool_name in
  if str_eqb tool $"read" then
    match jget_str $"file_path" args with
    | Some path => [path]
    | None =>
        match jget $"files" args ≫= jas_array with
        | Some files => default [] (mapM (jget_str $"path") files)
        | None => []
        end
    end
  else if one_of tool WRITE_TOOLS then option_list (jget_str $"file_path" args)
  else if one_of tool PATH_TOOLS then option_list (jget_str $"path" args)
  else [].
Lemma jget_str_has args field s : jget_str (lit field) args = Some s -> has args field = true.
Proof. unfold jget_str, has. by destruct (jget (lit field) args). Qed.
Lemma stricter_deny d : stricter_permission d Deny = Deny.
Proof. by destruct d. Qed.
Lemma classify_files_denied files paths path d workspace : mapM (jget_str $"path") files = Some paths ->
  d = Deny \/ In path paths /\ classify_path_value path Allow workspace = Deny ->
  classify_files files d workspace = Deny.
Proof.
  intros Hm%mapM_Some. revert d. induction Hm as [|f p files rest Hf _ IH]; intros d Hd.
  - by destruct Hd as [->|[[] _]].
  - cbn [classify_files]. rewrite Hf. apply IH.
    destruct Hd as [->|[[->|Hin] Hv]]; [by left|left; by rewrite Hv, stricter_deny|by right].
Qed.
Lemma named_denied tool args path workspace : In path (named_paths tool args) ->
  path_is_outside_workspace path workspace = true ->
  classify_atomic_tool tool args workspace = Ok Deny \/ trim path = [].
Proof.
  intros Hin Ho. destruct (str_eqb (trim path) []) eqn:Ee; [right; by apply str_eqb_spec|left].
  assert (Hv : forall d, classify_path_value path d workspace = Deny) by (intros; unfold classify_path_value; by rewrite Ee, Ho).
  assert (Hs : forall field d, jget_str field args = Some path -> classify_scoped_path args field d workspace = Deny).
  { intros field d Hf. unfold classify_scoped_path. rewrite Hf, Ee. apply Hv. }
  unfold named_paths in Hin. unfold classify_atomic_tool. cbv zeta in *. revert Hin. generalize (to_ascii_lowercase tool). intros t.
  destruct (str_eqb t $"read").
  - intros Hin. f_equal. unfold classify_read. destruct (jget_str $"file_path" args) as [p|].
    { destruct Hin as [->|[]]. apply Hv. }
    destruct (jget $"files" args ≫= jas_array) as [files|]; [|done].
    destruct (mapM (jget_str $"path") files) as [paths|] eqn:Em; [|done].
    destruct files as [|f files]; [by injection Em as <-|]. eapply classify_files_denied; [exact Em|]. right. by split.
  - destruct (one_of t WRITE_TOOLS) eqn:Ew.
    + destruct (jget_str $"file_path" args) as [p|] eqn:Ep; [|done]. intros [->|[]].
      pose proof (Hs _ Ask Ep) as ->. pose proof (jget_str_has args "file_path" path Ep) as ->.
      apply one_of_In in Ew as (w & Hw & ->). cbn in Hw. repeat destruct Hw as [<-|Hw]; done.
    + destruct (one_of t PATH_TOOLS) eqn:Et; [|done].
      destruct (jget_str $"path" args) as [p|] eqn:Ep; [|done]. intros [->|[]]. unfold PATH_TOOLS in Et. rewrite Et.
      f_equal. by apply Hs.
Qed.
Lemma named_crosses root tool args path : In path (named_paths tool args) ->
  atomic_crosses_symlink root tool args = false -> path_crosses_symlink root path false = false.
Proof.
  unfold named_paths, atomic_crosses_symlink. cbv zeta. generalize (to_ascii_lowercase tool). intros t.
  destruct (str_eqb t $"read") eqn:Er.
  - apply str_eqb_spec in Er as ->. change (str_eqb $"read" $"bash") with false. cbv iota.
    destruct (jget_str $"file_path" args) as [p|]; [by intros [->|[]]|].
    destruct (jget $"files" args ≫= jas_array) as [files|]; [|done].
    destruct (mapM (jget_str $"path") files) as [paths|] eqn:Em; [|done]. cbn [default]. intros Hin Hno.
    apply mapM_Some in Em. apply list_elem_of_In, list_elem_of_lookup_1 in Hin as [i Hi].
    destruct (Forall2_lookup_r _ _ _ _ _ Em Hi) as (f & Hf%list_elem_of_lookup_2 & Hp).
    destruct (path_crosses_symlink root path false) eqn:Ec; [|done].
    assert (existsb (fun entry => match jget_str $"path" entry with
                     | Some path => path_crosses_symlink root path false | None => false end) files = true) as Hx.
    { apply existsb_exists. exists f. split; [by apply list_elem_of_In|]. by rewrite Hp. }
    congruence.
  - destruct (one_of t WRITE_TOOLS) eqn:Ew; [|destruct (one_of t PATH_TOOLS) eqn:Et; [|done]].
    + assert (str_eqb t $"bash" = false) as ->.
      { apply one_of_In in Ew as (w & Hw & ->). cbn in Hw. repeat destruct Hw as [<-|Hw]; done. }
      unfold WRITE_TOOLS in Ew. rewrite Ew. cbn [mbind option_bind]. destruct (jget_str $"file_path" args); [|done]. by intros [->|[]].
    + assert (str_eqb t $"bash" = false) as ->.
      { apply one_of_In in Et as (w & Hw & ->). cbn in Hw. repeat destruct Hw as [<-|Hw]; done. }
      unfold WRITE_TOOLS in Ew. unfold PATH_TOOLS in Et. rewrite Ew, Et. cbn [mbind option_bind].
      destruct (jget_str $"path" args); [|done]. by intros [->|[]].
Qed.
Lemma drop_while_nil {A} (f : A -> bool) s : drop_while f s = [] <-> Forall (fun c => f c = true) s.
Proof.
  induction s as [|c s IH]; [done|]. cbn. destruct (f c) eqn:E; rewrite List.Forall_cons_iff; [naive_solver|]. split; [done|]. intros [? _]; congruence.
Qed.
Lemma drop_while_head {A} (f : A -> bool) s c r : drop_while f s = c :: r -> f c = false.
Proof. induction s as [|d s IH]; [done|]. cbn. destruct (f d) eqn:E; [done|]. by intros [= <- <-]. Qed.
Lemma trim_nil s : trim s = [] <-> blank s.
Proof.
  unfold trim, trim_start. rewrite <-(drop_while_nil is_whitespace s). split.
  - intros E. apply (f_equal (@rev Z)) in E. rewrite rev_involutive in E. cbn in E. apply drop_while_nil in E.
    destruct (drop_while is_whitespace s) as [|c r] eqn:Ed; [done|]. apply drop_while_head in Ed.
    rewrite List.Forall_forall in E. specialize (E c). rewrite <-in_rev in E. rewrite E in Ed; [done|by left].
  - by intros ->.
Qed.
Lemma blank_forward s : blank s -> to_forward s = s.
Proof.
  unfold to_forward, replace_char. induction 1 as [|c s Hc _ IH]; [done|]. cbn. rewrite IH. f_equal.
  destruct (Z.eqb_spec c c_backslash) as [->|]; [discriminate Hc|done].
Qed.
Lemma blank_inside path workspace : trim path = [] -> path_is_outside_workspace path workspace = false.
Proof. intros Hb. unfold path_is_outside_workspace. rewrite (blank_forward path) by (by apply trim_nil). by rewrite Hb. Qed.
Lemma named_not_batch tool args path : In path (named_paths tool args) -> is_batch tool = false.
Proof.
  unfold named_paths, is_batch. destruct (str_eqb _ $"batch") eqn:E; [|done]. apply str_eqb_spec in E as ->. done.
Qed.
Lemma named_object tool args path : In path (named_paths tool args) -> is_object args = true.
Proof.
  unfold named_paths. cbv zeta. intros Hin. repeat case_match; cbn in Hin; try done; destruct args; done.
Qed.
(** C17. A path of an approved call stays in the workspace: when a guardrail with a
    workspace allows a call of a file tool, in any mode, every path it names (the
    file that is read, written, edited, patched or downloaded to, the entries of a
    well-formed read of several files, the directory that is searched or listed) is
    confined to the workspace (no home path, a relative path never climbs above the
    root, an absolute path resolves below it). A relative path, as it is spelled, has
    no symlink among its existing components; for an absolute path this is known of
    the place it resolves to, not of its spelling. *)
Theorem approved_path_is_confined (g : InteractiveToolGuardrail) (root : Path) (tool : str) (args : json) (path : str) :
  ig_workspace g = Some root -> In path (named_paths tool args) ->
  guardrail_check g tool args = Ok Allow ->
  confined root path /\ unlinked root path.
Proof.
  intros Hw Hp Hc. unfold guardrail_check, assess, workspace_boundary_assessment in Hc. rewrite Hw in Hc.
  cbn [mbind option_bind] in Hc. pose proof (named_not_batch _ _ _ Hp) as Hb.
  unfold invocation_crosses_local_symlink in Hc. cbn [crosses_fuel] in Hc. rewrite Hb in Hc.
  destruct (atomic_crosses_symlink root tool args) eqn:Ex.
  { cbn [mbind res_bind] in Hc. by destruct (ig_mode g). }
  assert (Ho : path_is_outside_workspace path (Some root) = false).
  { destruct (path_is_outside_workspace path (Some root)) eqn:Ho; [|done].
    destruct (named_denied tool args path (Some root) Hp Ho) as [Hd|Hblank]; [|by rewrite blank_inside in Ho].
    unfold assess_tool, MAX_BATCH_RISK_DEPTH in Hc. cbn [assess_tool_at] in Hc.
    rewrite Hb in Hc. unfold assess_atomic in Hc. rewrite (named_object _ _ _ Hp), Hd in Hc.
    cbn [negb mbind res_bind] in Hc. unfold deny_assessment in Hc. by destruct (bool_decide _), (ig_mode g). }
  split; [by apply outside_spec|]. apply not_crossing; [done|]. by eapply named_crosses.
Qed.

(** ** Plan mode *)
Definition READERS : list string :=
  ["read"; "search"; "ls"; "code_symbols"; "code_navigation"; "code_diagnostics"] ++ QUIET_TOOLS.
Definition GIT_READS : list string := ["status"; "log"; "diff"; "remote"; "branch"; "stash"; "worktree"].
Definition GIT_READ_KEYS : list string :=
  ["command"; "limit"; "max_count"; "cursor"; "target"; "byte_offset"; "max_bytes"; "remote_name"; "subcommand"].
(** What a call that only observes looks like. *)
Definition observes (tool : str) (args : json) : Prop :=
  one_of (to_ascii_lowercase tool) READERS = true
  \/ (is_tool "bash" tool /\ exists command a, jget_str $"command" args = Some command /\ analyze (trim command) = Ok a
      /\ sa_risk a = ReadOnly /\ writes_files a = false)
  \/ (is_tool "git" tool /\ forced args = false /\ only_git_keys args GIT_READ_KEYS = true
      /\ exists command, jget_str $"command" args = Some command /\ one_of command GIT_READS = true).
Lemma only_keys_weaken args small large :
  forallb (fun w => one_of (lit w) large) small = true -> only_git_keys args small = true -> only_git_keys args large = true.
Proof.
  intros Hs. unfold only_git_keys. destruct args; try done. rewrite !forallb_forall. rewrite forallb_forall in Hs.
  intros Hf kv Hkv. specialize (Hf kv Hkv). apply one_of_In in Hf as (w & Hw & ->). by apply Hs.
Qed.
Lemma git_allow_reads args :
  classify_git args = Allow ->
  forced args = false /\ only_git_keys args GIT_READ_KEYS = true
  /\ exists command, jget_str $"command" args = Some command /\ one_of command GIT_READS = true.
Proof.
  unfold classify_git, pages. destruct (jget_str $"command" args) as [command|]; [|done]. destruct (forced args); [done|].
  cbv zeta. destruct (_ || _) eqn:E; [|done]. intros _. split; [done|].
  rewrite !orb_true_iff, !andb_true_iff in E.
  assert (Hk : forall small, only_git_keys args small = true -> forallb (fun w => one_of (lit w) GIT_READ_KEYS) small = true ->
                 only_git_keys args GIT_READ_KEYS = true) by (intros small Ho Hs; by eapply only_keys_weaken).
  assert (Hc : forall name, str_eqb command (lit name) = true -> one_of (lit name) GIT_READS = true ->
                 exists c, Some command = Some c /\ one_of c GIT_READS = true) by (intros name ->%str_eqb_spec Hn; eauto).
  destruct E as [[[[[[[E K]|[E [[[K _] _] _]]]|[[[[E K] _] _] _]]|[[[E K] _] _]]|[[E _] [[[K _] _] _]]]|[[[[E _] _] K] _]]|[[[[E _] K] _] _]];
    (split; [eapply Hk; [exact K|reflexivity]|eapply Hc; [exact E|reflexivity]]).
Qed.
Lemma high_level tool reason : ra_level (high_assessment tool reason) = Levels.High.
Proof. unfold high_assessment. by destruct (tool_risk_type tool). Qed.
Lemma bounded_level tool : ra_level (bounded_assessment tool) = Levels.Bounded.
Proof. unfold bounded_assessment. by repeat case_match. Qed.
Lemma deny_level tool : ra_level (deny_assessment tool) = Levels.Critical.
Proof. unfold deny_assessment. by case_match. Qed.
(** Plan mode only observes: a call that is not a batch and that plan mode
    allows is one of the read-only or conversational tools, a shell command that the
    classifier proves read-only and that writes no file, or a structured git call
    that names a reading command, no force and none of the fields that mutate. *)
Theorem plan_mode_only_observes (g : InteractiveToolGuardrail) (tool : str) (args : json) :
  ig_mode g = Modes.Plan -> is_batch tool = false -> guardrail_check g tool args = Ok Allow -> observes tool args.
Proof.
  intros Hm Hb. unfold guardrail_check, assess. destruct (workspace_boundary_assessment g tool args) as [a|] eqn:Ew.
  { unfold workspace_boundary_assessment in Ew. destruct (ig_workspace g); [|done]. cbn in Ew. case_match; [|done].
    injection Ew as <-. rewrite Hm. cbn. done. }
  unfold assess_tool, MAX_BATCH_RISK_DEPTH. cbn [assess_tool_at]. rewrite Hb. unfold assess_atomic, observes, is_tool.
  destruct (is_object args); cbn [negb mbind res_bind]; [|by rewrite apply_mode_rank, high_level, Hm].
  destruct (classify_atomic_tool tool args (ig_workspace g)) as [[]| |] eqn:Ec; cbn [mbind res_bind]; try done;
    rewrite apply_mode_rank, Hm; [|by rewrite deny_level|by case_match; rewrite ?bounded_level, ?high_level].
  intros _. revert Ec. unfold classify_atomic_tool, READERS. cbv zeta. generalize (to_ascii_lowercase tool). intros t.
  assert (Hone : forall l1 l2, one_of t (l1 ++ l2) = one_of t l1 || one_of t l2) by (intros; apply existsb_app).
  rewrite Hone.
  destruct (str_eqb t $"read") eqn:E1; [by left; unfold one_of; cbn [existsb]; rewrite E1|].
  destruct (one_of t ["search"; "ls"; "code_symbols"; "code_navigation"; "code_diagnostics"]) eqn:E2.
  { left. unfold one_of in *. cbn [existsb] in *. by rewrite E2, orb_true_r. }
  destruct (one_of t QUIET_TOOLS) eqn:E3; [left; apply orb_true_r|].
  assert (Hask : forall field, classify_scoped_path args field Ask (ig_workspace g) <> Allow).
  { intros field. unfold classify_scoped_path, classify_path_value. by repeat case_match. }
  destruct (one_of t ["write"; "edit"]); [intros [= E]; by destruct (Hask _ E)|].
  destruct (str_eqb t $"download"); [case_match; [done|]; intros [= E]; by destruct (Hask _ E)|].
  destruct (str_eqb t $"patch"); [intros [= E]; by destruct (Hask _ E)|].
  destruct (str_eqb t $"bash") eqn:Eb.
  { intros E. right. left. split; [by apply str_eqb_spec|]. unfold classify_bash in E.
    destruct (jget_str $"command" args) as [command|]; [|done]. case_match; [done|].
    destruct (analyze (trim command)) as [a| |] eqn:Ea; [|done..]. cbn [mbind res_bind] in E.
    case_match; [done|]. destruct (is_read_only_bash_command _ _ _) eqn:Er; [|done]. exists command, a.
    unfold is_read_only_bash_command in Er. rewrite !andb_true_iff, bool_decide_eq_true in Er. destruct Er as [[[Er _] _] _].
    repeat split; [done..|]. by eapply read_only_no_writes. }
  destruct (str_eqb t $"git") eqn:Eg; [|done]. intros [= E]. right. right. split; [by apply str_eqb_spec|]. by apply git_allow_reads.
Qed.
End Facts.

(** ** A file system without symlinks *)
Module PlainDisk.
#[export] Instance disk : FileSystem := {
  canonicalize := fun p => Some p;
  path_exists := fun _ => true;
  symlink_metadata := fun _ => NotSymlink;
  is_file := fun _ => true;
  is_dir := fun _ => false;
  read_to_string := fun _ => None;
  read_dir := fun _ => None;
}.
Definition root : Path := components $"/work".
Definition guard (mode : InteractiveApprovalMode) : InteractiveToolGuardrail := mkGuardrail mode (Some root).
Definition command (text : str) : json := JObject [($"command", JString text)].
Definition file (path : str) : json := JObject [($"file_path", JString path)].
Definition member (tool : str) (args : json) : json := JObject [($"tool", JString tool); ($"args", args)].
Definition batch (members : list json) : json := JObject [($"invocations", JArray members)].
Definition git (command subcommand : str) : json :=
  JObject [($"command", JString command); ($"subcommand", JString subcommand)].
End PlainDisk.
Import PlainDisk.

Lemma batch_is_strictest_member_witness :
  exists a, assess_tool_at 1 $"Batch" (batch [member $"read" (file $"a"); member $"write" (file $"/etc/x")]) (Some root) = Ok a
            /\ rank_of a = 3%nat.
Proof.
  destruct (batch_is_strictest_member 0 (Some root) $"Batch" (batch [member $"read" (file $"a"); member $"write" (file $"/etc/x")])
    [member $"read" (file $"a"); member $"write" (file $"/etc/x")] [($"read", file $"a"); ($"write", file $"/etc/x")]
    [routine_assessment $"read"; deny_assessment $"write"]) as (a & E & Er & _).
  - reflexivity.
  - reflexivity.
  - discriminate.
  - reflexivity.
  - constructor; [vm_compute; reflexivity|]. constructor; [vm_compute; reflexivity|]. constructor.
  - exists a. split; [exact E|exact Er].
Defined.
Definition rm_root : ShellAnalysis := Eval vm_compute in
  match analyze $"rm -rf /" with Ok a => a | _ => mkAnalysis [] [] false ReadOnly end.
Lemma catastrophic_command_is_denied_witness :
  guardrail_check (guard Modes.Force) $"Bash" (command $" rm -rf / ") = Ok Deny.
Proof.
  apply (catastrophic_command_is_denied (guard Modes.Force) $"Bash" (command $" rm -rf / ") $" rm -rf / " rm_root).
  - reflexivity.
  - reflexivity.
  - vm_compute. reflexivity.
  - vm_compute. discriminate.
  - reflexivity.
Defined.
Lemma approved_path_is_confined_witness : confined root $"src/./lib.rs" /\ unlinked root $"src/./lib.rs".
Proof.
  apply (approved_path_is_confined (guard Modes.Auto) root $"write" (file $"src/./lib.rs") $"src/./lib.rs").
  - reflexivity.
  - left. reflexivity.
  - vm_compute. reflexivity.
Defined.
Lemma plan_mode_only_observes_witness : observes $"bash" (command $"git status").
Proof.
  apply (plan_mode_only_observes (guard Modes.Plan) $"bash" (command $"git status")).
  - reflexivity.
  - reflexivity.
  - vm_compute. reflexivity.
Defined.

(** A path that stays inside the workspace but names its parent on the way is
    treated as a symlink escape and denied in every mode, while a command that really
    leaves the workspace is only a review candidate, which force mode allows. *)
Lemma inner_parent_denied_outer_allowed :
  guardrail_check (guard Modes.Force) $"bash" (command $"cat src/../lib.rs") = Ok Deny
  /\ guardrail_check (guard Modes.Force) $"bash" (command $"cat ../lib.rs") = Ok Allow
  /\ guardrail_check (guard Modes.Force) $"read" (file $"src/../lib.rs") = Ok Deny.
Proof. vm_compute. repeat split. Qed.
(** The bounded worktree mutation is one the git tool does not have. *)
Lemma worktree_creation_is_not_bounded :
  git_call_is_known_bounded_mutation (git $"worktree" $"add") = true
  /\ git_call_is_known_bounded_mutation (git $"worktree" $"create") = false.
Proof. vm_compute. repeat split. Qed.
(** A disk on which [/work/link] is a symlink to [/work/real]. *)
Module LinkedDisk.
Definition link : Path := components $"/work/link".
Definition resolve (p : Path) : Path :=
  match strip_path link p with Some rest => components $"/work/real" ++ rest | None => p end.
Definition disk : FileSystem := {|
  canonicalize := fun p => Some (resolve p);
  path_exists := fun _ => true;
  symlink_metadata := fun p =>
    if bool_decide (p = link) then Symlink
    else if bool_decide (p = components $"/work/ link") then NotFound else NotSymlink;
  is_file := fun _ => true;
  is_dir := fun _ => false;
  read_to_string := fun _ => None;
  read_dir := fun _ => None;
|}.
Definition judge (path : str) : Res PermissionDecision :=
  @guardrail_check disk (guard Modes.Auto) $"write" (file path).
End LinkedDisk.
(** The symlink check is one of spellings: the same write is denied when it is named
    relative to the workspace, and allowed when it is named by its absolute path,
    which is resolved before it is looked at, or with a space in front, which the
    check takes for a part of the name and the boundary check does not. *)
Lemma symlink_check_is_evaded :
  LinkedDisk.judge $"link/f" = Ok Deny
  /\ LinkedDisk.judge $"/work/link/f" = Ok Allow /\ LinkedDisk.judge $" link/f" = Ok Allow.
Proof. vm_compute. repeat split. Qed.
(** Names of modes round trip. *)
Lemma mode_roundtrip m : mode_parse (mode_as_str m) = Some m.
Proof. by destruct m. Qed.
