(* ===== verification/EffectScenario.v ===== *)
(** A concrete run: an environment for the effect records, one call that edits a
    file and reports its check, and the log of the goal step it earns. The theorems
    on effects, receipts and steps are exercised on it. *)
From stdpp Require Import gmap.
From S2P Require Import Prelude Text Paths Shell Verification Planning Goal GoalLog GoalScenario Effects Ledger LedgerFacts DigestFacts Receipts ReceiptFacts SettlementFacts CursorFacts Evidence EvidenceFacts StepProof Recovery.

Module Run.
(** One call belongs to a session whose id is not a thread name. *)
Definition session_of (id : str) : str := if str_eqb id $"call-9" then $"team/alpha" else $"session-1".
Definition invocation (id : str) : ToolInvocationIdentityV1 :=
  mkInvocation 1 0 id 0 (Some (mkAdmission $"run-1" (thread_for_session (session_of id)) sample_digest)).
Definition file : ToolFileIdentityV1 := mkFileIdentity $"file" (Some $"sha256:aa") (Some 420).
Definition effects : ToolEffectObservationV1 := mkEffects Completeness.Complete [mkChange $"src/lib.rs" None file] [] None.
Definition prepared (id : str) : ToolPreparedV1 := mkPreparedTool $"v1" (invocation id) $"write" $"a" $"a" JNull.
Definition result (id : str) : ToolExecutionResultV1 :=
  mkResult $"v1" (invocation id) $"p" Outcomes.Succeeded (Some 0) (JString $"envelope") effects.
(** The digest of the workspace after the edit, hashes being the hashed bytes. *)
Definition effect : str := effect_canonical [mkRecord $"write" $"src/lib.rs" $"aa" (Some file)].
Definition report : VerificationReport :=
  with_effect_digest effect (new_report $"tests" [check_with_status Verdicts.Passed (required_check $"t" $"test" $"cargo test")]).
Definition envelope : json :=
  JObject [($"kind", JString FACT_TOOL_RESULT_KIND); ($"text", JString $"ok"); ($"is_error", JBool false);
           ($"metadata", JObject [($"verification_report", report_value report)])].
End Run.

#[global] Instance sample_effects : EffectEnv := {
  sha256 := fun bytes => bytes;
  json_to_string := fun _ => [];
  json_parse := fun s => if str_eqb s $"envelope" then Some Run.envelope else None;
  shell_words_quote := fun s => s;
  identity_key := fun i => Some (ii_tool_call_id i);
  parse_prepared := fun v => option_map Run.prepared (jget_str $"id" v);
  prepared_valid := fun _ => true;
  parse_result := fun v => option_map Run.result (jget_str $"id" v);
  result_valid := fun _ => true;
  ensure_prepared := fun r p => bool_decide (tr_identity r = tp_identity p);
  parse_effects := fun _ => Some Run.effects;
  effects_valid := fun _ => true;
}.
Definition no_outcome (_ : json) : option ToolExecutionOutcome := None.
Definition no_recovery (_ : RecoveryUnprovedV1) : option str := None.
Definition evidence_note (_ : list (str * ToolExecutionResultV1)) (_ : option VerificationReport) : option str := Some $"evidence".

(** ** The step's log, built by the code's own operations *)
Module StepLog.
#[export] Instance goal_env : GoalEnv := code_goal (fun _ => sample_digest) (fun _ _ _ => sample_digest) (fun d t => d ++ $":" ++ t).
Definition hash_command (d : Digested) : str :=
  match d with
  | DDefinition c => $"definition:" ++ dc_operation_id c
  | DPlan c => $"plan:" ++ pc_operation_id c
  | DRun _ _ b => $"run:" ++ rb_run_id b
  | DStep _ _ b => $"step:" ++ tb_run_id b
  | _ => $"other"
  end.
Definition cut (facts : list Fact) : Z * str := (last_seq facts, $"cut").
#[export] Instance log_env : LogEnv :=
  code_log no_outcome no_recovery evidence_note (fun _ => sample_digest) (fun _ _ _ => sample_digest) (fun d t => d ++ $":" ++ t)
           hash_command cut.
Definition push (n : NewFact) (facts : list Fact) : list Fact := facts ++ [append_fact (last_seq facts + 1) n].
Definition commit (r : GoalResult PreparedDefinition) (facts : list Fact) : list Fact :=
  match r with Good (mkPrepared (Some n) _) => push n facts | _ => facts end.
Definition accepted : list Fact := Eval vm_compute in
  let created := commit (prepare_definition [] Sample.session Sample.workspace None Sample.create) [] in
  let proposed := commit (prepare_plan created Sample.session Sample.workspace None (Sample.propose None 1)) created in
  commit (prepare_plan proposed Sample.session Sample.workspace None (Sample.accept 2)) proposed.
Definition admitted : list Fact := Eval vm_compute in
  match prepare_run accepted Sample.session Sample.workspace None (Some $"run-1") None with
  | Good (Some p) => commit (Good p) accepted
  | _ => accepted
  end.
Definition id_payload (name : string) (id : str) : Payload := POther (JObject [(lit name, JObject [($"id", JString id)])]).
Definition call (id : str) : NewFact := mkNewFact $"tool.prepared" ($"prepared:" ++ id) (id_payload "prepared" id).
Definition answer (id : str) : NewFact := mkNewFact $"tool.result" ($"result:" ++ id) (id_payload "receipt" id).
(** The call is prepared; then it has ended. *)
Definition started : list Fact := Eval vm_compute in push (call $"call-1") admitted.
Definition ended : list Fact := Eval vm_compute in push (answer $"call-1") started.
Definition marked : list Fact := Eval vm_compute in
  match turn_complete_fact no_outcome no_recovery cut ended (Terminals.Verified Run.effect) with
  | Some n => push n ended
  | None => ended
  end.
Definition stepped : list Fact := Eval vm_compute in
  match prepare_step ended Sample.session Sample.workspace None $"run-1" None with
  | Good (Some (mkPrepared (Some n) _, _, _)) => push n marked
  | _ => marked
  end.
End StepLog.

(** ** The theorems on this run *)
Import StepLog.
Definition edited : MutationLedger := observe_tool_receipt $"write" (Run.result $"call-1") empty_ledger.
Lemma edited_run : ledger_run empty_ledger edited.
Proof. apply rtc_once, step_receipt. Qed.
Lemma completion_gate_exact_witness :
  decide_with_observations edited [Run.report] [] false [] = GateAllow (Terminals.Verified Run.effect)
  /\ closes edited [Run.report] [] (effect_digest (ml_records edited)) (Terminals.Verified Run.effect).
Proof.
  assert (E : decide_with_observations edited [Run.report] [] false [] = GateAllow (Terminals.Verified Run.effect)) by (vm_compute; reflexivity).
  split; [exact E|].
  apply (completion_gate_exact edited [Run.report] [] false [] (Terminals.Verified Run.effect) edited_run) in E.
  destruct E as (_ & _ & _ & _ & Hc). exact Hc.
Defined.
Lemma uncertainty_blocks_forever_witness :
  exists message, decide_with_observations (observe_tool_receipt $"write" (Run.result $"call-1") (add_unresolved $"call-0" empty_ledger))
                    [Run.report] [] false [] = GateIncomplete message.
Proof.
  apply (uncertainty_blocks_forever (add_unresolved $"call-0" empty_ledger) _ $"call-0").
  - cbn. set_solver.
  - reflexivity.
  - apply rtc_once, step_receipt.
Defined.
Definition twice : list ReceiptEvent := [ToolReceipt $"write" (Run.result $"call-1"); ToolReceipt $"edit" (Run.result $"call-2")].
Definition once : list ReceiptEvent := [BackgroundReceipt $"bg" Run.effects].
Lemma text_ok_check s : forallb (fun c => (0 <=? c) && (c <? 1114112)) s = true -> text_ok s.
Proof.
  rewrite forallb_forall. intros Hs. apply List.Forall_forall. intros c Hc. specialize (Hs c Hc). unfold scalar. lia.
Qed.
Lemma edited_record_ok tool records :
  records = [mkRecord tool $"src/lib.rs" $"aa" (Some Run.file)] ->
  forallb (fun c => (0 <=? c) && (c <? 1114112)) tool = true -> Forall record_ok records.
Proof.
  intros -> Ht. constructor; [|constructor]. unfold record_ok. cbn [mr_tool mr_path mr_content_digest mr_after_identity].
  split_and!; [by apply text_ok_check..|]. cbn [option_ok Run.file]. unfold identity_ok.
  cbn [fi_kind fi_content_digest fi_mode option_ok]. split; [by apply text_ok_check|]. split; [by apply text_ok_check|].
  unfold u32. cbn. lia.
Qed.
Lemma digest_identifies_workspace_witness :
  Forall record_ok (ml_records (project twice)) /\ Forall record_ok (ml_records (project once))
  /\ (effect_canonical (ml_records (project twice)) = effect_canonical (ml_records (project once))
      <-> workspace_of (project twice) = workspace_of (project once)).
Proof.
  assert (H1 : Forall record_ok (ml_records (project twice)))
    by (apply (edited_record_ok $"write"); vm_compute; reflexivity).
  assert (H2 : Forall record_ok (ml_records (project once)))
    by (apply (edited_record_ok $"background"); vm_compute; reflexivity).
  split; [exact H1|]. split; [exact H2|]. exact (digest_identifies_workspace twice once H1 H2).
Defined.

Lemma markers_keep_uncertainty_witness :
  rd_validated (fold_debt no_outcome no_recovery (started ++ [List.last marked (mkFact 0 [] [] false (POther JNull))]))
  = rd_validated (fold_debt no_outcome no_recovery started).
Proof.
  apply (markers_keep_uncertainty no_outcome no_recovery started [List.last marked (mkFact 0 [] [] false (POther JNull))]).
  repeat constructor.
Defined.
Lemma call_prepared : exists f, In f started /\ prepares $"call-1" f.
Proof.
  exists (append_fact 5 (call $"call-1")). split; [do 4 right; left; reflexivity|]. split; [reflexivity|]. by exists (Run.prepared $"call-1").
Qed.
Lemma unterminated_blocks_recovery_witness :
  exists message, decide_with_observations (replay_unsettled_mutations no_outcome no_recovery $"/work" (inr started) empty_ledger)
                    [Run.report] [] false [] = GateIncomplete message.
Proof.
  apply (unterminated_blocks_recovery no_outcome no_recovery started $"call-1").
  - exact call_prepared.
  - intros f Hf (receipt & result & Er & _). vm_compute in Hf.
    repeat (destruct Hf as [<-|Hf]; [vm_compute in Er; discriminate Er|]). exact Hf.
  - reflexivity.
Defined.
Definition checkpoint : LoopCheckpoint := mkCheckpoint $"run-1" Sample.session None [Run.report] edited.
Definition restored : CheckpointMutationCacheCoverage * MutationLedger :=
  restore_checkpoint_mutation_cache no_outcome no_recovery (fun _ => true) (fun _ => None) $"/work" Sample.session
    (inr started) checkpoint empty_ledger.
Lemma unproved_checkpoint_blocks_witness :
  fst restored = Unproved
  /\ exists message, decide_with_observations (snd restored) [Run.report] [] false [] = GateIncomplete message.
Proof.
  split; [vm_compute; reflexivity|].
  eapply (unproved_checkpoint_blocks no_outcome no_recovery (fun _ => true) (fun _ => None) $"/work" Sample.session
           (inr started) checkpoint empty_ledger (snd restored)); [|apply rtc_refl].
  change (restored = (Unproved, snd restored)). rewrite (surjective_pairing restored) at 1. f_equal.
Defined.
Definition marker : NewFact := Eval vm_compute in
  default (call []) (turn_complete_fact no_outcome no_recovery cut ended (Terminals.Verified Run.effect)).
Lemma settlement_settles_witness : has_unsettled_effects no_outcome no_recovery (ended ++ [append_fact 7 marker]) = false.
Proof.
  apply (settlement_settles no_outcome no_recovery cut ended (Terminals.Verified Run.effect) marker (append_fact 7 marker)).
  - vm_compute. reflexivity.
  - reflexivity.
  - reflexivity.
Defined.
Lemma cursor_exact_witness :
  let '(debt, events) := fold_cache_evidence no_outcome no_recovery ended in
  let '(ready, c) := advance_until debt events 5
      (fold_left (fun c b => snd (advance_until debt events b c)) [4] (new_cursor {[ $"call-1" ]} ∅)) in
  forall key, key ∈ cu_proven c <-> proven_at events 5 {[ $"call-1" ]} key.
Proof.
  pose proof (cursor_exact no_outcome no_recovery ended {[ $"call-1" ]} ∅ [4] 5) as Hc.
  destruct (fold_cache_evidence no_outcome no_recovery ended) as [debt events].
  destruct (advance_until debt events 5 _) as [ready c]. apply Hc. repeat constructor. lia.
Defined.
Lemma accepted_step_is_proved_witness :
  exists own reports results, step_earned no_outcome no_recovery own Sample.session $"run-1" None reports results.
Proof.
  destruct (accepted_step_is_proved no_outcome no_recovery evidence_note (fun _ => sample_digest) (fun _ _ _ => sample_digest)
    (fun d t => d ++ $":" ++ t) hash_command cut Sample.session Sample.workspace None
    stepped (List.last stepped (mkFact 0 [] [] false (POther JNull))) None
    (match fold_definitions stepped Sample.session Sample.workspace None None with Good st => st | Bad _ => GoalLog.empty_fold end))
    as (stored & prefix & rest & own & reports & results & Ed & _ & _ & He & _).
  - vm_compute. reflexivity.
  - do 7 right. left. reflexivity.
  - vm_compute. reflexivity.
  - exists own, reports, results. vm_compute in Ed. injection Ed as <-. exact He.
Defined.
Definition encoded_log : list Fact := push (answer $"call-9") (push (call $"call-9") []).
Lemma encoded_session_has_no_evidence_witness :
  evidence_for_goal_step no_outcome no_recovery evidence_note encoded_log 1 (thread_for_session $"team/alpha") $"run-1" None <> None
  /\ evidence_for_goal_step no_outcome no_recovery evidence_note encoded_log 1 $"team/alpha" $"run-1" None = None.
Proof.
  split; [vm_compute; discriminate|]. apply (encoded_session_has_no_evidence no_outcome no_recovery evidence_note).
  - vm_compute. discriminate.
  - intros own r a Ho Hr Ha. injection Ho as <-.
    assert (Er : rd_results (fst (fold_cache_evidence no_outcome no_recovery encoded_log)) = [($"write", Run.result $"call-9")])
      by (vm_compute; reflexivity).
    change (In r (rd_results (fst (fold_cache_evidence no_outcome no_recovery encoded_log)))) in Hr.
    rewrite Er in Hr. destruct Hr as [<-|[]]. injection Ha as <-. reflexivity.
Defined.
