(* ===== verification/ObservationScenario.v ===== *)
(** Concrete observations: a repository seen from a nested workspace, a small tree
    without git, and the receipt of a change; the theorems on observations are
    exercised on them. *)
From S2P Require Import Prelude Text Paths Effects Ledger Porcelain PorcelainFacts ObservationFacts EffectScenario.

Module Seen.
(** Git as a table from argument lists to outputs. *)
Definition answer (table : list (list str * list Z)) (query : list str) : option (list Z) :=
  snd <$> List.find (fun entry => bool_decide (fst entry = query)) table.
Definition entries : list GitEntry :=
  [PlainEntry 32 77 $"sub/a -> b.rs"; RenameEntry 82 32 $"sub/new.rs" $"old.rs"; PlainEntry 63 63 ($"sub/" ++ [34; 9; 233])].
Definition identity (path : str) (budget : Z) : option ContentStamp * Z :=
  (Some (mkStamp path true 3 0 33188 0 (Some $"aa")), budget - 3).
(** A moment of the repository: its status entries, its hidden paths, its head. *)
Definition repo (status : list Z) (hidden : list Z) (head : string) (files : str -> Z -> option ContentStamp * Z) : Moment := {|
  git := answer [(git_args ["rev-parse"; "--show-prefix"], utf8 ($"sub/" ++ [c_nl]));
                 (git_args ["status"; "--porcelain"; "-z"; "-u"; "--"; "."], status);
                 (git_args ["ls-files"; "--full-name"; "-v"; "-z"; "--"; "."], hidden);
                 (git_args ["rev-parse"; "HEAD"], lit head)];
  directory_entries := fun _ _ => None; observe_identity_unix := files |}.
Definition dirty : Moment := repo (concat (map entry_bytes entries)) [] "c1" identity.
Definition clean : Moment := repo [] [] "c1" identity.
(** The same file hidden from git, before and after an edit. *)
Definition tracked : Moment := repo [] (utf8 $"H sub/f" ++ [0]) "c1" identity.
Definition hidden : Moment := repo [] (utf8 $"S sub/f" ++ [0]) "c1"
  (fun path budget => (Some (mkStamp path true 9 5 33188 0 (Some $"bb")), budget - 9)).
(** A tree without git: one directory with one file, edited in the second tree. *)
Definition stat (mode size : Z) : Stat := mkStat mode 1 1 size 0 0 0 0.
Definition tree (size : Z) (dir : list (list Z)) : list (list Z * Stat) :=
  match dir with
  | [] => [($"src", stat 16877 0); ($".git", stat 16877 0)]
  | [_] => [($"lib.rs", stat 33188 size)]
  | _ => []
  end.
Definition walked_tree (size : Z) : Moment := {|
  git := fun _ => None;
  directory_entries := fun dir limit =>
    if Z.of_nat (length (tree size dir)) <=? limit then Some (tree size dir, false) else Some ([], true);
  observe_identity_unix := identity |}.
Definition index (size : Z) : FileIndex :=
  mkIndex [mkNode $"src" 1 1 1 16877 0 (0, 0) (0, 0); mkNode $"src/lib.rs" 0 1 1 33188 size (0, 0) (0, 0)] false.
Definition kind_name (k : ToolFileKind) : str :=
  match k with
  | KindMissing => $"missing" | KindFile => $"file" | KindDirectory => $"directory" | KindSymlink => $"symlink"
  | KindUnknown => $"unknown"
  end.
Definition no_effects : ToolEffectObservationV1 := mkEffects Completeness.Complete [] [] None.
Definition incomplete_effects (reason : str) : ToolEffectObservationV1 := mkEffects Completeness.Incomplete [] [] (Some reason).
End Seen.
Import Seen.

Ltac names_ok := repeat constructor; vm_compute; intuition (congruence || discriminate).
Lemma status_is_read_exactly_witness :
  exists lines, @status_lines dirty = Some lines
    /\ porcelain_paths lines = Some (sorted_set [$"a -> b.rs"; $"new.rs"; [34; 9; 233]]).
Proof.
  apply (@status_is_read_exactly dirty $"sub/" entries); [vm_compute; reflexivity..| | |vm_compute; discriminate].
  - names_ok.
  - cbn [entries map concat entry_paths app]. repeat first [apply List.Forall_nil | apply List.Forall_cons];
      intros relative E; vm_compute in E; try discriminate E; injection E as <-; by split.
Defined.
Lemma complete_delta_exact_witness : In $"new.rs" (pd_paths (@delta dirty (@snapshot clean))).
Proof.
  apply (proj1 (@complete_delta_exact dirty (@snapshot clean) ltac:(vm_compute; reflexivity))). left.
  exists [], (default [] (@status_lines dirty)). split; [vm_compute; reflexivity|]. split; [vm_compute; reflexivity|].
  exists (status_line $"D " $"new.rs"), [$"new.rs"]. split; [|by split; [vm_compute; reflexivity|left]].
  left. split; [|intros []]. right. left. vm_compute. reflexivity.
Defined.

(** Two directories are read, so two steps of the walk are enough: any fuel above
    that gives the same index. *)
Lemma tree_walk fuel size : In size [3; 9] ->
  @walk (walked_tree size) (S (S (S fuel))) NONGIT_WALK_CAP (mkWalk [] false 0 [[]])
  = Ok (mkWalk (fx_entries (index size)) false 3 []).
Proof. intros [<-|[<-|[]]]; vm_compute; reflexivity. Qed.
Lemma index_of_walk `{Moment} cap w :
  2 <= cap -> (forall fuel, walk (S (S (S fuel))) cap (mkWalk [] false 0 [[]]) = Ok w) ->
  index_files_within cap = Ok (mkIndex (sort_by node_leb (wk_entries w)) (wk_incomplete w)).
Proof.
  intros Hc E. unfold index_files_within. replace (Z.to_nat cap) with (S (S (Nat.pred (Nat.pred (Z.to_nat cap))))) by lia.
  by rewrite E.
Qed.
Lemma tree_index size : In size [3; 9] -> @index_files_within (walked_tree size) NONGIT_WALK_CAP = Ok (index size).
Proof.
  intros Hs. assert (Hc : 2 <= NONGIT_WALK_CAP) by done.
  rewrite (index_of_walk _ _ Hc (fun fuel => tree_walk fuel size Hs)). by destruct Hs as [<-|[<-|[]]].
Qed.
Lemma tree_listing size : @reads_listing (walked_tree size) (tree size).
Proof. intros dir limit found. cbn. case_match; [by intros [= <-]|done]. Qed.
Lemma tree_nodes size stamp : In size [3; 9] -> tree_node (tree size) stamp -> In stamp (fx_entries (index size)).
Proof.
  intros E%tree_index. by apply (proj1 (@index_exact (walked_tree size) (tree size) _ _ (tree_listing size) E eq_refl) stamp).
Qed.
Lemma tree_unique size : In size [3; 9] -> unique_paths (tree size).
Proof.
  intros E s s' Hs%(tree_nodes size) Hs'%(tree_nodes size); [|done..].
  cbn in Hs, Hs'. by destruct Hs as [<-|[<-|[]]], Hs' as [<-|[<-|[]]].
Qed.
Lemma tree_bounded size : @bounded_directories (walked_tree size).
Proof. intros dir limit found inc Hl. cbn. destruct (Z.leb_spec (Z.of_nat (length (tree size dir))) limit); intros [= <- _]; cbn; lia. Qed.
Lemma tree_delta_exact_witness :
  exists d, @file_delta (walked_tree 9) (index 3) = Ok d
    /\ (pd_incomplete d = false -> forall path, In path (pd_paths d) <->
          exists s, ns_path s = path /\ (tree_node (tree 3) s /\ ~ tree_node (tree 9) s \/ tree_node (tree 9) s /\ ~ tree_node (tree 3) s)).
Proof.
  apply (tree_delta_exact (walked_tree 3) (walked_tree 9)).
  - apply tree_bounded.
  - apply tree_listing.
  - apply tree_listing.
  - apply tree_unique. by left.
  - apply tree_unique. right. by left.
  - unfold index_files. apply tree_index. by left.
Defined.
Lemma complete_receipt_covers_witness :
  exists change, identified (H := dirty) kind_name $"src/lib.rs" change
    /\ In change (ef_changes (observe_path_effects_within (H := dirty) kind_name 512 no_effects incomplete_effects
                                (mkDelta [$"src/lib.rs"; $".git/index"] false) 100)).
Proof.
  destruct (complete_receipt_covers (H := dirty) kind_name 512 no_effects incomplete_effects
              (mkDelta [$"src/lib.rs"; $".git/index"] false) 100) as (_ & _ & Hc & _);
    [done|done|vm_compute; reflexivity|].
  destruct (Hc $"src/lib.rs") as (change & Hin & Hid); [by left|vm_compute; reflexivity|]. by exists change.
Defined.

(** A file that one command hides from git and edits is not seen: its stamp exists
    only after the command, and only paths stamped at both moments are compared. The
    delta is empty and claims to be complete, although the file's identity changed. *)
Lemma hidden_edit_is_missed :
  @delta hidden (@snapshot tracked) = mkDelta [] false
  /\ fst (@observe_file_identity tracked $"f" 100) <> fst (@observe_file_identity hidden $"f" 100).
Proof. vm_compute. split; [reflexivity|discriminate]. Qed.

(** A baseline whose revision could not be read: a command that creates and commits a
    file leaves the status as it was, and the delta is empty and claims to be complete,
    although the workspace now has a revision. *)
Definition unread : Moment := {|
  git := fun query => if bool_decide (query = git_args ["rev-parse"; "HEAD"]) then None else @git clean query;
  directory_entries := fun _ _ => None; observe_identity_unix := identity |}.
Lemma unread_head_misses_a_commit :
  sn_head (@snapshot unread) = None /\ sn_head (@snapshot clean) = Some $"c1"
  /\ @delta clean (@snapshot unread) = mkDelta [] false.
Proof. vm_compute. repeat split. Qed.
