(* ===== verification/Scheduler.v ===== *)
(** The admission scheduler shared by the sessions of one agent ([task_scheduler.rs]):
    priorities, quotas, the actor's state and the handling of every message. Lane's
    priority queue is an interface; clocks and the waiters that still listen are
    arguments of the step that reads them. *)
From stdpp Require Import gmap.
From S2P Require Import Prelude Text Planning Goal.

(** ** Lane's stable priority queue (the a3s-lane crate)

    A queue is seen through the list of its items in the order they are popped: by
    priority (lower first), then by the sequence number given on insertion. *)
Record PriorityItem (V : Type) : Type := mkItem { it_priority : Z; it_sequence : Z; it_value : V }.
Arguments mkItem {V} _ _ _.
Arguments it_priority {V} _.
Arguments it_sequence {V} _.
Arguments it_value {V} _.
Class PriorityQueue (Q V : Type) : Type := {
  queue_new : Q;
  queue_push : Z -> V -> Q -> Q;
  queue_pop : Q -> option (PriorityItem V * Q);
  queue_restore : PriorityItem V -> Q -> Q;
  queue_ordered : Q -> list (PriorityItem V);
}.
Section Items.
Context {V : Type}.
Definition item_leb (a b : PriorityItem V) : bool :=
  (it_priority a <? it_priority b) || (it_priority a =? it_priority b) && (it_sequence a <=? it_sequence b).
Definition sequence_leb (a b : PriorityItem V) : bool := it_sequence a <=? it_sequence b.
Context {Q : Type} `{PriorityQueue Q V}.
Definition queue_len (q : Q) : nat := length (queue_ordered q).
(** [while let Some(item) = queue.pop()], with the queue it leaves. *)
Fixpoint drain_from (fuel : nat) (q : Q) : list (PriorityItem V) * Q :=
  match fuel with
  | O => ([], q)
  | S fuel =>
      match queue_pop q with
      | None => ([], q)
      | Some (item, q) => let '(items, q) := drain_from fuel q in (item :: items, q)
      end
  end.
Definition drain_queue (q : Q) : list (PriorityItem V) * Q := drain_from (S (queue_len q)) q.
Definition restore_all (items : list (PriorityItem V)) (q : Q) : Q :=
  fold_left (fun q item => queue_restore item q) items q.
End Items.

(** ** Saturating machine integers *)
Definition saturating_add (a b : Z) : Z := Z.min (a + b) u64_max.
Definition saturating_sub (a b : Z) : Z := Z.max (a - b) 0.

(** ** Errors, priorities and configuration *)
Module Refusal.
Inductive TaskSchedulerError : Type := InvalidConfig (message : str) | Cancelled | Closed | AtCapacity (limit : Z).
End Refusal.
Abbreviation TaskSchedulerError := Refusal.TaskSchedulerError.
Abbreviation InvalidConfig := Refusal.InvalidConfig.
#[global] Instance TaskSchedulerError_eq_dec : EqDecision TaskSchedulerError.
Proof. solve_decision. Defined.

Inductive TaskPriority : Type := Urgent | Interactive | Foreground | Background | Maintenance.
#[global] Instance TaskPriority_eq_dec : EqDecision TaskPriority.
Proof. solve_decision. Defined.
Definition lane_priority (p : TaskPriority) : Z :=
  match p with Urgent => 0 | Interactive => 1 | Foreground => 2 | Background => 3 | Maintenance => 4 end.
Definition UNKNOWN_PRIORITY (value : str) : str :=
  $"unknown task priority '" ++ value ++ $"'; expected urgent, interactive, foreground, background, or maintenance".
Definition task_priority_from_str (value : str) : TaskSchedulerError + TaskPriority :=
  let word := List.filter (fun c => negb ((c =? c_dash) || (c =? c_underscore))) (to_ascii_lowercase (trim value)) in
  if str_eqb word $"urgent" then inr Urgent
  else if one_of word ["interactive"; "user"] then inr Interactive
  else if str_eqb word $"foreground" then inr Foreground
  else if str_eqb word $"background" then inr Background
  else if str_eqb word $"maintenance" then inr Maintenance
  else inl (InvalidConfig (UNKNOWN_PRIORITY value)).

Definition DEFAULT_MAX_ACTIVE : Z := 4.
Definition DEFAULT_AGING_INTERVAL_MS : Z := 30000.
Definition MAX_PENDING_ADMISSIONS : Z := 4096.
Definition ADMISSION_CHANNEL_CAPACITY : Z := 256.
Definition TASK_SCHEDULER_MAX_SCOPE_BYTES : Z := 512.
Definition TASK_SCHEDULER_MAX_QUOTAS : Z := 8.
Definition TASK_SCHEDULER_QUOTA_HEALTH_RETENTION : Z := 64.

Record TaskSchedulerConfig : Type := mkConfig { cf_max_active : Z; cf_aging_interval_ms : Z }.
Definition default_config : TaskSchedulerConfig := mkConfig DEFAULT_MAX_ACTIVE DEFAULT_AGING_INTERVAL_MS.
Definition config_validate (c : TaskSchedulerConfig) : option TaskSchedulerError :=
  if cf_max_active c =? 0 then Some (InvalidConfig $"maxActive must be greater than zero")
  else if cf_aging_interval_ms c =? 0 then Some (InvalidConfig $"agingIntervalMs must be greater than zero")
  else None.

(** ** Quotas *)
(** [ExecutionIdentityV1::validate] with the text of its error. *)
Definition identity_problem (i : ExecutionIdentityV1) : option str :=
  if negb (str_eqb (ei_schema i) EXECUTION_IDENTITY_SCHEMA_V1) || negb (validate_domain (ei_domain i))
  then Some $"execution identity domain is empty or invalid"
  else if negb (validate_digest (ei_digest i)) then Some $"execution identity digest is invalid"
  else None.
Record TaskSchedulerQuota : Type := mkQuota { qu_identity : ExecutionIdentityV1; qu_max_active : Z }.
Definition quota_key (q : TaskSchedulerQuota) : str := ei_digest (qu_identity q).
Definition quota_validate (q : TaskSchedulerQuota) : option TaskSchedulerError :=
  match identity_problem (qu_identity q) with
  | Some error => Some (InvalidConfig ($"scheduler quota identity is invalid: " ++ error))
  | None =>
      if qu_max_active q =? 0 then Some (InvalidConfig $"scheduler quota maxActive must be greater than zero") else None
  end.
Definition new_quota (identity : ExecutionIdentityV1) (max_active : Z) : TaskSchedulerError + TaskSchedulerQuota :=
  let quota := mkQuota identity max_active in
  match quota_validate quota with Some error => inl error | None => inr quota end.
Definition TASK_ADMISSION_SCOPE_IDENTITY_DOMAIN_V1 : str := $"a3s.code.task-admission-scope.identity.v1".
(** [scope_digest]: the digest of the canonical scope object under its domain. *)
Definition for_scope (scope_digest : str -> str) (scope : str) (max_active : Z) : TaskSchedulerError + TaskSchedulerQuota :=
  if bool_decide (scope = []) || (TASK_SCHEDULER_MAX_SCOPE_BYTES <? len scope)
     || existsb (fun c => is_control c || (c =? 8232) || (c =? 8233)) scope
  then inl (InvalidConfig ($"scheduler quota scope must be one non-empty line of at most 512 bytes"))
  else new_quota (mkIdentity EXECUTION_IDENTITY_SCHEMA_V1 TASK_ADMISSION_SCOPE_IDENTITY_DOMAIN_V1 (scope_digest scope)) max_active.

Record QuotaState : Type := mkQuotaState {
  qs_identity : ExecutionIdentityV1; qs_max_active : Z; qs_active : Z; qs_pending : Z;
  qs_admitted : Z; qs_released : Z; qs_cancelled : Z; qs_rejected : Z;
  qs_peak_active : Z; qs_total_wait_micros : Z; qs_max_wait_micros : Z;
}.
Definition new_quota_state (identity : ExecutionIdentityV1) (max_active : Z) : QuotaState :=
  mkQuotaState identity max_active 0 0 0 0 0 0 0 0 0.
Definition same_quota (s : QuotaState) (q : TaskSchedulerQuota) : bool :=
  bool_decide (qs_identity s = qu_identity q) && (qs_max_active s =? qu_max_active q).
Definition checked_div (a b : Z) : Z := if b =? 0 then 0 else a / b.

(** ** The state of the actor *)
Record QueuedAdmission : Type := mkAdmission {
  qa_id : Z; qa_priority : TaskPriority; qa_effective_priority : Z; qa_label : str;
  qa_identity : option ExecutionIdentityV1; qa_quotas : list TaskSchedulerQuota; qa_global_slot : bool;
  qa_enqueued_at : Z;
}.
Record ActiveAdmission : Type := mkActive { aa_priority : TaskPriority; aa_quota_identities : list str; aa_global_slot : bool }.
Record SchedulerCounters : Type := mkCounters {
  ct_admitted : Z; ct_released : Z; ct_cancelled : Z; ct_rejected : Z; ct_aging_promotions : Z;
  ct_peak_active : Z; ct_total_wait_micros : Z; ct_max_wait_micros : Z;
}.
Definition no_counters : SchedulerCounters := mkCounters 0 0 0 0 0 0 0 0.

(** Answers. *)
Record TaskPriorityCounts : Type := mkCounts { pc_urgent : Z; pc_interactive : Z; pc_foreground : Z; pc_background : Z; pc_maintenance : Z }.
Definition increment (c : TaskPriorityCounts) (p : TaskPriority) : TaskPriorityCounts :=
  match p with
  | Urgent => mkCounts (pc_urgent c + 1) (pc_interactive c) (pc_foreground c) (pc_background c) (pc_maintenance c)
  | Interactive => mkCounts (pc_urgent c) (pc_interactive c + 1) (pc_foreground c) (pc_background c) (pc_maintenance c)
  | Foreground => mkCounts (pc_urgent c) (pc_interactive c) (pc_foreground c + 1) (pc_background c) (pc_maintenance c)
  | Background => mkCounts (pc_urgent c) (pc_interactive c) (pc_foreground c) (pc_background c + 1) (pc_maintenance c)
  | Maintenance => mkCounts (pc_urgent c) (pc_interactive c) (pc_foreground c) (pc_background c) (pc_maintenance c + 1)
  end.
Record TaskSchedulerStats : Type := mkStats {
  st_max_active : Z; st_active : Z; st_pending : Z; st_active_by_priority : TaskPriorityCounts;
  st_pending_by_priority : TaskPriorityCounts; st_closed : bool;
}.
Record TaskSchedulerHealthSnapshot : Type := mkHealth {
  hs_stats : TaskSchedulerStats; hs_admitted : Z; hs_released : Z; hs_cancelled : Z; hs_rejected : Z;
  hs_aging_promotions : Z; hs_peak_active : Z; hs_total_wait_micros : Z; hs_average_wait_micros : Z; hs_max_wait_micros : Z;
}.
Record TaskSchedulerQuotaSnapshot : Type := mkQuotaSnapshot {
  sn_identity : ExecutionIdentityV1; sn_max_active : Z; sn_active : Z; sn_pending : Z; sn_blocked : bool;
}.
Record TaskSchedulerQuotaHealthSnapshot : Type := mkQuotaHealth {
  qh_identity : ExecutionIdentityV1; qh_max_active : Z; qh_observed : bool; qh_live : bool; qh_active : Z; qh_pending : Z;
  qh_blocked : bool; qh_admitted : Z; qh_released : Z; qh_cancelled : Z; qh_rejected : Z; qh_peak_active : Z;
  qh_total_wait_micros : Z; qh_average_wait_micros : Z; qh_max_wait_micros : Z;
}.
(** What the actor delivered: an admission's answer, the end of a shutdown, a reply. *)
Inductive Sent : Type :=
| Ready (id : Z) (answer : TaskSchedulerError + unit)
| ShutDown (waiter : Z)
| RepliedStats (reply : Z) (stats : TaskSchedulerStats)
| RepliedHealth (reply : Z) (health : TaskSchedulerHealthSnapshot)
| RepliedQuota (reply : Z) (answer : TaskSchedulerError + TaskSchedulerQuotaSnapshot)
| RepliedQuotaHealth (reply : Z) (answer : TaskSchedulerError + TaskSchedulerQuotaHealthSnapshot).
Inductive SchedulerMessage : Type :=
| Enqueue (item : QueuedAdmission)
| Release (id : Z)
| Stats (reply : Z)
| Health (reply : Z)
| QuotaStats (quota : TaskSchedulerQuota) (reply : Z)
| QuotaHealth (quota : TaskSchedulerQuota) (reply : Z)
| Shutdown (waiter : Z).

(** One turn of the actor: the instant aging reads, the instant at which the wait of
    each admission is measured (nanoseconds), and the waiters that still listen. *)
Record Turn : Type := mkTurn { tn_now : Z; tn_admitted_at : Z -> Z; tn_listening : Z -> bool }.
Definition elapsed (later earlier : Z) : Z := Z.max (later - earlier) 0.
Definition as_millis (ns : Z) : Z := ns / 1000000.
Definition as_micros (ns : Z) : Z := ns / 1000.

Section Actor.
Context {Q : Type} `{PriorityQueue Q QueuedAdmission}.
Record SchedulerState : Type := mkScheduler {
  ss_config : TaskSchedulerConfig;
  ss_pending : Q;
  ss_active : gmap Z ActiveAdmission;
  ss_quotas : gmap str QuotaState;
  ss_retained : gmap str QuotaState;
  ss_retained_order : list str;
  ss_closing : bool;
  ss_shutdown_waiters : list Z;
  ss_counters : SchedulerCounters;
  ss_sent : list Sent;
}.
Definition new_scheduler (config : TaskSchedulerConfig) : SchedulerState :=
  mkScheduler config queue_new ∅ ∅ ∅ [] false [] no_counters [].
Definition set_pending (p : Q) (s : SchedulerState) : SchedulerState :=
  mkScheduler (ss_config s) p (ss_active s) (ss_quotas s) (ss_retained s) (ss_retained_order s) (ss_closing s)
              (ss_shutdown_waiters s) (ss_counters s) (ss_sent s).
Definition set_active (a : gmap Z ActiveAdmission) (s : SchedulerState) : SchedulerState :=
  mkScheduler (ss_config s) (ss_pending s) a (ss_quotas s) (ss_retained s) (ss_retained_order s) (ss_closing s)
              (ss_shutdown_waiters s) (ss_counters s) (ss_sent s).
Definition set_quotas (q : gmap str QuotaState) (s : SchedulerState) : SchedulerState :=
  mkScheduler (ss_config s) (ss_pending s) (ss_active s) q (ss_retained s) (ss_retained_order s) (ss_closing s)
              (ss_shutdown_waiters s) (ss_counters s) (ss_sent s).
Definition set_retained (r : gmap str QuotaState) (order : list str) (s : SchedulerState) : SchedulerState :=
  mkScheduler (ss_config s) (ss_pending s) (ss_active s) (ss_quotas s) r order (ss_closing s)
              (ss_shutdown_waiters s) (ss_counters s) (ss_sent s).
Definition set_closing (closing : bool) (waiters : list Z) (s : SchedulerState) : SchedulerState :=
  mkScheduler (ss_config s) (ss_pending s) (ss_active s) (ss_quotas s) (ss_retained s) (ss_retained_order s) closing
              waiters (ss_counters s) (ss_sent s).
Definition set_counters (c : SchedulerCounters) (s : SchedulerState) : SchedulerState :=
  mkScheduler (ss_config s) (ss_pending s) (ss_active s) (ss_quotas s) (ss_retained s) (ss_retained_order s) (ss_closing s)
              (ss_shutdown_waiters s) c (ss_sent s).
Definition send (m : list Sent) (s : SchedulerState) : SchedulerState :=
  mkScheduler (ss_config s) (ss_pending s) (ss_active s) (ss_quotas s) (ss_retained s) (ss_retained_order s) (ss_closing s)
              (ss_shutdown_waiters s) (ss_counters s) (ss_sent s ++ m).
(** [ready.send(answer)]: lost when the waiter is gone. *)
Definition answer_waiter (t : Turn) (id : Z) (a : TaskSchedulerError + unit) (s : SchedulerState) : SchedulerState :=
  if tn_listening t id then send [Ready id a] s else s.

Definition count_released (c : SchedulerCounters) : SchedulerCounters :=
  mkCounters (ct_admitted c) (saturating_add (ct_released c) 1) (ct_cancelled c) (ct_rejected c) (ct_aging_promotions c)
             (ct_peak_active c) (ct_total_wait_micros c) (ct_max_wait_micros c).
Definition count_cancelled (c : SchedulerCounters) : SchedulerCounters :=
  mkCounters (ct_admitted c) (ct_released c) (saturating_add (ct_cancelled c) 1) (ct_rejected c) (ct_aging_promotions c)
             (ct_peak_active c) (ct_total_wait_micros c) (ct_max_wait_micros c).
Definition count_rejected (c : SchedulerCounters) : SchedulerCounters :=
  mkCounters (ct_admitted c) (ct_released c) (ct_cancelled c) (saturating_add (ct_rejected c) 1) (ct_aging_promotions c)
             (ct_peak_active c) (ct_total_wait_micros c) (ct_max_wait_micros c).
Definition count_promotion (c : SchedulerCounters) : SchedulerCounters :=
  mkCounters (ct_admitted c) (ct_released c) (ct_cancelled c) (ct_rejected c) (saturating_add (ct_aging_promotions c) 1)
             (ct_peak_active c) (ct_total_wait_micros c) (ct_max_wait_micros c).
Definition count_admitted (wait_micros active : Z) (c : SchedulerCounters) : SchedulerCounters :=
  mkCounters (saturating_add (ct_admitted c) 1) (ct_released c) (ct_cancelled c) (ct_rejected c) (ct_aging_promotions c)
             (Z.max (ct_peak_active c) active) (saturating_add (ct_total_wait_micros c) wait_micros)
             (Z.max (ct_max_wait_micros c) wait_micros).

(** *** Changes of one quota *)
Definition quota_add_pending (s : QuotaState) : QuotaState :=
  mkQuotaState (qs_identity s) (qs_max_active s) (qs_active s) (saturating_add (qs_pending s) 1) (qs_admitted s)
    (qs_released s) (qs_cancelled s) (qs_rejected s) (qs_peak_active s) (qs_total_wait_micros s) (qs_max_wait_micros s).
Definition quota_reject (s : QuotaState) : QuotaState :=
  mkQuotaState (qs_identity s) (qs_max_active s) (qs_active s) (saturating_sub (qs_pending s) 1) (qs_admitted s)
    (qs_released s) (qs_cancelled s) (saturating_add (qs_rejected s) 1) (qs_peak_active s) (qs_total_wait_micros s) (qs_max_wait_micros s).
Definition quota_cancel (s : QuotaState) : QuotaState :=
  mkQuotaState (qs_identity s) (qs_max_active s) (qs_active s) (saturating_sub (qs_pending s) 1) (qs_admitted s)
    (qs_released s) (saturating_add (qs_cancelled s) 1) (qs_rejected s) (qs_peak_active s) (qs_total_wait_micros s) (qs_max_wait_micros s).
Definition quota_release (cancelled : bool) (s : QuotaState) : QuotaState :=
  mkQuotaState (qs_identity s) (qs_max_active s) (saturating_sub (qs_active s) 1) (qs_pending s) (qs_admitted s)
    (if cancelled then qs_released s else saturating_add (qs_released s) 1)
    (if cancelled then saturating_add (qs_cancelled s) 1 else qs_cancelled s)
    (qs_rejected s) (qs_peak_active s) (qs_total_wait_micros s) (qs_max_wait_micros s).
Definition quota_start (s : QuotaState) : QuotaState :=
  mkQuotaState (qs_identity s) (qs_max_active s) (saturating_add (qs_active s) 1) (saturating_sub (qs_pending s) 1) (qs_admitted s)
    (qs_released s) (qs_cancelled s) (qs_rejected s) (qs_peak_active s) (qs_total_wait_micros s) (qs_max_wait_micros s).
Definition quota_admit (wait_micros : Z) (s : QuotaState) : QuotaState :=
  mkQuotaState (qs_identity s) (qs_max_active s) (qs_active s) (qs_pending s) (saturating_add (qs_admitted s) 1)
    (qs_released s) (qs_cancelled s) (qs_rejected s) (Z.max (qs_peak_active s) (qs_active s))
    (saturating_add (qs_total_wait_micros s) wait_micros) (Z.max (qs_max_wait_micros s) wait_micros).
Definition alter_quotas (f : QuotaState -> QuotaState) (keys : list str) (quotas : gmap str QuotaState) : gmap str QuotaState :=
  fold_left (fun quotas key => alter f key quotas) keys quotas.

(** *** Recently idle quotas *)
(** [while len > RETENTION { pop_front ... }] *)
Fixpoint evict (fuel : nat) (r : gmap str QuotaState) (order : list str) : gmap str QuotaState * list str :=
  match fuel with
  | O => (r, order)
  | S fuel =>
      if TASK_SCHEDULER_QUOTA_HEALTH_RETENTION <? Z.of_nat (length order)
      then match order with [] => (r, order) | evicted :: order => evict fuel (delete evicted r) order end
      else (r, order)
  end.
Definition retain_quota_health (key : str) (state : QuotaState) (s : SchedulerState) : SchedulerState :=
  let order := List.filter (fun candidate => negb (str_eqb candidate key)) (ss_retained_order s) ++ [key] in
  let '(r, order) := evict (length order) (<[key := state]> (delete key (ss_retained s))) order in
  set_retained r order s.
Definition take_retained_quota_health (key : str) (quota : TaskSchedulerQuota) (s : SchedulerState)
    : option QuotaState * SchedulerState :=
  match ss_retained s !! key with
  | None => (None, s)
  | Some state =>
      (if same_quota state quota then Some state else None,
       set_retained (delete key (ss_retained s))
                    (List.filter (fun candidate => negb (str_eqb candidate key)) (ss_retained_order s)) s)
  end.
Definition idle (s : QuotaState) : bool := (qs_active s =? 0) && (qs_pending s =? 0).
Definition prune_idle_quota (key : str) (s : SchedulerState) : SchedulerState :=
  match ss_quotas s !! key with
  | Some state => if idle state then retain_quota_health key state (set_quotas (delete key (ss_quotas s)) s) else s
  | None => s
  end.
(** One turn of the loops that settle quotas: change the state, then prune it. *)
Definition settle_quota (f : QuotaState -> QuotaState) (key : str) (s : SchedulerState) : SchedulerState :=
  prune_idle_quota key (set_quotas (alter f key (ss_quotas s)) s).
Definition settle_quotas (f : QuotaState -> QuotaState) (keys : list str) (s : SchedulerState) : SchedulerState :=
  fold_left (fun s key => settle_quota f key s) keys s.

Definition DIFFERENT_LIMIT : TaskSchedulerError :=
  InvalidConfig $"scheduler quota identity is already registered with a different limit".
Definition conflicts (s : SchedulerState) (quota : TaskSchedulerQuota) : bool :=
  match ss_quotas s !! quota_key quota with Some existing => negb (same_quota existing quota) | None => false end.
Definition register_quota (s : SchedulerState) (quota : TaskSchedulerQuota) : SchedulerState :=
  match ss_quotas s !! quota_key quota with
  | Some _ => s
  | None =>
      let '(retained, s) := take_retained_quota_health (quota_key quota) quota s in
      let state := default (new_quota_state (qu_identity quota) (qu_max_active quota)) retained in
      set_quotas (<[quota_key quota := state]> (ss_quotas s)) s
  end.
Definition register_pending_quotas (quotas : list TaskSchedulerQuota) (s : SchedulerState)
    : option TaskSchedulerError * SchedulerState :=
  if existsb (conflicts s) quotas then (Some DIFFERENT_LIMIT, s) else (None, fold_left register_quota quotas s).
Definition reject_pending_quotas (quotas : list TaskSchedulerQuota) (s : SchedulerState) : SchedulerState :=
  settle_quotas quota_reject (map quota_key quotas) s.
Definition release_active_quotas (keys : list str) (cancelled : bool) (s : SchedulerState) : SchedulerState :=
  settle_quotas (quota_release cancelled) keys s.
Definition cancel_pending (t : Turn) (item : QueuedAdmission) (s : SchedulerState) : SchedulerState :=
  let s := set_counters (count_cancelled (ss_counters s)) s in
  let s := settle_quotas quota_cancel (map quota_key (qa_quotas item)) s in
  answer_waiter t (qa_id item) (inl Refusal.Cancelled) s.
Definition quota_allows (s : SchedulerState) (quotas : list TaskSchedulerQuota) : bool :=
  forallb (fun quota => match ss_quotas s !! quota_key quota with
                        | Some state => qs_active state <? qs_max_active state
                        | None => false
                        end) quotas.

(** *** The queue *)
Definition global_active_count (s : SchedulerState) : Z :=
  Z.of_nat (length (List.filter aa_global_slot (map snd (map_to_list (ss_active s))))).
Definition remove_pending (id : Z) (s : SchedulerState) : option QueuedAdmission * SchedulerState :=
  if bool_decide (queue_ordered (ss_pending s) = []) then (None, s)
  else
    let '(items, q) := drain_queue (ss_pending s) in
    let matching := fun item => qa_id (it_value item) =? id in
    (option_map it_value (list.last (List.filter matching items)),
     set_pending (restore_all (List.filter (fun item => negb (matching item)) items) q) s).
(** The loop of [pop_admissible]: the first item that may start, and the others. *)
Fixpoint select (admissible : QueuedAdmission -> bool) (items : list (PriorityItem QueuedAdmission))
    : option QueuedAdmission * list (PriorityItem QueuedAdmission) :=
  match items with
  | [] => (None, [])
  | item :: items =>
      if admissible (it_value item) then (Some (it_value item), items)
      else let '(selected, retained) := select admissible items in (selected, item :: retained)
  end.
Definition admissible (s : SchedulerState) (global_capacity_available : bool) (item : QueuedAdmission) : bool :=
  (negb (qa_global_slot item) || global_capacity_available) && quota_allows s (qa_quotas item).
Definition pop_admissible (global_capacity_available : bool) (s : SchedulerState) : option QueuedAdmission * SchedulerState :=
  let '(items, q) := drain_queue (ss_pending s) in
  let '(selected, retained) := select (admissible s global_capacity_available) items in
  (selected, set_pending (restore_all retained q) s).
Definition aged_priority (c : TaskSchedulerConfig) (now : Z) (item : QueuedAdmission) : Z :=
  let elapsed_ms := as_millis (elapsed now (qa_enqueued_at item)) in
  let levels := Z.min (elapsed_ms / cf_aging_interval_ms c) 255 in
  if bool_decide (qa_priority item = Urgent) then lane_priority Urgent
  else Z.max (saturating_sub (lane_priority (qa_priority item)) levels) 1.
Definition set_effective (p : Z) (i : QueuedAdmission) : QueuedAdmission :=
  mkAdmission (qa_id i) (qa_priority i) p (qa_label i) (qa_identity i) (qa_quotas i) (qa_global_slot i) (qa_enqueued_at i).
Definition age_item (now : Z) (s : SchedulerState) (entry : PriorityItem QueuedAdmission) : SchedulerState :=
  let item := it_value entry in
  let effective := aged_priority (ss_config s) now item in
  let s := if effective <? qa_effective_priority item then set_counters (count_promotion (ss_counters s)) s else s in
  set_pending (queue_push effective (set_effective effective item) (ss_pending s)) s.
Definition apply_aging (t : Turn) (s : SchedulerState) : SchedulerState :=
  if bool_decide (queue_ordered (ss_pending s) = []) then s
  else
    let '(items, q) := drain_queue (ss_pending s) in
    fold_left (age_item (tn_now t)) (sort_by sequence_leb items) (set_pending q s).

(** *** Dispatch *)
Definition admit_item (t : Turn) (item : QueuedAdmission) (s : SchedulerState) : SchedulerState :=
  let id := qa_id item in
  let keys := map quota_key (qa_quotas item) in
  let s := set_quotas (alter_quotas quota_start keys (ss_quotas s)) s in
  let wait_micros := Z.min (as_micros (elapsed (tn_admitted_at t id) (qa_enqueued_at item))) u64_max in
  let s := set_active (<[id := mkActive (qa_priority item) keys (qa_global_slot item)]> (ss_active s)) s in
  if negb (tn_listening t id) then
    let s := set_active (delete id (ss_active s)) s in
    let s := set_counters (count_cancelled (ss_counters s)) s in
    release_active_quotas keys true s
  else
    let s := send [Ready id (inr tt)] s in
    let s := set_counters (count_admitted wait_micros (global_active_count s) (ss_counters s)) s in
    set_quotas (alter_quotas (quota_admit wait_micros) keys (ss_quotas s)) s.
(** Each turn of the loop takes an item off the queue. *)
Fixpoint dispatch_loop (fuel : nat) (t : Turn) (s : SchedulerState) : SchedulerState :=
  match fuel with
  | O => s
  | S fuel =>
      let global_capacity_available := global_active_count s <? cf_max_active (ss_config s) in
      match pop_admissible global_capacity_available s with
      | (None, s) => s
      | (Some item, s) => dispatch_loop fuel t (admit_item t item s)
      end
  end.
Definition dispatch (t : Turn) (s : SchedulerState) : SchedulerState :=
  if ss_closing s then s
  else let s := apply_aging t s in dispatch_loop (S (queue_len (ss_pending s))) t s.
Definition enqueue (t : Turn) (item : QueuedAdmission) (s : SchedulerState) : SchedulerState :=
  if ss_closing s then answer_waiter t (qa_id item) (inl Refusal.Closed) s
  else if MAX_PENDING_ADMISSIONS <=? Z.of_nat (queue_len (ss_pending s))
  then answer_waiter t (qa_id item) (inl (Refusal.AtCapacity MAX_PENDING_ADMISSIONS)) s
  else
    match register_pending_quotas (qa_quotas item) s with
    | (Some error, s) => answer_waiter t (qa_id item) (inl error) (set_counters (count_rejected (ss_counters s)) s)
    | (None, s) =>
        let s := set_quotas (alter_quotas quota_add_pending (map quota_key (qa_quotas item)) (ss_quotas s)) s in
        let s := set_pending (queue_push (qa_effective_priority item) item (ss_pending s)) s in
        dispatch t s
    end.

(** *** Answers *)
Definition snapshot (s : SchedulerState) : TaskSchedulerStats :=
  let none := mkCounts 0 0 0 0 0 in
  mkStats (cf_max_active (ss_config s)) (global_active_count s) (Z.of_nat (queue_len (ss_pending s)))
    (fold_left increment (map aa_priority (List.filter aa_global_slot (map snd (map_to_list (ss_active s))))) none)
    (fold_left increment (map (fun item => qa_priority (it_value item)) (queue_ordered (ss_pending s))) none)
    (ss_closing s).
Definition health_snapshot (s : SchedulerState) : TaskSchedulerHealthSnapshot :=
  let c := ss_counters s in
  mkHealth (snapshot s) (ct_admitted c) (ct_released c) (ct_cancelled c) (ct_rejected c) (ct_aging_promotions c)
    (ct_peak_active c) (ct_total_wait_micros c) (checked_div (ct_total_wait_micros c) (ct_admitted c)) (ct_max_wait_micros c).
Definition quota_blocked (s : QuotaState) : bool := (0 <? qs_pending s) && (qs_max_active s <=? qs_active s).
Definition quota_snapshot (quota : TaskSchedulerQuota) (s : SchedulerState) : TaskSchedulerError + TaskSchedulerQuotaSnapshot :=
  match quota_validate quota with
  | Some error => inl error
  | None =>
      match ss_quotas s !! quota_key quota with
      | Some state =>
          if negb (same_quota state quota) then inl DIFFERENT_LIMIT
          else inr (mkQuotaSnapshot (qs_identity state) (qs_max_active state) (qs_active state) (qs_pending state) (quota_blocked state))
      | None => inr (mkQuotaSnapshot (qu_identity quota) (qu_max_active quota) 0 0 false)
      end
  end.
Definition quota_health_snapshot (live : bool) (s : QuotaState) : TaskSchedulerQuotaHealthSnapshot :=
  mkQuotaHealth (qs_identity s) (qs_max_active s) true live (qs_active s) (qs_pending s) (quota_blocked s) (qs_admitted s)
    (qs_released s) (qs_cancelled s) (qs_rejected s) (qs_peak_active s) (qs_total_wait_micros s)
    (checked_div (qs_total_wait_micros s) (qs_admitted s)) (qs_max_wait_micros s).
Definition quota_health (quota : TaskSchedulerQuota) (s : SchedulerState) : TaskSchedulerError + TaskSchedulerQuotaHealthSnapshot :=
  let unobserved := mkQuotaHealth (qu_identity quota) (qu_max_active quota) false false 0 0 false 0 0 0 0 0 0 0 0 in
  match quota_validate quota with
  | Some error => inl error
  | None =>
      match ss_quotas s !! quota_key quota with
      | Some state => if negb (same_quota state quota) then inl DIFFERENT_LIMIT else inr (quota_health_snapshot true state)
      | None =>
          match ss_retained s !! quota_key quota with
          | Some state => if same_quota state quota then inr (quota_health_snapshot false state) else inr unobserved
          | None => inr unobserved
          end
      end
  end.

(** *** Messages *)
Definition finish_shutdown_if_idle (s : SchedulerState) : SchedulerState :=
  if ss_closing s && bool_decide (ss_active s = ∅)
  then set_closing (ss_closing s) [] (send (map ShutDown (ss_shutdown_waiters s)) s) else s.
Definition reject_item (t : Turn) (s : SchedulerState) (entry : PriorityItem QueuedAdmission) : SchedulerState :=
  let item := it_value entry in
  let s := set_counters (count_rejected (ss_counters s)) s in
  answer_waiter t (qa_id item) (inl Refusal.Closed) (reject_pending_quotas (qa_quotas item) s).
Definition release (t : Turn) (id : Z) (s : SchedulerState) : SchedulerState :=
  match ss_active s !! id with
  | Some active =>
      let s := set_active (delete id (ss_active s)) s in
      let s := set_counters (count_released (ss_counters s)) s in
      release_active_quotas (aa_quota_identities active) false s
  | None =>
      match remove_pending id s with
      | (Some item, s) => cancel_pending t item s
      | (None, s) => s
      end
  end.
Definition shutdown (t : Turn) (waiter : Z) (s : SchedulerState) : SchedulerState :=
  let s := set_closing true (ss_shutdown_waiters s) s in
  let '(items, q) := drain_queue (ss_pending s) in
  let s := fold_left (reject_item t) items (set_pending q s) in
  let s := set_closing true (ss_shutdown_waiters s ++ [waiter]) s in
  finish_shutdown_if_idle s.
Definition handle (t : Turn) (m : SchedulerMessage) (s : SchedulerState) : SchedulerState :=
  match m with
  | Enqueue item => enqueue t item s
  | Release id => finish_shutdown_if_idle (dispatch t (release t id s))
  | Stats reply => send [RepliedStats reply (snapshot s)] s
  | Health reply => let s := apply_aging t s in send [RepliedHealth reply (health_snapshot s)] s
  | QuotaStats quota reply => send [RepliedQuota reply (quota_snapshot quota s)] s
  | QuotaHealth quota reply => send [RepliedQuotaHealth reply (quota_health quota s)] s
  | Shutdown waiter => shutdown t waiter s
  end.
(** The loop ends once a shutdown was requested, served and nothing is active. *)
Definition is_finished (s : SchedulerState) : bool :=
  ss_closing s && bool_decide (ss_active s = ∅) && bool_decide (ss_shutdown_waiters s = []).
End Actor.
