(* ===== verification/SchedulerFacts.v ===== *)
(** What the scheduler's actor keeps: its accounting is exact after every message, no
    waiter that could start is left waiting, the order of admission is priority with
    aging and then arrival. *)
From stdpp Require Import gmap sets sorting.
From S2P Require Import Prelude Text Planning Goal Scheduler.

Lemma Forall_sublist_of {A} (P : A -> Prop) l k : sublist l k -> Forall P k -> Forall P l.
Proof. induction 1; inversion 1; subst; auto. Qed.
Lemma sublist_map {A B} (f : A -> B) l k : sublist l k -> sublist (map f l) (map f k).
Proof. induction 1; cbn; by constructor. Qed.
Lemma StronglySorted_sublist {A} (R : A -> A -> Prop) l k : sublist l k -> StronglySorted R k -> StronglySorted R l.
Proof.
  induction 1; intros Hs; [done|..]; inversion Hs; subst; [|by auto].
  constructor; [by auto|]. by eapply Forall_sublist_of.
Qed.

(** ** What Lane promises of its queue *)
Section Order.
Context {V : Type}.
Implicit Types (a b : PriorityItem V) (l : list (PriorityItem V)).
Definition item_lt a b : Prop :=
  it_priority a < it_priority b \/ it_priority a = it_priority b /\ it_sequence a < it_sequence b.
Definition item_ordered l : Prop := StronglySorted item_lt l.
Lemma item_lt_trans a b c : item_lt a b -> item_lt b c -> item_lt a c.
Proof. unfold item_lt. lia. Qed.
Lemma item_lt_leb a b : item_lt a b -> item_leb a b = true /\ item_leb b a = false.
Proof. unfold item_lt, item_leb. lia. Qed.
Lemma item_leb_total a b : it_sequence a <> it_sequence b -> item_leb a b = false -> item_lt b a.
Proof. unfold item_lt, item_leb. lia. Qed.
Lemma item_leb_lt a b : it_sequence a <> it_sequence b -> item_leb a b = true -> item_lt a b.
Proof. unfold item_lt, item_leb. lia. Qed.
Lemma insert_item_ordered x l :
  item_ordered l -> Forall (fun y => it_sequence x <> it_sequence y) l -> item_ordered (insert_sorted item_leb x l).
Proof.
  induction 1 as [|y l Hl IH Hy]; intros Hx; cbn; [by repeat constructor|]. inversion Hx as [|?? Hxy Hxl]; subst.
  destruct (item_leb x y) eqn:E.
  - apply item_leb_lt in E; [|done]. constructor; [by constructor|]. constructor; [done|].
    eapply List.Forall_impl; [|exact Hy]. intros z. by apply item_lt_trans.
  - apply item_leb_total in E; [|done]. constructor; [by apply IH|]. rewrite insert_sorted_perm. by constructor.
Qed.
Lemma insert_item_last x l : Forall (fun y => item_lt y x) l -> insert_sorted item_leb x l = l ++ [x].
Proof.
  induction 1 as [|y l Hy Hl IH]; [done|]. cbn. destruct (item_lt_leb _ _ Hy) as [_ ->]. by rewrite IH.
Qed.
End Order.
Class StableQueue (Q V : Type) `{PriorityQueue Q V} : Type := {
  next_sequence : Q -> Z;
  ordered_new : queue_ordered queue_new = [];
  ordered_push p v q :
    queue_ordered (queue_push p v q) = insert_sorted item_leb (mkItem p (next_sequence q) v) (queue_ordered q);
  next_push p v q : next_sequence q < next_sequence (queue_push p v q);
  pop_empty q : queue_ordered q = [] -> queue_pop q = None;
  pop_first q item items : queue_ordered q = item :: items ->
    exists q', queue_pop q = Some (item, q') /\ queue_ordered q' = items /\ next_sequence q' = next_sequence q;
  ordered_restore item q : queue_ordered (queue_restore item q) = insert_sorted item_leb item (queue_ordered q);
  next_restore item q : next_sequence (queue_restore item q) = next_sequence q;
}.

Section Queue.
Context {Q V : Type} `{StableQueue Q V}.
Implicit Types (q : Q) (l : list (PriorityItem V)).
Definition queue_ok q : Prop :=
  item_ordered (queue_ordered q) /\ Forall (fun item => it_sequence item < next_sequence q) (queue_ordered q)
  /\ NoDup (map it_sequence (queue_ordered q)).
Lemma empty_ok q : queue_ordered q = [] -> queue_ok q.
Proof. unfold queue_ok. intros ->. repeat constructor. Qed.
Lemma drain_from_spec fuel q :
  (length (queue_ordered q) < fuel)%nat ->
  exists q', drain_from fuel q = (queue_ordered q, q') /\ queue_ordered q' = [] /\ next_sequence q' = next_sequence q.
Proof.
  revert q. induction fuel as [|fuel IH]; intros q Hf; [lia|]. cbn.
  destruct (queue_ordered q) as [|item items] eqn:E.
  - rewrite pop_empty by done. by exists q.
  - destruct (pop_first _ _ _ E) as (q1 & -> & <- & <-). cbn in Hf.
    destruct (IH q1 ltac:(lia)) as (q' & -> & Ho & Hn). by exists q'.
Qed.
Lemma drain_spec q :
  exists q', drain_queue q = (queue_ordered q, q') /\ queue_ordered q' = [] /\ next_sequence q' = next_sequence q.
Proof. apply drain_from_spec. unfold queue_len. lia. Qed.
Lemma restore_all_spec l q :
  item_ordered (queue_ordered q ++ l) ->
  queue_ordered (restore_all l q) = queue_ordered q ++ l /\ next_sequence (restore_all l q) = next_sequence q.
Proof.
  revert q. induction l as [|x l IH]; intros q Hl; cbn; [by rewrite app_nil_r|].
  assert (E : queue_ordered (queue_restore x q) = queue_ordered q ++ [x]).
  { rewrite ordered_restore. apply insert_item_last. apply StronglySorted_app in Hl as (Hx & _ & _).
    apply List.Forall_forall. intros y Hy. apply Hx; [by apply list_elem_of_In|by left]. }
  change (fold_left _ l ?q0) with (restore_all l q0). destruct (IH (queue_restore x q)) as [Eo En].
  - by rewrite E, <-app_assoc.
  - by rewrite Eo, E, En, <-app_assoc, next_restore.
Qed.
(** A filtered queue: what is left of the items, in the same order. *)
Lemma restore_sublist l q q' :
  queue_ok q -> queue_ordered q' = [] -> next_sequence q' = next_sequence q -> sublist l (queue_ordered q) ->
  queue_ordered (restore_all l q') = l /\ queue_ok (restore_all l q').
Proof.
  intros (Ho & Hs & Hn) E En Hl. destruct (restore_all_spec l q') as [El Enl].
  - rewrite E. cbn. by eapply StronglySorted_sublist.
  - rewrite E in El. cbn in El. split; [done|]. unfold queue_ok. rewrite El, Enl, En. split_and!.
    + by eapply StronglySorted_sublist.
    + by eapply Forall_sublist_of.
    + eapply sublist_NoDup; [exact Hn|]. apply (sublist_map it_sequence _ _ Hl).
Qed.
Lemma push_ok p v q : queue_ok q -> queue_ok (queue_push p v q).
Proof.
  intros (Ho & Hs & Hn). unfold queue_ok. rewrite ordered_push. split_and!.
  - apply insert_item_ordered; [done|]. eapply List.Forall_impl; [|exact Hs]. cbn. lia.
  - pose proof (next_push p v q). rewrite insert_sorted_perm. constructor; [done|].
    eapply List.Forall_impl; [|exact Hs]. cbn. lia.
  - rewrite insert_sorted_perm. cbn. constructor; [|done]. intros (e & Ee & He)%list_elem_of_In%in_map_iff.
    rewrite List.Forall_forall in Hs. specialize (Hs _ He). lia.
Qed.
End Queue.

(** ** Accounting of quotas

    Reservations are lists of quota keys, one per waiting or running admission. *)
Definition keys_of (item : QueuedAdmission) : list str := map quota_key (qa_quotas item).
Definition uses (key : str) (keys : list str) : bool := existsb (str_eqb key) keys.
Definition count (key : str) (l : list (list str)) : Z := Z.of_nat (length (List.filter (uses key) l)).
Definition accounted (key : str) (pending active : list (list str)) (state : option QuotaState) : Prop :=
  match state with
  | Some s => qs_active s = count key active /\ qs_pending s = count key pending /\ idle s = false
              /\ 0 < qs_max_active s <= u64_max /\ qs_active s <= qs_max_active s /\ ei_digest (qs_identity s) = key
  | None => count key active = 0 /\ count key pending = 0
  end.
Definition accounts (quotas : gmap str QuotaState) (pending active : list (list str)) : Prop :=
  forall key, accounted key pending active (quotas !! key).
Lemma uses_In key keys : uses key keys = true <-> In key keys.
Proof. unfold uses. rewrite existsb_exists. split; [intros (y & Hy & ->%str_eqb_spec); done|intros Hx; exists key; by rewrite str_eqb_refl]. Qed.
Lemma count_key_cons key keys l : count key (keys :: l) = count key l + (if uses key keys then 1 else 0).
Proof. unfold count. cbn. destruct (uses key keys); cbn [length]; lia. Qed.
Lemma count_perm key l k : l ≡ₚ k -> count key l = count key k.
Proof. intros E. unfold count. f_equal. induction E; cbn; repeat case_match; cbn; lia. Qed.
Lemma count_nonneg key l : 0 <= count key l.
Proof. unfold count. lia. Qed.
Lemma count_le key l : count key l <= Z.of_nat (length l).
Proof. unfold count. pose proof (List.filter_length_le (uses key) l). lia. Qed.
Lemma count_In key keys l : In keys l -> In key keys -> 0 < count key l.
Proof.
  intros Hl Hk%uses_In. unfold count. enough (0 < length (List.filter (uses key) l))%nat by lia.
  assert (Hf : In keys (List.filter (uses key) l)) by by apply filter_In. by destruct (List.filter _ l); [destruct Hf|cbn; lia].
Qed.
Lemma accounts_perm quotas p p' a a' : p ≡ₚ p' -> a ≡ₚ a' -> accounts quotas p a -> accounts quotas p' a'.
Proof.
  intros Hp Ha Hq key. specialize (Hq key). unfold accounted in *.
  by rewrite <-(count_perm key _ _ Hp), <-(count_perm key _ _ Ha).
Qed.
Lemma saturating_add_1 n m : n < m <= u64_max -> saturating_add n 1 = n + 1.
Proof. unfold saturating_add. lia. Qed.
Lemma saturating_sub_1 n : 0 < n -> saturating_sub n 1 = n - 1.
Proof. unfold saturating_sub. lia. Qed.

(** Loops over distinct keys. *)
Lemma lookup_alter_quotas f keys quotas key :
  NoDup keys -> alter_quotas f keys quotas !! key = if uses key keys then f <$> quotas !! key else quotas !! key.
Proof.
  unfold alter_quotas. intros Hn. revert quotas. induction Hn as [|k keys Hk Hn IH]; intros quotas; [done|].
  cbn [fold_left uses existsb]. rewrite IH. destruct (str_eqb key k) eqn:E; cbn [orb].
  - apply str_eqb_spec in E as ->. destruct (uses k keys) eqn:Eu; [|by rewrite lookup_alter_eq].
    apply uses_In, list_elem_of_In in Eu. done.
  - apply str_eqb_ne in E. change (existsb (str_eqb key) keys) with (uses key keys). by rewrite lookup_alter_ne by done.
Qed.

(** A waiting admission starts. *)
Lemma accounts_start quotas keys pending active :
  NoDup keys -> (forall key, In key keys -> exists s, quotas !! key = Some s /\ qs_active s < qs_max_active s) ->
  accounts quotas (keys :: pending) active -> accounts (alter_quotas quota_start keys quotas) pending (keys :: active).
Proof.
  intros Hn Ha Hq key. specialize (Hq key). rewrite lookup_alter_quotas by done. unfold accounted in *.
  rewrite count_key_cons in *. destruct (uses key keys) eqn:E.
  - apply uses_In in E. destruct (Ha _ E) as (s & Es & Hm). rewrite Es in *.
    destruct Hq as (E1 & E2 & Hi & Hb & Hl & Hd). unfold idle. cbn. rewrite !(saturating_add_1 _ (qs_max_active s)) by lia.
    pose proof (count_nonneg key pending). pose proof (count_nonneg key active).
    rewrite !saturating_sub_1 by lia. split_and!; lia || done.
  - destruct (quotas !! key); by rewrite Z.add_0_r in *.
Qed.
Lemma accounts_admit quotas keys wait pending active :
  NoDup keys -> accounts quotas pending active -> accounts (alter_quotas (quota_admit wait) keys quotas) pending active.
Proof.
  intros Hn Hq key. specialize (Hq key). rewrite lookup_alter_quotas by done. destruct (uses key keys); [|done].
  by destruct (quotas !! key).
Qed.

(** ** Recently idle quotas: bounded, distinct, apart from the live ones *)
Definition kept (r : gmap str QuotaState) (order : list str) : Prop :=
  NoDup order /\ forall key, In key order <-> is_Some (r !! key).
Lemma kept_forget r order key :
  kept r order -> kept (delete key r) (List.filter (fun candidate => negb (str_eqb candidate key)) order).
Proof.
  intros [Hn Hk]. split; [by apply NoDup_ListNoDup, List.NoDup_filter, NoDup_ListNoDup|]. intros k. rewrite filter_In, Hk, negb_true_iff, str_eqb_ne.
  rewrite lookup_delete_is_Some. naive_solver.
Qed.
Lemma kept_add r order key state : kept r order -> r !! key = None -> kept (<[key := state]> r) (order ++ [key]).
Proof.
  intros [Hn Hk] Hr. split.
  - apply list.NoDup_app. split_and!; [done| |by apply list.NoDup_singleton]. intros k Hin%list_elem_of_In ->%list_elem_of_singleton.
    apply Hk in Hin. rewrite Hr in Hin. by destruct Hin.
  - intros k. rewrite in_app_iff, Hk, lookup_insert_is_Some. cbn. split; [intros [?|[<-|[]]]|intros [<-|[_ ?]]]; auto.
    destruct (decide (key = k)); auto.
Qed.
Lemma evict_spec fuel r order :
  kept r order -> (length order <= fuel + 64)%nat ->
  let '(r', order') := evict fuel r order in
  kept r' order' /\ (length order' <= 64)%nat /\ r' ⊆ r.
Proof.
  revert r order. induction fuel as [|fuel IH]; intros r order Hk Hl; cbn; [by split|].
  unfold TASK_SCHEDULER_QUOTA_HEALTH_RETENTION. destruct (Z.ltb_spec 64 (Z.of_nat (length order))).
  - destruct order as [|k order]; [done|]. cbn in Hl. destruct Hk as [Hn Hk]. apply list.NoDup_cons in Hn as [Hk' Hn].
    specialize (IH (delete k r) order). destruct (evict fuel _ _) as [r' order']. destruct IH as (H1 & H2 & H3); [|lia|].
    + split; [done|]. intros key. rewrite lookup_delete_is_Some, <-Hk. cbn. rewrite <-list_elem_of_In.
      split; [intros Hin; split; [congruence|by right]|intros [? [?|?]]; congruence || done].
    + split_and!; [done|done|]. etransitivity; [exact H3|apply delete_subseteq].
  - split_and!; [done|lia|done].
Qed.

Lemma NoDup_map_key {A B} (f : A -> B) l x y : NoDup (map f l) -> In x l -> In y l -> f x = f y -> x = y.
Proof.
  induction l as [|z l IH]; cbn; [done|]. intros [Hz Hn]%list.NoDup_cons [->|Hx] [->|Hy] E; [done|..]; [| |by apply IH];
    destruct Hz; apply list_elem_of_In; [rewrite E|rewrite <-E]; by apply in_map.
Qed.

Section State.
Context {Q : Type} `{StableQueue Q QueuedAdmission}.
Implicit Types (s : SchedulerState (Q := Q)) (t : Turn).
Definition retention s : Prop :=
  kept (ss_retained s) (ss_retained_order s) /\ (length (ss_retained_order s) <= 64)%nat
  /\ forall key x, ss_retained s !! key = Some x -> ss_quotas s !! key = None /\ idle x = true.
Lemma retain_spec key state s :
  retention s -> ss_quotas s !! key = None -> idle state = true -> retention (retain_quota_health key state s).
Proof.
  intros (Hk & Hl & Hd) Hq Hi. unfold retain_quota_health.
  assert (Hk' := kept_add _ _ key state (kept_forget _ _ key Hk) ltac:(apply lookup_delete_eq)).
  match goal with |- context[evict ?n ?r ?o] => pose proof (evict_spec n r o Hk' ltac:(lia)) as He; destruct (evict n r o) as [r' o'] end.
  destruct He as (H1 & H2 & H3). split_and!; [done..|]. intros k x Hr. cbn in *.
  pose proof (lookup_weaken _ _ _ _ Hr H3) as Hx.
  apply lookup_insert_Some in Hx as [[<- <-]|[_ [_ Hx]%lookup_delete_Some]]; [done|by apply (Hd k)].
Qed.
(** Everything but quotas and their retained records. *)
Definition reframed s s' : Prop := exists q r o, s' = set_quotas q (set_retained r o s).
#[global] Instance reframed_refl : Reflexive reframed.
Proof. intros s. exists (ss_quotas s), (ss_retained s), (ss_retained_order s). by destruct s. Qed.
#[global] Instance reframed_trans : Transitive reframed.
Proof. intros s ? ? (q & r & o & ->) (q' & r' & o' & ->). by exists q', r', o'. Qed.
Lemma retain_reframed key state s : reframed s (retain_quota_health key state s).
Proof. unfold retain_quota_health. destruct (evict _ _ _) as [r o]. exists (ss_quotas s), r, o. by destruct s. Qed.
Lemma set_quotas_reframed q s : reframed s (set_quotas q s).
Proof. exists q, (ss_retained s), (ss_retained_order s). by destruct s. Qed.
Lemma settle_reframed f keys s : reframed s (settle_quotas f keys s).
Proof.
  unfold settle_quotas. revert s. induction keys as [|key keys IH]; intros s; [done|]. cbn.
  etransitivity; [|apply IH]. unfold settle_quota, prune_idle_quota. cbn. 
  repeat case_match; try apply set_quotas_reframed. etransitivity; [|apply retain_reframed].
  etransitivity; apply set_quotas_reframed.
Qed.
Lemma retain_quotas key state s : ss_quotas (retain_quota_health key state s) = ss_quotas s.
Proof. unfold retain_quota_health. by destruct (evict _ _ _). Qed.
Definition settled_quota (f : QuotaState -> QuotaState) (o : option QuotaState) : option QuotaState :=
  x ← o; if idle (f x) then None else Some (f x).
Lemma lookup_settle f key s k :
  ss_quotas (settle_quota f key s) !! k = if str_eqb k key then settled_quota f (ss_quotas s !! k) else ss_quotas s !! k.
Proof.
  unfold settle_quota, prune_idle_quota, settled_quota. cbn. rewrite lookup_alter_eq. destruct (str_eqb k key) eqn:E.
  - apply str_eqb_spec in E as ->. destruct (ss_quotas s !! key) as [x|] eqn:Ex; cbn; [|by rewrite lookup_alter_eq, Ex].
    destruct (idle (f x)); cbn; [by rewrite retain_quotas; cbn; rewrite lookup_delete_eq|by rewrite lookup_alter_eq, Ex].
  - apply str_eqb_ne in E. destruct (ss_quotas s !! key) as [x|]; cbn; [|by rewrite lookup_alter_ne].
    destruct (idle (f x)); [rewrite retain_quotas; cbn; rewrite lookup_delete_ne by done|cbn]; by rewrite lookup_alter_ne.
Qed.
Lemma lookup_settles f keys s k :
  NoDup keys -> ss_quotas (settle_quotas f keys s) !! k = if uses k keys then settled_quota f (ss_quotas s !! k) else ss_quotas s !! k.
Proof.
  unfold settle_quotas. intros Hn. revert s. induction Hn as [|key keys Hk Hn IH]; intros s; [done|].
  cbn [fold_left uses existsb]. rewrite IH, lookup_settle. destruct (str_eqb k key) eqn:E; cbn [orb]; [|done].
  apply str_eqb_spec in E as ->. destruct (uses key keys) eqn:Eu; [|done]. apply uses_In, list_elem_of_In in Eu. done.
Qed.
Lemma settle_retention f keys s : retention s -> retention (settle_quotas f keys s).
Proof.
  unfold settle_quotas. revert s. induction keys as [|key keys IH]; intros s Hs; [done|]. cbn. apply IH.
  unfold settle_quota, prune_idle_quota. cbn.
  assert (Ha : retention (set_quotas (alter f key (ss_quotas s)) s)).
  { destruct Hs as (? & ? & Hd). split_and!; [done..|]. intros k x Hr. cbn in *. rewrite lookup_alter_None. by apply Hd. }
  destruct (alter f key (ss_quotas s) !! key) as [x|]; [|done]. destruct (idle x) eqn:Ei; [|done].
  apply retain_spec; [|apply lookup_delete_eq|done]. destruct Ha as (? & ? & Hd). split_and!; [done..|]. intros k y Hr. cbn in *.
  rewrite lookup_delete_None. destruct (Hd _ _ Hr). auto.
Qed.

(** An admission ends: its reservations are given back. *)
Lemma accounts_settle f keys p a p' a' s :
  NoDup keys -> accounts (ss_quotas s) p a ->
  (forall key, count key p' <= count key p /\ count key a' <= count key a) ->
  (forall key, uses key keys = false -> count key p' = count key p /\ count key a' = count key a) ->
  (forall key x, uses key keys = true -> accounted key p a (Some x) ->
     qs_active (f x) = count key a' /\ qs_pending (f x) = count key p'
     /\ qs_max_active (f x) = qs_max_active x /\ qs_identity (f x) = qs_identity x) ->
  accounts (ss_quotas (settle_quotas f keys s)) p' a'.
Proof.
  intros Hn Hq Hle Hout Hin key. specialize (Hq key). rewrite lookup_settles by done. destruct (uses key keys) eqn:Eu.
  - destruct (ss_quotas s !! key) as [x|]; cbn.
    + destruct (Hin key x Eu Hq) as (E1 & E2 & E3 & E4). destruct Hq as (F1 & F2 & _ & F4 & F5 & F6).
      destruct (Hle key). destruct (idle (f x)) eqn:Ei; cbn.
      * unfold idle in Ei. lia.
      * split_and!; rewrite ?E3, ?E4; done || lia.
    + destruct (Hle key). cbn in Hq. pose proof (count_nonneg key p'). pose proof (count_nonneg key a'). lia.
  - destruct (Hout _ Eu) as [E1 E2]. unfold accounted in *. by rewrite E1, E2.
Qed.
Lemma uses_count key keys l : uses key keys = true -> count key (keys :: l) = count key l + 1.
Proof. rewrite count_key_cons. by intros ->. Qed.
Lemma count_cons_le key keys l : count key l <= count key (keys :: l).
Proof. rewrite count_key_cons. case_match; lia. Qed.
Lemma count_cons_unused key keys l : uses key keys = false -> count key l = count key (keys :: l).
Proof. rewrite count_key_cons. intros ->. lia. Qed.
Lemma accounts_release cancelled keys p a s :
  NoDup keys -> accounts (ss_quotas s) p (keys :: a) ->
  accounts (ss_quotas (settle_quotas (quota_release cancelled) keys s)) p a.
Proof.
  intros Hn Hq. apply (accounts_settle _ _ p (keys :: a)); [done..| | |].
  - intros key. split; [done|apply count_cons_le].
  - intros key Hu. split; [done|by apply count_cons_unused].
  - intros key x Hu (E1 & E2 & _). cbn. rewrite E1, uses_count by done. pose proof (count_nonneg key a).
    split_and!; [|done..]. unfold saturating_sub. lia.
Qed.
Lemma accounts_drop f keys p a s :
  (forall x, qs_active (f x) = qs_active x /\ qs_pending (f x) = saturating_sub (qs_pending x) 1
             /\ qs_max_active (f x) = qs_max_active x /\ qs_identity (f x) = qs_identity x) ->
  NoDup keys -> accounts (ss_quotas s) (keys :: p) a -> accounts (ss_quotas (settle_quotas f keys s)) p a.
Proof.
  intros Hf Hn Hq. apply (accounts_settle _ _ (keys :: p) a); [done..| | |].
  - intros key. split; [apply count_cons_le|done].
  - intros key Hu. split; [by apply count_cons_unused|done].
  - intros key x Hu (E1 & E2 & _). destruct (Hf x) as (-> & -> & -> & ->). rewrite E2, uses_count by done.
    pose proof (count_nonneg key p). split_and!; [done| |done..]. unfold saturating_sub. lia.
Qed.

(** An admission is registered: its quotas exist with its limits, then count it. *)
Definition valid_quotas (quotas : list TaskSchedulerQuota) : Prop :=
  NoDup (map quota_key quotas) /\ Forall (fun q => 0 < qu_max_active q <= u64_max) quotas.
Definition registered (quotas : gmap str QuotaState) (quota : TaskSchedulerQuota) : Prop :=
  exists x, quotas !! quota_key quota = Some x /\ qs_identity x = qu_identity quota /\ qs_max_active x = qu_max_active quota.
Lemma same_quota_spec x quota :
  same_quota x quota = true <-> qs_identity x = qu_identity quota /\ qs_max_active x = qu_max_active quota.
Proof. unfold same_quota. rewrite andb_true_iff, bool_decide_eq_true, Z.eqb_eq. done. Qed.
Definition registers (quotas : list TaskSchedulerQuota) s s' : Prop :=
  reframed s s' /\ retention s'
  /\ (forall k x, ss_quotas s !! k = Some x -> ss_quotas s' !! k = Some x)
  /\ (forall k, ss_quotas s !! k = None ->
        ~ In k (map quota_key quotas) /\ ss_quotas s' !! k = None
        \/ exists quota x, In quota quotas /\ quota_key quota = k /\ ss_quotas s' !! k = Some x /\ idle x = true /\ same_quota x quota = true).
Lemma insert_registers quota s r o x :
  kept r o -> (length o <= 64)%nat -> (forall k y, r !! k = Some y -> k <> quota_key quota /\ ss_quotas s !! k = None /\ idle y = true) ->
  ss_quotas s !! quota_key quota = None -> idle x = true -> same_quota x quota = true ->
  registers [quota] s (set_quotas (<[quota_key quota := x]> (ss_quotas s)) (set_retained r o s)).
Proof.
  intros Hk Ho Hd Hn Hi Hs. split_and!; [by eexists _, _, _| | |].
  - split_and!; [done..|]. intros k y Hy. cbn in *. destruct (Hd _ _ Hy) as (Hne & ? & ?). by rewrite lookup_insert_ne.
  - intros k y Hy. cbn. rewrite lookup_insert_ne; [done|congruence].
  - intros k Hk'. cbn. destruct (decide (quota_key quota = k)) as [<-|Hne].
    + right. exists quota, x. rewrite lookup_insert_eq. auto.
    + left. rewrite lookup_insert_ne by done. split; [|done]. intros [?|[]]. done.
Qed.
Lemma register_quota_spec quota s : retention s -> registers [quota] s (register_quota s quota).
Proof.
  intros Hr. unfold register_quota. destruct (ss_quotas s !! quota_key quota) as [x|] eqn:Eq.
  - split_and!; try done. intros k Hk. left. split; [|done]. intros [<-|[]]. congruence.
  - destruct Hr as (Hk & Hl & Hd). unfold take_retained_quota_health.
    assert (Hf : idle (new_quota_state (qu_identity quota) (qu_max_active quota)) = true
                 /\ same_quota (new_quota_state (qu_identity quota) (qu_max_active quota)) quota = true)
      by (split; [done|by apply same_quota_spec]).
    destruct (ss_retained s !! quota_key quota) as [y|] eqn:Ey; cbn [ss_quotas set_retained].
    + apply insert_registers; [by apply kept_forget|etransitivity; [apply List.filter_length_le|done]| |done|..].
      * intros k z [Hne Hz]%lookup_delete_Some. by destruct (Hd _ _ Hz).
      * destruct (same_quota y quota); [by apply (Hd (quota_key quota))|apply Hf].
      * destruct (same_quota y quota) eqn:Es; [done|apply Hf].
    + assert (Hn : forall k z, ss_retained s !! k = Some z -> k <> quota_key quota /\ ss_quotas s !! k = None /\ idle z = true)
        by (intros k z Hz; split; [congruence|by apply (Hd k)]).
      pose proof (insert_registers quota s _ _ _ Hk Hl Hn Eq (proj1 Hf) (proj2 Hf)) as Hs. by destruct s.
Qed.
Lemma registers_app qs qs' s s' s'' : registers qs s s' -> registers qs' s' s'' -> registers (qs ++ qs') s s''.
Proof.
  intros (F1 & _ & K1 & N1) (F2 & R2 & K2 & N2). split_and!; [by etransitivity|done|eauto|].
  intros k Hk. destruct (N1 k Hk) as [[Hn Hk']|(quota & x & Hin & Ek & Ex & Hx)].
  - destruct (N2 k Hk') as [[Hn' ?]|(quota & x & Hin & ?)].
    + left. rewrite map_app, in_app_iff. naive_solver.
    + right. exists quota, x. rewrite in_app_iff. auto.
  - right. exists quota, x. rewrite in_app_iff. split_and!; [by left|done|by apply K2|apply Hx..].
Qed.
Lemma register_all_spec quotas s : retention s -> registers quotas s (fold_left register_quota quotas s).
Proof.
  revert s. induction quotas as [|quota quotas IH]; intros s Hr; cbn.
  - split_and!; [done..|]. intros k Hk. left. split; [by intros []|done].
  - pose proof (register_quota_spec quota s Hr) as H1. apply (registers_app [quota] _ _ _ _ H1). apply IH, H1.
Qed.
(** The counters after an admission was registered and counted. *)
Lemma accounts_enqueue quotas p a s s' :
  registers quotas s s' -> (forall quota, In quota quotas -> conflicts s quota = false) -> valid_quotas quotas ->
  Z.of_nat (length p) < MAX_PENDING_ADMISSIONS -> accounts (ss_quotas s) p a ->
  accounts (alter_quotas quota_add_pending (map quota_key quotas) (ss_quotas s')) (map quota_key quotas :: p) a.
Proof.
  intros (_ & _ & K & N) Hc [Hn Hv] Hl Hq key. specialize (Hq key). rewrite lookup_alter_quotas by done. unfold accounted in *.
  rewrite count_key_cons. pose proof (count_le key p). unfold MAX_PENDING_ADMISSIONS in Hl. destruct (uses key _) eqn:Eu.
  - apply uses_In in Eu. destruct (ss_quotas s !! key) as [x|] eqn:Ex.
    + rewrite (K _ _ Ex). unfold idle. cbn. destruct Hq as (E1 & E2 & E3 & E4 & E5 & E6). pose proof (count_nonneg key a).
      rewrite !(saturating_add_1 _ 4097) by (unfold u64_max; lia). pose proof (count_nonneg key p). split_and!; lia || done.
    + destruct (N _ Ex) as [[? _]|(quota & x & Hin & Ek & -> & Hi & [Ei Em]%same_quota_spec)]; [done|].
      rewrite List.Forall_forall in Hv. specialize (Hv _ Hin). unfold idle in *. cbn.
      rewrite !(saturating_add_1 _ 4097) by (unfold u64_max; lia). rewrite Ei, Em. split_and!; lia || done.
  - rewrite Z.add_0_r. destruct (ss_quotas s !! key) as [x|] eqn:Ex; [by rewrite (K _ _ Ex)|].
    destruct (N _ Ex) as [[_ ->]|(quota & x & Hin & Ek & _)]; [done|]. apply not_true_iff_false in Eu. destruct Eu.
    apply uses_In. subst key. by apply in_map.
Qed.

(** ** Aging *)
Definition aged (c : TaskSchedulerConfig) (now : Z) (item : QueuedAdmission) : QueuedAdmission :=
  set_effective (aged_priority c now item) item.
Definition aged_entry (c : TaskSchedulerConfig) (now : Z) (e e' : PriorityItem QueuedAdmission) : Prop :=
  it_priority e' = aged_priority c now (it_value e) /\ it_value e' = aged c now (it_value e).
Definition earlier (e e' : PriorityItem QueuedAdmission) : Prop := it_sequence e < it_sequence e'.
Lemma fold_age_spec now l s : queue_ok (ss_pending s) ->
  exists q c l', fold_left (age_item now) l s = set_counters c (set_pending q s) /\ queue_ok q
    /\ queue_ordered q ≡ₚ queue_ordered (ss_pending s) ++ l' /\ Forall2 (aged_entry (ss_config s) now) l l'
    /\ StronglySorted earlier l' /\ Forall (fun e => next_sequence (ss_pending s) <= it_sequence e) l'.
Proof.
  revert s. induction l as [|e l IH]; intros s Hq; cbn.
  - exists (ss_pending s), (ss_counters s), []. rewrite app_nil_r. split; [by destruct s|]. split; [done|]. split_and!; constructor || done.
  - set (p := aged_priority (ss_config s) now (it_value e)). set (new := mkItem p (next_sequence (ss_pending s)) (aged (ss_config s) now (it_value e))).
    assert (Es : exists c, age_item now s e = set_counters c (set_pending (queue_push p (it_value new) (ss_pending s)) s)).
    { unfold age_item. cbn zeta. destruct (_ <? _); [by eexists|]. exists (ss_counters s). by destruct s. }
    destruct Es as (c1 & ->).
    match goal with |- context[fold_left _ l ?s1] => destruct (IH s1) as (q & c & l' & -> & Hok & Hp & Ha & Hs & Hn) end.
    { by apply push_ok. }
    cbn in *. exists q, c, (new :: l'). split; [done|]. split; [done|]. split_and!.
    + rewrite Hp, ordered_push, insert_sorted_perm. cbn. by rewrite Permutation_middle.
    + by constructor.
    + constructor; [done|]. eapply List.Forall_impl; [|exact Hn]. intros e'. unfold earlier. cbn.
      pose proof (next_push p (it_value new) (ss_pending s)). cbn in *. lia.
    + constructor; [done|]. eapply List.Forall_impl; [|exact Hn]. cbn.
      pose proof (next_push p (it_value new) (ss_pending s)). cbn in *. lia.
Qed.
Lemma sequence_leb_total (a b : PriorityItem QueuedAdmission) : sequence_leb a b = true \/ sequence_leb b a = true.
Proof. unfold sequence_leb. lia. Qed.
Lemma sequence_leb_trans (a b c : PriorityItem QueuedAdmission) :
  sequence_leb a b = true -> sequence_leb b c = true -> sequence_leb a c = true.
Proof. unfold sequence_leb. lia. Qed.
(** The queue after aging: the same admissions, each at its aged priority, with the
    order of arrival kept. *)
Lemma apply_aging_spec t s : queue_ok (ss_pending s) ->
  exists q c l l', apply_aging t s = set_counters c (set_pending q s) /\ queue_ok q
    /\ l ≡ₚ queue_ordered (ss_pending s) /\ l' ≡ₚ queue_ordered q /\ StronglySorted (fun a b => sequence_leb a b = true) l
    /\ Forall2 (aged_entry (ss_config s) (tn_now t)) l l' /\ StronglySorted earlier l'.
Proof.
  intros Hq. unfold apply_aging. case_bool_decide as En.
  - exists (ss_pending s), (ss_counters s), [], []. rewrite En. split; [by destruct s|]. split; [done|]. split_and!; constructor || done.
  - destruct (drain_spec (ss_pending s)) as (q0 & -> & E0 & N0).
    destruct (fold_age_spec (tn_now t) (sort_by sequence_leb (queue_ordered (ss_pending s))) (set_pending q0 s)) as (q & c & l' & -> & Hok & Hp & Ha & Hs & _).
    { by apply empty_ok. }
    exists q, c, (sort_by sequence_leb (queue_ordered (ss_pending s))), l'. cbn in *. rewrite E0 in Hp.
    split; [done|]. split; [done|]. split_and!; [apply sort_by_perm|by rewrite Hp| |done..].
    apply sort_by_ordered; [apply sequence_leb_total|apply sequence_leb_trans].
Qed.

(** ** The invariant of the actor *)
Definition items s : list QueuedAdmission := map it_value (queue_ordered (ss_pending s)).
Definition running s : list ActiveAdmission := map snd (map_to_list (ss_active s)).
Definition waiting_keys s : list (list str) := map keys_of (items s).
Definition running_keys s : list (list str) := map aa_quota_identities (running s).
Record sched_ok s : Prop := mkOk {
  ok_queue : queue_ok (ss_pending s);
  ok_bound : Z.of_nat (length (items s)) <= MAX_PENDING_ADMISSIONS;
  ok_ids : NoDup (map qa_id (items s));
  ok_apart id : In id (map qa_id (items s)) -> ss_active s !! id = None;
  ok_items : Forall (fun item => valid_quotas (qa_quotas item)) (items s);
  ok_limits : Forall (fun item => Forall (registered (ss_quotas s)) (qa_quotas item)) (items s);
  ok_running : Forall (fun a => NoDup (aa_quota_identities a)) (running s);
  ok_accounts : accounts (ss_quotas s) (waiting_keys s) (running_keys s);
  ok_global : global_active_count s <= cf_max_active (ss_config s);
  ok_retention : retention s;
  ok_closing : ss_closing s = true -> items s = [];
}.
(** No waiting admission could start. *)
Definition saturated s : Prop :=
  forall item, In item (items s) -> admissible s (global_active_count s <? cf_max_active (ss_config s)) item = false.

Lemma ok_counters c s : sched_ok s -> sched_ok (set_counters c s).
Proof. intros []. by split. Qed.
Lemma ok_send m s : sched_ok s -> sched_ok (send m s).
Proof. intros []. by split. Qed.
Lemma ok_answer t id a s : sched_ok s -> sched_ok (answer_waiter t id a s).
Proof. unfold answer_waiter. case_match; [apply ok_send|done]. Qed.
Lemma ok_waiters w s : sched_ok s -> sched_ok (set_closing (ss_closing s) w s).
Proof. intros []. by split. Qed.

(** Quotas may go away or change their counts, never their identity or limit. *)
Definition shrinks (q q' : gmap str QuotaState) : Prop := forall k x', q' !! k = Some x' ->
  exists x, q !! k = Some x /\ qs_identity x' = qs_identity x /\ qs_max_active x' = qs_max_active x.
#[global] Instance shrinks_refl : Reflexive shrinks.
Proof. intros q k x E. by exists x. Qed.
#[global] Instance shrinks_trans : Transitive shrinks.
Proof.
  intros q1 q2 q3 H12 H23 k x3 E3. destruct (H23 _ _ E3) as (x2 & E2 & -> & ->). destruct (H12 _ _ E2) as (x1 & E1 & -> & ->). by exists x1.
Qed.
Definition keeps_limits (f : QuotaState -> QuotaState) : Prop :=
  forall x, qs_identity (f x) = qs_identity x /\ qs_max_active (f x) = qs_max_active x.
Lemma shrinks_alter f keys q : keeps_limits f -> NoDup keys -> shrinks q (alter_quotas f keys q).
Proof.
  intros Hf Hn k x'. rewrite lookup_alter_quotas by done. destruct (uses k keys); [|by exists x'].
  intros (x & -> & Ex)%fmap_Some. exists x. by destruct (Hf x) as [<- <-]; subst.
Qed.
Lemma shrinks_settle f keys s : keeps_limits f -> NoDup keys -> shrinks (ss_quotas s) (ss_quotas (settle_quotas f keys s)).
Proof.
  intros Hf Hn k x'. rewrite lookup_settles by done. destruct (uses k keys); [|by exists x']. unfold settled_quota.
  intros (x & -> & Ex)%bind_Some. exists x. destruct (idle (f x)); [done|]. injection Ex as <-. by destruct (Hf x).
Qed.
(** A quota in use is live, so it keeps the limit it was registered with. *)
Lemma live_quota quotas p a key :
  accounts quotas p a -> 0 < count key p \/ 0 < count key a -> exists x, quotas !! key = Some x.
Proof. intros Hq Hc. specialize (Hq key). destruct (quotas !! key) as [x|]; [by exists x|]. cbn in Hq. lia. Qed.
Lemma registered_kept q q' p a quota :
  shrinks q q' -> accounts q' p a -> 0 < count (quota_key quota) p \/ 0 < count (quota_key quota) a ->
  registered q quota -> registered q' quota.
Proof.
  intros Hs Hq Hc (x & Ex & Ei & Em). destruct (live_quota _ _ _ _ Hq Hc) as (x' & Ex'). exists x'.
  destruct (Hs _ _ Ex') as (y & Ey & -> & ->). assert (y = x) as -> by congruence. done.
Qed.
Lemma limits_kept q q' (l : list QueuedAdmission) a :
  shrinks q q' -> accounts q' (map keys_of l) a ->
  Forall (fun item => Forall (registered q) (qa_quotas item)) l -> Forall (fun item => Forall (registered q') (qa_quotas item)) l.
Proof.
  rewrite !List.Forall_forall. intros Hs Hq Hl item Hi. specialize (Hl _ Hi). rewrite List.Forall_forall in *.
  intros quota Hin. eapply registered_kept; [done..| |by apply Hl]. left. eapply count_In; [by apply in_map|by apply in_map].
Qed.

(** ** Steps that keep the invariant *)
Lemma accounts_swap q p p' a a' : accounts q p a -> p ≡ₚ p' -> a ≡ₚ a' -> accounts q p' a'.
Proof. intros Hq Hp Ha. by eapply accounts_perm. Qed.
(** The queue is rebuilt with the same admissions. *)
Lemma ok_requeue q g s :
  (forall item, qa_id (g item) = qa_id item /\ qa_quotas (g item) = qa_quotas item) ->
  queue_ok q -> items (set_pending q s) ≡ₚ map g (items s) -> sched_ok s -> sched_ok (set_pending q s).
Proof.
  intros Hg Hq Hp [Hqueue Hb Hi Ha Hv Hl Hr Hc Hgl Hret Hcl].
  assert (Ei : map qa_id (items (set_pending q s)) ≡ₚ map qa_id (items s)).
  { rewrite Hp, map_map. apply Permutation_refl', map_ext. intros item. by destruct (Hg item). }
  assert (Hall : forall P : list TaskSchedulerQuota -> Prop, Forall (fun item => P (qa_quotas item)) (items s) ->
            Forall (fun item => P (qa_quotas item)) (items (set_pending q s))).
  { intros P. rewrite Hp, Forall_map. apply List.Forall_impl. intros item. by destruct (Hg item) as [_ ->]. }
  split; try done.
  - apply Permutation_length in Hp. rewrite length_map in Hp. by rewrite Hp.
  - by rewrite Ei.
  - intros id. rewrite Ei. apply Ha.
  - by apply Hall.
  - by apply (Hall (Forall (registered (ss_quotas s)))).
  - eapply accounts_swap; [exact Hc| |done]. unfold waiting_keys. rewrite Hp, map_map.
    apply Permutation_refl', map_ext. intros item. unfold keys_of. by destruct (Hg item) as [_ ->].
  - intros Hcl'. rewrite Hcl in Hp by done. by apply Permutation_nil.
Qed.
Lemma aging_ok t s : sched_ok s -> sched_ok (apply_aging t s).
Proof.
  intros Hok. destruct (apply_aging_spec t s (ok_queue _ Hok)) as (q & c & l & l' & -> & Hq & Hl & Hl' & _ & Ha & _).
  apply ok_counters. apply (ok_requeue q (aged (ss_config s) (tn_now t))); [by intros|done| |done].
  unfold items. cbn. rewrite <-Hl, <-Hl', map_map. apply Permutation_refl'. clear Hl Hl'. induction Ha as [|e e' l l' [_ E] Ha IH]; cbn; [done|].
  by rewrite E, IH.
Qed.
(** An admission leaves the queue. *)
Definition leaves (item : QueuedAdmission) (q : Q) s : Prop := queue_ok q /\ items s ≡ₚ item :: items (set_pending q s).
Lemma leaves_facts item q s : leaves item q s -> sched_ok s ->
  ss_active s !! qa_id item = None /\ valid_quotas (qa_quotas item) /\ NoDup (keys_of item)
  /\ ~ In (qa_id item) (map qa_id (items (set_pending q s))) /\ NoDup (map qa_id (items (set_pending q s)))
  /\ (forall P, Forall P (items s) -> Forall P (items (set_pending q s)))
  /\ accounts (ss_quotas s) (keys_of item :: waiting_keys (set_pending q s)) (running_keys s)
  /\ Z.of_nat (length (items (set_pending q s))) <= MAX_PENDING_ADMISSIONS /\ ss_closing s = false.
Proof.
  intros [Hq Hp] Hok. pose proof (ok_ids _ Hok) as Hi. rewrite Hp in Hi. cbn in Hi. apply list.NoDup_cons in Hi as [Hi Hn].
  assert (Hin : In item (items s)) by (apply list_elem_of_In; rewrite Hp; by left).
  pose proof (ok_items _ Hok) as Hv. rewrite List.Forall_forall in Hv.
  split_and!; try done.
  - by apply (ok_apart _ Hok), in_map.
  - by apply Hv.
  - apply (Hv _ Hin).
  - by rewrite <-list_elem_of_In.
  - intros P. rewrite Hp. by inversion 1.
  - eapply accounts_swap; [apply (ok_accounts _ Hok)| |done]. unfold waiting_keys. by rewrite Hp.
  - pose proof (ok_bound _ Hok) as Hb. rewrite Hp in Hb. cbn [length] in Hb. lia.
  - destruct (ss_closing s) eqn:E; [|done]. by rewrite (ok_closing _ Hok) in Hin.
Qed.
Lemma ok_apart_less item q s id : leaves item q s -> sched_ok s ->
  In id (map qa_id (items (set_pending q s))) -> ss_active s !! id = None.
Proof. intros [_ Hp] Hok Hin. apply (ok_apart _ Hok). rewrite Hp. by right. Qed.
(** It is dropped: cancelled or refused. *)
Lemma drop_ok f item q s :
  (forall x, qs_active (f x) = qs_active x /\ qs_pending (f x) = saturating_sub (qs_pending x) 1
             /\ qs_max_active (f x) = qs_max_active x /\ qs_identity (f x) = qs_identity x) ->
  leaves item q s -> sched_ok s ->
  sched_ok (settle_quotas f (keys_of item) (set_pending q s))
  /\ shrinks (ss_quotas s) (ss_quotas (settle_quotas f (keys_of item) (set_pending q s))).
Proof.
  intros Hf Hl Hok. destruct (leaves_facts _ _ _ Hl Hok) as (_ & _ & Hn & _ & Hids & Hall & Hacc & Hb & Hclose).
  pose proof (accounts_drop f _ _ _ (set_pending q s) Hf Hn Hacc) as Ha.
  assert (Hs : shrinks (ss_quotas s) (ss_quotas (settle_quotas f (keys_of item) (set_pending q s)))).
  { apply (shrinks_settle f _ (set_pending q s)); [|done]. intros x. by destruct (Hf x) as (_ & _ & ? & ?). }
  pose proof (settle_retention f (keys_of item) (set_pending q s) (ok_retention _ Hok)) as Hr.
  destruct (settle_reframed f (keys_of item) (set_pending q s)) as (q' & r & o & E). rewrite E in *. split; [|done].
  pose proof Hok as []. split; try done.
  - apply Hl.
  - intros id. exact (ok_apart_less item q s id Hl Hok).
  - by apply Hall.
  - eapply limits_kept; [exact Hs|exact Ha|by apply Hall].
  - cbn. congruence.
Qed.
(** It starts. *)
Lemma quota_allows_spec s quotas : quota_allows s quotas = true <->
  forall key, In key (map quota_key quotas) -> exists x, ss_quotas s !! key = Some x /\ qs_active x < qs_max_active x.
Proof.
  unfold quota_allows. rewrite forallb_forall. split.
  - intros Hq key (quota & <- & Hin)%in_map_iff. specialize (Hq _ Hin). destruct (ss_quotas s !! quota_key quota) as [x|]; [|done].
    exists x. split; [done|]. by apply Z.ltb_lt.
  - intros Hk quota Hin. destruct (Hk (quota_key quota)) as (x & -> & Hx); [by apply in_map|]. by apply Z.ltb_lt.
Qed.
Lemma global_insert id a s : ss_active s !! id = None ->
  global_active_count (set_active (<[id := a]> (ss_active s)) s) = global_active_count s + (if aa_global_slot a then 1 else 0).
Proof.
  intros Hn. unfold global_active_count. cbn [ss_active set_active].
  assert (Hp : List.filter aa_global_slot (map snd (map_to_list (<[id := a]> (ss_active s))))
               ≡ₚ List.filter aa_global_slot (map snd ((id, a) :: map_to_list (ss_active s)))).
  { assert (Hf : forall l k : list ActiveAdmission, l ≡ₚ k -> List.filter aa_global_slot l ≡ₚ List.filter aa_global_slot k).
    { induction 1; cbn; repeat case_match; eauto using Permutation; by etransitivity. }
    apply Hf, Permutation_map, map_to_list_insert, Hn. }
  apply Permutation_length in Hp. rewrite Hp. cbn. destruct (aa_global_slot a); cbn [length]; lia.
Qed.
Lemma running_insert id a s : ss_active s !! id = None ->
  running (set_active (<[id := a]> (ss_active s)) s) ≡ₚ a :: running s.
Proof. intros Hn. unfold running. cbn. by rewrite map_to_list_insert. Qed.
Lemma running_delete id a s : ss_active s !! id = Some a ->
  running s ≡ₚ a :: running (set_active (delete id (ss_active s)) s).
Proof. intros Hs. unfold running. cbn. by rewrite <-(map_to_list_delete (ss_active s) id a Hs). Qed.
Definition started (item : QueuedAdmission) (q : Q) s : SchedulerState :=
  set_active (<[qa_id item := mkActive (qa_priority item) (keys_of item) (qa_global_slot item)]> (ss_active s))
    (set_quotas (alter_quotas quota_start (keys_of item) (ss_quotas s)) (set_pending q s)).
Lemma running_started item q s : ss_active s !! qa_id item = None ->
  running (started item q s) ≡ₚ mkActive (qa_priority item) (keys_of item) (qa_global_slot item) :: running s.
Proof. exact (running_insert _ _ (set_quotas _ (set_pending q s))). Qed.
Lemma global_started item q s : ss_active s !! qa_id item = None ->
  global_active_count (started item q s) = global_active_count s + (if qa_global_slot item then 1 else 0).
Proof. exact (global_insert _ (mkActive _ _ _) (set_quotas _ (set_pending q s))). Qed.
Lemma start_ok b item q s :
  leaves item q s -> sched_ok s -> admissible s b item = true -> (b = true -> global_active_count s < cf_max_active (ss_config s)) ->
  sched_ok (started item q s) /\ shrinks (ss_quotas s) (ss_quotas (started item q s)).
Proof.
  intros Hl Hok [Hg Hq]%andb_true_iff Hb. destruct (leaves_facts _ _ _ Hl Hok) as (Hf & _ & Hn & Hid & Hids & Hall & Hacc & Hlen & Hclose).
  assert (Ha : accounts (ss_quotas (started item q s)) (waiting_keys (started item q s)) (running_keys (started item q s))).
  { eapply accounts_swap; [eapply accounts_start; [done|by apply quota_allows_spec|exact Hacc]|done|].
    unfold running_keys. by rewrite running_started. }
  assert (Hs : shrinks (ss_quotas s) (ss_quotas (started item q s))) by by apply shrinks_alter.
  split; [|done]. pose proof Hok as []. split; try done.
  - apply Hl.
  - intros id Hin. cbn. rewrite lookup_insert_ne by (intros <-; by apply Hid). exact (ok_apart_less item q s id Hl Hok Hin).
  - by apply Hall.
  - eapply limits_kept; [exact Hs|exact Ha|by apply Hall].
  - rewrite running_started by done. by constructor.
  - rewrite global_started by done. cbn. destruct (qa_global_slot item); [|lia]. specialize (Hb Hg). lia.
  - destruct ok_retention0 as (Hk & Ho & Hd). split_and!; [done..|]. intros k x Hx. cbn. destruct (Hd _ _ Hx) as [E Hi]. split; [|done].
    rewrite lookup_alter_quotas, E by done. by destruct (uses k _).
  - cbn. congruence.
Qed.
(** A running admission ends. *)
Lemma finish_ok cancelled c id a s :
  sched_ok s -> ss_active s !! id = Some a ->
  let s' := release_active_quotas (aa_quota_identities a) cancelled (set_counters c (set_active (delete id (ss_active s)) s)) in
  sched_ok s' /\ shrinks (ss_quotas s) (ss_quotas s').
Proof.
  intros Hok Ea. cbn zeta. set (s1 := set_counters c (set_active (delete id (ss_active s)) s)).
  assert (Hp : running s ≡ₚ a :: running s1) by by apply running_delete.
  pose proof Hok as []. assert (Hn : NoDup (aa_quota_identities a)) by (rewrite Hp in ok_running0; by inversion ok_running0).
  assert (Hacc : accounts (ss_quotas s1) (waiting_keys s) (aa_quota_identities a :: running_keys s1)).
  { eapply accounts_swap; [exact ok_accounts0|done|]. unfold running_keys. by rewrite Hp. }
  pose proof (accounts_release cancelled _ _ _ s1 Hn Hacc) as Ha. unfold release_active_quotas.
  pose proof (shrinks_settle (quota_release cancelled) (aa_quota_identities a) s1 ltac:(done) Hn) as Hs.
  pose proof (settle_retention (quota_release cancelled) (aa_quota_identities a) s1 ok_retention0) as Hr.
  destruct (settle_reframed (quota_release cancelled) (aa_quota_identities a) s1) as (q' & r & o & E). rewrite E in *. split; [|done].
  split; try done.
  - intros i Hi. cbn. apply lookup_delete_None. right. by apply ok_apart0.
  - eapply limits_kept; [exact Hs|exact Ha|done].
  - rewrite Hp in ok_running0. by inversion ok_running0.
  - etransitivity; [|exact ok_global0]. unfold global_active_count. apply inj_le.
    change (map snd (map_to_list (ss_active s))) with (running s).
    change (map snd (map_to_list (ss_active (set_quotas q' (set_retained r o s1))))) with (running s1).
    assert (Hf : forall l k : list ActiveAdmission, l ≡ₚ k -> length (List.filter aa_global_slot l) = length (List.filter aa_global_slot k)).
    { induction 1; cbn; repeat case_match; cbn; lia. }
    rewrite (Hf _ _ Hp). cbn. case_match; cbn; lia.
Qed.
Lemma admit_ok t b item q s :
  leaves item q s -> sched_ok s -> admissible s b item = true -> (b = true -> global_active_count s < cf_max_active (ss_config s)) ->
  sched_ok (admit_item t item (set_pending q s)) /\ shrinks (ss_quotas s) (ss_quotas (admit_item t item (set_pending q s)))
  /\ ss_pending (admit_item t item (set_pending q s)) = q /\ ss_closing (admit_item t item (set_pending q s)) = ss_closing s.
Proof.
  intros Hl Hok Had Hb. destruct (start_ok b item q s Hl Hok Had Hb) as [H1 S1]. destruct (leaves_facts _ _ _ Hl Hok) as (_ & _ & Hn & _).
  unfold admit_item. fold (keys_of item). cbn zeta. destruct (tn_listening t (qa_id item)); cbn [negb].
  - split_and!; [|etransitivity; [exact S1|by apply shrinks_alter]|done..]. destruct H1. split; try done.
    + eapply limits_kept; [by apply (shrinks_alter (quota_admit _) (keys_of item))|by apply accounts_admit|done].
    + by apply accounts_admit.
    + destruct ok_retention0 as (Hk & Ho & Hd). split_and!; [done..|]. intros k x Hx. cbn. destruct (Hd _ _ Hx) as [E Hi]. split; [|done].
      cbn in E. rewrite lookup_alter_quotas, E by done. by destruct (uses k _).
  - pose proof (finish_ok true (count_cancelled (ss_counters s)) (qa_id item) _ _ H1 ltac:(apply lookup_insert_eq)) as [H2 S2].
    split_and!; [exact H2|etransitivity; [exact S1|exact S2]|..]; unfold release_active_quotas;
      match goal with |- context[settle_quotas ?f ?k ?s] => destruct (settle_reframed f k s) as (? & ? & ? & ->) end; done.
Qed.
(** ** Dispatch *)
Lemma select_spec (adm : QueuedAdmission -> bool) l :
  match select adm l with
  | (None, r) => r = l /\ Forall (fun e => adm (it_value e) = false) l
  | (Some v, r) => exists l1 e l2, l = l1 ++ e :: l2 /\ r = l1 ++ l2 /\ it_value e = v /\ adm v = true
                                   /\ Forall (fun e => adm (it_value e) = false) l1
  end.
Proof.
  induction l as [|e l IH]; cbn; [by split|]. destruct (adm (it_value e)) eqn:E.
  - exists [], e, l. by split_and!.
  - destruct (select adm l) as [[v|] r].
    + destruct IH as (l1 & e' & l2 & -> & -> & Ev & Ha & Hn). exists (e :: l1), e', l2. split_and!; try done. by constructor.
    + destruct IH as [-> Hn]. split; [done|]. by constructor.
Qed.
Lemma pop_admissible_spec b s : queue_ok (ss_pending s) ->
  exists q, snd (pop_admissible b s) = set_pending q s /\ queue_ok q /\
  match fst (pop_admissible b s) with
  | None => queue_ordered q = queue_ordered (ss_pending s) /\ forall item, In item (items s) -> admissible s b item = false
  | Some item => exists l1 e l2, queue_ordered (ss_pending s) = l1 ++ e :: l2 /\ queue_ordered q = l1 ++ l2
       /\ it_value e = item /\ admissible s b item = true /\ Forall (fun e => admissible s b (it_value e) = false) l1
  end.
Proof.
  intros Hq. unfold pop_admissible. destruct (drain_spec (ss_pending s)) as (q0 & -> & E0 & N0).
  pose proof (select_spec (admissible s b) (queue_ordered (ss_pending s))) as Hs.
  destruct (select _ _) as [[v|] r]; cbn [fst snd].
  - destruct Hs as (l1 & e & l2 & E & -> & Hs). exists (restore_all (l1 ++ l2) q0).
    destruct (restore_sublist (l1 ++ l2) (ss_pending s) q0) as [Er Hr]; [done..| |].
    { rewrite E. apply sublist_app; [done|]. by constructor. }
    split_and!; [done|apply Hr..|]. exists l1, e, l2. by rewrite Er.
  - destruct Hs as [-> Hs]. exists (restore_all (queue_ordered (ss_pending s)) q0).
    destruct (restore_sublist (queue_ordered (ss_pending s)) (ss_pending s) q0) as [Er Hr]; [done..|].
    split_and!; [done|apply Hr..|done|]. intros item (e & <- & He)%in_map_iff. rewrite List.Forall_forall in Hs. by apply Hs.
Qed.
Lemma ok_same_queue q s : queue_ok q -> queue_ordered q = queue_ordered (ss_pending s) -> sched_ok s -> sched_ok (set_pending q s).
Proof.
  intros Hq E. apply (ok_requeue q (fun i => i)); [done..|]. unfold items. cbn. by rewrite E, map_id.
Qed.
Lemma dispatch_loop_ok fuel t s :
  (length (items s) < fuel)%nat -> sched_ok s ->
  let s' := dispatch_loop fuel t s in
  sched_ok s' /\ saturated s' /\ shrinks (ss_quotas s) (ss_quotas s') /\ ss_closing s' = ss_closing s.
Proof.
  cbn zeta. revert s. induction fuel as [|fuel IH]; intros s Hf Hok; [lia|]. cbn [dispatch_loop].
  set (b := global_active_count s <? _). destruct (pop_admissible_spec b s (ok_queue _ Hok)) as (q & E2 & Hq & Hm).
  destruct (pop_admissible b s) as [[item|] s1]; cbn [fst snd] in *; subst s1.
  - destruct Hm as (l1 & e & l2 & E & Eq & <- & Ha & _).
    assert (Hl : leaves (it_value e) q s).
    { split; [done|]. unfold items. cbn. rewrite E, Eq, !map_app. cbn. by rewrite Permutation_middle. }
    destruct (admit_ok t b (it_value e) q s Hl Hok Ha) as (H1 & S1 & P1 & C1); [apply Z.ltb_lt|].
    destruct (IH (admit_item t (it_value e) (set_pending q s))) as (H2 & H3 & S2 & C2); [|done|].
    + unfold items in *. rewrite P1, length_map, Eq, length_app. rewrite length_map, E, length_app in Hf. cbn [length] in Hf. lia.
    + split_and!; [done..|by etransitivity|congruence].
  - destruct Hm as [Eo Hn]. split_and!; [by apply ok_same_queue| |done..]. intros item Hin. apply Hn. unfold items in *. cbn in Hin. by rewrite <-Eo.
Qed.
Lemma dispatch_ok t s : sched_ok s ->
  sched_ok (dispatch t s) /\ saturated (dispatch t s) /\ shrinks (ss_quotas s) (ss_quotas (dispatch t s)) /\ ss_closing (dispatch t s) = ss_closing s.
Proof.
  intros Hok. unfold dispatch. destruct (ss_closing s) eqn:Ec.
  - split_and!; [done| |done..]. intros item. by rewrite (ok_closing _ Hok).
  - pose proof (aging_ok t s Hok) as Ha. destruct (dispatch_loop_ok (S (queue_len (ss_pending (apply_aging t s)))) t (apply_aging t s)) as (H1 & H2 & H3 & H4); [|done|].
    { unfold items, queue_len. rewrite length_map. lia. }
    destruct (apply_aging_spec t s (ok_queue _ Hok)) as (q & c & l & l' & E & _). rewrite E in *. split_and!; try done. by rewrite H4.
Qed.

(** ** Messages *)
Lemma filter_split {A} (f : A -> bool) l : l ≡ₚ List.filter f l ++ List.filter (fun x => negb (f x)) l.
Proof. induction l as [|x l IH]; cbn; [done|]. destruct (f x); cbn; rewrite IH at 1; [done|by rewrite Permutation_middle]. Qed.
Lemma filter_unique {A} (f : A -> Z) id l : NoDup (map f l) ->
  List.filter (fun x => f x =? id) l = [] \/ exists x, List.filter (fun x => f x =? id) l = [x] /\ f x = id /\ In x l.
Proof.
  induction l as [|x l IH]; cbn; [by left|]. intros [Hx Hn]%list.NoDup_cons. destruct (Z.eqb_spec (f x) id) as [E|Hne].
  - right. exists x. split_and!; [|done|by left]. f_equal. destruct (IH Hn) as [->|(y & -> & Ey & Hy)]; [done|].
    destruct Hx. rewrite E, <-Ey. apply list_elem_of_In. by apply in_map.
  - destruct (IH Hn) as [->|(y & Hy & ? & ?)]; [by left|]. right. exists y. auto.
Qed.
Lemma sublist_filter_of {A} (f : A -> bool) l : sublist (List.filter f l) l.
Proof. induction l as [|x l IH]; cbn; [done|]. destruct (f x); by constructor. Qed.
Lemma remove_pending_spec id s : sched_ok s ->
  match remove_pending id s with
  | (None, s') => ~ In id (map qa_id (items s)) /\ exists q, s' = set_pending q s /\ queue_ok q /\ queue_ordered q = queue_ordered (ss_pending s)
  | (Some item, s') => qa_id item = id /\ In item (items s) /\ exists q, s' = set_pending q s /\ leaves item q s
  end.
Proof.
  intros Hok. pose proof (ok_queue _ Hok) as Hq. unfold remove_pending. case_bool_decide as En.
  - split; [unfold items; rewrite En; by intros []|]. exists (ss_pending s). split; [by destruct s|]. by split.
  - destruct (drain_spec (ss_pending s)) as (q0 & -> & E0 & N0).
    set (f := fun e : PriorityItem QueuedAdmission => qa_id (it_value e)). set (l := queue_ordered (ss_pending s)) in *.
    destruct (restore_sublist (List.filter (fun e => negb (f e =? id)) l) (ss_pending s) q0 Hq E0 N0 (sublist_filter_of _ _)) as [Er Hr].
    assert (Hn : NoDup (map f l)) by (unfold f; rewrite <-map_map; apply (ok_ids _ Hok)).
    pose proof (filter_split (fun e => f e =? id) l) as Hp.
    change (fun item => qa_id (it_value item) =? id) with (fun e => f e =? id).
    destruct (filter_unique f id l Hn) as [E|(e & E & Ee & He)]; rewrite E in *; cbn.
    + assert (Hnone : ~ In id (map qa_id (items s))).
      { unfold items. rewrite map_map. intros (e & Ee & He)%in_map_iff.
        assert (Hin : In e (List.filter (fun e => f e =? id) l)) by (apply filter_In; split; [done|by apply Z.eqb_eq]). by rewrite E in Hin. }
      split; [done|]. eexists. split; [done|]. split; [done|]. etransitivity; [exact Er|]. clear -E. induction l as [|x l IH]; cbn in *; [done|].
      destruct (f x =? id); cbn in *; [done|]. by rewrite IH.
    + split; [done|]. split; [by apply in_map|]. eexists. split; [done|]. split; [done|]. unfold items. cbn.
      etransitivity; [by apply Permutation_map, Hp|]. cbn. constructor. apply Permutation_map. by rewrite <-Er.
Qed.
Lemma release_ok t id s : sched_ok s -> sched_ok (release t id s) /\ shrinks (ss_quotas s) (ss_quotas (release t id s)).
Proof.
  intros Hok. unfold release. destruct (ss_active s !! id) as [a|] eqn:Ea; [by apply (finish_ok false _ id)|].
  pose proof (remove_pending_spec id s Hok) as Hr. destruct (remove_pending id s) as [[item|] s'].
  - destruct Hr as (_ & _ & q & -> & Hl). unfold cancel_pending.
    destruct (drop_ok quota_cancel item q (set_counters (count_cancelled (ss_counters s)) s)) as [H1 S1]; [done..|by apply ok_counters|].
    split; [by apply ok_answer|]. unfold answer_waiter. by case_match.
  - destruct Hr as (_ & q & -> & Hq & E). split; [by apply ok_same_queue|done].
Qed.
Lemma finish_shutdown_ok s : sched_ok s -> sched_ok (finish_shutdown_if_idle s).
Proof. intros Hok. unfold finish_shutdown_if_idle. case_match; [|done]. apply (ok_waiters _ (send _ s)). by apply ok_send. Qed.
Lemma finish_shutdown_same s :
  ss_quotas (finish_shutdown_if_idle s) = ss_quotas s /\ (saturated s -> saturated (finish_shutdown_if_idle s)).
Proof. unfold finish_shutdown_if_idle. by case_match. Qed.
Definition same_limits (q q' : gmap str QuotaState) : Prop := forall k x x',
  q !! k = Some x -> q' !! k = Some x' -> qs_identity x' = qs_identity x /\ qs_max_active x' = qs_max_active x.
Lemma shrinks_same q q' : shrinks q q' -> same_limits q q'.
Proof. intros Hs k x x' E E'. destruct (Hs _ _ E') as (y & Ey & ? & ?). by assert (y = x) as -> by congruence. Qed.
Definition fresh (item : QueuedAdmission) s : Prop :=
  ss_active s !! qa_id item = None /\ ~ In (qa_id item) (map qa_id (items s)).
Lemma alter_registered f keys q quota : keeps_limits f -> NoDup keys -> registered q quota -> registered (alter_quotas f keys q) quota.
Proof.
  intros Hf Hn (x & Ex & Ei & Em). unfold registered. rewrite lookup_alter_quotas, Ex by done. destruct (uses _ keys); [|by exists x].
  exists (f x). destruct (Hf x) as [-> ->]. done.
Qed.
Lemma registers_limits quotas s s' :
  registers quotas s s' -> NoDup (map quota_key quotas) -> (forall quota, In quota quotas -> conflicts s quota = false) ->
  Forall (registered (ss_quotas s')) quotas.
Proof.
  intros (_ & _ & K & N) Hn Hc. apply List.Forall_forall. intros quota Hin. specialize (Hc _ Hin). unfold conflicts in Hc.
  destruct (ss_quotas s !! quota_key quota) as [x|] eqn:Ex.
  - exists x. rewrite (K _ _ Ex). apply negb_false_iff, same_quota_spec in Hc. done.
  - destruct (N _ Ex) as [[[] _]|(quota' & x & Hin' & Ek & Ex' & _ & Hs)]; [by apply in_map|].
    assert (quota' = quota) as -> by (eapply NoDup_map_key; eauto). exists x. by apply same_quota_spec in Hs.
Qed.
(** A request joins the queue: its quotas are registered, then it is counted and pushed. *)
Definition joined (item : QueuedAdmission) s : SchedulerState :=
  let s1 := fold_left register_quota (qa_quotas item) s in
  set_pending (queue_push (qa_effective_priority item) item (ss_pending s1))
    (set_quotas (alter_quotas quota_add_pending (keys_of item) (ss_quotas s1)) s1).
Lemma join_ok item s :
  sched_ok s -> fresh item s -> valid_quotas (qa_quotas item) -> (forall quota, In quota (qa_quotas item) -> conflicts s quota = false) ->
  Z.of_nat (length (items s)) < MAX_PENDING_ADMISSIONS -> ss_closing s = false ->
  sched_ok (joined item s) /\ same_limits (ss_quotas s) (ss_quotas (joined item s))
  /\ forall s', shrinks (ss_quotas (joined item s)) (ss_quotas s') -> same_limits (ss_quotas s) (ss_quotas s').
Proof.
  intros Hok [Hf Hi] Hv Hc Hb Hcl. pose proof (register_all_spec (qa_quotas item) s (ok_retention _ Hok)) as Hr.
  pose proof Hr as ((q1 & r1 & o1 & E) & Hret & K & N). pose proof Hok as [].
  pose proof (registers_limits _ _ _ Hr (proj1 Hv) Hc) as Hown.
  pose proof (accounts_enqueue (qa_quotas item) (waiting_keys s) (running_keys s) s _ Hr Hc Hv) as Ha. fold (keys_of item) in Ha.
  unfold joined. rewrite E in *. cbn in K, N, Ha, Hown |- *. destruct Hv as [Hn Hv]. set (s1 := set_quotas q1 (set_retained r1 o1 s)) in *.
  assert (Hlim : forall s', shrinks (alter_quotas quota_add_pending (keys_of item) q1) (ss_quotas s') -> same_limits (ss_quotas s) (ss_quotas s')).
  { intros s' Hs k x x' Ex Ex'. destruct (shrinks_trans _ _ _ (shrinks_alter quota_add_pending (keys_of item) q1 ltac:(done) Hn) Hs _ _ Ex') as (y & Ey & ? & ?).
    rewrite (K _ _ Ex) in Ey. by injection Ey as <-. }
  split_and!; [|by apply (Hlim (set_quotas _ s))|done].
  match goal with |- sched_ok ?s2 => assert (Hp : items s2 ≡ₚ item :: items s) end.
  { unfold items. cbn. rewrite ordered_push, insert_sorted_perm. done. }
  assert (Hreg : Forall (fun i => Forall (registered (alter_quotas quota_add_pending (keys_of item) q1)) (qa_quotas i)) (item :: items s)).
  { constructor.
    - eapply List.Forall_impl; [|exact Hown]. intros quota. by apply alter_registered.
    - eapply List.Forall_impl; [|exact ok_limits0]. intros i. apply List.Forall_impl. intros quota (x & Ex & Hx).
      apply alter_registered; [done..|]. exists x. by rewrite (K _ _ Ex). }
  split; try done.
  - by apply push_ok.
  - apply Permutation_length in Hp. rewrite Hp. cbn [length]. lia.
  - rewrite Hp. cbn. constructor; [by rewrite list_elem_of_In|done].
  - intros id. rewrite Hp. intros [<-|Hin]; [done|]. by apply ok_apart0.
  - rewrite Hp. by constructor.
  - by rewrite Hp.
  - eapply accounts_swap; [apply Ha; [by unfold waiting_keys; rewrite length_map|done]| |done]. unfold waiting_keys. by rewrite Hp.
  - cbn. destruct Hret as (? & ? & Hd). split_and!; [done..|]. intros k x Hx. cbn in *. destruct (Hd _ _ Hx) as [Ek Hid]. split; [|done].
    rewrite lookup_alter_quotas, Ek by done. by destruct (uses k _).
  - cbn. congruence.
Qed.
Lemma enqueue_ok t item s :
  sched_ok s -> saturated s -> fresh item s -> valid_quotas (qa_quotas item) ->
  sched_ok (enqueue t item s) /\ saturated (enqueue t item s) /\ same_limits (ss_quotas s) (ss_quotas (enqueue t item s)).
Proof.
  intros Hok Hs Hf Hv.
  assert (Hanswer : forall e s', sched_ok s' -> saturated s' -> ss_quotas s' = ss_quotas s ->
            let s2 := answer_waiter t (qa_id item) e s' in sched_ok s2 /\ saturated s2 /\ same_limits (ss_quotas s) (ss_quotas s2)).
  { intros e s' Ho Hs' E. cbn zeta. split; [by apply ok_answer|]. unfold answer_waiter.
    case_match; (split; [done|]); cbn; rewrite E; by apply shrinks_same. }
  unfold enqueue. destruct (ss_closing s) eqn:Ec; [by apply Hanswer|].
  destruct (Z.leb_spec MAX_PENDING_ADMISSIONS (Z.of_nat (queue_len (ss_pending s)))) as [Hl|Hl]; [by apply Hanswer|].
  unfold register_pending_quotas. destruct (existsb (conflicts s) (qa_quotas item)) eqn:Ex.
  - apply Hanswer; [by apply ok_counters|done..].
  - destruct (join_ok item s Hok Hf Hv) as (H1 & L1 & Hlim); [|by unfold items; rewrite length_map|done|].
    { intros quota Hin. destruct (conflicts s quota) eqn:E; [|done]. rewrite <-Ex. symmetry. apply existsb_exists. by exists quota. }
    destruct (dispatch_ok t (joined item s) H1) as (H2 & H3 & S & _). split_and!; [done..|]. by apply Hlim.
Qed.
(** Shutdown empties the queue. *)
Lemma reject_all_spec t l s :
  Forall (fun e => NoDup (keys_of (it_value e))) l -> retention s ->
  accounts (ss_quotas s) (map keys_of (map it_value l)) (running_keys s) ->
  let s' := fold_left (reject_item t) l s in
  retention s' /\ accounts (ss_quotas s') [] (running_keys s') /\ shrinks (ss_quotas s) (ss_quotas s')
  /\ exists q r o c m, s' = set_counters c (send m (set_quotas q (set_retained r o s))).
Proof.
  cbn zeta. revert s. induction l as [|e l IH]; intros s Hn Hr Ha; cbn [fold_left].
  - split_and!; [done..|]. exists (ss_quotas s), (ss_retained s), (ss_retained_order s), (ss_counters s), []. destruct s. unfold send. cbn. by rewrite app_nil_r.
  - inversion Hn as [|?? Hk Hn']; subst. set (s1 := set_counters (count_rejected (ss_counters s)) s).
    pose proof (accounts_drop quota_reject (keys_of (it_value e)) _ _ s1 ltac:(done) Hk Ha) as Ha1.
    pose proof (settle_retention quota_reject (keys_of (it_value e)) s1 Hr) as Hr1.
    pose proof (shrinks_settle quota_reject (keys_of (it_value e)) s1 ltac:(done) Hk) as Hs1.
    destruct (settle_reframed quota_reject (keys_of (it_value e)) s1) as (q & r & o & E). rewrite E in *.
    assert (Es : exists m, reject_item t s e = send m (set_quotas q (set_retained r o s1))).
    { unfold reject_item, reject_pending_quotas. cbn zeta. fold (keys_of (it_value e)) s1. rewrite E. unfold answer_waiter.
      case_match; [by eexists|]. exists []. unfold send. destruct s. cbn. by rewrite app_nil_r. }
    destruct Es as (m & ->). destruct (IH (send m (set_quotas q (set_retained r o s1)))) as (H1 & H2 & H3 & q' & r' & o' & c' & m' & E'); [done..|]. rewrite E' in *.
    split_and!; [done|done|by etransitivity|]. eexists q', r', o', c', (m ++ m'). unfold send. cbn. by rewrite app_assoc.
Qed.
Lemma shutdown_ok t w s : sched_ok s -> sched_ok (shutdown t w s) /\ saturated (shutdown t w s) /\ shrinks (ss_quotas s) (ss_quotas (shutdown t w s)).
Proof.
  intros Hok. unfold shutdown. cbn [ss_pending set_closing]. destruct (drain_spec (ss_pending s)) as (q0 & -> & E0 & N0).
  match goal with |- context[fold_left (reject_item t) ?l ?s1] => destruct (reject_all_spec t l s1) as (Hr & Ha & Hs & q & r & o & c & m & E) end.
  - apply List.Forall_forall. intros e He. pose proof (ok_items _ Hok) as Hv. rewrite List.Forall_forall in Hv. by apply (Hv (it_value e)), in_map.
  - apply (ok_retention _ Hok).
  - apply (ok_accounts _ Hok).
  - rewrite E in *. pose proof Hok as [].
    match goal with |- context[finish_shutdown_if_idle ?s2] => assert (H2 : sched_ok s2) end.
    { split; try done; unfold items, waiting_keys, items; cbn; rewrite ?E0; cbn; try done; try by apply empty_ok. constructor. }
    split; [by apply finish_shutdown_ok|]. match goal with |- context[finish_shutdown_if_idle ?s2] => destruct (finish_shutdown_same s2) as [-> Hf] end.
    split; [|done]. apply Hf. intros item. unfold items. cbn. by rewrite E0.
Qed.
(** What the clients guarantee of a message: a request has a new id and was validated. *)
Definition acceptable (m : SchedulerMessage) s : Prop :=
  match m with Enqueue item => fresh item s /\ valid_quotas (qa_quotas item) | _ => True end.
Lemma aging_saturated t s : sched_ok s -> saturated s -> saturated (apply_aging t s).
Proof.
  intros Hok Hs. destruct (apply_aging_spec t s (ok_queue _ Hok)) as (q & c & l & l' & -> & _ & Hl & Hl' & _ & Ha & _).
  intros item Hin. unfold items in Hin. cbn in Hin. rewrite <-Hl' in Hin. apply in_map_iff in Hin as (e' & <- & He').
  apply list_elem_of_In, list_elem_of_lookup in He' as (i & Hi). destruct (Forall2_lookup_r _ _ _ _ _ Ha Hi) as (e & He & _ & ->).
  apply (Hs (it_value e)), in_map, list_elem_of_In. rewrite <-Hl. by eapply list_elem_of_lookup_2.
Qed.
Lemma handle_ok t m s :
  sched_ok s -> saturated s -> acceptable m s ->
  sched_ok (handle t m s) /\ saturated (handle t m s) /\ same_limits (ss_quotas s) (ss_quotas (handle t m s)).
Proof.
  intros Hok Hs Hm. destruct m as [item|id|r|r|quota r|quota r|w]; cbn [handle].
  - by apply enqueue_ok; [..|apply Hm|apply Hm].
  - destruct (release_ok t id s Hok) as [H1 S1]. destruct (dispatch_ok t (release t id s) H1) as (H2 & H3 & S2 & _).
    destruct (finish_shutdown_same (dispatch t (release t id s))) as [-> Hf].
    split_and!; [by apply finish_shutdown_ok|by apply Hf|]. apply shrinks_same. by etransitivity.
  - split_and!; [by apply ok_send|done|by apply shrinks_same].
  - split_and!; [by apply ok_send, aging_ok|by apply aging_saturated|]. apply shrinks_same.
    destruct (apply_aging_spec t s (ok_queue _ Hok)) as (q & c & l & l' & -> & _). done.
  - split_and!; [by apply ok_send|done|by apply shrinks_same].
  - split_and!; [by apply ok_send|done|by apply shrinks_same].
  - destruct (shutdown_ok t w s Hok) as (H1 & H2 & H3). split_and!; [done..|by apply shrinks_same].
Qed.
Lemma new_scheduler_ok c : 0 <= cf_max_active c -> sched_ok (new_scheduler c) /\ saturated (new_scheduler c).
Proof.
  intros Hc. assert (E : items (new_scheduler c) = []) by (unfold items; cbn; by rewrite ordered_new).
  split; [|intros item; by rewrite E]. split; rewrite ?E; try done.
  - apply empty_ok, ordered_new.
  - constructor.
  - intros key. unfold waiting_keys. by rewrite E.
  - split_and!; [split; [constructor|]|cbn; lia|done]. intros key. cbn. split; [done|]. intros [? ?]. done.
Qed.

(** ** The order of admission *)
Lemma Forall2_In_l {A B} (P : A -> B -> Prop) l k x : Forall2 P l k -> In x l -> exists i y, l !! i = Some x /\ k !! i = Some y /\ P x y.
Proof. intros Hf (i & Hi)%list_elem_of_In%list_elem_of_lookup. destruct (Forall2_lookup_l _ _ _ _ _ Hf Hi) as (y & ? & ?). by exists i, y. Qed.
Lemma sorted_lookup {A} (R : A -> A -> Prop) l i j x y :
  StronglySorted R l -> l !! i = Some x -> l !! j = Some y -> (i < j)%nat -> R x y.
Proof.
  intros Hs. revert i j. induction Hs as [|z l Hl IH Hz]; intros [|i] [|j] Hi Hj Hlt; cbn in *; try done; try lia.
  - injection Hi as <-. rewrite List.Forall_forall in Hz. apply Hz, list_elem_of_In. by eapply list_elem_of_lookup_2.
  - apply (IH i j); [done..|lia].
Qed.
(** Aging keeps the order of arrival: sequence numbers compare as before. *)
Lemma aged_positions (l l' : list (PriorityItem QueuedAdmission)) i j e f e' f' :
  NoDup (map it_sequence l) -> StronglySorted (fun a b => sequence_leb a b = true) l -> StronglySorted earlier l' ->
  l !! i = Some e -> l !! j = Some f -> l' !! i = Some e' -> l' !! j = Some f' ->
  it_sequence e' < it_sequence f' -> it_sequence e < it_sequence f.
Proof.
  intros Hn Hl Hl' Ei Ej Ei' Ej' Hlt. destruct (decide (i < j)%nat) as [Hij|Hij].
  - pose proof (sorted_lookup _ _ _ _ _ _ Hl Ei Ej Hij) as Hle. unfold sequence_leb in Hle. apply Z.leb_le in Hle.
    enough (it_sequence e <> it_sequence f) by lia. intros E.
    assert (i = j); [|lia]. eapply (NoDup_lookup (map it_sequence l)); [done|..]; rewrite list_lookup_fmap, ?Ei, ?Ej; cbn; by rewrite ?E.
  - destruct (decide (i = j)) as [->|Hne].
    + assert (e' = f') as -> by congruence. lia.
    + assert (Hji : (j < i)%nat) by lia. pose proof (sorted_lookup _ _ _ _ _ _ Hl' Ej' Ei' Hji) as He. unfold earlier in He. lia.
Qed.
(** Whoever waited one aging interval per level above Interactive counts as Interactive. *)
Definition waited_out (c : TaskSchedulerConfig) (now : Z) (item : QueuedAdmission) : Prop :=
  lane_priority (qa_priority item) - 1 <= as_millis (elapsed now (qa_enqueued_at item)) / cf_aging_interval_ms c.
Lemma aged_out c now item : waited_out c now item -> aged_priority c now item <= 1.
Proof. unfold waited_out, aged_priority. case_bool_decide as E; [by cbn|]. destruct (qa_priority item); cbn; unfold saturating_sub; lia. Qed.
Lemma aged_not_urgent c now item : qa_priority item <> Urgent -> 1 <= aged_priority c now item.
Proof. intros Hu. unfold aged_priority. rewrite bool_decide_eq_false_2 by done. lia. Qed.
Lemma requeued_admissible b q c s item :
  admissible (set_counters c (set_pending q s)) b item = admissible s b item.
Proof. reflexivity. Qed.
Lemma aged_admissible b c now s item : admissible s b (aged c now item) = admissible s b item.
Proof. reflexivity. Qed.
Lemma earlier_unique l i j e : StronglySorted earlier l -> l !! i = Some e -> l !! j = Some e -> i = j.
Proof.
  intros Hs Hi Hj. destruct (lt_eq_lt_dec i j) as [[Hlt|]|Hlt]; [|done|].
  - pose proof (sorted_lookup _ _ _ _ _ _ Hs Hi Hj Hlt) as He. unfold earlier in He. lia.
  - pose proof (sorted_lookup _ _ _ _ _ _ Hs Hj Hi Hlt) as He. unfold earlier in He. lia.
Qed.
(** In an ordered queue the item taken precedes every other that could be taken. *)
Lemma first_admissible (adm : QueuedAdmission -> bool) l1 e l2 f :
  item_ordered (l1 ++ e :: l2) -> Forall (fun e => adm (it_value e) = false) l1 -> adm (it_value f) = true ->
  In f (l1 ++ e :: l2) -> f <> e -> item_lt e f.
Proof.
  intros Ho Hn Hf Hin Hne. rewrite List.Forall_forall in Hn. apply in_app_iff in Hin as [Hin|[<-|Hin]]; [|done|].
  - specialize (Hn _ Hin). congruence.
  - apply StronglySorted_app in Ho as (_ & _ & Ho). inversion Ho as [|?? _ Hall]; subst. rewrite List.Forall_forall in Hall. by apply Hall.
Qed.
(** Admission follows priority, age and arrival: when dispatch takes a request, it
    takes the one with the least aged priority among all the waiting requests that
    could start, the earliest of them on a tie; and a request that has waited one
    aging interval for each level above Interactive is overtaken by nothing that
    arrived after it except urgent work. *)
Theorem admission_order t s b x s' :
  sched_ok s -> pop_admissible b (apply_aging t s) = (Some x, s') ->
  exists ex, In ex (queue_ordered (ss_pending s)) /\ x = aged (ss_config s) (tn_now t) (it_value ex)
    /\ admissible s b (it_value ex) = true
    /\ forall ey, In ey (queue_ordered (ss_pending s)) -> admissible s b (it_value ey) = true -> ey <> ex ->
         let px := aged_priority (ss_config s) (tn_now t) (it_value ex) in
         let py := aged_priority (ss_config s) (tn_now t) (it_value ey) in
         (px < py \/ px = py /\ it_sequence ex < it_sequence ey)
         /\ (waited_out (ss_config s) (tn_now t) (it_value ey) -> qa_priority x = Urgent \/ it_sequence ex < it_sequence ey).
Proof.
  intros Hok E. pose proof (ok_queue _ Hok) as Hq. destruct (apply_aging_spec t s Hq) as (q & c & l & l' & Ea & Hq' & Hl & Hl' & Hsl & Ha & Hsl').
  rewrite Ea in E. destruct (pop_admissible_spec b (set_counters c (set_pending q s)) Hq') as (q2 & _ & _ & Hm). rewrite E in Hm. cbn in Hm.
  destruct Hm as (l1 & e' & l2 & Eo & _ & <- & Had & Hnone). rewrite requeued_admissible in Had.
  assert (Hin' : e' ∈ l') by (rewrite Hl', Eo; apply elem_of_app; right; left).
  apply list_elem_of_lookup in Hin' as (i & Hi'). destruct (Forall2_lookup_r _ _ _ _ _ Ha Hi') as (ex & Hi & Ep & Ev).
  exists ex. split_and!; [apply list_elem_of_In; rewrite <-Hl; by eapply list_elem_of_lookup_2|done|by rewrite Ev in Had|].
  intros ey Hy Hady Hne. apply list_elem_of_In in Hy. rewrite <-Hl in Hy. apply list_elem_of_In in Hy.
  destruct (Forall2_In_l _ _ _ _ Ha Hy) as (j & f' & Hj & Hj' & Ep' & Ev').
  assert (Hlt : item_lt e' f').
  { destruct Hq' as (Ho & _). rewrite Eo in Ho. eapply (first_admissible (admissible s b)); [exact Ho|exact Hnone|by rewrite Ev', aged_admissible|..].
    - apply list_elem_of_In. rewrite <-Eo, <-Hl'. by eapply list_elem_of_lookup_2.
    - intros ->. destruct Hne. assert (i = j) as -> by (by eapply earlier_unique). congruence. }
  assert (Hns : NoDup (map it_sequence l)) by (rewrite Hl; apply Hq).
  pose proof (aged_positions l l' i j ex ey e' f' Hns Hsl Hsl' Hi Hj Hi' Hj') as Hseq. unfold item_lt in Hlt. rewrite Ep, Ep' in Hlt.
  cbn zeta. split; [destruct Hlt as [?|[? ?]]; [by left|right; split; [done|by apply Hseq]]|].
  intros Hw%aged_out. destruct (decide (qa_priority (it_value ex) = Urgent)) as [Hu|Hu]; [left; by rewrite Ev|right].
  pose proof (aged_not_urgent (ss_config s) (tn_now t) _ Hu). apply Hseq. lia.
Qed.
End State.
