(* ===== verification/SchedulerSystem.v ===== *)
(** The clients of the scheduler ([TaskScheduler], [TaskLease] in [task_scheduler.rs]),
    the channels between them and the actor, and the actor's loop, as one transition
    system: every interleaving of requests, cancellations, dropped leases, shutdown and
    handled messages is a sequence of actions. *)
From stdpp Require Import gmap.
From S2P Require Import Prelude Text Planning Goal Scheduler.

(** ** Validation of a request *)
Definition DUPLICATE_QUOTAS : TaskSchedulerError := InvalidConfig $"task admission contains duplicate quota identities".
Fixpoint quotas_problem (seen : list str) (quotas : list TaskSchedulerQuota) : option TaskSchedulerError :=
  match quotas with
  | [] => None
  | quota :: quotas =>
      match quota_validate quota with
      | Some error => Some error
      | None => if existsb (str_eqb (quota_key quota)) seen then Some DUPLICATE_QUOTAS
                else quotas_problem (quota_key quota :: seen) quotas
      end
  end.
Definition acquire_problem (closed cancelled : bool) (identity : option ExecutionIdentityV1) (quotas : list TaskSchedulerQuota)
    (global_slot : bool) : option TaskSchedulerError :=
  if closed then Some Refusal.Closed
  else if cancelled then Some Refusal.Cancelled
  else
    match identity ≫= identity_problem with
    | Some error => Some (InvalidConfig ($"execution identity is invalid: " ++ error))
    | None =>
        if TASK_SCHEDULER_MAX_QUOTAS <? Z.of_nat (length quotas)
        then Some (InvalidConfig $"task admission cannot contain more than 8 quota dimensions")
        else if negb global_slot && bool_decide (quotas = [])
        then Some (InvalidConfig $"quota-only admission requires at least one quota dimension")
        else quotas_problem [] quotas
    end.
(** [usize] fields of the quotas. *)
Definition usize_quotas (quotas : list TaskSchedulerQuota) : bool :=
  forallb (fun q => (0 <=? qu_max_active q) && (qu_max_active q <=? u64_max)) quotas.

(** ** Clients *)
(** A pending [acquire] call, from its validation to the end of its lease. [Sending]
    waits for room in the channel with an unarmed lease; [Waiting] holds the armed
    lease and the receiver of the answer; [Leased] is the lease the caller got. *)
Inductive Client : Type :=
| Sending (item : QueuedAdmission)
| Waiting (item : QueuedAdmission) (mail : option (TaskSchedulerError + unit))
| Leased (item : QueuedAdmission)
| Finished (outcome : option TaskSchedulerError).
Definition deliver (clients : gmap Z Client) (m : Sent) : gmap Z Client :=
  match m with
  | Ready id a => alter (fun c => match c with Waiting item None => Waiting item (Some a) | c => c end) id clients
  | _ => clients
  end.

Section System.
Context {Q : Type} `{PriorityQueue Q QueuedAdmission}.
Record System : Type := mkSystem {
  sy_actor : SchedulerState (Q := Q);
  sy_current : option SchedulerMessage;
  sy_running : bool;
  sy_closed : bool;
  sy_next_id : Z;
  sy_inbox : list SchedulerMessage;
  sy_releases : list Z;
  sy_shutdowns : list Z;
  sy_clients : gmap Z Client;
}.
Definition new_system (config : TaskSchedulerConfig) : TaskSchedulerError + System :=
  match config_validate config with
  | Some error => inl error
  | None => inr (mkSystem (new_scheduler config) None true false 1 [] [] [] ∅)
  end.
Definition set_client (id : Z) (c : Client) (s : System) : System :=
  mkSystem (sy_actor s) (sy_current s) (sy_running s) (sy_closed s) (sy_next_id s) (sy_inbox s) (sy_releases s)
           (sy_shutdowns s) (<[id := c]> (sy_clients s)).
Definition post (m : SchedulerMessage) (s : System) : System :=
  mkSystem (sy_actor s) (sy_current s) (sy_running s) (sy_closed s) (sy_next_id s) (sy_inbox s ++ [m]) (sy_releases s)
           (sy_shutdowns s) (sy_clients s).
(** [Drop for TaskLease] of an armed lease; lost when the actor is gone. *)
Definition post_release (id : Z) (s : System) : System :=
  mkSystem (sy_actor s) (sy_current s) (sy_running s) (sy_closed s) (sy_next_id s) (sy_inbox s)
           (if sy_running s then sy_releases s ++ [id] else sy_releases s) (sy_shutdowns s) (sy_clients s).
Definition end_client (id : Z) (outcome : option TaskSchedulerError) (s : System) : System :=
  post_release id (set_client id (Finished outcome) s).
Definition has_room (s : System) : bool := Z.of_nat (length (sy_inbox s)) <? ADMISSION_CHANNEL_CAPACITY.

(** The receivers that are alive. *)
Definition listening (s : System) (id : Z) : bool :=
  match sy_clients s !! id with Some (Waiting _ _) => true | _ => false end.

Inductive Channel : Type := Releases | Shutdowns | Inbox.
Inductive Action : Type :=
| Request (priority : TaskPriority) (label : str) (quotas : list TaskSchedulerQuota) (identity : option ExecutionIdentityV1)
          (global_slot cancelled : bool) (at_instant : Z)
| SendRequest (id : Z)
| Cancel (id : Z)
| Receive (id : Z)
| DropLease (id : Z)
| Ask (query : SchedulerMessage)
| RequestShutdown (waiter : Z)
| Pick (channel : Channel)
| Handle (now : Z) (admitted_at : Z -> Z).

(** [acquire_inner] up to its first suspension: the request gets an id, used once. *)
Definition request (priority : TaskPriority) (label : str) (quotas : list TaskSchedulerQuota)
    (identity : option ExecutionIdentityV1) (global_slot cancelled : bool) (at_instant : Z) (s : System) : option System :=
  if negb (usize_quotas quotas) || negb (sy_next_id s <? u64_max) then None
  else
    match acquire_problem (sy_closed s) cancelled identity quotas global_slot with
    | Some _ => Some s
    | None =>
        let id := sy_next_id s in
        let item := mkAdmission id priority (lane_priority priority) label identity quotas global_slot at_instant in
        Some (mkSystem (sy_actor s) (sy_current s) (sy_running s) (sy_closed s) (id + 1) (sy_inbox s) (sy_releases s)
                       (sy_shutdowns s) (<[id := Sending item]> (sy_clients s)))
    end.
Definition send_request (id : Z) (s : System) : option System :=
  match sy_clients s !! id with
  | Some (Sending item) =>
      if negb (sy_running s) then Some (set_client id (Finished (Some Refusal.Closed)) s)
      else if has_room s then Some (post (Enqueue item) (set_client id (Waiting item None) s)) else None
  | _ => None
  end.
(** Cancellation, or the drop of the [acquire] future. *)
Definition cancel (id : Z) (s : System) : option System :=
  match sy_clients s !! id with
  | Some (Sending _) => Some (set_client id (Finished (Some Refusal.Cancelled)) s)
  | Some (Waiting _ _) => Some (end_client id (Some Refusal.Cancelled) s)
  | _ => None
  end.
Definition receive (id : Z) (s : System) : option System :=
  match sy_clients s !! id with
  | Some (Waiting item (Some (inr _))) => Some (set_client id (Leased item) s)
  | Some (Waiting _ (Some (inl error))) => Some (end_client id (Some error) s)
  | Some (Waiting _ None) => if sy_running s then None else Some (end_client id (Some Refusal.Closed) s)
  | _ => None
  end.
Definition drop_lease (id : Z) (s : System) : option System :=
  match sy_clients s !! id with Some (Leased _) => Some (end_client id None s) | _ => None end.
Definition is_query (m : SchedulerMessage) : bool :=
  match m with Stats _ | Health _ | QuotaStats _ _ | QuotaHealth _ _ => true | _ => false end.
Definition ask (query : SchedulerMessage) (s : System) : option System :=
  if negb (is_query query) then None
  else if sy_closed s || negb (sy_running s) then Some s
  else if has_room s then Some (post query s) else None.
Definition request_shutdown (waiter : Z) (s : System) : option System :=
  if sy_closed s then Some s
  else Some (mkSystem (sy_actor s) (sy_current s) (sy_running s) true (sy_next_id s) (sy_inbox s) (sy_releases s)
                      (if sy_running s then sy_shutdowns s ++ [waiter] else sy_shutdowns s) (sy_clients s)).
(** The actor's [select!]. Its bias for releases and shutdowns only narrows the choice
    made here: a message may still arrive after its channel was polled. *)
Definition pick (channel : Channel) (s : System) : option System :=
  match sy_current s, sy_running s with
  | None, true =>
      match channel with
      | Releases =>
          match sy_releases s with
          | id :: releases => Some (mkSystem (sy_actor s) (Some (Release id)) true (sy_closed s) (sy_next_id s) (sy_inbox s)
                                             releases (sy_shutdowns s) (sy_clients s))
          | [] => None
          end
      | Shutdowns =>
          match sy_shutdowns s with
          | w :: shutdowns => Some (mkSystem (sy_actor s) (Some (Shutdown w)) true (sy_closed s) (sy_next_id s) (sy_inbox s)
                                             (sy_releases s) shutdowns (sy_clients s))
          | [] => None
          end
      | Inbox =>
          match sy_inbox s with
          | m :: inbox => Some (mkSystem (sy_actor s) (Some m) true (sy_closed s) (sy_next_id s) inbox (sy_releases s)
                                         (sy_shutdowns s) (sy_clients s))
          | [] => None
          end
      end
  | _, _ => None
  end.
(** One turn of [run_scheduler]: what was sent reaches its waiters; the last turn closes
    the scheduler and drops what is left in the channels. *)
Definition handle_current (now : Z) (admitted_at : Z -> Z) (s : System) : option System :=
  match sy_current s with
  | None => None
  | Some m =>
      let actor := handle (mkTurn now admitted_at (listening s)) m (sy_actor s) in
      let clients := fold_left deliver (drop (length (ss_sent (sy_actor s))) (ss_sent actor)) (sy_clients s) in
      let closed := sy_closed s || ss_closing actor in
      if is_finished actor
      then Some (mkSystem actor None false true (sy_next_id s) [] [] [] clients)
      else Some (mkSystem actor None true closed (sy_next_id s) (sy_inbox s) (sy_releases s) (sy_shutdowns s) clients)
  end.
Definition perform (a : Action) (s : System) : option System :=
  match a with
  | Request priority label quotas identity global_slot cancelled at_instant =>
      request priority label quotas identity global_slot cancelled at_instant s
  | SendRequest id => send_request id s
  | Cancel id => cancel id s
  | Receive id => receive id s
  | DropLease id => drop_lease id s
  | Ask query => ask query s
  | RequestShutdown waiter => request_shutdown waiter s
  | Pick channel => pick channel s
  | Handle now admitted_at => handle_current now admitted_at s
  end.
Inductive reaches (config : TaskSchedulerConfig) : System -> Prop :=
| reaches_new s : new_system config = inr s -> reaches config s
| reaches_step a s s' : reaches config s -> perform a s = Some s' -> reaches config s'.
End System.
