(* ===== verification/SchedulerSystemFacts.v ===== *)
(** The scheduler with its clients: leases never exceed the capacity they were granted
    under, no waiter is forgotten, and nothing is left behind when the clients are
    done. *)
From stdpp Require Import gmap sets sorting.
From S2P Require Import Prelude Text Planning Goal Scheduler SchedulerFacts SchedulerSystem.

(** ** Where an admission goes in one turn of the actor *)
Definition same_request (i i' : QueuedAdmission) : Prop :=
  qa_id i' = qa_id i /\ qa_priority i' = qa_priority i /\ qa_quotas i' = qa_quotas i /\ qa_global_slot i' = qa_global_slot i.
#[local] Instance same_request_equiv : Equivalence same_request.
Proof. unfold same_request. split; [done|intros i i' (? & ? & ? & ?)|intros i j k (? & ? & ? & ?) (? & ? & ? & ?)]; split_and!; congruence. Qed.
Definition started_as (i : QueuedAdmission) : ActiveAdmission := mkActive (qa_priority i) (keys_of i) (qa_global_slot i).
Lemma started_as_same i i' : same_request i i' -> started_as i' = started_as i.
Proof. unfold started_as, keys_of. by intros (_ & -> & -> & ->). Qed.

Section Places.
Context {Q : Type} `{StableQueue Q QueuedAdmission}.
Implicit Types (s : SchedulerState (Q := Q)) (t : Turn) (ms : list Sent).
Definition ids s : list Z := map qa_id (items s).
Lemma in_ids i s : In i (items s) -> In (qa_id i) (ids s).
Proof. apply in_map. Qed.
(** What dispatch does to the admissions: some waiting ones start and are told so. *)
Record dispatched t s s' ms : Prop := mkDispatched {
  ds_sent : ss_sent s' = ss_sent s ++ ms;
  ds_config : ss_config s' = ss_config s;
  ds_items i' : In i' (items s') -> exists i, In i (items s) /\ same_request i i';
  ds_stay id a : ss_active s !! id = Some a -> ss_active s' !! id = Some a;
  ds_new id a : ss_active s' !! id = Some a -> ss_active s !! id = Some a \/ In (Ready id (inr tt)) ms;
  ds_told m : In m ms -> exists i, In i (items s) /\ m = Ready (qa_id i) (inr tt) /\ tn_listening t (qa_id i) = true
                           /\ ss_active s' !! qa_id i = Some (started_as i);
  ds_left id : In id (ids s) -> In id (ids s') \/ In (Ready id (inr tt)) ms \/ tn_listening t id = false;
}.
Lemma dispatched_refl t s s' :
  ss_sent s' = ss_sent s -> ss_config s' = ss_config s -> ss_active s' = ss_active s ->
  (forall i', In i' (items s') -> exists i, In i (items s) /\ same_request i i') ->
  (forall i, In i (items s) -> exists i', In i' (items s') /\ same_request i i') -> dispatched t s s' [].
Proof.
  intros Es Ec Ea Hi Hi'. split; [by rewrite app_nil_r|done|done|by rewrite Ea|rewrite Ea; by left|done|].
  intros id (i & <- & Hin)%in_map_iff. left. destruct (Hi' _ Hin) as (i' & Hin' & <- & _). by apply in_ids.
Qed.
Lemma dispatched_same t s : dispatched t s s [].
Proof. apply dispatched_refl; [done..| |]; intros i Hi; by exists i. Qed.
Lemma dispatched_trans t s1 s2 s3 ms ms' : dispatched t s1 s2 ms -> dispatched t s2 s3 ms' -> dispatched t s1 s3 (ms ++ ms').
Proof.
  intros [S1 C1 I1 A1 N1 T1 L1] [S2 C2 I2 A2 N2 T2 L2]. split.
  - by rewrite S2, S1, app_assoc.
  - congruence.
  - intros i3 (i2 & H2 & E2)%I2. destruct (I1 _ H2) as (i1 & H1 & E1). exists i1. split; [done|by etransitivity].
  - eauto.
  - intros id a [Ha|Ha]%N2; rewrite in_app_iff; [destruct (N1 _ _ Ha); auto|auto].
  - intros m [Hm|Hm]%in_app_iff.
    + destruct (T1 _ Hm) as (i & Hi & E & Hl & Ha). exists i. eauto.
    + destruct (T2 _ Hm) as (i2 & Hi2 & E & Hl & Ha). destruct (I1 _ Hi2) as (i1 & Hi1 & Es). exists i1.
      destruct (Es) as (Eid & _). rewrite <-Eid. split_and!; [done..|]. by rewrite Ha, (started_as_same _ _ Es).
  - intros id Hin. rewrite in_app_iff. destruct (L1 _ Hin) as [Hin2|[?|?]]; [|by auto..]. destruct (L2 _ Hin2) as [?|[?|?]]; auto.
Qed.
Lemma aging_dispatched t s : sched_ok s -> dispatched t s (apply_aging t s) [].
Proof.
  intros Hok. destruct (apply_aging_spec t s (ok_queue _ Hok)) as (q & c & l & l' & -> & _ & Hl & Hl' & _ & Ha & _).
  apply dispatched_refl; [done..| |].
  - intros i' Hin. unfold items in Hin. cbn in Hin. rewrite <-Hl' in Hin. apply in_map_iff in Hin as (e' & <- & He').
    apply list_elem_of_In, list_elem_of_lookup in He' as (k & Hk). destruct (Forall2_lookup_r _ _ _ _ _ Ha Hk) as (e & He & _ & ->).
    exists (it_value e). split; [|done]. apply in_map, list_elem_of_In. rewrite <-Hl. by eapply list_elem_of_lookup_2.
  - intros i Hin. unfold items in Hin. rewrite <-Hl in Hin. apply in_map_iff in Hin as (e & <- & He).
    apply list_elem_of_In, list_elem_of_lookup in He as (k & Hk). destruct (Forall2_lookup_l _ _ _ _ _ Ha Hk) as (e' & He' & _ & Ev).
    exists (it_value e'). rewrite Ev. split; [|done]. rewrite <-Ev. unfold items. cbn. rewrite <-Hl'. apply in_map, list_elem_of_In. by eapply list_elem_of_lookup_2.
Qed.
Lemma release_quotas_frame keys c s : exists q r o, release_active_quotas keys c s = set_quotas q (set_retained r o s).
Proof. apply settle_reframed. Qed.
Lemma admit_dispatched t item q s : leaves item q s -> sched_ok s ->
  dispatched t s (admit_item t item (set_pending q s)) (if tn_listening t (qa_id item) then [Ready (qa_id item) (inr tt)] else []).
Proof.
  intros Hl Hok. destruct (leaves_facts _ _ _ Hl Hok) as (Hf & _). destruct Hl as [_ Hp].
  assert (Hsub : forall i, In i (items (set_pending q s)) -> In i (items s)).
  { intros i Hi. apply list_elem_of_In. rewrite Hp. right. by apply list_elem_of_In. }
  assert (Hid : forall id, In id (ids s) -> id = qa_id item \/ In id (ids (set_pending q s))).
  { intros id Hin. unfold ids in Hin. rewrite Hp in Hin. destruct Hin; auto. }
  assert (Hin : In item (items s)) by (apply list_elem_of_In; rewrite Hp; by left).
  unfold admit_item. fold (keys_of item). cbn zeta. destruct (tn_listening t (qa_id item)) eqn:El; cbn [negb].
  - split; [done|done|by intros i' Hi'; exists i'; split; [apply Hsub|]|..]; cbn.
    + intros id a Ea. rewrite lookup_insert_ne; [done|congruence].
    + intros id a [[<- _]|[_ ?]]%lookup_insert_Some; auto.
    + intros m [<-|[]]. exists item. by rewrite lookup_insert_eq.
    + intros id [->|?]%Hid; auto.
  - match goal with |- context[release_active_quotas ?k ?c ?s1] => destruct (release_quotas_frame k c s1) as (q' & r & o & ->) end.
    split; [by rewrite app_nil_r|done|by intros i' Hi'; exists i'; split; [apply Hsub|]|..]; cbn.
    + intros id a Ea. rewrite lookup_delete_ne, lookup_insert_ne; congruence.
    + intros id a [Hne [[? _]|[_ ?]]%lookup_insert_Some]%lookup_delete_Some; auto; congruence.
    + done.
    + intros id [->|?]%Hid; auto.
Qed.
Lemma loop_dispatched fuel t s : sched_ok s -> exists ms, dispatched t s (dispatch_loop fuel t s) ms.
Proof.
  revert s. induction fuel as [|fuel IH]; intros s Hok; cbn [dispatch_loop].
  - exists []. apply dispatched_same.
  - set (b := global_active_count s <? _). destruct (pop_admissible_spec b s (ok_queue _ Hok)) as (q & E2 & Hq & Hm).
    destruct (pop_admissible b s) as [[item|] s1]; cbn [fst snd] in *; subst s1.
    + destruct Hm as (l1 & e & l2 & E & Eq & <- & Ha & _).
      assert (Hl : leaves (it_value e) q s).
      { split; [done|]. unfold items. cbn. rewrite E, Eq, !map_app. cbn. by rewrite Permutation_middle. }
      destruct (admit_ok t b (it_value e) q s Hl Hok Ha) as (H1 & _); [apply Z.ltb_lt|].
      destruct (IH _ H1) as (ms & Hms). eexists. eapply dispatched_trans; [by apply admit_dispatched|exact Hms].
    + destruct Hm as [Eo _]. exists []. apply dispatched_refl; [done..| |]; unfold items; cbn; rewrite Eo; intros i Hi; by exists i.
Qed.
Lemma dispatch_dispatched t s : sched_ok s -> exists ms, dispatched t s (dispatch t s) ms.
Proof.
  intros Hok. unfold dispatch. destruct (ss_closing s).
  - exists []. apply dispatched_same.
  - destruct (loop_dispatched (S (queue_len (ss_pending (apply_aging t s)))) t (apply_aging t s) (aging_ok t s Hok)) as (ms & Hms).
    exists ms. exact (dispatched_trans _ _ _ _ _ _ (aging_dispatched t s Hok) Hms).
Qed.

(** What handling a message does to the admissions. [joins m i]: the message brings the
    request [i]. *)
Definition joins (m : SchedulerMessage) (i : QueuedAdmission) : Prop := m = Enqueue i.
Definition known m s (i : QueuedAdmission) : Prop := In i (items s) \/ joins m i.
Record handled t m s s' ms : Prop := mkHandled {
  hd_sent : ss_sent s' = ss_sent s ++ ms;
  hd_config : ss_config s' = ss_config s;
  hd_items i' : In i' (items s') -> exists i, known m s i /\ same_request i i';
  hd_stay id a : ss_active s !! id = Some a -> m <> Release id -> ss_active s' !! id = Some a;
  hd_new id a : ss_active s' !! id = Some a -> (ss_active s !! id = Some a /\ m <> Release id) \/ In (Ready id (inr tt)) ms;
  hd_told id : In (Ready id (inr tt)) ms -> exists i, known m s i /\ qa_id i = id /\ tn_listening t id = true
       /\ ss_active s' !! id = Some (started_as i) /\ Forall (registered (ss_quotas s')) (qa_quotas i);
  hd_refused id e : In (Ready id (inl e)) ms -> (exists i, known m s i /\ qa_id i = id) /\ ss_active s' !! id = None /\ ~ In id (ids s');
  hd_left i : known m s i -> In (qa_id i) (ids s') \/ (exists a, In (Ready (qa_id i) a) ms) \/ tn_listening t (qa_id i) = false;
}.
(** An admission that started keeps its quotas registered with its limits. *)
Lemma told_limits t s s' ms id : sched_ok s -> sched_ok s' -> shrinks (ss_quotas s) (ss_quotas s') -> dispatched t s s' ms ->
  In (Ready id (inr tt)) ms -> exists i, In i (items s) /\ qa_id i = id /\ tn_listening t id = true
    /\ ss_active s' !! id = Some (started_as i) /\ Forall (registered (ss_quotas s')) (qa_quotas i).
Proof.
  intros Hok Hok' Hs Hd Hin. destruct (ds_told _ _ _ _ Hd _ Hin) as (i & Hi & [= ->] & Hl & Ha). exists i. split_and!; [done..|].
  pose proof (ok_limits _ Hok) as Hlim. rewrite List.Forall_forall in Hlim. specialize (Hlim _ Hi). rewrite List.Forall_forall in *.
  intros quota Hq. eapply registered_kept; [exact Hs|apply (ok_accounts _ Hok')| |by apply Hlim]. right.
  apply (count_In _ (keys_of i)); [|by apply in_map]. unfold running_keys, running. rewrite map_map.
  apply in_map_iff. exists (qa_id i, started_as i). split; [done|]. by apply list_elem_of_In, elem_of_map_to_list.
Qed.
(** Dispatch after the queue was changed by the message. *)
Lemma handled_dispatch t m s s1 s' ms0 ms :
  sched_ok s1 -> sched_ok s' -> shrinks (ss_quotas s1) (ss_quotas s') -> dispatched t s1 s' ms ->
  ss_sent s1 = ss_sent s ++ ms0 -> ss_config s1 = ss_config s ->
  (forall i', In i' (items s1) -> known m s i') ->
  (forall id a, ss_active s !! id = Some a -> m <> Release id -> ss_active s1 !! id = Some a) ->
  (forall id a, ss_active s1 !! id = Some a -> ss_active s !! id = Some a /\ m <> Release id) ->
  (forall x, In x ms0 -> exists i e, known m s i /\ x = Ready (qa_id i) (inl e) /\ ss_active s1 !! qa_id i = None /\ ~ In (qa_id i) (ids s1)) ->
  (forall i, known m s i -> In (qa_id i) (ids s1) \/ (exists a, In (Ready (qa_id i) a) ms0) \/ tn_listening t (qa_id i) = false) ->
  handled t m s s' (ms0 ++ ms).
Proof.
  intros Hok1 Hok' Hs Hd Es Ec Hi Hst Hnew Href Hleft.
  assert (Hno : forall id, In (Ready id (inr tt)) (ms0 ++ ms) -> In (Ready id (inr tt)) ms).
  { intros id [Hin|Hin]%in_app_iff; [|done]. by destruct (Href _ Hin) as (? & ? & _ & ? & _). }
  split.
  - by rewrite (ds_sent _ _ _ _ Hd), Es, app_assoc.
  - by rewrite (ds_config _ _ _ _ Hd).
  - intros i' (i & Hin & E)%(ds_items _ _ _ _ Hd). exists i. auto.
  - intros id a Ha Hm. by apply (ds_stay _ _ _ _ Hd), Hst.
  - intros id a [Ha|Ha]%(ds_new _ _ _ _ Hd); [left; auto|right; rewrite in_app_iff; auto].
  - intros id Hin%Hno. destruct (told_limits _ _ _ _ _ Hok1 Hok' Hs Hd Hin) as (i & Hin1 & ?). exists i. auto.
  - intros id e [Hin|Hin]%in_app_iff; [|by destruct (ds_told _ _ _ _ Hd _ Hin) as (? & _ & ? & _)].
    destruct (Href _ Hin) as (j & ? & Hj & [= -> <-] & Ha & Hq). split; [by exists j|]. split.
    + destruct (ss_active s' !! qa_id j) as [a|] eqn:E; [|done]. destruct (ds_new _ _ _ _ Hd _ _ E) as [E1|Ht]; [congruence|].
      destruct (ds_told _ _ _ _ Hd _ Ht) as (i & Hi1 & [= Eid] & _). destruct Hq. rewrite Eid. by apply in_ids.
    + intros (i' & E' & Hi')%in_map_iff. destruct (ds_items _ _ _ _ Hd _ Hi') as (i & Hi1 & Eid & _). destruct Hq. rewrite <-E', Eid. by apply in_ids.
  - intros i Hk. destruct (Hleft _ Hk) as [Hin|[(a & Ha)|?]]; [|right; left; exists a; rewrite in_app_iff; auto|auto].
    destruct (ds_left _ _ _ _ Hd _ Hin) as [?|[?|?]]; [auto|right; left; exists (inr tt); rewrite in_app_iff; auto|auto].
Qed.
(** Other sends and the waiters of a shutdown do not matter to admissions. *)
Lemma handled_more t m s s' s'' ms more :
  handled t m s s' ms -> ss_sent s'' = ss_sent s' ++ more -> ss_config s'' = ss_config s' -> items s'' = items s' ->
  ss_active s'' = ss_active s' -> ss_quotas s'' = ss_quotas s' -> (forall id a, ~ In (Ready id a) more) -> handled t m s s'' (ms ++ more).
Proof.
  intros Hh Es Ec Ei Ea Eq Hm. assert (Hin : forall id a, In (Ready id a) (ms ++ more) <-> In (Ready id a) ms).
  { intros id a. rewrite in_app_iff. specialize (Hm id a). tauto. }
  destruct Hh as [S C I A N T R L]. split; unfold ids; rewrite ?Ei, ?Ea, ?Eq; try setoid_rewrite Hin; try done.
  - by rewrite Es, S, app_assoc.
  - by rewrite Ec, C.
Qed.
Lemma handled_same t m s s' ms :
  sched_ok s -> (forall i, ~ joins m i) -> (forall id, m <> Release id) -> ss_sent s' = ss_sent s ++ ms -> ss_config s' = ss_config s ->
  items s' = items s -> ss_active s' = ss_active s -> ss_quotas s' = ss_quotas s -> (forall id a, ~ In (Ready id a) ms) -> handled t m s s' ms.
Proof.
  intros Hok Hj Hr Es Ec Ei Ea Eq Hm. apply (handled_more t m s s s' []); [|done..].
  apply (handled_dispatch t m s s s [] []); try done.
  - apply dispatched_same.
  - by rewrite app_nil_r.
  - intros i Hi. by left.
  - intros i [Hi|Hi]; [left; by apply in_ids|by destruct (Hj i)].
Qed.
Lemma answer_frame t id a s : exists ms, answer_waiter t id a s = send ms s /\
  (forall x, In x ms -> x = Ready id a) /\ (In (Ready id a) ms \/ tn_listening t id = false).
Proof.
  unfold answer_waiter. destruct (tn_listening t id); [exists [Ready id a]; cbn; naive_solver|exists []].
  split_and!; [|done|by right]. unfold send. rewrite app_nil_r. by destruct s.
Qed.
Lemma refused_handled t item e s s' :
  sched_ok s' -> fresh item s -> ss_sent s' = ss_sent s -> ss_config s' = ss_config s -> ss_active s' = ss_active s -> items s' = items s ->
  exists ms, handled t (Enqueue item) s (answer_waiter t (qa_id item) (inl e) s') ms.
Proof.
  intros Hok [Hf Hf'] Es Ec Ea Ei. destruct (answer_frame t (qa_id item) (inl e) s') as (ms & -> & Hms & Hl). exists (ms ++ []).
  apply (handled_dispatch t _ s (send ms s')); try done; cbn.
  - by apply ok_send.
  - by apply ok_send.
  - apply dispatched_same.
  - by rewrite Es.
  - intros i. change (items (send ms s')) with (items s'). rewrite Ei. by left.
  - intros id a. by rewrite Ea.
  - intros id a. by rewrite Ea.
  - intros x ->%Hms. exists item, e. unfold ids. split; [by right|]. change (items (send ms s')) with (items s'). by rewrite Ea, Ei.
  - intros i [Hi|[= <-]]; [left; apply in_ids; change (items (send ms s')) with (items s'); by rewrite Ei|right].
    destruct Hl; [left; by exists (inl e)|by right].
Qed.
Lemma joined_frame item s : sched_ok s ->
  ss_sent (joined item s) = ss_sent s /\ ss_config (joined item s) = ss_config s /\ ss_active (joined item s) = ss_active s
  /\ items (joined item s) ≡ₚ item :: items s.
Proof.
  intros Hok. destruct (register_all_spec (qa_quotas item) s (ok_retention _ Hok)) as ((q & r & o & E) & _). unfold joined. rewrite E. cbn.
  split_and!; [done..|]. unfold items. cbn. by rewrite ordered_push, insert_sorted_perm.
Qed.
Lemma enqueue_handled t item s : sched_ok s -> fresh item s -> valid_quotas (qa_quotas item) ->
  exists ms, handled t (Enqueue item) s (enqueue t item s) ms.
Proof.
  intros Hok Hf Hv. unfold enqueue. destruct (ss_closing s) eqn:Ec; [by apply refused_handled|].
  destruct (Z.leb_spec MAX_PENDING_ADMISSIONS (Z.of_nat (queue_len (ss_pending s)))) as [Hl|Hl]; [by apply refused_handled|].
  unfold register_pending_quotas. destruct (existsb (conflicts s) (qa_quotas item)) eqn:Ex.
  - apply refused_handled; [by apply ok_counters|done..].
  - destruct (join_ok item s Hok Hf Hv) as (H1 & _); [|by unfold items; rewrite length_map|done|].
    { intros quota Hin. destruct (conflicts s quota) eqn:E; [|done]. rewrite <-Ex. symmetry. apply existsb_exists. by exists quota. }
    destruct (joined_frame item s Hok) as (Fs & Fc & Fa & Fi). destruct (dispatch_dispatched t (joined item s) H1) as (ms & Hd).
    destruct (dispatch_ok t (joined item s) H1) as (H2 & _ & S & _). exists ([] ++ ms).
    apply (handled_dispatch t _ s (joined item s)); rewrite ?Fa, ?app_nil_r; try done.
    + intros i Hin. rewrite Fi in Hin. destruct Hin as [<-|Hin]; [by right|by left].
    + intros i Hk. left. unfold ids. rewrite Fi. destruct Hk as [Hin|[= <-]]; [right; by apply in_map|by left].
Qed.
Lemma finish_shutdown_handled t m s s' ms : handled t m s s' ms -> exists ms', handled t m s (finish_shutdown_if_idle s') ms'.
Proof.
  intros Hh. unfold finish_shutdown_if_idle. case_match; [|by exists ms]. eexists.
  eapply (handled_more t m s s'); [exact Hh|done..|]. by intros id a (w & Hw & _)%in_map_iff.
Qed.
(** A release ends a running admission, or takes a waiting one off the queue. *)
Lemma release_frame t id s : sched_ok s ->
  ss_config (release t id s) = ss_config s /\ ss_active (release t id s) = delete id (ss_active s)
  /\ exists ms, ss_sent (release t id s) = ss_sent s ++ ms
     /\ (items (release t id s) = items s /\ ms = [] /\ ~ In id (ids s) \/
         exists item, qa_id item = id /\ items s ≡ₚ item :: items (release t id s)
           /\ (forall x, In x ms -> x = Ready id (inl Refusal.Cancelled)) /\ (In (Ready id (inl Refusal.Cancelled)) ms \/ tn_listening t id = false)).
Proof.
  intros Hok. unfold release. destruct (ss_active s !! id) as [a|] eqn:Ea.
  - match goal with |- context[release_active_quotas ?k ?c ?s1] => destruct (release_quotas_frame k c s1) as (q & r & o & ->) end. cbn.
    split_and!; [done..|]. exists []. rewrite app_nil_r. split; [done|]. left. split_and!; [done..|].
    intros Hin. by rewrite (ok_apart _ Hok) in Ea.
  - rewrite delete_id by done. pose proof (remove_pending_spec id s Hok) as Hr. destruct (remove_pending id s) as [[item|] s'].
    + destruct Hr as (Eid & _ & q & -> & Hq & Hp). unfold cancel_pending. cbn zeta.
      destruct (settle_reframed quota_cancel (map quota_key (qa_quotas item)) (set_counters (count_cancelled (ss_counters s)) (set_pending q s))) as (q' & r & o & Es).
      cbn in Es |- *. rewrite Es. destruct (answer_frame t (qa_id item) (inl Refusal.Cancelled) (set_quotas q' (set_retained r o (set_counters (count_cancelled (ss_counters s)) (set_pending q s))))) as (ms & Ea' & Hms & Hl).
      rewrite Ea'. cbn. rewrite Eid in *. split_and!; [done..|]. exists ms. split; [done|]. right. exists item. done.
    + destruct Hr as (Hn & q & -> & Hq & Eo). cbn. split_and!; [done..|]. exists []. rewrite app_nil_r. split; [done|]. left. unfold items. cbn. by rewrite Eo.
Qed.
Lemma release_handled t id s : sched_ok s -> exists ms, handled t (Release id) s (handle t (Release id) s) ms.
Proof.
  intros Hok. cbn [handle]. destruct (release_ok t id s Hok) as [H1 _]. destruct (dispatch_ok t (release t id s) H1) as (H2 & _ & S & _).
  destruct (dispatch_dispatched t (release t id s) H1) as (ms & Hd). destruct (release_frame t id s Hok) as (Fc & Fa & ms0 & Fs & Hi).
  apply (finish_shutdown_handled _ _ _ _ (ms0 ++ ms)). apply (handled_dispatch t _ s (release t id s)); try done.
  - intros i Hin. left. destruct Hi as [(E & _)|(item & _ & Hp & _)]; [by rewrite <-E|]. apply list_elem_of_In. rewrite Hp. right. by apply list_elem_of_In.
  - intros i a Ha Hm. rewrite Fa, lookup_delete_ne; congruence.
  - intros i a. rewrite Fa. intros [Hne Ha]%lookup_delete_Some. split; congruence.
  - destruct Hi as [(_ & -> & _)|(item & <- & Hp & Hms & _)]; [done|]. intros x ->%Hms. exists item. eexists. split; [left; apply list_elem_of_In; rewrite Hp; by left|]. split; [done|]. rewrite Fa, lookup_delete_eq. split; [done|].
    pose proof (ok_ids _ Hok) as Hn. rewrite Hp in Hn. cbn in Hn. apply list.NoDup_cons in Hn as [Hn _]. by rewrite <-list_elem_of_In.
  - intros i [Hin|Hj]; [|done]. destruct Hi as [(E & _)|(item & <- & Hp & _ & Hl)]; [left; unfold ids; rewrite E; by apply in_map|].
    apply list_elem_of_In in Hin. rewrite Hp in Hin. apply elem_of_cons in Hin as [->|Hin]; [|left; by apply in_map, list_elem_of_In].
    right. destruct Hl; [left; by eexists|by right].
Qed.
Lemma reject_all_frame t l s : let s' := fold_left (reject_item t) l s in
  ss_config s' = ss_config s /\ ss_active s' = ss_active s /\ ss_pending s' = ss_pending s
  /\ exists ms, ss_sent s' = ss_sent s ++ ms
     /\ (forall x, In x ms -> exists e, In e l /\ x = Ready (qa_id (it_value e)) (inl Refusal.Closed))
     /\ forall e, In e l -> In (Ready (qa_id (it_value e)) (inl Refusal.Closed)) ms \/ tn_listening t (qa_id (it_value e)) = false.
Proof.
  cbn zeta. revert s. induction l as [|e l IH]; intros s; cbn [fold_left].
  - split_and!; [done..|]. exists []. by rewrite app_nil_r.
  - assert (E : exists ms q r o c, reject_item t s e = send ms (set_quotas q (set_retained r o (set_counters c s)))
                /\ (forall x, In x ms -> x = Ready (qa_id (it_value e)) (inl Refusal.Closed))
                /\ (In (Ready (qa_id (it_value e)) (inl Refusal.Closed)) ms \/ tn_listening t (qa_id (it_value e)) = false)).
    { unfold reject_item, reject_pending_quotas. cbn zeta.
      match goal with |- context[settle_quotas ?f ?k ?s1] => destruct (settle_reframed f k s1) as (q & r & o & ->) end.
      match goal with |- context[answer_waiter t ?i ?a ?s1] => destruct (answer_frame t i a s1) as (ms & -> & ?) end. by eexists _, _, _, _, _. }
    destruct E as (ms & q & r & o & c & -> & Hms & Hl). destruct (IH (send ms (set_quotas q (set_retained r o (set_counters c s))))) as (-> & -> & -> & ms' & -> & Hms' & Hl').
    split_and!; [done..|]. exists (ms ++ ms'). cbn. rewrite app_assoc. split_and!; [done|..].
    + intros x [Hx|Hx]%in_app_iff; [exists e; auto|]. destruct (Hms' _ Hx) as (e' & ? & ?). exists e'. auto.
    + intros e' [<-|He']; rewrite in_app_iff; [destruct Hl; auto|]. destruct (Hl' _ He'); auto.
Qed.
Lemma shutdown_handled t w s : sched_ok s -> exists ms, handled t (Shutdown w) s (shutdown t w s) ms.
Proof.
  intros Hok. pose proof (shutdown_ok t w s Hok) as [Hok' _]. unfold shutdown in *. cbn [ss_pending set_closing] in *.
  destruct (drain_spec (ss_pending s)) as (q0 & E & E0 & _). rewrite E in *.
  match goal with |- context[fold_left (reject_item t) ?l ?s1] => destruct (reject_all_frame t l s1) as (Fc & Fa & Fp & ms & Fs & Hms & Hl); set (s2 := fold_left _ l s1) in * end.
  assert (Ei : items s2 = []) by (unfold items; rewrite Fp; cbn; by rewrite E0).
  apply (finish_shutdown_handled _ _ _ _ ms). split; cbn; unfold ids; try rewrite Ei; try done.
  - intros i' Hin. change (In i' (items s2)) in Hin. by rewrite Ei in Hin.
  - intros id a Ha _. by rewrite Fa.
  - intros id a. rewrite Fa. by left.
  - intros id (e & _ & ?)%Hms. done.
  - intros id e (x & Hx & [= -> ->])%Hms. change (items (set_closing _ _ s2)) with (items s2). rewrite Ei, Fa. split; [exists (it_value x); split; [left; by apply in_map|done]|]. split; [|by intros []].
    cbn. apply (ok_apart _ Hok), in_map. by apply in_map.
  - intros i [(x & <- & Hx)%in_map_iff|Hj]; [|done]. right. destruct (Hl _ Hx); [left; by eexists|by right].
Qed.
Lemma handle_handled t m s : sched_ok s -> acceptable m s -> exists ms, handled t m s (handle t m s) ms.
Proof.
  intros Hok Hm. destruct m as [item|id|r|r|quota r|quota r|w]; cbn [handle].
  - by apply enqueue_handled; [|apply Hm|apply Hm].
  - by apply release_handled.
  - eexists. apply handled_same; try done. intros id a [?|[]]. done.
  - exists ([] ++ [RepliedHealth r (health_snapshot (apply_aging t s))]). eapply handled_more; [|done..|by intros id a [?|[]]].
    apply (handled_dispatch t _ s s _ []); try done.
    + by apply aging_ok.
    + destruct (apply_aging_spec t s (ok_queue _ Hok)) as (q & c & l & l' & -> & _). done.
    + by apply aging_dispatched.
    + by rewrite app_nil_r.
    + intros i Hi. by left.
    + intros i [Hi|Hi]; [left; by apply in_ids|done].
  - eexists. apply handled_same; try done. intros id a [?|[]]. done.
  - eexists. apply handled_same; try done. intros id a [?|[]]. done.
  - by apply shutdown_handled.
Qed.
End Places.

(** ** Deliveries *)
Fixpoint answer_for (id : Z) (ms : list Sent) : option (TaskSchedulerError + unit) :=
  match ms with
  | [] => None
  | Ready id' a :: ms => if id' =? id then Some a else answer_for id ms
  | _ :: ms => answer_for id ms
  end.
Definition with_mail (o : option (TaskSchedulerError + unit)) (c : Client) : Client :=
  match c with Waiting item None => Waiting item o | c => c end.
Lemma answer_for_In id ms a : answer_for id ms = Some a -> In (Ready id a) ms.
Proof. induction ms as [|[] ms IH]; cbn; try done; try (intros; right; by apply IH). destruct (Z.eqb_spec id0 id) as [->|?]; [intros [= ->]; by left|auto]. Qed.
Lemma answer_for_None id ms : answer_for id ms = None -> forall a, ~ In (Ready id a) ms.
Proof.
  induction ms as [|m ms IH]; cbn; intros E a; [by intros []|]. intros [->|Hin].
  - by rewrite Z.eqb_refl in E.
  - destruct m; try by eapply IH. destruct (Z.eqb_spec id0 id); [done|]. by eapply IH.
Qed.
Lemma lookup_deliver ms clients id :
  fold_left deliver ms clients !! id = with_mail (answer_for id ms) <$> clients !! id.
Proof.
  revert clients. induction ms as [|m ms IH]; intros clients; cbn.
  - by destruct (clients !! id) as [[| ? []| |]|].
  - rewrite IH. destruct m as [id' a| | | | |]; cbn; try done. destruct (Z.eqb_spec id' id) as [->|Hne].
    + rewrite lookup_alter_eq. by destruct (clients !! id) as [[| ? []| |]|].
    + by rewrite lookup_alter_ne.
Qed.

(** ** The invariant of the system *)
Section Reachable.
Context {Q : Type} `{StableQueue Q QueuedAdmission}.
Implicit Types (s : System (Q := Q)).
Definition in_flight s : list SchedulerMessage := option_list (sy_current s) ++ sy_inbox s.
Definition releasing s (id : Z) : Prop := In id (sy_releases s) \/ sy_current s = Some (Release id).
Definition request_of (c : Client) : option QueuedAdmission :=
  match c with Sending i | Waiting i _ | Leased i => Some i | Finished _ => None end.
(** The client holds a slot: it has its lease, or the answer that grants it. *)
Definition granted (c : Client) (item : QueuedAdmission) : Prop := c = Leased item \/ c = Waiting item (Some (inr tt)).
(** The client still waits for an answer, or gave up. *)
Definition unanswered (c : Client) (item : QueuedAdmission) : Prop := c = Waiting item None \/ exists o, c = Finished o.
Record sys_ok (config : TaskSchedulerConfig) s : Prop := mkSysOk {
  so_actor : sched_ok (sy_actor s);
  so_saturated : saturated (sy_actor s);
  so_config : ss_config (sy_actor s) = config;
  so_ids id c : sy_clients s !! id = Some c -> id < sy_next_id s;
  so_requests id c item : sy_clients s !! id = Some c -> request_of c = Some item -> qa_id item = id /\ valid_quotas (qa_quotas item);
  so_pending i : In i (items (sy_actor s)) -> exists item c, sy_clients s !! qa_id i = Some c /\ unanswered c item /\ same_request item i;
  so_active id a : ss_active (sy_actor s) !! id = Some a ->
    exists c, sy_clients s !! id = Some c /\ ((exists item, granted c item) \/ (exists o, c = Finished o) /\ releasing s id);
  so_granted id c item : sy_clients s !! id = Some c -> granted c item ->
    ss_active (sy_actor s) !! id = Some (started_as item) /\ Forall (registered (ss_quotas (sy_actor s))) (qa_quotas item);
  so_flight item : In (Enqueue item) (in_flight s) ->
    fresh item (sy_actor s) /\ valid_quotas (qa_quotas item) /\ exists c, sy_clients s !! qa_id item = Some c /\ unanswered c item;
  so_once : NoDup (omap (fun m => match m with Enqueue item => Some (qa_id item) | _ => None end) (in_flight s));
  so_waiting id item : sy_clients s !! id = Some (Waiting item None) ->
    In (Enqueue item) (in_flight s) \/ In id (ids (sy_actor s)) \/ sy_running s = false;
  so_release id : releasing s id -> exists o, sy_clients s !! id = Some (Finished o);
  so_queries m : In m (sy_inbox s) -> (forall id, m <> Release id);
  so_stopped : sy_running s = false -> ss_active (sy_actor s) = ∅ /\ sy_current s = None;
}.
(** A client that is neither sending nor answered is where its request is. *)
Lemma client_finishes config id c o rel s :
  sy_clients s !! id = Some c -> (forall x, In x (sy_releases s) -> In x rel) -> (forall x, In x rel -> In x (sy_releases s) \/ x = id) ->
  ss_active (sy_actor s) !! id = None \/ In id rel -> sys_ok config s ->
  sys_ok config (mkSystem (sy_actor s) (sy_current s) (sy_running s) (sy_closed s) (sy_next_id s) (sy_inbox s) rel (sy_shutdowns s)
                          (<[id := Finished o]> (sy_clients s))).
Proof.
  intros Ec Hr Hr' Hrel [A B C I R P T G F O W L N S].
  assert (Hel : forall id' c', <[id := Finished o]> (sy_clients s) !! id' = Some c' -> id' = id /\ c' = Finished o \/ id' <> id /\ sy_clients s !! id' = Some c').
  { intros id' c' [[<- <-]|[? ?]]%lookup_insert_Some; auto. }
  assert (Hel' : forall id' c', sy_clients s !! id' = Some c' -> id' = id /\ <[id := Finished o]> (sy_clients s) !! id' = Some (Finished o)
                                 \/ id' <> id /\ <[id := Finished o]> (sy_clients s) !! id' = Some c').
  { intros id' c' E. destruct (decide (id' = id)) as [->|Hne]; [left; by rewrite lookup_insert_eq|right; by rewrite lookup_insert_ne]. }
  split; cbn; try done.
  - intros id' c' [[-> ->]|[_ E]]%Hel; eauto.
  - intros id' c' item [[-> ->]|[_ E]]%Hel; [done|]. by apply R.
  - intros i Hi. destruct (P _ Hi) as (item & c' & E & Hu & Hs). destruct (Hel' _ _ E) as [[_ E']|[_ E']]; exists item; eexists; (split; [exact E'|]); split; [right; by eexists|done|done|done].
  - intros id' a Ha. destruct (T _ _ Ha) as (c' & E & Hc). destruct (Hel' _ _ E) as [[-> E']|[_ E']].
    + exists (Finished o). split; [done|]. right. split; [by eexists|]. left. destruct Hrel; [congruence|done].
    + exists c'. split; [done|]. destruct Hc as [?|[? [?|?]]]; [by left|right; split; [done|left; auto]|right; split; [done|by right]].
  - intros id' c' item [[-> ->]|[_ E]]%Hel Hg; [by destruct Hg|]. by apply (G _ _ _ E).
  - intros item Hin. destruct (F _ Hin) as (Hf & Hv & c' & E & Hu). split_and!; [done..|].
    destruct (Hel' _ _ E) as [[_ E']|[_ E']]; eexists; (split; [exact E'|]); [right; by eexists|done].
  - intros id' item [[_ ?]|[_ E]]%Hel; [done|]. by apply W.
  - intros id' [Hin|Hc].
    + destruct (Hr' _ Hin) as [Hin'| ->]; [|exists o; by rewrite lookup_insert_eq]. destruct (L id' (or_introl Hin')) as (o' & E).
      destruct (Hel' _ _ E) as [[_ E']|[_ E']]; eauto.
    + destruct (L id' (or_intror Hc)) as (o' & E). destruct (Hel' _ _ E) as [[_ E']|[_ E']]; eauto.
Qed.
Lemma end_client_ok config id c o s : sy_clients s !! id = Some c -> sys_ok config s -> sys_ok config (end_client id o s).
Proof.
  intros Ec Hok. unfold end_client, post_release, set_client. cbn. destruct (sy_running s) eqn:Er; rewrite <-?Er.
  - eapply client_finishes; [done| | | |done]; intros; rewrite ?in_app_iff in *; cbn in *; naive_solver.
  - eapply client_finishes; [done|auto..|left|done]. by destruct (so_stopped _ _ Hok Er) as [-> _].
Qed.
Lemma finish_sending_ok config id item o s :
  sy_clients s !! id = Some (Sending item) -> sys_ok config s -> sys_ok config (set_client id (Finished o) s).
Proof.
  intros Ec Hok. eapply client_finishes; [done|auto..| |done]. left. destruct (ss_active (sy_actor s) !! id) as [a|] eqn:E; [|done].
  destruct (so_active _ _ Hok _ _ E) as (c & Ec' & [(? & [?|?])|[(? & ?) _]]); congruence.
Qed.
(** A client moves on without a change of the actor. *)
Lemma quotas_problem_spec seen quotas : quotas_problem seen quotas = None ->
  NoDup (map quota_key quotas) /\ (forall q, In q quotas -> ~ In (quota_key q) seen /\ qu_max_active q <> 0).
Proof.
  revert seen. induction quotas as [|q quotas IH]; intros seen; cbn; [intros _; by split; [constructor|]|].
  destruct (quota_validate q) eqn:Ev; [done|]. destruct (existsb _ seen) eqn:Es; [done|]. intros Hp. destruct (IH _ Hp) as [Hn Hs]. split.
  - constructor; [|done]. rewrite list_elem_of_In. intros (q' & E & Hin)%in_map_iff. destruct (Hs _ Hin) as [Hs' _]. destruct Hs'. by left.
  - intros q' [<-|Hin]; [|destruct (Hs _ Hin) as [Hs' ?]; split; [|done]; intros ?; apply Hs'; by right]. split.
    + intros Hin. apply not_true_iff_false in Es. destruct Es. by apply uses_In.
    + unfold quota_validate in Ev. destruct (identity_problem _); [done|]. destruct (Z.eqb_spec (qu_max_active q) 0); [done|]. done.
Qed.
Lemma acquire_valid closed cancelled identity quotas global_slot :
  usize_quotas quotas = true -> acquire_problem closed cancelled identity quotas global_slot = None -> valid_quotas quotas.
Proof.
  unfold acquire_problem. intros Hu. repeat case_match; try done. intros Hp. destruct (quotas_problem_spec _ _ Hp) as [Hn Hm]. split; [done|].
  unfold usize_quotas in Hu. rewrite forallb_forall in Hu. apply List.Forall_forall. intros q Hin. specialize (Hu _ Hin). destruct (Hm _ Hin). lia.
Qed.
Lemma request_ok config p label quotas identity g cancelled at_instant s s' :
  request p label quotas identity g cancelled at_instant s = Some s' -> sys_ok config s -> sys_ok config s'.
Proof.
  unfold request. destruct (usize_quotas quotas) eqn:Eu; cbn; [|done]. destruct (_ <? _); cbn; [|done].
  destruct (acquire_problem _ _ _ _ _) eqn:Ep; [by intros [= <-]|]. intros [= <-] [A B C I R P T G F O W L N S].
  assert (Hnew : forall id c, sy_clients s !! id = Some c -> <[sy_next_id s := Sending (mkAdmission (sy_next_id s) p (lane_priority p) label identity quotas g at_instant)]> (sy_clients s) !! id = Some c).
  { intros id c E. rewrite lookup_insert_ne; [done|]. specialize (I _ _ E). lia. }
  split; cbn; try done.
  - intros id c [[<- _]|[_ E]]%lookup_insert_Some; [lia|]. specialize (I _ _ E). lia.
  - intros id c item [[<- <-]|[_ E]]%lookup_insert_Some; [intros [= <-]; split; [done|by eapply acquire_valid]|by apply R].
  - intros i (item & c & E & ?)%P. exists item, c. auto.
  - intros id a (c & E & ?)%T. exists c. auto.
  - intros id c item [[<- <-]|[_ E]]%lookup_insert_Some; [by intros [|]|by apply G].
  - intros item (? & ? & c & E & ?)%F. split_and!; [done..|]. exists c. auto.
  - intros id item [[<- ?]|[_ E]]%lookup_insert_Some; [done|by apply W].
  - intros id (o & E)%L. exists o. auto.
Qed.
Lemma not_placed config id item s : sy_clients s !! id = Some (Sending item) -> sys_ok config s ->
  fresh item (sy_actor s) /\ forall item', In (Enqueue item') (in_flight s) -> qa_id item' <> id.
Proof.
  intros E Hok. destruct (so_requests _ _ Hok _ _ _ E eq_refl) as [Eid _]. split; [split|].
  - rewrite Eid. destruct (ss_active (sy_actor s) !! id) as [a|] eqn:Ea; [|done].
    destruct (so_active _ _ Hok _ _ Ea) as (c & Ec & [(? & [?|?])|[(? & ?) _]]); congruence.
  - rewrite Eid. intros (i & Ei & Hi)%in_map_iff. destruct (so_pending _ _ Hok _ Hi) as (item' & c & Ec & [?|(? & ?)] & _); congruence.
  - intros item' Hin Ei. destruct (so_flight _ _ Hok _ Hin) as (_ & _ & c & Ec & [?|(? & ?)]); congruence.
Qed.
Lemma send_ok config id item s :
  sy_clients s !! id = Some (Sending item) -> sys_ok config s -> sys_ok config (post (Enqueue item) (set_client id (Waiting item None) s)).
Proof.
  intros E Hok. destruct (not_placed _ _ _ _ E Hok) as [Hf Hfl]. destruct (so_requests _ _ Hok _ _ _ E eq_refl) as [Eid Hv].
  pose proof Hok as [A B C I R P T G F O W L N S].
  assert (Hflight : in_flight (post (Enqueue item) (set_client id (Waiting item None) s)) = in_flight s ++ [Enqueue item]).
  { unfold in_flight. cbn. by rewrite app_assoc. }
  split; rewrite ?Hflight; cbn; try done.
  - intros id' c [[<- <-]|[_ E']]%lookup_insert_Some; eauto.
  - intros id' c item' [[<- <-]|[_ E']]%lookup_insert_Some; [by intros [= <-]|by apply R].
  - intros i (item' & c & E' & Hu & Hs)%P. exists item', c. split; [|done]. rewrite lookup_insert_ne; [done|].
    intros Eq. assert (c = Sending item) as -> by congruence. by destruct Hu as [?|(? & ?)].
  - intros id' a (c & E' & Hc)%T. exists c. split; [|done]. rewrite lookup_insert_ne; [done|].
    intros Eq. assert (c = Sending item) as -> by congruence. by destruct Hc as [(? & [?|?])|[(? & ?) _]].
  - intros id' c item' [[<- <-]|[_ E']]%lookup_insert_Some; [by intros [|]|by apply G].
  - intros item' [Hin|[[= <-]|[]]]%in_app_iff.
    + destruct (F _ Hin) as (? & ? & c & E' & ?). split_and!; [done..|]. exists c. rewrite lookup_insert_ne; [done|].
      intros Eq. by destruct (Hfl _ Hin).
    + split_and!; [done..|]. exists (Waiting item None). rewrite Eid, lookup_insert_eq. split; [done|by left].
  - rewrite omap_app. cbn. apply list.NoDup_app. split_and!; [done| |apply list.NoDup_singleton].
    intros x Hx ->%list_elem_of_singleton. apply list_elem_of_omap in Hx as (m & Hm & Em). destruct m as [item'| | | | | |]; try done.
    injection Em as Em. destruct (Hfl item'); [by apply list_elem_of_In|congruence].
  - intros id' item' [[<- [= <-]]|[_ E']]%lookup_insert_Some; rewrite in_app_iff; [left; right; by left|].
    destruct (W _ _ E') as [?|?]; auto.
  - intros id' (o & E')%L. exists o. rewrite lookup_insert_ne; [done|]. congruence.
  - intros m [Hm|[<-|[]]]%in_app_iff; [by apply N|done].
Qed.
Lemma receive_lease_ok config id item s :
  sy_clients s !! id = Some (Waiting item (Some (inr tt))) -> sys_ok config s -> sys_ok config (set_client id (Leased item) s).
Proof.
  intros E Hok. pose proof Hok as [A B C I R P T G F O W L N S]. split; cbn; try done.
  - intros id' c [[<- <-]|[_ E']]%lookup_insert_Some; eauto.
  - intros id' c item' [[<- <-]|[_ E']]%lookup_insert_Some; [intros [= <-]; by apply (R _ _ _ E)|by apply R].
  - intros i (item' & c & E' & Hu & Hs)%P. exists item', c. split; [|done]. rewrite lookup_insert_ne; [done|].
    intros Eq. assert (c = Waiting item (Some (inr tt))) as -> by congruence. by destruct Hu as [?|(? & ?)].
  - intros id' a (c & E' & Hc)%T. destruct (decide (id' = id)) as [->|Hne].
    + exists (Leased item). rewrite lookup_insert_eq. split; [done|]. left. exists item. by left.
    + exists c. by rewrite lookup_insert_ne.
  - intros id' c item' [[<- <-]|[_ E']]%lookup_insert_Some; [intros [[= <-]|?]; [|done]; apply (G _ _ _ E); by right|by apply G].
  - intros item' (? & ? & c & E' & Hu)%F. split_and!; [done..|]. exists c. rewrite lookup_insert_ne; [done|].
    intros Eq. assert (c = Waiting item (Some (inr tt))) as -> by congruence. by destruct Hu as [?|(? & ?)].
  - intros id' item' [[<- ?]|[_ E']]%lookup_insert_Some; [done|by apply W].
  - intros id' (o & E')%L. exists o. rewrite lookup_insert_ne; [done|]. congruence.
Qed.
Lemma ask_ok config m s : is_query m = true -> sys_ok config s -> sys_ok config (post m s).
Proof.
  intros Hm [A B C I R P T G F O W L N S].
  assert (Hf : in_flight (post m s) = in_flight s ++ [m]) by (unfold in_flight; cbn; by rewrite app_assoc).
  split; rewrite ?Hf; cbn; try done.
  - intros item [Hin|[->|[]]]%in_app_iff; [by apply F|done].
  - rewrite omap_app. destruct m; try done; cbn; by rewrite app_nil_r.
  - intros id item E. destruct (W _ _ E) as [?|?]; [left; by apply in_app_iff; left|by right].
  - intros x [Hx|[<-|[]]]%in_app_iff; [by apply N|]. by destruct m.
Qed.
Lemma pick_ok config channel s s' : pick channel s = Some s' -> sys_ok config s -> sys_ok config s'.
Proof.
  unfold pick. destruct (sy_current s) eqn:Ec; [done|]. destruct (sy_running s) eqn:Er; [|done]. intros E [A B C I R P T G F O W L N S].
  unfold in_flight in *. rewrite Ec in F, O, W. rewrite Er in W. cbn in F, O, W.
  assert (Hrel : forall id, releasing s id <-> In id (sy_releases s)) by (intros id; unfold releasing; rewrite Ec; naive_solver).
  setoid_rewrite Hrel in T. setoid_rewrite Hrel in L.
  destruct channel.
  - destruct (sy_releases s) as [|id0 releases] eqn:El; [done|]. injection E as <-. split; unfold in_flight, releasing; cbn; try done.
    + intros id a (c & E & Hc)%T. exists c. split; [done|]. destruct Hc as [?|[? [->|?]]]; [by left|right..]; auto.
    + intros item [?|Hin]; [done|by apply F].
    + intros id item E. destruct (W _ _ E) as [?|?]; auto.
    + intros id [Hin|[= ->]]; apply L; [by right|by left].
  - destruct (sy_shutdowns s) as [|w shutdowns] eqn:El; [done|]. injection E as <-. split; unfold in_flight, releasing; cbn; try done.
    + intros id a (c & E & Hc)%T. exists c. split; [done|]. destruct Hc as [?|[? ?]]; [by left|right]; auto.
    + intros item [?|Hin]; [done|by apply F].
    + intros id item E. destruct (W _ _ E) as [?|?]; auto.
    + intros id [Hin|?]; [by apply L|done].
  - destruct (sy_inbox s) as [|m inbox] eqn:El; [done|]. injection E as <-. split; unfold in_flight, releasing; cbn; try done.
    + intros id a (c & E & Hc)%T. exists c. split; [done|]. destruct Hc as [?|[? ?]]; [by left|right]; auto.
    + intros id [Hin|[= ->]]; [by apply L|]. by destruct (N (Release id) (or_introl eq_refl) id).
    + intros x Hx. apply N. by right.
Qed.
(** The mail of a client after a turn. *)
Lemma delivered_cases s ms id c' : fold_left deliver ms (sy_clients s) !! id = Some c' ->
  sy_clients s !! id = Some c' /\ (forall item, c' <> Waiting item None)
  \/ exists item, sy_clients s !! id = Some (Waiting item None) /\ c' = Waiting item (answer_for id ms).
Proof.
  rewrite lookup_deliver. intros (c & -> & ->)%fmap_Some. destruct c as [item|item [a|]|item|o]; cbn; [by left|by left|right; by exists item|by left|by left].
Qed.
Lemma delivered_other s ms id c : sy_clients s !! id = Some c -> (forall item, c <> Waiting item None) ->
  fold_left deliver ms (sy_clients s) !! id = Some c.
Proof. rewrite lookup_deliver. intros -> Hc. destruct c as [|? []| |]; [done|done|by destruct (Hc item)|done..]. Qed.
Lemma delivered_waiting s ms id item : sy_clients s !! id = Some (Waiting item None) ->
  fold_left deliver ms (sy_clients s) !! id = Some (Waiting item (answer_for id ms)).
Proof. rewrite lookup_deliver. by intros ->. Qed.
Lemma registered_same q q' p a quota :
  same_limits q q' -> accounts q' p a -> 0 < count (quota_key quota) p \/ 0 < count (quota_key quota) a ->
  registered q quota -> registered q' quota.
Proof.
  intros Hs Hq Hc (x & Ex & Ei & Em). destruct (live_quota _ _ _ _ Hq Hc) as (x' & Ex'). exists x'. destruct (Hs _ _ _ Ex Ex') as [-> ->]. done.
Qed.
Lemma running_counts (a : SchedulerState (Q := Q)) id item quota :
  ss_active a !! id = Some (started_as item) -> In quota (qa_quotas item) -> 0 < count (quota_key quota) (running_keys a).
Proof.
  intros Ha Hq. apply (count_In _ (keys_of item)); [|by apply in_map]. unfold running_keys, running. rewrite map_map.
  apply in_map_iff. exists (id, started_as item). split; [done|]. by apply list_elem_of_In, elem_of_map_to_list.
Qed.
Section Turn.
Context (config : TaskSchedulerConfig) (s : System (Q := Q)) (m : SchedulerMessage) (t : Turn) (actor : SchedulerState (Q := Q)) (ms : list Sent).
Context (Hok : sys_ok config s) (Hm : sy_current s = Some m) (Ht : tn_listening t = listening s).
Context (Hactor : sched_ok actor) (Hsat : saturated actor) (Hlim : same_limits (ss_quotas (sy_actor s)) (ss_quotas actor)).
Context (Hh : handled t m (sy_actor s) actor ms).
(** A request the message knows is that of a client without an answer. *)
Lemma known_client i : known m (sy_actor s) i ->
  exists item c, sy_clients s !! qa_id i = Some c /\ unanswered c item /\ same_request item i.
Proof.
  intros [Hi| ->]; [by apply (so_pending _ _ Hok)|]. destruct (so_flight _ _ Hok i) as (_ & _ & c & E & Hu).
  { unfold in_flight. rewrite Hm. by left. }
  by exists i, c.
Qed.
(** A granted answer goes to a client that waits for it and now has its slot. *)
Lemma told_client id : In (Ready id (inr tt)) ms ->
  exists item, sy_clients s !! id = Some (Waiting item None) /\ answer_for id ms = Some (inr tt)
    /\ ss_active actor !! id = Some (started_as item) /\ Forall (registered (ss_quotas actor)) (qa_quotas item).
Proof.
  intros Hin. destruct (hd_told _ _ _ _ _ Hh _ Hin) as (i & Hk & <- & Hl & Ha & Hr).
  destruct (known_client i Hk) as (item & c & E & Hu & Hs). rewrite Ht in Hl. unfold listening in Hl. rewrite E in Hl.
  destruct Hu as [->|(? & ->)]; [|done]. exists item. split; [done|]. split.
  - destruct (answer_for _ ms) as [[e|[]]|] eqn:Ea; [|done|by destruct (answer_for_None _ _ Ea (inr tt))].
    apply answer_for_In in Ea. destruct (hd_refused _ _ _ _ _ Hh _ _ Ea) as (_ & Hn & _). congruence.
  - rewrite Ha. pose proof (started_as_same _ _ Hs) as ->. split; [done|]. destruct Hs as (_ & _ & Eq & _). by rewrite <-Eq.
Qed.
(** A client without an answer after the turn: the request is still where it was, or waits. *)
Lemma silent_known id i : known m (sy_actor s) i -> qa_id i = id -> listening s id = true -> answer_for id ms = None -> In id (ids actor).
Proof.
  intros Hk <- Hl Ha. destruct (hd_left _ _ _ _ _ Hh _ Hk) as [?|[(a & Hin)|Hn]]; [done| |congruence].
  by destruct (answer_for_None _ _ Ha a).
Qed.
(** A request that is still in its channel is untouched. *)
Lemma flight_untouched item : In (Enqueue item) (sy_inbox s) -> ~ exists i, known m (sy_actor s) i /\ qa_id i = qa_id item.
Proof.
  intros Hin (i & Hk & Ei). destruct (so_flight _ _ Hok item) as ((_ & Hf) & _); [unfold in_flight; apply in_app_iff; by right|].
  destruct Hk as [Hi| ->]; [destruct Hf; rewrite <-Ei; by apply in_ids|].
  pose proof (so_once _ _ Hok) as Hn. unfold in_flight in Hn. rewrite Hm in Hn. cbn in Hn. apply list.NoDup_cons in Hn as [Hn _].
  apply Hn, list_elem_of_omap. exists (Enqueue item). split; [by apply list_elem_of_In|]. by rewrite Ei.
Qed.
Lemma turn_pending i' : In i' (items actor) ->
  exists item c, fold_left deliver ms (sy_clients s) !! qa_id i' = Some c /\ unanswered c item /\ same_request item i'.
Proof.
  intros Hi. destruct (hd_items _ _ _ _ _ Hh _ Hi) as (i & Hk & Es). destruct (known_client i Hk) as (item & c & E & Hu & Es').
  assert (Eid : qa_id i' = qa_id i) by apply Es. rewrite Eid. exists item.
  destruct Hu as [->|(o & ->)]; [|exists (Finished o); split; [by apply delivered_other|split; [right; by eexists|by etransitivity]]].
  exists (Waiting item (answer_for (qa_id i) ms)). split; [by apply delivered_waiting|]. split; [|by etransitivity]. left. f_equal.
  destruct (answer_for _ ms) as [[e|[]]|] eqn:Ea; [..|done]; apply answer_for_In in Ea.
  - destruct (hd_refused _ _ _ _ _ Hh _ _ Ea) as (_ & _ & Hn). destruct Hn. rewrite <-Eid. by apply in_ids.
  - destruct (told_client _ Ea) as (item' & _ & _ & Ha & _). rewrite (ok_apart _ Hactor) in Ha; [done|]. rewrite <-Eid. by apply in_ids.
Qed.
Lemma turn_active id a : ss_active actor !! id = Some a ->
  exists c, fold_left deliver ms (sy_clients s) !! id = Some c /\ ((exists item, granted c item) \/ (exists o, c = Finished o) /\ In id (sy_releases s)).
Proof.
  intros Ha. destruct (hd_new _ _ _ _ _ Hh _ _ Ha) as [[Ho Hr]|Hin].
  - destruct (so_active _ _ Hok _ _ Ho) as (c & E & Hc). exists c. split.
    + apply delivered_other; [done|]. intros item ->. by destruct Hc as [(? & [?|?])|[(? & ?) _]].
    + destruct Hc as [?|[? [?|Hrel]]]; [by left|by right|]. rewrite Hm in Hrel. by injection Hrel as ->.
  - destruct (told_client _ Hin) as (item & E & Ea & _). exists (Waiting item (answer_for id ms)). split; [by apply delivered_waiting|].
    left. exists item. right. by rewrite Ea.
Qed.
Lemma turn_granted id c item : fold_left deliver ms (sy_clients s) !! id = Some c -> granted c item ->
  ss_active actor !! id = Some (started_as item) /\ Forall (registered (ss_quotas actor)) (qa_quotas item).
Proof.
  intros E Hg. destruct (delivered_cases _ _ _ _ E) as [[Eo _]|(item' & Eo & ->)].
  - destruct (so_granted _ _ Hok _ _ _ Eo Hg) as [Ha Hr].
    assert (Ha' : ss_active actor !! id = Some (started_as item)).
    { apply (hd_stay _ _ _ _ _ Hh); [done|]. intros ->. destruct (so_release _ _ Hok id) as (o & Ef); [by right|].
      rewrite Eo in Ef. injection Ef as ->. by destruct Hg. }
    split; [done|]. rewrite List.Forall_forall in *. intros quota Hq.
    eapply registered_same; [exact Hlim|apply (ok_accounts _ Hactor)|right; by eapply running_counts|by apply Hr].
  - destruct Hg as [?|[= -> Ea]]; [done|]. apply answer_for_In in Ea. destruct (told_client _ Ea) as (item' & E' & _ & Ha & Hr).
    rewrite Eo in E'. by injection E' as <-.
Qed.
Lemma turn_flight item : In (Enqueue item) (sy_inbox s) ->
  fresh item actor /\ valid_quotas (qa_quotas item) /\ exists c, fold_left deliver ms (sy_clients s) !! qa_id item = Some c /\ unanswered c item.
Proof.
  intros Hin. pose proof (flight_untouched item Hin) as Hno. destruct (so_flight _ _ Hok item) as ([Hf1 Hf2] & Hv & c & E & Hu); [unfold in_flight; apply in_app_iff; by right|].
  split_and!; [split|done|].
  - destruct (ss_active actor !! qa_id item) as [a|] eqn:Ea; [|done]. destruct (hd_new _ _ _ _ _ Hh _ _ Ea) as [[? _]|Ht']; [congruence|].
    destruct (hd_told _ _ _ _ _ Hh _ Ht') as (i & Hk & Ei & _). destruct Hno. by exists i.
  - intros (i' & Ei & Hi)%in_map_iff. destruct (hd_items _ _ _ _ _ Hh _ Hi) as (i & Hk & Es & _). destruct Hno. exists i. split; [done|congruence].
  - destruct Hu as [->|(o & ->)]; [|exists (Finished o); split; [by apply delivered_other|right; by eexists]].
    exists (Waiting item (answer_for (qa_id item) ms)). split; [by apply delivered_waiting|]. left. f_equal.
    destruct (answer_for _ ms) as [[e|[]]|] eqn:Ea; [..|done]; apply answer_for_In in Ea; destruct Hno.
    + by destruct (hd_refused _ _ _ _ _ Hh _ _ Ea) as (? & _).
    + destruct (hd_told _ _ _ _ _ Hh _ Ea) as (i & ? & ? & _). by exists i.
Qed.
Lemma turn_waiting id item : fold_left deliver ms (sy_clients s) !! id = Some (Waiting item None) ->
  In (Enqueue item) (sy_inbox s) \/ In id (ids actor).
Proof.
  intros E. destruct (delivered_cases _ _ _ _ E) as [[_ Hn]|(item' & Eo & [= -> Ea])]; [by destruct (Hn item)|]. symmetry in Ea.
  assert (Hl : listening s id = true) by (unfold listening; by rewrite Eo).
  destruct (so_requests _ _ Hok _ _ _ Eo eq_refl) as [Eid _].
  destruct (so_waiting _ _ Hok _ _ Eo) as [Hf|[Hp|Hr]].
  - unfold in_flight in Hf. rewrite Hm in Hf. destruct Hf as [Em|Hf]; [right|by left]. apply (silent_known id item'); [by right|done..].
  - right. apply in_map_iff in Hp as (i & Ei & Hi). apply (silent_known id i); [by left|done..].
  - destruct (so_stopped _ _ Hok Hr) as [_ ?]. congruence.
Qed.
Lemma turn_ok closed :
  sys_ok config (mkSystem actor None true closed (sy_next_id s) (sy_inbox s) (sy_releases s) (sy_shutdowns s) (fold_left deliver ms (sy_clients s))).
Proof.
  pose proof Hok as [A B C I R P T G F O W L N S]. split; unfold in_flight, releasing; cbn; try done.
  - by rewrite (hd_config _ _ _ _ _ Hh).
  - intros id c E. destruct (delivered_cases _ _ _ _ E) as [[E' _]|(item & E' & _)]; by eapply I.
  - intros id c item E Hc. destruct (delivered_cases _ _ _ _ E) as [[E' _]|(item' & E' & ->)]; [by apply (R _ _ _ E')|]. by apply (R _ _ _ E').
  - apply turn_pending.
  - intros id a Ha. destruct (turn_active _ _ Ha) as (c & E & Hc). exists c. split; [done|]. destruct Hc as [?|[? ?]]; auto.
  - apply turn_granted.
  - apply turn_flight.
  - unfold in_flight in O. rewrite Hm in O. cbn in O. destruct m; try done. by apply list.NoDup_cons in O as [_ ?].
  - intros id item E. destruct (turn_waiting _ _ E); auto.
  - intros id [Hin|?]; [|done]. destruct (L id (or_introl Hin)) as (o & E). exists o. by apply delivered_other.
Qed.
End Turn.
Lemma stop_ok config s closed : is_finished (sy_actor s) = true -> sys_ok config s ->
  sys_ok config (mkSystem (sy_actor s) None false closed (sy_next_id s) [] [] [] (sy_clients s)).
Proof.
  intros Hf [A B C I R P T G F O W L N S]. unfold is_finished in Hf. apply andb_true_iff in Hf as [[_ He%bool_decide_eq_true]%andb_true_iff _].
  split; unfold in_flight, releasing; cbn; try done.
  - intros id a. by rewrite He.
  - constructor.
  - intros id item E. by right; right.
  - by intros id [[]|?].
Qed.
Lemma handle_current_ok config now admitted_at s s' : handle_current now admitted_at s = Some s' -> sys_ok config s -> sys_ok config s'.
Proof.
  unfold handle_current. destruct (sy_current s) as [m|] eqn:Em; [|done]. intros E Hok. set (t := mkTurn now admitted_at (listening s)) in *.
  assert (Ha : acceptable m (sy_actor s)).
  { destruct m as [item| | | | | |]; try done. destruct (so_flight _ _ Hok item) as (? & ? & _); [unfold in_flight; rewrite Em; by left|done]. }
  destruct (handle_ok t m _ (so_actor _ _ Hok) (so_saturated _ _ Hok) Ha) as (H1 & H2 & H3).
  destruct (handle_handled t m _ (so_actor _ _ Hok) Ha) as (ms & Hh).
  pose proof (hd_sent _ _ _ _ _ Hh) as Es. rewrite Es, drop_app_length in E.
  pose proof (turn_ok config s m t _ ms Hok Em eq_refl H1 H2 H3 Hh) as Hturn.
  destruct (is_finished _) eqn:Ef; injection E as <-; [|apply Hturn]. refine (stop_ok config _ true _ (Hturn true)). exact Ef.
Qed.
Lemma perform_ok config a s s' : perform a s = Some s' -> sys_ok config s -> sys_ok config s'.
Proof.
  intros E Hok. destruct a as [p l q i g c at_instant|id|id|id|id|m|w|channel|now at_i]; cbn in E.
  - by eapply request_ok.
  - unfold send_request in E. destruct (sy_clients s !! id) as [[item| | |]|] eqn:Ec; try done.
    destruct (sy_running s) eqn:Er; cbn in E; [|injection E as <-; by eapply finish_sending_ok].
    destruct (has_room s); [|done]. injection E as <-. by apply send_ok.
  - unfold cancel in E. destruct (sy_clients s !! id) as [[item|item o| |]|] eqn:Ec; try done; injection E as <-; [by eapply finish_sending_ok|by eapply end_client_ok].
  - unfold receive in E. destruct (sy_clients s !! id) as [[item|item [[e|[]]|]| |]|] eqn:Ec; try done.
    + injection E as <-. by eapply end_client_ok.
    + injection E as <-. by apply receive_lease_ok.
    + destruct (sy_running s); [done|]. injection E as <-. by eapply end_client_ok.
  - unfold drop_lease in E. destruct (sy_clients s !! id) as [[| | item|]|] eqn:Ec; try done. injection E as <-. by eapply end_client_ok.
  - unfold ask in E. destruct (is_query m) eqn:Eq; [|done]. destruct (_ || _); [by injection E as <-|].
    cbn in E. destruct (has_room s); [|done]. injection E as <-. by apply ask_ok.
  - unfold request_shutdown in E. destruct (sy_closed s); injection E as <-; [done|]. by destruct Hok.
  - by eapply pick_ok.
  - by eapply handle_current_ok.
Qed.
Definition usize_config (c : TaskSchedulerConfig) : Prop := 0 <= cf_max_active c <= u64_max.
Lemma reaches_ok config s : usize_config config -> reaches config s -> sys_ok config s /\ 0 < cf_max_active config.
Proof.
  intros Hc. induction 1 as [s E|a s s' _ [IH Hm] E]; [|by split; [eapply perform_ok|]].
  unfold new_system in E. destruct (config_validate config) eqn:Ev; [done|]. injection E as <-.
  assert (Hm : 0 < cf_max_active config).
  { unfold config_validate in Ev. destruct (Z.eqb_spec (cf_max_active config) 0); [done|]. unfold usize_config in Hc. lia. }
  split; [|done]. destruct (new_scheduler_ok (Q := Q) config) as [H1 H2]; [lia|].
  assert (Ei : items (new_scheduler (Q := Q) config) = []) by (unfold items; cbn; by rewrite ordered_new).
  split; unfold in_flight, releasing; cbn; try done.
  - intros i. by rewrite Ei.
  - constructor.
  - intros id [[]|?]. done.
Qed.

(** ** What the clients can rely on *)
Definition lease_of (c : Client) : option QueuedAdmission := match c with Leased item => Some item | _ => None end.
Definition held s : list QueuedAdmission := map snd (map_to_list (omap lease_of (sy_clients s))).
Lemma in_held item s : In item (held s) <-> exists id, sy_clients s !! id = Some (Leased item).
Proof.
  unfold held. rewrite in_map_iff. split.
  - intros ([id i] & <- & Hin). apply list_elem_of_In, elem_of_map_to_list in Hin. rewrite lookup_omap in Hin.
    apply bind_Some in Hin as ([] & E & ?); try done. exists id. cbn in *. congruence.
  - intros (id & E). exists (id, item). split; [done|]. apply list_elem_of_In, elem_of_map_to_list. by rewrite lookup_omap, E.
Qed.
Lemma submseteq_filter {A} (f : A -> bool) (l k : list A) : l ⊆+ k -> (length (List.filter f l) <= length (List.filter f k))%nat.
Proof. induction 1; cbn; repeat case_match; cbn; lia. Qed.
Lemma held_running config s : sys_ok config s -> map started_as (held s) ⊆+ running (sy_actor s).
Proof.
  intros Hok. assert (Hsub : started_as <$> (omap lease_of (sy_clients s)) ⊆ ss_active (sy_actor s)).
  { apply map_subseteq_spec. intros id a. rewrite lookup_fmap, lookup_omap. intros (item & Hi & ->)%fmap_Some.
    apply bind_Some in Hi as (c & E & Ec). destruct c; try done. injection Ec as <-. apply (so_granted _ _ Hok _ _ _ E). by left. }
  apply map_to_list_submseteq in Hsub. rewrite map_to_list_fmap in Hsub. unfold held, running.
  apply (fmap_submseteq snd) in Hsub. rewrite <-list_fmap_compose in Hsub. rewrite map_map. exact Hsub.
Qed.
Lemma filter_of_map_length {A B} (f : B -> bool) (g : A -> B) l : length (List.filter f (map g l)) = length (List.filter (fun x => f (g x)) l).
Proof. induction l as [|x l IH]; cbn; [done|]. by destruct (f (g x)); cbn; rewrite IH. Qed.
(** C28. The scheduler never grants more than it may: in every reachable state of the
    scheduler and its clients, under any interleaving of requests, cancellations,
    dropped leases and shutdown, the leases held at once respect the global limit,
    and for each quota of each lease, the limit that lease was requested with. *)
Theorem leases_within_limits config s :
  usize_config config -> reaches config s ->
  Z.of_nat (length (List.filter qa_global_slot (held s))) <= cf_max_active config
  /\ forall item quota, In item (held s) -> In quota (qa_quotas item) ->
       Z.of_nat (length (List.filter (fun i => uses (quota_key quota) (keys_of i)) (held s))) <= qu_max_active quota.
Proof.
  intros Hc [Hok _]%(reaches_ok _ _ Hc). pose proof (held_running _ _ Hok) as Hsub. pose proof (so_actor _ _ Hok) as Ha. split.
  - pose proof (submseteq_filter aa_global_slot _ _ Hsub) as Hl. rewrite filter_of_map_length in Hl.
    pose proof (ok_global _ Ha) as Hg. rewrite (so_config _ _ Hok) in Hg. exact (Z.le_trans _ _ _ (inj_le _ _ Hl) Hg).
  - intros item quota Hi Hq. apply in_held in Hi as (id & E). destruct (so_granted _ _ Hok _ _ _ E (or_introl eq_refl)) as [_ Hr].
    rewrite List.Forall_forall in Hr. destruct (Hr _ Hq) as (x & Ex & _ & <-). pose proof (ok_accounts _ Ha (quota_key quota)) as Hacc. rewrite Ex in Hacc.
    destruct Hacc as (Ec & _ & _ & _ & Hle & _). rewrite Ec in Hle. etransitivity; [|exact Hle]. unfold count, running_keys. apply inj_le.
    rewrite filter_of_map_length. etransitivity; [|apply submseteq_filter, Hsub]. by rewrite filter_of_map_length.
Qed.
(** The books are exact: in every reachable state each live quota counts precisely
    the running and the waiting requests that name it and none is above its limit, a
    quota nobody uses is not live, no request is both waiting and running, and the
    queue and the records of idle quotas are bounded. *)
Theorem accounts_are_exact config s :
  usize_config config -> reaches config s ->
  let a := sy_actor s in
  accounts (ss_quotas a) (waiting_keys a) (running_keys a)
  /\ global_active_count a <= cf_max_active config
  /\ NoDup (ids a) /\ (forall id, In id (ids a) -> ss_active a !! id = None)
  /\ Z.of_nat (length (items a)) <= MAX_PENDING_ADMISSIONS
  /\ (size (ss_retained a) <= 64)%nat /\ forall key, is_Some (ss_retained a !! key) -> ss_quotas a !! key = None.
Proof.
  intros Hc [Hok _]%(reaches_ok _ _ Hc). cbn zeta. destruct (so_actor _ _ Hok) as [Hq Hb Hi Hap Hit Hli Hr Hac Hg ((Hn & Hk) & Hl & Hd) Hcl].
  rewrite (so_config _ _ Hok) in Hg. split_and!; [done..| |].
  - assert (E : dom (ss_retained (sy_actor s)) = list_to_set (ss_retained_order (sy_actor s))).
    { apply set_eq. intros k. rewrite elem_of_dom, elem_of_list_to_set, list_elem_of_In. by rewrite Hk. }
    by rewrite <-size_dom, E, size_list_to_set.
  - intros key (x & Hx). by apply (Hd _ _ Hx).
Qed.
(** C29. Nobody waits without a reason: while the scheduler runs, a request without an
    answer is in its channel or in the queue, and a queued one is held back by the
    global limit or by a quota of its own that is fully used. *)
Theorem waiting_has_a_reason config s id item :
  usize_config config -> reaches config s -> sy_clients s !! id = Some (Waiting item None) -> sy_running s = true ->
  In (Enqueue item) (in_flight s)
  \/ In id (ids (sy_actor s))
     /\ (qa_global_slot item = true /\ cf_max_active config <= global_active_count (sy_actor s)
         \/ exists quota, In quota (qa_quotas item) /\ qu_max_active quota <= count (quota_key quota) (running_keys (sy_actor s))).
Proof.
  intros Hc [Hok _]%(reaches_ok _ _ Hc) E Hr. destruct (so_waiting _ _ Hok _ _ E) as [?|[Hp|?]]; [by left| |congruence].
  right. split; [done|]. apply in_map_iff in Hp as (i & Ei & Hi). destruct (so_pending _ _ Hok _ Hi) as (item' & c & Ec & Hu & Hs).
  rewrite Ei, E in Ec. injection Ec as <-. destruct Hu as [[= <-]|(? & ?)]; [|done]. destruct Hs as (_ & _ & Eq & Eg).
  pose proof (so_saturated _ _ Hok _ Hi) as Ha. unfold admissible in Ha. rewrite (so_config _ _ Hok), Eg, Eq in Ha. apply andb_false_iff in Ha as [Ha|Ha].
  - left. destruct (qa_global_slot item); [|done]. cbn in Ha. apply Z.ltb_ge in Ha. done.
  - right. destruct (so_actor _ _ Hok) as [_ _ _ _ _ Hl _ Hacc _ _ _]. rewrite List.Forall_forall in Hl. specialize (Hl _ Hi). rewrite Eq, List.Forall_forall in Hl.
    apply not_true_iff_false in Ha. rewrite quota_allows_spec in Ha.
    destruct (List.Exists_dec (fun quota => qu_max_active quota <= count (quota_key quota) (running_keys (sy_actor s))) (qa_quotas item)) as [Hx|Hx].
    { intros quota. apply Z_le_dec. }
    + apply List.Exists_exists in Hx as (quota & ? & ?). by exists quota.
    + destruct Ha. intros key (quota & <- & Hq)%in_map_iff. destruct (Hl _ Hq) as (x & Ex & _ & Em). exists x. split; [done|].
      specialize (Hacc (quota_key quota)). rewrite Ex in Hacc. destruct Hacc as (-> & _). rewrite Em.
      apply Z.lt_nge. intros Hle. apply Hx, List.Exists_exists. by exists quota.
Qed.
(** C30. Nothing leaks: when every client is done and the channels are empty, no slot is
    taken, nobody is queued and no quota is live, however the clients ended (answered,
    refused, cancelled before or after admission, lease dropped). *)
Theorem quiescent_is_idle config s :
  usize_config config -> reaches config s -> in_flight s = [] -> sy_releases s = [] ->
  (forall id c, sy_clients s !! id = Some c -> exists o, c = Finished o) ->
  ss_active (sy_actor s) = ∅ /\ items (sy_actor s) = [] /\ ss_quotas (sy_actor s) = ∅.
Proof.
  intros Hc [Hok Hm]%(reaches_ok _ _ Hc) Hf Hr Hd. pose proof (so_actor _ _ Hok) as Ha.
  assert (Hact : ss_active (sy_actor s) = ∅).
  { apply map_empty. intros id. destruct (ss_active (sy_actor s) !! id) as [a|] eqn:Ea; [|done].
    destruct (so_active _ _ Hok _ _ Ea) as (c & E & Hc'). destruct (Hd _ _ E) as (o & ->). destruct Hc' as [(? & [?|?])|[_ [Hin|Hcur]]]; [done..| |].
    - by rewrite Hr in Hin.
    - unfold in_flight in Hf. by rewrite Hcur in Hf. }
  assert (Hrun : running_keys (sy_actor s) = []) by (unfold running_keys, running; by rewrite Hact).
  assert (Hitems : items (sy_actor s) = []).
  { destruct (items (sy_actor s)) as [|i l] eqn:El; [done|]. assert (Hi : In i (items (sy_actor s))) by (rewrite El; by left).
    pose proof (so_saturated _ _ Hok _ Hi) as Hs. unfold admissible in Hs. rewrite (so_config _ _ Hok) in Hs.
    assert (E0 : global_active_count (sy_actor s) = 0) by (unfold global_active_count; by rewrite Hact, map_to_list_empty).
    rewrite E0, (proj2 (Z.ltb_lt _ _) Hm), orb_true_r in Hs. cbn [andb] in Hs.
    apply not_true_iff_false in Hs. destruct Hs. apply quota_allows_spec. intros key (quota & <- & Hq)%in_map_iff.
    pose proof (ok_limits _ Ha) as Hl. rewrite List.Forall_forall in Hl. specialize (Hl _ Hi). rewrite List.Forall_forall in Hl.
    destruct (Hl _ Hq) as (x & Ex & _). exists x. split; [done|]. pose proof (ok_accounts _ Ha (quota_key quota)) as Hacc. rewrite Ex, Hrun in Hacc.
    destruct Hacc as (-> & _ & _ & ? & _). change (count (quota_key quota) []) with 0. lia. }
  split_and!; [done..|]. apply map_empty. intros key. pose proof (ok_accounts _ Ha key) as Hacc. unfold waiting_keys in Hacc. rewrite Hrun, Hitems in Hacc.
  destruct (ss_quotas (sy_actor s) !! key) as [x|]; [|done]. destruct Hacc as (E1 & E2 & Hi & _). unfold idle in Hi. by rewrite E1, E2 in Hi.
Qed.
End Reachable.
