(* ===== verification/SchedulerScenario.v ===== *)
(** A scheduler with one slot and its clients, over a queue kept as a sorted list: the
    theorems on the scheduler are exercised on it. *)
From stdpp Require Import gmap sets sorting.
From S2P Require Import Prelude Text Planning Goal Scheduler SchedulerFacts SchedulerSystem SchedulerSystemFacts.

(** A queue that keeps what Lane promises. *)
#[global] Instance list_queue V : PriorityQueue (list (PriorityItem V) * Z) V := {|
  queue_new := ([], 0);
  queue_push p v q := (insert_sorted item_leb (mkItem p (snd q) v) (fst q), snd q + 1);
  queue_pop q := match fst q with [] => None | item :: items => Some (item, (items, snd q)) end;
  queue_restore item q := (insert_sorted item_leb item (fst q), snd q);
  queue_ordered q := fst q;
|}.
#[global] Instance list_queue_stable V : StableQueue (list (PriorityItem V) * Z) V.
Proof.
  refine {| next_sequence q := snd q |}; try done; cbn.
  - intros _ _ q. lia.
  - by intros q ->.
  - intros q item items ->. by eexists.
Defined.

Module Slots.
Definition config : TaskSchedulerConfig := mkConfig 1 1000.
Definition digest : str := $"sha256:" ++ replicate 64 97.
Definition pool : TaskSchedulerQuota := mkQuota (mkIdentity EXECUTION_IDENTITY_SCHEMA_V1 $"a3s.code.pool.v1" digest) 1.
Abbreviation Queue := (list (PriorityItem QueuedAdmission) * Z)%type.
Definition start : System (Q := Queue) := match new_system config with inr s => s | inl _ => mkSystem (new_scheduler config) None false true 1 [] [] [] ∅ end.
Definition run_all (actions : list Action) (s : System (Q := Queue)) : option System :=
  fold_left (fun s a => s ≫= perform a) actions (Some s).
(** A turn on a message of a channel, at the given second. *)
Definition turn (channel : Channel) (second : Z) : list Action :=
  [Pick channel; Handle (second * 1000000000) (fun _ => second * 1000000000)].
Definition ask_for (p : TaskPriority) (second : Z) : Action := Request p $"work" [pool] None true false (second * 1000000000).
(** The first client has the slot, a maintenance request waits for it, a background one
    arrives behind. *)
Definition contended : list Action :=
  [ask_for Interactive 0; SendRequest 1] ++ turn Inbox 0 ++ [Receive 1; ask_for Maintenance 1; SendRequest 2] ++ turn Inbox 1
  ++ [ask_for Background 2; SendRequest 3] ++ turn Inbox 2.
Definition busy : option System := run_all contended start.
(** One lease is dropped, one request is cancelled, one is served; all are done. *)
Definition reached (o : option System) : System := default start o.
Definition ending : list Action :=
  ([DropLease 1; Cancel 3] ++ turn Releases 5 ++ turn Releases 5 ++ [Receive 2; DropLease 2] ++ turn Releases 6).
Definition done_all : option System := run_all ending (reached busy).
(** A request cancelled while it is still in the channel, behind a taken slot. *)
Definition early : list Action :=
  ([ask_for Interactive 0; SendRequest 1] ++ turn Inbox 0 ++ [Receive 1; ask_for Background 1; SendRequest 2; Cancel 2]
       ++ turn Releases 1 ++ turn Inbox 1).
Definition cancelled_early : option System := run_all early start.
End Slots.
Import Slots.

Lemma run_reaches actions s s' : reaches config s -> run_all actions s = Some s' -> reaches config s'.
Proof.
  unfold run_all. revert s. induction actions as [|a actions IH]; intros s Hr; cbn; [by intros [= <-]|].
  destruct (perform a s) as [s1|] eqn:E; cbn.
  - apply IH. by eapply reaches_step.
  - clear. induction actions; [done|by cbn].
Qed.
Lemma start_reached : reaches config start.
Proof. by apply reaches_new. Qed.
Definition succeeded {A} (o : option A) : bool := match o with Some _ => true | None => false end.
Lemma reached_by actions s :
  reaches config s -> succeeded (run_all actions s) = true ->
  run_all actions s = Some (reached (run_all actions s)) /\ reaches config (reached (run_all actions s)).
Proof.
  intros Hr E. destruct (run_all actions s) as [s'|] eqn:Es; [|done]. split; [done|]. by eapply run_reaches.
Qed.
Lemma busy_reached : reaches config (reached busy).
Proof. apply (reached_by contended start start_reached). vm_compute. reflexivity. Qed.
Lemma done_reached : reaches config (reached done_all).
Proof. apply (reached_by ending (reached busy) busy_reached). vm_compute. reflexivity. Qed.
Lemma config_usize : usize_config config.
Proof. done. Qed.
(** One lease is held, and its quota has room for one. *)
Lemma leases_within_limits_witness : length (held (reached busy)) = 1%nat
  /\ Z.of_nat (length (List.filter (fun i => uses (quota_key pool) (keys_of i)) (held (reached busy)))) <= qu_max_active pool.
Proof.
  split; [by vm_compute|]. destruct (leases_within_limits config (reached busy) config_usize busy_reached) as [_ Hq].
  eapply Hq; [vm_compute; left; reflexivity|vm_compute; left; reflexivity].
Defined.
(** One quota is live, with one running and two waiting requests. *)
Lemma accounts_are_exact_witness :
  (forall x, ss_quotas (sy_actor (reached busy)) !! digest = Some x -> qs_active x = 1 /\ qs_pending x = 2)
  /\ is_Some (ss_quotas (sy_actor (reached busy)) !! digest).
Proof.
  split; [|by vm_compute; eexists]. destruct (accounts_are_exact config (reached busy) config_usize busy_reached) as (Ha & _).
  intros x E. specialize (Ha digest). rewrite E in Ha. destruct Ha as (-> & -> & _). vm_compute. by split.
Defined.
(** The second client waits for the slot. *)
Lemma waiting_has_a_reason_witness : exists item, sy_clients (reached busy) !! 2 = Some (Waiting item None)
  /\ (In (Enqueue item) (in_flight (reached busy))
      \/ In 2 (ids (sy_actor (reached busy)))
         /\ (qa_global_slot item = true /\ cf_max_active config <= global_active_count (sy_actor (reached busy))
             \/ exists quota, In quota (qa_quotas item) /\ qu_max_active quota <= count (quota_key quota) (running_keys (sy_actor (reached busy))))).
Proof.
  destruct (sy_clients (reached busy) !! 2) as [[|item [|]| |]|] eqn:E; try (vm_compute in E; discriminate E).
  exists item. split; [done|]. apply (waiting_has_a_reason config (reached busy) 2 item config_usize busy_reached E). by vm_compute.
Defined.
Lemma quiescent_is_idle_witness :
  ss_active (sy_actor (reached done_all)) = ∅ /\ items (sy_actor (reached done_all)) = [] /\ ss_quotas (sy_actor (reached done_all)) = ∅.
Proof.
  apply (quiescent_is_idle config (reached done_all) config_usize done_reached); [by vm_compute..|].
  intros id c Hc. assert (Hin : (id, c) ∈ map_to_list (sy_clients (reached done_all))) by by apply elem_of_map_to_list.
  apply list_elem_of_In in Hin. vm_compute in Hin. destruct Hin as [[= _ <-]|[[= _ <-]|[[= _ <-]|[]]]]; by eexists.
Defined.
(** After the first lease ends, the maintenance request that came first is taken before
    the background one: both have aged to the same level. *)
Definition later : Turn := mkTurn 5000000000 (fun _ => 5000000000) (fun _ => true).
Definition freed : SchedulerState := release later 1 (sy_actor (reached busy)).
Definition taken := pop_admissible true (apply_aging later freed).
Lemma admission_order_witness :
  exists ex, In ex (queue_ordered (ss_pending freed)) /\ option_map qa_id (fst taken) = Some 2
    /\ forall ey, In ey (queue_ordered (ss_pending freed)) -> admissible freed true (it_value ey) = true -> ey <> ex ->
         waited_out (ss_config freed) (tn_now later) (it_value ey) ->
         option_map qa_priority (fst taken) = Some Urgent \/ it_sequence ex < it_sequence ey.
Proof.
  assert (Hok : sched_ok freed).
  { apply release_ok. destruct (reaches_ok config (reached busy) config_usize busy_reached) as [Hs _]. apply (so_actor _ _ Hs). }
  assert (Hs : succeeded (fst taken) = true) by (vm_compute; reflexivity).
  assert (Hid : option_map qa_id (fst taken) = Some 2) by (vm_compute; reflexivity).
  destruct taken as [[x|] s'] eqn:E; [|done].
  destruct (admission_order later freed true x s' Hok E) as (ex & Hin & Ex & _ & Hall). exists ex. split; [done|]. split.
  - exact Hid.
  - intros ey Hy Ha Hne Hw. destruct (Hall ey Hy Ha Hne) as [_ Ho]. destruct (Ho Hw) as [Hu|?]; [left; cbn; by rewrite Hu|by right].
Defined.

(** A request cancelled before the actor read it: its release comes first, finds nothing
    and is gone; the request is queued afterwards, with no client behind it and no message
    left that would remove it, and it counts against the queue and its quota until the
    slot it waits for is free. *)
Lemma cancelled_request_stays_queued :
  exists s, cancelled_early = Some s /\ reaches config s /\ sy_clients s !! 2 = Some (Finished (Some Refusal.Cancelled))
    /\ in_flight s = [] /\ sy_releases s = [] /\ ids (sy_actor s) = [2]
    /\ qs_pending <$> ss_quotas (sy_actor s) !! digest = Some 1.
Proof.
  destruct (reached_by early start start_reached) as [E Hr]; [vm_compute; reflexivity|]. exists (reached cancelled_early).
  split_and!; [exact E|exact Hr|vm_compute; reflexivity..].
Qed.
