(* ===== verification/Hooks.v ===== *)
(** The outcome of a governance hook ([hooks/contract.rs]), which the run-control inbox and the
    invocation of tools act on. *)
From S2P Require Import Prelude Text.

Inductive HookOutcome : Type :=
| HookContinue (modified : option json)
| HookBlock (reason : str)
| HookRetryLater (reason : str) (retry_after_ms : Z)
| HookSkip
| HookEscalate (reason : str) (target : option str).
