(* ===== verification/RunControl.v ===== *)
(** The control inbox of a run ([run_control.rs]): the wire types, the validation of a
    request, the inbox's state and every operation that changes it.

    The two hash maps of [InboxState] are finite maps; where the code walks one of them
    the walk is in the order of [map_to_list], and every result the code computes from
    such a walk is either sorted afterwards or a set of independent updates. The two
    mutexes and the hooks are in [RunControlSystem]. The serialisation of a request and
    its SHA-256 are parameters, and so is the [append] closure of [persist_pending]. *)
From stdpp Require Import gmap.
From S2P Require Import Prelude Text Hooks.

(** ** Wire types *)
Definition RUN_CONTROL_REQUEST_SCHEMA_V1 : str := $"a3s.code.run-control-request.v1".
Definition RUN_CONTROL_RECEIPT_SCHEMA_V1 : str := $"a3s.code.run-control-receipt.v1".
Definition RUN_CONTROL_MAX_INPUT_BYTES : Z := 128 * 1024.
Definition RUN_CONTROL_MAX_REASON_BYTES : Z := 4 * 1024.
Definition RUN_CONTROL_MAX_QUEUE : Z := 64.
Definition RUN_CONTROL_MAX_SEEN_REQUESTS : Z := 256.
Definition RUN_CONTROL_MAX_ID_BYTES : Z := 512.

Inductive RunControlOperation : Type := OpSteer | OpInterrupt.
Inductive RunControlCommand : Type :=
| Steer (input : str)
| Interrupt (reason : option str) (force : bool).
Definition operation (command : RunControlCommand) : RunControlOperation :=
  match command with Steer _ => OpSteer | Interrupt _ _ => OpInterrupt end.

Record RunControlRequest : Type := mkControl {
  rq_schema : str;
  rq_request_id : str;
  rq_session_id : option str;
  rq_run_id : str;
  rq_expected_turn_id : option str;
  rq_expected_turn_revision : option Z;
  rq_command : RunControlCommand;
  rq_deadline_ms : option Z;
}.

Inductive RunControlReceiptState : Type := Accepted | Applied | Rejected | Settled.
Record RunControlErrorInfo : Type := mkErrorInfo { ei_code : str; ei_message : str }.
Record RunControlReceipt : Type := mkReceipt {
  rc_schema : str;
  rc_request_id : str;
  rc_session_id : str;
  rc_run_id : str;
  rc_operation : RunControlOperation;
  rc_state : RunControlReceiptState;
  rc_sequence : Z;
  rc_turn_id : option str;
  rc_turn_revision : Z;
  rc_accepted_at_ms : Z;
  rc_applied_at_ms : option Z;
  rc_error : option RunControlErrorInfo;
}.
Record RunControlSnapshot : Type := mkSnapshot {
  sn_session_id : str;
  sn_run_id : str;
  sn_active : bool;
  sn_turn_id : option str;
  sn_turn_revision : Z;
  sn_queued_controls : Z;
  sn_interrupt_requested : bool;
  sn_last_sequence : Z;
}.
#[export] Instance RunControlOperation_eq_dec : EqDecision RunControlOperation.
Proof. solve_decision. Defined.
#[export] Instance RunControlCommand_eq_dec : EqDecision RunControlCommand.
Proof. solve_decision. Defined.
#[export] Instance RunControlRequest_eq_dec : EqDecision RunControlRequest.
Proof. solve_decision. Defined.
#[export] Instance RunControlReceiptState_eq_dec : EqDecision RunControlReceiptState.
Proof. solve_decision. Defined.
#[export] Instance RunControlErrorInfo_eq_dec : EqDecision RunControlErrorInfo.
Proof. solve_decision. Defined.
#[export] Instance RunControlReceipt_eq_dec : EqDecision RunControlReceipt.
Proof. solve_decision. Defined.

(** A submodule, so that [Closed] and the other names do not hide those of the
    scheduler's errors. *)
Module ControlError.
Inductive RunControlError : Type :=
| InvalidRequest (message : str)
| SessionMismatch
| RunMismatch (run_id : str)
| NoActiveRun
| StaleTurn (expected_turn_id : option str) (expected_revision : option Z) (actual_turn_id : option str) (actual_revision : Z)
| DeadlineExceeded
| QueueFull
| Closed
| DuplicateRequest (request_id : str)
| HookDenied (reason : str)
| HookRetry (reason : str) (retry_after_ms : Z).
#[export] Instance RunControlError_eq_dec : EqDecision RunControlError.
Proof. solve_decision. Defined.
Definition code (e : RunControlError) : str :=
  match e with
  | InvalidRequest _ => $"INVALID_REQUEST"
  | SessionMismatch => $"SESSION_MISMATCH"
  | RunMismatch _ => $"RUN_MISMATCH"
  | NoActiveRun => $"NO_ACTIVE_RUN"
  | StaleTurn _ _ _ _ => $"STALE_TURN"
  | DeadlineExceeded => $"DEADLINE_EXCEEDED"
  | QueueFull => $"QUEUE_FULL"
  | Closed => $"CLOSED"
  | DuplicateRequest _ => $"DUPLICATE_REQUEST"
  | HookDenied _ => $"HOOK_DENIED"
  | HookRetry _ _ => $"HOOK_RETRY"
  end.
End ControlError.
Abbreviation RunControlError := ControlError.RunControlError.

(** ** Building and validating a request *)
Definition new_control (request_id run_id : str) (command : RunControlCommand) : RunControlRequest :=
  mkControl RUN_CONTROL_REQUEST_SCHEMA_V1 request_id None run_id None None command None.
Record SteerRequest : Type := mkSteer {
  st_input : str;
  st_request_id : option str;
  st_run_id : option str;
  st_expected_turn_id : option str;
  st_expected_turn_revision : option Z;
  st_deadline_ms : option Z;
}.
Record InterruptRequest : Type := mkInterrupt {
  ir_reason : option str;
  ir_force : bool;
  ir_request_id : option str;
  ir_run_id : option str;
  ir_expected_turn_id : option str;
  ir_expected_turn_revision : option Z;
  ir_deadline_ms : option Z;
}.
(** [into_protocol]; [uuid] is the fresh identifier the code draws when there is none. *)
Definition steer_into_protocol (r : SteerRequest) (uuid session_id active_run_id : str) : RunControlRequest :=
  mkControl RUN_CONTROL_REQUEST_SCHEMA_V1 (default uuid (st_request_id r)) (Some session_id)
            (default active_run_id (st_run_id r)) (st_expected_turn_id r) (st_expected_turn_revision r)
            (Steer (st_input r)) (st_deadline_ms r).
Definition interrupt_into_protocol (r : InterruptRequest) (uuid session_id active_run_id : str) : RunControlRequest :=
  mkControl RUN_CONTROL_REQUEST_SCHEMA_V1 (default uuid (ir_request_id r)) (Some session_id)
            (default active_run_id (ir_run_id r)) (ir_expected_turn_id r) (ir_expected_turn_revision r)
            (Interrupt (ir_reason r) (ir_force r)) (ir_deadline_ms r).

Definition is_empty (s : str) : bool := bool_decide (s = []).
Definition invalid_control (message : str) : option RunControlError := Some (ControlError.InvalidRequest message).
Definition control_id_problem (name value : str) : option RunControlError :=
  if is_empty (trim value) then invalid_control (name ++ $" must not be empty")
  else if RUN_CONTROL_MAX_ID_BYTES <? len value then
    invalid_control (name ++ $" exceeds " ++ show RUN_CONTROL_MAX_ID_BYTES ++ $" bytes")
  else if existsb (fun c => (c =? c_nul) || (c =? c_cr) || (c =? c_nl)) value then
    invalid_control (name ++ $" contains a control character")
  else None.
Definition command_problem (command : RunControlCommand) : option RunControlError :=
  match command with
  | Steer input =>
      if is_empty (trim input) then invalid_control $"steer input must not be empty"
      else if RUN_CONTROL_MAX_INPUT_BYTES <? len input then
        invalid_control ($"steer input exceeds " ++ show RUN_CONTROL_MAX_INPUT_BYTES ++ $" bytes")
      else None
  | Interrupt (Some reason) _ =>
      if RUN_CONTROL_MAX_REASON_BYTES <? len reason then
        invalid_control ($"interrupt reason exceeds " ++ show RUN_CONTROL_MAX_REASON_BYTES ++ $" bytes")
      else None
  | Interrupt None _ => None
  end.
(** The first problem of a list of checks run in order, as a chain of [?]. *)
Definition first_problem (problems : list (option RunControlError)) : option RunControlError :=
  head (omap id problems).
Definition control_problem (r : RunControlRequest) : option RunControlError :=
  if negb (str_eqb (rq_schema r) RUN_CONTROL_REQUEST_SCHEMA_V1) then
    invalid_control ($"unsupported schema `" ++ rq_schema r ++ $"`")
  else
    first_problem
      [control_id_problem $"request_id" (rq_request_id r); control_id_problem $"run_id" (rq_run_id r);
       rq_session_id r ≫= control_id_problem $"session_id";
       rq_expected_turn_id r ≫= control_id_problem $"expected_turn_id";
       command_problem (rq_command r)].

(** ** The state of an inbox *)
Record PendingRunControl : Type := mkPending { pn_request : RunControlRequest; pn_receipt : RunControlReceipt }.
#[export] Instance PendingRunControl_eq_dec : EqDecision PendingRunControl.
Proof. solve_decision. Defined.
Record SeenRequest : Type := mkSeen { se_fingerprint : str; se_request : RunControlRequest; se_receipt : RunControlReceipt }.
Record InboxState : Type := mkInbox {
  ib_session_id : str;
  ib_run_id : str;
  ib_active : bool;
  ib_closed : bool;
  ib_turn_id : option str;
  ib_turn_revision : Z;
  ib_queue : list PendingRunControl;
  ib_in_flight : gmap str PendingRunControl;
  ib_seen : gmap str SeenRequest;
  ib_seen_order : list str;
  ib_last_sequence : Z;
  ib_interrupt_requested : bool;
}.
Definition new_inbox (session_id run_id : str) : InboxState :=
  mkInbox session_id run_id true false None 0 [] ∅ ∅ [] 0 false.
(** The pairs of field assignments the operations make. *)
Definition sealed (s : InboxState) : InboxState :=
  mkInbox (ib_session_id s) (ib_run_id s) false true (ib_turn_id s) (ib_turn_revision s) (ib_queue s) (ib_in_flight s)
          (ib_seen s) (ib_seen_order s) (ib_last_sequence s) (ib_interrupt_requested s).
Definition with_copies (queue : list PendingRunControl) (in_flight : gmap str PendingRunControl) (s : InboxState) : InboxState :=
  mkInbox (ib_session_id s) (ib_run_id s) (ib_active s) (ib_closed s) (ib_turn_id s) (ib_turn_revision s) queue in_flight
          (ib_seen s) (ib_seen_order s) (ib_last_sequence s) (ib_interrupt_requested s).
Definition with_seen (seen : gmap str SeenRequest) (order : list str) (s : InboxState) : InboxState :=
  mkInbox (ib_session_id s) (ib_run_id s) (ib_active s) (ib_closed s) (ib_turn_id s) (ib_turn_revision s) (ib_queue s)
          (ib_in_flight s) seen order (ib_last_sequence s) (ib_interrupt_requested s).
Definition saturating_succ (n : Z) : Z := Z.min (n + 1) u64_max.
Definition update_turn_id (turn_id : str) (s : InboxState) : InboxState :=
  if bool_decide (ib_turn_id s = Some turn_id) then s
  else mkInbox (ib_session_id s) (ib_run_id s) (ib_active s) (ib_closed s) (Some turn_id)
               (saturating_succ (ib_turn_revision s)) (ib_queue s) (ib_in_flight s) (ib_seen s) (ib_seen_order s)
               (ib_last_sequence s) (ib_interrupt_requested s).
Definition update_turn (turn : Z) (s : InboxState) : InboxState := update_turn_id ($"turn-" ++ show turn) s.
Definition inbox_snapshot (s : InboxState) : RunControlSnapshot :=
  mkSnapshot (ib_session_id s) (ib_run_id s) (ib_active s && negb (ib_closed s)) (ib_turn_id s) (ib_turn_revision s)
             (Z.of_nat (length (ib_queue s))) (ib_interrupt_requested s) (ib_last_sequence s).

(** ** Controls that are still owed an outcome *)
Definition is_accepted (r : RunControlReceipt) : bool := bool_decide (rc_state r = Accepted).
Definition control_leb (l r : PendingRunControl) : bool :=
  match rc_sequence (pn_receipt l) ?= rc_sequence (pn_receipt r) with
  | Lt => true
  | Gt => false
  | Eq => str_leb (rc_request_id (pn_receipt l)) (rc_request_id (pn_receipt r))
  end.
Definition collect_item (pending : gmap str PendingRunControl) (item : PendingRunControl) : gmap str PendingRunControl :=
  if is_accepted (pn_receipt item) then <[rc_request_id (pn_receipt item) := item]> pending else pending.
Definition collect_seen (pending : gmap str PendingRunControl) (entry : str * SeenRequest) : gmap str PendingRunControl :=
  let '(id, seen) := entry in
  if is_accepted (se_receipt seen) then <[id := mkPending (se_request seen) (se_receipt seen)]> pending
  else delete id pending.
Definition accepted_map (s : InboxState) : gmap str PendingRunControl :=
  foldl collect_seen (foldl collect_item ∅ (ib_queue s ++ (map_to_list (ib_in_flight s)).*2)) (map_to_list (ib_seen s)).
Definition accepted_controls (s : InboxState) : list PendingRunControl :=
  sort_by control_leb (map_to_list (accepted_map s)).*2.

Record OriginalPendingObservation : Type := mkObservation {
  ob_queued_accepted : Z;
  ob_in_flight_accepted : Z;
  ob_retained_accepted : Z;
}.
Definition count_accepted (receipts : list RunControlReceipt) : Z := Z.of_nat (length (List.filter is_accepted receipts)).
Definition pending_observation (s : InboxState) : OriginalPendingObservation :=
  mkObservation (count_accepted (map pn_receipt (ib_queue s)))
                (count_accepted (map pn_receipt (map_to_list (ib_in_flight s)).*2))
                (count_accepted (map se_receipt (map_to_list (ib_seen s)).*2)).
Definition has_accepted (o : OriginalPendingObservation) : bool :=
  negb (ob_queued_accepted o =? 0) || negb (ob_in_flight_accepted o =? 0) || negb (ob_retained_accepted o =? 0).

(** ** Forgetting old receipts *)
Definition may_be_forgotten (s : InboxState) (id : str) : bool :=
  match ib_seen s !! id with Some seen => negb (is_accepted (se_receipt seen)) | None => true end.
(** One turn of the loop for each entry of [seen_order]: each turn removes one. *)
Fixpoint trim_loop (fuel : nat) (s : InboxState) : InboxState :=
  match fuel with
  | O => s
  | S fuel =>
      if RUN_CONTROL_MAX_SEEN_REQUESTS <? Z.of_nat (size (ib_seen s)) then
        match position (may_be_forgotten s) (ib_seen_order s) with
        | None => s
        | Some index =>
            match ib_seen_order s !! index with
            | Some expired => trim_loop fuel (with_seen (delete expired (ib_seen s)) (delete index (ib_seen_order s)) s)
            | None => trim_loop fuel s
            end
        end
      else s
  end.
Definition trim_terminal_receipts (s : InboxState) : InboxState := trim_loop (S (length (ib_seen_order s))) s.

(** ** Submitting a control *)
Section Submit.
(** [serde_json::to_vec] of a request (an error text, or the bytes) and SHA-256 in
    lower-case hexadecimal. *)
Context (encode_request : RunControlRequest -> str + list Z) (sha256_hex : list Z -> str).
(** [{:?}] of an [Option<String>], used only in the text of [StaleTurn]. *)
Context (debug_option : option str -> str).

Definition request_fingerprint (r : RunControlRequest) : RunControlError + str :=
  match encode_request r with
  | inl error => inl (ControlError.InvalidRequest ($"could not encode request: " ++ error))
  | inr encoded => inr ($"sha256:" ++ sha256_hex encoded)
  end.

(** [Display for RunControlError]. *)
Definition debug_revision (revision : option Z) : str :=
  match revision with Some n => $"Some(" ++ show n ++ $")" | None => $"None" end.
Definition error_text (e : RunControlError) : str :=
  match e with
  | ControlError.InvalidRequest message => $"invalid run-control request: " ++ message
  | ControlError.SessionMismatch => $"run-control target session does not match the active session"
  | ControlError.RunMismatch run_id => $"run-control target run `" ++ run_id ++ $"` is not the active run"
  | ControlError.NoActiveRun => $"there is no active run to control"
  | ControlError.StaleTurn expected expected_revision actual actual_revision =>
      $"stale run-control request: expected turn=" ++ debug_option expected ++ $", revision=" ++
      debug_revision expected_revision ++ $"; current turn=" ++ debug_option actual ++ $", revision=" ++
      show actual_revision
  | ControlError.DeadlineExceeded => $"run-control request deadline has expired"
  | ControlError.QueueFull => $"run-control inbox is full"
  | ControlError.Closed => $"run-control inbox is closed"
  | ControlError.DuplicateRequest request_id =>
      $"request id `" ++ request_id ++ $"` was already used for a different command"
  | ControlError.HookDenied reason => $"run-control request was denied by a hook: " ++ reason
  | ControlError.HookRetry reason retry_after_ms =>
      $"run-control request must be retried after " ++ show retry_after_ms ++ $" ms: " ++ reason
  end.

Definition known_receipt (r : RunControlRequest) (s : InboxState) : RunControlError + option RunControlReceipt :=
  match request_fingerprint r with
  | inl error => inl error
  | inr fingerprint =>
      match ib_seen s !! rq_request_id r with
      | None => inr None
      | Some previous =>
          if str_eqb (se_fingerprint previous) fingerprint then inr (Some (se_receipt previous))
          else inl (ControlError.DuplicateRequest (rq_request_id r))
      end
  end.

(** The guards of [submit_locked] after the look-up of a known request, in order. *)
Definition admission_problem (r : RunControlRequest) (now_ms : Z) (cancelled : bool) (s : InboxState) : option RunControlError :=
  if match rq_session_id r with Some id => negb (str_eqb id (ib_session_id s)) | None => false end then
    Some ControlError.SessionMismatch
  else if negb (str_eqb (rq_run_id r) (ib_run_id s)) then Some (ControlError.RunMismatch (rq_run_id r))
  else if ib_closed s || negb (ib_active s) || cancelled then
    Some (if ib_closed s then ControlError.Closed else ControlError.NoActiveRun)
  else if match rq_deadline_ms r with Some deadline => deadline <? now_ms | None => false end then
    Some ControlError.DeadlineExceeded
  else if (bool_decide (is_Some (rq_expected_turn_id r)) && negb (bool_decide (rq_expected_turn_id r = ib_turn_id s)))
          || match rq_expected_turn_revision r with Some n => negb (n =? ib_turn_revision s) | None => false end then
    Some (ControlError.StaleTurn (rq_expected_turn_id r) (rq_expected_turn_revision r) (ib_turn_id s) (ib_turn_revision s))
  else if RUN_CONTROL_MAX_QUEUE <=? Z.of_nat (length (accepted_controls s)) then Some ControlError.QueueFull
  else None.
Definition accepted_receipt (r : RunControlRequest) (now_ms : Z) (s : InboxState) : RunControlReceipt :=
  mkReceipt RUN_CONTROL_RECEIPT_SCHEMA_V1 (rq_request_id r) (ib_session_id s) (ib_run_id s) (operation (rq_command r))
            Accepted (saturating_succ (ib_last_sequence s)) (ib_turn_id s) (ib_turn_revision s) now_ms None None.
Definition is_interrupt (command : RunControlCommand) : bool :=
  match command with Interrupt _ _ => true | Steer _ => false end.
(** The state changes of an admission, up to the trimming. *)
Definition enqueue_control (r : RunControlRequest) (fingerprint : str) (now_ms : Z) (s : InboxState) : InboxState :=
  let receipt := accepted_receipt r now_ms s in
  let cancel := is_interrupt (rq_command r) in
  mkInbox (ib_session_id s) (ib_run_id s) (ib_active s && negb cancel) (ib_closed s || cancel)
          (ib_turn_id s) (ib_turn_revision s) (ib_queue s ++ [mkPending r receipt]) (ib_in_flight s)
          (<[rc_request_id receipt := mkSeen fingerprint r receipt]> (ib_seen s))
          (ib_seen_order s ++ [rc_request_id receipt]) (saturating_succ (ib_last_sequence s))
          (ib_interrupt_requested s || cancel).
(** The answer, and whether the token of the run is to be fired. *)
Definition submit_locked (r : RunControlRequest) (now_ms : Z) (cancelled : bool) (s : InboxState)
    : RunControlError + (InboxState * RunControlReceipt * bool) :=
  match request_fingerprint r with
  | inl error => inl error
  | inr fingerprint =>
      match ib_seen s !! rq_request_id r with
      | Some previous =>
          if str_eqb (se_fingerprint previous) fingerprint then inr (s, se_receipt previous, false)
          else inl (ControlError.DuplicateRequest (rq_request_id r))
      | None =>
          match admission_problem r now_ms cancelled s with
          | Some error => inl error
          | None => inr (trim_terminal_receipts (enqueue_control r fingerprint now_ms s), accepted_receipt r now_ms s,
                         is_interrupt (rq_command r))
          end
      end
  end.

(** ** The policy hook *)
Definition hook_outcome_error (outcome : HookOutcome) : RunControlError :=
  match outcome with
  | HookBlock reason => ControlError.HookDenied reason
  | HookRetryLater reason retry_after_ms => ControlError.HookRetry reason retry_after_ms
  | HookEscalate reason target =>
      ControlError.HookDenied
        match target with Some target => reason ++ $" (escalate to " ++ target ++ $")" | None => reason end
  | HookContinue _ | HookSkip => ControlError.InvalidRequest $"unexpected non-terminal run-control hook outcome"
  end.
Definition refusal_of (outcome : HookOutcome) : option RunControlError :=
  match outcome with HookContinue _ | HookSkip => None | outcome => Some (hook_outcome_error outcome) end.
Definition rejected_receipt (r : RunControlRequest) (snapshot : RunControlSnapshot) (now_ms : Z) (error : RunControlError)
    : RunControlReceipt :=
  mkReceipt RUN_CONTROL_RECEIPT_SCHEMA_V1 (rq_request_id r) (sn_session_id snapshot) (rq_run_id r)
            (operation (rq_command r)) Rejected 0 (sn_turn_id snapshot) (sn_turn_revision snapshot) now_ms (Some now_ms)
            (Some (mkErrorInfo (ControlError.code error) (error_text error))).

(** [submit_with_hooks] has two suspension points inside its gate: the policy hook and
    the observer of the receipt. The part before the hook either answers or goes on. *)
Definition submit_entry (r : RunControlRequest) (s : InboxState) : RunControlError + option RunControlReceipt :=
  match control_problem r with Some error => inl error | None => known_receipt r s end.
(** The part between them. [outcome] is [None] when the run has no hook executor. *)
Inductive SubmitResult : Type :=
| Refused (error : RunControlError) (observed : option RunControlReceipt)
| Entered (s : InboxState) (receipt : RunControlReceipt) (cancel : bool).
Definition submit_decided (r : RunControlRequest) (outcome : option HookOutcome) (now_ms : Z) (cancelled : bool)
    (s : InboxState) : SubmitResult :=
  match outcome ≫= refusal_of with
  | Some error => Refused error (Some (rejected_receipt r (inbox_snapshot s) now_ms error))
  | None =>
      match submit_locked r now_ms cancelled s with
      | inl error => Refused error None
      | inr (s', receipt, cancel) => Entered s' receipt cancel
      end
  end.
End Submit.

(** ** The loop's safe points *)
Definition drain_controls (s : InboxState) : InboxState * list PendingRunControl :=
  (with_copies [] (foldl (fun m item => <[rc_request_id (pn_receipt item) := item]> m) (ib_in_flight s) (ib_queue s)) s,
   ib_queue s).
Definition applied_receipt (r : RunControlReceipt) (turn_id : option str) (turn_revision now_ms : Z) : RunControlReceipt :=
  mkReceipt (rc_schema r) (rc_request_id r) (rc_session_id r) (rc_run_id r) (rc_operation r) Applied (rc_sequence r)
            turn_id turn_revision (rc_accepted_at_ms r) (Some now_ms) (rc_error r).
(** [seen.receipt = receipt]. *)
Definition set_receipt (receipt : RunControlReceipt) (seen : SeenRequest) : SeenRequest :=
  mkSeen (se_fingerprint seen) (se_request seen) receipt.
(** The returned receipt, and whether this call made the transition (and observes it). *)
Definition mark_applied (pending : PendingRunControl) (turn_id : option str) (turn_revision now_ms : Z) (s : InboxState)
    : InboxState * RunControlReceipt * bool :=
  let id := rc_request_id (pn_receipt pending) in
  match ib_seen s !! id with
  | None => (s, pn_receipt pending, false)
  | Some seen =>
      if negb (is_accepted (se_receipt seen)) then (s, se_receipt seen, false)
      else
        let receipt := applied_receipt (se_receipt seen) turn_id turn_revision now_ms in
        let s := with_seen (<[id := set_receipt receipt seen]> (ib_seen s)) (ib_seen_order s) s in
        (with_copies (ib_queue s) (delete (rc_request_id receipt) (ib_in_flight s)) s, receipt, true)
  end.

(** ** Ending the run *)
Definition seal_new_requests (s : InboxState) : InboxState := sealed s.
Definition seal_and_observe_pending (s : InboxState) : InboxState * OriginalPendingObservation :=
  (sealed s, pending_observation (sealed s)).
Definition RUN_ENDED : RunControlErrorInfo :=
  mkErrorInfo $"RUN_ENDED" $"run ended before the control reached a safe point".
Definition settled_receipt (r : RunControlReceipt) (now_ms : Z) : RunControlReceipt :=
  mkReceipt (rc_schema r) (rc_request_id r) (rc_session_id r) (rc_run_id r) (rc_operation r) Settled (rc_sequence r)
            (rc_turn_id r) (rc_turn_revision r) (rc_accepted_at_ms r) (Some now_ms) (Some RUN_ENDED).
Definition settle_seen (now_ms : Z) (seen : SeenRequest) : SeenRequest :=
  if is_accepted (se_receipt seen) then set_receipt (settled_receipt (se_receipt seen) now_ms) seen else seen.
Definition newly_settled (now_ms : Z) (seen : SeenRequest) : option PendingRunControl :=
  if is_accepted (se_receipt seen) then Some (mkPending (se_request seen) (settled_receipt (se_receipt seen) now_ms)) else None.
(** The list holds the receipts the observers are told of, in the order of the map. *)
Definition close (now_ms : Z) (s : InboxState) : InboxState * list PendingRunControl :=
  (with_seen (settle_seen now_ms <$> ib_seen s) (ib_seen_order s) (with_copies [] ∅ (sealed s)),
   omap (newly_settled now_ms) (map_to_list (ib_seen s)).*2).

(** ** Persist and acknowledge *)
Section Persist.
Context (encode_request : RunControlRequest -> str + list Z) (sha256_hex : list Z -> str) (debug_option : option str -> str).
(** The [append] closure: the store it writes to, and its error ([ActorError]). *)
Context {Store ActorError : Type} (schema_error : str -> ActorError).
Context (append : Store -> PendingRunControl -> Store * option ActorError).

Definition STEER_PERSISTENCE_FAILED : RunControlErrorInfo :=
  mkErrorInfo $"STEER_PERSISTENCE_FAILED" $"input retention failed; this input was not acknowledged as persisted".
Definition decided_receipt (r : RunControlReceipt) (turn_id : option str) (turn_revision now_ms : Z) (kept : bool) : RunControlReceipt :=
  mkReceipt (rc_schema r) (rc_request_id r) (rc_session_id r) (rc_run_id r) (rc_operation r)
            (if kept then Applied else Settled) (rc_sequence r) turn_id turn_revision (rc_accepted_at_ms r)
            (Some now_ms) (if kept then None else Some STEER_PERSISTENCE_FAILED).
(** [seen.get_mut] or the insertion of a receipt that had been forgotten. *)
Definition retain_decision (fingerprint : RunControlError + str) (item : PendingRunControl) (s : InboxState) : InboxState :=
  let id := rc_request_id (pn_receipt item) in
  match ib_seen s !! id with
  | Some seen => with_seen (<[id := set_receipt (pn_receipt item) seen]> (ib_seen s)) (ib_seen_order s) s
  | None =>
      match fingerprint with
      | inr fingerprint =>
          with_seen (<[id := mkSeen fingerprint (pn_request item) (pn_receipt item)]> (ib_seen s)) (ib_seen_order s ++ [id]) s
      | inl _ => s
      end
  end.
Record Persisting : Type := mkPersisting {
  ps_state : InboxState;
  ps_store : Store;
  ps_failure : option ActorError;
  ps_decisions : list PendingRunControl;
}.
Definition is_steer (command : RunControlCommand) : bool := negb (is_interrupt command).
Definition persist_one (now_ms : Z) (p : Persisting) (item : PendingRunControl) : Persisting :=
  let fingerprint := request_fingerprint encode_request sha256_hex (pn_request item) in
  let failure := match ps_failure p, fingerprint with
                 | None, inl error => Some (schema_error (error_text debug_option error))
                 | failure, _ => failure
                 end in
  let steer := is_steer (rq_command (pn_request item)) in
  let '(store, failure) :=
    if steer && bool_decide (failure = None) then append (ps_store p) item else (ps_store p, failure) in
  let s := ps_state p in
  let kept := negb (steer && negb (bool_decide (failure = None))) in
  let item := mkPending (pn_request item)
                (decided_receipt (pn_receipt item) (ib_turn_id s) (ib_turn_revision s) now_ms kept) in
  let id := rc_request_id (pn_receipt item) in
  let s := retain_decision fingerprint item s in
  let s := with_copies (List.filter (fun queued => negb (str_eqb (rc_request_id (pn_receipt queued)) id)) (ib_queue s))
                        (delete id (ib_in_flight s)) s in
  mkPersisting s store failure (ps_decisions p ++ [item]).
Definition is_terminal_id (s : InboxState) (id : str) : bool :=
  match ib_seen s !! id with Some seen => negb (is_accepted (se_receipt seen)) | None => false end.
Definition retire_stale (s : InboxState) : InboxState :=
  with_copies (List.filter (fun item => negb (is_terminal_id s (rc_request_id (pn_receipt item)))) (ib_queue s))
               (filter (fun entry => is_terminal_id s entry.1 = false) (ib_in_flight s)) s.
Definition persist_pending (terminal : bool) (now_ms : Z) (store : Store) (s : InboxState)
    : Persisting * OriginalPendingObservation :=
  let s := retire_stale (if terminal then sealed s else s) in
  let p := foldl (persist_one now_ms) (mkPersisting s store None []) (accepted_controls s) in
  let s := trim_terminal_receipts (ps_state p) in
  (mkPersisting s (ps_store p) (ps_failure p) (ps_decisions p), pending_observation s).
End Persist.

(** ** What the run makes of decided controls *)
(** [AgentEvent::RunControlApplied]. *)
Record RunControlApplied : Type := mkAppliedEvent {
  ae_request_id : str;
  ae_operation : RunControlOperation;
  ae_turn_id : option str;
  ae_turn_revision : Z;
  ae_input : option str;
  ae_reason : option str;
}.
Definition command_input (command : RunControlCommand) : option str :=
  match command with Steer input => Some input | Interrupt _ _ => None end.
Definition command_reason (command : RunControlCommand) : option str :=
  match command with Steer _ => None | Interrupt reason _ => reason end.
Definition applied_event (command : RunControlCommand) (r : RunControlReceipt) (input : option str) : RunControlApplied :=
  mkAppliedEvent (rc_request_id r) (rc_operation r) (rc_turn_id r) (rc_turn_revision r) input (command_reason command).
Definition is_applied (r : RunControlReceipt) : bool := bool_decide (rc_state r = Applied).
(** The events of [persist_run_controls], and the user messages it pushes. *)
Definition applied_events (terminal : bool) (decisions : list PendingRunControl) : list RunControlApplied :=
  map (fun item => applied_event (rq_command (pn_request item)) (pn_receipt item)
                     (if terminal then None else command_input (rq_command (pn_request item))))
      (List.filter (fun item => is_applied (pn_receipt item)) decisions).
Definition steered_messages (decisions : list PendingRunControl) : list str :=
  omap (fun item => if is_applied (pn_receipt item) then command_input (rq_command (pn_request item)) else None) decisions.
(** One turn of the loop of [apply_pending_run_controls]: the event it sends. *)
Definition safe_point_event (pending : PendingRunControl) (receipt : RunControlReceipt) : option RunControlApplied :=
  if is_applied receipt then
    Some (applied_event (rq_command (pn_request pending)) receipt (command_input (rq_command (pn_request pending))))
  else None.
