(* ===== verification/RunControlFacts.v ===== *)
(** The invariant of a control inbox: a retained receipt that is still [Accepted] has
    exactly one pending copy, in the queue or in flight, and there are no other copies;
    every operation of [RunControl] preserves it and moves a control out of the set of
    owed ones only by deciding its receipt. *)
From stdpp Require Import gmap.
From S2P Require Import Prelude Text Hooks RunControl.

(** ** Controls that are owed an outcome *)
Definition pid (item : PendingRunControl) : str := rc_request_id (pn_receipt item).
Definition owed_of (seen : SeenRequest) : option PendingRunControl :=
  if is_accepted (se_receipt seen) then Some (mkPending (se_request seen) (se_receipt seen)) else None.
Definition owed (s : InboxState) : gmap str PendingRunControl := omap owed_of (ib_seen s).
Lemma owed_Some s id item : owed s !! id = Some item <->
  exists e, ib_seen s !! id = Some e /\ rc_state (se_receipt e) = Accepted /\ item = mkPending (se_request e) (se_receipt e).
Proof.
  unfold owed, owed_of, is_accepted. rewrite lookup_omap_Some. split; intros (e & H).
  - case_bool_decide; naive_solver.
  - exists e. rewrite bool_decide_true by naive_solver. naive_solver.
Qed.
Lemma owed_None s id : ib_seen s !! id = None -> owed s !! id = None.
Proof. unfold owed. rewrite lookup_omap. by intros ->. Qed.
Lemma owed_size s : (size (owed s) <= size (ib_seen s))%nat.
Proof.
  rewrite <- !(size_dom (D := gset str)). apply subseteq_size. intros id. rewrite !elem_of_dom.
  intros [item (e & He & _)%owed_Some]. by eexists.
Qed.
Lemma is_accepted_spec r : is_accepted r = true <-> rc_state r = Accepted.
Proof. apply bool_decide_eq_true. Qed.
Lemma is_accepted_ne r : is_accepted r = false <-> rc_state r <> Accepted.
Proof. apply bool_decide_eq_false. Qed.

(** ** [accepted_controls] is the sorted list of the owed controls *)
Lemma collect_seen_lookup l pending id : NoDup l.*1 ->
  foldl collect_seen pending l !! id =
  match (list_to_map l : gmap str SeenRequest) !! id with Some e => owed_of e | None => pending !! id end.
Proof.
  revert pending. induction l as [|[id' e] l IH]; intros pending; cbn [foldl list_to_map foldr fmap list_fmap].
  { intros _. by rewrite lookup_empty. }
  cbn. rewrite list.NoDup_cons. intros [Hnew Hnd]. rewrite IH by done.
  destruct (decide (id = id')) as [->|Hne].
  - rewrite lookup_insert_eq, (not_elem_of_list_to_map_1 _ _ Hnew).
    unfold owed_of. destruct (is_accepted _); by rewrite ?lookup_insert_eq, ?lookup_delete_eq.
  - rewrite lookup_insert_ne by done. destruct (list_to_map l !! id); [done|].
    destruct (is_accepted _); by rewrite ?lookup_insert_ne, ?lookup_delete_ne by done.
Qed.
Lemma collect_item_lookup l pending id : ~ In id (map pid l) -> foldl collect_item pending l !! id = pending !! id.
Proof.
  revert pending. induction l as [|item l IH]; intros pending Hn; cbn; [done|].
  rewrite IH by (cbn in Hn; tauto). unfold collect_item. destruct (is_accepted _); [|done].
  apply lookup_insert_ne. cbn in Hn. unfold pid in Hn. naive_solver.
Qed.
(** Every pending copy has a retained receipt. *)
Definition copies_retained (s : InboxState) : Prop :=
  forall item, In item (ib_queue s ++ (map_to_list (ib_in_flight s)).*2) -> is_Some (ib_seen s !! pid item).
Lemma accepted_map_owed s : copies_retained s -> accepted_map s = owed s.
Proof.
  intros Hc. apply map_eq. intros id. unfold accepted_map, owed.
  rewrite collect_seen_lookup by apply NoDup_fst_map_to_list. rewrite list_to_map_to_list, lookup_omap.
  destruct (ib_seen s !! id) eqn:E; cbn; [done|].
  rewrite collect_item_lookup, lookup_empty; [done|].
  intros (item & <- & Hin)%in_map_iff. destruct (Hc _ Hin). congruence.
Qed.
Lemma accepted_controls_perm s : copies_retained s -> accepted_controls s ≡ₚ (map_to_list (owed s)).*2.
Proof. intros Hc. unfold accepted_controls. by rewrite sort_by_perm, accepted_map_owed. Qed.
Lemma accepted_controls_length s : copies_retained s -> length (accepted_controls s) = size (owed s).
Proof. intros Hc. by rewrite accepted_controls_perm, length_fmap, length_map_to_list. Qed.

(** ** The invariant *)
Section Facts.
Context (encode_request : RunControlRequest -> str + list Z) (sha256_hex : list Z -> str).
Local Abbreviation fingerprint_of := (request_fingerprint encode_request sha256_hex).

Record entry_ok (last : Z) (id : str) (e : SeenRequest) : Prop := {
  en_request : rq_request_id (se_request e) = id;
  en_receipt : rc_request_id (se_receipt e) = id;
  en_sequence : 1 <= rc_sequence (se_receipt e) <= last;
  en_state : rc_state (se_receipt e) <> Rejected;
  en_valid : control_problem (se_request e) = None;
  en_fingerprint : fingerprint_of (se_request e) = inr (se_fingerprint e);
}.
Record inbox_ok (s : InboxState) : Prop := {
  ok_entry : forall id e, ib_seen s !! id = Some e -> entry_ok (ib_last_sequence s) id e;
  ok_order_nodup : NoDup (ib_seen_order s);
  ok_order : forall id, In id (ib_seen_order s) <-> is_Some (ib_seen s !! id);
  ok_queue : forall item, In item (ib_queue s) -> owed s !! pid item = Some item;
  ok_queue_nodup : NoDup (map pid (ib_queue s));
  ok_in_flight : forall id item, ib_in_flight s !! id = Some item -> owed s !! id = Some item /\ ~ In id (map pid (ib_queue s));
  ok_covered : forall id item, owed s !! id = Some item -> In item (ib_queue s) \/ ib_in_flight s !! id = Some item;
  ok_active : ib_active s = negb (ib_closed s);
  ok_last : 0 <= ib_last_sequence s <= u64_max;
  ok_interrupt : ib_interrupt_requested s = true -> ib_closed s = true;
}.
Definition bounded (s : InboxState) : Prop :=
  Z.of_nat (size (owed s)) <= RUN_CONTROL_MAX_QUEUE /\ Z.of_nat (size (ib_seen s)) <= RUN_CONTROL_MAX_SEEN_REQUESTS.

Lemma new_inbox_ok session_id run_id : inbox_ok (new_inbox session_id run_id).
Proof.
  split; cbn; try done.
  - constructor.
  - intros id. rewrite lookup_empty, is_Some_alt. done.
  - constructor.
Qed.
Lemma owed_pid s id item : inbox_ok s -> owed s !! id = Some item -> pid item = id.
Proof. intros Hok (e & He & _ & ->)%owed_Some. by apply (ok_entry _ Hok) in He as []. Qed.
Lemma owed_retained s id item : owed s !! id = Some item -> is_Some (ib_seen s !! id).
Proof. intros (e & He & _)%owed_Some. by eexists. Qed.
Lemma ok_copies s : inbox_ok s -> copies_retained s.
Proof.
  intros Hok item [Hin|Hin]%in_app_iff.
  - eapply owed_retained. by apply (ok_queue _ Hok).
  - apply in_map_iff in Hin as ([id item'] & <- & Hin). apply list_elem_of_In, elem_of_map_to_list in Hin.
    apply (ok_in_flight _ Hok) in Hin as [Ho _]. cbn. rewrite (owed_pid _ _ _ Hok Ho). by eapply owed_retained.
Qed.

(** ** Sealing, turns, safe points *)
Lemma sealed_ok s : inbox_ok s -> inbox_ok (sealed s).
Proof. intros []. by split. Qed.
Lemma update_turn_id_ok t s : inbox_ok s -> inbox_ok (update_turn_id t s) /\ owed (update_turn_id t s) = owed s.
Proof. unfold update_turn_id. intros Hok. case_bool_decide; [done|]. split; [|done]. destruct Hok. by split. Qed.
Lemma update_turn_id_frame t s :
  ib_seen (update_turn_id t s) = ib_seen s /\ ib_closed (update_turn_id t s) = ib_closed s /\
  ib_last_sequence (update_turn_id t s) = ib_last_sequence s.
Proof. unfold update_turn_id. by case_bool_decide. Qed.
Lemma drained_lookup (l : list PendingRunControl) (m : gmap str PendingRunControl) (id : str) : NoDup (map pid l) ->
  foldl (fun m item => <[rc_request_id (pn_receipt item) := item]> m) m l !! id =
  match List.find (fun item => str_eqb (pid item) id) l with Some item => Some item | None => m !! id end.
Proof.
  revert m. induction l as [|item l IH]; intros m; cbn; [done|]. rewrite list.NoDup_cons. intros [Hn Hnd].
  rewrite IH by done. destruct (str_eqb (pid item) id) eqn:E.
  - apply str_eqb_spec in E as <-. destruct (List.find _ l) as [other|] eqn:F; [|apply lookup_insert_eq].
    apply find_some in F as [Hin Hid]. apply str_eqb_spec in Hid. destruct Hn. rewrite <- Hid.
    apply list_elem_of_In. by apply in_map.
  - apply str_eqb_ne in E. destruct (List.find _ l); [done|]. by apply lookup_insert_ne.
Qed.
Lemma find_pid l item : NoDup (map pid l) -> In item l -> List.find (fun i => str_eqb (pid i) (pid item)) l = Some item.
Proof.
  induction l as [|i l IH]; cbn; [done|]. rewrite list.NoDup_cons. intros [Hn Hnd] [->|Hin].
  - by rewrite str_eqb_refl.
  - destruct (str_eqb _ _) eqn:E; [|by apply IH]. apply str_eqb_spec in E. destruct Hn. rewrite E.
    apply list_elem_of_In. by apply in_map.
Qed.
Lemma drain_ok s : inbox_ok s ->
  inbox_ok (drain_controls s).1 /\ owed (drain_controls s).1 = owed s /\ forall item, In item (ib_queue s) -> ib_in_flight (drain_controls s).1 !! pid item = Some item.
Proof.
  intros Hok. split_and!; [|done|].
  2: { intros item Hin. cbn. rewrite drained_lookup by apply Hok. by rewrite find_pid by (apply Hok || done). }
  destruct Hok as [He Hn Ho Hq Hqn Hf Hc Ha Hl Hi]. split; try done.
  - constructor.
  - intros id item. cbn. rewrite drained_lookup by done. intros Hin0. split; [revert Hin0|tauto].
    destruct (List.find _ _) as [i|] eqn:F.
    + apply find_some in F as [Hin Hid%str_eqb_spec]. subst id. intros [= ->]. by apply Hq.
    + by apply Hf.
  - intros id item H. change (owed s !! id = Some item) in H. right. cbn. rewrite drained_lookup by done.
    assert (pid item = id) as <- by (apply owed_Some in H as (e & H%He & _ & ->); apply H).
    destruct (Hc _ _ H) as [Hin|Hin]; [by rewrite find_pid|].
    destruct (List.find _ _) as [i|] eqn:F; [|done]. apply find_some in F as [Hin' Hid%str_eqb_spec].
    apply Hq in Hin'. rewrite Hid in Hin'. congruence.
Qed.

(** ** Deciding one owed control *)
(** What [mark_applied] and one turn of [persist_pending] do to the inbox. *)
Definition decide_control (id : str) (receipt : RunControlReceipt) (s : InboxState) : InboxState :=
  with_copies (List.filter (fun queued => negb (str_eqb (pid queued) id)) (ib_queue s)) (delete id (ib_in_flight s))
    (with_seen (alter (set_receipt receipt) id (ib_seen s)) (ib_seen_order s) s).
Definition decides (item : PendingRunControl) (receipt : RunControlReceipt) : Prop :=
  rc_request_id receipt = pid item /\ rc_sequence receipt = rc_sequence (pn_receipt item) /\
  (rc_state receipt = Applied \/ rc_state receipt = Settled).
Lemma decide_owed s id item receipt : owed s !! id = Some item -> decides item receipt ->
  owed (decide_control id receipt s) = delete id (owed s).
Proof.
  intros Ho (_ & _ & Hst). apply map_eq. intros id'. unfold owed at 1. cbn. rewrite lookup_omap.
  destruct (decide (id' = id)) as [->|Hne].
  - rewrite lookup_alter_eq, lookup_delete_eq. destruct (ib_seen s !! id) as [e|]; cbn; [|done].
    unfold owed_of, is_accepted. rewrite bool_decide_false; [done|]. cbn. by destruct Hst as [-> | ->].
  - rewrite lookup_alter_ne, lookup_delete_ne by done. unfold owed. by rewrite lookup_omap.
Qed.
Lemma in_filter_pid id l item : In item (List.filter (fun queued => negb (str_eqb (pid queued) id)) l) <-> In item l /\ pid item <> id.
Proof. rewrite filter_In, negb_true_iff, str_eqb_ne. done. Qed.
Lemma NoDup_map_filter {A B} (f : A -> B) p l : NoDup (map f l) -> NoDup (map f (List.filter p l)).
Proof.
  induction l as [|x l IH]; cbn; [done|]. rewrite list.NoDup_cons. intros [Hn Hnd].
  destruct (p x); cbn; [|by apply IH]. apply list.NoDup_cons. split; [|by apply IH].
  rewrite list_elem_of_In in *. intros (y & Hy & [Hin _]%filter_In)%in_map_iff. apply Hn. rewrite <- Hy. by apply in_map.
Qed.
Lemma decide_ok s id item receipt : inbox_ok s -> owed s !! id = Some item -> decides item receipt ->
  inbox_ok (decide_control id receipt s).
Proof.
  intros Hok Ho Hd. pose proof (decide_owed _ _ _ _ Ho Hd) as Hod. destruct Hok as [He Hn Hor Hq Hqn Hf Hc Ha Hl Hi].
  assert (Hpid : pid item = id) by (apply owed_Some in Ho as (e & H%He & _ & ->); apply H).
  split; rewrite ?Hod; cbn; try done.
  - intros id' e'. destruct (decide (id' = id)) as [->|Hne]; [|rewrite lookup_alter_ne by done; apply He].
    rewrite lookup_alter_eq. apply owed_Some in Ho as (e & He' & _ & ->). rewrite He'. intros [= <-].
    destruct (He _ _ He'), Hd as (H1 & H2 & H3). split; cbn in *; try done.
    + by rewrite H1.
    + by rewrite H2.
    + by destruct H3 as [-> | ->].
  - intros id'. rewrite Hor. by rewrite lookup_alter_is_Some.
  - intros i [Hin Hne]%in_filter_pid. rewrite lookup_delete_ne by done. by apply Hq.
  - by apply NoDup_map_filter.
  - intros id' i [Hne Hin]%lookup_delete_Some. rewrite lookup_delete_ne by done. destruct (Hf _ _ Hin) as [? Hnq].
    split; [done|]. intros (x & <- & [Hx _]%in_filter_pid)%in_map_iff. apply Hnq. by apply in_map.
  - intros id' i [Hne Hin]%lookup_delete_Some. destruct (Hc _ _ Hin) as [H|H].
    + left. apply in_filter_pid. split; [done|].
      assert (pid i = id') as -> by (apply owed_Some in Hin as (e & H'%He & _ & ->); apply H'). done.
    + right. by rewrite lookup_delete_ne.
Qed.

(** ** How an operation may change the retained receipts *)
(** The receipt of one admission may only be decided once. *)
Definition advances (e e' : SeenRequest) : Prop :=
  se_request e' = se_request e /\ se_fingerprint e' = se_fingerprint e /\
  rc_sequence (se_receipt e') = rc_sequence (se_receipt e) /\ (rc_state (se_receipt e) <> Accepted -> e' = e).
(** An entry of the later state comes from one of the earlier state or is a later
    admission, until the sequence numbers are exhausted. *)
Definition evolves (s s' : InboxState) : Prop :=
  ib_last_sequence s <= ib_last_sequence s' /\ (ib_closed s = true -> ib_closed s' = true) /\
  (ib_last_sequence s' < u64_max -> forall id e', ib_seen s' !! id = Some e' ->
    (exists e, ib_seen s !! id = Some e /\ advances e e') \/ ib_last_sequence s < rc_sequence (se_receipt e')).
Lemma advances_refl e : advances e e.
Proof. done. Qed.
Lemma evolves_refl s : evolves s s.
Proof. split_and!; [lia|done|]. intros _ id e He. left. eauto using advances_refl. Qed.
Lemma evolves_trans s s' s'' : evolves s s' -> evolves s' s'' -> evolves s s''.
Proof.
  intros (H1 & H2 & H3) (H1' & H2' & H3'). split_and!; [lia|auto|]. intros Hmax id e'' He''.
  destruct (H3' Hmax _ _ He'') as [(e' & He' & Ha')|]; [|right; lia].
  destruct (H3 ltac:(lia) _ _ He') as [(e & He & Ha)|Hlt].
  - left. exists e. split; [done|]. destruct Ha as (A1 & A2 & A3 & A4), Ha' as (B1 & B2 & B3 & B4).
    split_and!; try congruence. intros Ht. rewrite <- (A4 Ht). apply B4. by rewrite (A4 Ht).
  - right. destruct Ha' as (_ & _ & -> & _). done.
Qed.
Lemma evolves_same s s' : ib_seen s' = ib_seen s -> ib_last_sequence s' = ib_last_sequence s ->
  (ib_closed s = true -> ib_closed s' = true) -> evolves s s'.
Proof. intros H1 H2 H3. split_and!; [lia|done|]. rewrite H1. intros _ id e He. left. eauto using advances_refl. Qed.
Lemma decide_evolves s id item receipt : owed s !! id = Some item -> decides item receipt -> evolves s (decide_control id receipt s).
Proof.
  intros (e & He & Ha & ->)%owed_Some (_ & Hs & _). split_and!; [done..|]. intros _ id' e' H. left. revert H. cbn.
  destruct (decide (id' = id)) as [->|Hne].
  - rewrite lookup_alter_eq, He. intros [= <-]. exists e. split; [done|]. by split_and!.
  - rewrite lookup_alter_ne by done. eauto using advances_refl.
Qed.
(** Everything but the pending copies and the receipts themselves. *)
Definition same_but_pending (s s' : InboxState) : Prop :=
  ib_closed s' = ib_closed s /\ ib_last_sequence s' = ib_last_sequence s /\ dom (ib_seen s') = dom (ib_seen s) /\
  ib_turn_id s' = ib_turn_id s /\ ib_turn_revision s' = ib_turn_revision s.
Lemma same_but_pending_trans s s' s'' : same_but_pending s s' -> same_but_pending s' s'' -> same_but_pending s s''.
Proof. unfold same_but_pending. naive_solver congruence. Qed.
Lemma decide_same id receipt s : same_but_pending s (decide_control id receipt s).
Proof. split_and!; try done. cbn. by rewrite dom_alter_L. Qed.

(** ** Forgetting old receipts *)
(** One turn of the loop. *)
Lemma forget_ok s index expired : inbox_ok s -> ib_seen_order s !! index = Some expired -> may_be_forgotten s expired = true ->
  let s' := with_seen (delete expired (ib_seen s)) (delete index (ib_seen_order s)) s in
  inbox_ok s' /\ owed s' = owed s.
Proof.
  intros Hok Hi Hm. cbn zeta.
  assert (Hod : owed (with_seen (delete expired (ib_seen s)) (delete index (ib_seen_order s)) s) = owed s).
  { apply map_eq. intros id. unfold owed. cbn. rewrite !lookup_omap. destruct (decide (id = expired)) as [->|Hne].
    - rewrite lookup_delete_eq. unfold may_be_forgotten in Hm. destruct (ib_seen s !! expired) as [e|]; [|done].
      cbn. unfold owed_of. apply negb_true_iff in Hm. by rewrite Hm.
    - by rewrite lookup_delete_ne. }
  split; [|done]. pose proof (delete_Permutation _ _ _ Hi) as Hp.
  destruct Hok as [He Hn Hor Hq Hqn Hf Hc Ha Hl Hint]. rewrite Hp, list.NoDup_cons in Hn. destruct Hn as [Hnew Hn].
  split; rewrite ?Hod; cbn; try done.
  - intros id e [_ H]%lookup_delete_Some. by apply He.
  - intros id. specialize (Hor id). rewrite <- list_elem_of_In in *. rewrite Hp, elem_of_cons in Hor.
    destruct (decide (id = expired)) as [->|Hne].
    + rewrite lookup_delete_eq, is_Some_alt. naive_solver.
    + rewrite lookup_delete_ne by done. naive_solver.
Qed.
Lemma may_be_forgotten_exists s : inbox_ok s -> (size (owed s) < size (ib_seen s))%nat ->
  exists id, In id (ib_seen_order s) /\ may_be_forgotten s id = true.
Proof.
  intros Hok Hlt. assert (Hsub : ~ dom (ib_seen s) ⊆ dom (owed s)).
  { intros Hs%subseteq_size. rewrite !(size_dom (D := gset str)) in Hs. lia. }
  destruct (decide (Exists (fun id => may_be_forgotten s id = true) (ib_seen_order s))) as [Hex|Hno].
  { apply List.Exists_exists in Hex as (id & Hin & Hm). by exists id. }
  destruct Hsub. intros id Hid%elem_of_dom. apply elem_of_dom. destruct Hid as [e He].
  assert (Hf : may_be_forgotten s id = false).
  { apply not_true_is_false. intros Hm. apply Hno, List.Exists_exists. exists id. split; [|done].
    apply (ok_order _ Hok). by exists e. }
  unfold may_be_forgotten in Hf. rewrite He in Hf. apply negb_false_iff, is_accepted_spec in Hf.
  exists (mkPending (se_request e) (se_receipt e)). apply owed_Some. by exists e.
Qed.
(** Nothing but the retained terminal receipts changes. *)
Definition same_but_seen (s s' : InboxState) : Prop :=
  exists seen order, s' = with_seen seen order s /\ (forall id e, seen !! id = Some e -> ib_seen s !! id = Some e).
Lemma same_but_seen_refl s : same_but_seen s s.
Proof. exists (ib_seen s), (ib_seen_order s). by destruct s. Qed.
Lemma trim_loop_ok fuel s : inbox_ok s -> (length (ib_seen_order s) < fuel)%nat ->
  Z.of_nat (size (owed s)) <= RUN_CONTROL_MAX_QUEUE ->
  inbox_ok (trim_loop fuel s) /\ owed (trim_loop fuel s) = owed s /\ same_but_seen s (trim_loop fuel s) /\
  Z.of_nat (size (ib_seen (trim_loop fuel s))) <= RUN_CONTROL_MAX_SEEN_REQUESTS.
Proof.
  revert s. induction fuel as [|fuel IH]; intros s Hok Hfuel Hsize; [lia|]. cbn [trim_loop].
  destruct (Z.ltb_spec RUN_CONTROL_MAX_SEEN_REQUESTS (Z.of_nat (size (ib_seen s)))) as [Hbig|]; [|split_and!; auto using same_but_seen_refl].
  destruct (may_be_forgotten_exists s Hok) as (id & Hid & Hm).
  { unfold RUN_CONTROL_MAX_QUEUE, RUN_CONTROL_MAX_SEEN_REQUESTS in *. lia. }
  destruct (position_In _ _ _ Hid Hm) as [n Hn]. rewrite Hn.
  destruct (position_Some _ _ _ Hn) as (expired & Hx & Hm'). rewrite Hx.
  destruct (forget_ok _ _ _ Hok Hx Hm') as [Hok' Hod].
  destruct (IH _ Hok') as (H1 & H2 & H3 & H4); [|by rewrite Hod|].
  { cbn. rewrite length_delete by (by eexists). apply lookup_lt_Some in Hx. lia. }
  split_and!; [done|by rewrite H2, Hod| |done].
  destruct H3 as (seen & order & -> & H3). exists seen, order. split; [done|].
  intros id' e He%H3. cbn in He. by apply lookup_delete_Some in He as [_ He].
Qed.
Lemma trim_ok s : inbox_ok s -> Z.of_nat (size (owed s)) <= RUN_CONTROL_MAX_QUEUE ->
  inbox_ok (trim_terminal_receipts s) /\ owed (trim_terminal_receipts s) = owed s /\
  same_but_seen s (trim_terminal_receipts s) /\ bounded (trim_terminal_receipts s).
Proof.
  intros Hok Hs. destruct (trim_loop_ok (S (length (ib_seen_order s))) s Hok) as (H1 & H2 & H3 & H4); [lia|done|].
  unfold bounded. fold (trim_terminal_receipts s) in *. by rewrite H2.
Qed.
Lemma trim_small s : Z.of_nat (size (ib_seen s)) <= RUN_CONTROL_MAX_SEEN_REQUESTS -> trim_terminal_receipts s = s.
Proof. intros H. unfold trim_terminal_receipts. cbn. destruct (Z.ltb_spec RUN_CONTROL_MAX_SEEN_REQUESTS (Z.of_nat (size (ib_seen s)))); [lia|done]. Qed.

(** ** Admission *)
Lemma enqueue_control_ok r fingerprint now_ms s : inbox_ok s -> ib_seen s !! rq_request_id r = None -> ib_closed s = false ->
  control_problem r = None -> fingerprint_of r = inr fingerprint ->
  inbox_ok (enqueue_control r fingerprint now_ms s) /\
  owed (enqueue_control r fingerprint now_ms s) = <[rq_request_id r := mkPending r (accepted_receipt r now_ms s)]> (owed s).
Proof.
  intros Hok Hnew Hopen Hv Hfp.
  assert (Hod : owed (enqueue_control r fingerprint now_ms s) = <[rq_request_id r := mkPending r (accepted_receipt r now_ms s)]> (owed s)).
  { unfold owed at 1. cbn. by rewrite (omap_insert_Some _ _ _ _ (mkPending r (accepted_receipt r now_ms s))) by done. }
  split; [|done]. pose proof (owed_None _ _ Hnew) as Hno. pose proof (fun id item => owed_pid s id item Hok) as Hpid.
  destruct Hok as [He Hn Hor Hq Hqn Hf Hc Ha Hl Hint].
  assert (Hfresh : ~ In (rq_request_id r) (map pid (ib_queue s))).
  { intros (i & Hi & Hin)%in_map_iff. apply Hq in Hin. rewrite Hi in Hin. congruence. }
  split; rewrite ?Hod; cbn.
  - intros id e [[<- <-]|[Hne H]]%lookup_insert_Some.
    + split; cbn; try done. unfold saturating_succ, u64_max in *. lia.
    + destruct (He _ _ H). split; try done. unfold saturating_succ, u64_max in *. lia.
  - apply list.NoDup_app. split_and!; [done| |apply list.NoDup_singleton].
    intros id Hin%list_elem_of_In ->%list_elem_of_singleton. apply Hor in Hin as [e Hin]. congruence.
  - intros id. rewrite in_snoc, Hor. destruct (decide (id = rq_request_id r)) as [->|Hne].
    + rewrite lookup_insert_eq. naive_solver.
    + rewrite lookup_insert_ne by done. naive_solver.
  - intros item [Hin| ->]%in_snoc; [|apply lookup_insert_eq]. rewrite lookup_insert_ne; [by apply Hq|].
    intros Heq. apply Hfresh. rewrite Heq. by apply in_map.
  - rewrite map_app. apply list.NoDup_app. split_and!; [done| |apply list.NoDup_singleton].
    intros id Hin%list_elem_of_In ->%list_elem_of_singleton. done.
  - intros id item Hin. destruct (Hf _ _ Hin) as [Ho Hnq].
    assert (Hne : rq_request_id r <> id) by congruence.
    rewrite lookup_insert_ne by done. split; [done|]. rewrite map_app, in_app_iff. cbn. naive_solver.
  - intros id item [[<- <-]|[Hne H]]%lookup_insert_Some; [left; by apply in_snoc; right|].
    destruct (Hc _ _ H); [left; apply in_snoc; by left|by right].
  - rewrite Ha, Hopen. by destruct (is_interrupt _).
  - unfold saturating_succ, u64_max in *. lia.
  - rewrite Hopen. destruct (ib_interrupt_requested s) eqn:E; [|done]. specialize (Hint eq_refl). congruence.
Qed.
Lemma admission_open r now_ms cancelled s : inbox_ok s -> admission_problem r now_ms cancelled s = None ->
  ib_closed s = false /\ cancelled = false /\ Z.of_nat (size (owed s)) < RUN_CONTROL_MAX_QUEUE.
Proof.
  unfold admission_problem. intros Hok.
  repeat match goal with |- (if ?b then _ else _) = None -> _ => destruct b eqn:?; [discriminate|] end. intros _.
  match goal with H : _ || _ || cancelled = false |- _ => apply orb_false_iff in H as [[H _]%orb_false_iff ?] end.
  match goal with H : (_ <=? _) = false |- _ => apply Z.leb_gt in H; rewrite accepted_controls_length in H by by apply ok_copies end.
  done.
Qed.
(** The three outcomes of [submit_locked]. *)
Inductive submitted (r : RunControlRequest) (now_ms : Z) (cancelled : bool) (s : InboxState) : InboxState -> RunControlReceipt -> bool -> Prop :=
| resubmitted e : ib_seen s !! rq_request_id r = Some e -> fingerprint_of r = inr (se_fingerprint e) ->
    submitted r now_ms cancelled s s (se_receipt e) false
| newly_admitted s' fingerprint : ib_seen s !! rq_request_id r = None -> fingerprint_of r = inr fingerprint ->
    admission_problem r now_ms cancelled s = None -> s' = trim_terminal_receipts (enqueue_control r fingerprint now_ms s) ->
    submitted r now_ms cancelled s s' (accepted_receipt r now_ms s) (is_interrupt (rq_command r)).
Lemma submit_locked_inr r now_ms cancelled s s' receipt cancel :
  submit_locked encode_request sha256_hex r now_ms cancelled s = inr (s', receipt, cancel) ->
  submitted r now_ms cancelled s s' receipt cancel.
Proof.
  unfold submit_locked. destruct (fingerprint_of r) as [|fp] eqn:Hfp; [discriminate|].
  destruct (ib_seen s !! rq_request_id r) as [e|] eqn:He.
  - destruct (str_eqb _ _) eqn:E; [|discriminate]. apply str_eqb_spec in E as <-. intros [= <- <- <-]. by econstructor.
  - destruct (admission_problem _ _ _ _) eqn:Ep; [discriminate|]. intros [= <- <- <-]. by econstructor.
Qed.
Lemma newly_admitted_ok r fingerprint now_ms cancelled s : inbox_ok s -> control_problem r = None ->
  ib_seen s !! rq_request_id r = None -> fingerprint_of r = inr fingerprint -> admission_problem r now_ms cancelled s = None ->
  let s' := trim_terminal_receipts (enqueue_control r fingerprint now_ms s) in
  inbox_ok s' /\ bounded s' /\ same_but_seen (enqueue_control r fingerprint now_ms s) s' /\
  owed s' = <[rq_request_id r := mkPending r (accepted_receipt r now_ms s)]> (owed s).
Proof.
  intros Hok Hv Hnew Hfp Hp. destruct (admission_open _ _ _ _ Hok Hp) as (Hopen & _ & Hsize). cbn zeta.
  destruct (enqueue_control_ok r fingerprint now_ms s) as [Hok' Hod]; [done..|].
  destruct (trim_ok _ Hok') as (H1 & H2 & H3 & H4).
  { rewrite Hod, map_size_insert_None by by apply owed_None. lia. }
  by rewrite H2, Hod.
Qed.

(** ** [mark_applied] and [close] *)
Lemma filter_none {A} (p : A -> bool) l : (forall x, In x l -> p x = true) -> List.filter p l = l.
Proof. induction l as [|x l IH]; cbn; [done|]. intros H. rewrite (H x) by tauto. f_equal. apply IH. naive_solver. Qed.
Lemma alter_insert (f : SeenRequest -> SeenRequest) (id : str) (e : SeenRequest) (m : gmap str SeenRequest) : m !! id = Some e ->
  <[id := f e]> m = alter f id m.
Proof.
  intros He. apply map_eq. intros i. destruct (decide (i = id)) as [->|Hne].
  - by rewrite lookup_insert_eq, lookup_alter_eq, He.
  - by rewrite lookup_insert_ne, lookup_alter_ne.
Qed.
(** A control that is in flight is applied; any other call changes nothing. *)
Lemma mark_applied_spec p turn_id turn_revision now_ms s s' receipt won : inbox_ok s ->
  (forall item, owed s !! pid p = Some item -> ib_in_flight s !! pid p = Some item) ->
  mark_applied p turn_id turn_revision now_ms s = (s', receipt, won) ->
  if won then exists item, owed s !! pid p = Some item /\ decides item receipt /\ s' = decide_control (pid p) receipt s
  else s' = s.
Proof.
  intros Hok Hfl. unfold mark_applied. fold (pid p). destruct (ib_seen s !! pid p) as [e|] eqn:He; [|by intros [= <- _ <-]].
  destruct (is_accepted (se_receipt e)) eqn:Ha; cbn; [|by intros [= <- _ <-]]. intros [= <- <- <-].
  assert (Ho : owed s !! pid p = Some (mkPending (se_request e) (se_receipt e))) by (apply owed_Some; exists e; by rewrite is_accepted_spec in Ha).
  eexists. split; [exact Ho|]. destruct (ok_entry _ Hok _ _ He). split; [by split_and!; [..|left]|].
  unfold decide_control, with_copies, with_seen. cbn. rewrite alter_insert by done. rewrite en_receipt0. f_equal.
  symmetry. apply filter_none. intros i Hin. apply negb_true_iff, str_eqb_ne. intros Heq.
  destruct (ok_in_flight _ Hok _ _ (Hfl _ Ho)) as [_ Hnq]. apply Hnq. rewrite <- Heq. by apply in_map.
Qed.
Lemma omap_map_to_list {A B} (f : A -> option B) (m : gmap str A) : omap f (map_to_list m).*2 ≡ₚ (map_to_list (omap f m)).*2.
Proof.
  induction m as [|i x m Hi IH] using map_ind; [by rewrite omap_empty, !map_to_list_empty|].
  rewrite omap_insert. rewrite (map_to_list_insert m i x Hi). cbn.
  assert (Hno : omap f m !! i = None) by (rewrite lookup_omap; by rewrite Hi).
  destruct (f x) as [y|]; [by rewrite map_to_list_insert, IH by done|]. by rewrite delete_id.
Qed.
(** What a control is: its request and its place in the order of admissions. *)
Definition identity_of (item : PendingRunControl) : RunControlRequest * Z := (pn_request item, rc_sequence (pn_receipt item)).
Lemma close_ok now_ms s : inbox_ok s -> inbox_ok (close now_ms s).1 /\ owed (close now_ms s).1 = ∅ /\
  map identity_of (close now_ms s).2 ≡ₚ map identity_of (map_to_list (owed s)).*2.
Proof.
  intros Hok. assert (Hod : owed (close now_ms s).1 = ∅).
  { apply map_eq. intros id. unfold owed. cbn. rewrite lookup_omap, lookup_fmap, lookup_empty.
    destruct (ib_seen s !! id) as [e|]; [|done]. cbn. unfold owed_of, settle_seen.
    destruct (is_accepted (se_receipt e)) eqn:E; cbn; [done|]. by rewrite E. }
  split_and!; [|done|].
  - destruct Hok as [He Hn Hor Hq Hqn Hf Hc Ha Hl Hint]. split; rewrite ?Hod; cbn; try done.
    + intros id e. rewrite lookup_fmap. destruct (ib_seen s !! id) as [e'|] eqn:E; cbn; [|done]. intros [= <-].
      destruct (He _ _ E). unfold settle_seen. destruct (is_accepted _); by split.
    + intros id. by rewrite Hor, lookup_fmap, fmap_is_Some.
    + constructor.
  - unfold owed. rewrite <- omap_map_to_list. cbn. induction ((map_to_list (ib_seen s)).*2) as [|e l IH]; cbn; [done|].
    unfold newly_settled, owed_of at 1. destruct (is_accepted _); cbn; [|done]. by rewrite IH.
Qed.

(** ** [persist_pending] *)
Section Persist.
Context (debug_option : option str -> str) {Store ActorError : Type} (schema_error : str -> ActorError).
Context (append : Store -> PendingRunControl -> Store * option ActorError).
Local Abbreviation persist_one := (persist_one encode_request sha256_hex debug_option schema_error append).
Local Abbreviation persist_pending := (persist_pending encode_request sha256_hex debug_option schema_error append).

Lemma retire_stale_id s : inbox_ok s -> retire_stale s = s.
Proof.
  intros Hok. assert (Ht : forall id item, owed s !! id = Some item -> is_terminal_id s id = false).
  { intros id item (e & He & Ha & _)%owed_Some. unfold is_terminal_id. rewrite He. by apply negb_false_iff, is_accepted_spec. }
  unfold retire_stale, with_copies. destruct s as [x1 x2 x3 x4 x5 x6 queue in_flight x9 x10 x11 x12]. cbn. f_equal.
  - apply filter_none. intros item Hin. apply negb_true_iff. eapply Ht. by apply (ok_queue _ Hok).
  - apply map_filter_id. intros id item Hin. eapply Ht. by apply (ok_in_flight _ Hok).
Qed.

(** One turn of the loop, for an owed control. *)
Definition kept_by (failure : option ActorError) (item : PendingRunControl) : bool :=
  is_interrupt (rq_command (pn_request item)) || bool_decide (failure = None).
Definition attempt (store : Store) (failure : option ActorError) (item : PendingRunControl) : Store * option ActorError :=
  if is_steer (rq_command (pn_request item)) && bool_decide (failure = None) then append store item else (store, failure).
Definition decision (now_ms : Z) (s : InboxState) (kept : bool) (item : PendingRunControl) : PendingRunControl :=
  mkPending (pn_request item) (decided_receipt (pn_receipt item) (ib_turn_id s) (ib_turn_revision s) now_ms kept).
Lemma decision_decides now_ms s kept item : decides item (pn_receipt (decision now_ms s kept item)).
Proof. split_and!; [done..|]. cbn. destruct kept; tauto. Qed.
Lemma persist_one_step now_ms s store failure decisions item : inbox_ok s -> owed s !! pid item = Some item ->
  persist_one now_ms (mkPersisting s store failure decisions) item =
  let '(store', failure') := attempt store failure item in
  let item' := decision now_ms s (kept_by failure' item) item in
  mkPersisting (decide_control (pid item) (pn_receipt item') s) store' failure' (decisions ++ [item']).
Proof.
  intros Hok Ho. destruct (proj1 (owed_Some _ _ _) Ho) as (e & He & _ & Heq). destruct (ok_entry _ Hok _ _ He).
  assert (Hr : pn_request item = se_request e) by by rewrite Heq.
  unfold RunControl.persist_one. cbn [ps_state ps_store ps_failure ps_decisions]. rewrite Hr, en_fingerprint0, <- Hr.
  replace (match failure with Some a => Some a | None => None end) with failure by by destruct failure.
  fold (attempt store failure item). destruct (attempt store failure item) as [store' failure'].
  assert (Hk : negb (is_steer (rq_command (pn_request item)) && negb (bool_decide (failure' = None))) = kept_by failure' item).
  { unfold kept_by, is_steer. by destruct (is_interrupt _), (bool_decide _). }
  rewrite Hk. unfold retain_decision. cbn. fold (pid item). rewrite He. cbn.
  rewrite (alter_insert (set_receipt _) _ _ _ He). done.
Qed.

(** The stores and the failures of a run over [items], and which of them are kept. *)
Fixpoint attempts (store : Store) (failure : option ActorError) (items : list PendingRunControl)
    : Store * option ActorError * list bool :=
  match items with
  | [] => (store, failure, [])
  | item :: items =>
      let '(store', failure') := attempt store failure item in
      let '(store'', failure'', kept) := attempts store' failure' items in
      (store'', failure'', kept_by failure' item :: kept)
  end.
Definition remove_all (ids : list str) (m : gmap str PendingRunControl) : gmap str PendingRunControl :=
  foldl (fun m id => delete id m) m ids.
Lemma decision_frame now_ms s id receipt kept item : decision now_ms (decide_control id receipt s) kept item = decision now_ms s kept item.
Proof. done. Qed.
Lemma persist_fold now_ms items s store failure decisions : inbox_ok s -> NoDup (map pid items) ->
  (forall item, In item items -> owed s !! pid item = Some item) ->
  let '(store', failure', kept) := attempts store failure items in
  exists s', foldl (persist_one now_ms) (mkPersisting s store failure decisions) items =
       mkPersisting s' store' failure' (decisions ++ zip_with (decision now_ms s) kept items) /\
    inbox_ok s' /\ owed s' = remove_all (map pid items) (owed s) /\ evolves s s' /\ same_but_pending s s'.
Proof.
  revert s store failure decisions. induction items as [|item items IH]; intros s store failure decisions Hok Hnd Ho; cbn [attempts foldl].
  { exists s. cbn. rewrite app_nil_r. split_and!; auto using evolves_refl. by split_and!. }
  cbn in Hnd. apply list.NoDup_cons in Hnd as [Hnew Hnd]. assert (Hi : owed s !! pid item = Some item) by (apply Ho; by left).
  rewrite persist_one_step by done. destruct (attempt store failure item) as [store' failure']. cbv beta iota zeta.
  set (d := decision now_ms s (kept_by failure' item) item). assert (Hd : decides item (pn_receipt d)) by apply decision_decides.
  specialize (IH (decide_control (pid item) (pn_receipt d) s) store' failure' (decisions ++ [d])).
  destruct (attempts store' failure' items) as [[store'' failure''] kept].
  destruct IH as (s' & -> & Hok' & Hod & Hev & Hsame); [by eapply decide_ok|done| |].
  { intros i Hin. rewrite (decide_owed _ _ _ _ Hi Hd), lookup_delete_ne; [apply Ho; by right|].
    intros Heq. apply Hnew. rewrite Heq. apply list_elem_of_In. by apply in_map. }
  exists s'. rewrite <- app_assoc. split_and!; [done|done| | |].
  - by rewrite Hod, (decide_owed _ _ _ _ Hi Hd).
  - eapply evolves_trans; [by apply (decide_evolves _ _ _ _ Hi Hd)|done].
  - by eapply same_but_pending_trans; [apply decide_same|].
Qed.

(** The whole of [persist_pending]: everything owed is decided, in order. *)
Lemma remove_all_lookup (ids : list str) (m : gmap str PendingRunControl) (id : str) :
  remove_all ids m !! id = if bool_decide (id ∈ ids) then None else m !! id.
Proof.
  revert m. induction ids as [|i ids IH]; intros m; cbn; [by rewrite bool_decide_false by apply not_elem_of_nil|].
  unfold remove_all in IH. rewrite IH. destruct (decide (id = i)) as [->|Hne].
  - rewrite (bool_decide_true (i ∈ i :: ids)) by (apply elem_of_cons; tauto). rewrite lookup_delete_eq. by case_bool_decide.
  - rewrite lookup_delete_ne by done. repeat case_bool_decide; rewrite ?elem_of_cons in *; naive_solver.
Qed.
Lemma in_accepted_controls s item : inbox_ok s -> In item (accepted_controls s) <-> owed s !! pid item = Some item.
Proof.
  intros Hok. rewrite <- list_elem_of_In, (accepted_controls_perm s) by by apply ok_copies. rewrite list_elem_of_fmap. split.
  - intros ([id i] & -> & Hin%elem_of_map_to_list). cbn. by rewrite (owed_pid _ _ _ Hok Hin).
  - intros Ho. exists (pid item, item). split; [done|]. by apply elem_of_map_to_list.
Qed.
Lemma accepted_controls_nodup s : inbox_ok s -> NoDup (map pid (accepted_controls s)).
Proof.
  intros Hok. change (NoDup (pid <$> accepted_controls s)). rewrite (accepted_controls_perm s) by by apply ok_copies.
  rewrite <- list_fmap_compose. replace ((pid ∘ snd) <$> map_to_list (owed s)) with (map_to_list (owed s)).*1; [apply NoDup_fst_map_to_list|].
  apply list_fmap_ext. intros _ [id item] Hin%list_elem_of_lookup_2%elem_of_map_to_list. cbn. by rewrite (owed_pid _ _ _ Hok Hin).
Qed.
Lemma nothing_pending s : inbox_ok s -> owed s = ∅ -> ib_queue s = [] /\ ib_in_flight s = ∅.
Proof.
  intros Hok Hno. split.
  - destruct (ib_queue s) as [|item l] eqn:E; [done|]. pose proof (ok_queue _ Hok item) as Hq. rewrite E, Hno, lookup_empty in Hq.
    specialize (Hq (or_introl eq_refl)). done.
  - apply map_empty. intros id. destruct (ib_in_flight s !! id) as [item|] eqn:E; [|done].
    apply (ok_in_flight _ Hok) in E as [E _]. by rewrite Hno, lookup_empty in E.
Qed.
Lemma nothing_owed s : inbox_ok s -> owed s = ∅ -> has_accepted (pending_observation s) = false.
Proof.
  intros Hok Hno. destruct (nothing_pending _ Hok Hno) as [Hq Hf]. unfold has_accepted, pending_observation. cbn.
  rewrite Hq, Hf, map_to_list_empty. cbn.
  enough (Hz : forall r, In r (map se_receipt (map_to_list (ib_seen s)).*2) -> is_accepted r = false).
  { unfold count_accepted. induction (map se_receipt _) as [|r l IH]; cbn; [done|]. rewrite (Hz r) by by left. apply IH. naive_solver. }
  intros r (e & <- & ([id e'] & <- & Hin)%in_map_iff)%in_map_iff. apply list_elem_of_In, elem_of_map_to_list in Hin. cbn.
  apply is_accepted_ne. intros Ha. assert (Ho : owed s !! id = Some (mkPending (se_request e') (se_receipt e'))) by (apply owed_Some; by exists e').
  by rewrite Hno, lookup_empty in Ho.
Qed.
Lemma persist_ok terminal now_ms store s : inbox_ok s -> bounded s ->
  let '(p, observation) := persist_pending terminal now_ms store s in
  let '(store', failure, kept) := attempts store None (accepted_controls s) in
  ps_store p = store' /\ ps_failure p = failure /\ ps_decisions p = zip_with (decision now_ms s) kept (accepted_controls s) /\
  inbox_ok (ps_state p) /\ bounded (ps_state p) /\ owed (ps_state p) = ∅ /\ evolves s (ps_state p) /\
  ib_closed (ps_state p) = ib_closed s || terminal /\ ib_last_sequence (ps_state p) = ib_last_sequence s /\
  has_accepted observation = false.
Proof.
  intros Hok Hb. unfold RunControl.persist_pending.
  set (s0 := if terminal then sealed s else s).
  assert (Hok0 : inbox_ok s0) by (unfold s0; destruct terminal; auto using sealed_ok).
  assert (Hs0 : ib_seen s0 = ib_seen s /\ ib_last_sequence s0 = ib_last_sequence s /\ ib_closed s0 = ib_closed s || terminal)
    by (unfold s0; destruct terminal; cbn; rewrite ?orb_false_r, ?orb_true_r; done).
  assert (Hd0 : decision now_ms s0 = decision now_ms s) by by unfold s0; destruct terminal.
  assert (Hac : accepted_controls s0 = accepted_controls s) by by unfold s0; destruct terminal.
  destruct Hs0 as (Hseen & Hlast & Hclosed). rewrite retire_stale_id by done. rewrite Hac.
  pose proof (persist_fold now_ms (accepted_controls s) s0 store None [] Hok0 (accepted_controls_nodup s Hok)) as Hfold.
  destruct (attempts store None (accepted_controls s)) as [[store' failure] kept].
  destruct Hfold as (s' & -> & Hok' & Hod & Hev & (Hc & Hl & Hdom & _)).
  { intros item Hin. rewrite <- Hac in Hin. by apply in_accepted_controls. }
  cbn [ps_state ps_store ps_failure ps_decisions app]. rewrite Hd0.
  assert (Hnone : owed s' = ∅).
  { rewrite Hod. apply map_empty. intros id. rewrite remove_all_lookup. case_bool_decide as Hin; [done|].
    destruct (owed s0 !! id) as [item|] eqn:E; [|done]. destruct Hin.
    rewrite <- (owed_pid _ _ _ Hok0 E), <- Hac. apply list_elem_of_In, in_map, in_accepted_controls; [done|].
    by rewrite (owed_pid _ _ _ Hok0 E). }
  assert (Hsize : Z.of_nat (size (ib_seen s')) <= RUN_CONTROL_MAX_SEEN_REQUESTS).
  { rewrite <- (size_dom (D := gset str)), Hdom, size_dom, Hseen. apply Hb. }
  rewrite trim_small by done. unfold bounded. rewrite Hnone, Hc, Hl, Hlast, Hclosed. split_and!; try done.
  - eapply evolves_trans; [|done]. apply evolves_same; [done..|]. rewrite Hclosed. by intros ->.
  - by apply nothing_owed.
Qed.

(** Which inputs were kept: the steers before the first that the store refused. *)
Fixpoint append_all (store : Store) (items : list PendingRunControl) : option Store :=
  match items with
  | [] => Some store
  | item :: items => match append store item with (store, None) => append_all store items | (_, Some _) => None end
  end.
Definition steers (items : list PendingRunControl) : list PendingRunControl :=
  List.filter (fun item => is_steer (rq_command (pn_request item))) items.
Definition interrupt_or_in (kept : list PendingRunControl) (item : PendingRunControl) : bool :=
  is_interrupt (rq_command (pn_request item)) || bool_decide (item ∈ kept).
Lemma attempts_failed store e items :
  attempts store (Some e) items = (store, Some e, map (fun item => is_interrupt (rq_command (pn_request item))) items).
Proof.
  induction items as [|item items IH]; cbn; [done|]. unfold attempt. rewrite andb_false_r, IH. unfold kept_by. by rewrite orb_false_r.
Qed.
Lemma attempts_exact items store : NoDup items ->
  let '(store', failure, kept) := attempts store None items in
  exists held rest store1, steers items = held ++ rest /\ append_all store held = Some store1 /\
    kept = map (interrupt_or_in held) items /\
    match failure with
    | None => rest = [] /\ store' = store1
    | Some e => exists item rest', rest = item :: rest' /\ append store1 item = (store', Some e)
    end.
Proof.
  revert store. induction items as [|item items IH]; intros store Hnd; cbn [attempts].
  { by exists [], [], store. }
  apply list.NoDup_cons in Hnd as [Hnew Hnd]. unfold attempt, is_steer, steers. cbn [List.filter].
  destruct (is_interrupt (rq_command (pn_request item))) eqn:Hint.
  - cbn [negb andb]. specialize (IH store Hnd). destruct (attempts store None items) as [[store' failure] kept].
    destruct IH as (held & rest & store1 & H1 & H2 & -> & H4). exists held, rest, store1. unfold is_steer. rewrite Hint. cbn [negb].
    split_and!; [done..| |done]. cbn. unfold kept_by, interrupt_or_in at 2. by rewrite Hint.
  - unfold is_steer at 1. rewrite Hint. cbn [negb andb]. rewrite bool_decide_true by done.
    destruct (append store item) as [store2 [e|]] eqn:Ea.
    + rewrite attempts_failed. exists [], (item :: steers items), store. split_and!; [done..| |by eexists _, _].
      cbn. unfold kept_by, interrupt_or_in at 1. rewrite Hint. cbn. f_equal. apply map_ext. intros i.
      unfold interrupt_or_in. by rewrite bool_decide_false, orb_false_r by apply not_elem_of_nil.
    + specialize (IH store2 Hnd). destruct (attempts store2 None items) as [[store' failure] kept].
      destruct IH as (held & rest & store1 & H1 & H2 & -> & H4). exists (item :: held), rest, store1.
      split_and!; [cbn; by f_equal|cbn; by rewrite Ea| |done]. cbn. f_equal.
      * unfold kept_by, interrupt_or_in. rewrite !bool_decide_true by (done || apply elem_of_cons; tauto). by rewrite !orb_true_r.
      * apply map_ext_in. intros i Hin. unfold interrupt_or_in. f_equal. apply bool_decide_ext. rewrite elem_of_cons.
        assert (i <> item) by (intros ->; apply Hnew; by apply list_elem_of_In). naive_solver.
Qed.
Lemma zip_with_map {A B C} (f : B -> A -> C) (g : A -> B) l : zip_with f (map g l) l = map (fun x => f (g x) x) l.
Proof. induction l as [|x l IH]; cbn; [done|]. by rewrite IH. Qed.
End Persist.
End Facts.
