(* ===== verification/RunControlSystem.v ===== *)
(** A run-control inbox among its callers ([run_control.rs], [loop_runtime.rs],
    [turn_facts.rs], [joined_failure.rs]): hosts that submit, the policy hook and the
    observers of receipts, the worker of the run at its safe points, and whoever ends the
    run. Every interleaving the two mutexes allow is a sequence of actions: the
    [admission] gate is held from the look-up of a request to the observation of its
    acceptance, and [seal_new_requests] alone does not wait for it. *)
From stdpp Require Import gmap.
From S2P Require Import Prelude Text Hooks RunControl.

(** Who holds the [admission] mutex across a suspension: a [submit_with_hooks] that
    waits for the policy hook, or for the observer of its accepted receipt. *)
Inductive Gate : Type :=
| GateFree
| Deciding (r : RunControlRequest) (now_ms : Z)
| Recording (r : RunControlRequest) (receipt : RunControlReceipt).

Section System.
Context (encode_request : RunControlRequest -> str + list Z) (sha256_hex : list Z -> str) (debug_option : option str -> str).
Context {Store ActorError : Type} (schema_error : str -> ActorError).

(** [ry_held] are the drained controls the worker has not marked yet. [ry_outbox] are the
    decisions whose observers have still to be called; [ry_log] are the calls of
    [record_receipt] and of [record_run_control], in order. [ry_admitted] records every
    admission, for the statements only: no operation reads it. *)
Record RunSystem : Type := mkRun {
  ry_state : InboxState;
  ry_cancelled : bool;
  ry_gate : Gate;
  ry_held : list PendingRunControl;
  ry_store : Store;
  ry_outbox : list PendingRunControl;
  ry_log : list PendingRunControl;
  ry_admitted : list PendingRunControl;
}.
Definition new_run (session_id run_id : str) (store : Store) : RunSystem :=
  mkRun (new_inbox session_id run_id) false GateFree [] store [] [] [].

Inductive RunAction : Type :=
| Submit (r : RunControlRequest) (now_ms : Z)
| HookAnswers (outcome : option HookOutcome)
| RecordAccepted
| DropSubmit
| UpdateTurn (turn_id : str)
| Drain
| MarkApplied (turn_id : option str) (turn_revision now_ms : Z)
| DropWorker
| Persist (terminal : bool) (now_ms : Z) (append : Store -> PendingRunControl -> Store * option ActorError)
| SealNewRequests
| SealAndObserve
| CloseInbox (now_ms : Z)
| CancelToken
| Observe (index : nat).

Definition with_inbox (s : InboxState) (y : RunSystem) : RunSystem :=
  mkRun s (ry_cancelled y) (ry_gate y) (ry_held y) (ry_store y) (ry_outbox y) (ry_log y) (ry_admitted y).
Definition with_gate (g : Gate) (y : RunSystem) : RunSystem :=
  mkRun (ry_state y) (ry_cancelled y) g (ry_held y) (ry_store y) (ry_outbox y) (ry_log y) (ry_admitted y).
Definition with_held (held : list PendingRunControl) (y : RunSystem) : RunSystem :=
  mkRun (ry_state y) (ry_cancelled y) (ry_gate y) held (ry_store y) (ry_outbox y) (ry_log y) (ry_admitted y).
Definition with_store (store : Store) (y : RunSystem) : RunSystem :=
  mkRun (ry_state y) (ry_cancelled y) (ry_gate y) (ry_held y) store (ry_outbox y) (ry_log y) (ry_admitted y).
Definition decided_now (items : list PendingRunControl) (y : RunSystem) : RunSystem :=
  mkRun (ry_state y) (ry_cancelled y) (ry_gate y) (ry_held y) (ry_store y) (ry_outbox y ++ items) (ry_log y) (ry_admitted y).
Definition record_now (items : list PendingRunControl) (y : RunSystem) : RunSystem :=
  mkRun (ry_state y) (ry_cancelled y) (ry_gate y) (ry_held y) (ry_store y) (ry_outbox y) (ry_log y ++ items) (ry_admitted y).

(** [submit_with_hooks] up to its first suspension. *)
Definition submit_begins (r : RunControlRequest) (now_ms : Z) (y : RunSystem) : RunSystem :=
  match submit_entry encode_request sha256_hex r (ry_state y) with
  | inr None => with_gate (Deciding r now_ms) y
  | _ => y
  end.
(** The rest of it, up to the call of the observer. *)
Definition submit_resumes (r : RunControlRequest) (now_ms : Z) (outcome : option HookOutcome) (y : RunSystem) : RunSystem :=
  match submit_decided encode_request sha256_hex debug_option r outcome now_ms (ry_cancelled y) (ry_state y) with
  | Refused _ observed => with_gate GateFree (record_now (mkPending r <$> option_list observed) y)
  | Entered s receipt cancel =>
      mkRun s (ry_cancelled y || cancel) (Recording r receipt) (ry_held y) (ry_store y) (ry_outbox y) (ry_log y)
            (ry_admitted y ++ [mkPending r receipt])
  end.
Definition worker_marks (turn_id : option str) (turn_revision now_ms : Z) (p : PendingRunControl) (y : RunSystem) : RunSystem :=
  let '(s, receipt, won) := mark_applied p turn_id turn_revision now_ms (ry_state y) in
  decided_now (if (won : bool) then [mkPending (pn_request p) receipt] else []) (with_inbox s y).
Definition run_persists (terminal : bool) (now_ms : Z) (append : Store -> PendingRunControl -> Store * option ActorError)
    (y : RunSystem) : RunSystem :=
  let '(p, _) := persist_pending encode_request sha256_hex debug_option schema_error append terminal now_ms (ry_store y) (ry_state y) in
  decided_now (ps_decisions p) (with_store (ps_store p) (with_inbox (ps_state p) y)).
Definition run_closes (now_ms : Z) (y : RunSystem) : RunSystem :=
  let '(s, settled) := close now_ms (ry_state y) in decided_now settled (with_inbox s y).
Definition observe_next (index : nat) (y : RunSystem) : option RunSystem :=
  match ry_outbox y !! index with
  | Some item =>
      Some (mkRun (ry_state y) (ry_cancelled y) (ry_gate y) (ry_held y) (ry_store y) (delete index (ry_outbox y))
                  (ry_log y ++ [item]) (ry_admitted y))
  | None => None
  end.

(** The worker drains, marks each drained control and only then comes back to a safe
    point; a worker that persists instead of draining holds none. *)
Definition control_step (y : RunSystem) (a : RunAction) : option RunSystem :=
  match a, ry_gate y with
  | SealNewRequests, _ => Some (with_inbox (seal_new_requests (ry_state y)) y)
  | CancelToken, _ =>
      Some (mkRun (ry_state y) true (ry_gate y) (ry_held y) (ry_store y) (ry_outbox y) (ry_log y) (ry_admitted y))
  | Observe index, _ => observe_next index y
  | DropWorker, _ => Some (with_held [] y)
  | HookAnswers outcome, Deciding r now_ms => Some (submit_resumes r now_ms outcome y)
  | RecordAccepted, Recording r receipt => Some (with_gate GateFree (record_now [mkPending r receipt] y))
  | DropSubmit, (Deciding _ _ | Recording _ _) => Some (with_gate GateFree y)
  | Submit r now_ms, GateFree => Some (submit_begins r now_ms y)
  | UpdateTurn turn_id, GateFree => Some (with_inbox (update_turn_id turn_id (ry_state y)) y)
  | Drain, GateFree =>
      match ry_held y with
      | [] => let '(s, pending) := drain_controls (ry_state y) in Some (with_held pending (with_inbox s y))
      | _ :: _ => None
      end
  | MarkApplied turn_id turn_revision now_ms, GateFree =>
      match ry_held y with
      | [] => None
      | p :: held => Some (with_held held (worker_marks turn_id turn_revision now_ms p y))
      end
  | Persist terminal now_ms append, GateFree =>
      match terminal, ry_held y with
      | false, _ :: _ => None
      | _, _ => Some (run_persists terminal now_ms append y)
      end
  | SealAndObserve, GateFree => Some (with_inbox (seal_and_observe_pending (ry_state y)).1 y)
  | CloseInbox now_ms, GateFree => Some (run_closes now_ms y)
  | _, _ => None
  end.
Fixpoint control_steps (y : RunSystem) (actions : list RunAction) : option RunSystem :=
  match actions with
  | [] => Some y
  | a :: actions => control_step y a ≫= fun y => control_steps y actions
  end.
(** The states a run can be in. *)
Definition run_reached (session_id run_id : str) (store : Store) (y : RunSystem) : Prop :=
  exists actions, control_steps (new_run session_id run_id store) actions = Some y.
End System.
