(* ===== verification/RunControlSystemFacts.v ===== *)
(** What a run-control inbox promises its callers, in every interleaving: each admitted
    control is decided exactly once, a decided receipt never changes, an inbox stays
    within its limits, and observers see an acceptance before its outcome. *)
From Stdlib Require Import Sorted.
From stdpp Require Import gmap.
From S2P Require Import Prelude Text Hooks RunControl RunControlFacts RunControlSystem.

Definition owed_items (s : InboxState) : list PendingRunControl := (map_to_list (owed s)).*2.
Definition seq_of (item : PendingRunControl) : Z := rc_sequence (pn_receipt item).
Definition is_decided (item : PendingRunControl) : bool :=
  bool_decide (rc_state (pn_receipt item) = Applied) || bool_decide (rc_state (pn_receipt item) = Settled).
Lemma owed_items_insert s s' id item : owed s !! id = None -> owed s' = <[id := item]> (owed s) ->
  owed_items s' ≡ₚ item :: owed_items s.
Proof. intros Hno Hod. unfold owed_items. rewrite Hod, map_to_list_insert by done. done. Qed.
Lemma owed_items_delete s s' id item : owed s !! id = Some item -> owed s' = delete id (owed s) ->
  owed_items s ≡ₚ item :: owed_items s'.
Proof. intros Ho Hod. unfold owed_items. rewrite Hod. by rewrite <- (map_to_list_delete _ _ _ Ho). Qed.
Lemma in_owed_items s id item : owed s !! id = Some item -> In item (owed_items s).
Proof. intros Ho. unfold owed_items. apply in_map_iff. exists (id, item). split; [done|]. by apply list_elem_of_In, elem_of_map_to_list. Qed.

Section SystemFacts.
Context (encode_request : RunControlRequest -> str + list Z) (sha256_hex : list Z -> str) (debug_option : option str -> str).
Context {Store ActorError : Type} (schema_error : str -> ActorError).
Local Abbreviation RunSystem := (RunSystem (Store := Store)).
Local Abbreviation inbox_ok := (inbox_ok encode_request sha256_hex).

(** The decisions taken so far, observed or not. *)
Definition decided (y : RunSystem) : list PendingRunControl := ry_outbox y ++ List.filter is_decided (ry_log y).
(** No acceptance is observed after the outcome of the same control. *)
Definition log_ordered (log : list PendingRunControl) : Prop :=
  forall l1 d l2 x, log = l1 ++ d :: l2 -> is_decided d = true -> In x l2 -> rc_state (pn_receipt x) = Accepted -> seq_of x <> seq_of d.
Definition gate_ok (y : RunSystem) : Prop :=
  match ry_gate y with
  | GateFree => True
  | Deciding r _ => control_problem r = None /\ ib_seen (ry_state y) !! rq_request_id r = None
  | Recording r receipt => owed (ry_state y) !! rq_request_id r = Some (mkPending r receipt)
  end.
(** What the worker holds is in flight, or the run has ended and owes nothing. *)
Definition held_ok (held : list PendingRunControl) (s : InboxState) : Prop :=
  NoDup (map pid held) /\
  ((forall p, In p held -> ib_in_flight s !! pid p = Some p) \/ (ib_closed s = true /\ owed s = ∅)).
Record run_ok (y : RunSystem) : Prop := {
  ro_inbox : inbox_ok (ry_state y);
  ro_bounded : bounded (ry_state y);
  ro_gate : gate_ok y;
  ro_held : held_ok (ry_held y) (ry_state y);
  ro_ledger : map identity_of (owed_items (ry_state y)) ++ map identity_of (decided y) ≡ₚ map identity_of (ry_admitted y);
  ro_outbox : forall item, In item (ry_outbox y) -> is_decided item = true;
  ro_sequences : ib_last_sequence (ry_state y) < u64_max -> map seq_of (ry_admitted y) = seqZ 1 (ib_last_sequence (ry_state y));
  ro_ordered : ib_last_sequence (ry_state y) < u64_max -> log_ordered (ry_log y);
  ro_interrupt : forall item, In item (ry_admitted y) -> is_interrupt (rq_command (pn_request item)) = true ->
    ib_closed (ry_state y) = true /\ ry_cancelled y = true /\ list.last (ry_admitted y) = Some item;
}.

Lemma new_run_ok session_id run_id store : run_ok (new_run session_id run_id store).
Proof.
  split; try done; cbn.
  - apply new_inbox_ok.
  - split; [constructor|by left].
  - by intros _ [] d l2 x.
Qed.

(** ** Steps that change neither receipts nor pending copies *)
Lemma run_ok_frame y s' : run_ok y -> inbox_ok s' -> ib_seen s' = ib_seen (ry_state y) ->
  ib_in_flight s' = ib_in_flight (ry_state y) -> ib_last_sequence s' = ib_last_sequence (ry_state y) ->
  (ib_closed (ry_state y) = true -> ib_closed s' = true) -> run_ok (with_inbox s' y).
Proof.
  intros [] Hok Hs Hf Hl Hc. assert (Hod : owed s' = owed (ry_state y)) by (unfold owed; by rewrite Hs).
  split; cbn; rewrite ?Hl; try done.
  - unfold bounded. by rewrite Hod, Hs.
  - unfold gate_ok in *. cbn. by rewrite Hs, Hod.
  - destruct ro_held0 as [H1 H2]. split; [done|]. rewrite Hf, Hod. naive_solver.
  - unfold owed_items. by rewrite Hod.
  - naive_solver.
Qed.
Lemma run_ok_gate y g : run_ok y -> gate_ok (with_gate g y) -> run_ok (with_gate g y).
Proof. intros [] Hg. by split. Qed.
Lemma run_ok_free y : run_ok y -> run_ok (with_gate GateFree y).
Proof. intros Hok. by apply run_ok_gate. Qed.

(** ** Decisions *)
Lemma run_ok_decided y s' items held store : run_ok y -> ry_gate y = GateFree -> inbox_ok s' -> bounded s' ->
  ib_last_sequence s' = ib_last_sequence (ry_state y) -> (ib_closed (ry_state y) = true -> ib_closed s' = true) ->
  (forall item, In item items -> is_decided item = true) -> held_ok held s' ->
  map identity_of (owed_items (ry_state y)) ≡ₚ map identity_of items ++ map identity_of (owed_items s') ->
  run_ok (with_held held (decided_now items (with_store store (with_inbox s' y)))).
Proof.
  intros [] Hg Hok Hb Hl Hc Hit Hheld Hperm. split; cbn; rewrite ?Hl; try done.
  - unfold gate_ok. cbn. by rewrite Hg.
  - rewrite <- ro_ledger0, Hperm. unfold decided. cbn. rewrite !map_app. solve_Permutation.
  - intros item [Hin|Hin]%in_app_iff; auto.
  - naive_solver.
Qed.
Lemma bounded_decide s id item receipt : bounded s -> owed s !! id = Some item -> decides item receipt ->
  bounded (decide_control id receipt s).
Proof.
  intros [H1 H2] Ho Hd. split.
  - rewrite (decide_owed _ _ _ _ Ho Hd), map_size_delete, Ho. lia.
  - rewrite <- (size_dom (D := gset str)). destruct (decide_same id receipt s) as (_ & _ & -> & _). by rewrite size_dom.
Qed.
Lemma held_in_flight y p held : run_ok y -> ry_held y = p :: held -> forall item, owed (ry_state y) !! pid p = Some item ->
  ib_in_flight (ry_state y) !! pid p = Some item /\ item = p.
Proof.
  intros Hok Hh item Ho. destruct (ro_held _ Hok) as [_ [Hf|[_ Hno]]]; [|by rewrite Hno, lookup_empty in Ho].
  assert (Hp : ib_in_flight (ry_state y) !! pid p = Some p) by (apply Hf; rewrite Hh; by left).
  destruct (ok_in_flight _ _ _ (ro_inbox _ Hok) _ _ Hp) as [Ho' _]. naive_solver congruence.
Qed.
Lemma mark_run_ok y p held turn_id turn_revision now_ms : run_ok y -> ry_gate y = GateFree -> ry_held y = p :: held ->
  run_ok (with_held held (worker_marks turn_id turn_revision now_ms p y)) /\
  evolves (ry_state y) (ry_state (worker_marks turn_id turn_revision now_ms p y)).
Proof.
  intros Hok Hg Hh. unfold worker_marks. destruct (mark_applied _ _ _ _ _) as [[s' receipt] won] eqn:Hm.
  pose proof (mark_applied_spec _ _ _ _ _ _ _ _ _ _ (ro_inbox _ Hok) (fun i Hi => proj1 (held_in_flight _ _ _ Hok Hh i Hi)) Hm) as Hspec.
  destruct (ro_held _ Hok) as [Hnd Hf]. rewrite Hh in Hnd, Hf. cbn in Hnd. apply list.NoDup_cons in Hnd as [Hnew Hnd].
  destruct won.
  - destruct Hspec as (item & Ho & Hd & ->). destruct (held_in_flight _ _ _ Hok Hh _ Ho) as [Hfl ->].
    split; [|by eapply decide_evolves].
    apply (run_ok_decided y _ [mkPending (pn_request p) receipt] held (ry_store y)); try done.
    + by eapply decide_ok; [apply ro_inbox|..].
    + by eapply bounded_decide; [apply ro_bounded|..].
    + intros i [<-|[]]. unfold is_decided. cbn. by destruct Hd as (_ & _ & [-> | ->]).
    + split; [done|]. left. intros q Hq. cbn. destruct Hf as [Hf|[_ Hno]]; [|by rewrite Hno, lookup_empty in Ho].
      rewrite lookup_delete_ne; [apply Hf; by right|]. intros Heq. apply Hnew. rewrite Heq. apply list_elem_of_In. by apply in_map.
    + rewrite (owed_items_delete _ _ _ _ Ho (decide_owed _ _ _ _ Ho Hd)). cbn.
      destruct Hd as (_ & Hs & _). unfold identity_of at 1 3. cbn. by rewrite Hs.
  - subst s'. split; [|apply evolves_refl].
    apply (run_ok_decided y _ [] held (ry_store y)); try done; [apply Hok..|].
    split; [done|]. destruct Hf as [Hf|Hf]; [left|by right]. intros q Hq. apply Hf. by right.
Qed.
(** A run that ends owes nothing to whoever still holds a control. *)
Lemma held_ok_ended held s s' : held_ok held s -> ib_closed s' = true -> owed s' = ∅ -> held_ok held s'.
Proof. intros [H1 _] Hc Hno. split; [done|by right]. Qed.
Lemma attempts_length append (items : list PendingRunControl) (store : Store) (failure : option ActorError) :
  length (attempts append store failure items).2 = length items.
Proof.
  revert store failure. induction items as [|item items IH]; intros store failure; cbn; [done|].
  destruct (attempt _ _ _ _) as [store' failure']. specialize (IH store' failure').
  destruct (attempts _ _ _ _) as [[? ?] kept]. cbn in *. by rewrite IH.
Qed.
Lemma decisions_identity now_ms s kept items : length kept = length items ->
  map identity_of (zip_with (decision now_ms s) kept items) = map identity_of items /\
  forall item, In item (zip_with (decision now_ms s) kept items) -> is_decided item = true.
Proof.
  revert kept. induction items as [|item items IH]; intros [|k kept]; cbn; try done. intros [= Hlen].
  destruct (IH kept Hlen) as [-> Hd]. split; [done|]. intros i [<-|Hin]; [by destruct k|auto].
Qed.
Lemma persist_run_ok y terminal now_ms append : run_ok y -> ry_gate y = GateFree -> (terminal = false -> ry_held y = []) ->
  run_ok (run_persists encode_request sha256_hex debug_option schema_error terminal now_ms append y) /\
  evolves (ry_state y) (ry_state (run_persists encode_request sha256_hex debug_option schema_error terminal now_ms append y)).
Proof.
  intros Hok Hg Hheld. unfold run_persists.
  pose proof (persist_ok encode_request sha256_hex debug_option schema_error append terminal now_ms (ry_store y) (ry_state y)
                (ro_inbox _ Hok) (ro_bounded _ Hok)) as Hp.
  destruct (persist_pending _ _ _ _ _ _ _ _ _) as [p observation].
  pose proof (attempts_length append (accepted_controls (ry_state y)) (ry_store y) None) as Hlen.
  destruct (attempts _ _ _ _) as [[store' failure] kept]. cbn in Hlen.
  destruct Hp as (_ & _ & Hdec & Hok' & Hb' & Hno & Hev & Hc & Hl & _).
  destruct (decisions_identity now_ms (ry_state y) kept _ Hlen) as [Hid Htm]. split; [|done].
  apply (run_ok_decided y (ps_state p) (ps_decisions p) (ry_held y) (ps_store p)); try done.
  - apply Hev.
  - by rewrite Hdec.
  - destruct terminal.
    + apply (held_ok_ended _ (ry_state y)); [apply Hok|exact (eq_trans Hc (orb_true_r _))|done].
    + rewrite Hheld by done. split; [constructor|by left].
  - rewrite Hdec, Hid. unfold owed_items at 2. rewrite Hno, map_to_list_empty. cbn. rewrite app_nil_r.
    apply Permutation_map. symmetry. apply accepted_controls_perm. apply ok_copies with encode_request sha256_hex, Hok.
Qed.
Lemma close_evolves now_ms s : evolves s (close now_ms s).1.
Proof.
  split_and!; [done..|]. cbn. intros _ id e'. rewrite lookup_fmap. destruct (ib_seen s !! id) as [e|]; cbn; [|done]. intros [= <-].
  left. exists e. split; [done|]. unfold settle_seen. destruct (is_accepted _) eqn:E; [|apply advances_refl].
  split_and!; try done. cbn. by apply is_accepted_spec in E.
Qed.
Lemma close_bounded now_ms s : bounded s -> owed (close now_ms s).1 = ∅ -> bounded (close now_ms s).1.
Proof.
  intros [_ Hb] Hno. split; [by rewrite Hno|]. cbn. by rewrite map_size_fmap.
Qed.
Lemma close_run_ok y now_ms : run_ok y -> ry_gate y = GateFree -> run_ok (run_closes now_ms y).
Proof.
  intros Hok Hg. destruct (close_ok _ _ now_ms (ry_state y) (ro_inbox _ Hok)) as (H1 & H2 & H3).
  unfold run_closes. destruct (close now_ms (ry_state y)) as [s' settled] eqn:E. cbn in *.
  assert (Hs' : s' = (close now_ms (ry_state y)).1) by by rewrite E.
  apply (run_ok_decided y s' settled (ry_held y) (ry_store y)); try done.
  - rewrite Hs' in H2 |- *. apply close_bounded; [apply Hok|done].
  - by rewrite Hs'.
  - by rewrite Hs'.
  - injection E as _ <-. intros item (e & _ & He)%list_elem_of_In%list_elem_of_omap. unfold newly_settled in He.
    destruct (is_accepted _); [|done]. by injection He as <-.
  - apply (held_ok_ended _ (ry_state y)); [apply Hok|by rewrite Hs'|done].
  - rewrite H3. unfold owed_items at 2. rewrite H2, map_to_list_empty. cbn. by rewrite app_nil_r.
Qed.
Lemma drain_run_ok y : run_ok y -> ry_held y = [] ->
  run_ok (with_held (drain_controls (ry_state y)).2 (with_inbox (drain_controls (ry_state y)).1 y)).
Proof.
  intros Hok Hh. destruct (drain_ok _ _ _ (ro_inbox _ Hok)) as (H1 & H2 & H3). destruct Hok. split; try done; cbn.
  - split; [apply ro_inbox0|]. left. intros p Hp. by apply H3.
Qed.

(** ** Submissions *)
Lemma log_ordered_snoc log x : log_ordered log ->
  (rc_state (pn_receipt x) = Accepted -> forall d, In d log -> is_decided d = true -> seq_of x <> seq_of d) ->
  log_ordered (log ++ [x]).
Proof.
  intros Hlog Hx l1 d l2 z Heq Hd Hin Ha. destruct l2 as [|w l2 _] using rev_ind; [done|].
  rewrite app_comm_cons, app_assoc in Heq. apply app_inj_tail in Heq as [-> ->].
  apply in_snoc in Hin as [Hin| ->]; [by apply (Hlog l1 d l2)|].
  apply Hx; [done| |done]. apply in_app_iff. right. by left.
Qed.
Lemma enqueue_evolves r fingerprint now_ms s s' : inbox_ok s -> ib_seen s !! rq_request_id r = None ->
  same_but_seen (enqueue_control r fingerprint now_ms s) s' -> evolves s s'.
Proof.
  intros Hok Hnew (seen & order & -> & Hsub). pose proof (ok_last _ _ _ Hok). split_and!; cbn.
  - unfold saturating_succ. lia.
  - by intros ->.
  - intros Hmax id e He%Hsub. cbn in He. apply lookup_insert_Some in He as [[<- <-]|[Hne He]].
    + right. cbn. unfold saturating_succ in *. lia.
    + left. exists e. auto using advances_refl.
Qed.
Lemma sequences_snoc admitted last item : seq_of item = saturating_succ last -> 0 <= last <= u64_max ->
  (last < u64_max -> map seq_of admitted = seqZ 1 last) -> saturating_succ last < u64_max ->
  map seq_of (admitted ++ [item]) = seqZ 1 (saturating_succ last).
Proof.
  unfold saturating_succ. intros Hs Hl Hold Hmax. rewrite map_app, Hold by lia. cbn [map]. rewrite Hs.
  replace (Z.min (last + 1) u64_max) with (last + 1) by lia. rewrite seqZ_app by lia. by rewrite (Z.add_comm 1 last).
Qed.
Lemma resume_run_ok y r now_ms outcome : run_ok y -> ry_gate y = Deciding r now_ms ->
  run_ok (submit_resumes encode_request sha256_hex debug_option r now_ms outcome y) /\ evolves (ry_state y) (ry_state (submit_resumes encode_request sha256_hex debug_option r now_ms outcome y)).
Proof.
  intros Hok Hg. pose proof (ro_gate _ Hok) as Hgate. unfold gate_ok in Hgate. rewrite Hg in Hgate. destruct Hgate as [Hv Hnew].
  unfold submit_resumes, submit_decided. destruct (outcome ≫= refusal_of) as [error|] eqn:Er.
  { split; [|apply evolves_refl]. destruct Hok. split; try done; cbn.
    - unfold decided. cbn. by rewrite List.filter_app, app_nil_r.
    - intros Hmax. apply log_ordered_snoc; [auto|done]. }
  destruct (submit_locked _ _ _ _ _ _) as [error|[[s' receipt] cancel]] eqn:Es.
  { split; [|apply evolves_refl]. destruct Hok. split; try done; cbn.
    - unfold decided. cbn. by rewrite app_nil_r.
    - by rewrite app_nil_r. }
  apply submit_locked_inr in Es as [e He|s'' fingerprint _ Hfp Hp ->]; [congruence|].
  destruct (newly_admitted_ok _ _ _ _ _ _ _ (ro_inbox _ Hok) Hv Hnew Hfp Hp) as (Hok' & Hb & Hsame & Hod).
  destruct (admission_open _ _ _ _ _ _ (ro_inbox _ Hok) Hp) as (Hopen & Hcan & _).
  split; [|by eapply enqueue_evolves; [apply Hok|..]].
  clear s'. set (s' := trim_terminal_receipts _) in *. clearbody s'. destruct Hsame as (seen & order & Hs' & _).
  pose proof (ok_last _ _ _ (ro_inbox _ Hok)) as Hlast. destruct Hok. split; try done; cbn.
  - unfold gate_ok. cbn. rewrite Hod. apply lookup_insert_eq.
  - destruct ro_held0 as [Hnd [Hf|[Hc _]]]; [|congruence]. split; [done|]. left. by rewrite Hs'.
  - rewrite (owed_items_insert _ _ _ _ (owed_None _ _ Hnew) Hod), (map_app _ (ry_admitted y)).
    rewrite <- ro_ledger0. unfold decided. cbn. solve_Permutation.
  - rewrite Hs'. cbn. by apply sequences_snoc.
  - rewrite Hs'. cbn. intros Hmax. apply ro_ordered0. unfold saturating_succ in *. lia.
  - intros item [Hin| ->]%in_snoc Hint.
    + destruct (ro_interrupt0 _ Hin Hint). congruence.
    + cbn in Hint. rewrite Hs'. cbn. rewrite Hint, orb_true_r, list.last_snoc. by rewrite orb_true_r.
Qed.

(** ** Observers *)
Lemma ledger_sequences y : run_ok y -> ib_last_sequence (ry_state y) < u64_max ->
  map seq_of (owed_items (ry_state y)) ++ map seq_of (decided y) ≡ₚ seqZ 1 (ib_last_sequence (ry_state y)).
Proof.
  intros Hok Hmax. rewrite <- (ro_sequences _ Hok Hmax).
  assert (Hmap : forall l, map seq_of l = map snd (map identity_of l)) by (intros l; by rewrite map_map).
  rewrite !Hmap, <- map_app. by apply Permutation_map, ro_ledger.
Qed.
Lemma owed_not_decided y item d : run_ok y -> ib_last_sequence (ry_state y) < u64_max ->
  In item (owed_items (ry_state y)) -> In d (decided y) -> seq_of item <> seq_of d.
Proof.
  intros Hok Hmax Hi Hd Heq. pose proof (NoDup_seqZ 1 (ib_last_sequence (ry_state y))) as Hnd.
  rewrite <- (ledger_sequences y Hok Hmax), list.NoDup_app in Hnd. destruct Hnd as (_ & Hnd & _).
  apply (Hnd (seq_of item)); apply list_elem_of_In; [by apply in_map|]. rewrite Heq. by apply in_map.
Qed.
Lemma record_run_ok y r receipt : run_ok y -> ry_gate y = Recording r receipt ->
  run_ok (with_gate GateFree (record_now [mkPending r receipt] y)).
Proof.
  intros Hok Hg. pose proof (ro_gate _ Hok) as Ho. unfold gate_ok in Ho. rewrite Hg in Ho.
  assert (Ha : is_decided (mkPending r receipt) = false).
  { apply owed_Some in Ho as (e & _ & Ha & [= -> ->]). unfold is_decided. cbn. by rewrite Ha. }
  pose proof (owed_not_decided y (mkPending r receipt)) as Hnd. specialize (Hnd) with (1 := Hok).
  destruct Hok. split; try done; cbn.
  - unfold decided. cbn. rewrite List.filter_app. cbn. by rewrite Ha, app_nil_r.
  - intros Hmax. apply log_ordered_snoc; [auto|]. intros _ d Hd Hdec. apply Hnd; [done|by eapply in_owed_items|].
    apply in_app_iff. right. by apply filter_In.
Qed.
Lemma observe_run_ok y index y' : run_ok y -> observe_next index y = Some y' -> run_ok y' /\ ry_state y' = ry_state y.
Proof.
  unfold observe_next. intros Hok. destruct (ry_outbox y !! index) as [item|] eqn:Hi; [|done]. intros [= <-]. split; [|done].
  pose proof (delete_Permutation _ _ _ Hi) as Hp.
  assert (Hdec : is_decided item = true) by (apply (ro_outbox _ Hok), list_elem_of_In, (list_elem_of_lookup_2 _ index), Hi).
  destruct Hok. split; try done; cbn.
  - rewrite <- ro_ledger0. unfold decided. cbn. rewrite List.filter_app. cbn. rewrite Hdec, !map_app.
    rewrite (Permutation_map identity_of Hp). cbn. solve_Permutation.
  - intros i Hin. apply ro_outbox0. apply list_elem_of_In. rewrite Hp. apply elem_of_cons. right. by apply list_elem_of_In.
  - intros Hmax. apply log_ordered_snoc; [auto|]. intros Ha. unfold is_decided in Hdec. rewrite Ha in Hdec. done.
Qed.

(** ** Every step, and every run *)
Local Abbreviation control_step := (control_step encode_request sha256_hex debug_option schema_error).
Local Abbreviation control_steps := (control_steps encode_request sha256_hex debug_option schema_error).
Lemma frame_step y s' : run_ok y -> inbox_ok s' -> ib_seen s' = ib_seen (ry_state y) ->
  ib_in_flight s' = ib_in_flight (ry_state y) -> ib_last_sequence s' = ib_last_sequence (ry_state y) ->
  (ib_closed (ry_state y) = true -> ib_closed s' = true) -> run_ok (with_inbox s' y) /\ evolves (ry_state y) s'.
Proof. intros. split; [by apply run_ok_frame|by apply evolves_same]. Qed.
Lemma update_turn_step y t : run_ok y -> run_ok (with_inbox (update_turn_id t (ry_state y)) y) /\ evolves (ry_state y) (update_turn_id t (ry_state y)).
Proof.
  intros Hok. destruct (update_turn_id_frame t (ry_state y)) as (H1 & H2 & H3). apply frame_step; try done.
  - apply update_turn_id_ok, Hok.
  - unfold update_turn_id. by case_bool_decide.
  - by rewrite H2.
Qed.
Lemma submit_begins_ok y r now_ms : run_ok y -> run_ok (submit_begins encode_request sha256_hex r now_ms y) /\
  ry_state (submit_begins encode_request sha256_hex r now_ms y) = ry_state y.
Proof.
  intros Hok. unfold submit_begins, submit_entry, known_receipt. destruct (control_problem r) eqn:Hv; [done|].
  destruct (request_fingerprint _ _ _); [done|]. destruct (ib_seen (ry_state y) !! rq_request_id r) as [e|] eqn:He.
  - by destruct (str_eqb _ _).
  - split; [|done]. apply run_ok_gate; [done|]. by split.
Qed.
Lemma control_step_ok y a y' : run_ok y -> control_step y a = Some y' -> run_ok y' /\ evolves (ry_state y) (ry_state y').
Proof.
  intros Hok. pose proof (evolves_refl (ry_state y)) as Hrefl. unfold RunControlSystem.control_step.
  destruct a as [r n|o| | |t| |t v n| |terminal n ap| | |n| |i];
    try (destruct (ry_gate y) as [|r' n'|r' receipt] eqn:Hg; try discriminate; []).
  - intros [= <-]. destruct (submit_begins_ok y r n Hok) as [? ->]. done.
  - intros [= <-]. by apply resume_run_ok.
  - intros [= <-]. split; [by apply record_run_ok|done].
  - destruct (ry_gate y); [done|..]; intros [= <-]; (split; [by apply run_ok_free|done]).
  - intros [= <-]. by apply update_turn_step.
  - destruct (ry_held y) eqn:Hh; [|done]. intros [= <-]. split; [by apply drain_run_ok|]. by apply evolves_same.
  - destruct (ry_held y) as [|p held] eqn:Hh; [done|]. intros [= <-]. by apply mark_run_ok.
  - intros [= <-]. split; [|done]. destruct Hok. split; try done. split; [constructor|by left].
  - intros Hs. apply persist_run_ok with (terminal := terminal) (now_ms := n) (append := ap) in Hok as Hp; [|done|].
    + by destruct terminal, (ry_held y); simplify_eq.
    + destruct terminal; [done|]. by destruct (ry_held y).
  - intros [= <-]. apply frame_step; try done. apply sealed_ok, Hok.
  - intros [= <-]. apply frame_step; try done. apply sealed_ok, Hok.
  - intros [= <-]. split; [by apply close_run_ok|]. apply close_evolves.
  - intros [= <-]. split; [|done]. destruct Hok. split; try done. cbn. naive_solver.
  - intros [? ->]%observe_run_ok; done.
Qed.
Lemma control_steps_ok y actions y' : run_ok y -> control_steps y actions = Some y' -> run_ok y' /\ evolves (ry_state y) (ry_state y').
Proof.
  revert y. induction actions as [|a actions IH]; intros y Hok; cbn [RunControlSystem.control_steps].
  { intros [= <-]. auto using evolves_refl. }
  intros (y1 & Hstep & Hrest)%bind_Some. destruct (control_step_ok _ _ _ Hok Hstep) as [Hok1 Hev1].
  destruct (IH _ Hok1 Hrest) as [Hok2 Hev2]. eauto using evolves_trans.
Qed.
Lemma run_reached_ok session_id run_id (store : Store) (y : RunSystem) :
  run_reached encode_request sha256_hex debug_option schema_error session_id run_id store y -> run_ok y.
Proof. intros [actions H]. by apply (control_steps_ok (new_run session_id run_id store) actions y), H; apply new_run_ok. Qed.

(** ** Ended runs *)
Lemma closed_step y a y' : run_ok y -> ib_closed (ry_state y) = true -> control_step y a = Some y' -> ry_admitted y' = ry_admitted y.
Proof.
  intros Hok Hc. unfold RunControlSystem.control_step. destruct a; try (destruct (ry_gate y) eqn:Hg; try discriminate);
    repeat match goal with |- context [match ry_held y with _ => _ end] => destruct (ry_held y) end;
    try (destruct terminal); try discriminate; try (intros [= <-]; try done).
  - unfold submit_begins. by destruct (submit_entry _ _ _ _) as [|[]].
  - unfold submit_resumes, submit_decided. destruct (outcome ≫= refusal_of); [done|].
    destruct (submit_locked _ _ _ _ _ _) as [error|[[s' receipt] cancel]] eqn:Es; [done|].
    pose proof (ro_gate _ Hok) as Hgate. unfold gate_ok in Hgate. rewrite Hg in Hgate.
    apply submit_locked_inr in Es as [e He|s'' fingerprint _ Hfp Hp ->]; [naive_solver congruence|].
    destruct (admission_open _ _ _ _ _ _ (ro_inbox _ Hok) Hp) as (Hopen & _). congruence.
  - cbn. unfold worker_marks. by destruct (mark_applied _ _ _ _ _) as [[]].
  - unfold observe_next. destruct (_ !! _); [|done]. by intros [= <-].
  - unfold observe_next. destruct (_ !! _); [|done]. by intros [= <-].
  - unfold observe_next. destruct (_ !! _); [|done]. by intros [= <-].
Qed.
Lemma closed_steps y actions y' : run_ok y -> ib_closed (ry_state y) = true -> control_steps y actions = Some y' ->
  ry_admitted y' = ry_admitted y.
Proof.
  revert y. induction actions as [|a actions IH]; intros y Hok Hc; cbn [RunControlSystem.control_steps]; [by intros [= <-]|].
  intros (y1 & Hstep & Hrest)%bind_Some. destruct (control_step_ok _ _ _ Hok Hstep) as [Hok1 (_ & Hc1 & _)].
  rewrite <- (closed_step _ _ _ Hok Hc Hstep). apply IH; auto.
Qed.
(** Nothing is admitted and nothing is owed any more. *)
Definition ends_run (a : RunAction (Store := Store) (ActorError := ActorError)) : bool :=
  match a with CloseInbox _ => true | Persist terminal _ _ => terminal | _ => false end.
Lemma ends_run_owes y a y' : run_ok y -> ends_run a = true -> control_step y a = Some y' ->
  ib_closed (ry_state y') = true /\ owed (ry_state y') = ∅ /\ ry_admitted y' = ry_admitted y.
Proof.
  intros Hok. unfold RunControlSystem.control_step. destruct a; try discriminate; cbn [ends_run]; destruct (ry_gate y); try discriminate.
  - intros ->. unfold run_persists.
    pose proof (persist_ok encode_request sha256_hex debug_option schema_error append true now_ms (ry_store y) (ry_state y)
                  (ro_inbox _ Hok) (ro_bounded _ Hok)) as Hp.
    destruct (persist_pending _ _ _ _ _ _ _ _ _) as [p observation]. destruct (attempts _ _ _ _) as [[? ?] ?].
    destruct Hp as (_ & _ & _ & _ & _ & Hno & _ & Hc & _). rewrite orb_true_r in Hc. by destruct (ry_held y); intros [= <-].
  - intros _ [= <-]. by destruct (close_ok _ _ now_ms _ (ro_inbox _ Hok)) as (_ & H2 & _).
Qed.
Lemma seqZ_length_inj n m : 0 <= n -> 0 <= m -> seqZ 1 n = seqZ 1 m -> n = m.
Proof. intros Hn Hm H. apply (f_equal length) in H. rewrite !length_seqZ in H. lia. Qed.
Lemma ended_owes_nothing y y' : run_ok y -> run_ok y' -> evolves (ry_state y) (ry_state y') -> owed (ry_state y) = ∅ ->
  ry_admitted y' = ry_admitted y -> ib_last_sequence (ry_state y') < u64_max -> owed (ry_state y') = ∅.
Proof.
  intros Hok Hok' (Hle & _ & Hev) Hno Hadm Hmax.
  assert (Hlast : ib_last_sequence (ry_state y') = ib_last_sequence (ry_state y)).
  { pose proof (ro_sequences _ Hok' Hmax) as H'. pose proof (ro_sequences _ Hok ltac:(lia)) as H.
    rewrite Hadm, H in H'. pose proof (ok_last _ _ _ (ro_inbox _ Hok)). pose proof (ok_last _ _ _ (ro_inbox _ Hok')).
    symmetry. apply seqZ_length_inj; [lia..|done]. }
  apply map_empty. intros id. destruct (owed (ry_state y') !! id) as [item|] eqn:E; [|done].
  apply owed_Some in E as (e' & He' & Ha & _). destruct (Hev Hmax _ _ He') as [(e & He & _ & _ & _ & Hfin)|Hlt].
  - destruct (decide (rc_state (se_receipt e) = Accepted)) as [Hacc|Hacc]; [|by rewrite (Hfin Hacc) in Ha].
    assert (Ho : owed (ry_state y) !! id = Some (mkPending (se_request e) (se_receipt e))) by (apply owed_Some; by exists e).
    by rewrite Hno, lookup_empty in Ho.
  - destruct (ok_entry _ _ _ (ro_inbox _ Hok') _ _ He'). lia.
Qed.

(** ** The order of the controls *)
Lemma control_leb_total l r : control_leb l r = true \/ control_leb r l = true.
Proof.
  unfold control_leb. rewrite (Z.compare_antisym (rc_sequence (pn_receipt l)) (rc_sequence (pn_receipt r))).
  destruct (_ ?= _); cbn; auto using str_leb_total.
Qed.
Lemma control_leb_le l r : control_leb l r = true -> seq_of l <= seq_of r.
Proof. unfold control_leb, seq_of. destruct (Z.compare_spec (rc_sequence (pn_receipt l)) (rc_sequence (pn_receipt r))); [lia..|discriminate]. Qed.
Lemma control_leb_trans a b c : control_leb a b = true -> control_leb b c = true -> control_leb a c = true.
Proof.
  unfold control_leb. intros H1 H2.
  destruct (Z.compare_spec (rc_sequence (pn_receipt a)) (rc_sequence (pn_receipt b))) as [E1|E1|E1]; [| |discriminate];
  destruct (Z.compare_spec (rc_sequence (pn_receipt b)) (rc_sequence (pn_receipt c))) as [E2|E2|E2]; try discriminate;
  destruct (Z.compare_spec (rc_sequence (pn_receipt a)) (rc_sequence (pn_receipt c))) as [E3|E3|E3]; try lia; try done.
  by eapply str_leb_trans.
Qed.
Lemma strictly_sorted l : StronglySorted (fun a b => control_leb a b = true) l -> NoDup (map seq_of l) ->
  StronglySorted (fun a b => seq_of a < seq_of b) l.
Proof.
  induction 1 as [|x l Hl IH Hx]; cbn; [constructor|]. rewrite list.NoDup_cons. intros [Hn Hnd]. constructor; [auto|].
  rewrite List.Forall_forall in *. intros z Hz. pose proof (control_leb_le _ _ (Hx z Hz)).
  assert (seq_of x <> seq_of z) by (intros Heq; apply Hn; rewrite Heq; apply list_elem_of_In; by apply in_map). lia.
Qed.
Lemma accepted_controls_sorted y : run_ok y -> ib_last_sequence (ry_state y) < u64_max ->
  StronglySorted (fun a b => seq_of a < seq_of b) (accepted_controls (ry_state y)).
Proof.
  intros Hok Hmax. apply strictly_sorted.
  - apply sort_by_ordered; [apply control_leb_total|apply control_leb_trans].
  - rewrite (Permutation_map seq_of (accepted_controls_perm _ (ok_copies _ _ _ (ro_inbox _ Hok)))).
    pose proof (NoDup_seqZ 1 (ib_last_sequence (ry_state y))) as Hnd. rewrite <- (ledger_sequences y Hok Hmax) in Hnd.
    apply list.NoDup_app in Hnd as [Hnd _]. exact Hnd.
Qed.
Lemma pending_size s : inbox_ok s -> (length (ib_queue s) + size (ib_in_flight s) = size (owed s))%nat.
Proof.
  intros Hok. rewrite <- !length_map_to_list. rewrite <- (length_map pid), <- (length_fmap fst), <- (length_fmap fst (map_to_list (owed s))), <- length_app.
  apply Permutation_length, NoDup_Permutation; [| apply NoDup_fst_map_to_list|].
  - apply list.NoDup_app. split_and!; [apply Hok| |apply NoDup_fst_map_to_list].
    intros id Hq ([id' item] & -> & Hf%elem_of_map_to_list)%list_elem_of_fmap. apply (ok_in_flight _ _ _ Hok) in Hf as [_ Hf].
    apply Hf. by apply list_elem_of_In.
  - intros id. rewrite elem_of_app, !list_elem_of_fmap. split.
    + intros [Hin|([id' item] & -> & Hin%elem_of_map_to_list)].
      * destruct Hin as (item & -> & Hin%list_elem_of_In). exists (pid item, item). split; [done|].
        by apply elem_of_map_to_list, Hok.
      * exists (id', item). split; [done|]. apply elem_of_map_to_list. by apply (ok_in_flight _ _ _ Hok) in Hin as [? _].
    + intros ([id' item] & -> & Hin%elem_of_map_to_list). cbn. destruct (ok_covered _ _ _ Hok _ _ Hin) as [Hq|Hf].
      * left. exists item. split; [by rewrite (owed_pid _ _ _ _ _ Hok Hin)|]. by apply list_elem_of_In.
      * right. exists (id', item). split; [done|]. by apply elem_of_map_to_list.
Qed.
Lemma seen_order_length s : inbox_ok s -> length (ib_seen_order s) = size (ib_seen s).
Proof.
  intros Hok. rewrite <- length_map_to_list, <- (length_fmap fst).
  apply Permutation_length, NoDup_Permutation; [apply Hok|apply NoDup_fst_map_to_list|].
  intros id. rewrite list_elem_of_In, (ok_order _ _ _ Hok), list_elem_of_fmap. split.
  - intros [e He]. exists (id, e). split; [done|]. by apply elem_of_map_to_list.
  - intros ([id' e] & -> & He%elem_of_map_to_list). by exists e.
Qed.
(** The admissions have distinct sequence numbers. *)
Lemma unique_last y before item after : run_ok y -> ib_last_sequence (ry_state y) < u64_max ->
  ry_admitted y = before ++ item :: after -> list.last (ry_admitted y) = Some item -> after = [].
Proof.
  intros Hok Hmax Hadm Hlast. destruct after as [|w after _] using rev_ind; [done|].
  rewrite Hadm, app_comm_cons, app_assoc, list.last_snoc in Hlast. injection Hlast as ->.
  pose proof (NoDup_seqZ 1 (ib_last_sequence (ry_state y))) as Hnd. rewrite <- (ro_sequences _ Hok Hmax), Hadm, map_app in Hnd.
  apply list.NoDup_app in Hnd as (_ & _ & Hnd). cbn in Hnd. apply list.NoDup_cons in Hnd as [Hnd _]. destruct Hnd.
  rewrite map_app, elem_of_app. right. by left.
Qed.

(** ** What the inbox promises *)
Local Abbreviation run_reached := (run_reached encode_request sha256_hex debug_option schema_error).

(** C24. Every control that was ever admitted is either still owed an outcome or was decided
    exactly once, whatever the interleaving of submissions, safe points, settlements,
    sealing and ends of the run: the owed controls and the decisions together are the
    admissions, and the admissions are numbered 1, 2, 3, ... without a gap. *)
Theorem controls_are_accounted session_id run_id (store : Store) (y : RunSystem) : run_reached session_id run_id store y ->
  ib_last_sequence (ry_state y) < u64_max ->
  map identity_of (accepted_controls (ry_state y)) ++ map identity_of (decided y) ≡ₚ map identity_of (ry_admitted y) /\
  map seq_of (ry_admitted y) = seqZ 1 (ib_last_sequence (ry_state y)).
Proof.
  intros Hok%run_reached_ok Hmax. split; [|by apply ro_sequences].
  rewrite (Permutation_map identity_of (accepted_controls_perm _ (ok_copies _ _ _ (ro_inbox _ Hok)))). by apply ro_ledger.
Qed.

(** C25. A retained receipt stays the receipt of its request: as long as it is retained,
    whatever happens in between, a decided receipt does not change at all, and submitting
    the same request again is answered with the retained receipt without asking the policy
    hook and without any effect on the run. *)
Theorem receipts_are_final session_id run_id (store : Store) (y : RunSystem) actions (y' : RunSystem) id e e' now_ms :
  run_reached session_id run_id store y -> control_steps y actions = Some y' -> ib_last_sequence (ry_state y') < u64_max ->
  ib_seen (ry_state y) !! id = Some e -> ib_seen (ry_state y') !! id = Some e' ->
  rc_sequence (se_receipt e') = rc_sequence (se_receipt e) ->
  se_request e' = se_request e /\ (rc_state (se_receipt e) <> Accepted -> e' = e) /\
  submit_entry encode_request sha256_hex (se_request e) (ry_state y') = inr (Some (se_receipt e')) /\
  submit_begins encode_request sha256_hex (se_request e) now_ms y' = y'.
Proof.
  intros Hok%run_reached_ok Hsteps Hmax He He' Hseq. destruct (control_steps_ok _ _ _ Hok Hsteps) as [Hok' (Hle & _ & Hev)].
  destruct (ok_entry _ _ _ (ro_inbox _ Hok) _ _ He) as [_ _ Hs _ _ _]. destruct (Hev Hmax _ _ He') as [(e0 & He0 & Ha)|]; [|lia].
  assert (e0 = e) as -> by congruence. destruct Ha as (Hr & Hf & _ & Hfin).
  destruct (ok_entry _ _ _ (ro_inbox _ Hok') _ _ He') as [Hid _ _ _ Hv Hfp].
  assert (Hentry : submit_entry encode_request sha256_hex (se_request e) (ry_state y') = inr (Some (se_receipt e'))).
  { unfold submit_entry, known_receipt. rewrite <- Hr, Hv, Hfp, Hid, He'. by rewrite str_eqb_refl. }
  split_and!; [done..|]. unfold submit_begins. by rewrite Hentry.
Qed.

(** C26. Persisting pending controls acknowledges exactly what was kept. The controls are
    decided in the order of their admission; the steering inputs before the first one the
    store refused were appended, in that order and each once, and they and the interrupts
    are the ones whose receipts say [Applied]; every later input is [Settled] with the
    failure of persistence, nothing is appended after the failure, and nothing is left
    pending. *)
Theorem persist_is_exact session_id run_id (store : Store) (y : RunSystem) terminal now_ms append :
  run_reached session_id run_id store y -> ib_last_sequence (ry_state y) < u64_max ->
  let controls := accepted_controls (ry_state y) in
  let '(p, observation) :=
    persist_pending encode_request sha256_hex debug_option schema_error append terminal now_ms (ry_store y) (ry_state y) in
  StronglySorted (fun a b => seq_of a < seq_of b) controls /\ has_accepted observation = false /\
  exists kept rest store1, steers controls = kept ++ rest /\ append_all append (ry_store y) kept = Some store1 /\
    ps_decisions p = map (fun item => decision now_ms (ry_state y) (interrupt_or_in kept item) item) controls /\
    match ps_failure p with
    | None => rest = [] /\ ps_store p = store1
    | Some e => exists item rest', rest = item :: rest' /\ append store1 item = (ps_store p, Some e)
    end.
Proof.
  intros Hok%run_reached_ok Hmax controls.
  pose proof (persist_ok encode_request sha256_hex debug_option schema_error append terminal now_ms (ry_store y) (ry_state y)
                (ro_inbox _ Hok) (ro_bounded _ Hok)) as Hp.
  destruct (persist_pending _ _ _ _ _ _ _ _ _) as [p observation].
  pose proof (attempts_exact append controls (ry_store y)
                (NoDup_fmap_1 pid _ (accepted_controls_nodup _ _ _ (ro_inbox _ Hok)))) as Hex.
  fold controls in Hp. destruct (attempts _ _ _ _) as [[store' failure] kept].
  destruct Hp as (-> & -> & Hdec & _ & _ & _ & _ & _ & _ & Hobs). destruct Hex as (held & rest & store1 & H1 & H2 & -> & H4).
  split_and!; [by apply accepted_controls_sorted|done|]. exists held, rest, store1. split_and!; try done.
  by rewrite Hdec, zip_with_map.
Qed.

(** An inbox stays within its limits in every interleaving: at most 64 controls wait or
    are in flight, and at most 256 receipts are retained, each listed once in the order of
    forgetting. *)
Theorem inbox_is_bounded session_id run_id (store : Store) (y : RunSystem) : run_reached session_id run_id store y ->
  Z.of_nat (length (ib_queue (ry_state y)) + size (ib_in_flight (ry_state y))) <= RUN_CONTROL_MAX_QUEUE /\
  Z.of_nat (length (ib_seen_order (ry_state y))) <= RUN_CONTROL_MAX_SEEN_REQUESTS /\
  length (ib_seen_order (ry_state y)) = size (ib_seen (ry_state y)).
Proof.
  intros Hok%run_reached_ok. pose proof (ro_bounded _ Hok) as [H1 H2]. rewrite (pending_size _ (ro_inbox _ Hok)).
  assert (Hlen : length (ib_seen_order (ry_state y)) = size (ib_seen (ry_state y))) by by apply seen_order_length, Hok.
  rewrite Hlen. done.
Qed.

(** C27. The end of a run is final. Once the inbox was closed, or the terminal settlement
    was persisted, no later action admits a control, no control is pending any more, and
    the decisions are exactly the admissions. *)
Theorem end_of_run_is_final session_id run_id (store : Store) (y : RunSystem) a (y1 : RunSystem) actions (y' : RunSystem) :
  run_reached session_id run_id store y -> ends_run a = true -> control_step y a = Some y1 -> control_steps y1 actions = Some y' -> ib_last_sequence (ry_state y') < u64_max ->
  has_accepted (pending_observation (ry_state y')) = false /\ ry_admitted y' = ry_admitted y /\
  map identity_of (decided y') ≡ₚ map identity_of (ry_admitted y).
Proof.
  intros Hok%run_reached_ok Hend Hstep Hsteps Hmax. destruct (control_step_ok _ _ _ Hok Hstep) as [Hok1 _].
  destruct (ends_run_owes _ _ _ Hok Hend Hstep) as (Hc & Hno & Hadm). destruct (control_steps_ok _ _ _ Hok1 Hsteps) as [Hok' Hev].
  pose proof (closed_steps _ _ _ Hok1 Hc Hsteps) as Hadm'. rewrite Hadm in Hadm'.
  assert (Hno' : owed (ry_state y') = ∅) by (apply (ended_owes_nothing y1 y'); congruence || done).
  split_and!; [by apply (nothing_owed encode_request sha256_hex), Hno'; apply Hok'|done|].
  rewrite <- Hadm', <- (ro_ledger _ Hok'). unfold owed_items. by rewrite Hno', map_to_list_empty.
Qed.

(** Observers see a control accepted before they see its outcome, and an accepted
    interrupt is the last control a run admits: when it is admitted the inbox is closed
    and the token of the run is fired. *)
Theorem observers_see_order session_id run_id (store : Store) (y : RunSystem) : run_reached session_id run_id store y ->
  ib_last_sequence (ry_state y) < u64_max ->
  log_ordered (ry_log y) /\
  forall before item after, ry_admitted y = before ++ item :: after -> is_interrupt (rq_command (pn_request item)) = true ->
    after = [] /\ ib_closed (ry_state y) = true /\ ry_cancelled y = true.
Proof.
  intros Hok%run_reached_ok Hmax. split; [by apply ro_ordered|]. intros before item after Hadm Hint.
  destruct (ro_interrupt _ Hok item) as (H1 & H2 & Hlast); [rewrite Hadm; apply in_app_iff; right; by left|done|].
  split_and!; [|done..]. by apply (unique_last y before item after).
Qed.
End SystemFacts.
