(* ===== verification/RunControlScenario.v ===== *)
(** A run with two steering inputs and an interrupt: the theorems on the inbox are
    exercised on it, with a digest that keeps the whole request and a store that is a list
    of inputs and refuses one of them. *)
From stdpp Require Import gmap.
From S2P Require Import Prelude Text Hooks RunControl RunControlFacts RunControlSystem RunControlSystemFacts.

Module Steering.
Definition encode (r : RunControlRequest) : str + list Z :=
  inr (rq_request_id r ++ [0] ++ default [] (command_input (rq_command r))).
Definition hex (bytes : list Z) : str := bytes.
Definition debug (o : option str) : str := default $"None" o.
(** Inputs in the order they were kept; one of them is never kept. *)
Definition Inputs : Type := list str.
Definition keep (store : Inputs) (item : PendingRunControl) : Inputs * option str :=
  if str_eqb (pid item) $"refused" then (store, Some $"disk full")
  else (store ++ [default [] (command_input (rq_command (pn_request item)))], None).
Abbreviation Run := (RunSystem (Store := Inputs)).
Abbreviation Act := (RunAction (Store := Inputs) (ActorError := str)).
Definition steps (y : Run) (actions : list Act) : option Run := control_steps encode hex debug id y actions.
Definition start : Run := new_run $"session" $"run" [].
Definition steer (request_id input : str) : RunControlRequest := new_control request_id $"run" (Steer input).
Definition stop : RunControlRequest := new_control $"stop" $"run" (Interrupt None false).
Definition submit (r : RunControlRequest) (now_ms : Z) : list Act := [Submit r now_ms; HookAnswers (Some HookSkip); RecordAccepted].
(** One input is applied by the loop, three are pending, then an interrupt. *)
Definition first : list Act := submit (steer $"one" $"go left") 1 ++ [UpdateTurn $"turn-1"; Drain; MarkApplied (Some $"turn-1") 1 2].
Definition more : list Act :=
  submit (steer $"two" $"go right") 3 ++ submit (steer $"refused" $"go up") 4 ++ submit (steer $"late" $"go down") 5 ++ submit stop 6.
Definition settle : list Act := [Persist true 7 keep; Observe 1; Observe 0].
Definition reached (o : option Run) : Run := default start o.
Definition succeeded (o : option Run) : bool := match o with Some _ => true | None => false end.
Definition applied : option Run := steps start first.
Definition waiting : option Run := steps (reached applied) more.
Definition settled : option Run := steps (reached waiting) settle.
End Steering.
Import Steering.
Abbreviation reached_run := (run_reached encode hex debug id $"session" $"run" ([] : Inputs)).

Lemma steps_app y l l' : steps y (l ++ l') = steps y l ≫= fun y => steps y l'.
Proof. unfold steps. revert y. induction l as [|a l IH]; intros y; cbn; [done|]. destruct (control_step _ _ _ _ y a); cbn; [apply IH|done]. Qed.
Lemma steps_reached y actions : reached_run y -> succeeded (steps y actions) = true ->
  steps y actions = Some (reached (steps y actions)) /\ reached_run (reached (steps y actions)).
Proof.
  intros [before Hb] Hs. destruct (steps y actions) as [y'|] eqn:E; [|done]. split; [done|]. exists (before ++ actions).
  fold steps in *. rewrite steps_app. unfold steps in *. by rewrite Hb.
Qed.
Lemma start_is_reached : reached_run start.
Proof. by exists []. Qed.
Lemma applied_reached : reached_run (reached applied).
Proof. apply (steps_reached start first start_is_reached). vm_compute. reflexivity. Qed.
Lemma waiting_reached : reached_run (reached waiting).
Proof. apply (steps_reached (reached applied) more applied_reached). vm_compute. reflexivity. Qed.
Lemma settled_reached : reached_run (reached settled).
Proof. apply (steps_reached (reached waiting) settle waiting_reached). vm_compute. reflexivity. Qed.

(** One control is decided and four are owed. *)
Lemma controls_are_accounted_witness :
  length (accepted_controls (ry_state (reached waiting))) = 4%nat /\ length (decided (reached waiting)) = 1%nat /\
  map identity_of (accepted_controls (ry_state (reached waiting))) ++ map identity_of (decided (reached waiting))
    ≡ₚ map identity_of (ry_admitted (reached waiting)).
Proof.
  split_and!; [vm_compute; reflexivity..|].
  apply (controls_are_accounted encode hex debug id $"session" $"run" [] (reached waiting) waiting_reached). vm_compute. reflexivity.
Defined.
(** The first input is resubmitted at the end of the run. *)
Lemma receipts_are_final_witness : exists e, ib_seen (ry_state (reached applied)) !! $"one" = Some e /\
  rc_state (se_receipt e) = Applied /\
  submit_entry encode hex (se_request e) (ry_state (reached waiting)) = inr (Some (se_receipt e)) /\
  submit_begins encode hex (se_request e) 9 (reached waiting) = reached waiting.
Proof.
  destruct (ib_seen (ry_state (reached applied)) !! $"one") as [e|] eqn:E; [|exfalso; vm_compute in E; discriminate E].
  destruct (ib_seen (ry_state (reached waiting)) !! $"one") as [e'|] eqn:E'; [|exfalso; vm_compute in E'; discriminate E'].
  assert (Hs : steps (reached applied) more = Some (reached waiting))
    by (apply (steps_reached (reached applied) more applied_reached); vm_compute; reflexivity).
  assert (Ha : rc_state (se_receipt e) = Applied /\ rc_sequence (se_receipt e) = 1).
  { vm_compute in E. injection E as <-. by split. }
  assert (Hseq : rc_sequence (se_receipt e') = 1) by (vm_compute in E'; by injection E' as <-).
  destruct Ha as [Ha1 Ha2]. exists e.
  destruct (receipts_are_final encode hex debug id $"session" $"run" [] (reached applied) more (reached waiting) $"one" e e' 9
              applied_reached Hs ltac:(vm_compute; reflexivity) E E' ltac:(congruence)) as (_ & Hfin & H3 & H4).
  rewrite (Hfin ltac:(congruence)) in H3. by split_and!.
Defined.
(** The second of three inputs is refused by the store. *)
Lemma persist_is_exact_witness :
  let '(p, observation) := persist_pending encode hex debug id keep true 7 (ry_store (reached waiting)) (ry_state (reached waiting)) in
  has_accepted observation = false /\ ps_failure p = Some $"disk full" /\ ps_store p = [$"go right"] /\
  map (fun item => (pid item, rc_state (pn_receipt item))) (ps_decisions p) =
    [($"two", Applied); ($"refused", Settled); ($"late", Settled); ($"stop", Applied)].
Proof.
  pose proof (persist_is_exact encode hex debug id $"session" $"run" [] (reached waiting) true 7 keep waiting_reached
                ltac:(vm_compute; reflexivity)) as H.
  assert (Hv : let '(p, _) := persist_pending encode hex debug id keep true 7 (ry_store (reached waiting)) (ry_state (reached waiting)) in
    ps_failure p = Some $"disk full" /\ ps_store p = [$"go right"] /\
    map (fun item => (pid item, rc_state (pn_receipt item))) (ps_decisions p) =
      [($"two", Applied); ($"refused", Settled); ($"late", Settled); ($"stop", Applied)]) by (vm_compute; by split_and!).
  destruct (persist_pending _ _ _ _ _ _ _ _ _) as [p observation]. by destruct H as (_ & Hobs & _).
Defined.
Lemma inbox_is_bounded_witness : length (ib_seen_order (ry_state (reached waiting))) = 5%nat /\ size (ib_seen (ry_state (reached waiting))) = 5%nat.
Proof.
  destruct (inbox_is_bounded encode hex debug id $"session" $"run" [] (reached waiting) waiting_reached) as (_ & _ & Heq).
  split; [by vm_compute|]. etransitivity; [symmetry; exact Heq|by vm_compute].
Defined.
(** The run is settled while its inbox is full of requests, then someone tries again. *)
Lemma end_of_run_is_final_witness :
  exists y1 y', control_step encode hex debug id (reached waiting) (Persist true 7 keep) = Some y1 /\
    steps y1 ([CloseInbox 8] ++ submit (steer $"five" $"go back") 9) = None /\
    steps y1 [CloseInbox 8; Submit (steer $"five" $"go back") 9; HookAnswers None] = Some y' /\
    has_accepted (pending_observation (ry_state y')) = false /\
    map identity_of (decided y') ≡ₚ map identity_of (ry_admitted (reached waiting)).
Proof.
  destruct (control_step encode hex debug id (reached waiting) (Persist true 7 keep)) as [y1|] eqn:E1; [|exfalso; vm_compute in E1; discriminate E1].
  assert (Hy1 : y1 = reached (control_step encode hex debug id (reached waiting) (Persist true 7 keep))) by by rewrite E1.
  destruct (steps y1 [CloseInbox 8; Submit (steer $"five" $"go back") 9; HookAnswers None]) as [y'|] eqn:E2;
    [|exfalso; rewrite Hy1 in E2; vm_compute in E2; discriminate E2].
  assert (Hy' : y' = reached (steps y1 [CloseInbox 8; Submit (steer $"five" $"go back") 9; HookAnswers None])) by by rewrite E2.
  destruct (end_of_run_is_final encode hex debug id $"session" $"run" [] (reached waiting) (Persist true 7 keep) y1 _ y'
              waiting_reached eq_refl E1 E2) as (H1 & _ & H3); [rewrite Hy', Hy1; vm_compute; reflexivity|].
  exists y1, y'. split_and!; [reflexivity|rewrite Hy1; vm_compute; reflexivity|exact E2|exact H1|exact H3].
Defined.
(** The acceptance of the first input was observed before its outcome. *)
Lemma observers_see_order_witness :
  map (fun item => rc_state (pn_receipt item)) (ry_log (reached settled)) =
    [Accepted; Accepted; Accepted; Accepted; Accepted; Applied; Applied] /\ log_ordered (ry_log (reached settled)) /\
  ib_closed (ry_state (reached settled)) = true.
Proof.
  split; [vm_compute; reflexivity|].
  destruct (observers_see_order encode hex debug id $"session" $"run" [] (reached settled) settled_reached) as [H1 H2]; [vm_compute; reflexivity|].
  split; [exact H1|]. destruct (list.last (ry_admitted (reached settled))) as [item|] eqn:E; [|exfalso; vm_compute in E; discriminate E].
  apply list.last_Some in E as [before E]. apply (H2 before item [] E). apply (f_equal list.last) in E. rewrite list.last_snoc in E.
  vm_compute in E. by injection E as <-.
Defined.

(** The worker has drained an input; the terminal settlement keeps it and reports it
    applied before the worker marks it. The worker does not win, yet the receipt it gets
    says [Applied], and it reports the control a second time. *)
Definition drained : Run := reached (steps start (submit (steer $"one" $"go left") 1 ++ [Drain])).
Lemma settlement_is_reported_twice :
  exists item, ry_held drained = [item] /\
    let '(p, _) := persist_pending encode hex debug id keep true 2 (ry_store drained) (ry_state drained) in
    map ae_request_id (applied_events true (ps_decisions p)) = [pid item] /\
    let '(_, receipt, won) := mark_applied item None 0 3 (ps_state p) in
    won = false /\ ae_request_id <$> safe_point_event item receipt = Some (pid item).
Proof. eexists. split; [vm_compute; reflexivity|]. vm_compute. by split_and!. Qed.
