(* ===== verification/LineEdit.v ===== *)
(** Replacing text in a file whatever its line endings ([text.rs]): the classification
    of line endings, the search for occurrences by byte offsets, and the edit that treats
    LF and CRLF as the same break.

    The code looks for CR and LF among the bytes of a string; these bytes occur in UTF-8
    only as those characters, so the scans here read characters. Byte offsets are kept as
    the code has them, and a slice at an offset that Rust would refuse is [None]. *)
From stdpp Require Import gmap.
From S2P Require Import Prelude Text.

(** ** Truncation *)
Definition is_char_boundary (s : str) (n : Z) : bool := bool_decide (is_Some (split_at_byte s n)).
(** A character has at most four bytes, so the loop takes at most three steps. *)
Fixpoint boundary_below (fuel : nat) (s : str) (e : Z) : Z :=
  match fuel with
  | O => e
  | S fuel => if (0 <? e) && negb (is_char_boundary s e) then boundary_below fuel s (e - 1) else e
  end.
Definition truncate_utf8 (s : str) (max_bytes : Z) : option str :=
  if len s <=? max_bytes then Some s
  else fst <$> split_at_byte s (boundary_below 4 s max_bytes).

(** ** Line endings *)
Inductive NewlineStyle : Type := Lf | Crlf.
Inductive NewlineClass : Type := NoNewline | Uniform (style : NewlineStyle) | Unsafe.
#[export] Instance NewlineStyle_eq_dec : EqDecision NewlineStyle.
Proof. solve_decision. Defined.
#[export] Instance NewlineClass_eq_dec : EqDecision NewlineClass.
Proof. solve_decision. Defined.

Fixpoint scan_newlines (s : str) (saw_lf saw_crlf : bool) : NewlineClass :=
  match s with
  | [] =>
      match saw_lf, saw_crlf with
      | false, false => NoNewline
      | true, false => Uniform Lf
      | false, true => Uniform Crlf
      | true, true => Unsafe
      end
  | c :: s =>
      if c =? c_cr then
        match s with
        | d :: s => if d =? c_nl then scan_newlines s saw_lf true else Unsafe
        | [] => Unsafe
        end
      else scan_newlines s (saw_lf || (c =? c_nl)) saw_crlf
  end.
Definition classify_newlines (s : str) : NewlineClass := scan_newlines s false false.
Definition crlf : str := [c_cr; c_nl].
Definition transcode_newlines (s : str) (style : NewlineStyle) : str :=
  match style, classify_newlines s with
  | Crlf, (Uniform Lf | NoNewline) => replace_str [c_nl] crlf s
  | Lf, Uniform Crlf => replace_str crlf [c_nl] s
  | _, _ => s
  end.
Definition preserve_newline_style (existing incoming : str) : str :=
  match classify_newlines existing, classify_newlines incoming with
  | Uniform target, Uniform source => if bool_decide (target = source) then incoming else transcode_newlines incoming target
  | _, _ => incoming
  end.
Definition to_lf (s : str) : str :=
  if bool_decide (classify_newlines s = Uniform Crlf) then replace_str crlf [c_nl] s else s.
Definition cr_stripped_contains (haystack needle : str) : bool :=
  let needle := replace_str [c_cr] [] needle in
  negb (str_eqb needle []) && contains_str (replace_str [c_cr] [] haystack) needle.

(** ** Occurrences *)
(** [rest] is [haystack[start..]]. Every round consumes a non-empty needle. *)
Fixpoint spans_from (fuel : nat) (needle : str) (start : Z) (rest : str) : list (Z * Z) :=
  match fuel with
  | O => []
  | S fuel =>
      match find_str needle rest with
      | Some (before, after) =>
          let found := start + len before in
          (found, found + len needle) :: spans_from fuel needle (found + len needle) after
      | None => []
      end
  end.
Definition exact_spans (haystack needle : str) : list (Z * Z) :=
  if str_eqb needle [] then [] else spans_from (S (length haystack)) needle 0 haystack.
Definition byte_at (s : str) (i : Z) : option Z := if i <? 0 then None else utf8 s !! Z.to_nat i.
Definition span_splits_crlf (haystack : str) (span : Z * Z) : bool :=
  let '(s, e) := span in
  ((0 <? s) && bool_decide (byte_at haystack s = Some c_nl) && bool_decide (byte_at haystack (s - 1) = Some c_cr))
  || ((s <? e) && (e <? len haystack) && bool_decide (byte_at haystack (e - 1) = Some c_cr)
      && bool_decide (byte_at haystack e = Some c_nl)).

(** The offsets in the CRLF text of offsets in its LF form: one pass over the bytes. *)
Fixpoint dedup_offsets (l : list Z) : list Z :=
  match l with
  | x :: (y :: _) as l => if x =? y then dedup_offsets l else x :: dedup_offsets l
  | l => l
  end.
(** [while next < needed.len() && needed[next] == index]; [needed] is what is left. *)
Fixpoint take_offsets (needed : list Z) (index extra : Z) (mapped : gmap Z Z) : list Z * gmap Z Z :=
  match needed with
  | x :: needed' => if x =? index then take_offsets needed' index extra (<[x := index + extra]> mapped) else (needed, mapped)
  | [] => ([], mapped)
  end.
Fixpoint walk_offsets (bytes : list Z) (index extra : Z) (needed : list Z) (mapped : gmap Z Z) : gmap Z Z :=
  let '(needed, mapped) := take_offsets needed index extra mapped in
  match bytes with
  | [] => mapped
  | b :: bytes => walk_offsets bytes (index + 1) (if b =? c_nl then extra + 1 else extra) needed mapped
  end.
Definition map_lf_spans_to_crlf (lf : str) (spans : list (Z * Z)) : option (list (Z * Z)) :=
  let needed := dedup_offsets (sort_by Z.leb (concat (map (fun '(s, e) => [s; e]) spans))) in
  let mapped := walk_offsets (utf8 lf) 0 0 needed ∅ in
  mapM (fun '(s, e) => s ← mapped !! s; e ← mapped !! e; Some (s, e)) spans.

(** ** The edit *)
Definition slice (s : str) (from to : Z) : option str :=
  '(_, rest) ← split_at_byte s from; '(part, _) ← split_at_byte rest (to - from); Some part.
Fixpoint splice_from (haystack : str) (cursor : Z) (spans : list (Z * Z)) (replacement : str) : option str :=
  match spans with
  | [] => snd <$> split_at_byte haystack cursor
  | (s, e) :: spans =>
      kept ← slice haystack cursor s; rest ← splice_from haystack e spans replacement; Some (kept ++ replacement ++ rest)
  end.
Definition splice (haystack : str) (spans : list (Z * Z)) (replacement : str) : option str :=
  splice_from haystack 0 spans replacement.

Inductive LineEndingEditError : Type := NotFound | Ambiguous (count : Z) | UnsafeEdit.
Record LineEndingEdit : Type := mkEdit { le_content : str; le_count : Z }.
#[export] Instance LineEndingEditError_eq_dec : EqDecision LineEndingEditError.
Proof. solve_decision. Defined.
#[export] Instance LineEndingEdit_eq_dec : EqDecision LineEndingEdit.
Proof. solve_decision. Defined.
Definition count_of {A} (l : list A) : Z := Z.of_nat (length l).
(** The match of the text with line endings set aside. *)
Definition logical_match (content old_string new_string : str) (replace_all : bool)
    : option (LineEndingEditError + LineEndingEdit) :=
  if bool_decide (classify_newlines content = Unsafe) || bool_decide (classify_newlines old_string = Unsafe) then
    Some (inl (if cr_stripped_contains content old_string then UnsafeEdit else NotFound))
  else
    let lf_content := to_lf content in
    let lf_old := to_lf old_string in
    let logical := exact_spans lf_content lf_old in
    let count := count_of logical in
    if str_eqb lf_old [] || bool_decide (logical = []) then Some (inl NotFound)
    else if (1 <? count) && negb replace_all then Some (inl (Ambiguous count))
    else if bool_decide (classify_newlines new_string = Unsafe) then Some (inl UnsafeEdit)
    else
      let style := match classify_newlines content with Uniform style => style | _ => Lf end in
      let replacement := transcode_newlines new_string style in
      match (if bool_decide (classify_newlines content = Uniform Crlf) then map_lf_spans_to_crlf lf_content logical
             else Some logical) with
      | None => Some (inl UnsafeEdit)
      | Some spans =>
          chosen ← (if replace_all then Some spans else match spans with x :: _ => Some [x] | [] => None end);
          edited ← splice content chosen replacement;
          Some (inr (mkEdit edited (if replace_all then count else 1)))
      end.
Definition apply_line_ending_edit (content old_string new_string : str) (replace_all : bool)
    : option (LineEndingEditError + LineEndingEdit) :=
  if str_eqb old_string [] then Some (inl NotFound)
  else
    let exact := exact_spans content old_string in
    let splitting := List.filter (span_splits_crlf content) exact in
    if negb (bool_decide (exact = [])) && (count_of splitting =? 0) then
      if (1 <? count_of exact) && negb replace_all then Some (inl (Ambiguous (count_of exact)))
      else Some (inr (mkEdit (if replace_all then replace_str old_string new_string content
                              else replace_first old_string new_string content)
                             (if replace_all then count_of exact else 1)))
    else if (0 <? count_of splitting) && negb (count_of splitting =? count_of exact) then Some (inl UnsafeEdit)
    else logical_match content old_string new_string replace_all.
