(* ===== verification/LineEditFacts.v ===== *)
(** An edit of a file with uniform line endings is the edit of its text: occurrences are
    found, counted and replaced as in the LF form, and the file keeps its line endings. *)
From Stdlib Require Import Sorted.
From stdpp Require Import gmap.
From S2P Require Import Prelude Text LineEdit.

(** ** Pieces between occurrences *)
Lemma find_str_Some needle s before after : find_str needle s = Some (before, after) -> s = before ++ needle ++ after.
Proof.
  revert before. induction s as [|c s IH]; intros before; cbn [find_str]; destruct (strip_prefix needle _) as [rest|] eqn:E.
  - intros [= <- <-]. by apply strip_prefix_Some in E.
  - done.
  - intros [= <- <-]. by apply strip_prefix_Some in E.
  - destruct (find_str needle s) as [[b a]|]; [|done]. intros [= <- <-]. by rewrite (IH b eq_refl).
Qed.
Lemma find_str_empty s : find_str [] s = Some ([], s).
Proof. by destruct s. Qed.
Fixpoint pieces_fuel (fuel : nat) (needle s : str) : list str :=
  match fuel with
  | O => [s]
  | S fuel => match find_str needle s with Some (before, after) => before :: pieces_fuel fuel needle after | None => [s] end
  end.
(** The text between the occurrences that a search from the left finds. *)
Definition pieces (needle s : str) : list str := pieces_fuel (S (length s)) needle s.
Arguments pieces : simpl never.
Lemma after_shorter needle s before after : needle <> [] -> find_str needle s = Some (before, after) -> (length after < length s)%nat.
Proof. intros Hne ->%find_str_Some. rewrite !length_app. destruct needle; [done|]. cbn. lia. Qed.
Lemma pieces_fuel_enough fuel fuel' needle s : needle <> [] -> (length s < fuel)%nat -> (length s < fuel')%nat ->
  pieces_fuel fuel needle s = pieces_fuel fuel' needle s.
Proof.
  intros Hne. revert fuel' s. induction fuel as [|fuel IH]; intros fuel' s Hf Hf'; [lia|]. destruct fuel' as [|fuel']; [lia|]. cbn.
  destruct (find_str needle s) as [[before after]|] eqn:E; [|done]. f_equal. apply after_shorter in E; [|done]. apply IH; lia.
Qed.
Lemma pieces_unfold needle s : needle <> [] ->
  pieces needle s = match find_str needle s with Some (before, after) => before :: pieces needle after | None => [s] end.
Proof.
  intros Hne. unfold pieces at 1. cbn [pieces_fuel]. destruct (find_str needle s) as [[before after]|] eqn:E; [|done]. f_equal.
  apply after_shorter in E; [|done]. apply pieces_fuel_enough; (done || lia).
Qed.
Lemma pieces_ne needle s : exists p ps, pieces needle s = p :: ps.
Proof. unfold pieces. cbn. destruct (find_str needle s) as [[? ?]|]; eauto. Qed.
(** Induction along the search. *)
Lemma pieces_ind needle (P : str -> list str -> Prop) : needle <> [] ->
  (forall s, find_str needle s = None -> P s [s]) ->
  (forall s before after, find_str needle s = Some (before, after) -> P after (pieces needle after) ->
     P s (before :: pieces needle after)) ->
  forall s, P s (pieces needle s).
Proof.
  intros Hne Hnone Hsome s. remember (length s) as n eqn:Hn. revert s Hn.
  induction (lt_wf n) as [n _ IH]. intros s ->. rewrite pieces_unfold by done.
  destruct (find_str needle s) as [[before after]|] eqn:E; [|auto]. apply Hsome; [done|].
  eapply IH; [|done]. by eapply after_shorter.
Qed.
Lemma join_cons sep p ps : ps <> [] -> join sep (p :: ps) = p ++ sep ++ join sep ps.
Proof. by destruct ps. Qed.
Lemma pieces_nonempty needle s : pieces needle s <> [].
Proof. destruct (pieces_ne needle s) as (p & ps & ->). done. Qed.
Lemma pieces_join needle s : needle <> [] -> join needle (pieces needle s) = s.
Proof.
  intros Hne. apply (pieces_ind needle (fun s ps => join needle ps = s)); [done|done|].
  intros s' before after E IH. rewrite join_cons by apply pieces_nonempty. rewrite IH. by apply find_str_Some in E.
Qed.
Lemma replace_pieces needle to s : needle <> [] -> replace_str needle to s = join to (pieces needle s).
Proof.
  intros Hne. unfold replace_str. assert (Hf : (length s <= length s)%nat) by lia. revert Hf. generalize (length s) at 2 3 as fuel.
  intros fuel. revert s. induction fuel as [|fuel IH]; intros s Hf; cbn; rewrite pieces_unfold by done.
  - destruct s; [|cbn in Hf; lia]. destruct (find_str needle []) as [[before after]|] eqn:E; [|done].
    apply after_shorter in E; [cbn in E; lia|done].
  - destruct (find_str needle s) as [[before after]|] eqn:E; [|done]. rewrite join_cons by apply pieces_nonempty.
    apply after_shorter in E; [|done]. rewrite IH by lia. done.
Qed.
(** Replacing the first occurrence only. *)
Definition join_first (sep to : str) (ps : list str) : str :=
  match ps with p :: q :: ps => p ++ to ++ join sep (q :: ps) | ps => join sep ps end.
Lemma replace_first_pieces needle to s : needle <> [] -> replace_first needle to s = join_first needle to (pieces needle s).
Proof.
  intros Hne. unfold replace_first. rewrite pieces_unfold by done. destruct (find_str needle s) as [[before after]|] eqn:E; [|done].
  destruct (pieces_ne needle after) as (p & ps & Hp). pose proof (pieces_join needle after Hne) as Hj. rewrite Hp in Hj |- *. cbn [join_first].
  by rewrite Hj.
Qed.

(** ** Spans *)
Fixpoint spans_of (start width : Z) (ps : list str) : list (Z * Z) :=
  match ps with
  | p :: (_ :: _) as ps => (start + len p, start + len p + width) :: spans_of (start + len p + width) width ps
  | _ => []
  end.
Lemma spans_of_cons start width p ps : ps <> [] ->
  spans_of start width (p :: ps) = (start + len p, start + len p + width) :: spans_of (start + len p + width) width ps.
Proof. by destruct ps. Qed.
Lemma spans_from_pieces fuel needle start s : needle <> [] -> (length s < fuel)%nat ->
  spans_from fuel needle start s = spans_of start (len needle) (pieces needle s).
Proof.
  intros Hne. revert start s. induction fuel as [|fuel IH]; intros start s Hf; [lia|]. cbn. rewrite pieces_unfold by done.
  destruct (find_str needle s) as [[before after]|] eqn:E; [|done]. rewrite spans_of_cons by apply pieces_nonempty.
  apply after_shorter in E; [|done]. by rewrite IH by lia.
Qed.
Lemma exact_spans_pieces s needle : needle <> [] -> exact_spans s needle = spans_of 0 (len needle) (pieces needle s).
Proof. intros Hne. unfold exact_spans. rewrite (proj2 (str_eqb_ne _ _)) by done. apply spans_from_pieces; [done|lia]. Qed.
Lemma spans_of_length start width ps : length (spans_of start width ps) = pred (length ps).
Proof.
  revert start. induction ps as [|p ps IH]; intros start; [done|]. destruct ps as [|q ps]; [done|].
  rewrite spans_of_cons by done. cbn [length]. rewrite IH. done.
Qed.
(** The number of occurrences. *)
Definition occurrences (needle s : str) : Z := Z.of_nat (pred (length (pieces needle s))).
Lemma exact_spans_count s needle : needle <> [] -> count_of (exact_spans s needle) = occurrences needle s.
Proof. intros Hne. unfold count_of, occurrences. by rewrite exact_spans_pieces, spans_of_length. Qed.
(** ** Slices *)
Lemma split_at_len p s : split_at_byte (p ++ s) (len p) = Some (p, s).
Proof.
  induction p as [|c p IH]; [by destruct s|]. pose proof (utf8_len_pos c). pose proof (len_nonneg p). cbn [app split_at_byte]. rewrite len_cons.
  rewrite (proj2 (Z.eqb_neq _ _)) by lia. rewrite (proj2 (Z.ltb_ge _ _)) by lia.
  replace (utf8_len c + len p - utf8_len c) with (len p) by lia. by rewrite IH.
Qed.
Lemma slice_mid a b c : slice (a ++ b ++ c) (len a) (len a + len b) = Some b.
Proof.
  unfold slice. rewrite split_at_len. cbn. replace (len a + len b - len a) with (len b) by lia. by rewrite split_at_len.
Qed.
Lemma splice_from_pieces pre needle to ps : ps <> [] ->
  splice_from (pre ++ join needle ps) (len pre) (spans_of (len pre) (len needle) ps) to = Some (join to ps).
Proof.
  revert pre. induction ps as [|p ps IH]; intros pre; [done|]. intros _. destruct ps as [|q ps].
  { cbn. by rewrite split_at_len. }
  rewrite spans_of_cons, !join_cons by done. cbn [splice_from]. rewrite slice_mid. cbn [mbind option_bind].
  specialize (IH (pre ++ p ++ needle) ltac:(done)). rewrite !len_app, Z.add_assoc, <- !app_assoc in IH. by rewrite IH.
Qed.
Lemma splice_pieces needle to s : needle <> [] -> splice s (exact_spans s needle) to = Some (replace_str needle to s).
Proof.
  intros Hne. unfold splice. rewrite exact_spans_pieces, replace_pieces by done.
  pose proof (splice_from_pieces [] needle to (pieces needle s) (pieces_nonempty _ _)) as H. cbn [app] in H.
  rewrite pieces_join in H by done. exact H.
Qed.
(** Only the first span. *)
Lemma splice_first pre p needle q ps to :
  splice_from (pre ++ join needle (p :: q :: ps)) (len pre) [(len pre + len p, len pre + len p + len needle)] to =
  Some (p ++ to ++ join needle (q :: ps)).
Proof.
  rewrite join_cons by done. cbn [splice_from]. rewrite slice_mid. cbn [mbind option_bind].
  replace (pre ++ p ++ needle ++ join needle (q :: ps)) with (((pre ++ p) ++ needle) ++ join needle (q :: ps)) by by rewrite <- !app_assoc.
  replace (len pre + len p + len needle) with (len ((pre ++ p) ++ needle)) by (rewrite !len_app; lia).
  by rewrite split_at_len.
Qed.

(** ** LF and CRLF *)
Definition to_crlf_char (c : char) : str := if c =? c_nl then crlf else [c].
(** The CRLF form of an LF text. *)
Definition to_crlf (s : str) : str := concat (map to_crlf_char s).
(** No carriage return. *)
Definition plain (s : str) : Prop := ~ In c_cr s.
Lemma plain_text_cons c s : plain (c :: s) <-> c <> c_cr /\ plain s.
Proof. unfold plain. cbn. naive_solver. Qed.
Lemma plain_text_app s t : plain (s ++ t) <-> plain s /\ plain t.
Proof. unfold plain. rewrite in_app_iff. naive_solver. Qed.
Lemma to_crlf_app s t : to_crlf (s ++ t) = to_crlf s ++ to_crlf t.
Proof. unfold to_crlf. by rewrite map_app, concat_app. Qed.
Lemma to_crlf_join sep ps : to_crlf (join sep ps) = join (to_crlf sep) (map to_crlf ps).
Proof.
  induction ps as [|p ps IH]; [done|]. destruct ps as [|q ps]; [done|].
  rewrite (join_cons sep p (q :: ps)) by done. rewrite !to_crlf_app, IH. done.
Qed.
Lemma to_crlf_nil s : to_crlf s = [] <-> s = [].
Proof. destruct s as [|c s]; [done|]. unfold to_crlf. cbn. unfold to_crlf_char. split; [by destruct (c =? c_nl)|done]. Qed.
(** A CRLF form starts with the CRLF form of a prefix only. *)
Lemma strip_prefix_crlf o s : plain o -> plain s -> strip_prefix (to_crlf o) (to_crlf s) = to_crlf <$> strip_prefix o s.
Proof.
  revert s. induction o as [|c o IH]; intros s Ho Hs; [done|]. apply plain_text_cons in Ho as [Hc Ho].
  destruct s as [|d s]; [cbn; unfold to_crlf_char; by destruct (c =? c_nl)|]. apply plain_text_cons in Hs as [Hd Hs].
  change (to_crlf (c :: o)) with (to_crlf_char c ++ to_crlf o). change (to_crlf (d :: s)) with (to_crlf_char d ++ to_crlf s).
  unfold to_crlf_char, crlf. destruct (Z.eqb_spec c c_nl) as [->|Hc10], (Z.eqb_spec d c_nl) as [->|Hd10]; cbn [app].
  - cbn. by rewrite IH.
  - by rewrite !strip_prefix_head by done.
  - by rewrite !strip_prefix_head by done.
  - cbn [strip_prefix]. destruct (c =? d); [|done]. by rewrite IH.
Qed.
Lemma strip_prefix_head_nl o s : o <> [] -> strip_prefix (to_crlf o) (c_nl :: s) = None.
Proof.
  destruct o as [|c o]; [done|]. intros _. cbn. unfold to_crlf_char. destruct (Z.eqb_spec c c_nl) as [->|Hc]; [done|].
  cbn. by rewrite (proj2 (Z.eqb_neq _ _) Hc).
Qed.
Definition both_crlf (split : str * str) : str * str := (to_crlf (fst split), to_crlf (snd split)).
Lemma find_str_crlf o s : o <> [] -> plain o -> plain s -> find_str (to_crlf o) (to_crlf s) = both_crlf <$> find_str o s.
Proof.
  intros Hne Ho. induction s as [|d s IH]; intros Hs.
  { pose proof (strip_prefix_crlf o [] Ho Hs) as Hp. change (to_crlf []) with ([] : str) in *. cbn [find_str]. rewrite Hp.
    by destruct (strip_prefix o []). }
  pose proof (strip_prefix_crlf o (d :: s) Ho Hs) as Hp. apply plain_text_cons in Hs as [Hd Hs]. specialize (IH Hs).
  assert (Hunf : forall needle x, find_str needle x = match strip_prefix needle x with Some rest => Some ([], rest) | None =>
    match x with [] => None | c :: x => (fun '(b, a) => (c :: b, a)) <$> find_str needle x end end).
  { intros needle [|c x]; cbn [find_str]; [done|]. destruct (strip_prefix needle (c :: x)); [done|]. by destruct (find_str needle x) as [[? ?]|]. }
  rewrite (Hunf (to_crlf o)), (Hunf o (d :: s)), Hp. destruct (strip_prefix o (d :: s)); [done|]. cbn [fmap option_fmap option_map].
  change (to_crlf (d :: s)) with (to_crlf_char d ++ to_crlf s). unfold to_crlf_char. destruct (Z.eqb_spec d c_nl) as [->|Hd10].
  - cbn [app crlf]. rewrite Hunf. rewrite strip_prefix_head_nl by done. rewrite IH. destruct (find_str o s) as [[? ?]|]; done.
  - cbn [app]. rewrite IH. destruct (find_str o s) as [[? ?]|]; [|done]. cbn. unfold both_crlf. cbn. unfold to_crlf_char.
    by rewrite (proj2 (Z.eqb_neq _ _) Hd10).
Qed.
Lemma to_crlf_ne o : o <> [] -> to_crlf o <> [].
Proof. intros Hne H. by apply Hne, (proj1 (to_crlf_nil o)). Qed.
Lemma pieces_crlf o s : o <> [] -> plain o -> plain s -> pieces (to_crlf o) (to_crlf s) = map to_crlf (pieces o s).
Proof.
  intros Hne Ho. apply (pieces_ind o (fun s ps => plain s -> pieces (to_crlf o) (to_crlf s) = map to_crlf ps)); [done|..]; clear s.
  - intros s E Hs. rewrite (pieces_unfold (to_crlf o)) by by apply to_crlf_ne. by rewrite find_str_crlf, E.
  - intros s before after E IH Hs. rewrite (pieces_unfold (to_crlf o)) by by apply to_crlf_ne. rewrite find_str_crlf, E by done. cbn. f_equal.
    apply IH. apply find_str_Some in E as ->. rewrite !plain_text_app in Hs. tauto.
Qed.
Lemma replace_crlf o r s : o <> [] -> plain o -> plain s ->
  replace_str (to_crlf o) (to_crlf r) (to_crlf s) = to_crlf (replace_str o r s).
Proof. intros Hne Ho Hs. rewrite !replace_pieces, pieces_crlf, to_crlf_join by (done || by apply to_crlf_ne). done. Qed.
Lemma replace_first_crlf o r s : o <> [] -> plain o -> plain s ->
  replace_first (to_crlf o) (to_crlf r) (to_crlf s) = to_crlf (replace_first o r s).
Proof.
  intros Hne Ho Hs. unfold replace_first. rewrite find_str_crlf by done. destruct (find_str o s) as [[b a]|]; [|done].
  cbn. by rewrite !to_crlf_app.
Qed.
Lemma find_char_none c s : find_str [c] s = None -> ~ In c s.
Proof.
  induction s as [|d s IH]; cbn [find_str]; [by intros _ []|]. cbn [strip_prefix]. destruct (Z.eqb_spec c d) as [->|Hne]; [done|].
  destruct (find_str [c] s) as [[? ?]|]; [done|]. intros _ [->|Hin]; [done|]. by apply IH.
Qed.
Lemma find_char_before c s before after : find_str [c] s = Some (before, after) -> ~ In c before.
Proof.
  revert before. induction s as [|d s IH]; intros before; cbn [find_str]; [done|]. cbn [strip_prefix].
  destruct (Z.eqb_spec c d) as [->|Hne]; [by intros [= <- <-] []|].
  destruct (find_str [c] s) as [[b a]|]; [|done]. intros [= <- <-] [->|Hin]; [done|]. by apply (IH b).
Qed.
Lemma pieces_char c s p : In p (pieces [c] s) -> ~ In c p.
Proof.
  revert p. apply (pieces_ind [c] (fun s ps => forall p, In p ps -> ~ In c p)); [done|..]; clear s.
  - intros s E p [<-|[]]. by apply find_char_none.
  - intros s before after E IH p [<-|Hin]; [by eapply find_char_before|by apply IH].
Qed.
Lemma to_crlf_no_nl s : ~ In c_nl s -> to_crlf s = s.
Proof.
  induction s as [|c s IH]; [done|]. intros Hn. change (to_crlf (c :: s)) with (to_crlf_char c ++ to_crlf s). unfold to_crlf_char.
  rewrite (proj2 (Z.eqb_neq _ _)) by (intros ->; apply Hn; by left). cbn. rewrite IH; [done|]. intros Hin. apply Hn. by right.
Qed.
Lemma map_crlf_pieces s : map to_crlf (pieces [c_nl] s) = pieces [c_nl] s.
Proof. rewrite <- (map_id (pieces [c_nl] s)) at 2. apply map_ext_in. intros p Hp. by apply to_crlf_no_nl, (pieces_char c_nl s). Qed.
Lemma lf_to_crlf s : replace_str [c_nl] crlf s = to_crlf s.
Proof.
  rewrite replace_pieces by done. rewrite <- (pieces_join [c_nl] s) at 2 by done. rewrite to_crlf_join, map_crlf_pieces. done.
Qed.
Lemma crlf_to_lf s : plain s -> replace_str crlf [c_nl] (to_crlf s) = s.
Proof.
  intros Hs. change crlf with (to_crlf [c_nl]). rewrite replace_pieces by by apply to_crlf_ne.
  rewrite pieces_crlf, map_crlf_pieces; [by apply pieces_join|done| |done]. by intros [H|[]].
Qed.

(** ** Classification *)
Definition has_nl (s : str) : bool := contains_char s c_nl.
Lemma no_nl s : has_nl s = false -> ~ In c_nl s.
Proof.
  intros E Hin. unfold has_nl, contains_char in E. apply not_true_iff_false in E. apply E, existsb_exists. exists c_nl. by rewrite Z.eqb_refl.
Qed.
Definition class_of (saw_lf saw_crlf : bool) : NewlineClass :=
  match saw_lf, saw_crlf with
  | false, false => NoNewline | true, false => Uniform Lf | false, true => Uniform Crlf | true, true => Unsafe
  end.
Lemma scan_plain s saw_lf saw_crlf : plain s -> scan_newlines s saw_lf saw_crlf = class_of (saw_lf || has_nl s) saw_crlf.
Proof.
  revert saw_lf. induction s as [|c s IH]; intros saw_lf Hs; cbn [scan_newlines].
  { unfold has_nl. cbn. by rewrite orb_false_r. }
  apply plain_text_cons in Hs as [Hc Hs]. rewrite (proj2 (Z.eqb_neq _ _) Hc), IH by done. f_equal. unfold has_nl, contains_char. cbn [existsb].
  rewrite (Z.eqb_sym c_nl c). by rewrite orb_assoc.
Qed.
Lemma scan_crlf s saw_lf saw_crlf : plain s -> scan_newlines (to_crlf s) saw_lf saw_crlf = class_of saw_lf (saw_crlf || has_nl s).
Proof.
  revert saw_crlf. induction s as [|c s IH]; intros saw_crlf Hs.
  { unfold has_nl. cbn. by rewrite orb_false_r. }
  apply plain_text_cons in Hs as [Hc Hs]. change (to_crlf (c :: s)) with (to_crlf_char c ++ to_crlf s). unfold to_crlf_char, has_nl, contains_char.
  cbn [existsb]. rewrite (Z.eqb_sym c_nl c). destruct (Z.eqb_spec c c_nl) as [->|Hnl].
  - cbn [app crlf scan_newlines]. rewrite Z.eqb_refl. cbn. rewrite IH by done. by rewrite orb_true_r.
  - cbn [app scan_newlines]. rewrite (proj2 (Z.eqb_neq _ _) Hc), (proj2 (Z.eqb_neq _ _) Hnl), orb_false_r, IH by done. done.
Qed.
Lemma classify_plain s : plain s -> classify_newlines s = if has_nl s then Uniform Lf else NoNewline.
Proof. intros Hs. unfold classify_newlines. rewrite scan_plain by done. cbn. by destruct (has_nl s). Qed.
Lemma classify_crlf s : plain s -> classify_newlines (to_crlf s) = if has_nl s then Uniform Crlf else NoNewline.
Proof. intros Hs. unfold classify_newlines. rewrite scan_crlf by done. cbn. by destruct (has_nl s). Qed.
(** A text with one kind of line ending is an LF text or the CRLF form of one. *)
Lemma scan_safe n s saw_lf saw_crlf : (length s < n)%nat -> scan_newlines s saw_lf saw_crlf <> Unsafe ->
  (saw_crlf = false /\ plain s) \/ (saw_lf = false /\ exists t, plain t /\ s = to_crlf t).
Proof.
  revert s saw_lf saw_crlf. induction n as [|n IH]; intros s saw_lf saw_crlf Hn Hs; [lia|]. destruct s as [|c s].
  { destruct saw_crlf; [right|left; split; [done|by intros []]]. destruct saw_lf; [done|]. split; [done|]. exists []. split; [by intros []|done]. }
  cbn in Hn. cbn [scan_newlines] in Hs. destruct (Z.eqb_spec c c_cr) as [->|Hc].
  - destruct s as [|d s]; [done|]. destruct (Z.eqb_spec d c_nl) as [->|]; [|done]. cbn in Hn.
    destruct (IH s saw_lf true ltac:(lia) Hs) as [[? _]|(Ha & t & Ht & ->)]; [done|]. right. split; [done|].
    exists (c_nl :: t). split; [by apply plain_text_cons|done].
  - destruct (IH s _ _ ltac:(lia) Hs) as [[-> Hp]|(Ha & t & Ht & ->)]; [left; by rewrite plain_text_cons|].
    apply orb_false_iff in Ha as [-> Hnl]. right. split; [done|]. exists (c :: t). split; [by apply plain_text_cons|].
    change (to_crlf (c :: t)) with (to_crlf_char c ++ to_crlf t). unfold to_crlf_char. by rewrite Hnl.
Qed.
Lemma classify_safe s : classify_newlines s <> Unsafe -> plain s \/ exists t, plain t /\ has_nl t = true /\ s = to_crlf t.
Proof.
  intros Hs. destruct (scan_safe (S (length s)) s false false ltac:(lia) Hs) as [[_ Hp]|(_ & t & Ht & ->)]; [by left|].
  destruct (has_nl t) eqn:E; [right; eauto|left]. by rewrite to_crlf_no_nl by by apply no_nl.
Qed.
Lemma to_lf_plain s : plain s -> to_lf s = s.
Proof. intros Hs. unfold to_lf. rewrite classify_plain by done. by destruct (has_nl s). Qed.
Lemma to_lf_crlf s : plain s -> to_lf (to_crlf s) = s.
Proof.
  intros Hs. unfold to_lf. rewrite classify_crlf by done. destruct (has_nl s) eqn:E; [by apply crlf_to_lf|].
  by apply to_crlf_no_nl, no_nl.
Qed.

(** ** Bytes at the ends of an occurrence *)
Lemma utf8_nat s : length (utf8 s) = Z.to_nat (len s).
Proof. rewrite <- utf8_length. lia. Qed.
Lemma small_byte c b : In b (utf8_char c) -> b < 128 -> b = c /\ utf8_char c = [c].
Proof.
  unfold utf8_char. destruct (Z.ltb_spec c 128); [by intros [->|[]]|].
  pose proof (Z.mod_pos_bound c 64 ltac:(lia)). pose proof (Z.mod_pos_bound (c / 64) 64 ltac:(lia)).
  pose proof (Z.mod_pos_bound (c / 4096) 64 ltac:(lia)). pose proof (Z.div_pos c 64 ltac:(lia) ltac:(lia)).
  pose proof (Z.div_pos c 4096 ltac:(lia) ltac:(lia)). pose proof (Z.div_pos c 262144 ltac:(lia) ltac:(lia)).
  repeat case_match; cbn; intros Hin Hb; lia.
Qed.
Lemma byte_in s i b : byte_at s i = Some b -> b < 128 -> In b s.
Proof.
  unfold byte_at. destruct (i <? 0); [done|]. intros H Hb. apply list_elem_of_lookup_2, list_elem_of_In in H. unfold utf8 in H.
  apply in_concat in H as (bytes & (c & <- & Hc)%in_map_iff & Hin). by destruct (small_byte _ _ Hin Hb) as [-> _].
Qed.
Lemma byte_at_mid p c s : byte_at (p ++ c :: s) (len p) = head (utf8_char c).
Proof.
  unfold byte_at. pose proof (len_nonneg p). rewrite (proj2 (Z.ltb_ge _ _)) by lia. rewrite utf8_app.
  rewrite lookup_app_r; rewrite utf8_nat; [|lia]. rewrite Nat.sub_diag. change (utf8 (c :: s)) with (utf8_char c ++ utf8 s).
  unfold utf8_char. by repeat case_match.
Qed.
Lemma byte_at_last p c s : byte_at (p ++ [c] ++ s) (len (p ++ [c]) - 1) = list.last (utf8_char c).
Proof.
  unfold byte_at. rewrite len_app. cbn [len foldr]. pose proof (len_nonneg p). pose proof (utf8_len_pos c).
  rewrite (proj2 (Z.ltb_ge _ _)) by lia. rewrite utf8_app, lookup_app_r; rewrite utf8_nat; [|lia].
  replace (Z.to_nat (len p + (utf8_len c + 0) - 1) - Z.to_nat (len p))%nat with (pred (length (utf8_char c))).
  2: { pose proof (utf8_char_len c). lia. }
  rewrite utf8_app. unfold utf8 at 1. cbn [map concat]. rewrite app_nil_r. unfold utf8_char. by repeat case_match.
Qed.
Lemma head_byte c b : head (utf8_char c) = Some b -> b < 128 -> c = b.
Proof. intros H Hb. destruct (small_byte c b) as [-> _]; [|done|done]. destruct (utf8_char c); [done|]. injection H as ->. by left. Qed.
Lemma last_byte c b : list.last (utf8_char c) = Some b -> b < 128 -> c = b.
Proof. intros H Hb. destruct (small_byte c b) as [-> _]; [|done|done]. apply list.last_Some in H as [l ->]. apply in_snoc. by right. Qed.

(** Each span is an occurrence. *)
Lemma in_spans_of pre needle ps s e : ps <> [] -> In (s, e) (spans_of (len pre) (len needle) ps) ->
  exists before after, pre ++ join needle ps = before ++ needle ++ after /\ s = len before /\ e = len (before ++ needle).
Proof.
  revert pre. induction ps as [|p ps IH]; intros pre; [done|]. intros _. destruct ps as [|q ps]; [by intros []|].
  rewrite spans_of_cons, join_cons by done. intros [[= <- <-]|Hin].
  - exists (pre ++ p), (join needle (q :: ps)). rewrite <- !app_assoc, !len_app. split_and!; [done|lia..].
  - replace (len pre + len p + len needle) with (len (pre ++ p ++ needle)) in Hin by (rewrite !len_app; lia).
    destruct (IH _ ltac:(done) Hin) as (b & a & Heq & -> & ->). exists b, a. rewrite <- !app_assoc in Heq. done.
Qed.
Lemma in_exact_spans content old s e : old <> [] -> In (s, e) (exact_spans content old) ->
  exists before after, content = before ++ old ++ after /\ s = len before /\ e = len (before ++ old).
Proof.
  intros Hne. rewrite exact_spans_pieces by done. intros Hin. apply (in_spans_of [] old) in Hin; [|apply pieces_nonempty].
  cbn [app] in Hin. by rewrite pieces_join in Hin.
Qed.
Lemma plain_never_splits content span : plain content -> span_splits_crlf content span = false.
Proof.
  intros Hp. destruct span as [s e]. unfold span_splits_crlf.
  assert (Hno : forall i, bool_decide (byte_at content i = Some c_cr) = false).
  { intros i. apply bool_decide_eq_false. intros H%byte_in; [done|]. unfold c_cr. lia. }
  by rewrite !Hno, !andb_false_r.
Qed.
Lemma to_crlf_head o c r : to_crlf o = c :: r -> c <> c_nl.
Proof.
  destruct o as [|d o]; [done|]. change (to_crlf (d :: o)) with (to_crlf_char d ++ to_crlf o). unfold to_crlf_char.
  destruct (Z.eqb_spec d c_nl); cbn; intros [= <- _]; done.
Qed.
Lemma to_crlf_last o c r : plain o -> to_crlf o = r ++ [c] -> c <> c_cr.
Proof.
  destruct o as [|d o _] using rev_ind; [by destruct r|]. rewrite plain_text_app, plain_text_cons, to_crlf_app. intros (_ & Hd & _).
  unfold to_crlf at 2. cbn. rewrite app_nil_r. unfold to_crlf_char. destruct (Z.eqb_spec d c_nl).
  - unfold crlf. change [c_cr; c_nl] with ([c_cr] ++ [c_nl]). rewrite app_assoc. by intros [_ [= <-]]%app_inj_tail.
  - by intros [_ <-]%app_inj_tail.
Qed.
Lemma crlf_never_splits t o span : o <> [] -> plain o -> In span (exact_spans (to_crlf t) (to_crlf o)) ->
  span_splits_crlf (to_crlf t) span = false.
Proof.
  intros Hne Ho. destruct span as [s e]. intros (b & a & Heq & -> & ->)%in_exact_spans; [|by apply to_crlf_ne]. rewrite Heq.
  unfold span_splits_crlf. apply orb_false_iff. split.
  - destruct (to_crlf o) as [|c r] eqn:E; [by apply to_crlf_ne in E|]. cbn [app]. rewrite byte_at_mid.
    rewrite (bool_decide_eq_false_2 (head _ = _)); [by rewrite andb_false_r|]. intros ->%head_byte; [|unfold c_nl; lia].
    by apply to_crlf_head in E.
  - destruct (to_crlf o) as [|c r _] eqn:E using rev_ind; [by apply to_crlf_ne in E|].
    replace (b ++ (r ++ [c]) ++ a) with ((b ++ r) ++ [c] ++ a) by by rewrite <- !app_assoc.
    rewrite (app_assoc b r [c]), byte_at_last.
    rewrite (bool_decide_eq_false_2 (list.last _ = _)); [by rewrite andb_false_r|]. intros ->%last_byte; [|unfold c_cr; lia].
    by apply to_crlf_last in E.
Qed.
(** In a CRLF text every LF follows a CR. *)
Lemma nl_after_cr t a b : to_crlf t = a ++ c_nl :: b -> exists a', a = a' ++ [c_cr].
Proof.
  revert a. induction t as [|c t IH]; intros a; [by destruct a|]. change (to_crlf (c :: t)) with (to_crlf_char c ++ to_crlf t).
  unfold to_crlf_char. destruct (Z.eqb_spec c c_nl) as [->|Hc]; cbn [app crlf].
  - destruct a as [|x [|y a]]; cbn [app]; intros [=]; subst; [by exists []|]. destruct (IH a) as [a' ->]; [done|]. by exists (c_cr :: c_nl :: a').
  - destruct a as [|x a]; cbn [app]; intros [=]; subst; [done|]. destruct (IH a) as [a' ->]; [done|]. by exists (x :: a').
Qed.
Lemma has_nl_split o : has_nl o = true -> exists u v, o = u ++ c_nl :: v /\ ~ In c_nl u.
Proof.
  intros H. destruct (find_str [c_nl] o) as [[u v]|] eqn:E.
  - exists u, v. split; [by apply find_str_Some in E|by eapply find_char_before].
  - apply find_char_none in E. unfold has_nl, contains_char in H. apply existsb_exists in H as (x & Hin & <-%Z.eqb_eq). done.
Qed.
(** An LF needle matches a CRLF text only across a pair. *)
Lemma lf_always_splits t o span : plain o -> has_nl o = true -> In span (exact_spans (to_crlf t) o) ->
  span_splits_crlf (to_crlf t) span = true.
Proof.
  intros Ho Hnl. destruct (has_nl_split o Hnl) as (u & v & -> & Hu). destruct span as [s e].
  intros (b & a & Heq & -> & ->)%in_exact_spans; [|by destruct u].
  pose proof Heq as Hcr. rewrite <- app_assoc, app_assoc in Hcr. cbn [app] in Hcr. apply nl_after_cr in Hcr as [a' Ha'].
  destruct u as [|w u _] using rev_ind.
  2: { rewrite app_assoc in Ha'. apply app_inj_tail in Ha' as [_ ->]. apply plain_text_app in Ho as [Ho _]. destruct Ho. apply in_snoc. by right. }
  rewrite app_nil_r in Ha'. subst b. rewrite Heq. unfold span_splits_crlf. apply orb_true_iff. left.
  replace ((a' ++ [c_cr]) ++ ([] ++ c_nl :: v) ++ a) with ((a' ++ [c_cr]) ++ c_nl :: (v ++ a)) by done.
  rewrite byte_at_mid. replace ((a' ++ [c_cr]) ++ c_nl :: v ++ a) with (a' ++ [c_cr] ++ (c_nl :: v ++ a)) by by rewrite <- app_assoc.
  rewrite byte_at_last. rewrite !bool_decide_eq_true_2 by done. rewrite len_app. pose proof (len_nonneg a').
  rewrite (proj2 (Z.ltb_lt _ _)); [done|]. cbn. lia.
Qed.

(** ** Offsets in the CRLF form *)
Fixpoint newlines (bytes : list Z) : Z :=
  match bytes with [] => 0 | b :: bytes => (if b =? c_nl then 1 else 0) + newlines bytes end.
Lemma newlines_app a b : newlines (a ++ b) = newlines a + newlines b.
Proof. induction a as [|x a IH]; cbn [app newlines]; [done|]. lia. Qed.
Lemma newlines_char c : newlines (utf8_char c) = if c =? c_nl then 1 else 0.
Proof.
  destruct (Z.eqb_spec c c_nl) as [->|Hc]; [done|].
  assert (Hno : forall l, (forall b, In b l -> b <> c_nl) -> newlines l = 0).
  { intros l. induction l as [|b l IH]; cbn [newlines]; [done|]. intros H. rewrite (proj2 (Z.eqb_neq _ _)) by (apply H; by left). apply IH. naive_solver. }
  apply Hno. intros b Hin ->. destruct (small_byte c c_nl Hin) as [H _]; [unfold c_nl; lia|]. congruence.
Qed.
Lemma len_to_crlf s : len (to_crlf s) = len s + newlines (utf8 s).
Proof.
  induction s as [|c s IH]; [done|]. change (to_crlf (c :: s)) with (to_crlf_char c ++ to_crlf s).
  change (utf8 (c :: s)) with (utf8_char c ++ utf8 s). rewrite len_app, newlines_app, newlines_char, len_cons, IH.
  unfold to_crlf_char. destruct (Z.eqb_spec c c_nl) as [->|]; cbn [len foldr]; [|lia]. unfold crlf. cbn. lia.
Qed.
Local Abbreviation increasing := (StronglySorted Z.lt).
Lemma take_offsets_sorted needed index extra mapped : increasing needed ->
  take_offsets needed index extra mapped =
  match needed with
  | x :: rest => if x =? index then (rest, <[x := index + extra]> mapped) else (needed, mapped)
  | [] => ([], mapped)
  end.
Proof.
  destruct needed as [|x rest]; [done|]. intros Hs. apply StronglySorted_inv in Hs as [_ Hx]. cbn. destruct (Z.eqb_spec x index) as [->|]; [|done].
  destruct rest as [|y rest]; [done|]. cbn. inversion Hx; subst. by rewrite (proj2 (Z.eqb_neq y index)) by lia.
Qed.
Lemma walk_lookup bytes index extra needed mapped x : increasing needed ->
  (forall y, In y needed -> index <= y <= index + Z.of_nat (length bytes)) ->
  walk_offsets bytes index extra needed mapped !! x =
  if bool_decide (x ∈ needed) then Some (x + extra + newlines (take (Z.to_nat (x - index)) bytes)) else mapped !! x.
Proof.
  revert index extra needed mapped. induction bytes as [|b bytes IH]; intros index extra needed mapped Hs Hr;
    cbn [walk_offsets]; rewrite take_offsets_sorted by done.
  - destruct needed as [|y rest]; [by rewrite bool_decide_false by apply not_elem_of_nil|].
    assert (y = index) as -> by (specialize (Hr y (or_introl eq_refl)); cbn in Hr; lia). rewrite Z.eqb_refl.
    assert (rest = []) as ->.
    { destruct rest as [|z rest]; [done|]. apply StronglySorted_inv in Hs as [_ Hz]. inversion Hz; subst.
      specialize (Hr z (or_intror (or_introl eq_refl))). cbn in Hr. lia. }
    destruct (decide (x = index)) as [->|Hne].
    + rewrite lookup_insert_eq, bool_decide_true by (apply elem_of_cons; by left). rewrite Z.sub_diag. replace (newlines _) with 0 by done. f_equal. lia.
    + rewrite lookup_insert_ne, bool_decide_false; [done| |done]. by rewrite list_elem_of_singleton.
  - destruct needed as [|y rest].
    { rewrite IH; [|constructor|done]. by rewrite !bool_decide_false by apply not_elem_of_nil. }
    assert (Hstep : forall n, index + 1 <= n -> take (Z.to_nat (n - index)) (b :: bytes) = b :: take (Z.to_nat (n - (index + 1))) bytes).
    { intros n Hn. replace (Z.to_nat (n - index)) with (S (Z.to_nat (n - (index + 1)))) by lia. done. }
    pose proof Hs as Hs0. apply StronglySorted_inv in Hs as [Hrest Hy]. rewrite List.Forall_forall in Hy.
    destruct (Z.eqb_spec y index) as [->|Hyi].
    + rewrite IH; [|done|].
      2: { intros z Hz. specialize (Hy z Hz). specialize (Hr z (or_intror Hz)). cbn [length] in Hr. lia. }
      destruct (decide (x = index)) as [->|Hne].
      * rewrite lookup_insert_eq, (bool_decide_true (index ∈ index :: rest)) by (apply elem_of_cons; by left).
        rewrite bool_decide_false. { rewrite Z.sub_diag. replace (newlines _) with 0 by done. f_equal. lia. }
        intros Hin%list_elem_of_In. specialize (Hy index Hin). lia.
      * rewrite lookup_insert_ne by done. destruct (decide (x ∈ rest)) as [Hin|Hin].
        -- rewrite !bool_decide_true by (done || by apply elem_of_cons; right). rewrite Hstep.
           ++ cbn [newlines]. f_equal. destruct (b =? c_nl); lia.
           ++ apply list_elem_of_In, Hy in Hin. lia.
        -- rewrite !bool_decide_false; [done| |done]. rewrite elem_of_cons. tauto.
    + assert (Hgt : forall z, In z (y :: rest) -> index + 1 <= z).
      { intros z [<-|Hz]; [specialize (Hr y (or_introl eq_refl)); lia|]. specialize (Hy z Hz). specialize (Hr y (or_introl eq_refl)). lia. }
      rewrite IH; [|done|].
      2: { intros z Hz. specialize (Hgt z Hz). specialize (Hr z Hz). cbn [length] in Hr. lia. }
      destruct (decide (x ∈ y :: rest)) as [Hin|Hin]; [|by rewrite !bool_decide_false].
      rewrite !bool_decide_true by done. rewrite Hstep by (apply Hgt; by apply list_elem_of_In). cbn [newlines]. f_equal.
      destruct (b =? c_nl); lia.
Qed.

Lemma dedup_offsets_spec l : StronglySorted Z.le l -> increasing (dedup_offsets l) /\ forall x, In x (dedup_offsets l) <-> In x l.
Proof.
  induction 1 as [|x l Hl IH Hx]; [split; [constructor|done]|]. destruct l as [|y l].
  { cbn. split; [by repeat constructor|done]. }
  destruct IH as [IH1 IH2]. cbn [dedup_offsets]. inversion Hx as [|?? Hxy Hxl]; subst. destruct (Z.eqb_spec x y) as [->|Hne].
  - split; [done|]. intros z. rewrite IH2. cbn. tauto.
  - split; [|intros z; cbn [In]; rewrite IH2; done]. constructor; [done|]. rewrite List.Forall_forall in *. intros z Hz%IH2.
    apply StronglySorted_inv in Hl as [_ Hy]. rewrite List.Forall_forall in Hy. destruct Hz as [<-|Hz]; [lia|]. specialize (Hy z Hz). lia.
Qed.
Lemma sort_offsets l : StronglySorted Z.le (sort_by Z.leb l).
Proof.
  assert (H : StronglySorted (fun a b => (a <=? b) = true) (sort_by Z.leb l)).
  { apply sort_by_ordered; intros *; rewrite !Z.leb_le; lia. }
  induction H as [|x l' H IH Hx]; constructor; [done|]. eapply List.Forall_impl; [|exact Hx]. intros z. by rewrite Z.leb_le.
Qed.
Lemma offset_image lf before after spans : lf = before ++ after ->
  (forall s e, In (s, e) spans -> 0 <= s <= len lf /\ 0 <= e <= len lf) -> (exists e, In (len before, e) spans \/ In (e, len before) spans) ->
  walk_offsets (utf8 lf) 0 0 (dedup_offsets (sort_by Z.leb (concat (map (fun '(s, e) => [s; e]) spans)))) ∅ !! len before =
  Some (len (to_crlf before)).
Proof.
  intros -> Hr Hin. set (offsets := concat (map (fun '(s, e) => [s; e]) spans)).
  assert (Hoff : forall x, In x offsets <-> exists e, In (x, e) spans \/ In (e, x) spans).
  { intros x. unfold offsets. rewrite in_concat. split.
    - intros (l & ([s e] & <- & Hs)%in_map_iff & Hx). destruct Hx as [<-|[<-|[]]]; eauto.
    - intros [e [H|H]]; eexists; (split; [apply in_map_iff; eexists; split; [|exact H]; reflexivity|cbn; tauto]). }
  destruct (dedup_offsets_spec _ (sort_offsets offsets)) as [Hinc Hmem].
  assert (Hsort : forall x, In x (dedup_offsets (sort_by Z.leb offsets)) <-> In x offsets).
  { intros x. rewrite Hmem, <- !list_elem_of_In. apply elem_of_sort_by. }
  rewrite walk_lookup; [|done|].
  2: { intros y (e & [H|H])%Hsort%Hoff; rewrite utf8_length; apply Hr in H; lia. }
  rewrite bool_decide_true by by apply list_elem_of_In, Hsort, Hoff. f_equal. rewrite Z.sub_0_r, utf8_app, <- utf8_nat, take_app_length.
  rewrite len_to_crlf. lia.
Qed.
Lemma map_spans_pieces o ps : ps <> [] ->
  map_lf_spans_to_crlf (join o ps) (spans_of 0 (len o) ps) = Some (spans_of 0 (len (to_crlf o)) (map to_crlf ps)).
Proof.
  intros Hps. unfold map_lf_spans_to_crlf. set (lf := join o ps). set (spans := spans_of 0 (len o) ps).
  set (mapped := walk_offsets _ _ _ _ _).
  assert (Hr : forall s e, In (s, e) spans -> 0 <= s <= len lf /\ 0 <= e <= len lf).
  { intros s e Hin. apply (in_spans_of [] o ps) in Hin as (b & a & Heq & -> & ->); [|done]. cbn [app] in Heq. unfold lf. rewrite Heq, !len_app.
    pose proof (len_nonneg b). pose proof (len_nonneg o). pose proof (len_nonneg a). lia. }
  assert (Himg : forall before after, lf = before ++ after -> (exists e, In (len before, e) spans \/ In (e, len before) spans) ->
    mapped !! len before = Some (len (to_crlf before))) by (intros; by eapply offset_image).
  assert (Hgen : forall qs pre, qs <> [] -> lf = pre ++ join o qs ->
    (forall span, In span (spans_of (len pre) (len o) qs) -> In span spans) ->
    mapM (fun '(s, e) => s ← mapped !! s; e ← mapped !! e; Some (s, e)) (spans_of (len pre) (len o) qs) =
    Some (spans_of (len (to_crlf pre)) (len (to_crlf o)) (map to_crlf qs))).
  { induction qs as [|q qs IH]; intros pre Hq Hlf Hsub; [done|]. destruct qs as [|q' qs]; [done|].
    rewrite spans_of_cons in Hsub |- * by done. rewrite join_cons in Hlf by done.
    change (map to_crlf (q :: q' :: qs)) with (to_crlf q :: map to_crlf (q' :: qs)). rewrite (spans_of_cons _ _ (to_crlf q)) by done.
    assert (Hfirst : In (len (pre ++ q), len (pre ++ q ++ o)) spans) by (rewrite !len_app, Z.add_assoc; apply Hsub; by left).
    pose proof (Himg (pre ++ q) (o ++ join o (q' :: qs)) ltac:(by rewrite <- app_assoc) ltac:(eauto)) as H1.
    pose proof (Himg (pre ++ q ++ o) (join o (q' :: qs)) ltac:(by rewrite <- !app_assoc) ltac:(eauto)) as H2.
    specialize (IH (pre ++ q ++ o) ltac:(done) ltac:(by rewrite <- !app_assoc)).
    rewrite !to_crlf_app, !len_app, ?Z.add_assoc in *. cbn [mapM]. rewrite H1. cbn [mbind option_bind]. rewrite H2. cbn [mbind option_bind].
    rewrite IH; [done|]. intros span Hin. apply Hsub. by right. }
  apply (Hgen ps []); [done|done|]. done.
Qed.
Lemma map_spans_crlf o s : o <> [] -> plain o -> plain s ->
  map_lf_spans_to_crlf s (exact_spans s o) = Some (exact_spans (to_crlf s) (to_crlf o)).
Proof.
  intros Hne Ho Hs. rewrite !exact_spans_pieces, pieces_crlf by (done || by apply to_crlf_ne).
  rewrite <- map_spans_pieces by apply pieces_nonempty. by rewrite pieces_join.
Qed.

(** ** The edit of the text *)
Definition in_style (content s : str) : str := if bool_decide (classify_newlines content = Uniform Crlf) then to_crlf s else s.
(** The edit as a user means it: on the text in LF form, written back in the line endings
    of the file. *)
Definition logical_edit (content old_string new_string : str) (replace_all : bool) : LineEndingEditError + LineEndingEdit :=
  let lf := to_lf content in
  let old := to_lf old_string in
  let n := occurrences old lf in
  if n =? 0 then inl NotFound
  else if (1 <? n) && negb replace_all then inl (Ambiguous n)
  else inr (mkEdit (in_style content (if replace_all then replace_str old (to_lf new_string) lf
                                      else replace_first old (to_lf new_string) lf))
                   (if replace_all then n else 1)).
(** The replacement is written with another line ending than the file. *)
Definition other_ending (content new_string : str) : bool :=
  match classify_newlines content, classify_newlines new_string with
  | Uniform a, Uniform b => negb (bool_decide (a = b))
  | NoNewline, Uniform Crlf => true
  | _, _ => false
  end.

Lemma splice_first_span s o r x rest : o <> [] -> exact_spans s o = x :: rest -> splice s [x] r = Some (replace_first o r s).
Proof.
  intros Hne. rewrite exact_spans_pieces, replace_first_pieces by done. unfold splice. rewrite <- (pieces_join o s Hne) at 2.
  destruct (pieces o s) as [|p [|q ps]]; [done..|]. rewrite spans_of_cons by done. intros [= <- _].
  apply (splice_first [] p o q ps r).
Qed.
Lemma occurrences_zero s o : o <> [] -> bool_decide (exact_spans s o = []) = (occurrences o s =? 0).
Proof.
  intros Hne. rewrite <- exact_spans_count by done. unfold count_of. destruct (exact_spans s o) as [|x l]; [done|].
  rewrite bool_decide_false by done. symmetry. apply Z.eqb_neq. cbn [length]. lia.
Qed.
Lemma transcode_lf s : classify_newlines s <> Unsafe -> transcode_newlines s Lf = to_lf s.
Proof. unfold transcode_newlines, to_lf. by destruct (classify_newlines s) as [|[]|]. Qed.
Lemma transcode_crlf s : classify_newlines s <> Unsafe -> transcode_newlines s Crlf = to_crlf (to_lf s).
Proof.
  intros Hs. unfold transcode_newlines. destruct (classify_safe s Hs) as [Hp|(t & Ht & Hnl & ->)].
  - rewrite classify_plain, to_lf_plain, lf_to_crlf by done. by destruct (has_nl s).
  - rewrite classify_crlf, to_lf_crlf, Hnl by done. done.
Qed.
Lemma to_lf_ne s : classify_newlines s <> Unsafe -> s <> [] -> to_lf s <> [] /\ plain (to_lf s).
Proof.
  intros Hs Hne. destruct (classify_safe s Hs) as [Hp|(t & Ht & Hnl & ->)]; [by rewrite to_lf_plain|]. rewrite to_lf_crlf by done.
  split; [|done]. intros ->. done.
Qed.
(** Writing back in the file's line endings. *)
Lemma chosen_splice s o r (replace_all : bool) : o <> [] -> exact_spans s o <> [] ->
  (chosen ← (if replace_all then Some (exact_spans s o) else match exact_spans s o with x :: _ => Some [x] | [] => None end);
   splice s chosen r) = Some (if replace_all then replace_str o r s else replace_first o r s).
Proof.
  intros Hne Hsp. destruct replace_all; cbn; [by apply splice_pieces|]. destruct (exact_spans s o) as [|x l] eqn:E; [done|]. cbn.
  by eapply splice_first_span.
Qed.
Lemma logical_match_is_logical content old_string new_string replace_all : old_string <> [] ->
  classify_newlines content <> Unsafe -> classify_newlines old_string <> Unsafe -> classify_newlines new_string <> Unsafe ->
  logical_match content old_string new_string replace_all = Some (logical_edit content old_string new_string replace_all).
Proof.
  intros Hne Hc Ho Hn. unfold logical_match, logical_edit. rewrite !(bool_decide_eq_false_2 (_ = Unsafe)) by done. cbn [orb].
  destruct (to_lf_ne old_string Ho Hne) as [Hne' Hpo]. rewrite (proj2 (str_eqb_ne _ _)) by done. cbn [orb].
  rewrite occurrences_zero, exact_spans_count by done. destruct (Z.eqb_spec (occurrences (to_lf old_string) (to_lf content)) 0) as [|H0]; [done|].
  destruct ((1 <? _) && _); [done|].
  assert (Hsp : exact_spans (to_lf content) (to_lf old_string) <> []).
  { intros E. apply H0. apply Z.eqb_eq. rewrite <- occurrences_zero, E by done. done. }
  unfold in_style. set (o := to_lf old_string) in *. destruct (classify_safe content Hc) as [Hp|(t & Ht & Hnl & ->)].
  - rewrite to_lf_plain in * by done. rewrite (bool_decide_eq_false_2 (classify_newlines content = Uniform Crlf)).
    2: { rewrite classify_plain by done. by destruct (has_nl content). }
    replace (match classify_newlines content with Uniform style => style | _ => Lf end) with Lf.
    2: { rewrite classify_plain by done. by destruct (has_nl content). }
    rewrite transcode_lf by done.
    pose proof (chosen_splice content o (to_lf new_string) replace_all Hne' Hsp) as H.
    destruct (if replace_all then _ else _); cbn in H |- *; [|done]. by rewrite H.
  - rewrite to_lf_crlf in * by done. rewrite classify_crlf, Hnl by done. rewrite (bool_decide_eq_true_2 (Uniform Crlf = Uniform Crlf)) by done.
    rewrite map_spans_crlf, transcode_crlf by done.
    assert (Hsp' : exact_spans (to_crlf t) (to_crlf o) <> []).
    { intros E. apply Hsp. pose proof (map_spans_crlf o t Hne' Hpo Ht) as Hm. rewrite E in Hm. by apply mapM_Some_1, Forall2_nil_inv_r in Hm. }
    pose proof (chosen_splice (to_crlf t) (to_crlf o) (to_crlf (to_lf new_string)) replace_all (to_crlf_ne _ Hne') Hsp') as H.
    destruct (if replace_all then _ else _); cbn in H |- *; [|done]. rewrite H. cbn. rewrite replace_crlf, replace_first_crlf by done. by destruct replace_all.
Qed.
(** ** The two paths *)
Lemma plain_no_crlf_match content old_string : plain content -> In c_cr old_string -> exact_spans content old_string = [].
Proof.
  intros Hp Hin. destruct (exact_spans content old_string) as [|[s e] l] eqn:E; [done|]. exfalso.
  destruct (in_exact_spans content old_string s e) as (b & a & -> & _); [by intros ->|rewrite E; by left|].
  apply plain_text_app in Hp as [_ Hp]. by apply plain_text_app in Hp as [Hp _].
Qed.
Lemma in_crlf_cr o : has_nl o = true -> In c_cr (to_crlf o).
Proof.
  intros (u & v & -> & _)%has_nl_split. rewrite to_crlf_app. apply in_app_iff. right. by left.
Qed.
Lemma filter_all_false {A} (f : A -> bool) l : (forall x, In x l -> f x = false) -> List.filter f l = [].
Proof. induction l as [|x l IH]; cbn; [done|]. intros H. rewrite (H x) by tauto. apply IH. naive_solver. Qed.
Lemma filter_all_true {A} (f : A -> bool) l : (forall x, In x l -> f x = true) -> List.filter f l = l.
Proof. induction l as [|x l IH]; cbn; [done|]. intros H. rewrite (H x) by tauto. f_equal. apply IH. naive_solver. Qed.
(** Occurrences that all split a pair, or none: the logical match decides. *)
Lemma edit_by_logical content old_string new_string replace_all : old_string <> [] ->
  (exact_spans content old_string = [] \/ forall span, In span (exact_spans content old_string) -> span_splits_crlf content span = true) ->
  apply_line_ending_edit content old_string new_string replace_all = logical_match content old_string new_string replace_all.
Proof.
  intros Hne H. unfold apply_line_ending_edit. rewrite (proj2 (str_eqb_ne _ _)) by done. destruct H as [-> | H]; [done|].
  rewrite filter_all_true by done. destruct (exact_spans content old_string) as [|x l]; [done|].
  rewrite (proj2 (Z.eqb_neq (count_of (x :: l)) 0)) by (unfold count_of; cbn; lia). by rewrite Z.eqb_refl, !andb_false_r.
Qed.
(** Occurrences that split no pair: a plain replacement. *)
Lemma edit_by_exact content old_string new_string replace_all : old_string <> [] -> exact_spans content old_string <> [] ->
  (forall span, In span (exact_spans content old_string) -> span_splits_crlf content span = false) ->
  let n := occurrences old_string content in
  apply_line_ending_edit content old_string new_string replace_all =
  Some (if (1 <? n) && negb replace_all then inl (Ambiguous n)
        else inr (mkEdit (if replace_all then replace_str old_string new_string content else replace_first old_string new_string content)
                         (if replace_all then n else 1))).
Proof.
  intros Hne Hsp H. cbn zeta. unfold apply_line_ending_edit. rewrite (proj2 (str_eqb_ne _ _)) by done.
  rewrite filter_all_false, exact_spans_count by done. rewrite bool_decide_eq_false_2 by done. cbn [negb andb count_of length].
  by destruct ((1 <? _) && _).
Qed.
Lemma other_ending_false content new_string : other_ending content new_string = false -> classify_newlines new_string <> Unsafe ->
  match classify_newlines content with Uniform Crlf => new_string = to_crlf (to_lf new_string) | _ => to_lf new_string = new_string end
  \/ classify_newlines content = Unsafe.
Proof.
  unfold other_ending. intros Ho Hn. destruct (classify_safe new_string Hn) as [Hp|(t & Ht & Hnl & ->)].
  - rewrite (classify_plain new_string) in Ho by done. rewrite to_lf_plain by done. destruct (has_nl new_string) eqn:E.
    + left. by destruct (classify_newlines content) as [|[]|].
    + left. destruct (classify_newlines content) as [|[]|]; try done. symmetry. by apply to_crlf_no_nl, no_nl.
  - rewrite (classify_crlf t), Hnl in Ho by done. rewrite to_lf_crlf by done. destruct (classify_newlines content) as [|[]|]; [done..|by left|by right].
Qed.

Lemma exact_plain content old_string new_string replace_all : old_string <> [] -> plain content -> plain old_string ->
  exact_spans content old_string <> [] -> classify_newlines new_string <> Unsafe -> other_ending content new_string = false ->
  apply_line_ending_edit content old_string new_string replace_all = Some (logical_edit content old_string new_string replace_all).
Proof.
  intros Hne Hp Hpo He Hn Ho. rewrite edit_by_exact by (done || intros; by apply plain_never_splits).
  unfold logical_edit, in_style. rewrite !to_lf_plain by done. rewrite <- occurrences_zero by done. rewrite bool_decide_eq_false_2 by done.
  destruct (other_ending_false _ _ Ho Hn) as [Hnew|Hu]; rewrite classify_plain in * by done; destruct (has_nl content); try done;
    rewrite Hnew; by destruct ((1 <? _) && _).
Qed.
Lemma exact_crlf t o new_string replace_all : o <> [] -> plain t -> plain o -> has_nl t = true ->
  exact_spans (to_crlf t) (to_crlf o) <> [] -> classify_newlines new_string <> Unsafe -> other_ending (to_crlf t) new_string = false ->
  apply_line_ending_edit (to_crlf t) (to_crlf o) new_string replace_all = Some (logical_edit (to_crlf t) (to_crlf o) new_string replace_all).
Proof.
  intros Hne Hp Hpo Hnl He Hn Ho. rewrite edit_by_exact by (done || (by apply to_crlf_ne) || intros; by apply (crlf_never_splits t o)).
  assert (Hcount : occurrences (to_crlf o) (to_crlf t) = occurrences o t).
  { unfold occurrences. rewrite pieces_crlf, length_map by done. done. }
  unfold logical_edit, in_style. rewrite !to_lf_crlf by done. rewrite Hcount. rewrite classify_crlf, Hnl by done.
  destruct (Z.eqb_spec (occurrences o t) 0) as [H0|_].
  { pose proof (occurrences_zero (to_crlf t) (to_crlf o) (to_crlf_ne _ Hne)) as H. rewrite Hcount, H0 in H.
    by apply bool_decide_eq_true in H. }
  destruct (other_ending_false _ _ Ho Hn) as [Hnew|Hu]; rewrite classify_crlf, Hnl in * by done; [|done].
  rewrite bool_decide_eq_true_2 by done. destruct ((1 <? _) && _); [done|].
  destruct replace_all; [rewrite <- replace_crlf by done|rewrite <- replace_first_crlf by done]; by rewrite <- Hnew.
Qed.

(** No edit slices inside a character, whatever the three texts are. *)
Lemma edit_never_panics content old_string new_string replace_all : apply_line_ending_edit content old_string new_string replace_all <> None.
Proof.
  unfold apply_line_ending_edit. destruct (str_eqb old_string []) eqn:Eo; [done|]. apply str_eqb_ne in Eo.
  destruct (negb _ && _); [by destruct ((1 <? _) && _)|]. destruct ((0 <? _) && _); [done|].
  destruct (decide (classify_newlines content = Unsafe)) as [Hc|Hc]; [unfold logical_match; by rewrite bool_decide_true|].
  destruct (decide (classify_newlines old_string = Unsafe)) as [Ho|Ho];
    [unfold logical_match; by rewrite (bool_decide_true (classify_newlines old_string = Unsafe)), orb_true_r|].
  destruct (decide (classify_newlines new_string = Unsafe)) as [Hn|Hn]; [|by rewrite logical_match_is_logical].
  unfold logical_match. rewrite (bool_decide_false (classify_newlines content = Unsafe)), (bool_decide_false (classify_newlines old_string = Unsafe)) by done.
  cbn [orb]. destruct (str_eqb _ _ || _); [done|]. destruct ((1 <? _) && _); [done|]. by rewrite bool_decide_true.
Qed.

(** C35. Editing a file is editing its text. For a file, a search text and a replacement that
    each use one kind of line ending, the edit finds, counts and replaces exactly the
    occurrences of the search text in the LF form of the file, refuses when there is none or
    when there are several and one was meant, and writes the result in the line endings of
    the file, whichever line endings the search text and the replacement are written in;
    it never slices inside a character. The one case left out is a replacement in the
    other line ending for a search text that occurs in the file byte for byte. *)
Theorem edit_is_logical content old_string new_string replace_all : old_string <> [] ->
  classify_newlines content <> Unsafe -> classify_newlines old_string <> Unsafe -> classify_newlines new_string <> Unsafe ->
  (other_ending content new_string = true -> exact_spans content old_string = [] \/
     (classify_newlines content = Uniform Crlf /\ classify_newlines old_string = Uniform Lf)) ->
  apply_line_ending_edit content old_string new_string replace_all = Some (logical_edit content old_string new_string replace_all).
Proof.
  intros Hne Hc Ho Hn Hother. destruct (decide (exact_spans content old_string = [])) as [He|He].
  { rewrite <- logical_match_is_logical by done. by apply edit_by_logical; [|left]. }
  destruct (classify_safe content Hc) as [Hp|(t & Ht & Hnl & ->)], (classify_safe old_string Ho) as [Hpo|(o & Hpo & Hnlo & ->)].
  - apply exact_plain; try done. destruct (other_ending content new_string) eqn:E; [|done].
    destruct Hother as [|[H _]]; [done..|]. rewrite classify_plain in H by done. by destruct (has_nl content).
  - destruct He. apply plain_no_crlf_match; [done|by apply in_crlf_cr].
  - destruct (has_nl old_string) eqn:Hnlo.
    + rewrite <- logical_match_is_logical by done. apply edit_by_logical; [done|]. right. intros span. by apply lf_always_splits.
    + rewrite <- (to_crlf_no_nl old_string) in He, Hother, Hne |- * by by apply no_nl. apply exact_crlf; try done.
      * intros ->. done.
      * destruct (other_ending _ new_string) eqn:E; [|done]. destruct Hother as [|[_ H]]; [done..|].
        rewrite classify_crlf, Hnlo in H by done. done.
  - apply exact_crlf; try done.
    + intros ->. done.
    + destruct (other_ending _ new_string) eqn:E; [|done]. destruct Hother as [|[_ H]]; [done..|].
      rewrite classify_crlf, Hnlo in H by done. done.
Qed.
Definition dos (lines : list string) : str := concat (map (fun line => lit line ++ crlf) lines).
(** A file with CRLF endings, a search text and a replacement written with LF. *)
Lemma edit_is_logical_witness :
  apply_line_ending_edit (dos ["keep"; "alpha"; "beta"]) ($"alpha" ++ [c_nl] ++ $"beta") ($"alpha" ++ [c_nl] ++ $"gamma") false =
  Some (inr (mkEdit (dos ["keep"; "alpha"; "gamma"]) 1)).
Proof.
  rewrite (edit_is_logical (dos ["keep"; "alpha"; "beta"]) ($"alpha" ++ [c_nl] ++ $"beta") ($"alpha" ++ [c_nl] ++ $"gamma") false);
    [by vm_compute|done|by vm_compute..|]. right. by vm_compute.
Defined.
(** The case left out: the search text occurs byte for byte, and the LF replacement is
    written as it is into the CRLF file, which then has both line endings. *)
Lemma exact_edit_mixes_endings :
  apply_line_ending_edit (dos ["a"; "b"]) $"b" ($"x" ++ [c_nl] ++ $"y") false =
    Some (inr (mkEdit (dos ["a"] ++ $"x" ++ [c_nl] ++ $"y" ++ crlf) 1)) /\
  classify_newlines (dos ["a"; "b"]) = Uniform Crlf /\
  classify_newlines (dos ["a"] ++ $"x" ++ [c_nl] ++ $"y" ++ crlf) = Unsafe.
Proof. by vm_compute. Qed.

(** ** Overwriting and truncating *)
(** A text of one line ending is written in the line ending of the file it replaces. *)
Lemma preserve_is_in_style existing incoming a b : classify_newlines existing = Uniform a -> classify_newlines incoming = Uniform b ->
  preserve_newline_style existing incoming = in_style existing (to_lf incoming).
Proof.
  intros Ha Hb. unfold preserve_newline_style, in_style. rewrite Ha, Hb.
  destruct (classify_safe incoming) as [Hp|(t & Ht & Hnl & ->)]; [congruence|..].
  - rewrite classify_plain in Hb by done. rewrite to_lf_plain by done. destruct (has_nl incoming) eqn:E; [|done]. injection Hb as <-.
    destruct a; [done|]. change (transcode_newlines incoming Crlf = to_crlf incoming).
    rewrite transcode_crlf, to_lf_plain by (done || by rewrite classify_plain, E). done.
  - rewrite classify_crlf, Hnl in Hb by done. injection Hb as <-. rewrite to_lf_crlf by done. destruct a; [|done].
    change (transcode_newlines (to_crlf t) Lf = t). rewrite transcode_lf, to_lf_crlf by (done || by rewrite classify_crlf, Hnl). done.
Qed.
Lemma inside_char p c r k : 0 < k < utf8_len c -> split_at_byte (p ++ c :: r) (len p + k) = None.
Proof.
  intros Hk. induction p as [|d p IH]; cbn [app split_at_byte].
  - cbn [len foldr]. rewrite (proj2 (Z.eqb_neq _ _)) by lia. by rewrite (proj2 (Z.ltb_lt _ _)) by lia.
  - pose proof (utf8_len_pos d). pose proof (len_nonneg p). rewrite len_cons. rewrite (proj2 (Z.eqb_neq _ _)) by lia.
    rewrite (proj2 (Z.ltb_ge _ _)) by lia. replace (utf8_len d + len p + k - utf8_len d) with (len p + k) by lia. by rewrite IH.
Qed.
Lemma cut_point s n : 0 <= n < len s -> exists p c r, s = p ++ c :: r /\ len p <= n < len p + utf8_len c.
Proof.
  revert n. induction s as [|c s IH]; intros n Hn; [cbn in Hn; lia|]. rewrite len_cons in Hn. destruct (Z.ltb_spec n (utf8_len c)) as [Hlt|Hge].
  - exists [], c, s. split; [done|]. cbn. lia.
  - destruct (IH (n - utf8_len c)) as (p & d & r & -> & Hp); [lia|]. exists (c :: p), d, r. split; [done|]. rewrite len_cons. lia.
Qed.
(** Truncation keeps the longest prefix of whole characters within the limit. *)
Lemma truncate_is_longest s max_bytes : 0 <= max_bytes < len s -> exists p c r,
  s = p ++ c :: r /\ truncate_utf8 s max_bytes = Some p /\ len p <= max_bytes < len p + utf8_len c.
Proof.
  intros Hmax. destruct (cut_point s max_bytes Hmax) as (p & c & r & -> & Hp). exists p, c, r. split; [done|]. split; [|done].
  unfold truncate_utf8. rewrite (proj2 (Z.leb_gt _ _)) by lia.
  assert (Hb : forall fuel k, 0 <= k < utf8_len c -> k < Z.of_nat fuel -> boundary_below fuel (p ++ c :: r) (len p + k) = len p).
  { induction fuel as [|fuel IH]; intros k Hk Hf; [lia|]. cbn [boundary_below]. unfold is_char_boundary.
    pose proof (len_nonneg p). destruct (decide (k = 0)) as [->|Hk0].
    - rewrite Z.add_0_r, split_at_len, bool_decide_eq_true_2 by by eexists. by rewrite andb_false_r.
    - rewrite inside_char by lia. rewrite bool_decide_eq_false_2 by by intros [? ?]. rewrite (proj2 (Z.ltb_lt _ _)) by lia.
      cbn [negb andb]. replace (len p + k - 1) with (len p + (k - 1)) by lia. apply IH; lia. }
  replace max_bytes with (len p + (max_bytes - len p)) by lia. rewrite Hb, split_at_len; [done|lia|].
  assert (utf8_len c <= 4) by (unfold utf8_len; repeat case_match; lia). lia.
Qed.
