(* ===== verification/Patch.v ===== *)
(** Unified diffs ([tools/builtin/patch.rs]): parsing hunks, reading a file as lines with
    one line ending, and applying hunks strictly from top to bottom.

    Errors carry their data and not their message texts. Line numbers and counts are
    [usize] values of at most 64 bits. *)
From stdpp Require Import gmap.
From S2P Require Import Prelude Text LineEdit.

Inductive HunkOperation : Type := Context (line : str) | Remove (line : str) | Add (line : str).
Record Hunk : Type := mkHunk {
  hk_old_start : Z;
  hk_old_count : Z;
  hk_new_start : Z;
  hk_new_count : Z;
  hk_operations : list HunkOperation;
  hk_old_no_newline : bool;
  hk_new_no_newline : bool;
}.
Inductive PatchError : Type :=
| UnexpectedLine (number : Z) (line : str)
| NoHunks
| NoMarkerTarget (number : Z)
| InvalidPrefix (number : Z) (line : str)
| CountMismatch (header : str)
| InvalidHeader (header : str)
| InvalidRange (header : str)
| InvalidStart (header : str)
| InvalidCount (header : str)
| MixedEndings
| CrOnlyEndings
| OutsideSource (old_start : Z)
| WrongNewStart (new_start produced : Z)
| FileEnded (kind : str) (number : Z) (expected : str)
| LineMismatch (kind : str) (number : Z) (expected actual : str)
| HasFinalNewline.

(** ** Parsing *)
(** [str::parse::<usize>]: an optional plus sign and decimal digits. *)
Definition parse_usize (s : str) : option Z :=
  let digits := default s (strip_prefix [c_plus] s) in
  n ← parse_decimal digits; if n <=? u64_max then Some n else None.
Definition parse_hunk_range (value : str) (prefix : char) (header : str) : PatchError + (Z * Z) :=
  match strip_prefix [prefix] value with
  | None => inl (InvalidRange header)
  | Some value =>
      let '(start, count) := match split_once c_comma value with
                             | Some (start, count) => (start, Some count)
                             | None => (value, None)
                             end in
      match parse_usize start with
      | None => inl (InvalidStart header)
      | Some start =>
          match parse_usize (default $"1" count) with
          | None => inl (InvalidCount header)
          | Some count => inr (start, count)
          end
      end
  end.
Definition AT : str := $"@@".
Definition parse_hunk_header (header : str) : PatchError + (Z * Z * Z * Z) :=
  match (rest ← strip_prefix AT header; find_str AT rest) with
  | None => inl (InvalidHeader header)
  | Some (ranges, _) =>
      match split_whitespace (trim ranges) with
      | old :: new :: _ =>
          match parse_hunk_range old c_dash header with
          | inl e => inl e
          | inr (old_start, old_count) =>
              match parse_hunk_range new c_plus header with
              | inl e => inl e
              | inr (new_start, new_count) => inr (old_start, old_count, new_start, new_count)
              end
          end
      | _ => inl (InvalidHeader header)
      end
  end.

Definition NO_NEWLINE : str := $"\ No newline at end of file".
(** What the body of a hunk has collected so far; [bd_rest] are the lines not read yet and
    [bd_next] is the index of the first of them. *)
Record Body : Type := mkBody {
  bd_operations : list HunkOperation;
  bd_old_no_newline : bool;
  bd_new_no_newline : bool;
  bd_rest : list str;
  bd_next : Z;
}.
Fixpoint hunk_body (lines : list str) (i : Z) (ops : list HunkOperation) (old_nn new_nn : bool) (previous : option char)
    : PatchError + Body :=
  match lines with
  | [] => inr (mkBody ops old_nn new_nn [] i)
  | line :: rest =>
      if starts_with line AT then inr (mkBody ops old_nn new_nn lines i)
      else if str_eqb line NO_NEWLINE then
        match previous with
        | None => inl (NoMarkerTarget (i + 1))
        | Some kind =>
            if kind =? c_dash then hunk_body rest (i + 1) ops true new_nn previous
            else if kind =? c_plus then hunk_body rest (i + 1) ops old_nn true previous
            else hunk_body rest (i + 1) ops true true previous
        end
      else
        match strip_prefix [c_space] line with
        | Some content => hunk_body rest (i + 1) (ops ++ [Context content]) old_nn new_nn (Some c_space)
        | None =>
            match strip_prefix [c_dash] line with
            | Some content => hunk_body rest (i + 1) (ops ++ [Remove content]) old_nn new_nn (Some c_dash)
            | None =>
                match strip_prefix [c_plus] line with
                | Some content => hunk_body rest (i + 1) (ops ++ [Add content]) old_nn new_nn (Some c_plus)
                | None =>
                    if str_eqb line [] && bool_decide (rest = []) then inr (mkBody ops old_nn new_nn lines i)
                    else inl (InvalidPrefix (i + 1) line)
                end
            end
        end
  end.
Definition is_add (op : HunkOperation) : bool := match op with Add _ => true | _ => false end.
Definition is_remove (op : HunkOperation) : bool := match op with Remove _ => true | _ => false end.
Definition parse_single_hunk (header : str) (rest : list str) (i : Z) : PatchError + (Hunk * list str * Z) :=
  match parse_hunk_header header with
  | inl e => inl e
  | inr (old_start, old_count, new_start, new_count) =>
      match hunk_body rest (i + 1) [] false false None with
      | inl e => inl e
      | inr b =>
          let ops := bd_operations b in
          if negb (count_of (List.filter (fun op => negb (is_add op)) ops) =? old_count)
             || negb (count_of (List.filter (fun op => negb (is_remove op)) ops) =? new_count)
          then inl (CountMismatch header)
          else inr (mkHunk old_start old_count new_start new_count ops (bd_old_no_newline b) (bd_new_no_newline b), bd_rest b, bd_next b)
      end
  end.
(** Every round consumes at least one line. *)
Fixpoint parse_from (fuel : nat) (lines : list str) (i : Z) (hunks : list Hunk) : PatchError + list Hunk :=
  match fuel, lines with
  | O, _ | _, [] => inr hunks
  | S fuel, line :: rest =>
      if starts_with line AT then
        match parse_single_hunk line rest i with
        | inl e => inl e
        | inr (hunk, rest, i) => parse_from fuel rest i (hunks ++ [hunk])
        end
      else if negb (bool_decide (hunks = [])) && negb (str_eqb line []) then inl (UnexpectedLine (i + 1) line)
      else parse_from fuel rest (i + 1) hunks
  end.
Definition diff_lines (diff : str) : list str := map strip_cr (split_on c_nl diff).
Definition parse_hunks (diff : str) : PatchError + list Hunk :=
  match parse_from (length (diff_lines diff)) (diff_lines diff) 0 [] with
  | inl e => inl e
  | inr [] => inl NoHunks
  | inr hunks => inr hunks
  end.

(** ** Documents *)
Record TextDocument : Type := mkDocument {
  td_lines : list str;
  td_line_ending : str;
  td_trailing_newline : bool;
}.
(** A line feed that does not follow a carriage return; [after_cr] tells of the byte before. *)
Fixpoint has_bare_lf (after_cr : bool) (s : str) : bool :=
  match s with
  | [] => false
  | c :: s => ((c =? c_nl) && negb after_cr) || has_bare_lf (c =? c_cr) s
  end.
Definition parse_document (content : str) : PatchError + TextDocument :=
  let has_crlf := contains_str content crlf in
  if has_crlf && has_bare_lf false content then inl MixedEndings
  else if contains_char content c_cr && negb has_crlf then inl CrOnlyEndings
  else
    let trailing_newline := ends_with content [c_nl] in
    let lines := if str_eqb content [] then [] else map strip_cr (split_on c_nl content) in
    inr (mkDocument (if trailing_newline then removelast lines else lines) (if has_crlf then crlf else [c_nl]) trailing_newline).

(** ** Applying *)
Definition require_exact_line (lines : list str) (index : Z) (expected kind : str) : option PatchError :=
  match lines !! Z.to_nat index with
  | None => Some (FileEnded kind (index + 1) expected)
  | Some actual => if str_eqb actual expected then None else Some (LineMismatch kind (index + 1) expected actual)
  end.
Fixpoint apply_operations (lines : list str) (ops : list HunkOperation) (source_index : Z) (output : list str)
    : PatchError + (Z * list str) :=
  match ops with
  | [] => inr (source_index, output)
  | Context expected :: ops =>
      match require_exact_line lines source_index expected $"context" with
      | Some e => inl e
      | None => apply_operations lines ops (source_index + 1) (output ++ [expected])
      end
  | Remove expected :: ops =>
      match require_exact_line lines source_index expected $"removal" with
      | Some e => inl e
      | None => apply_operations lines ops (source_index + 1) output
      end
  | Add line :: ops => apply_operations lines ops source_index (output ++ [line])
  end.
(** [usize::saturating_sub(1)]. *)
Definition target (start count : Z) : Z := if count =? 0 then start else Z.max 0 (start - 1).
Record Applying : Type := mkApplying { ap_output : list str; ap_cursor : Z; ap_trailing : bool }.
Definition apply_hunk (document : TextDocument) (a : Applying) (hunk : Hunk) : PatchError + Applying :=
  let old_target := target (hk_old_start hunk) (hk_old_count hunk) in
  let new_target := target (hk_new_start hunk) (hk_new_count hunk) in
  if (old_target <? ap_cursor a) || (count_of (td_lines document) <? old_target) then inl (OutsideSource (hk_old_start hunk))
  else
    let output := ap_output a ++ drop (Z.to_nat (ap_cursor a)) (take (Z.to_nat old_target) (td_lines document)) in
    if negb (count_of output =? new_target) then inl (WrongNewStart (hk_new_start hunk) (count_of output + 1))
    else
      match apply_operations (td_lines document) (hk_operations hunk) old_target output with
      | inl e => inl e
      | inr (cursor, output) =>
          let touches_old_eof := cursor =? count_of (td_lines document) in
          let trailing := if touches_old_eof then
                            if hk_new_no_newline hunk then false else if hk_old_no_newline hunk then true else ap_trailing a
                          else ap_trailing a in
          if hk_old_no_newline hunk && td_trailing_newline document && touches_old_eof then inl HasFinalNewline
          else inr (mkApplying output cursor trailing)
      end.
Fixpoint apply_all (document : TextDocument) (a : Applying) (hunks : list Hunk) : PatchError + Applying :=
  match hunks with
  | [] => inr a
  | hunk :: hunks => match apply_hunk document a hunk with inl e => inl e | inr a => apply_all document a hunks end
  end.
Definition render (lines : list str) (line_ending : str) (trailing_newline : bool) : str :=
  join line_ending lines ++ (if trailing_newline then line_ending else []).
Definition apply_hunks (content : str) (hunks : list Hunk) : PatchError + str :=
  match parse_document content with
  | inl e => inl e
  | inr document =>
      match apply_all document (mkApplying [] 0 (td_trailing_newline document)) hunks with
      | inl e => inl e
      | inr a =>
          inr (render (ap_output a ++ drop (Z.to_nat (ap_cursor a)) (td_lines document)) (td_line_ending document) (ap_trailing a))
      end
  end.
