(* ===== verification/PatchFacts.v ===== *)
(** What a patch does: an accepted patch replaces exactly the lines its hunks name at the
    places they name, and the unified diff of any edit of a file, as text, turns the file
    into the edited one. *)
From stdpp Require Import gmap.
From S2P Require Import Prelude Text LineEdit LineEditFacts Patch.

(** ** The two sides of a hunk *)
Definition old_line (op : HunkOperation) : option str := match op with Context l | Remove l => Some l | Add _ => None end.
Definition new_line (op : HunkOperation) : option str := match op with Context l | Add l => Some l | Remove _ => None end.
Definition old_side (ops : list HunkOperation) : list str := omap old_line ops.
Definition new_side (ops : list HunkOperation) : list str := omap new_line ops.

Lemma require_exact_None lines i expected kind : 0 <= i ->
  require_exact_line lines i expected kind = None <-> exists rest, drop (Z.to_nat i) lines = expected :: rest.
Proof.
  intros Hi. unfold require_exact_line. destruct (lines !! Z.to_nat i) as [actual|] eqn:E.
  - rewrite (drop_S _ _ _ E). destruct (str_eqb actual expected) eqn:Es.
    + apply str_eqb_spec in Es as ->. naive_solver.
    + apply str_eqb_ne in Es. split; [done|]. intros [rest [= -> _]]. done.
  - split; [done|]. intros [rest H]. apply lookup_ge_None in E. rewrite drop_ge in H by done. done.
Qed.
Lemma drop_next {A} (lines : list A) i x rest : 0 <= i -> drop (Z.to_nat i) lines = x :: rest -> drop (Z.to_nat (i + 1)) lines = rest.
Proof.
  intros Hi H. replace (Z.to_nat (i + 1)) with (Z.to_nat i + 1)%nat by lia. by rewrite <- drop_drop, H.
Qed.
(** Operations succeed exactly when their old side stands at the place. *)
Lemma apply_operations_spec lines ops i output result : 0 <= i ->
  apply_operations lines ops i output = inr result <->
  (exists rest, drop (Z.to_nat i) lines = old_side ops ++ rest) /\ result = (i + count_of (old_side ops), output ++ new_side ops).
Proof.
  assert (Htake : forall l kind ops i output next, 0 <= i ->
    (forall rest, drop (Z.to_nat i) lines = l :: rest -> apply_operations lines ops (i + 1) next = inr result <->
       (exists rest, drop (Z.to_nat (i + 1)) lines = old_side ops ++ rest) /\ result = (i + 1 + count_of (old_side ops), output)) ->
    match require_exact_line lines i l kind with
    | Some e => inl e
    | None => apply_operations lines ops (i + 1) next
    end = inr result <->
    (exists rest, drop (Z.to_nat i) lines = l :: old_side ops ++ rest) /\ result = (i + count_of (l :: old_side ops), output)).
  { clear ops i output. intros l kind ops i output next Hi Hrec. destruct (require_exact_line lines i l kind) eqn:E.
    - split; [done|]. intros [[rest Hr] _]. assert (require_exact_line lines i l kind = None) by (apply require_exact_None; eauto). congruence.
    - apply require_exact_None in E as [rest E]; [|done]. rewrite (Hrec _ E), (drop_next _ _ _ _ Hi E), E.
      replace (i + count_of (l :: old_side ops)) with (i + 1 + count_of (old_side ops)) by (unfold count_of; cbn [length]; lia).
      naive_solver. }
  revert i output. induction ops as [|op ops IH]; intros i output Hi; cbn [apply_operations].
  { cbn. rewrite app_nil_r. unfold count_of. cbn. rewrite Z.add_0_r. split; [intros [= <-]; eauto|by intros [_ ->]]. }
  destruct op as [l|l|l].
  - replace (output ++ new_side (Context l :: ops)) with ((output ++ [l]) ++ new_side ops) by (by rewrite <- app_assoc).
    apply (Htake l); [done|]. intros rest Hrest. apply IH. lia.
  - apply (Htake l); [done|]. intros rest Hrest. apply IH. lia.
  - rewrite IH by done. cbn. by rewrite <- app_assoc.
Qed.

(** ** What a list of hunks says of a file *)
(** The final newline after a hunk that reaches the end of the file. *)
Definition newline_after (h : Hunk) (newline : bool) : bool :=
  if hk_new_no_newline h then false else if hk_old_no_newline h then true else newline.
(** [patched src_newline o n newline src hunks dst newline'] reads: after [o] lines of the
    file and [n] lines of the result, the hunks turn the lines [src] that are left into
    [dst]. Each hunk copies the lines up to its place, which is the same number of lines
    further in the file and in the result, and then replaces its old side by its new
    side. *)
Inductive patched (src_newline : bool) : Z -> Z -> bool -> list str -> list Hunk -> list str -> bool -> Prop :=
| patched_rest o n newline src : patched src_newline o n newline src [] src newline
| patched_hunk o n newline h gap src hunks dst newline' :
    target (hk_old_start h) (hk_old_count h) = o + count_of gap ->
    target (hk_new_start h) (hk_new_count h) = n + count_of gap ->
    (hk_old_no_newline h = true -> src_newline = true -> src <> []) ->
    patched src_newline (o + count_of gap + count_of (old_side (hk_operations h))) (n + count_of gap + count_of (new_side (hk_operations h)))
      (if decide (src = []) then newline_after h newline else newline) src hunks dst newline' ->
    patched src_newline o n newline (gap ++ old_side (hk_operations h) ++ src) (h :: hunks)
      (gap ++ new_side (hk_operations h) ++ dst) newline'.

Lemma count_of_app {A} (l m : list A) : count_of (l ++ m) = count_of l + count_of m.
Proof. unfold count_of. rewrite length_app. lia. Qed.
Lemma count_of_nonneg {A} (l : list A) : 0 <= count_of l.
Proof. unfold count_of. lia. Qed.
Lemma drop_nil_iff {A} (l : list A) (i : Z) : 0 <= i <= count_of l -> (i =? count_of l) = bool_decide (drop (Z.to_nat i) l = []).
Proof.
  unfold count_of. intros Hi. apply eq_bool_prop_intro. rewrite !Is_true_true, Z.eqb_eq, bool_decide_eq_true. split.
  - intros ->. rewrite Nat2Z.id. by apply drop_ge.
  - intros H. apply (f_equal length) in H. rewrite length_drop in H. cbn in H. lia.
Qed.
Lemma drop_after {A} (lines a b : list A) (i : Z) : 0 <= i -> drop (Z.to_nat i) lines = a ++ b -> drop (Z.to_nat (i + count_of a)) lines = b.
Proof.
  intros Hi H. unfold count_of. replace (Z.to_nat (i + Z.of_nat (length a))) with (Z.to_nat i + length a)%nat by lia.
  rewrite <- drop_drop, H. by apply drop_app_length.
Qed.
Lemma drop_len {A} (lines rest : list A) (i : Z) : 0 <= i <= count_of lines -> drop (Z.to_nat i) lines = rest -> count_of lines = i + count_of rest.
Proof. intros Hi <-. revert Hi. unfold count_of. rewrite length_drop. lia. Qed.
Lemma gap_take {A} (lines gap rest : list A) (i : Z) : 0 <= i ->
  drop (Z.to_nat i) lines = gap ++ rest -> drop (Z.to_nat i) (take (Z.to_nat (i + count_of gap)) lines) = gap.
Proof.
  intros Hi H. unfold count_of. replace (Z.to_nat (i + Z.of_nat (length gap))) with (Z.to_nat i + length gap)%nat by lia.
  rewrite <- take_drop_commute, H. apply take_app_length.
Qed.

Section Steps.
Context (d : TextDocument).

(** One hunk, on both answers: it is accepted exactly when the lines left of the file are a
    gap, its old side and a rest, with the gap leading to its two places. *)
Lemma apply_hunk_spec a h a' : 0 <= ap_cursor a <= count_of (td_lines d) ->
  apply_hunk d a h = inr a' <->
  exists gap src, drop (Z.to_nat (ap_cursor a)) (td_lines d) = gap ++ old_side (hk_operations h) ++ src
    /\ target (hk_old_start h) (hk_old_count h) = ap_cursor a + count_of gap
    /\ target (hk_new_start h) (hk_new_count h) = count_of (ap_output a) + count_of gap
    /\ (hk_old_no_newline h = true -> td_trailing_newline d = true -> src <> [])
    /\ a' = mkApplying (ap_output a ++ gap ++ new_side (hk_operations h)) (ap_cursor a + count_of gap + count_of (old_side (hk_operations h)))
              (if decide (src = []) then newline_after h (ap_trailing a) else ap_trailing a).
Proof.
  destruct a as [output cursor trailing]. cbn [ap_cursor ap_output ap_trailing]. intros Hc. unfold apply_hunk. cbn [ap_cursor ap_output ap_trailing].
  set (t := target (hk_old_start h) (hk_old_count h)). set (t' := target (hk_new_start h) (hk_new_count h)).
  set (rest := drop (Z.to_nat cursor) (td_lines d)). pose proof (drop_len _ rest _ Hc eq_refl) as Hrest.
  destruct ((t <? cursor) || (count_of (td_lines d) <? t)) eqn:Eout.
  { split; [done|]. intros (gap & src & E & Ht & _). rewrite E, !count_of_app in Hrest.
    pose proof (count_of_nonneg gap). pose proof (count_of_nonneg src). pose proof (count_of_nonneg (old_side (hk_operations h))).
    apply orb_true_iff in Eout as [Eout|Eout]; apply Z.ltb_lt in Eout; lia. }
  apply orb_false_iff in Eout as [Elo Ehi]. apply Z.ltb_ge in Elo, Ehi.
  set (gap0 := drop (Z.to_nat cursor) (take (Z.to_nat t) (td_lines d))).
  assert (rest = gap0 ++ drop (Z.to_nat t) (td_lines d) /\ t = cursor + count_of gap0) as [Hsplit Ht0].
  { subst rest gap0. split.
    - rewrite <- (take_drop (Z.to_nat t) (td_lines d)) at 1. rewrite drop_app_le; [done|]. rewrite length_take. unfold count_of in *. lia.
    - unfold count_of in *. rewrite length_drop, length_take. lia. }
  assert (Huniq : forall gap tail, rest = gap ++ tail -> t = cursor + count_of gap -> gap = gap0 /\ tail = drop (Z.to_nat t) (td_lines d)).
  { intros gap tail E Ht. rewrite Hsplit in E. apply app_inj_1 in E as [<- <-]; [done|]. unfold count_of in *. lia. }
  destruct (negb (count_of (output ++ gap0) =? t')) eqn:Enew.
  { split; [done|]. intros (gap & src & E & Ht & Ht' & _). apply Huniq in E as [-> _]; [|done].
    apply negb_true_iff, Z.eqb_neq in Enew. rewrite count_of_app in Enew. lia. }
  apply negb_false_iff, Z.eqb_eq in Enew. rewrite count_of_app in Enew.
  destruct (apply_operations (td_lines d) (hk_operations h) t (output ++ gap0)) as [e|[cursor' output']] eqn:Eops.
  { split; [done|]. intros (gap & src & E & Ht & _). apply Huniq in E as [-> E]; [|done].
    assert (apply_operations (td_lines d) (hk_operations h) t (output ++ gap0) = inr (t + count_of (old_side (hk_operations h)), (output ++ gap0) ++ new_side (hk_operations h))) as E'
      by (apply apply_operations_spec; [lia|eauto]). congruence. }
  apply apply_operations_spec in Eops as [[src Hsrc] [= -> ->]]; [|lia].
  pose proof (drop_after _ _ _ t ltac:(lia) Hsrc) as Hafter.
  assert (Hend : t + count_of (old_side (hk_operations h)) <= count_of (td_lines d)).
  { rewrite Hrest, Hsplit, Hsrc, !count_of_app. pose proof (count_of_nonneg src). lia. }
  rewrite drop_nil_iff by (pose proof (count_of_nonneg (old_side (hk_operations h))); lia). rewrite Hafter.
  rewrite Hsrc in Hsplit, Huniq. rewrite <- app_assoc. fold (newline_after h trailing).
  transitivity ((hk_old_no_newline h = true -> td_trailing_newline d = true -> src <> []) /\
    a' = mkApplying (output ++ gap0 ++ new_side (hk_operations h)) (cursor + count_of gap0 + count_of (old_side (hk_operations h)))
           (if decide (src = []) then newline_after h trailing else trailing)).
  - rewrite <- Ht0, bool_decide_decide.
    destruct (hk_old_no_newline h), (td_trailing_newline d), (decide (src = [])); cbn [andb]; naive_solver.
  - split.
    + intros [Hnl ->]. exists gap0, src. auto.
    + intros (gap & src' & E & Ht & _ & Hnl & ->). apply Huniq in E as [-> E]; [|done]. apply app_inv_head in E as ->. done.
Qed.

Lemma advance {A} (lines gap old src : list A) (cursor : Z) : 0 <= cursor <= count_of lines ->
  drop (Z.to_nat cursor) lines = gap ++ old ++ src ->
  0 <= cursor + count_of gap + count_of old <= count_of lines /\ drop (Z.to_nat (cursor + count_of gap + count_of old)) lines = src.
Proof.
  intros Hc H. pose proof (drop_len _ _ _ Hc H) as Hlen. rewrite !count_of_app in Hlen.
  pose proof (count_of_nonneg gap). pose proof (count_of_nonneg src). pose proof (count_of_nonneg old).
  split; [lia|]. apply (drop_after _ old src); [lia|]. apply (drop_after _ gap); [lia|done].
Qed.
Lemma apply_all_spec hunks a lines newline : 0 <= ap_cursor a <= count_of (td_lines d) ->
  (exists a', apply_all d a hunks = inr a' /\ lines = ap_output a' ++ drop (Z.to_nat (ap_cursor a')) (td_lines d) /\ newline = ap_trailing a') <->
  exists dst, lines = ap_output a ++ dst /\
    patched (td_trailing_newline d) (ap_cursor a) (count_of (ap_output a)) (ap_trailing a) (drop (Z.to_nat (ap_cursor a)) (td_lines d)) hunks dst newline.
Proof.
  revert a. induction hunks as [|h hunks IH]; intros a Ha; cbn [apply_all].
  { split.
    - intros (a' & [= <-] & -> & ->). eexists. split; [done|constructor].
    - intros (dst & -> & H). inversion H; subst. eauto. }
  split.
  - intros (a' & Hrun & Hl & Hn). destruct (apply_hunk d a h) as [e|b] eqn:E; [done|].
    apply apply_hunk_spec in E as (gap & src & Hsrc & Ho & Hnew & Hnl & ->); [|done].
    destruct (advance _ _ _ _ _ Ha Hsrc) as [Hb Hafter].
    match type of Hrun with apply_all _ ?b _ = _ => destruct (proj1 (IH b Hb)) as (dst & -> & Hp); [by eauto|] end. cbn [ap_cursor ap_output ap_trailing] in Hp |- *.
    exists (gap ++ new_side (hk_operations h) ++ dst). split; [by rewrite <- !app_assoc|]. rewrite Hsrc. constructor; [done..|].
    rewrite Hafter, !count_of_app, Z.add_assoc in Hp. exact Hp.
  - intros (dst & -> & Hp). inversion Hp as [|o n nl h' gap src hs dst' nl' Ho Hnew Hnl Hp' E1 E2 E3 Hsrc E4 E5 E6]; subst.
    destruct (advance _ _ _ _ _ Ha (eq_sym Hsrc)) as [Hb Hafter].
    set (b := mkApplying (ap_output a ++ gap ++ new_side (hk_operations h)) (ap_cursor a + count_of gap + count_of (old_side (hk_operations h)))
                (if decide (src = []) then newline_after h (ap_trailing a) else ap_trailing a)).
    assert (apply_hunk d a h = inr b) as -> by (apply apply_hunk_spec; [done|]; exists gap, src; by split_and!).
    apply (IH b); [done|]. exists dst'. split; [by cbn; rewrite <- !app_assoc|]. cbn [b ap_cursor ap_output ap_trailing].
    by rewrite Hafter, !count_of_app, Z.add_assoc.
Qed.
End Steps.

Lemma apply_hunks_spec content hunks out :
  apply_hunks content hunks = inr out <->
  exists d dst newline, parse_document content = inr d /\
    patched (td_trailing_newline d) 0 0 (td_trailing_newline d) (td_lines d) hunks dst newline /\
    out = render dst (td_line_ending d) newline.
Proof.
  unfold apply_hunks. destruct (parse_document content) as [e|d]; [naive_solver|].
  pose proof (fun lines newline => apply_all_spec d hunks (mkApplying [] 0 (td_trailing_newline d)) lines newline) as H.
  cbn [ap_cursor ap_output ap_trailing] in H. change (drop (Z.to_nat 0) (td_lines d)) with (td_lines d) in H.
  specialize (fun lines newline => H lines newline (conj (Z.le_refl 0) (count_of_nonneg _))).
  split.
  - destruct (apply_all d _ hunks) as [e|a] eqn:E; [done|]. intros [= <-].
    destruct (proj1 (H (ap_output a ++ drop (Z.to_nat (ap_cursor a)) (td_lines d)) (ap_trailing a))) as (dst & Hl & Hp); [by eauto|]. exists d, dst, (ap_trailing a). split_and!; [done..|]. by rewrite Hl.
  - intros (d' & dst & newline & [= <-] & Hp & ->). destruct (proj2 (H dst newline)) as (a & -> & <- & <-); [|done]. by exists dst.
Qed.

(** C33. A patch is accepted exactly when its hunks describe the lines of the file: the file
    is read into lines, a line ending and whether it has a final newline, and from top to
    bottom each hunk stands at its two line numbers, the lines between hunks are kept, its
    old side is what the file has there, and a hunk that reaches the end of the file does not
    deny a final newline the file has (of other hunks the claim is not looked at). The result
    is then the lines with every old side replaced by its new side, printed in the line
    ending of the file, with the final newline the last hunk at the end asks for or else that
    of the file; in every other case the patch is refused. What reading and printing do not
    keep is in [final_cr_is_lost] and [emptied_file_keeps_a_line]. *)
Theorem patch_is_exact content hunks out :
  apply_hunks content hunks = inr out <->
  exists d dst newline, parse_document content = inr d /\
    patched (td_trailing_newline d) 0 0 (td_trailing_newline d) (td_lines d) hunks dst newline /\
    out = render dst (td_line_ending d) newline.
Proof. apply apply_hunks_spec. Qed.
