(* ===== verification/PatchDiff.v ===== *)
(** The unified diff of an edit, as text: a file of clean lines cut into kept runs and
    edited runs, the diff that describes the cut, and the proof that the patch tool reads
    that text back and turns the file into the edited one. *)
From stdpp Require Import gmap.
From S2P Require Import Prelude Text LineEdit LineEditFacts Patch PatchFacts.

(** ** Numbers *)
Lemma fold_digits_acc d acc :
  fold_left (fun n c => 10 * n + (c - 48)) (uint_str d) (Z.pos acc) = Z.pos (Pos.of_uint_acc d acc).
Proof. revert acc. induction d as [|d IH|d IH|d IH|d IH|d IH|d IH|d IH|d IH|d IH|d IH]; intros acc; [done|..]; cbn [uint_str fold_left Pos.of_uint_acc]; rewrite <- IH; f_equal; lia. Qed.
Lemma fold_digits d : fold_left (fun n c => 10 * n + (c - 48)) (uint_str d) 0 = Z.of_N (Pos.of_uint d).
Proof. induction d; [done|done|..]; cbn [uint_str fold_left Pos.of_uint Z.of_N]; by rewrite <- fold_digits_acc. Qed.
Lemma show_nonempty n : show n <> [].
Proof.
  unfold show. intros H. apply (uint_str_inj _ Decimal.Nil) in H. destruct (Z.to_N n) as [|p]; [done|].
  apply (DecimalPos.Unsigned.to_uint_nonnil p). exact H.
Qed.
Lemma parse_decimal_show n : 0 <= n -> parse_decimal (show n) = Some n.
Proof.
  intros Hn. unfold parse_decimal. destruct (show n) as [|c s] eqn:E; [by destruct (show_nonempty n)|]. rewrite <- E.
  assert (forallb is_ascii_digit (show n) = true) as ->.
  { apply forallb_forall. intros x Hx. pose proof (proj1 (List.Forall_forall _ _) (show_digits n) x Hx) as H. cbn in H.
    unfold is_ascii_digit, in_range. apply andb_true_iff. rewrite !Z.leb_le. lia. }
  f_equal. unfold show. rewrite fold_digits. fold (N.of_uint (N.to_uint (Z.to_N n))). rewrite DecimalN.Unsigned.of_to. lia.
Qed.
Lemma show_absent n c : c < 48 \/ 57 < c -> ~ In c (show n).
Proof. intros Hc H. apply (proj1 (List.Forall_forall _ _) (show_digits n)) in H. cbn in H. lia. Qed.
Lemma parse_usize_show n : 0 <= n <= u64_max -> parse_usize (show n) = Some n.
Proof.
  intros Hn. unfold parse_usize. assert (strip_prefix [c_plus] (show n) = None) as ->.
  { destruct (strip_prefix [c_plus] (show n)) eqn:E; [|done]. apply strip_prefix_Some in E.
    destruct (show_absent n c_plus); [by left|]. rewrite E. by left. }
  cbn [default]. rewrite parse_decimal_show by lia. cbn. by rewrite (proj2 (Z.leb_le _ _)) by lia.
Qed.

(** ** Hunk headers *)
Ltac flatten_text := repeat (cbn [app] || rewrite <- app_assoc).
Definition range (sign : char) (start count : Z) : str := sign :: show start ++ c_comma :: show count.
Definition header (old_start old_count new_start new_count : Z) : str :=
  AT ++ c_space :: range c_dash old_start old_count ++ c_space :: range c_plus new_start new_count ++ c_space :: AT.

Lemma find_str_fresh c needle before after : ~ In c before -> find_str (c :: needle) (before ++ c :: needle ++ after) = Some (before, after).
Proof.
  induction before as [|x before IH]; intros H.
  - cbn [app]. change (c :: needle ++ after) with ((c :: needle) ++ after).
    destruct ((c :: needle) ++ after) eqn:E; [done|]. cbn [find_str]. by rewrite <- E, strip_prefix_app.
  - cbn [app find_str]. rewrite strip_prefix_head by (intros ->; apply H; by left). rewrite IH; [done|]. intros ?. apply H. by right.
Qed.
Lemma range_absent sign start count c : c <> sign -> c <> c_comma -> c < 48 \/ 57 < c -> ~ In c (range sign start count).
Proof.
  intros Hs Hc Hd. unfold range. cbn [In]. rewrite in_app_iff. cbn [In].
  intros [H|[H|[H|H]]]; [congruence| |congruence|]; exact (show_absent _ _ Hd H).
Qed.
Lemma show_inked n : inked (show n).
Proof.
  eapply List.Forall_impl; [|apply show_digits]. cbn. intros c Hc.
  assert (c = 48 \/ c = 49 \/ c = 50 \/ c = 51 \/ c = 52 \/ c = 53 \/ c = 54 \/ c = 55 \/ c = 56 \/ c = 57) as Hd by lia.
  repeat destruct Hd as [->|Hd]; try done. by subst.
Qed.
Lemma range_inked sign start count : is_whitespace sign = false -> inked (range sign start count).
Proof. intros Hs. constructor; [done|]. apply Forall_app. split; [apply show_inked|]. constructor; [done|apply show_inked]. Qed.
Lemma split_whitespace_pair a b : inked a -> a <> [] -> split_whitespace (a ++ c_space :: b) = a :: split_whitespace b.
Proof.
  intros Ha Hne. unfold split_whitespace.
  assert (H : forall w, inked a -> w ++ a <> [] -> split_ws (rev w) (a ++ c_space :: b) = (w ++ a) :: split_ws [] b).
  { clear Ha Hne. induction a as [|c a IH]; intros w Ha Hne; cbn [app split_ws].
    - rewrite app_nil_r in *. change (is_whitespace c_space) with true. cbv iota.
      destruct (rev w) as [|x r] eqn:E; [by apply (f_equal (@rev Z)) in E; rewrite rev_involutive in E|]. by rewrite <- E, rev_involutive.
    - inversion_clear Ha as [|? ? Hc Ha']. rewrite Hc. specialize (IH (w ++ [c])). rewrite rev_app_distr, <- !app_assoc in IH.
      apply IH; [done|]. by destruct w. }
  by apply (H []).
Qed.
Lemma split_header_ranges sign start count sign' start' count' :
  is_whitespace sign = false -> is_whitespace sign' = false ->
  split_whitespace (trim (c_space :: range sign start count ++ c_space :: range sign' start' count' ++ [c_space]))
  = [range sign start count; range sign' start' count'].
Proof.
  intros Hs Hs'. pose proof (show_inked count') as Hk.
  destruct (show count') as [|d s _] eqn:E using rev_ind; [by destruct (show_nonempty count')|].
  apply Forall_app in Hk as [_ Hd]. inversion_clear Hd as [|? ? Hd' _].
  transitivity (split_whitespace (range sign start count ++ c_space :: range sign' start' count')).
  - f_equal. unfold range at 2 3. rewrite E.
    set (mid := show start ++ c_comma :: show count ++ c_space :: sign' :: show start' ++ c_comma :: s).
    replace (c_space :: range sign start count ++ c_space :: (sign' :: show start' ++ c_comma :: s ++ [d]) ++ [c_space])
      with ([c_space] ++ (sign :: mid ++ [d]) ++ [c_space])
      by (unfold range, mid; flatten_text; done).
    rewrite trim_framed by (done || by repeat constructor).
    unfold range, mid. rewrite E. by flatten_text.
  - rewrite split_whitespace_pair by (done || by apply range_inked). by rewrite split_whitespace_word by (done || by apply range_inked).
Qed.
Lemma parse_range_show sign start count text : 0 <= start <= u64_max -> 0 <= count <= u64_max ->
  parse_hunk_range (range sign start count) sign text = inr (start, count).
Proof.
  intros Hs Hc. unfold parse_hunk_range, range. change (sign :: show start ++ c_comma :: show count) with ([sign] ++ (show start ++ c_comma :: show count)).
  rewrite strip_prefix_app. unfold split_once. rewrite find_str_char by (apply show_absent; by left).
  change (default $"1" (Some (show count))) with (show count). by rewrite !parse_usize_show by done.
Qed.
Lemma parse_header a b c d : 0 <= a <= u64_max -> 0 <= b <= u64_max -> 0 <= c <= u64_max -> 0 <= d <= u64_max ->
  parse_hunk_header (header a b c d) = inr (a, b, c, d).
Proof.
  intros Ha Hb Hc Hd. unfold parse_hunk_header, header. rewrite strip_prefix_app. cbn [mbind option_bind].
  replace (c_space :: range c_dash a b ++ c_space :: range c_plus c d ++ c_space :: AT)
    with ((c_space :: range c_dash a b ++ c_space :: range c_plus c d ++ [c_space]) ++ c_at :: [c_at] ++ [])
    by (flatten_text; done).
  unfold AT. change ($"@@") with (c_at :: [c_at]). rewrite find_str_fresh.
  - rewrite split_header_ranges by done. by rewrite !parse_range_show.
  - intros H. cbn [In] in H. destruct H as [H|H]; [done|]. rewrite !in_app_iff in H. cbn [In] in H. rewrite in_app_iff in H. cbn [In] in H.
    destruct H as [H|[H|[H|[H|H]]]]; try done; revert H; apply range_absent; try done; by right.
Qed.

(** ** Files of clean lines *)
Definition clean (l : str) : Prop := ~ In c_nl l /\ ~ In c_cr l.
(** The lines and the final newline are those of some file: a file without a final newline
    does not end in an empty line, and a file with one has a line. *)
Definition whole (ls : list str) (newline : bool) : Prop := if newline then ls <> [] else list.last ls <> Some [].
(** The ending of a file: a carriage return is only seen where a line ends. *)
Definition ending (eol : str) (ls : list str) (newline : bool) : Prop :=
  eol = [c_nl] \/ eol = crlf /\ (newline = true /\ ls <> [] \/ (1 < length ls)%nat).

Lemma strip_cr_clean l : ~ In c_cr l -> strip_cr l = l.
Proof.
  intros H. unfold strip_cr. destruct (strip_suffix [c_cr] l) eqn:E; [|done]. apply strip_suffix_Some in E. subst l.
  destruct H. apply in_snoc. by right.
Qed.
Lemma strip_cr_snoc l : strip_cr (l ++ [c_cr]) = l.
Proof.
  unfold strip_cr. destruct (strip_suffix [c_cr] (l ++ [c_cr])) as [r|] eqn:E.
  - apply strip_suffix_Some in E. by apply app_inj_tail in E as [-> _].
  - assert (strip_suffix [c_cr] (l ++ [c_cr]) = Some l) by by apply strip_suffix_Some. congruence.
Qed.
Lemma ends_with_other s c d : c <> d -> ends_with (s ++ [d]) [c] = false.
Proof.
  intros H. unfold ends_with. destruct (strip_suffix [c] (s ++ [d])) as [r|] eqn:E; [|done].
  apply strip_suffix_Some, app_inj_tail in E as [_ E]. congruence.
Qed.
Lemma render_cons l ls eol newline : ls <> [] -> render (l :: ls) eol newline = l ++ eol ++ render ls eol newline.
Proof. intros H. unfold render. rewrite join_cons by done. by rewrite <- !app_assoc. Qed.
Lemma split_line eol l rest : eol = [c_nl] \/ eol = crlf -> clean l ->
  map strip_cr (split_on c_nl (l ++ eol ++ rest)) = l :: map strip_cr (split_on c_nl rest).
Proof.
  intros [->| ->] [Hn Hc].
  - cbn [app]. rewrite split_on_field by done. cbn [map]. by rewrite strip_cr_clean.
  - change (l ++ crlf ++ rest) with (l ++ ([c_cr] ++ c_nl :: rest)). rewrite app_assoc, split_on_field.
    + cbn [map]. by rewrite strip_cr_snoc.
    + rewrite in_snoc. by intros [?|?].
Qed.
Lemma split_render eol ls newline : eol = [c_nl] \/ eol = crlf -> Forall clean ls -> ls <> [] ->
  map strip_cr (split_on c_nl (render ls eol newline)) = ls ++ (if newline then [[]] else []).
Proof.
  intros He Hc. induction Hc as [|l ls Hl Hls IH]; intros Hne; [done|]. destruct ls as [|l' ls].
  - unfold render. cbn [join]. destruct newline.
    + rewrite <- (app_nil_r eol), split_line by done. done.
    + rewrite app_nil_r, split_on_last by apply Hl. cbn. by rewrite strip_cr_clean by apply Hl.
  - rewrite render_cons, split_line by done. by rewrite IH.
Qed.
Lemma ends_render eol ls newline : eol = [c_nl] \/ eol = crlf -> Forall clean ls -> whole ls newline ->
  ends_with (render ls eol newline) [c_nl] = newline.
Proof.
  intros He Hc Hw. unfold render. destruct newline.
  - destruct He as [->| ->]; [apply ends_with_snoc|]. change crlf with ([c_cr] ++ [c_nl]) at 2. rewrite app_assoc. apply ends_with_snoc.
  - rewrite app_nil_r. destruct ls as [|l ls _] using rev_ind; [done|]. cbn in Hw. rewrite last_snoc in Hw.
    destruct l as [|d l _] using rev_ind; [done|]. apply Forall_app in Hc as [_ Hl]. inversion_clear Hl as [|? ? [Hn _] _].
    assert (exists s, join eol (ls ++ [l ++ [d]]) = s ++ [d]) as [s ->].
    { clear. induction ls as [|x ls [s IH]]; [by exists l|]. cbn [app]. rewrite join_cons by (by destruct ls). rewrite IH, !app_assoc. eauto. }
    apply ends_with_other. intros Ed. subst d. apply Hn, in_snoc. by right.
Qed.
Lemma contains_str_mid a p b : contains_str (a ++ p ++ b) p = true.
Proof.
  induction a as [|c a IH].
  - cbn [app]. destruct (p ++ b) eqn:E; cbn [contains_str]; apply orb_true_iff; left; rewrite <- ?E; apply starts_with_spec; [by exists []; destruct p|eauto].
  - cbn [app contains_str]. by rewrite IH, orb_true_r.
Qed.
Lemma contains_str_head s c p : ~ In c s -> contains_str s (c :: p) = false.
Proof.
  induction s as [|x s IH]; intros H; [done|]. cbn [contains_str]. rewrite IH by (intros ?; apply H; by right).
  unfold starts_with. rewrite strip_prefix_head by (intros ->; apply H; by left). done.
Qed.
Lemma bare_lf_clean after_cr l : ~ In c_nl l -> has_bare_lf after_cr l = false.
Proof.
  revert after_cr. induction l as [|c l IH]; intros b H; [done|]. cbn [has_bare_lf]. rewrite IH by (intros ?; apply H; by right).
  by rewrite (proj2 (Z.eqb_neq c c_nl)) by (intros ->; apply H; by left).
Qed.
Lemma bare_lf_line after_cr l rest : ~ In c_nl l -> has_bare_lf after_cr (l ++ crlf ++ rest) = has_bare_lf false rest.
Proof.
  revert after_cr. induction l as [|c l IH]; intros b H; [by cbn|]. cbn [app has_bare_lf]. rewrite IH by (intros ?; apply H; by right).
  by rewrite (proj2 (Z.eqb_neq c c_nl)) by (intros ->; apply H; by left).
Qed.
Lemma bare_lf_render ls newline : Forall clean ls -> (ls = [] -> newline = false) -> has_bare_lf false (render ls crlf newline) = false.
Proof.
  intros Hc Hnl. destruct ls as [|l0 ls0]; [by rewrite Hnl|]. clear Hnl. revert l0 Hc.
  induction ls0 as [|l' ls IH]; intros l Hc; inversion_clear Hc as [|? ? [Hn _] Hls].
  - unfold render. cbn [join]. destruct newline.
    + rewrite <- (app_nil_r crlf), bare_lf_line by done. done.
    + rewrite app_nil_r. by apply bare_lf_clean.
  - rewrite render_cons, bare_lf_line by done. by apply IH.
Qed.
Lemma render_lf_no_cr ls newline : Forall clean ls -> ~ In c_cr (render ls [c_nl] newline).
Proof.
  intros Hc. unfold render. rewrite in_app_iff. intros [H|H].
  - induction Hc as [|l ls [_ Hl] Hls IH]; [done|]. destruct ls as [|l' ls]; [done|]. rewrite join_cons in H by done.
    rewrite !in_app_iff in H. destruct H as [H|[[H|[]]|H]]; [done|done|by apply IH].
  - by destruct newline; [destruct H as [H|[]]|].
Qed.
Lemma render_nil_iff ls eol newline : whole ls newline -> eol <> [] -> render ls eol newline = [] <-> ls = [].
Proof.
  intros Hw He. unfold render, whole in *. split; [|by intros ->; destruct newline].
  destruct newline; [by intros [_ ?]%app_eq_nil|]. rewrite app_nil_r.
  destruct ls as [|l [|l' ls]]; [done|cbn in *; congruence|]. rewrite join_cons by done. by intros [_ [? _]%app_eq_nil]%app_eq_nil.
Qed.
(** Reading a file back. *)
Lemma parse_rendered eol ls newline : Forall clean ls -> whole ls newline -> ending eol ls newline ->
  parse_document (render ls eol newline) = inr (mkDocument ls eol newline).
Proof.
  intros Hc Hw He. assert (Heol : eol = [c_nl] \/ eol = crlf) by (destruct He as [?|[? _]]; auto).
  unfold parse_document.
  assert (contains_str (render ls eol newline) crlf = bool_decide (eol = crlf)) as ->.
  { destruct He as [->|[-> He]].
    - rewrite bool_decide_false by done. by apply contains_str_head, render_lf_no_cr.
    - rewrite bool_decide_true by done. destruct ls as [|l [|l' ls]]; [destruct He as [[_ ?]|?]; [done|cbn in *; lia]| |].
      + destruct He as [[-> _]|He]; [|cbn in He; lia]. unfold render. cbn [join]. rewrite <- (app_nil_r crlf) at 1. apply contains_str_mid.
      + rewrite render_cons by done. apply contains_str_mid. }
  assert (bool_decide (eol = crlf) && has_bare_lf false (render ls eol newline) = false) as ->.
  { case_bool_decide as Ee; [|done]. subst eol. cbn [andb]. apply bare_lf_render; [done|]. intros ->. destruct He as [?|[_ [[_ ?]|?]]]; [done|done|cbn in *; lia]. }
  assert (contains_char (render ls eol newline) c_cr && negb (bool_decide (eol = crlf)) = false) as ->.
  { destruct Heol as [->| ->]; [|by rewrite andb_comm]. by rewrite contains_char_false by by apply render_lf_no_cr. }
  rewrite ends_render by done. f_equal. f_equal; [|by destruct Heol as [->| ->]].
  destruct (str_eqb (render ls eol newline) []) eqn:E.
  - apply str_eqb_spec, render_nil_iff in E as ->; [|done|by destruct Heol as [->| ->]]. by destruct newline.
  - apply str_eqb_ne in E. rewrite render_nil_iff in E by (done || by destruct Heol as [->| ->]).
    rewrite split_render by done. destruct newline; [by rewrite removelast_last|by rewrite app_nil_r].
Qed.

(** ** Edits and their diffs *)
(** An edit of a file: runs of kept lines, each followed by the operations of one hunk, and
    the lines kept after the last. *)
Definition Script : Type := list (list str * list HunkOperation).
Definition before_edit (script : Script) (rest : list str) : list str :=
  foldr (fun '(gap, ops) tail => gap ++ old_side ops ++ tail) rest script.
Definition after_edit (script : Script) (rest : list str) : list str :=
  foldr (fun '(gap, ops) tail => gap ++ new_side ops ++ tail) rest script.
Definition start_of (position count : Z) : Z := if count =? 0 then position else position + 1.
Fixpoint hunks_of (o n : Z) (script : Script) : list Hunk :=
  match script with
  | [] => []
  | (gap, ops) :: script =>
      let o := o + count_of gap in
      let n := n + count_of gap in
      let olds := count_of (old_side ops) in
      let news := count_of (new_side ops) in
      mkHunk (start_of o olds) olds (start_of n news) news ops false false :: hunks_of (o + olds) (n + news) script
  end.
Definition op_line (op : HunkOperation) : str :=
  match op with Context l => c_space :: l | Remove l => c_dash :: l | Add l => c_plus :: l end.
Definition hunk_lines (h : Hunk) : list str :=
  header (hk_old_start h) (hk_old_count h) (hk_new_start h) (hk_new_count h) :: map op_line (hk_operations h).
Definition diff_of (preamble : list str) (hunks : list Hunk) : str :=
  render (preamble ++ concat (map hunk_lines hunks)) [c_nl] true.

Lemma target_start position count : 0 <= position -> target (start_of position count) count = position.
Proof. intros H. unfold target, start_of. destruct (count =? 0); lia. Qed.
Lemma hunks_patch newline o n script rest : 0 <= o -> 0 <= n ->
  patched newline o n newline (before_edit script rest) (hunks_of o n script) (after_edit script rest) newline.
Proof.
  revert o n. induction script as [|[gap ops] script IH]; intros o n Ho Hn; [constructor|].
  pose proof (count_of_nonneg gap). pose proof (count_of_nonneg (old_side ops)). pose proof (count_of_nonneg (new_side ops)).
  cbn [hunks_of before_edit after_edit foldr].
  set (h := mkHunk (start_of (o + count_of gap) (count_of (old_side ops))) (count_of (old_side ops))
              (start_of (n + count_of gap) (count_of (new_side ops))) (count_of (new_side ops)) ops false false).
  apply (patched_hunk _ o n newline h gap); [apply target_start; lia|apply target_start; lia|done|].
  change (newline_after h newline) with newline. destruct (decide _); apply IH; cbn [h hk_operations]; lia.
Qed.

(** ** Reading a diff back *)
Lemma starts_with_head l c p x : c <> x -> starts_with (x :: l) (c :: p) = false.
Proof. intros H. unfold starts_with. by rewrite strip_prefix_head. Qed.
Lemma body_line op rest i acc o n previous :
  hunk_body (op_line op :: rest) i acc o n previous
  = hunk_body rest (i + 1) (acc ++ [op]) o n (Some (match op with Context _ => c_space | Remove _ => c_dash | Add _ => c_plus end)).
Proof.
  cbn [hunk_body]. assert (starts_with (op_line op) AT = false) as -> by (by destruct op; apply starts_with_head).
  assert (str_eqb (op_line op) NO_NEWLINE = false) as -> by (apply str_eqb_ne; by destruct op).
  by destruct op.
Qed.
(** Where a hunk's body ends: at the next header or at the empty piece after the last line. *)
Definition closes (rest : list str) : Prop := rest = [[]] \/ exists l rest', rest = l :: rest' /\ starts_with l AT = true.
Lemma body_lines ops rest i acc previous : closes rest ->
  hunk_body (map op_line ops ++ rest) i acc false false previous = inr (mkBody (acc ++ ops) false false rest (i + count_of ops)).
Proof.
  intros Hr. revert i acc previous. induction ops as [|op ops IH]; intros i acc previous.
  - cbn [map app]. rewrite app_nil_r. unfold count_of. cbn [length]. rewrite Z.add_0_r.
    destruct Hr as [->|(l & rest' & -> & Hl)]; [done|]. cbn [hunk_body]. by rewrite Hl.
  - cbn [map app]. rewrite body_line, IH, <- app_assoc. cbn [app]. do 2 f_equal. unfold count_of. cbn [length]. lia.
Qed.
Lemma old_count ops : count_of (List.filter (fun op => negb (is_add op)) ops) = count_of (old_side ops).
Proof. unfold count_of, old_side. f_equal. induction ops as [|[] ops IH]; cbn; lia. Qed.
Lemma new_count ops : count_of (List.filter (fun op => negb (is_remove op)) ops) = count_of (new_side ops).
Proof. unfold count_of, new_side. f_equal. induction ops as [|[] ops IH]; cbn; lia. Qed.
(** A hunk whose header tells its body, without markers, within the width of a line number. *)
Definition printable (h : Hunk) : Prop :=
  0 <= hk_old_start h <= u64_max /\ 0 <= hk_new_start h <= u64_max
  /\ hk_old_count h = count_of (old_side (hk_operations h)) /\ hk_old_count h <= u64_max
  /\ hk_new_count h = count_of (new_side (hk_operations h)) /\ hk_new_count h <= u64_max
  /\ hk_old_no_newline h = false /\ hk_new_no_newline h = false.
Lemma parse_one h rest i : printable h -> closes rest ->
  parse_single_hunk (header (hk_old_start h) (hk_old_count h) (hk_new_start h) (hk_new_count h)) (map op_line (hk_operations h) ++ rest) i
  = inr (h, rest, i + 1 + count_of (hk_operations h)).
Proof.
  destruct h as [os oc ns nc ops onn nnn]. unfold printable. cbn [hk_old_start hk_old_count hk_new_start hk_new_count hk_operations hk_old_no_newline hk_new_no_newline]. intros (Hos & Hns & -> & Hoc & -> & Hnc & -> & ->) Hr. unfold parse_single_hunk.
  rewrite parse_header by (done || (split; [apply count_of_nonneg|done])). rewrite body_lines by done. cbn [bd_operations bd_old_no_newline bd_new_no_newline bd_rest bd_next app].
  by rewrite old_count, new_count, !Z.eqb_refl.
Qed.
Lemma header_starts a b c d : starts_with (header a b c d) AT = true.
Proof. apply starts_with_spec. unfold header. eauto. Qed.
Lemma parse_lines hunks fuel i acc : Forall printable hunks -> (length (concat (map hunk_lines hunks)) < fuel)%nat -> hunks <> [] \/ acc <> [] ->
  parse_from fuel (concat (map hunk_lines hunks) ++ [[]]) i acc = inr (acc ++ hunks).
Proof.
  intros Hp. revert fuel i acc. induction Hp as [|h hunks Hh Hp IH]; intros fuel i acc Hf Hne; destruct fuel as [|fuel]; cbn in Hf; try lia.
  - cbn [map concat app parse_from]. rewrite bool_decide_false by (destruct Hne; done). destruct fuel; by rewrite app_nil_r.
  - cbn [map concat hunk_lines app parse_from]. rewrite header_starts, <- app_assoc, parse_one; [|done|].
    + rewrite IH; [by rewrite <- app_assoc| |right; by destruct acc]. rewrite length_app in Hf. lia.
    + destruct hunks as [|h' hunks]; [by left|]. right. do 2 eexists. split; [done|apply header_starts].
Qed.
Lemma parse_preamble preamble rest fuel i : Forall (fun l => starts_with l AT = false) preamble ->
  parse_from (length preamble + fuel) (preamble ++ rest) i [] = parse_from fuel rest (i + count_of preamble) [].
Proof.
  intros Hp. revert i. induction Hp as [|l preamble Hl Hp IH]; intros i; cbn [length Nat.add app parse_from].
  - by rewrite Z.add_0_r.
  - rewrite Hl. change (bool_decide ([] = [])) with true. cbn [negb andb]. rewrite IH. f_equal. unfold count_of. cbn [length]. lia.
Qed.

(** ** The round trip *)
Definition op_text (op : HunkOperation) : str := match op with Context l | Remove l | Add l => l end.
(** An edit of clean lines, on a file whose lines and those of the result can be counted. *)
Record edit_ok (preamble : list str) (script : Script) (rest : list str) : Prop := mkEditOk {
  ok_preamble : Forall (fun l => clean l /\ starts_with l AT = false) preamble;
  ok_script : Forall (fun '(gap, ops) => Forall clean gap /\ Forall (fun op => clean (op_text op)) ops) script;
  ok_rest : Forall clean rest;
  ok_hunks : script <> [];
  ok_before : count_of (before_edit script rest) < u64_max;
  ok_after : count_of (after_edit script rest) < u64_max;
}.

Lemma show_clean n : clean (show n).
Proof. split; apply show_absent; by left. Qed.
Lemma clean_app a b : clean a -> clean b -> clean (a ++ b).
Proof. unfold clean. rewrite !in_app_iff. naive_solver. Qed.
Lemma clean_cons c l : c <> c_nl -> c <> c_cr -> clean l -> clean (c :: l).
Proof. unfold clean. cbn [In]. naive_solver. Qed.
Lemma header_clean a b c d : clean (header a b c d).
Proof.
  unfold header, range, AT. change ($"@@") with [c_at; c_at].
  repeat first [apply show_clean | apply clean_app | apply clean_cons; [done|done|] | split; by intros []].
Qed.
Lemma op_line_clean op : clean (op_text op) -> clean (op_line op).
Proof. destruct op; by apply clean_cons. Qed.
Lemma sides_clean ops : Forall (fun op => clean (op_text op)) ops -> Forall clean (old_side ops) /\ Forall clean (new_side ops).
Proof. induction 1 as [|[] ops Hop _ [IHo IHn]]; cbn; split; try constructor; done. Qed.
Lemma before_clean script rest : Forall clean rest ->
  Forall (fun '(gap, ops) => Forall clean gap /\ Forall (fun op => clean (op_text op)) ops) script -> Forall clean (before_edit script rest).
Proof.
  intros Hr. induction 1 as [|[gap ops] script [Hg Ho] _ IH]; [done|]. cbn [before_edit foldr].
  rewrite !Forall_app. split_and!; [done|by apply sides_clean|done].
Qed.
Lemma after_clean script rest : Forall clean rest ->
  Forall (fun '(gap, ops) => Forall clean gap /\ Forall (fun op => clean (op_text op)) ops) script -> Forall clean (after_edit script rest).
Proof.
  intros Hr. induction 1 as [|[gap ops] script [Hg Ho] _ IH]; [done|]. cbn [after_edit foldr].
  rewrite !Forall_app. split_and!; [done|by apply sides_clean|done].
Qed.
Lemma hunk_lines_clean o n script :
  Forall (fun '(gap, ops) => Forall clean gap /\ Forall (fun op => clean (op_text op)) ops) script ->
  Forall clean (concat (map hunk_lines (hunks_of o n script))).
Proof.
  intros H. revert o n. induction H as [|[gap ops] script [_ Ho] _ IH]; intros o n; [done|]. cbn [hunks_of map concat]. apply Forall_app. split; [|apply IH].
  constructor; [apply header_clean|]. cbn [hk_operations]. apply List.Forall_map. by eapply List.Forall_impl; [|exact Ho]; apply op_line_clean.
Qed.
Lemma start_of_bounds position count bound : 0 <= position -> 0 <= count -> position + count < bound -> 0 <= start_of position count <= bound.
Proof. unfold start_of. destruct (count =? 0); lia. Qed.
Lemma hunks_printable o n script rest : 0 <= o -> 0 <= n ->
  o + count_of (before_edit script rest) < u64_max -> n + count_of (after_edit script rest) < u64_max -> Forall printable (hunks_of o n script).
Proof.
  revert o n. induction script as [|[gap ops] script IH]; intros o n Ho Hn Hb Ha; [constructor|].
  cbn [before_edit after_edit foldr] in Hb, Ha. fold (before_edit script rest) in Hb. fold (after_edit script rest) in Ha. rewrite !count_of_app in Hb, Ha.
  pose proof (count_of_nonneg gap). pose proof (count_of_nonneg (old_side ops)). pose proof (count_of_nonneg (new_side ops)).
  pose proof (count_of_nonneg (before_edit script rest)). pose proof (count_of_nonneg (after_edit script rest)).
  cbn [hunks_of]. constructor; [|apply IH; lia].
  unfold printable. cbn [hk_old_start hk_old_count hk_new_start hk_new_count hk_operations hk_old_no_newline hk_new_no_newline].
  split; [apply start_of_bounds; lia|]. split; [apply start_of_bounds; lia|]. split_and!; done || lia.
Qed.
Lemma parse_diff preamble script rest : edit_ok preamble script rest -> parse_hunks (diff_of preamble (hunks_of 0 0 script)) = inr (hunks_of 0 0 script).
Proof.
  intros [Hp Hs Hr Hne Hb Ha]. set (hunks := hunks_of 0 0 script).
  assert (Hh : hunks <> []) by (subst hunks; by destruct script as [|[]]).
  assert (Hpr : Forall printable hunks) by (apply (hunks_printable 0 0 script rest); lia).
  assert (Hlines : diff_lines (diff_of preamble hunks) = (preamble ++ concat (map hunk_lines hunks)) ++ [[]]).
  { unfold diff_lines, diff_of. apply (split_render _ _ true); [by left| |].
    - apply Forall_app. split; [|by apply hunk_lines_clean]. eapply List.Forall_impl; [|exact Hp]. by intros ? [? _].
    - destruct hunks; [done|]. intros E. apply app_eq_nil in E as [_ E]. done. }
  unfold parse_hunks. rewrite Hlines, <- app_assoc, length_app, parse_preamble.
  - rewrite parse_lines; [by destruct hunks|done|rewrite length_app; cbn; lia|by left].
  - eapply List.Forall_impl; [|exact Hp]. by intros ? [_ ?].
Qed.

(** C34. The unified diff of an edit is read back and performs it: for a file of clean lines
    with either line ending, an edit of it in any number of hunks, and the diff printed with
    any preamble, the tool parses the text of the diff and turns the file into the edited
    lines printed in the same ending with the same final newline. The edited lines are to be
    those of some file again (not none at all with a final newline, not an empty last line
    without one); where they show an ending, the result is read back as exactly the edited
    lines with that ending and final newline. *)
Theorem diff_roundtrip preamble script rest eol newline :
  edit_ok preamble script rest -> whole (before_edit script rest) newline -> ending eol (before_edit script rest) newline ->
  whole (after_edit script rest) newline ->
  (exists hunks, parse_hunks (diff_of preamble (hunks_of 0 0 script)) = inr hunks /\
    apply_hunks (render (before_edit script rest) eol newline) hunks = inr (render (after_edit script rest) eol newline))
  /\ (ending eol (after_edit script rest) newline ->
      parse_document (render (after_edit script rest) eol newline) = inr (mkDocument (after_edit script rest) eol newline)).
Proof.
  intros Hok Hw He Hw'. split; [|intros He'; apply parse_rendered; [|done..]; apply after_clean; apply Hok]. exists (hunks_of 0 0 script). split; [by apply (parse_diff _ _ rest)|].
  apply apply_hunks_spec. exists (mkDocument (before_edit script rest) eol newline), (after_edit script rest), newline. split_and!.
  - apply parse_rendered; [|done..]. apply before_clean; apply Hok.
  - by apply hunks_patch.
  - done.
Qed.

(** ** Instances *)
(** One line of a three-line file with carriage returns is replaced and one is added. *)
Definition sample_script : Script := [([$"a"], [Remove $"b"; Add $"B"; Context $"c"; Add $"d"])].
Definition sample_preamble : list str := [$"--- a/f"; $"+++ b/f"].
Lemma sample_ok : edit_ok sample_preamble sample_script [].
Proof.
  assert (Hc : forall l, forallb (fun c => negb (c =? c_nl) && negb (c =? c_cr)) l = true -> clean l).
  { intros l H. rewrite forallb_forall in H. split; intros Hin; by apply H in Hin. }
  constructor; [|..|done|done].
  - repeat constructor; by apply Hc.
  - repeat constructor; by apply Hc.
  - constructor.
  - done.
Qed.
Lemma diff_roundtrip_witness : exists hunks,
  parse_hunks (diff_of sample_preamble (hunks_of 0 0 sample_script)) = inr hunks /\
  apply_hunks (render [$"a"; $"b"; $"c"] crlf true) hunks = inr (render [$"a"; $"B"; $"c"; $"d"] crlf true).
Proof.
  apply (diff_roundtrip sample_preamble sample_script [] crlf true); [apply sample_ok|done| |done]. right. split; [done|]. left. done.
Defined.
(** A patch that deletes every line leaves a file of one empty line, and a patch that gives
    an empty file a line leaves it without a final newline. *)
Lemma emptied_file_keeps_a_line : exists hunks,
  parse_hunks ($"@@ -1 +0,0 @@" ++ [c_nl] ++ $"-a" ++ [c_nl]) = inr hunks /\ apply_hunks ($"a" ++ [c_nl]) hunks = inr [c_nl].
Proof. eexists. split; vm_compute; reflexivity. Qed.
Lemma filled_file_has_no_newline : exists hunks,
  parse_hunks ($"@@ -0,0 +1 @@" ++ [c_nl] ++ $"+a" ++ [c_nl]) = inr hunks /\ apply_hunks [] hunks = inr $"a".
Proof. eexists. split; vm_compute; reflexivity. Qed.
(** A file that ends in a lone carriage return is accepted when its other endings are
    carriage returns with line feeds, and loses that character to any patch. *)
Lemma final_cr_is_lost : exists hunks,
  parse_hunks ($"@@ -1 +1 @@" ++ [c_nl] ++ $"-a" ++ [c_nl] ++ $"+A" ++ [c_nl]) = inr hunks /\
  apply_hunks ($"a" ++ crlf ++ $"b" ++ [c_cr]) hunks = inr ($"A" ++ crlf ++ $"b").
Proof. eexists. split; vm_compute; reflexivity. Qed.
