(* ===== verification/Programs.v ===== *)
(** Programs of atomic steps on a state that other tasks share, runs of such programs beside
    the other tasks, and the weakest precondition under interference. *)
From stdpp Require Import base list.
From S2P Require Import Prelude.

(** A program answers, or makes a step on the shared state and goes on. What a step finds
    besides the state, such as a timeout, is a choice of type [C]. *)
#[warnings="-register-all"]
Inductive Prog (S C A : Type) : Type :=
| Ret (a : A)
| Step (step : C -> S -> Prog S C A * S).
Arguments Ret {S C A}.
Arguments Step {S C A}.
Fixpoint bind {S C A B} (p : Prog S C A) (k : A -> Prog S C B) : Prog S C B :=
  match p with
  | Ret a => k a
  | Step step => Step (fun choice w => let '(p, w) := step choice w in (bind p k, w))
  end.
Definition act {S C A} (f : C -> S -> A * S) : Prog S C A := Step (fun choice w => let '(a, w) := f choice w in (Ret a, w)).
(** What others do before a step, and the choice of the step. *)
Record Moment (S C : Type) : Type := mkMoment { mo_others : S -> S; mo_choice : C }.
Arguments mkMoment {S C}.
Arguments mo_others {S C}.
Arguments mo_choice {S C}.
Definition calm {S C} `{!Inhabited C} : Moment S C := mkMoment id inhabitant.
Record Ran (S A : Type) : Type := mkRan { ran_steps : list (S * S); ran_world : S; ran_answer : A }.
Arguments mkRan {S A}.
Arguments ran_steps {S A}.
Arguments ran_world {S A}.
Arguments ran_answer {S A}.
(** A run, with the state before and after each step of the program's own. *)
Fixpoint play {S C A} `{!Inhabited C} (p : Prog S C A) (schedule : list (Moment S C)) (w : S) : Ran S A :=
  match p with
  | Ret a => mkRan [] w a
  | Step step =>
      let m := default calm (head schedule) in
      let before := mo_others m w in
      let '(p, after) := step (mo_choice m) before in
      let r := play p (tail schedule) after in
      mkRan ((before, after) :: ran_steps r) (ran_world r) (ran_answer r)
  end.
(** The state a program leaves that is dropped after at most [n] of its steps, as a future
    is when its deadline passes: what it would have done next does not happen. *)
Fixpoint abandon {S C A} `{!Inhabited C} (n : nat) (p : Prog S C A) (schedule : list (Moment S C)) (w : S) : S :=
  match n, p with
  | Datatypes.S n, Step step =>
      let m := default calm (head schedule) in
      let '(p, after) := step (mo_choice m) (mo_others m w) in abandon n p (tail schedule) after
  | _, _ => w
  end.
Notation "x <- p ;; k" := (bind p (fun x => k)) (at level 100, p at next level, right associativity).

Section Programs.
Context {S C : Type} `{!Inhabited C}.
Abbreviation History := (list (S * S)).

(** The steps of a program are nested in a pair, so its induction is stated by hand. *)
Fixpoint Prog_steps_ind {A} (P : Prog S C A -> Prop) (Hret : forall a, P (Ret a))
    (Hstep : forall step, (forall choice w, P (fst (step choice w))) -> P (Step step)) (p : Prog S C A) : P p :=
  match p with
  | Ret a => Hret a
  | Step step => Hstep step (fun choice w => match step choice w as q return P (fst q) with (p, _) => Prog_steps_ind P Hret Hstep p end)
  end.

Context (rely : S -> S -> Prop).
(** [wp p Q h w]: after the own steps [h] and in the state [w], the program keeps to [Q]
    whatever the others do before each step within [rely]. *)
Fixpoint wp {A} (p : Prog S C A) (Q : History -> S -> A -> Prop) (h : History) (w : S) : Prop :=
  match p with
  | Ret a => Q h w a
  | Step step => forall choice before, rely w before -> match step choice before with (p, after) => wp p Q (h ++ [(before, after)]) after end
  end.
Lemma wp_weaken {A} (p : Prog S C A) (Q Q' : History -> S -> A -> Prop) h w :
  (forall h w a, Q h w a -> Q' h w a) -> wp p Q h w -> wp p Q' h w.
Proof.
  intros HQ. revert h w. induction p as [a|step IH] using Prog_steps_ind; intros h w; cbn; [apply HQ|].
  intros Hp choice before Hr. specialize (Hp choice before Hr). specialize (IH choice before). destruct (step choice before). by apply IH.
Qed.
Lemma wp_then {A B} (p : Prog S C A) (k : A -> Prog S C B) Q h w :
  wp p (fun h w a => wp (k a) Q h w) h w -> wp (bind p k) Q h w.
Proof.
  revert h w. induction p as [a|step IH] using Prog_steps_ind; intros h w; cbn; [done|].
  intros Hp choice before Hr. specialize (Hp choice before Hr). specialize (IH choice before). destruct (step choice before). by apply IH.
Qed.
Lemma wp_act {A} (f : C -> S -> A * S) Q h w :
  (forall choice before, rely w before -> Q (h ++ [(before, snd (f choice before))]) (snd (f choice before)) (fst (f choice before))) -> wp (act f) Q h w.
Proof. intros Hf choice before Hr. specialize (Hf choice before Hr). by destruct (f choice before). Qed.

(** A program none of whose steps changes the state, with what its answers satisfy. *)
Fixpoint reads_to {A} (R : A -> Prop) (p : Prog S C A) : Prop :=
  match p with
  | Ret a => R a
  | Step step => forall choice w, match step choice w with (p, after) => after = w /\ reads_to R p end
  end.
Lemma reads_weaken {A} (R R' : A -> Prop) (p : Prog S C A) : reads_to R p -> (forall a, R a -> R' a) -> reads_to R' p.
Proof.
  intros Hp HR. induction p as [a|step IH] using Prog_steps_ind; cbn in *; [by apply HR|].
  intros choice w. specialize (Hp choice w). specialize (IH choice w). destruct (step choice w) as [p after]. destruct Hp as [-> Hp]. split; [done|by apply IH].
Qed.
Definition reads {A} (p : Prog S C A) : Prop := reads_to (fun _ => True) p.
Lemma reads_then {A B} R R' (p : Prog S C A) (k : A -> Prog S C B) : reads_to R p -> (forall a, R a -> reads_to R' (k a)) -> reads_to R' (bind p k).
Proof.
  intros Hp Hk. induction p as [a|step IH] using Prog_steps_ind; cbn in *; [by apply Hk|].
  intros choice w. specialize (Hp choice w). specialize (IH choice w). destruct (step choice w) as [p after]. destruct Hp as [-> Hp]. auto.
Qed.

Definition obeys (schedule : list (Moment S C)) : Prop := Forall (fun m => forall w, rely w (mo_others m w)) schedule.
Lemma wp_run {A} (p : Prog S C A) Q schedule h w : (forall w, rely w w) -> obeys schedule -> wp p Q h w ->
  Q (h ++ ran_steps (play p schedule w)) (ran_world (play p schedule w)) (ran_answer (play p schedule w)).
Proof.
  intros Hrefl. revert schedule h w. induction p as [a|step IH] using Prog_steps_ind; intros schedule h w Hs; cbn [wp play].
  - by rewrite app_nil_r.
  - intros Hp. set (m := default calm (head schedule)).
    assert (Hm : rely w (mo_others m w)) by (subst m; destruct Hs; [apply Hrefl|done]).
    specialize (Hp (mo_choice m) _ Hm). specialize (IH (mo_choice m) (mo_others m w)). destruct (step (mo_choice m) (mo_others m w)) as [p after]. cbn [fst] in IH.
    specialize (IH (tail schedule) _ _ ltac:(unfold obeys; destruct Hs; [constructor|done]) Hp). by rewrite <- app_assoc in IH.
Qed.
End Programs.

