(* ===== verification/Workspace.v ===== *)
(** Workspace backends and services ([workspace/path.rs], [workspace/error.rs],
    [workspace/services.rs], [workspace/conformance.rs]): virtual paths, typed errors, the
    file system trait with its optional compare-and-swap extension, the reference backend in
    memory, and the read and write calls of the editing tools.

    The tools run beside other tasks: a tool is a program of atomic steps on the state it
    shares with them, the disk of the backend and the process-wide write claims. A backend
    call may run into the operation timeout, which the schedule of the run decides. *)
From stdpp Require Import gmap.
From S2P Require Import Prelude Text Paths WriteClaims LineEdit Programs.

(** ** Paths *)
Definition ROOT : str := $".".
Definition from_normalized (path : str) : str :=
  let path := trim_matches (Z.eqb c_slash) path in
  if str_eqb path [] || str_eqb path ROOT then ROOT else replace_char c_backslash c_slash path.
Definition is_root (path : str) : bool := str_eqb path ROOT.
Definition default_path_input (input : str) : str := let trimmed := trim input in if str_eqb trimmed [] then ROOT else trimmed.
Definition has_windows_path_prefix (input : str) : bool :=
  match input with
  | a :: b :: _ => (is_ascii_lowercase a || is_ascii_uppercase a) && (b =? c_colon)
  | _ => false
  end || starts_with input [c_backslash; c_backslash] || starts_with input [c_slash; c_slash].
(** The parts of a relative path with [.] and [..] worked off; [out] has the last one first. *)
Fixpoint normalize_relative (out : list str) (l : Path) : option (list str) :=
  match l with
  | [] => Some (rev out)
  | CurDir :: l => normalize_relative out l
  | Normal part :: l => normalize_relative (part :: out) l
  | ParentDir :: l => match out with [] => None | _ :: out => normalize_relative out l end
  | RootDir :: _ => None
  end.
Definition pathbuf_to_workspace_path (parts : list str) : str :=
  from_normalized (replace_char c_backslash c_slash (join [c_slash] parts)).
Definition normalize_virtual_path (input : str) : option str :=
  let input := default_path_input input in
  if has_windows_path_prefix input then None
  else
    let normalized := replace_char c_backslash c_slash input in
    if is_absolute normalized then None
    else parts ← normalize_relative [] (components normalized); Some (pathbuf_to_workspace_path parts).

(** ** Errors *)
Inductive WorkspaceError : Type :=
| PathNotFound (path : str)
| VersionConflict (path expected : str) (actual : option str)
| RemoteGitConflict (code message : str)
| InvalidArgument (message : str)
| TooLarge (path : str) (size_bytes max_bytes : Z)
| OperationTimeout (op : str) (duration_ms : Z)
| Unsupported (message : str)
| BackendFailure (message : str).
Inductive ToolErrorKind : Type :=
| KindNotFound (path : str)
| KindVersionConflict (path expected : str) (actual : option str)
| KindRemoteGitConflict (code message : str)
| KindInvalidArgument (message : str)
| KindTooLarge (path : str) (size_bytes max_bytes : Z)
| KindUnsupported (message : str)
| KindTimeout (op : str) (duration_ms : Z).
Definition from_workspace_error (e : WorkspaceError) : option ToolErrorKind :=
  match e with
  | PathNotFound path => Some (KindNotFound path)
  | VersionConflict path expected actual => Some (KindVersionConflict path expected actual)
  | RemoteGitConflict code message => Some (KindRemoteGitConflict code message)
  | InvalidArgument message => Some (KindInvalidArgument message)
  | TooLarge path size_bytes max_bytes => Some (KindTooLarge path size_bytes max_bytes)
  | Unsupported message => Some (KindUnsupported message)
  | OperationTimeout op duration_ms => Some (KindTimeout op duration_ms)
  | BackendFailure _ => None
  end.
Abbreviation WorkspaceResult A := (WorkspaceError + A)%type.
Record WorkspaceWriteOutcome : Type := mkOutcome { wo_bytes : Z; wo_lines : Z }.

(** ** Backends *)
(** The traits, over the state [D] of a backend. *)
Record WorkspaceFileSystem (D : Type) : Type := mkFs {
  read_text : D -> str -> WorkspaceResult str;
  write_text : D -> str -> str -> WorkspaceResult WorkspaceWriteOutcome * D;
}.
Record WorkspaceFileSystemExt (D : Type) : Type := mkExt {
  read_text_with_version : D -> str -> WorkspaceResult (str * str);
  write_text_if_version : D -> str -> str -> str -> WorkspaceResult WorkspaceWriteOutcome * D;
}.
Record WorkspaceServices (D : Type) : Type := mkServices {
  ws_normalize : str -> option str;
  ws_fs : WorkspaceFileSystem D;
  ws_ext : option (WorkspaceFileSystemExt D);
  ws_timeout_ms : option Z;
}.
Arguments read_text {D}.
Arguments write_text {D}.
Arguments read_text_with_version {D}.
Arguments write_text_if_version {D}.
Arguments ws_normalize {D}.
Arguments ws_fs {D}.
Arguments ws_ext {D}.
Arguments ws_timeout_ms {D}.

(** The reference backend: contents with a version, and the counter versions are made of. *)
Module InMemory.
Record State : Type := mkState { im_files : gmap str (str * str); im_counter : Z }.
Definition empty : State := mkState ∅ 0.
(** The counter is a [u64] that no run reaches the end of. *)
Definition bump_version (s : State) : str * State :=
  let counter := im_counter s + 1 in (118 :: show counter, mkState (im_files s) counter).
Definition outcome (content : str) : WorkspaceWriteOutcome := mkOutcome (len content) (count_of (lines content)).
Definition put (s : State) (path content : str) : State :=
  let '(version, s) := bump_version s in mkState (<[path := (content, version)]> (im_files s)) (im_counter s).
Definition fs : WorkspaceFileSystem State := mkFs _
  (fun s path => match im_files s !! path with Some (content, _) => inr content | None => inl (PathNotFound path) end)
  (fun s path content => (inr (outcome content), put s path content)).
Definition ext : WorkspaceFileSystemExt State := mkExt _
  (fun s path => match im_files s !! path with Some entry => inr entry | None => inl (PathNotFound path) end)
  (fun s path content expected =>
     if str_eqb expected [] then (inl (InvalidArgument $"expected_version must not be empty"), s)
     else match im_files s !! path with
          | Some (_, actual) =>
              if str_eqb actual expected then (inr (outcome content), put s path content)
              else (inl (VersionConflict path expected (Some actual)), s)
          | None => (inl (PathNotFound path), s)
          end).
End InMemory.

(** ** What the tools share with other tasks *)
Record World (D : Type) : Type := mkWorld { w_disk : D; w_claims : Claims }.
Arguments mkWorld {D}.
Arguments w_disk {D}.
Arguments w_claims {D}.
(** Where a call runs into the timeout the schedule tells whether it took effect. *)
Abbreviation Late := (option bool).
Abbreviation Tool D A := (Prog (World D) Late A).

(** ** Services *)
Section Services.
Context {D : Type} (services : WorkspaceServices D).

(** [run_with_timeout]: the error of a timeout is the conversion of an untyped one. A call
    that is cut off has taken effect by then or has not; if the request it sent lands after
    that, it does so beside the program, as a step of the others. *)
Definition run_with_timeout {A} (op : str) (call : D -> WorkspaceResult A * D) : Tool D (WorkspaceResult A) :=
  act (fun (late : Late) w =>
    match ws_timeout_ms services, late with
    | Some _, Some took_effect =>
        (inl (BackendFailure ($"workspace operation '" ++ op ++ $"' timed out")),
         mkWorld (if took_effect then snd (call (w_disk w)) else w_disk w) (w_claims w))
    | _, _ => let '(answer, d) := call (w_disk w) in (answer, mkWorld d (w_claims w))
    end).
Definition read_for_edit (path : str) : Tool D (WorkspaceResult (str * option str)) :=
  match ws_ext services with
  | Some ext =>
      run_with_timeout $"read_text_with_version"
        (fun d => (match read_text_with_version ext d path with inl e => inl e | inr (content, version) => inr (content, Some version) end, d))
  | None =>
      run_with_timeout $"read_text"
        (fun d => (match read_text (ws_fs services) d path with inl e => inl e | inr content => inr (content, None) end, d))
  end.
Definition write_for_edit (path content : str) (expected_version : option str) : Tool D (WorkspaceResult WorkspaceWriteOutcome) :=
  match ws_ext services, expected_version with
  | Some ext, Some version => run_with_timeout $"write_text_if_version" (fun d => write_text_if_version ext d path content version)
  | _, _ => run_with_timeout $"write_text" (fun d => write_text (ws_fs services) d path content)
  end.
End Services.
