(* ===== verification/WorkspaceFacts.v ===== *)
(** What a versioned backend promises to its clients, that the reference backend keeps the
    promise, and that virtual paths stay in the workspace. *)
From stdpp Require Import gmap.
From S2P Require Import Prelude Text Paths WriteClaims LineEdit Workspace.

(** ** What a versioned backend promises *)
(** The conditional write is a compare-and-swap, and a version names one content of its
    path for as long as the disk evolves. *)
Class Versioned {D : Type} (ext : WorkspaceFileSystemExt D) : Type := {
  sound : D -> Prop;
  evolves : D -> D -> Prop;
  evolves_preorder : PreOrder evolves;
  evolves_sound d d' : sound d -> evolves d d' -> sound d';
  version_names_content d d' path content content' version :
    sound d -> evolves d d' -> read_text_with_version ext d path = inr (content, version) ->
    read_text_with_version ext d' path = inr (content', version) -> content' = content;
  swap_evolves d path content version : evolves d (snd (write_text_if_version ext d path content version));
  compare_and_swap d path content version :
    let '(answer, d') := write_text_if_version ext d path content version in
    (d' = d /\ (forall outcome, answer <> inr outcome))
    \/ (exists old new_version, read_text_with_version ext d path = inr (old, version)
        /\ read_text_with_version ext d' path = inr (content, new_version)
        /\ (forall other, other <> path -> read_text_with_version ext d' other = read_text_with_version ext d other)
        /\ forall path expected actual, answer <> inl (VersionConflict path expected actual));
}.
#[export] Existing Instance evolves_preorder.

(** ** The reference backend *)
Module InMemoryFacts.
Import InMemory.
Lemma show_injective n m : 0 <= n -> 0 <= m -> 118 :: show n = 118 :: show m -> n = m.
Proof. intros Hn Hm [= H]. by apply show_inj. Qed.
(** Versions in use are numbers up to the counter; what changes later has a later one. *)
Definition issued (s : State) : Prop :=
  0 <= im_counter s /\ forall path content version, im_files s !! path = Some (content, version) -> exists n, 1 <= n <= im_counter s /\ version = 118 :: show n.
Definition later (s s' : State) : Prop :=
  issued s -> issued s' /\ im_counter s <= im_counter s' /\
    forall path content version, im_files s' !! path = Some (content, version) ->
      im_files s !! path = Some (content, version) \/ exists n, im_counter s < n /\ version = 118 :: show n.
#[export] Instance later_preorder : PreOrder later.
Proof.
  split.
  - intros s Hs. split_and!; [done|lia|]. auto.
  - intros s1 s2 s3 H12 H23 H1. destruct (H12 H1) as (H2 & Hc12 & Hf12). destruct (H23 H2) as (H3 & Hc23 & Hf23). split_and!; [done|lia|].
    intros path content version Hl. destruct (Hf23 _ _ _ Hl) as [Hl2|(n & Hn & ->)]; [by apply Hf12|]. right. exists n. split; [lia|done].
Qed.
Lemma put_later s path content : later s (put s path content).
Proof.
  intros [Hc Hs]. unfold put, bump_version. cbn. split_and!.
  - split; [cbn; lia|]. intros p c v. cbn. rewrite lookup_insert_Some. intros [[_ [= <- <-]]|[_ Hl]].
    + exists (im_counter s + 1). split; [lia|done].
    + destruct (Hs _ _ _ Hl) as (n & Hn & ->). exists n. split; [lia|done].
  - lia.
  - intros p c v. rewrite lookup_insert_Some. intros [[_ [= <- <-]]|[_ Hl]]; [right|by left]. exists (im_counter s + 1). split; [lia|done].
Qed.
Lemma conditional s path content version :
  write_text_if_version ext s path content version = (inr (outcome content), put s path content)
    /\ (exists old, im_files s !! path = Some (old, version))
  \/ snd (write_text_if_version ext s path content version) = s
    /\ (forall o, fst (write_text_if_version ext s path content version) <> inr o).
Proof.
  cbn. destruct (str_eqb version []); [by right|]. destruct (im_files s !! path) as [[old actual]|] eqn:E; [|by right].
  destruct (str_eqb actual version) eqn:Ev; [|by right]. apply str_eqb_spec in Ev as ->. left. eauto.
Qed.
#[export] #[refine] Instance versioned : Versioned ext := {| sound := issued; evolves := later |}.
Proof.
  - intros d d' Hd Hl. by apply Hl.
  - intros d d' path content content' version Hd Hl. cbn. destruct (im_files d !! path) as [[c v]|] eqn:E; [|done].
    intros [= -> ->]. destruct (im_files d' !! path) as [[c' v']|] eqn:E'; [|done]. intros [= -> ->].
    destruct (Hl Hd) as (_ & _ & Hf). destruct (Hf _ _ _ E') as [E2|(n & Hn & ->)]; [congruence|].
    destruct Hd as [Hc Hi]. destruct (Hi _ _ _ E) as (m & Hm & Hv). apply show_injective in Hv; lia.
  - intros d path content version. destruct (conditional d path content version) as [[-> _]|[-> _]]; [apply put_later|done].
  - intros d path content version. destruct (conditional d path content version) as [[-> [old Hold]]|[Hs Ha]].
    + right. exists old, (118 :: show (im_counter d + 1)). cbn. rewrite Hold, lookup_insert, decide_True by done. split_and!; [done..| |done].
      intros other Ho. by rewrite lookup_insert_ne.
    + destruct (write_text_if_version ext d path content version) as [answer d']. by left.
Defined.
End InMemoryFacts.

(** ** Virtual paths *)
(** A name that a path can be put together from and taken apart into again. *)
Definition proper_name (n : str) : Prop := n <> [] /\ n <> $"." /\ n <> $".." /\ ~ In c_slash n /\ ~ In c_backslash n.
Lemma split_on_pieces sep s piece : In piece (split_on sep s) -> ~ In sep piece /\ forall c, In c piece -> In c s.
Proof.
  revert piece. induction s as [|x s IH]; intros piece; cbn [split_on].
  - intros [<-|[]]. split; [by intros []|done].
  - destruct (Z.eqb_spec x sep) as [->|Hx].
    + intros [<-|Hin]; [by split; [intros []|]|]. destruct (IH _ Hin) as [? Hc]. split; [done|]. intros c Hin'. right. by apply Hc.
    + destruct (split_on sep s) as [|p rest]; [intros [<-|[]]; split; [by intros [?|[]]|intros c [<-|[]]; by left]|].
      intros [<-|Hin].
      * destruct (IH p) as [Hn Hc]; [by left|]. split; [by intros [?|?]|]. intros c [<-|Hin]; [by left|right; by apply Hc].
      * destruct (IH piece) as [Hn Hc]; [by right|]. split; [done|]. intros c Hin'. right. by apply Hc.
Qed.
Lemma component_names s : ~ In c_backslash s -> forall c, In c (components s) -> match c with Normal n => proper_name n | _ => True end.
Proof.
  intros Hb c Hc. assert (Hbody : In c (omap component_of (split_on c_slash s)) -> match c with Normal n => proper_name n | _ => True end).
  { intros Hin. apply list_elem_of_In, list_elem_of_omap in Hin as (piece & Hp & Hin). apply list_elem_of_In, split_on_pieces in Hp as [Hn Hsub].
    unfold component_of in Hin. destruct (str_eqb piece []) eqn:E1; [done|]. destruct (str_eqb piece $".") eqn:E2; [done|]. cbn [orb] in Hin.
    destruct (str_eqb piece $"..") eqn:E3; injection Hin as <-; [done|]. apply str_eqb_ne in E1, E2, E3. split_and!; try done. intros Hin. by apply Hb, Hsub. }
  unfold components in Hc. destruct (is_absolute s); [destruct Hc as [<-|Hc]; [done|by apply Hbody]|].
  destruct (split_on c_slash s) as [|first rest] eqn:E; [by apply Hbody|]. destruct (str_eqb first $"."); [destruct Hc as [<-|Hc]; [done|]|]; by apply Hbody.
Qed.
Lemma normalize_names out l parts : Forall proper_name out -> (forall c, In c l -> match c with Normal n => proper_name n | _ => True end) ->
  normalize_relative out l = Some parts -> Forall proper_name parts.
Proof.
  revert out. induction l as [|c l IH]; intros out Ho Hl Hn; cbn [normalize_relative] in Hn; [injection Hn as <-; by apply List.Forall_rev|].
  assert (Hl' : forall c, In c l -> match c with Normal n => proper_name n | _ => True end) by (intros c' Hc'; apply Hl; by right).
  destruct c as [| | |name]; [done|by apply (IH out)|destruct Ho as [|o out Hx Ho]; [done|by apply (IH out)]|].
  apply (IH (name :: out)); [|done|done]. constructor; [|done]. apply (Hl (Normal name)). by left.
Qed.
Lemma replace_absent from to s : ~ In from s -> replace_char from to s = s.
Proof.
  unfold replace_char. induction s as [|c s IH]; intros Hn; [done|]. cbn. rewrite IH by (intros ?; apply Hn; by right).
  by rewrite (proj2 (Z.eqb_neq c from)) by (intros ->; apply Hn; by left).
Qed.
Lemma replace_gone from to s : from <> to -> ~ In from (replace_char from to s).
Proof.
  unfold replace_char. intros Hne Hin. apply in_map_iff in Hin as (c & Hc & _). destruct (Z.eqb_spec c from); congruence.
Qed.
Lemma join_proper names : names <> [] -> Forall proper_name names ->
  ~ In c_backslash (join [c_slash] names) /\ split_on c_slash (join [c_slash] names) = names
  /\ (exists c s, join [c_slash] names = c :: s /\ c <> c_slash) /\ exists s c, join [c_slash] names = s ++ [c] /\ c <> c_slash.
Proof.
  intros Hne Hall. induction Hall as [|n names (Hn & _ & _ & Hs & Hb) Hall IH]; [done|].
  assert (Hhead : exists c s, n = c :: s /\ c <> c_slash) by (destruct n as [|c s]; [done|]; exists c, s; split; [done|]; intros ->; apply Hs; by left).
  destruct names as [|n' names].
  - cbn [join]. split_and!; [done|by apply split_on_last|done|]. destruct n as [|c s _] using rev_ind; [done|]. exists s, c. split; [done|]. intros ->. apply Hs, in_snoc. by right.
  - destruct IH as (IHb & IHs & _ & (s & c & Hlast & Hc)); [done|]. destruct Hhead as (c0 & s0 & -> & Hc0).
    change (join [c_slash] ((c0 :: s0) :: n' :: names)) with ((c0 :: s0) ++ c_slash :: join [c_slash] (n' :: names)). split_and!.
    + rewrite in_app_iff. cbn [In]. intros [?|[?|?]]; done.
    + by rewrite split_on_field, IHs.
    + do 2 eexists. split; [done|exact Hc0].
    + exists ((c0 :: s0) ++ c_slash :: s), c. split; [|done]. rewrite Hlast. by rewrite <- app_assoc.
Qed.
Lemma trim_matches_framed f s : (exists c r, s = c :: r /\ f c = false) -> (exists r c, s = r ++ [c] /\ f c = false) -> trim_matches f s = s.
Proof.
  intros (c & r & Hs & Hc) (r' & c' & Hs' & Hc'). unfold trim_matches. rewrite Hs at 1. rewrite drop_while_stop by done. rewrite <- Hs, Hs', rev_app_distr.
  cbn [rev app]. rewrite drop_while_stop by done. cbn [rev]. by rewrite rev_involutive.
Qed.
(** A path the resolver accepts is the root or a chain of names: it cannot leave the
    workspace and cannot name anything above it. *)
Lemma virtual_path_is_confined input path : normalize_virtual_path input = Some path ->
  path = ROOT \/ exists names, names <> [] /\ Forall proper_name names /\ path = join [c_slash] names /\ components path = map Normal names.
Proof.
  unfold normalize_virtual_path. destruct (has_windows_path_prefix _); [done|]. destruct (is_absolute _); [done|].
  set (s := replace_char c_backslash c_slash (default_path_input input)). assert (Hb : ~ In c_backslash s) by by apply replace_gone.
  destruct (normalize_relative [] (components s)) as [names|] eqn:E; [|done]. cbn [mbind option_bind]. intros [= <-].
  apply normalize_names in E; [|constructor|by apply component_names]. destruct names as [|n names]; [by left|]. right. exists (n :: names).
  destruct (join_proper (n :: names)) as (Hnb & Hsplit & Hfirst & Hlast); [done..|]. set (p := join [c_slash] (n :: names)) in *.
  assert (Hp : pathbuf_to_workspace_path (n :: names) = p).
  { unfold pathbuf_to_workspace_path, from_normalized. fold p. rewrite replace_absent, trim_matches_framed, replace_absent; [|done| | |done].
    - destruct Hfirst as (c & s' & Hp & _). inversion_clear E as [|? ? (Hn & Hd & _) Hrest]. rewrite (proj2 (str_eqb_ne p [])) by congruence.
      rewrite (proj2 (str_eqb_ne p ROOT)); [done|]. intros Hr. rewrite Hr in Hsplit. by injection Hsplit as <- _.
    - destruct Hfirst as (c & s' & Hp & Hc). exists c, s'. split; [done|]. by apply Z.eqb_neq.
    - destruct Hlast as (s' & c & Hp & Hc). exists s', c. split; [done|]. by apply Z.eqb_neq. }
  rewrite Hp. split_and!; [done..|]. unfold components. rewrite Hsplit.
  assert (is_absolute p = false) as ->.
  { destruct Hfirst as (c & s' & Hpc & Hc). unfold is_absolute, starts_with. rewrite Hpc. change ($"/") with [c_slash]. by rewrite strip_prefix_head. }
  inversion E as [|? ? (_ & Hd & _) Hrest]; subst. rewrite (proj2 (str_eqb_ne n $".")) by done.
  clear -E. induction E as [|m rest (H1 & H2 & H3 & _) _ IH]; [done|]. cbn. unfold component_of at 1.
  rewrite (proj2 (str_eqb_ne m [])), (proj2 (str_eqb_ne m $".")), (proj2 (str_eqb_ne m $"..")) by done. cbn. by rewrite IH.
Qed.
