(* ===== verification/FileTools.v ===== *)
(** The tools that change files ([tools/builtin/edit.rs], [tools/builtin/write.rs],
    [tools/builtin/patch.rs]): the whole of each [execute], as a program of atomic steps
    over the workspace services and the write claims.

    An answer carries the data its message and metadata are made of; message texts are left
    out. The concurrent reads of a patch of several files are steps in the order of the
    entries. *)
From stdpp Require Import gmap.
From S2P Require Import Prelude Text Paths WriteClaims LineEdit Patch Programs Workspace.

Inductive ToolFailure : Type :=
| MissingParameter (name : str)
| EmptyOldString
| NotPositive (name : str)
| UnknownMode (mode : str)
| OffsetInvalid
| OffsetRequired
| OffsetForbidden
| Unresolved (file_path : str)
| ReadFailed (error : WorkspaceError)
| EditRefused (error : LineEndingEditError)
| CountGuard (expected found : Z)
| TooManyReplacements (maximum found : Z)
| SizeOverflow
| OffsetMismatch (expected found : Z)
| DiffInvalid (error : PatchError)
| DiffRejected (error : PatchError)
| ClaimRefused (error : ClaimError)
| ConcurrentModification
| WriteFailed (error : WorkspaceError)
| NoEntries
| TooManyEntries (found : Z)
| BatchTooLarge (staged_bytes : Z)
| Stopped (error : WorkspaceError) (written unwritten : list str).
Record Change : Type := mkChange { ch_file_path : str; ch_before : str; ch_after : str }.
Inductive ToolReport : Type :=
| WouldReplace (change : Change) (count : Z)
| Replaced (change : Change) (count : Z)
| Appended (file_path : str) (offset appended_bytes resulting_size : Z) (already_applied : bool)
| Wrote (file_path : str) (outcome : WorkspaceWriteOutcome) (before : option str) (after : str)
| AppliedHunks (change : Change) (hunks : Z)
| AppliedFiles (changes : list Change).
Inductive ToolAnswer : Type :=
| Done (report : ToolReport)
| Refused (failure : ToolFailure) (kind : option ToolErrorKind)
| Panicked.
Definition error (failure : ToolFailure) : ToolAnswer := Refused failure None.
Definition succeeded (a : ToolAnswer) : bool := match a with Done _ => true | _ => false end.

Record ToolContext (D : Type) : Type := mkContext {
  tc_session_id : option str;
  tc_workspace : Path;
  tc_services : WorkspaceServices D;
}.
Arguments tc_session_id {D}.
Arguments tc_workspace {D}.
Arguments tc_services {D}.

Section Tools.
Context `{FileSystem} {D : Type} (ctx : ToolContext D).
#[local] Abbreviation services := (tc_services ctx).

(** ** Claims around a write *)
Definition on_claims {A} (f : Claims -> A * Claims) : Tool D A :=
  act (fun _ w => let '(a, claims) := f (w_claims w) in (a, mkWorld (w_disk w) claims)).
Definition begin_write_claim (file_path : str) : Tool D (ClaimError + bool) :=
  newly_acquired <- match bound_session (tc_session_id ctx) with
                    | Some id => on_claims (fun claims => (negb (session_owns_write id (tc_workspace ctx) file_path claims), claims))
                    | None => Ret false
                    end ;;
  claimed <- on_claims (claim_bound_write (tc_session_id ctx) (tc_workspace ctx) file_path) ;;
  Ret (match claimed with inl e => inl e | inr _ => inr newly_acquired end).
Definition release_new_write_claim (file_path : str) (newly_acquired : bool) : Tool D unit :=
  if newly_acquired then
    match bound_session (tc_session_id ctx) with
    | Some id => on_claims (fun claims => (tt, release_write_claim id (tc_workspace ctx) file_path claims))
    | None => Ret tt
    end
  else Ret tt.
Definition is_conflict (e : WorkspaceError) : bool := match e with VersionConflict _ _ _ => true | _ => false end.
Definition write_failure (e : WorkspaceError) : ToolAnswer :=
  Refused (if is_conflict e then ConcurrentModification else WriteFailed e) (from_workspace_error e).
(** The end of an edit, an append and a single patch: claim, conditional write, and the
    release of a claim that is new when the write fails. A call whose deadline passes is
    dropped between two of these steps ([abandon]) and releases nothing. *)
Definition commit_write (file_path path content : str) (version : option str) (report : ToolReport) : Tool D ToolAnswer :=
  claimed <- begin_write_claim file_path ;;
  match claimed with
  | inl e => Ret (error (ClaimRefused e))
  | inr newly_acquired =>
      written <- write_for_edit services path content version ;;
      match written with
      | inr _ => Ret (Done report)
      | inl e => _ <- release_new_write_claim file_path newly_acquired ;; Ret (write_failure e)
      end
  end.

(** ** Edit *)
Definition positive_usize_arg (args : json) (name : str) : ToolFailure + option Z :=
  match jget name args with
  | None => inr None
  | Some value =>
      match jas_u64 value with
      | Some n => if 0 <? n then inr (Some n) else inl (NotPositive name)
      | None => inl (NotPositive name)
      end
  end.
Definition bool_arg (args : json) (name : str) : bool := default false (jget name args ≫= jas_bool).
Definition edit_guards (expected maximum : option Z) (count : Z) : option ToolFailure :=
  let ceiling := match maximum with
                 | Some maximum => if maximum <? count then Some (TooManyReplacements maximum count) else None
                 | None => None
                 end in
  match expected with
  | Some expected => if negb (count =? expected) then Some (CountGuard expected count) else ceiling
  | None => ceiling
  end.
(** What the tool does with the text it has read: the change and the count. *)
Definition edit_text (old_string new_string : str) (replace_all : bool) (expected maximum : option Z) (content : str)
    : ToolAnswer + (str * Z) :=
  match apply_line_ending_edit content old_string new_string replace_all with
  | None => inl Panicked
  | Some (inl e) => inl (error (EditRefused e))
  | Some (inr applied) =>
      match edit_guards expected maximum (le_count applied) with
      | Some failure => inl (error failure)
      | None => inr (le_content applied, le_count applied)
      end
  end.
Definition edit_execute (args : json) : Tool D ToolAnswer :=
  match jget_str $"file_path" args, jget_str $"old_string" args, jget_str $"new_string" args with
  | None, _, _ => Ret (error (MissingParameter $"file_path"))
  | _, None, _ => Ret (error (MissingParameter $"old_string"))
  | _, _, None => Ret (error (MissingParameter $"new_string"))
  | Some file_path, Some old_string, Some new_string =>
      if str_eqb old_string [] then Ret (error EmptyOldString)
      else
        let replace_all := bool_arg args $"replace_all" in
        let dry_run := bool_arg args $"dry_run" in
        match positive_usize_arg args $"max_replacements", positive_usize_arg args $"expected_replacements" with
        | inl e, _ => Ret (error e)
        | _, inl e => Ret (error e)
        | inr maximum, inr expected =>
            match ws_normalize services file_path with
            | None => Ret (error (Unresolved file_path))
            | Some path =>
                read <- read_for_edit services path ;;
                match read with
                | inl e => Ret (error (ReadFailed e))
                | inr (content, version) =>
                    match edit_text old_string new_string replace_all expected maximum content with
                    | inl answer => Ret answer
                    | inr (new_content, count) =>
                        let change := mkChange file_path content new_content in
                        if dry_run then Ret (Done (WouldReplace change count))
                        else commit_write file_path path new_content version (Replaced change count)
                    end
                end
            end
        end
  end.

(** ** Write *)
Definition append_execute (file_path path content : str) (expected_offset : Z) : Tool D ToolAnswer :=
  read <- read_for_edit services path ;;
  match read with
  | inl e => Ret (error (ReadFailed e))
  | inr (current, version) =>
      match checked_add u64_max expected_offset (len content) with
      | None => Ret (error SizeOverflow)
      | Some resulting_size =>
          if negb (len current =? expected_offset) then
            if (len current =? resulting_size)
               && bool_decide (drop (Z.to_nat expected_offset) (utf8 current) = utf8 content)
            then Ret (Done (Appended file_path expected_offset (len content) resulting_size true))
            else Ret (error (OffsetMismatch expected_offset (len current)))
          else
            commit_write file_path path (current ++ content) version
              (Appended file_path expected_offset (len content) resulting_size false)
      end
  end.
Definition overwrite_execute (file_path path content : str) : Tool D ToolAnswer :=
  before <- run_with_timeout services $"read_text" (fun d => (read_text (ws_fs services) d path, d)) ;;
  let before := match before with inr text => Some text | inl _ => None end in
  let after := match before with Some existing => preserve_newline_style existing content | None => content end in
  claimed <- begin_write_claim file_path ;;
  match claimed with
  | inl e => Ret (error (ClaimRefused e))
  | inr newly_acquired =>
      written <- run_with_timeout services $"write_text" (fun d => write_text (ws_fs services) d path after) ;;
      match written with
      | inr outcome => Ret (Done (Wrote file_path outcome before after))
      | inl e => _ <- release_new_write_claim file_path newly_acquired ;; Ret (error (WriteFailed e))
      end
  end.
(** The mode and, in append mode, the offset. *)
Definition write_mode (args : json) : ToolFailure + option Z :=
  let mode := jget_str $"mode" args in
  let offset := jget $"expected_offset" args in
  if bool_decide (mode = Some $"append") then
    match offset with
    | None => inl OffsetRequired
    | Some value => match jas_u64 value with Some offset => inr (Some offset) | None => inl OffsetInvalid end
    end
  else if bool_decide (mode = None) || bool_decide (mode = Some $"overwrite") then
    match offset with
    | None => inr None
    | Some value => if bool_decide (jas_u64 value = Some 0) then inr None else inl OffsetForbidden
    end
  else inl (UnknownMode (default [] mode)).
Definition write_execute (args : json) : Tool D ToolAnswer :=
  match jget_str $"file_path" args, jget_str $"content" args with
  | None, _ => Ret (error (MissingParameter $"file_path"))
  | _, None => Ret (error (MissingParameter $"content"))
  | Some file_path, Some content =>
      match write_mode args with
      | inl e => Ret (error e)
      | inr offset =>
          match ws_normalize services file_path with
          | None => Ret (error (Unresolved file_path))
          | Some path =>
              match offset with
              | Some offset => append_execute file_path path content offset
              | None => overwrite_execute file_path path content
              end
          end
      end
  end.

(** ** Patch *)
Definition patch_text (diff content : str) : ToolFailure + (str * Z) :=
  match parse_hunks diff with
  | inl e => inl (DiffInvalid e)
  | inr hunks => match apply_hunks content hunks with inl e => inl (DiffRejected e) | inr after => inr (after, count_of hunks) end
  end.
Definition patch_single (args : json) : Tool D ToolAnswer :=
  match jget_str $"file_path" args, jget_str $"diff" args with
  | None, _ => Ret (error (MissingParameter $"file_path"))
  | _, None => Ret (error (MissingParameter $"diff"))
  | Some file_path, Some diff =>
      match ws_normalize services file_path with
      | None => Ret (error (Unresolved file_path))
      | Some path =>
          read <- read_for_edit services path ;;
          match read with
          | inl e => Ret (error (ReadFailed e))
          | inr (content, version) =>
              match patch_text diff content with
              | inl e => Ret (error e)
              | inr (after, hunks) => commit_write file_path path after version (AppliedHunks (mkChange file_path content after) hunks)
              end
          end
      end
  end.

Record StagedPatch : Type := mkStaged {
  sp_file_path : str;
  sp_workspace_path : str;
  sp_before : str;
  sp_after : str;
  sp_version : option str;
}.
Definition MAX_PATCH_ENTRIES : Z := 64.
Definition MAX_PATCH_BATCH_BYTES : Z := 16 * 1024 * 1024.
(** One entry up to the point where it could be written. *)
Definition fetch (entry : json) : Tool D (ToolFailure + StagedPatch) :=
  match jget_str $"file_path" entry, jget_str $"diff" entry with
  | None, _ => Ret (inl (MissingParameter $"file_path"))
  | _, None => Ret (inl (MissingParameter $"diff"))
  | Some file_path, Some diff =>
      match ws_normalize services file_path with
      | None => Ret (inl (Unresolved file_path))
      | Some path =>
          read <- read_for_edit services path ;;
          Ret (match read with
               | inl e => inl (ReadFailed e)
               | inr (before, version) =>
                   match patch_text diff before with
                   | inl e => inl e
                   | inr (after, _) => inr (mkStaged file_path path before after version)
                   end
               end)
      end
  end.
Fixpoint fetch_all (entries : list json) : Tool D (list (ToolFailure + StagedPatch)) :=
  match entries with
  | [] => Ret []
  | entry :: entries => fetched <- fetch entry ;; rest <- fetch_all entries ;; Ret (fetched :: rest)
  end.
Fixpoint stage (fetched : list (ToolFailure + StagedPatch)) (staged_bytes : Z) : ToolFailure + list StagedPatch :=
  match fetched with
  | [] => inr []
  | inl e :: _ => inl e
  | inr patch :: fetched =>
      let staged_bytes := staged_bytes + len (sp_before patch) in
      if MAX_PATCH_BATCH_BYTES <? staged_bytes then inl (BatchTooLarge staged_bytes)
      else match stage fetched staged_bytes with inl e => inl e | inr staged => inr (patch :: staged) end
  end.
Fixpoint claim_all (staged : list StagedPatch) : Tool D (option ClaimError) :=
  match staged with
  | [] => Ret None
  | patch :: staged =>
      claimed <- on_claims (claim_bound_write (tc_session_id ctx) (tc_workspace ctx) (sp_file_path patch)) ;;
      match claimed with inl e => Ret (Some e) | inr _ => claim_all staged end
  end.
(** [written] are the patches already on the disk. *)
Fixpoint write_all (written staged : list StagedPatch) : Tool D ToolAnswer :=
  match staged with
  | [] => Ret (Done (AppliedFiles (map (fun p => mkChange (sp_file_path p) (sp_before p) (sp_after p)) written)))
  | patch :: staged =>
      outcome <- write_for_edit services (sp_workspace_path patch) (sp_after patch) (sp_version patch) ;;
      match outcome with
      | inr _ => write_all (written ++ [patch]) staged
      | inl e => Ret (Refused (Stopped e (map sp_file_path written) (map sp_file_path staged)) (from_workspace_error e))
      end
  end.
Definition execute_patches (entries : list json) : Tool D ToolAnswer :=
  if bool_decide (entries = []) then Ret (error NoEntries)
  else if MAX_PATCH_ENTRIES <? count_of entries then Ret (error (TooManyEntries (count_of entries)))
  else
    fetched <- fetch_all entries ;;
    match stage fetched 0 with
    | inl e => Ret (error e)
    | inr staged =>
        refused <- claim_all staged ;;
        match refused with
        | Some e => Ret (error (ClaimRefused e))
        | None => write_all [] staged
        end
    end.
Definition patch_execute (args : json) : Tool D ToolAnswer :=
  match jget $"patches" args ≫= jas_array with
  | Some entries => execute_patches entries
  | None => patch_single args
  end.
End Tools.
