(* ===== verification/FileToolsFacts.v ===== *)
(** What the editing tools promise while other tasks run: on a versioned backend every
    change is one atomic rewriting of the file as it was at that moment, a refused call
    changes nothing, and no failed call keeps a claim it took. *)
From stdpp Require Import gmap.
From S2P Require Import Prelude Text Paths WriteClaims LineEdit LineEditFacts Patch Programs Workspace WorkspaceFacts FileTools.

(** ** What a tool is asked to do *)
Inductive FileTool : Type := EditTool | WriteTool | PatchTool.
Definition execute `{FileSystem} {D} (ctx : ToolContext D) (tool : FileTool) (args : json) : Tool D ToolAnswer :=
  match tool with EditTool => edit_execute ctx args | WriteTool => write_execute ctx args | PatchTool => patch_execute ctx args end.
Abbreviation Rewriting := (str * (str -> option str))%type.
Definition edit_rewriting (old_string new_string : str) (replace_all : bool) (expected maximum : option Z) (content : str) : option str :=
  match edit_text old_string new_string replace_all expected maximum content with inr (after, _) => Some after | inl _ => None end.
Definition append_rewriting (offset : Z) (chunk content : str) : option str :=
  if len content =? offset then Some (content ++ chunk) else None.
Definition patch_rewriting (diff content : str) : option str :=
  match patch_text diff content with inr (after, _) => Some after | inl _ => None end.
(** The file and the rewriting of its content that acceptable arguments ask for: an edit, an
    append, or a patch of one file. *)
Definition intent {D} (ctx : ToolContext D) (tool : FileTool) (args : json) : option Rewriting :=
  file_path ← jget_str $"file_path" args;
  path ← ws_normalize (tc_services ctx) file_path;
  match tool with
  | EditTool =>
      old_string ← jget_str $"old_string" args;
      new_string ← jget_str $"new_string" args;
      match positive_usize_arg args $"max_replacements", positive_usize_arg args $"expected_replacements" with
      | inr maximum, inr expected => Some (path, edit_rewriting old_string new_string (bool_arg args $"replace_all") expected maximum)
      | _, _ => None
      end
  | WriteTool =>
      content ← jget_str $"content" args;
      match write_mode args with inr (Some offset) => Some (path, append_rewriting offset content) | _ => None end
  | PatchTool =>
      diff ← jget_str $"diff" args;
      match jget $"patches" args ≫= jas_array with Some _ => None | None => Some (path, patch_rewriting diff) end
  end.

Lemma edit_rewriting_Some old new all expected maximum content after n :
  edit_text old new all expected maximum content = inr (after, n) -> edit_rewriting old new all expected maximum content = Some after.
Proof. unfold edit_rewriting. by intros ->. Qed.

Section Atomic.
Context `{FileSystem} {D : Type} (ctx : ToolContext D) (ext : WorkspaceFileSystemExt D) `{V : !Versioned ext}.
Hypothesis Hext : ws_ext (tc_services ctx) = Some ext.
Abbreviation services := (tc_services ctx).
Abbreviation contents d path := (read_text_with_version ext d path).

(** Others change the disk as the backend allows, and the claims as they like. *)
Definition others (w w' : World D) : Prop := evolves (w_disk w) (w_disk w').
Definition rewrites (r : Rewriting) (a b : World D) : Prop :=
  exists old version new new_version, contents (w_disk a) (fst r) = inr (old, version) /\ snd r old = Some new
    /\ contents (w_disk b) (fst r) = inr (new, new_version)
    /\ forall other, other <> fst r -> contents (w_disk b) other = contents (w_disk a) other.
(** The steps leave the disk alone but for one rewriting each of the list, in its order. *)
Inductive performs : list (World D * World D) -> list Rewriting -> Prop :=
| performs_none : performs [] []
| performs_keep h l a b : performs h l -> w_disk b = w_disk a -> performs (h ++ [(a, b)]) l
| performs_rewrite h l a b r : performs h l -> rewrites r a b -> performs (h ++ [(a, b)]) (l ++ [r]).

Lemma wp_read path (Q : list (World D * World D) -> World D -> WorkspaceResult (str * option str) -> Prop) h w : sound (w_disk w) ->
  (forall before after answer, sound (w_disk after) -> evolves (w_disk w) (w_disk after) -> w_disk after = w_disk before ->
     (answer = inl (BackendFailure ($"workspace operation '" ++ $"read_text_with_version" ++ $"' timed out")) \/
      match contents (w_disk after) path with
      | inl e => answer = inl e
      | inr (content, version) => answer = inr (content, Some version)
      end) ->
     Q (h ++ [(before, after)]) after answer) ->
  wp others (read_for_edit services path) Q h w.
Proof.
  intros Hs HQ. unfold read_for_edit. rewrite Hext. apply wp_act. intros late before Hb.
  assert (Hsb : sound (w_disk before)) by by apply (evolves_sound (w_disk w)).
  destruct (ws_timeout_ms services), late as [[]|]; apply HQ; cbn [fst snd w_disk]; try exact Hb; try done; auto; right; by destruct (contents (w_disk before) path) as [e|[c v]].
Qed.
Lemma wp_write path f content old version d0 (Q : list (World D * World D) -> World D -> WorkspaceResult WorkspaceWriteOutcome -> Prop) h w :
  sound d0 -> evolves d0 (w_disk w) -> contents d0 path = inr (old, version) -> f old = Some content ->
  (forall before after answer, evolves (w_disk w) (w_disk after) ->
     (w_disk after = w_disk before /\ (forall o, answer <> inr o)
      \/ rewrites (path, f) before after /\ (forall p e a, answer <> inl (VersionConflict p e a))) ->
     Q (h ++ [(before, after)]) after answer) ->
  wp others (write_for_edit services path content (Some version)) Q h w.
Proof.
  intros Hs He Hold Hf HQ. unfold write_for_edit. rewrite Hext. apply wp_act. intros late before Hb.
  assert (Heb : evolves d0 (w_disk before)) by by etransitivity.
  pose proof (compare_and_swap (w_disk before) path content version) as Hcas.
  pose proof (swap_evolves (w_disk before) path content version) as Hsw.
  destruct (write_text_if_version ext (w_disk before) path content version) as [answer d'] eqn:E. cbn [snd] in Hsw.
  assert (Hrew : forall claims, (exists old' new_version, contents (w_disk before) path = inr (old', version) /\ contents d' path = inr (content, new_version)
      /\ (forall other, other <> path -> contents d' other = contents (w_disk before) other)) -> rewrites (path, f) before (mkWorld d' claims)).
  { intros claims (old' & nv & Hr & Hr' & Ho). assert (old' = old) as -> by by apply (version_names_content d0 (w_disk before) path old old' version).
    exists old, version, content, nv. done. }
  destruct (ws_timeout_ms services) as [t|], late as [[]|]; cbn [fst snd]; apply HQ; cbn [w_disk]; rewrite ?E; cbn [snd]; try (exact Hb); try (by transitivity (w_disk before)); try done;
    try (by left).
  all: destruct Hcas as [[-> Ha]|(o & nv & H1 & H2 & H3 & H4)]; [left; split; [done|by intros ?]|right; split; [apply Hrew; eauto|done]].
Qed.
Lemma wp_on_claims {A} (d0 : D) (f : Claims -> A * Claims) (Q : list (World D * World D) -> World D -> A -> Prop) h (w : World D) : evolves d0 (w_disk w) ->
  (forall before after answer, evolves d0 (w_disk after) -> w_disk after = w_disk before -> Q (h ++ [(before, after)]) after answer) ->
  wp others (on_claims f) Q h w.
Proof.
  intros He HQ. apply wp_act. intros late before Hb. destruct (f (w_claims before)) as [a claims]. apply HQ; [|done]. cbn [snd w_disk]. by etransitivity.
Qed.
Lemma wp_begin (d0 : D) l file_path (Q : list (World D * World D) -> World D -> ClaimError + bool -> Prop) h (w : World D) : evolves d0 (w_disk w) -> performs h l ->
  (forall h w answer, evolves d0 (w_disk w) -> performs h l -> Q h w answer) -> wp others (begin_write_claim ctx file_path) Q h w.
Proof.
  intros He Hp HQ. unfold begin_write_claim. apply wp_then. destruct (bound_session (tc_session_id ctx)).
  - apply (wp_on_claims d0); [done|]. intros b a answer Ha Hk. apply wp_then, (wp_on_claims d0); [done|]. intros b' a' answer' Ha' Hk'.
    apply HQ; [done|]. by repeat constructor.
  - apply wp_then, (wp_on_claims d0); [done|]. intros b' a' answer' Ha' Hk'. apply HQ; [done|]. by constructor.
Qed.
Lemma wp_release (d0 : D) l file_path fresh (Q : list (World D * World D) -> World D -> unit -> Prop) h (w : World D) : evolves d0 (w_disk w) -> performs h l ->
  (forall h w, performs h l -> Q h w tt) -> wp others (release_new_write_claim ctx file_path fresh) Q h w.
Proof.
  intros He Hp HQ. unfold release_new_write_claim. destruct fresh; [|by apply HQ]. destruct (bound_session (tc_session_id ctx)); [|by apply HQ].
  apply (wp_on_claims d0); [done|]. intros b a [] Ha Hk. apply HQ. by constructor.
Qed.

(** What the steps of a call did, from its answer: a preview, a repeated append and every
    refusal leave the disk alone, a reported change is one rewriting, and after a failed
    write, which may be a timeout, it is at most one. *)
Definition as_answered (r : Rewriting) (h : list (World D * World D)) (answer : ToolAnswer) : Prop :=
  match answer with
  | Done (WouldReplace _ _) | Done (Appended _ _ _ _ true) => performs h []
  | Done _ => performs h [r]
  | Refused (WriteFailed _) _ => performs h [] \/ performs h [r]
  | _ => performs h []
  end.
Definition reports_change (report : ToolReport) : Prop :=
  match report with WouldReplace _ _ | Appended _ _ _ _ true => False | _ => True end.
Lemma commit_performs path f content old version (d0 : D) file_path report h (w : World D) :
  sound d0 -> evolves d0 (w_disk w) -> contents d0 path = inr (old, version) -> f old = Some content -> performs h [] -> reports_change report ->
  wp others (commit_write ctx file_path path content (Some version) report) (fun h _ answer => as_answered (path, f) h answer) h w.
Proof.
  intros Hs He Hold Hf Hp Hr. apply wp_then, (wp_begin d0 []); [done..|]. clear h w He Hp. intros h w [e|fresh] He Hp; [done|].
  apply wp_then, (wp_write path f content old version d0); [done..|]. intros b a answer Hwa Hcase. assert (Ha : evolves d0 (w_disk a)) by by etransitivity. destruct answer as [e|o].
  - apply wp_then. destruct Hcase as [[Hk _]|[Hw Hno]].
    + apply (wp_release d0 []); [done|by constructor|]. intros h' w' Hp'. cbn. unfold write_failure. destruct (is_conflict e); cbn; auto.
    + apply (wp_release d0 [(path, f)]); [done|by apply (performs_rewrite _ [])|]. intros h' w' Hp'. cbn. unfold write_failure.
      destruct e; cbn; auto. by destruct (Hno path0 expected actual).
  - destruct Hcase as [[_ Hno]|[Hw _]]; [by destruct (Hno o)|]. cbn.
    assert (Hp' : performs (h ++ [(b, a)]) [(path, f)]) by by apply (performs_rewrite _ []).
    by destruct report as [| | ? ? ? ? []| | |].
Qed.
(** The shape of the three tools: read, decide, commit. *)
Lemma read_decide_commit path f (k : str -> option str -> Tool D ToolAnswer) w :
  sound (w_disk w) ->
  (forall e h, performs h [] -> as_answered (path, f) h (error (ReadFailed e))) ->
  (forall content version h w, contents (w_disk w) path = inr (content, version) -> sound (w_disk w) -> performs h [] ->
     wp others (k content (Some version)) (fun h _ answer => as_answered (path, f) h answer) h w) ->
  wp others (bind (read_for_edit services path) (fun read => match read with inl e => Ret (error (ReadFailed e)) | inr (content, version) => k content version end))
    (fun h _ answer => as_answered (path, f) h answer) [] w.
Proof.
  intros Hs He Hk. apply wp_then, wp_read; [done|]. intros b a answer Hsa _ Hd Hans.
  assert (Hp : performs ([] ++ [(b, a)]) []) by (constructor; [constructor|done]).
  destruct Hans as [->|Hans]; [by apply He|]. destruct (contents (w_disk a) path) as [e|[c v]] eqn:E; subst answer; [by apply He|by apply Hk].
Qed.
Lemma execute_performs tool args r w : intent ctx tool args = Some r -> sound (w_disk w) ->
  wp others (execute ctx tool args) (fun h _ answer => as_answered r h answer) [] w.
Proof.
  intros Hi Hs. unfold intent in Hi. destruct (jget_str $"file_path" args) as [file_path|] eqn:Efp; [|done]. cbn [mbind option_bind] in Hi.
  destruct (ws_normalize services file_path) as [path|] eqn:Epath; [|done]. cbn [mbind option_bind] in Hi.
  assert (Hnone : forall f e, performs ([] : list (World D * World D)) [] -> as_answered (path, f) [] (error e)) by (intros f []; cbn; auto).
  destruct tool; cbn [execute].
  - unfold edit_execute. rewrite Efp. destruct (jget_str $"old_string" args) as [old|]; [|done]. cbn [mbind option_bind] in Hi.
    destruct (jget_str $"new_string" args) as [new|]; [|done]. cbn [mbind option_bind] in Hi.
    destruct (positive_usize_arg args $"max_replacements") as [|maximum]; [done|].
    destruct (positive_usize_arg args $"expected_replacements") as [|expected]; [done|]. injection Hi as <-.
    destruct (str_eqb old []); [by apply Hnone, performs_none|]. rewrite Epath. apply read_decide_commit; [done|done|].
    intros content version h w' Hc Hs' Hp. destruct (edit_text old new _ expected maximum content) as [answer|[after n]] eqn:Et.
    + unfold edit_text in Et. destruct (apply_line_ending_edit _ _ _ _) as [[e|applied]|]; [by injection Et as <-| |by injection Et as <-].
      destruct (edit_guards _ _ _) as [failure|] eqn:Eg; [|done]. injection Et as <-. unfold edit_guards in Eg.
      cbn. by repeat case_match; simplify_eq.
    + destruct (bool_arg args $"dry_run"); [done|]. apply (commit_performs path _ after content version (w_disk w')); try done. by apply (edit_rewriting_Some _ _ _ _ _ _ _ _ Et).
  - unfold write_execute. rewrite Efp. destruct (jget_str $"content" args) as [chunk|]; [|done]. cbn [mbind option_bind] in Hi.
    destruct (write_mode args) as [|[offset|]]; [done| |done]. injection Hi as <-. rewrite Epath. apply read_decide_commit; [done|done|].
    intros content version h w' Hc Hs' Hp. destruct (checked_add _ _ _); [|done]. destruct (len content =? offset) eqn:El; cbn [negb].
    + apply (commit_performs path _ (content ++ chunk) content version (w_disk w')); try done. unfold append_rewriting. by rewrite El.
    + by destruct (_ && _).
  - unfold patch_execute. destruct (jget_str $"diff" args) as [diff|] eqn:Ed; [|done]. cbn [mbind option_bind] in Hi.
    destruct (jget $"patches" args ≫= jas_array); [done|]. injection Hi as <-. unfold patch_single. rewrite Efp, Ed, Epath. apply read_decide_commit; [done|done|].
    intros content version h w' Hc Hs' Hp. destruct (patch_text diff content) as [e|[after n]] eqn:Et.
    + unfold patch_text in Et. destruct (parse_hunks diff); [by injection Et as <-|]. by destruct (apply_hunks content _); [injection Et as <-|].
    + apply (commit_performs path _ after content version (w_disk w')); try done. unfold patch_rewriting. by rewrite Et.
Qed.

(** ** Patches of several files *)
Definition entry_target (entry : json) : option Rewriting :=
  file_path ← jget_str $"file_path" entry; diff ← jget_str $"diff" entry; path ← ws_normalize services file_path; Some (path, patch_rewriting diff).
Definition entry_name (entry : json) : option str := jget_str $"file_path" entry.
(** What a call did, from its answer: validation comes first and changes nothing, then the
    files are rewritten in the order of the entries. A success reports the file of every
    entry; a stop reports the files of the entries before and after the one it stopped at,
    and those before it were rewritten, or it as well. *)
Definition batch_as_answered (entries : list json) (h : list (World D * World D)) (answer : ToolAnswer) : Prop :=
  match answer with
  | Done report => exists changes targets, report = AppliedFiles changes /\ mapM entry_name entries = Some (map ch_file_path changes)
      /\ mapM entry_target entries = Some targets /\ performs h targets
  | Refused (Stopped _ written unwritten) _ =>
      exists stopped_at targets, mapM entry_name entries = Some (written ++ stopped_at :: unwritten)
        /\ mapM entry_target entries = Some targets
        /\ (performs h (take (length written) targets) \/ performs h (take (length written + 1) targets))
  | _ => performs h []
  end.
(** A staged patch, at a state: the disk has evolved from one where its text was read. *)
Definition staged_ok (w : World D) (entry : json) (p : StagedPatch) : Prop :=
  exists d0 version f, entry_name entry = Some (sp_file_path p) /\ entry_target entry = Some (sp_workspace_path p, f) /\ sp_version p = Some version /\ sound d0 /\ evolves d0 (w_disk w)
    /\ contents d0 (sp_workspace_path p) = inr (sp_before p, version) /\ f (sp_before p) = Some (sp_after p).
Definition plain_failure (e : ToolFailure) : Prop := match e with Stopped _ _ _ => False | _ => True end.
Lemma staged_later w w' entry p : evolves (w_disk w) (w_disk w') -> staged_ok w entry p -> staged_ok w' entry p.
Proof. intros He (d0 & v & f & H0 & H1 & H2 & H3 & H4 & H5). exists d0, v, f. split_and!; try done; [by etransitivity|apply H5|apply H5]. Qed.
Lemma staged_all_later w w' entries staged : evolves (w_disk w) (w_disk w') -> Forall2 (staged_ok w) entries staged -> Forall2 (staged_ok w') entries staged.
Proof. intros He Hall. eapply Forall2_impl; [|exact Hall]. intros entry p. by apply staged_later. Qed.
Lemma fetch_staged entry h w (Q : list (World D * World D) -> World D -> ToolFailure + StagedPatch -> Prop) : sound (w_disk w) -> performs h [] ->
  (forall h w' answer, sound (w_disk w') -> evolves (w_disk w) (w_disk w') -> performs h [] ->
     match answer with inl e => plain_failure e | inr p => staged_ok w' entry p end -> Q h w' answer) ->
  wp others (fetch ctx entry) Q h w.
Proof.
  intros Hs Hp HQ. unfold fetch. destruct (jget_str $"file_path" entry) as [file_path|] eqn:Ef; [|by apply HQ].
  destruct (jget_str $"diff" entry) as [diff|] eqn:Ed; [|by apply HQ]. destruct (ws_normalize services file_path) as [path|] eqn:Epath; [|by apply HQ].
  apply wp_then, wp_read; [done|]. intros b a answer Hsa He Hd Hans. cbn [wp].
  assert (Hp' : performs (h ++ [(b, a)]) []) by by constructor.
  apply HQ; [done..|]. destruct Hans as [->|Hans]; [done|]. destruct (contents (w_disk a) path) as [e|[before version]] eqn:E; subst answer; [done|].
  destruct (patch_text diff before) as [e|[after n]] eqn:Et.
  - unfold patch_text in Et. destruct (parse_hunks diff); [by injection Et as <-|]. by destruct (apply_hunks before _); [injection Et as <-|].
  - exists (w_disk a), version, (patch_rewriting diff). unfold entry_target. rewrite Ef, Ed. cbn [mbind option_bind]. rewrite Epath. split_and!; try done.
    cbn [sp_before sp_after]. unfold patch_rewriting. by rewrite Et.
Qed.
Lemma fetch_all_staged entries h w (Q : list (World D * World D) -> World D -> list (ToolFailure + StagedPatch) -> Prop) : sound (w_disk w) -> performs h [] ->
  (forall h w' fetched, sound (w_disk w') -> evolves (w_disk w) (w_disk w') -> performs h [] ->
     Forall2 (fun entry answer => match answer with inl e => plain_failure e | inr p => staged_ok w' entry p end) entries fetched -> Q h w' fetched) ->
  wp others (fetch_all ctx entries) Q h w.
Proof.
  revert h w Q. induction entries as [|entry entries IH]; intros h w Q Hs Hp HQ; cbn [fetch_all].
  - apply HQ; done || constructor.
  - apply wp_then, fetch_staged; [done..|]. intros h1 w1 fetched Hs1 He1 Hp1 H1.
    apply wp_then, IH; [done..|]. intros h2 w2 rest Hs2 He2 Hp2 H2. cbn [wp]. apply HQ; [done|by etransitivity|done|].
    constructor; [|done]. destruct fetched; [done|by apply (staged_later w1)].
Qed.
Lemma stage_staged w entries fetched n :
  Forall2 (fun entry answer => match answer with inl e => plain_failure e | inr p => staged_ok w entry p end) entries fetched ->
  match stage fetched n with inl e => plain_failure e | inr staged => Forall2 (staged_ok w) entries staged end.
Proof.
  intros H1. revert n. induction H1 as [|entry [e|p] entries fetched Hp Hall IH]; intros n; cbn [stage]; [constructor|done|].
  destruct (MAX_PATCH_BATCH_BYTES <? _); [done|]. specialize (IH (n + len (sp_before p))). destruct (stage fetched _); [done|by constructor].
Qed.
Lemma claim_all_keeps (d0 : D) staged h (w : World D) (Q : list (World D * World D) -> World D -> option ClaimError -> Prop) : evolves d0 (w_disk w) -> performs h [] ->
  (forall h w' answer, evolves d0 (w_disk w') -> performs h [] -> Q h w' answer) -> wp others (claim_all ctx staged) Q h w.
Proof.
  revert h w. induction staged as [|p staged IH]; intros h w He Hp HQ; cbn [claim_all]; [by apply HQ|].
  apply wp_then, (wp_on_claims d0); [done|]. intros b a answer Ha Hk. destruct answer; [apply HQ; [done|by constructor]|]. apply IH; [done|by constructor|done].
Qed.
Lemma targets_of w entries staged : Forall2 (staged_ok w) entries staged -> exists targets, mapM entry_target entries = Some targets.
Proof.
  intros Hall. assert (exists targets, Forall2 (fun entry t => entry_target entry = Some t) entries targets) as [targets Ht].
  { induction Hall as [|entry p entries staged (d0 & v & f & _ & Ht & _) _ [targets Hm]]; [by exists []|]. eexists (_ :: targets). by constructor. }
  exists targets. by apply mapM_Some.
Qed.
Lemma names_of w entries staged : Forall2 (staged_ok w) entries staged -> mapM entry_name entries = Some (map sp_file_path staged).
Proof.
  intros Hall. apply mapM_Some. induction Hall as [|entry p entries staged (d0 & v & f & Hn & _) _ IH]; cbn; [constructor|by constructor].
Qed.
Lemma mapM_snoc {A B} (f : A -> option B) l m x y : mapM f l = Some m -> f x = Some y -> mapM f (l ++ [x]) = Some (m ++ [y]).
Proof. rewrite !mapM_Some. intros Hl Hx. by apply Forall2_app; [|constructor]. Qed.
(** Writing the patches that are left, after those of the entries [finished]. *)
Lemma write_all_performs entries staged finished written targets h w :
  mapM entry_target finished = Some targets -> mapM entry_name finished = Some (map sp_file_path written) ->
  performs h targets -> Forall2 (staged_ok w) entries staged ->
  wp others (write_all ctx written staged) (fun h _ answer => batch_as_answered (finished ++ entries) h answer) h w.
Proof.
  revert entries finished written targets h w. induction staged as [|p staged IH]; intros entries finished written targets h w Hf Hn Hp Hall.
  { apply Forall2_nil_inv_r in Hall as ->. rewrite app_nil_r. cbn. eexists _, targets. rewrite map_map. by split_and!. }
  assert (Hl : length targets = length (map sp_file_path written)).
  { apply mapM_Some, Forall2_length in Hf, Hn. congruence. }
  apply Forall2_cons_inv_r in Hall as (entry & entries' & Hok & Hall & ->). destruct (targets_of _ _ _ Hall) as (later & Hm).
  pose proof (names_of _ _ _ Hall) as Hrest.
  destruct Hok as (d0 & version & f & Hen & Ht & Hv & Hs & He & Hc & Hfb). pose proof (mapM_snoc _ _ _ _ _ Hf Ht) as Hnow.
  cbn [write_all]. rewrite Hv. apply wp_then, (wp_write _ f _ (sp_before p) version d0); [done..|]. intros b a answer Ha Hcase. destruct answer as [e|o].
  - cbn. exists (sp_file_path p), (targets ++ (sp_workspace_path p, f) :: later).
    split; [by apply mapM_app_Some; [|cbn; rewrite Hen; cbn; rewrite Hrest]|].
    split; [by apply mapM_app_Some; [|cbn; rewrite Ht; cbn; rewrite Hm]|]. destruct Hcase as [[Hk _]|[Hw _]].
    + left. rewrite <- Hl, take_app_length. by constructor.
    + right. rewrite <- Hl, (cons_middle _ targets later), app_assoc, take_app_le by (rewrite length_app; cbn; lia).
      rewrite take_ge by (rewrite length_app; cbn; lia). by constructor.
  - destruct Hcase as [[_ Hno]|[Hw _]]; [by destruct (Hno o)|]. rewrite (cons_middle entry finished entries'), app_assoc.
    apply (IH _ _ _ (targets ++ [(sp_workspace_path p, f)])); [done| |by constructor|by apply (staged_all_later w)].
    rewrite map_app. by apply mapM_snoc.
Qed.
Lemma execute_patches_performs entries w : sound (w_disk w) ->
  wp others (execute_patches ctx entries) (fun h _ answer => batch_as_answered entries h answer) [] w.
Proof.
  intros Hs. unfold execute_patches. case_bool_decide; [constructor|]. destruct (MAX_PATCH_ENTRIES <? _); [constructor|].
  apply wp_then, fetch_all_staged; [done|constructor|]. intros h w' fetched Hs' He Hp Hall. apply (stage_staged _ _ _ 0) in Hall.
  destruct (stage fetched 0) as [e|staged]; [by destruct e|].
  apply wp_then, (claim_all_keeps (w_disk w')); [done..|]. intros h2 w2 [e|] He2 Hp2; [done|].
  apply (write_all_performs entries staged [] [] []); [done..|]. by apply (staged_all_later w').
Qed.
End Atomic.

(** C31. On a versioned backend no concurrent change is lost: whatever other tasks write and
    claim before each step of an edit, an append or a patch of one file, and whichever call
    times out, a reported change is one atomic rewriting, by the requested edit, of the
    content the file had at that moment; no other file changes; previews, repeated appends
    and every refusal but that of a failed write leave the disk alone; a call refused with a
    failed write, which may be a timeout of a write that took effect, has done that one
    rewriting or nothing. *)
Theorem edits_are_atomic `{FileSystem} {D : Type} (ctx : ToolContext D) (ext : WorkspaceFileSystemExt D) `{!Versioned ext}
    (tool : FileTool) (args : json) (r : Rewriting) (schedule : list (Moment (World D) Late)) (w : World D) :
  ws_ext (tc_services ctx) = Some ext -> intent ctx tool args = Some r -> obeys (others ext) schedule -> sound (w_disk w) ->
  let ran := play (execute ctx tool args) schedule w in as_answered ext r (ran_steps ran) (ran_answer ran).
Proof.
  intros He Hi Ho Hs. apply (wp_run (others ext) _ (fun h _ answer => as_answered ext r h answer) schedule []); [by intros w0; unfold others|done|].
  by apply execute_performs.
Qed.

(** C32. A patch of several files validates before it writes: on a versioned backend and
    beside other tasks, a call that is not accepted by every file changes nothing; an accepted
    one rewrites the files in the order of the entries, each from the content it has at that
    moment, and reports the file of every entry; a call that stops half way names the files of
    the entries before and after the one it stopped at, and has rewritten exactly those before
    it, or that one as well. *)
Theorem patches_validate_first `{FileSystem} {D : Type} (ctx : ToolContext D) (ext : WorkspaceFileSystemExt D) `{!Versioned ext}
    (args : json) (entries : list json) (schedule : list (Moment (World D) Late)) (w : World D) :
  ws_ext (tc_services ctx) = Some ext -> jget $"patches" args ≫= jas_array = Some entries -> obeys (others ext) schedule -> sound (w_disk w) ->
  let ran := play (execute ctx PatchTool args) schedule w in batch_as_answered ctx ext entries (ran_steps ran) (ran_answer ran).
Proof.
  intros He Hi Ho Hs. apply (wp_run (others ext) _ (fun h _ answer => batch_as_answered ctx ext entries h answer) schedule []); [by intros w0; unfold others|done|].
  cbn [execute]. unfold patch_execute. rewrite Hi. by apply execute_patches_performs.
Qed.

(** ** Claims *)
Section Released.
Context `{FileSystem} {D : Type} (ctx : ToolContext D).
(** Others leave the claims alone and change the disk as they like. *)
Definition calm_claims (w w' : World D) : Prop := w_claims w' = w_claims w.
(** Taking a claim and, if it is new, giving it back. *)
Lemma claim_then_release (id : str) (file_path : str) (claims claims' : Claims) : bound_session (tc_session_id ctx) = Some id ->
  claim_bound_write (tc_session_id ctx) (tc_workspace ctx) file_path claims = (inr tt, claims') ->
  (if negb (session_owns_write id (tc_workspace ctx) file_path claims) then release_write_claim id (tc_workspace ctx) file_path claims' else claims') = claims.
Proof.
  intros Hid. unfold claim_bound_write, claim_write, session_owns_write, release_write_claim. rewrite Hid.
  destruct (claim_identity (tc_workspace ctx) file_path) as [e|path]; [by destruct (is_interpreter_build_artifact file_path); intros [=]|].
  destruct (decide (claims !! path = Some id)) as [Ho|Ho].
  - rewrite (bool_decide_true (claims !! path = Some id)), Ho, str_eqb_refl by done. cbn [negb]. by destruct (is_interpreter_build_artifact file_path); intros [= <-].
  - rewrite (bool_decide_false (claims !! path = Some id)) by done. cbn [negb]. destruct (is_interpreter_build_artifact file_path).
    { intros [= <-]. by rewrite bool_decide_false. }
    destruct (claims !! path) as [owner|] eqn:E; [destruct (str_eqb owner id) eqn:Eo; [|done]; apply str_eqb_spec in Eo; congruence|].
    intros [= <-]. rewrite lookup_insert, decide_True, bool_decide_true by done. by apply delete_insert_id.
Qed.
Lemma wp_claims_step {A : Type} (claims : Claims) (f : Claims -> A * Claims) (Q : list (World D * World D) -> World D -> A -> Prop) h (w : World D) : w_claims w = claims ->
  (forall h w, w_claims w = snd (f claims) -> Q h w (fst (f claims))) -> wp calm_claims (on_claims f) Q h w.
Proof.
  intros Hw HQ. apply wp_act. intros late before Hb. unfold calm_claims in Hb. rewrite Hb, Hw. destruct (f claims) as [a c]. by apply HQ.
Qed.
Lemma wp_disk_step {A : Type} (claims : Claims) op (call : D -> WorkspaceResult A * D) (Q : list (World D * World D) -> World D -> WorkspaceResult A -> Prop) h (w : World D) :
  w_claims w = claims -> (forall h w answer, w_claims w = claims -> Q h w answer) -> wp calm_claims (run_with_timeout (tc_services ctx) op call) Q h w.
Proof.
  intros Hw HQ. apply wp_act. intros late before Hb. unfold calm_claims in Hb. apply HQ. rewrite <- Hw, <- Hb.
  destruct (ws_timeout_ms _), late; cbn; try done; by destruct (call (w_disk before)).
Qed.
(** The end of a call after its decision: a claim, a write, and a release on failure. *)
Definition kept (claims : Claims) (h : list (World D * World D)) (w : World D) (answer : ToolAnswer) : Prop :=
  succeeded answer = false -> w_claims w = claims.
Lemma claimed_write_kept {A : Type} (claims : Claims) (file_path : str) op (call : D -> WorkspaceResult A * D) (report : A -> ToolReport) (failure : WorkspaceError -> ToolAnswer) h (w : World D) :
  w_claims w = claims ->
  wp calm_claims
    (claimed <- begin_write_claim ctx file_path ;;
     match claimed with
     | inl e => Ret (error (ClaimRefused e))
     | inr fresh =>
         written <- run_with_timeout (tc_services ctx) op call ;;
         match written with inr o => Ret (Done (report o)) | inl e => _ <- release_new_write_claim ctx file_path fresh ;; Ret (failure e) end
     end) (kept claims) h w.
Proof.
  intros Hw. apply wp_then. unfold begin_write_claim. apply wp_then. destruct (bound_session (tc_session_id ctx)) as [id|] eqn:Eid.
  2: { apply wp_then, (wp_claims_step claims); [done|]. clear h w Hw. intros h w. unfold claim_bound_write. rewrite Eid. by intros Hw _. }
  apply (wp_claims_step claims); [done|]. clear h w Hw. cbn [fst snd]. intros h w Hw.
  apply wp_then, (wp_claims_step claims); [done|]. clear h w Hw. intros h w Hw. cbn [wp].
  destruct (claim_bound_write (tc_session_id ctx) (tc_workspace ctx) file_path claims) as [[e|[]] claims'] eqn:Ec; cbn [fst snd] in *.
  { intros _. rewrite Hw. unfold claim_bound_write, claim_write in Ec. rewrite Eid in Ec. by repeat case_match; simplify_eq. }
  pose proof (claim_then_release id file_path claims claims' Eid Ec) as Hback.
  apply wp_then, (wp_disk_step claims'); [done|]. clear h w Hw. intros h w [e|o] Hw; [|done].
  apply wp_then. unfold release_new_write_claim. rewrite Eid. destruct (negb _); [|by intros _; rewrite Hw].
  apply (wp_claims_step claims'); [done|]. clear h w Hw. cbn [fst snd]. intros h w Hw _. by rewrite Hw.
Qed.
Lemma commit_kept (claims : Claims) (file_path path content : str) version report h (w : World D) : w_claims w = claims ->
  wp calm_claims (commit_write ctx file_path path content version report) (kept claims) h w.
Proof.
  intros Hw. unfold commit_write, write_for_edit. destruct (ws_ext (tc_services ctx)), version; by apply (claimed_write_kept _ _ _ _ (fun _ => report) write_failure).
Qed.
Lemma read_kept (claims : Claims) (path : str) (k : WorkspaceResult (str * option str) -> Tool D ToolAnswer) h (w : World D) : w_claims w = claims ->
  (forall h w answer, w_claims w = claims -> wp calm_claims (k answer) (kept claims) h w) ->
  wp calm_claims (bind (read_for_edit (tc_services ctx) path) k) (kept claims) h w.
Proof. intros Hw Hk. apply wp_then. unfold read_for_edit. destruct (ws_ext (tc_services ctx)); by apply (wp_disk_step claims). Qed.
Lemma execute_kept tool args (w : World D) : (tool = PatchTool -> jget $"patches" args ≫= jas_array = None) ->
  wp calm_claims (execute ctx tool args) (kept (w_claims w)) [] w.
Proof.
  intros Hm. destruct tool; cbn [execute].
  - unfold edit_execute. destruct (jget_str $"file_path" args); [|by intros _]. destruct (jget_str $"old_string" args) as [old|]; [|by intros _].
    destruct (jget_str $"new_string" args); [|by intros _]. destruct (str_eqb old []); [by intros _|].
    destruct (positive_usize_arg args $"max_replacements"); [by intros _|]. destruct (positive_usize_arg args $"expected_replacements"); [by intros _|].
    destruct (ws_normalize _ _); [|by intros _]. apply read_kept; [done|]. intros h w' [e|[content version]] Hw; [by intros _|].
    destruct (edit_text _ _ _ _ _ _) as [answer|[after n]]; [by intros _|]. destruct (bool_arg args _); [by intros _|]. by apply commit_kept.
  - unfold write_execute. destruct (jget_str $"file_path" args); [|by intros _]. destruct (jget_str $"content" args); [|by intros _].
    destruct (write_mode args) as [|offset]; [by intros _|]. destruct (ws_normalize _ _); [|by intros _]. destruct offset.
    + unfold append_execute. apply read_kept; [done|]. intros h w' [e|[content version]] Hw; [by intros _|]. destruct (checked_add _ _ _); [|by intros _].
      destruct (negb _); [by destruct (_ && _); intros _|]. by apply commit_kept.
    + unfold overwrite_execute. apply wp_then, (wp_disk_step (w_claims w)); [done|]. intros h w' before Hw.
      by apply (claimed_write_kept _ _ _ _ (fun o => Wrote _ o _ _) (fun e => error (WriteFailed e))).
  - unfold patch_execute. rewrite Hm by done. unfold patch_single. destruct (jget_str $"file_path" args); [|by intros _]. destruct (jget_str $"diff" args); [|by intros _].
    destruct (ws_normalize _ _); [|by intros _].
    apply read_kept; [done|]. intros h w' [e|[content version]] Hw; [by intros _|]. destruct (patch_text _ _) as [e|[after n]]; [by intros _|]. by apply commit_kept.
Qed.
End Released.

(** C36. A failed call keeps no claim: when an edit, a write or a patch of one file runs to
    its end and answers with a failure, for any reason and on any backend, the write claims
    are as before the call, provided no other task changes the claims meanwhile. (A call that
    is dropped before it answers can leave its claim, see [abandoned_call_keeps_a_claim].) *)
Theorem failed_call_keeps_no_claim `{FileSystem} {D : Type} (ctx : ToolContext D) (tool : FileTool) (args : json) (schedule : list (Moment (World D) Late)) (w : World D) :
  (tool = PatchTool -> jget $"patches" args ≫= jas_array = None) -> obeys calm_claims schedule ->
  let ran := play (execute ctx tool args) schedule w in succeeded (ran_answer ran) = false -> w_claims (ran_world ran) = w_claims w.
Proof.
  intros Hm Ho. by apply (wp_run calm_claims _ (kept (w_claims w)) schedule []); [|done|apply execute_kept].
Qed.

(** ** No panic *)
Lemma edit_text_answers old new all expected maximum content : edit_text old new all expected maximum content <> inl Panicked.
Proof.
  unfold edit_text. pose proof (edit_never_panics content old new all). destruct (apply_line_ending_edit content old new all) as [[]|]; [done| |done].
  by destruct (edit_guards _ _ _).
Qed.

(** ** Retries *)
(** A read that is not cut off, with the content of the file at that moment. *)
Definition reads {D} (ctx : ToolContext D) (d : D) (path content : str) : Prop :=
  match ws_ext (tc_services ctx) with
  | Some ext => exists version, read_text_with_version ext d path = inr (content, version)
  | None => read_text (ws_fs (tc_services ctx)) d path = inr content
  end.
Lemma read_now {D A} (ctx : ToolContext D) path content (k : WorkspaceResult (str * option str) -> Tool D A) schedule w :
  let m := default calm (head schedule) in
  mo_choice m = None -> reads ctx (w_disk (mo_others m w)) path content ->
  exists version, let w1 := mkWorld (w_disk (mo_others m w)) (w_claims (mo_others m w)) in
    let r := play (k (inr (content, version))) (tail schedule) w1 in
    play (bind (read_for_edit (tc_services ctx) path) k) schedule w = mkRan ((mo_others m w, w1) :: ran_steps r) (ran_world r) (ran_answer r).
Proof.
  intros m Hlate Hr. unfold reads in Hr. unfold read_for_edit. destruct (ws_ext (tc_services ctx)) as [ext|].
  - destruct Hr as [version Hr]. exists (Some version). cbn [run_with_timeout act bind play]. fold m. rewrite Hlate.
    destruct (ws_timeout_ms (tc_services ctx)); cbn; by rewrite Hr.
  - exists None. cbn [run_with_timeout act bind play]. fold m. rewrite Hlate. destruct (ws_timeout_ms (tc_services ctx)); cbn; by rewrite Hr.
Qed.
Lemma already_there before chunk : chunk <> [] ->
  (len (before ++ chunk) =? len before) = false /\ len (before ++ chunk) = len before + len chunk
  /\ drop (Z.to_nat (len before)) (utf8 (before ++ chunk)) = utf8 chunk.
Proof.
  intros Hne. rewrite len_app. destruct chunk as [|c chunk]; [done|]. rewrite len_cons. pose proof (utf8_len_pos c). pose proof (len_nonneg chunk).
  split_and!; [apply Z.eqb_neq; lia|done|]. rewrite utf8_app, <- utf8_nat. apply drop_app_length.
Qed.

(** Sending an append again is harmless: when the file already is the old content
    followed by the chunk, the call with the old size as offset answers that it was applied
    and changes neither the disk nor the claims. *)
Theorem repeated_append_is_harmless `{FileSystem} {D : Type} (ctx : ToolContext D) (args : json) (file_path path before chunk : str)
    (schedule : list (Moment (World D) Late)) (w : World D) :
  jget_str $"file_path" args = Some file_path -> jget_str $"content" args = Some chunk -> chunk <> [] ->
  write_mode args = inr (Some (len before)) -> ws_normalize (tc_services ctx) file_path = Some path -> len before + len chunk <= u64_max ->
  let m := default calm (head schedule) in
  mo_choice m = None -> reads ctx (w_disk (mo_others m w)) path (before ++ chunk) ->
  let ran := play (execute ctx WriteTool args) schedule w in
  ran_answer ran = Done (Appended file_path (len before) (len chunk) (len before + len chunk) true)
  /\ w_disk (ran_world ran) = w_disk (mo_others m w) /\ w_claims (ran_world ran) = w_claims (mo_others m w).
Proof.
  intros Hf Hc Hne Hm Hp Hsize m Hlate Hr. cbn [execute]. unfold write_execute. rewrite Hf, Hc, Hm, Hp. unfold append_execute.
  destruct (already_there before chunk Hne) as (Hlen & Hsum & Hdrop).
  match goal with |- context [bind _ ?k] => destruct (read_now ctx path (before ++ chunk) k schedule w Hlate Hr) as [version Hrun] end.
  cbn zeta in Hrun |- *. rewrite Hrun. cbn [ran_answer ran_world]. unfold checked_add. rewrite (proj2 (Z.leb_le _ _)) by done.
  rewrite Hlen, <- Hsum, Z.eqb_refl, bool_decide_true by done. done.
Qed.
