(* ===== verification/FileToolsScenario.v ===== *)
(** Concrete runs of the editing tools on the reference backend: instances of the theorems
    with another writer at work, and the behaviours that fall short of the tools' own
    descriptions. *)
From stdpp Require Import gmap.
From S2P Require Import Prelude Text Paths WriteClaims WriteClaimsFacts LineEdit Patch Programs Workspace WorkspaceFacts FileTools FileToolsFacts.
Import InMemory InMemoryFacts ClaimSample.

#[local] Instance files : FileSystem := disk true.
Definition versioned_services : WorkspaceServices State := mkServices _ normalize_virtual_path fs (Some ext) (Some 1000).
(** The services of a backend without versions, as the local one. *)
Definition plain_services : WorkspaceServices State := mkServices _ normalize_virtual_path fs None (Some 1000).
Definition session (id : str) (services : WorkspaceServices State) : ToolContext State := mkContext _ (Some id) root services.
Definition nl : str := [c_nl].
Definition start : World State := mkWorld (put (put empty $"a.txt" ($"one" ++ nl)) $"b.txt" ($"two" ++ nl)) ∅.
Definition field (name : string) (value : json) : str * json := ($name, value).
Definition edit_args (file_path old new : str) : json :=
  JObject [field "file_path" (JString file_path); field "old_string" (JString old); field "new_string" (JString new)].
Definition append_args (file_path content : str) (offset : Z) : json :=
  JObject [field "file_path" (JString file_path); field "content" (JString content); field "mode" (JString $"append");
           field "expected_offset" (JNumber (show offset))].
Definition replace_line (old new : str) : str := $"@@ -1 +1 @@" ++ nl ++ $"-" ++ old ++ nl ++ $"+" ++ new ++ nl.
Definition entry (file_path diff : str) : json := JObject [field "file_path" (JString file_path); field "diff" (JString diff)].
Definition batch (entries : list json) : json := JObject [field "patches" (JArray entries)].
(** Another task that writes a file before a step. *)
Definition meanwhile (path content : str) : Moment (World State) Late := mkMoment (fun w => mkWorld (put (w_disk w) path content) (w_claims w)) None.
Definition text_of (w : World State) (path : str) : option str := fst <$> im_files (w_disk w) !! path.

Lemma start_sound : issued (w_disk start).
Proof. apply (put_later _ $"b.txt"), (put_later empty $"a.txt"). split; [done|]. by intros ? ? ?. Qed.
Lemma meanwhile_evolves path content w : others ext w (mo_others (meanwhile path content) w).
Proof. apply put_later. Qed.

Lemma calm_evolves w : others ext w (mo_others (calm (C := Late)) w).
Proof. apply (reflexivity (R := later)). Qed.

(** The other file is written between the read and the write of an edit. *)
Definition beside : list (Moment (World State) Late) := [calm; meanwhile $"b.txt" $"other"].
Definition edit_run : Ran (World State) ToolAnswer :=
  play (execute (session $"s" versioned_services) EditTool (edit_args $"a.txt" $"one" $"uno")) beside start.
Definition one_to_uno : Rewriting := ($"a.txt", edit_rewriting $"one" $"uno" false None None).
Lemma sample_intent : intent (session $"s" versioned_services) EditTool (edit_args $"a.txt" $"one" $"uno") = Some one_to_uno.
Proof. reflexivity. Qed.
Lemma beside_obeys : obeys (others ext) beside.
Proof. constructor; [intros w; apply calm_evolves|]. constructor; [apply meanwhile_evolves|constructor]. Qed.
Lemma edits_are_atomic_witness :
  as_answered ext one_to_uno (ran_steps edit_run) (ran_answer edit_run)
    /\ succeeded (ran_answer edit_run) = true /\ text_of (ran_world edit_run) $"a.txt" = Some ($"uno" ++ nl)
    /\ text_of (ran_world edit_run) $"b.txt" = Some $"other".
Proof.
  split; [|vm_compute; auto].
  exact (edits_are_atomic (session $"s" versioned_services) ext EditTool (edit_args $"a.txt" $"one" $"uno") one_to_uno beside start
           eq_refl sample_intent beside_obeys start_sound).
Defined.
(** The same file is written in between: the edit is refused and the other text stays. *)
Lemma concurrent_edit_is_refused :
  let r := play (execute (session $"s" versioned_services) EditTool (edit_args $"a.txt" $"one" $"uno")) [calm; meanwhile $"a.txt" $"other"] start in
  match ran_answer r with Refused ConcurrentModification (Some (KindVersionConflict _ _ _)) => True | _ => False end
  /\ text_of (ran_world r) $"a.txt" = Some $"other".
Proof. vm_compute. auto. Qed.
(** The second file of a patch is written in between. *)
Definition two_files : list json := [entry $"a.txt" (replace_line $"one" $"uno"); entry $"b.txt" (replace_line $"two" $"due")].
Definition beside_late : list (Moment (World State) Late) := [calm; calm; calm; calm; calm; meanwhile $"b.txt" $"other"].
Definition batch_run : Ran (World State) ToolAnswer := play (execute (session $"s" versioned_services) PatchTool (batch two_files)) beside_late start.
Lemma beside_late_obeys : obeys (others ext) beside_late.
Proof. do 5 (constructor; [intros w; apply calm_evolves|]). constructor; [apply meanwhile_evolves|constructor]. Qed.
Lemma patches_validate_first_witness :
  batch_as_answered (session $"s" versioned_services) ext two_files (ran_steps batch_run) (ran_answer batch_run)
    /\ match ran_answer batch_run with Refused (Stopped _ written unwritten) _ => written = [$"a.txt"] /\ unwritten = [] | _ => False end.
Proof.
  split; [|vm_compute; auto].
  exact (patches_validate_first (session $"s" versioned_services) ext (batch two_files) two_files beside_late start eq_refl eq_refl beside_late_obeys start_sound).
Defined.
(** A write that runs into the timeout gives its claim back. *)
Definition late_run : Ran (World State) ToolAnswer :=
  play (execute (session $"s" versioned_services) EditTool (edit_args $"a.txt" $"one" $"uno")) [calm; calm; calm; mkMoment id (Some true)] start.
Lemma failed_call_keeps_no_claim_witness : succeeded (ran_answer late_run) = false /\ w_claims (ran_world late_run) = w_claims start.
Proof.
  split; [vm_compute; reflexivity|].
  apply (failed_call_keeps_no_claim (session $"s" versioned_services) EditTool (edit_args $"a.txt" $"one" $"uno")); [done| |vm_compute; reflexivity].
  by repeat constructor.
Defined.
(** An append whose answer was lost is sent again. *)
Definition appended : World State :=
  ran_world (play (execute (session $"s" versioned_services) WriteTool (append_args $"a.txt" $"more" 4)) [] start).
Lemma repeated_append_is_harmless_witness :
  text_of appended $"a.txt" = Some ($"one" ++ nl ++ $"more")
  /\ ran_answer (play (execute (session $"s" versioned_services) WriteTool (append_args $"a.txt" $"more" 4)) [] appended)
     = Done (Appended $"a.txt" 4 4 8 true).
Proof.
  split; [vm_compute; reflexivity|].
  eapply (repeated_append_is_harmless (session $"s" versioned_services) (append_args $"a.txt" $"more" 4) $"a.txt" $"a.txt" ($"one" ++ nl) $"more" [] appended);
    [vm_compute; reflexivity|vm_compute; reflexivity|discriminate|vm_compute; reflexivity|vm_compute; reflexivity|vm_compute; discriminate|reflexivity|].
  eexists. vm_compute. reflexivity.
Defined.

(** ** Where the tools fall short *)
(** Two entries for one file, without versions: both are read before either is written, so
    the second write undoes the first, and the call reports success for both. *)
Lemma batch_loses_a_patch :
  let w := mkWorld (put empty $"a.txt" ($"one" ++ nl ++ $"two" ++ nl)) ∅ in
  let first := $"@@ -1 +1 @@" ++ nl ++ $"-one" ++ nl ++ $"+uno" in
  let second := $"@@ -2 +2 @@" ++ nl ++ $"-two" ++ nl ++ $"+due" in
  let r := play (execute (session $"s" plain_services) PatchTool (batch [entry $"a.txt" first; entry $"a.txt" second])) [] w in
  succeeded (ran_answer r) = true /\ text_of (ran_world r) $"a.txt" = Some ($"one" ++ nl ++ $"due" ++ nl).
Proof. vm_compute. auto. Qed.
(** A refused batch keeps the claims it took for files it did not write: another session is
    then refused the file although nobody has changed it. *)
Lemma refused_batch_keeps_a_claim :
  let w := mkWorld (w_disk start) {[ root ++ [Normal $"b.txt"] := $"other" ]} in
  let r := play (execute (session $"s" versioned_services) PatchTool
                  (batch [entry $"a.txt" (replace_line $"one" $"uno"); entry $"b.txt" (replace_line $"two" $"due")])) [] w in
  succeeded (ran_answer r) = false /\ text_of (ran_world r) $"a.txt" = Some ($"one" ++ nl)
  /\ w_claims (ran_world r) !! (root ++ [Normal $"a.txt"]) = Some $"s".
Proof. vm_compute. auto. Qed.
(** A call that is dropped at its deadline, after its claim and before the write that does
    not come back, leaves the claim although it has changed nothing: run to its end, the
    same call with a failed write gives it back. *)
Lemma abandoned_call_keeps_a_claim :
  let call := execute (session $"s" versioned_services) EditTool (edit_args $"a.txt" $"one" $"uno") in
  let left := abandon 3 call [] start in
  w_claims left !! (root ++ [Normal $"a.txt"]) = Some $"s" /\ text_of left $"a.txt" = Some ($"one" ++ nl)
  /\ w_claims (ran_world (play call [calm; calm; calm; mkMoment id (Some false)] start)) !! (root ++ [Normal $"a.txt"]) = None.
Proof. vm_compute. auto. Qed.
(** Whether a claim is new is asked before it is taken: when another call of the same session
    takes it in between, a failed write gives back a claim that is the other call's. *)
Lemma failed_call_releases_anothers_claim :
  let path := root ++ [Normal $"a.txt"] in
  let claimed w := mkWorld (w_disk w) (<[path := $"s"]> (w_claims w)) in
  let call := execute (session $"s" versioned_services) EditTool (edit_args $"a.txt" $"one" $"uno") in
  let r := play call [calm; calm; mkMoment claimed None; mkMoment id (Some false)] start in
  succeeded (ran_answer r) = false /\ w_claims (ran_world r) !! path = None.
Proof. vm_compute. auto. Qed.
(** The claim is taken for the path as it was spelled and the write goes to the path with
    its white space trimmed, so a padded path changes a file another session has claimed. *)
Lemma padded_path_evades_the_claim :
  let w := mkWorld (w_disk start) {[ root ++ [Normal $"a.txt"] := $"other" ]} in
  let r := play (execute (session $"s" versioned_services) EditTool (edit_args $" a.txt" $"one" $"uno")) [] w in
  succeeded (ran_answer r) = true /\ text_of (ran_world r) $"a.txt" = Some ($"uno" ++ nl)
  /\ w_claims (ran_world r) !! (root ++ [Normal $"a.txt"]) = Some $"other".
Proof. vm_compute. auto. Qed.
(** The answer to a call that timed out carries no kind, although both error types have one
    for a timeout. *)
Lemma timeout_has_no_kind :
  match ran_answer late_run with Refused (WriteFailed _) kind => kind = None | _ => False end.
Proof. vm_compute. reflexivity. Qed.
