(* ===== verification/Confirmation.v ===== *)
(** Human confirmation ([hitl.rs], [tool_confirmation.rs], the delegation part of
    [child_run.rs]): the manager of pending requests, the providers built from managers, and
    the runtime that waits for an answer.

    The managers of all runs and the one-shot channels of their requests are one shared
    state. A provider is a record of programs on it, one per method of the trait. The code
    holds the lock of the pending map only while it changes the map: the sends of responses
    and events that follow are steps of their own, between which other tasks run. Two parts
    of the state record what the code keeps in local variables: the responses a task has
    taken a request for and not yet sent, and the order in which the pending map changed. *)
From stdpp Require Import gmap.
From S2P Require Import Prelude Text PermissionRule PermissionPolicy Programs.

(** ** Policies *)
Inductive TimeoutAction : Type := TimeoutReject | TimeoutAutoApprove.
#[global] Instance TimeoutAction_eq_dec : EqDecision TimeoutAction.
Proof. solve_decision. Defined.
Record ConfirmationPolicy : Type := mkConfirmationPolicy {
  cp_enabled : bool;
  cp_default_timeout_ms : Z;
  cp_timeout_action : TimeoutAction;
  cp_yolo_lanes : list SessionLane;
}.
Definition default_confirmation : ConfirmationPolicy := mkConfirmationPolicy false 30000 TimeoutReject [].
Definition enabled_confirmation : ConfirmationPolicy := mkConfirmationPolicy true 30000 TimeoutReject [].
Definition with_yolo_lanes (lanes : list SessionLane) (p : ConfirmationPolicy) : ConfirmationPolicy :=
  mkConfirmationPolicy (cp_enabled p) (cp_default_timeout_ms p) (cp_timeout_action p) lanes.
Definition with_timeout (timeout_ms : Z) (action : TimeoutAction) (p : ConfirmationPolicy) : ConfirmationPolicy :=
  mkConfirmationPolicy (cp_enabled p) timeout_ms action (cp_yolo_lanes p).
(** [combine_confirmation_policies], on the policies of the providers. *)
Definition combine_two (a b : ConfirmationPolicy) : ConfirmationPolicy :=
  mkConfirmationPolicy (cp_enabled a || cp_enabled b) (Z.min (cp_default_timeout_ms a) (cp_default_timeout_ms b))
    (if bool_decide (cp_timeout_action b = TimeoutReject) then TimeoutReject else cp_timeout_action a)
    (List.filter (fun lane => bool_decide (lane ∈ cp_yolo_lanes b)) (cp_yolo_lanes a)).
Definition combine_confirmation_policies (policies : list ConfirmationPolicy) : ConfirmationPolicy :=
  match policies with [] => enabled_confirmation | first :: rest => fold_left combine_two rest first end.

(** ** Requests and managers *)
Record ConfirmationResponse : Type := mkResponse { cr_approved : bool; cr_reason : option str }.
Record PendingConfirmation : Type := mkPending {
  pc_tool_id : str;
  pc_tool_name : str;
  pc_args : json;
  pc_created_at : Z;
  pc_timeout_ms : Z;
  pc_channel : nat;
}.
Definition is_timed_out (now_ms : Z) (p : PendingConfirmation) : bool := pc_timeout_ms p <? now_ms - pc_created_at p.
Definition remaining_ms (now_ms : Z) (p : PendingConfirmation) : Z := Z.max 0 (pc_timeout_ms p - (now_ms - pc_created_at p)).
Inductive ConfirmationEvent : Type :=
| ConfirmationRequired (tool_id tool_name : str) (args : json) (timeout_ms : Z)
| ConfirmationReceived (tool_id : str) (approved : bool) (reason : option str)
| ConfirmationTimeout (tool_id action_taken : str).
(** A change of the pending map: a request entered it, or a call took requests out of it,
    with the response it will send. *)
Inductive PendingChange : Type :=
| Entered (tool_id tool_name : str) (args : json) (channel : nat)
| Taken (tool_id : str) (approved : bool) (channel : nat).
Record ConfirmationManager : Type := mkConfirmationManager {
  cm_policy : ConfirmationPolicy;
  cm_pending : gmap str PendingConfirmation;
  cm_history : list PendingChange;
  cm_events : list ConfirmationEvent;
}.
Definition new_confirmation_manager (policy : ConfirmationPolicy) : ConfirmationManager := mkConfirmationManager policy ∅ [] [].
(** The managers, the answers sent on channels, the responses taken requests are about to
    get, the next channel, the ids each delegation has forwarded to its parent, and the
    clock. *)
Record Confirmations : Type := mkConfirmations {
  cs_managers : gmap nat ConfirmationManager;
  cs_answers : gmap nat ConfirmationResponse;
  cs_sending : gmap nat ConfirmationResponse;
  cs_next : nat;
  cs_forwarded : gmap nat (gset str);
  cs_now_ms : Z;
}.
Definition manager (m : nat) (s : Confirmations) : ConfirmationManager := default (new_confirmation_manager default_confirmation) (cs_managers s !! m).
Definition set_manager (m : nat) (x : ConfirmationManager) (s : Confirmations) : Confirmations :=
  mkConfirmations (<[m := x]> (cs_managers s)) (cs_answers s) (cs_sending s) (cs_next s) (cs_forwarded s) (cs_now_ms s).
(** A task holds the sender of a channel and the response for it. *)
Definition hold (channel : nat) (r : ConfirmationResponse) (s : Confirmations) : Confirmations :=
  mkConfirmations (cs_managers s) (cs_answers s) (<[channel := r]> (cs_sending s)) (cs_next s) (cs_forwarded s) (cs_now_ms s).
(** [response_tx.send(response)]: the sender is consumed. *)
Definition send_response (channel : nat) (r : ConfirmationResponse) (s : Confirmations) : Confirmations :=
  mkConfirmations (cs_managers s) (<[channel := r]> (cs_answers s)) (delete channel (cs_sending s)) (cs_next s) (cs_forwarded s) (cs_now_ms s).
Definition new_channel (s : Confirmations) : nat * Confirmations :=
  (cs_next s, mkConfirmations (cs_managers s) (cs_answers s) (cs_sending s) (S (cs_next s)) (cs_forwarded s) (cs_now_ms s)).
Definition set_forwarded (d : nat) (ids : gset str) (s : Confirmations) : Confirmations :=
  mkConfirmations (cs_managers s) (cs_answers s) (cs_sending s) (cs_next s) (<[d := ids]> (cs_forwarded s)) (cs_now_ms s).
Definition forwarded (d : nat) (s : Confirmations) : gset str := default ∅ (cs_forwarded s !! d).
Definition with_confirmation_policy (p : ConfirmationPolicy) (x : ConfirmationManager) : ConfirmationManager :=
  mkConfirmationManager p (cm_pending x) (cm_history x) (cm_events x).
Definition with_pendings (f : gmap str PendingConfirmation -> gmap str PendingConfirmation) (changes : list PendingChange) (x : ConfirmationManager)
    : ConfirmationManager :=
  mkConfirmationManager (cm_policy x) (f (cm_pending x)) (cm_history x ++ changes) (cm_events x).
(** [event_tx.send(event)] *)
Definition broadcast (m : nat) (e : ConfirmationEvent) (s : Confirmations) : Confirmations :=
  let x := manager m s in
  set_manager m (mkConfirmationManager (cm_policy x) (cm_pending x) (cm_history x) (cm_events x ++ [e])) s.

Definition duplicate_reason (tool_id : str) : option str :=
  Some ($"Duplicate confirmation tool id '" ++ tool_id ++ $"'; both requests were rejected").
Definition cancelled_response : ConfirmationResponse := mkResponse false (Some $"Confirmation cancelled").
(** The critical section of [request_confirmation]: the request enters the pending map, or
    it and the request with its id are taken to be rejected. Its time stamp, which no
    decision reads, is taken here; the code takes it just before the lock. *)
Definition enter (m : nat) (tool_id tool_name : str) (args : json) (timeout_ms : Z) (s : Confirmations)
    : (nat * option PendingConfirmation) * Confirmations :=
  let '(channel, s) := new_channel s in
  let pending := mkPending tool_id tool_name args (cs_now_ms s) timeout_ms channel in
  let x := manager m s in
  match cm_pending x !! tool_id with
  | None => ((channel, None), set_manager m (with_pendings (insert tool_id pending) [Entered tool_id tool_name args channel] x) s)
  | Some existing =>
      let response := mkResponse false (duplicate_reason tool_id) in
      let s := set_manager m (with_pendings (delete tool_id) [Taken tool_id false (pc_channel existing)] x) s in
      ((channel, Some existing), hold channel response (hold (pc_channel existing) response s))
  end.
(** The critical section of [confirm] and [cancel]: the request with this id, if there is
    one, is taken for the response [r]. *)
Definition take_pending (m : nat) (tool_id : str) (r : ConfirmationResponse) (s : Confirmations) : option nat * Confirmations :=
  let x := manager m s in
  match cm_pending x !! tool_id with
  | Some pending =>
      (Some (pc_channel pending),
       hold (pc_channel pending) r (set_manager m (with_pendings (delete tool_id) [Taken tool_id (cr_approved r) (pc_channel pending)] x) s))
  | None => (None, s)
  end.
(** The critical section of [cancel_all]. *)
Definition drain_pending (m : nat) (s : Confirmations) : list nat * Confirmations :=
  let x := manager m s in
  let list := map_to_list (cm_pending x) in
  (map (fun entry => pc_channel (snd entry)) list,
   fold_left (fun s entry => hold (pc_channel (snd entry)) cancelled_response s) list
     (set_manager m (with_pendings (fun _ => ∅) (map (fun entry => Taken (fst entry) false (pc_channel (snd entry))) list) x) s)).
Definition set_confirmation_policy (m : nat) (p : ConfirmationPolicy) (s : Confirmations) : Confirmations :=
  set_manager m (with_confirmation_policy p (manager m s)) s.

(** ** Receivers *)
(** What a request returns: an answer at hand, a channel, or the task that waits for several. *)
#[warnings="-register-all"]
Inductive Receiver : Type :=
| Immediate (r : ConfirmationResponse)
| Channel (channel : nat)
| AllOf (receivers : list Receiver).
Definition joined_response (responses : list ConfirmationResponse) : ConfirmationResponse :=
  let reasons := omap (fun r => if cr_approved r then None else Some (default $"Confirmation was rejected" (cr_reason r))) responses in
  if bool_decide (reasons = []) then mkResponse true None else mkResponse false (Some (join $"; " reasons)).
Fixpoint awaited (s : Confirmations) (r : Receiver) : option ConfirmationResponse :=
  match r with
  | Immediate r => Some r
  | Channel channel => cs_answers s !! channel
  | AllOf receivers => joined_response <$> mapM (awaited s) receivers
  end.

(** ** Providers *)
(** Whether the invocation has been cancelled is the choice of a step. *)
Inductive Signal : Type := Undisturbed | CancelSignal.
#[global] Instance Signal_inhabited : Inhabited Signal := populate Undisturbed.
Abbreviation Dialog A := (Prog Confirmations Signal A).
Definition look {A} (f : Confirmations -> A) : Dialog A := act (fun _ s => (f s, s)).
Definition change {A} (f : Confirmations -> A * Confirmations) : Dialog A := act (fun _ s => f s).
Definition effect (f : Confirmations -> Confirmations) : Dialog unit := change (fun s => (tt, f s)).
(** ** The operations of a manager *)
Definition manager_request (m : nat) (tool_id tool_name : str) (args : json) : Dialog Receiver :=
  timeout_ms <- look (fun s => cp_default_timeout_ms (cm_policy (manager m s))) ;;
  entered <- change (enter m tool_id tool_name args timeout_ms) ;;
  match entered with
  | (channel, Some existing) =>
      let reason := duplicate_reason tool_id in
      _ <- effect (send_response (pc_channel existing) (mkResponse false reason)) ;;
      _ <- effect (send_response channel (mkResponse false reason)) ;;
      _ <- effect (broadcast m (ConfirmationReceived tool_id false reason)) ;;
      Ret (Channel channel)
  | (channel, None) =>
      _ <- effect (broadcast m (ConfirmationRequired tool_id tool_name args timeout_ms)) ;;
      Ret (Channel channel)
  end.
Definition manager_confirm (m : nat) (tool_id : str) (approved : bool) (reason : option str) : Dialog bool :=
  taken <- change (take_pending m tool_id (mkResponse approved reason)) ;;
  match taken with
  | Some channel =>
      _ <- effect (broadcast m (ConfirmationReceived tool_id approved reason)) ;;
      _ <- effect (send_response channel (mkResponse approved reason)) ;;
      Ret true
  | None => Ret false
  end.
Definition manager_cancel (m : nat) (tool_id : str) : Dialog bool :=
  taken <- change (take_pending m tool_id cancelled_response) ;;
  match taken with
  | Some channel => _ <- effect (send_response channel cancelled_response) ;; Ret true
  | None => Ret false
  end.
Fixpoint send_each (channels : list nat) (r : ConfirmationResponse) : Dialog unit :=
  match channels with [] => Ret tt | channel :: channels => _ <- effect (send_response channel r) ;; send_each channels r end.
Definition manager_cancel_all (m : nat) : Dialog Z :=
  channels <- change (drain_pending m) ;;
  _ <- send_each channels cancelled_response ;;
  Ret (Z.of_nat (length channels)).
(** A trait object; [pv_identity] is what [Arc::ptr_eq] compares. *)
Record Provider : Type := mkProvider {
  pv_identity : nat;
  pv_requires_confirmation : str -> Dialog bool;
  pv_requires_confirmation_for : str -> json -> Dialog bool;
  pv_confirmation_available_for : str -> json -> Dialog bool;
  pv_policy : Dialog ConfirmationPolicy;
  pv_policy_for : str -> json -> Dialog ConfirmationPolicy;
  pv_request_confirmation : str -> str -> json -> Dialog Receiver;
  pv_confirm : str -> bool -> option str -> Dialog bool;
  pv_set_policy : ConfirmationPolicy -> Dialog unit;
  pv_check_timeouts : Dialog Z;
  pv_cancel : str -> Dialog bool;
  pv_expire : str -> TimeoutAction -> Dialog bool;
  pv_cancel_all : Dialog Z;
}.
Definition manager_provider (m : nat) : Provider :=
  let requires (_ : str) := look (fun s => cp_enabled (cm_policy (manager m s))) in
  let policy := look (fun s => cm_policy (manager m s)) in
  mkProvider m requires (fun tool_name _ => requires tool_name) (fun _ _ => Ret true) policy (fun _ _ => policy)
    (manager_request m) (manager_confirm m) (fun p => effect (set_confirmation_policy m p))
    (Ret 0) (manager_cancel m) (fun _ _ => Ret false) (manager_cancel_all m).
Definition auto_approve (identity : nat) : Provider :=
  let policy := Ret default_confirmation in
  mkProvider identity (fun _ => Ret false) (fun _ _ => Ret false) (fun _ _ => Ret true) policy (fun _ _ => policy)
    (fun _ _ _ => Ret (Immediate (mkResponse true None)))
    (fun _ _ _ => Ret false) (fun _ => Ret tt) (Ret 0) (fun _ => Ret false) (fun _ _ => Ret false) (Ret 0).

(** ** Delegation to a child run *)
Abbreviation Checker := (str -> json -> PermissionDecision).
Definition stricter_decision (left right : PermissionDecision) : PermissionDecision :=
  match left, right with
  | Deny, _ | _, Deny => Deny
  | Ask, _ | _, Ask => Ask
  | Allow, Allow => Allow
  end.
Definition delegated_check (child parent : Checker) : Checker := fun tool_name args => stricter_decision (child tool_name args) (parent tool_name args).
(** The checker of a child run in [ChildRunContext::apply_to]. *)
Definition composed_checker (child parent : option Checker) : option Checker :=
  match child, parent with
  | Some child, Some parent => Some (delegated_check child parent)
  | Some child, None => Some child
  | None, parent => parent
  end.
Definition ptr_eq (a b : Provider) : bool := Nat.eqb (pv_identity a) (pv_identity b).
Record ConfirmationTargets : Type := mkTargets { ct_providers : list Provider; ct_missing_scopes : list str; ct_permission_denied : bool }.
Definition add_target (scope : str) (provider : option Provider) (t : ConfirmationTargets) : ConfirmationTargets :=
  match provider with
  | None => if bool_decide (scope ∈ ct_missing_scopes t) then t
            else mkTargets (ct_providers t) (ct_missing_scopes t ++ [scope]) (ct_permission_denied t)
  | Some provider => if existsb (fun existing => ptr_eq existing provider) (ct_providers t) then t
                     else mkTargets (ct_providers t ++ [provider]) (ct_missing_scopes t) (ct_permission_denied t)
  end.
Definition is_available (t : ConfirmationTargets) : bool := negb (ct_permission_denied t) && bool_decide (ct_missing_scopes t = []).
Definition distinct_providers (l : list (option Provider)) : list Provider :=
  fold_left (fun providers provider =>
    match provider with
    | Some provider => if existsb (fun existing => ptr_eq existing provider) providers then providers else providers ++ [provider]
    | None => providers
    end) l [].
Fixpoint filter_active (tool_name : str) (args : json) (providers : list Provider) : Dialog (list Provider) :=
  match providers with
  | [] => Ret []
  | provider :: providers =>
      active <- pv_requires_confirmation_for provider tool_name args ;;
      rest <- filter_active tool_name args providers ;;
      Ret (if active : bool then provider :: rest else rest)
  end.
Fixpoint request_all (tool_id tool_name : str) (args : json) (providers : list Provider) : Dialog (list Receiver) :=
  match providers with
  | [] => Ret []
  | provider :: providers =>
      receiver <- pv_request_confirmation provider tool_id tool_name args ;;
      rest <- request_all tool_id tool_name args providers ;;
      Ret (receiver :: rest)
  end.
Fixpoint policies_of (providers : list Provider) : Dialog (list ConfirmationPolicy) :=
  match providers with
  | [] => Ret []
  | provider :: providers => policy <- pv_policy provider ;; rest <- policies_of providers ;; Ret (policy :: rest)
  end.
Definition on_provider {A} (none : A) (provider : option Provider) (f : Provider -> Dialog A) : Dialog A :=
  match provider with Some provider => f provider | None => Ret none end.

Section Delegated.
Context (identity : nat) (child_checker : option Checker) (child : option Provider) (parent_checker : option Checker) (parent : option Provider).

Definition targets (tool_name : str) (args : json) : ConfirmationTargets :=
  let child_decision := (fun checker : Checker => checker tool_name args) <$> child_checker in
  let parent_decision := (fun checker : Checker => checker tool_name args) <$> parent_checker in
  let none := mkTargets [] [] false in
  if bool_decide (child_decision = Some Deny) || bool_decide (parent_decision = Some Deny) then mkTargets [] [] true
  else
    let child_asks := bool_decide (child_decision = Some Ask) in
    let parent_asks := bool_decide (parent_decision = Some Ask) in
    let t := if child_asks then add_target $"child" child none else none in
    let t := if parent_asks then add_target $"parent" parent t else t in
    if negb child_asks && negb parent_asks then
      if bool_decide (child_decision = None) && bool_decide (parent_decision = None) then add_target $"child" child t
      else add_target $"parent" parent t
    else t.
Definition all_providers : list Provider := distinct_providers [child; parent].
Definition active_providers (tool_name : str) (args : json) : Dialog ConfirmationTargets :=
  let t := targets tool_name args in
  if is_available t then
    active <- filter_active tool_name args (ct_providers t) ;;
    Ret (mkTargets active (ct_missing_scopes t) (ct_permission_denied t))
  else Ret t.
Definition same_as_child (parent : Provider) : bool := match child with Some child => ptr_eq child parent | None => false end.
Definition remember_parent_forward (tool_id : str) (providers : list Provider) : Dialog unit :=
  match parent with
  | Some parent =>
      if same_as_child parent then Ret tt
      else if existsb (fun provider => ptr_eq provider parent) providers then
        change (fun s => (tt, set_forwarded identity ({[ tool_id ]} ∪ forwarded identity s) s))
      else Ret tt
  | None => Ret tt
  end.
Definition take_parent_forward (tool_id : str) : Dialog bool :=
  change (fun s => (bool_decide (tool_id ∈ forwarded identity s), set_forwarded identity (forwarded identity s ∖ {[ tool_id ]}) s)).
Definition drain_parent_forwards : Dialog (list str) := change (fun s => (elements (forwarded identity s), set_forwarded identity ∅ s)).
Definition unavailable_reason (t : ConfirmationTargets) : option str :=
  let scopes := if bool_decide (ct_missing_scopes t = []) then $"delegated permission boundary" else join $" and " (ct_missing_scopes t) in
  Some ($"Confirmation is unavailable for the " ++ scopes ++ $" scope; execution was denied.").
Fixpoint any_requires (tool_name : str) (providers : list Provider) : Dialog bool :=
  match providers with
  | [] => Ret (bool_decide (length all_providers = 0%nat))
  | provider :: providers =>
      required <- pv_requires_confirmation provider tool_name ;;
      if required : bool then Ret true else any_requires tool_name providers
  end.
Fixpoint cancel_each (tool_ids : list str) (provider : Provider) (count : Z) : Dialog Z :=
  match tool_ids with
  | [] => Ret count
  | tool_id :: tool_ids => hit <- pv_cancel provider tool_id ;; cancel_each tool_ids provider (if hit : bool then count + 1 else count)
  end.
Fixpoint set_each (p : ConfirmationPolicy) (providers : list Provider) : Dialog unit :=
  match providers with [] => Ret tt | provider :: providers => _ <- pv_set_policy provider p ;; set_each p providers end.
(** Settling one id: the child always, the parent if this delegation forwarded the id. *)
Definition settle_both (tool_id : str) (f : Provider -> Dialog bool) : Dialog bool :=
  hit <- on_provider false child f ;;
  mine <- take_parent_forward tool_id ;;
  if mine : bool then hit' <- on_provider false parent f ;; Ret (hit || hit') else Ret hit.
Definition delegated : Provider :=
  mkProvider identity
    (fun tool_name => any_requires tool_name all_providers)
    (fun tool_name args => t <- active_providers tool_name args ;; Ret (negb (is_available t) || negb (bool_decide (length (ct_providers t) = 0%nat))))
    (fun tool_name args => Ret (is_available (targets tool_name args)))
    (policies <- policies_of all_providers ;; Ret (combine_confirmation_policies policies))
    (fun tool_name args =>
       t <- active_providers tool_name args ;;
       if is_available t then policies <- policies_of (ct_providers t) ;; Ret (combine_confirmation_policies policies) else Ret enabled_confirmation)
    (fun tool_id tool_name args =>
       t <- active_providers tool_name args ;;
       if negb (is_available t) then Ret (Immediate (mkResponse false (unavailable_reason t)))
       else match ct_providers t with
            | [] => Ret (Immediate (mkResponse true None))
            | providers =>
                _ <- remember_parent_forward tool_id providers ;;
                receivers <- request_all tool_id tool_name args providers ;;
                Ret (match receivers with [receiver] => receiver | receivers => AllOf receivers end)
            end)
    (fun tool_id approved reason => settle_both tool_id (fun provider => pv_confirm provider tool_id approved reason))
    (fun p => set_each p all_providers)
    (count <- on_provider 0 child pv_check_timeouts ;;
     match parent with
     | Some parent => if same_as_child parent then Ret count else count' <- pv_check_timeouts parent ;; Ret (count + count')
     | None => Ret count
     end)
    (fun tool_id => settle_both tool_id (fun provider => pv_cancel provider tool_id))
    (fun tool_id action => settle_both tool_id (fun provider => pv_expire provider tool_id action))
    (count <- on_provider 0 child pv_cancel_all ;;
     ids <- drain_parent_forwards ;;
     match parent with
     | Some parent => if same_as_child parent then Ret count else cancel_each ids parent count
     | None => Ret count
     end).
End Delegated.

(** ** Waiting for the answer *)
Inductive ToolConfirmationResolution : Type := ConfirmationApproved | ConfirmationRejected (output : str) | ConfirmationWaiting.
(** [resolve_with_cancellation]; [ConfirmationWaiting] when at the moment of the second step
    neither has the invocation been cancelled nor the answer arrived. A channel of a manager
    is never closed without an answer, and the branch for a closed channel is left out. *)
Definition resolve_with_cancellation (provider : Provider) (tool_id tool_name : str) (args : json) : Dialog ToolConfirmationResolution :=
  receiver <- pv_request_confirmation provider tool_id tool_name args ;;
  woken <- act (fun signal s => match signal with CancelSignal => (None, s) | Undisturbed => (Some (awaited s receiver), s) end) ;;
  match woken with
  | None => _ <- pv_cancel provider tool_id ;; Ret (ConfirmationRejected ($"Tool '" ++ tool_name ++ $"' cancelled by caller"))
  | Some None => Ret ConfirmationWaiting
  | Some (Some r) =>
      Ret (if cr_approved r then ConfirmationApproved
           else ConfirmationRejected ($"Tool '" ++ tool_name ++ $"' execution was REJECTED by the user. Reason: "
                                      ++ default $"No reason provided" (cr_reason r)
                                      ++ $". DO NOT retry this tool call unless the user explicitly asks you to."))
  end.
