(* ===== verification/ConfirmationFacts.v ===== *)
(** The promises of human confirmation: each request is settled once, an approval comes from a
    call of the host that took that very request, and every provider keeps the interface
    [Endorses] that the invocation of tools relies on. *)
From stdpp Require Import gmap relations sorting.
From S2P Require Import Prelude Text PermissionRule PermissionPolicy Programs Confirmation.

(** ** What the history of a manager says *)
Definition change_id (e : PendingChange) : str := match e with Entered tool_id _ _ _ | Taken tool_id _ _ => tool_id end.
Definition quiet (tool_id : str) (l : list PendingChange) : Prop := Forall (fun e => change_id e <> tool_id) l.
Definition history (m : nat) (s : Confirmations) : list PendingChange := cm_history (manager m s).
Definition entered (m : nat) (s : Confirmations) (tool_id tool_name : str) (args : json) (c : nat) : Prop :=
  Entered tool_id tool_name args c ∈ history m s.
(** The request on channel [c] is the last change about its id. *)
Definition unsettled (m : nat) (s : Confirmations) (tool_id tool_name : str) (args : json) (c : nat) : Prop :=
  exists l1 l2, history m s = l1 ++ Entered tool_id tool_name args c :: l2 /\ quiet tool_id l2.
(** A call with an approval for the id took exactly this request: from when it entered the
    pending map until then no other request had the id. *)
Definition endorsed (m : nat) (s : Confirmations) (tool_id tool_name : str) (args : json) (c : nat) : Prop :=
  exists l1 l2 l3, quiet tool_id l2 /\ history m s = l1 ++ Entered tool_id tool_name args c :: l2 ++ Taken tool_id true c :: l3.
(** The host has been sent the event that shows the call. *)
Definition announced (m : nat) (s : Confirmations) (tool_id tool_name : str) (args : json) : Prop :=
  exists timeout_ms, ConfirmationRequired tool_id tool_name args timeout_ms ∈ cm_events (manager m s).
Definition pending_at (m : nat) (tool_id : str) (s : Confirmations) : option PendingConfirmation := cm_pending (manager m s) !! tool_id.
(** The response of a settled request, whether it has been sent or is about to be. *)
Definition verdict (s : Confirmations) (c : nat) : option ConfirmationResponse :=
  match cs_answers s !! c with Some r => Some r | None => cs_sending s !! c end.

Record conf_ok (s : Confirmations) : Prop := mkConfOk {
  ok_pending : forall m tool_id p, pending_at m tool_id s = Some p ->
    pc_tool_id p = tool_id /\ (pc_channel p < cs_next s)%nat /\ verdict s (pc_channel p) = None /\
    unsettled m s tool_id (pc_tool_name p) (pc_args p) (pc_channel p);
  ok_unique : forall m id p m' id' p', pending_at m id s = Some p -> pending_at m' id' s = Some p' ->
    pc_channel p = pc_channel p' -> m = m' /\ id = id';
  ok_verdicts : forall c r, verdict s c = Some r -> (c < cs_next s)%nat /\
    (cr_approved r = true -> exists m tool_id tool_name args, endorsed m s tool_id tool_name args c);
  ok_open : forall c, (c < cs_next s)%nat -> is_Some (verdict s c) \/ exists m id p, pending_at m id s = Some p /\ pc_channel p = c;
  ok_entered : forall m id name args c, entered m s id name args c -> (c < cs_next s)%nat;
  ok_entered_once : forall m id name args m' id' name' args' c, entered m s id name args c -> entered m' s id' name' args' c ->
    m = m' /\ id = id' /\ name = name' /\ args = args';
  ok_sending : forall c, is_Some (cs_sending s !! c) -> cs_answers s !! c = None;
}.

(** ** Views of the state *)
Lemma manager_set m m' x s : manager m' (set_manager m x s) = if bool_decide (m = m') then x else manager m' s.
Proof. unfold manager, set_manager. cbn. case_bool_decide; subst; simplify_map_eq; done. Qed.
Lemma manager_hold m c r s : manager m (hold c r s) = manager m s.
Proof. done. Qed.
Lemma entered_app m s s' es id name args c : history m s' = history m s ++ es ->
  entered m s id name args c -> entered m s' id name args c.
Proof. intros He Ht. unfold entered. rewrite He. apply elem_of_app. by left. Qed.
Lemma endorsed_app m s s' es id name args c : history m s' = history m s ++ es ->
  endorsed m s id name args c -> endorsed m s' id name args c.
Proof.
  intros He (l1 & l2 & l3 & Hq & Hs). exists l1, l2, (l3 ++ es). split; [done|].
  rewrite He, Hs, <- !app_assoc. cbn. by rewrite <- app_assoc.
Qed.
Lemma unsettled_app m s s' es id name args c : history m s' = history m s ++ es -> quiet id es ->
  unsettled m s id name args c -> unsettled m s' id name args c.
Proof.
  intros He Hes (l1 & l2 & Hs & Hq). exists l1, (l2 ++ es). split; [|by apply Forall_app].
  rewrite He, Hs, <- !app_assoc. done.
Qed.
Lemma endorsed_entered m s id name args c : endorsed m s id name args c -> entered m s id name args c.
Proof. intros (l1 & l2 & l3 & _ & He). unfold entered. rewrite He. apply elem_of_app. right. left. Qed.
Lemma verdict_hold c c' r s : cs_answers s !! c = None -> verdict (hold c r s) c' = if bool_decide (c = c') then Some r else verdict s c'.
Proof.
  intros Hc. unfold verdict. cbn. case_bool_decide as E; [subst c'; by rewrite Hc, lookup_insert_eq|]. by rewrite lookup_insert_ne by done.
Qed.
(** Sending a held response changes no verdict. *)
Lemma verdict_send c r s : verdict s c = Some r -> forall c', verdict (send_response c r s) c' = verdict s c'.
Proof.
  unfold verdict. intros Hc c'. cbn. destruct (decide (c = c')) as [->|Hne]; [by rewrite lookup_insert_eq, Hc|].
  by rewrite lookup_insert_ne, lookup_delete_ne by done.
Qed.

(** Everything a step may do to a well-formed state: settle some requests of one manager
    ([settles]), open one ([opens]), or reject a fresh channel; a send changes no verdict. *)
Record settles (m : nat) (s s' : Confirmations) : Prop := mkSettles {
  se_next : cs_next s' = cs_next s;
  se_others : forall m', m' <> m -> cm_pending (manager m' s') = cm_pending (manager m' s) /\ history m' s' = history m' s;
  se_kept : forall id p, pending_at m id s' = Some p -> pending_at m id s = Some p;
  se_history : exists es, history m s' = history m s ++ es /\ (forall id name args c, Entered id name args c ∉ es) /\
    forall id p, pending_at m id s' = Some p -> quiet id es;
  se_old : forall c r, verdict s c = Some r -> verdict s' c = Some r;
  se_new : forall c r, verdict s' c = Some r -> verdict s c = Some r \/
    exists id p, pending_at m id s = Some p /\ pending_at m id s' = None /\ pc_channel p = c /\
      (cr_approved r = true -> history m s' = history m s ++ [Taken id true c]);
  se_gone : forall id p, pending_at m id s = Some p -> pending_at m id s' = None -> is_Some (verdict s' (pc_channel p));
  se_sending : forall c, is_Some (cs_sending s' !! c) -> cs_answers s' !! c = None;
}.
Section Settles.
Context (m : nat) (s s' : Confirmations) (Hok : conf_ok s) (Hs : settles m s s').
Lemma settles_history m' : exists es, history m' s' = history m' s ++ es /\ (forall id name args c, Entered id name args c ∉ es) /\
  forall id p, pending_at m' id s' = Some p -> quiet id es.
Proof.
  destruct (decide (m' = m)) as [->|Hne]; [apply Hs|]. exists []. rewrite (proj2 (se_others _ _ _ Hs m' Hne)), app_nil_r.
  split; [done|]. split; [intros; apply not_elem_of_nil|constructor].
Qed.
Lemma settles_pending m' id p : pending_at m' id s' = Some p -> pending_at m' id s = Some p.
Proof.
  destruct (decide (m' = m)) as [->|Hne]; [apply Hs|]. unfold pending_at. by rewrite (proj1 (se_others _ _ _ Hs m' Hne)).
Qed.
Lemma settles_entered m' id name args c : entered m' s' id name args c -> entered m' s id name args c.
Proof.
  destruct (settles_history m') as (es & He & Hes & _). unfold entered. rewrite He, elem_of_app. intros [Ht|Ht]; [done|]. by apply Hes in Ht.
Qed.
Lemma settles_unanswered m' id p : pending_at m' id s' = Some p -> verdict s' (pc_channel p) = None.
Proof.
  intros Hp. pose proof (settles_pending _ _ _ Hp) as Hp0. destruct (ok_pending _ Hok _ _ _ Hp0) as (_ & _ & Hun & _).
  apply eq_None_not_Some. intros [r Hr]. destruct (se_new _ _ _ Hs _ _ Hr) as [H|(id' & p' & Hp' & Hg & Hc & _)]; [congruence|].
  destruct (ok_unique _ Hok _ _ _ _ _ _ Hp' Hp0 Hc) as [-> ->]. congruence.
Qed.
Lemma settles_approved c r : verdict s' c = Some r -> cr_approved r = true -> exists m id name args, endorsed m s' id name args c.
Proof.
  intros Hr Ha. destruct (se_new _ _ _ Hs _ _ Hr) as [H|(id & p & Hp & Hg & <- & Hap)].
  - destruct (ok_verdicts _ Hok _ _ H) as [_ Hx]. destruct (Hx Ha) as (m' & id & name & args & He). exists m', id, name, args.
    destruct (settles_history m') as (es & Hes & _). by eapply endorsed_app.
  - destruct (ok_pending _ Hok _ _ _ Hp) as (_ & _ & _ & l1 & l2 & Hs2 & Hq).
    exists m, id, (pc_tool_name p), (pc_args p), l1, l2, []. split; [done|]. rewrite (Hap Ha), Hs2, <- app_assoc. done.
Qed.
Lemma settles_ok : conf_ok s'.
Proof.
  constructor.
  - intros m' id p Hp. pose proof (settles_pending _ _ _ Hp) as Hp0. destruct (ok_pending _ Hok _ _ _ Hp0) as (Hid & Hlt & _ & Hu).
    rewrite (se_next _ _ _ Hs). split_and!; [done..|by eapply settles_unanswered|].
    destruct (settles_history m') as (es & He & _ & Hq). eapply unsettled_app; [done|by eapply Hq|done].
  - intros m1 id1 p1 m2 id2 p2 H1 H2. apply (ok_unique _ Hok); by apply settles_pending.
  - intros c r Hr. rewrite (se_next _ _ _ Hs). split; [|by apply settles_approved].
    destruct (se_new _ _ _ Hs _ _ Hr) as [H|(id & p & Hp & _ & <- & _)]; [by apply (ok_verdicts _ Hok _ _ H)|by apply (ok_pending _ Hok _ _ _ Hp)].
  - intros c. rewrite (se_next _ _ _ Hs). intros Hlt. destruct (ok_open _ Hok c Hlt) as [[r Hr]|(m' & id & p & Hp & Hc)].
    + left. exists r. by apply (se_old _ _ _ Hs).
    + destruct (pending_at m' id s') as [p'|] eqn:Hp'.
      * right. exists m', id, p'. split; [done|]. apply settles_pending in Hp'. congruence.
      * left. destruct (decide (m' = m)) as [->|Hne]; [subst c; by eapply (se_gone _ _ _ Hs)|].
        unfold pending_at in *. rewrite (proj1 (se_others _ _ _ Hs m' Hne)) in Hp'. congruence.
  - intros m' id name args c Ha. rewrite (se_next _ _ _ Hs). by eapply (ok_entered _ Hok), settles_entered.
  - intros m1 id1 n1 a1 m2 id2 n2 a2 c H1 H2. by apply (ok_entered_once _ Hok) with c; apply settles_entered.
  - apply Hs.
Qed.
End Settles.

(** A fresh channel that is rejected at once. *)
Lemma rejected_ok r s s' : cr_approved r = false -> cs_next s' = S (cs_next s) ->
  (forall m, manager m s' = manager m s) -> cs_answers s' = cs_answers s -> cs_sending s' = <[cs_next s := r]> (cs_sending s) -> conf_ok s -> conf_ok s'.
Proof.
  intros Hr Hn Hm Ha Hsend Hok.
  assert (Hp : forall m id, pending_at m id s' = pending_at m id s) by (intros; unfold pending_at; by rewrite Hm).
  assert (He : forall m, history m s' = history m s ++ []) by (intros; unfold history; by rewrite Hm, app_nil_r).
  assert (Hback : forall m id name args c, entered m s' id name args c -> entered m s id name args c)
    by (intros m id name args c; unfold entered; by rewrite He, app_nil_r).
  assert (Hfresh : verdict s (cs_next s) = None).
  { apply eq_None_not_Some. intros [x Hx]. apply (ok_verdicts _ Hok) in Hx as [? _]. lia. }
  assert (Hnoans : cs_answers s !! cs_next s = None) by (unfold verdict in Hfresh; by destruct (cs_answers s !! cs_next s)).
  assert (Hv : forall c, verdict s' c = if bool_decide (cs_next s = c) then Some r else verdict s c).
  { intros c. unfold verdict. rewrite Ha, Hsend. case_bool_decide as E; [subst c; by rewrite Hnoans, lookup_insert_eq|]. by rewrite lookup_insert_ne by done. }
  constructor.
  - intros m id p. rewrite Hp, Hn, Hv. intros Hx. destruct (ok_pending _ Hok _ _ _ Hx) as (? & ? & ? & ?).
    rewrite bool_decide_eq_false_2 by lia. split_and!; [done|lia|done|]. eapply unsettled_app; [apply He|constructor|done].
  - intros m1 id1 p1 m2 id2 p2. rewrite !Hp. apply (ok_unique _ Hok).
  - intros c r'. rewrite Hv, Hn. case_bool_decide as E; [intros [= <-]; split; [lia|congruence]|]. intros Hc.
    destruct (ok_verdicts _ Hok _ _ Hc) as [Hlt Hend]. split; [lia|]. intros Happ. destruct (Hend Happ) as (m & id & name & args & Hx).
    exists m, id, name, args. eapply endorsed_app; [apply He|done].
  - intros c. rewrite Hn, Hv. intros Hlt. case_bool_decide as E; [left; by eexists|].
    destruct (ok_open _ Hok c ltac:(lia)) as [?|(m & id & p & Hx & ?)]; [by left|]. right. exists m, id, p. by rewrite Hp.
  - intros m id name args c Hx. rewrite Hn. apply Nat.lt_lt_succ_r. by eapply (ok_entered _ Hok), Hback.
  - intros m1 id1 n1 a1 m2 id2 n2 a2 c H1 H2. by apply (ok_entered_once _ Hok) with c; apply Hback.
  - intros c. rewrite Ha, Hsend, lookup_insert_is_Some. intros [<-|[_ Hx]]; [done|by apply (ok_sending _ Hok)].
Qed.
(** A new request on a fresh channel, under an id that has none. *)
Record opens (m : nat) (tool_id tool_name : str) (args : json) (timeout_ms : Z) (s s' : Confirmations) : Prop := mkOpens {
  op_next : cs_next s' = S (cs_next s);
  op_answers : cs_answers s' = cs_answers s;
  op_sending : cs_sending s' = cs_sending s;
  op_others : forall m', m' <> m -> manager m' s' = manager m' s;
  op_free : pending_at m tool_id s = None;
  op_history : history m s' = history m s ++ [Entered tool_id tool_name args (cs_next s)];
  op_pending : cm_pending (manager m s') = <[tool_id := mkPending tool_id tool_name args (cs_now_ms s) timeout_ms (cs_next s)]> (cm_pending (manager m s));
}.
Section Opens.
Context (m : nat) (tool_id tool_name : str) (args : json) (timeout_ms : Z) (s s' : Confirmations).
Context (Hok : conf_ok s) (Ho : opens m tool_id tool_name args timeout_ms s s').
Lemma opens_pending m' id p : pending_at m' id s' = Some p ->
  (m' = m /\ id = tool_id /\ p = mkPending tool_id tool_name args (cs_now_ms s) timeout_ms (cs_next s)) \/
  (pending_at m' id s = Some p /\ (m' = m -> id <> tool_id)).
Proof.
  unfold pending_at. destruct (decide (m' = m)) as [->|Hne].
  - rewrite (op_pending _ _ _ _ _ _ _ Ho), lookup_insert_Some. intros [[-> <-]|[? ?]]; [by left|right; auto].
  - rewrite (op_others _ _ _ _ _ _ _ Ho _ Hne). by right.
Qed.
Lemma opens_kept m' id p : pending_at m' id s = Some p -> pending_at m' id s' = Some p.
Proof.
  intros Hp. pose proof (op_free _ _ _ _ _ _ _ Ho) as Hf. unfold pending_at in *. destruct (decide (m' = m)) as [->|Hne].
  - rewrite (op_pending _ _ _ _ _ _ _ Ho), lookup_insert_ne; [done|congruence].
  - by rewrite (op_others _ _ _ _ _ _ _ Ho _ Hne).
Qed.
Lemma opens_history m' : exists es, history m' s' = history m' s ++ es /\ Forall (fun e => m' = m /\ e = Entered tool_id tool_name args (cs_next s)) es.
Proof.
  destruct (decide (m' = m)) as [->|Hne].
  - eexists. split; [apply (op_history _ _ _ _ _ _ _ Ho)|]. by repeat constructor.
  - exists []. unfold history. by rewrite (op_others _ _ _ _ _ _ _ Ho _ Hne), app_nil_r.
Qed.
Lemma opens_entered m' id name a c : entered m' s' id name a c ->
  entered m' s id name a c \/ (m' = m /\ id = tool_id /\ name = tool_name /\ a = args /\ c = cs_next s).
Proof.
  destruct (opens_history m') as (es & He & Hes). unfold entered. rewrite He, elem_of_app. intros [Ht|Ht]; [by left|].
  rewrite List.Forall_forall in Hes. apply list_elem_of_In, Hes in Ht as [-> [= -> -> -> ->]]. by right.
Qed.
Lemma opens_verdict c : verdict s' c = verdict s c.
Proof. unfold verdict. by rewrite (op_answers _ _ _ _ _ _ _ Ho), (op_sending _ _ _ _ _ _ _ Ho). Qed.
Lemma opens_ok : conf_ok s'.
Proof.
  pose proof (op_next _ _ _ _ _ _ _ Ho) as Hn.
  assert (Hfresh : verdict s (cs_next s) = None).
  { apply eq_None_not_Some. intros [r Hr]. apply (ok_verdicts _ Hok) in Hr as [? _]. lia. }
  constructor.
  - intros m' id p Hp. rewrite Hn, opens_verdict. destruct (opens_pending _ _ _ Hp) as [(-> & -> & ->)|[Hp0 Hne]]; cbn.
    + split_and!; [done|lia|done|]. exists (history m s), []. split; [apply Ho|constructor].
    + destruct (ok_pending _ Hok _ _ _ Hp0) as (? & ? & ? & ?). split_and!; [done|lia|done|].
      destruct (opens_history m') as (es & He & Hes). eapply unsettled_app; [done| |done].
      eapply List.Forall_impl; [|exact Hes]. intros e [-> ->]. cbn. intros <-. by apply Hne.
  - intros m1 id1 p1 m2 id2 p2 H1 H2 Hc. destruct (opens_pending _ _ _ H1) as [(-> & -> & ->)|[K1 _]], (opens_pending _ _ _ H2) as [(-> & -> & ->)|[K2 _]]; cbn in Hc.
    + done.
    + apply (ok_pending _ Hok) in K2 as (_ & ? & _). lia.
    + apply (ok_pending _ Hok) in K1 as (_ & ? & _). lia.
    + by eapply (ok_unique _ Hok).
  - intros c r. rewrite opens_verdict, Hn. intros Hr. destruct (ok_verdicts _ Hok _ _ Hr) as [Hlt Hend]. split; [lia|]. intros Happ.
    destruct (Hend Happ) as (m' & id & name & a & Hx). exists m', id, name, a. destruct (opens_history m') as (es & He & _). by eapply endorsed_app.
  - intros c. rewrite Hn, opens_verdict. intros Hlt. destruct (decide (c = cs_next s)) as [->|Hne].
    + right. eexists m, tool_id, _. unfold pending_at. by rewrite (op_pending _ _ _ _ _ _ _ Ho), lookup_insert_eq.
    + destruct (ok_open _ Hok c ltac:(lia)) as [?|(m' & id & p & Hx & ?)]; [by left|]. right. exists m', id, p. by rewrite (opens_kept _ _ _ Hx).
  - intros m' id name a c Hx. rewrite Hn. destruct (opens_entered _ _ _ _ _ Hx) as [H|(_ & _ & _ & _ & ->)]; [|lia]. apply (ok_entered _ Hok) in H. lia.
  - intros m1 id1 n1 a1 m2 id2 n2 a2 c H1 H2.
    destruct (opens_entered _ _ _ _ _ H1) as [K1|(-> & -> & -> & -> & ->)], (opens_entered _ _ _ _ _ H2) as [K2|(-> & -> & -> & -> & E)].
    + by eapply (ok_entered_once _ Hok).
    + subst c. apply (ok_entered _ Hok) in K1. lia.
    + apply (ok_entered _ Hok) in K2. lia.
    + done.
  - rewrite (op_answers _ _ _ _ _ _ _ Ho), (op_sending _ _ _ _ _ _ _ Ho). apply (ok_sending _ Hok).
Qed.
End Opens.

(** ** The operations of a manager *)
Lemma settles_same s s' : cs_next s' = cs_next s -> (forall c, verdict s' c = verdict s c) ->
  (forall m, cm_pending (manager m s') = cm_pending (manager m s) /\ history m s' = history m s) ->
  (forall c, is_Some (cs_sending s' !! c) -> cs_answers s' !! c = None) -> settles 0 s s'.
Proof.
  intros Hn Hv Hm Hd. destruct (Hm 0%nat) as [Hp He]. constructor; unfold pending_at; rewrite ?Hp; auto.
  - exists []. rewrite app_nil_r. split; [done|]. split; [intros; apply not_elem_of_nil|constructor].
  - intros c r. by rewrite Hv.
  - intros c r. rewrite Hv. by left.
  - congruence.
Qed.
Lemma send_settles c r s : conf_ok s -> verdict s c = Some r -> settles 0 s (send_response c r s).
Proof.
  intros Hok Hc. apply settles_same; [done|by apply verdict_send|done|]. intros c'. cbn. rewrite lookup_delete_is_Some. intros [Hne Hx].
  rewrite lookup_insert_ne by done. by apply (ok_sending _ Hok).
Qed.
Lemma broadcast_settles m e s : conf_ok s -> settles 0 s (broadcast m e s).
Proof.
  intros Hok. apply settles_same; [done..| |apply (ok_sending _ Hok)]. intros m'. unfold broadcast, history. rewrite manager_set. by case_bool_decide; subst.
Qed.
Lemma unanswered_pending m tool_id p s : conf_ok s -> pending_at m tool_id s = Some p ->
  cs_answers s !! pc_channel p = None /\ verdict s (pc_channel p) = None.
Proof.
  intros Hok Hp. destruct (ok_pending _ Hok _ _ _ Hp) as (_ & _ & Hun & _). split; [|done]. unfold verdict in Hun. by destruct (cs_answers s !! pc_channel p).
Qed.
(** Taking one request out of the map for a response. *)
Lemma settles_one m tool_id p r s : pending_at m tool_id s = Some p -> conf_ok s ->
  settles m s (hold (pc_channel p) r (set_manager m (with_pendings (delete tool_id) [Taken tool_id (cr_approved r) (pc_channel p)] (manager m s)) s)).
Proof.
  intros Hp Hok. destruct (unanswered_pending _ _ _ _ Hok Hp) as [Ha Hun]. set (x := with_pendings _ _ _). set (s1 := set_manager m x s).
  assert (Hx : forall m', manager m' (hold (pc_channel p) r s1) = if bool_decide (m = m') then x else manager m' s)
    by (intros; rewrite manager_hold; apply manager_set).
  assert (Hv : forall c, verdict (hold (pc_channel p) r s1) c = if bool_decide (pc_channel p = c) then Some r else verdict s c)
    by (intros; by rewrite (verdict_hold (pc_channel p) c r s1)).
  assert (Hpx : forall id, pending_at m id (hold (pc_channel p) r s1) = delete tool_id (cm_pending (manager m s)) !! id)
    by (intros; unfold pending_at; by rewrite Hx, bool_decide_eq_true_2).
  assert (Hh : history m (hold (pc_channel p) r s1) = history m s ++ [Taken tool_id (cr_approved r) (pc_channel p)])
    by (unfold history; by rewrite Hx, bool_decide_eq_true_2).
  constructor.
  - done.
  - intros m' Hne. unfold history. rewrite Hx, bool_decide_eq_false_2; [done|congruence].
  - intros id q. rewrite Hpx, lookup_delete_Some. tauto.
  - eexists. split; [exact Hh|]. split; [intros *; rewrite list_elem_of_singleton; discriminate|].
    intros id q. rewrite Hpx, lookup_delete_Some. intros [Hne _]. by repeat constructor.
  - intros c r' Hr. rewrite Hv, bool_decide_eq_false_2; congruence.
  - intros c r'. rewrite Hv. case_bool_decide as E; [|by left]. intros [= <-]. right. exists tool_id, p. rewrite Hpx, lookup_delete_eq.
    split_and!; [done..|]. intros Happ. by rewrite Hh, Happ, E.
  - intros id q Hq. rewrite Hpx, lookup_delete_None. intros [->|H]; [|unfold pending_at in Hq; congruence].
    assert (q = p) as -> by congruence. rewrite Hv, bool_decide_eq_true_2 by done. by eexists.
  - intros c. cbn. rewrite lookup_insert_is_Some. intros [<-|[_ Hs]]; [done|by apply (ok_sending _ Hok)].
Qed.
Lemma take_settles m tool_id r s : conf_ok s -> exists m', settles m' s (snd (take_pending m tool_id r s)).
Proof.
  intros Hok. unfold take_pending. destruct (cm_pending (manager m s) !! tool_id) as [p|] eqn:Hp; cbn [snd].
  - exists m. by apply settles_one.
  - exists 0%nat. apply settles_same; [done..|apply (ok_sending _ Hok)].
Qed.
Lemma held_all (l : list (str * PendingConfirmation)) s : (forall entry, entry ∈ l -> cs_answers s !! pc_channel (snd entry) = None) ->
  let s' := fold_left (fun s entry => hold (pc_channel (snd entry)) cancelled_response s) l s in
  cs_next s' = cs_next s /\ cs_answers s' = cs_answers s /\ (forall m, manager m s' = manager m s) /\
  (forall c r, verdict s' c = Some r -> verdict s c = Some r \/ (r = cancelled_response /\ exists entry, entry ∈ l /\ pc_channel (snd entry) = c)) /\
  (forall c, (forall entry, entry ∈ l -> pc_channel (snd entry) <> c) -> verdict s' c = verdict s c) /\
  (forall entry, entry ∈ l -> is_Some (verdict s' (pc_channel (snd entry)))) /\
  (forall c, is_Some (verdict s c) -> is_Some (verdict s' c)) /\
  (forall c, is_Some (cs_sending s' !! c) -> is_Some (cs_sending s !! c) \/ exists entry, entry ∈ l /\ pc_channel (snd entry) = c).
Proof.
  revert s. induction l as [|e l IH]; intros s Hl; cbn [fold_left].
  { split_and!; try done; [by left| |by left]. intros entry H. by apply not_elem_of_nil in H. }
  pose proof (Hl e ltac:(left)) as He.
  destruct (IH (hold (pc_channel (snd e)) cancelled_response s)) as (Hn & Ha & Hm & Hnew & Hkeep & Hin & Hmono & Hsend); [intros x Hx; apply Hl; by right|].
  setoid_rewrite (verdict_hold (pc_channel (snd e)) _ cancelled_response s He) in Hnew.
  setoid_rewrite (verdict_hold (pc_channel (snd e)) _ cancelled_response s He) in Hkeep.
  setoid_rewrite (verdict_hold (pc_channel (snd e)) _ cancelled_response s He) in Hmono. split_and!.
  - done.
  - done.
  - intros m. by rewrite Hm.
  - intros c r Hr. destruct (Hnew c r Hr) as [H|[-> (x & Hx & Hc)]].
    + case_bool_decide as E; [|by left]. injection H as <-. right. split; [done|]. exists e. split; [left|done].
    + right. split; [done|]. exists x. split; [by right|done].
  - intros c Hc. rewrite Hkeep by (intros x Hx; apply Hc; by right). rewrite bool_decide_eq_false_2; [done|]. apply Hc. left.
  - intros x Hx. apply elem_of_cons in Hx as [->|Hx]; [|by apply Hin]. apply Hmono. rewrite bool_decide_eq_true_2 by done. by eexists.
  - intros c Hc. apply Hmono. case_bool_decide; [by eexists|done].
  - intros c Hc. destruct (Hsend c Hc) as [H|(x & Hx & Hxc)]; [|right; exists x; split; [by right|done]].
    cbn in H. rewrite lookup_insert_is_Some in H. destruct H as [<-|[_ H]]; [right; exists e; split; [left|done]|by left].
Qed.
Lemma drain_settles m s : conf_ok s -> settles m s (snd (drain_pending m s)).
Proof.
  intros Hok. unfold drain_pending. cbn [snd]. set (l := map_to_list (cm_pending (manager m s))). set (changes := map _ l).
  set (s1 := set_manager m (with_pendings (fun _ => ∅) changes (manager m s)) s).
  assert (Hl : forall e, e ∈ l -> pending_at m (fst e) s = Some (snd e)) by (intros [id p] He; by apply elem_of_map_to_list in He).
  assert (Hun : forall e, e ∈ l -> cs_answers s1 !! pc_channel (snd e) = None) by (intros e He; by apply (unanswered_pending _ _ _ _ Hok (Hl e He))).
  destruct (held_all l s1 Hun) as (Hn & Ha & Hm & Hnew & Hkeep & Hin & Hmono & Hsend). set (s' := fold_left _ l s1) in *.
  assert (Hx : manager m s' = with_pendings (fun _ => ∅) changes (manager m s)) by (rewrite Hm; subst s1; by rewrite manager_set, bool_decide_eq_true_2).
  assert (Hnone : forall id, pending_at m id s' = None) by (intros; unfold pending_at; rewrite Hx; cbn; apply lookup_empty).
  constructor.
  - done.
  - intros m' Hne. unfold history. rewrite Hm. subst s1. rewrite manager_set, bool_decide_eq_false_2; [done|congruence].
  - intros id p. by rewrite Hnone.
  - exists changes. unfold history. rewrite Hx. split; [done|]. split; [|intros id p; by rewrite Hnone].
    intros id name args c Hc. subst changes. apply list_elem_of_fmap in Hc as (? & ? & _). done.
  - intros c r Hr. rewrite Hkeep; [done|]. intros e He Hc. destruct (unanswered_pending _ _ _ _ Hok (Hl e He)). subst c. unfold s1 in Hr. cbn in Hr. congruence.
  - intros c r Hr. destruct (Hnew c r Hr) as [H|[-> (e & He & Hc)]]; [by left|right]. exists (fst e), (snd e). rewrite Hnone. by rewrite (Hl e He).
  - intros id p Hp _. apply (Hin (id, p)). by apply elem_of_map_to_list.
  - intros c Hc. rewrite Ha. destruct (Hsend c Hc) as [H|(e & He & <-)]; [by apply (ok_sending _ Hok)|by apply Hun].
Qed.
Lemma enter_vacant m tool_id tool_name args timeout_ms s : pending_at m tool_id s = None ->
  opens m tool_id tool_name args timeout_ms s (snd (enter m tool_id tool_name args timeout_ms s)).
Proof.
  intros Hf. unfold enter, new_channel. cbn. change (manager m _) with (manager m s) at 1. unfold pending_at in Hf. rewrite Hf. cbn [snd].
  constructor; try done.
  - intros m' Hne. by rewrite manager_set, bool_decide_eq_false_2.
  - unfold history. by rewrite manager_set, bool_decide_eq_true_2.
  - by rewrite manager_set, bool_decide_eq_true_2.
Qed.
(** A collision takes the request that was there and rejects the fresh channel. *)
Lemma enter_collides m tool_id tool_name args timeout_ms s p : pending_at m tool_id s = Some p ->
  let response := mkResponse false (duplicate_reason tool_id) in
  let s1 := hold (pc_channel p) response (set_manager m (with_pendings (delete tool_id) [Taken tool_id false (pc_channel p)] (manager m s)) s) in
  let s' := snd (enter m tool_id tool_name args timeout_ms s) in
  cs_next s' = S (cs_next s1) /\ (forall m, manager m s' = manager m s1) /\ cs_answers s' = cs_answers s1 /\ cs_sending s' = <[cs_next s := response]> (cs_sending s1).
Proof. intros Hp. unfold enter, new_channel. cbn. change (manager m (mkConfirmations _ _ _ _ _ _)) with (manager m s). unfold pending_at in Hp. by rewrite Hp. Qed.
Lemma enter_ok m tool_id tool_name args timeout_ms s : conf_ok s -> conf_ok (snd (enter m tool_id tool_name args timeout_ms s)).
Proof.
  intros Hok. destruct (pending_at m tool_id s) as [p|] eqn:Hp; [|by eapply opens_ok, enter_vacant].
  destruct (enter_collides m tool_id tool_name args timeout_ms s p Hp) as (Hn & Hm & Ha & Hs).
  refine (rejected_ok (mkResponse false (duplicate_reason tool_id)) _ _ eq_refl Hn Hm Ha Hs _).
  exact (settles_ok _ _ _ Hok (settles_one m tool_id p (mkResponse false (duplicate_reason tool_id)) s Hp Hok)).
Qed.

(** What no step takes back: issued channels, changes, events, verdicts, answers. *)
Record grows (s s' : Confirmations) : Prop := mkGrows {
  gr_next : (cs_next s <= cs_next s')%nat;
  gr_history : forall m, exists es, history m s' = history m s ++ es;
  gr_verdict : forall c r, verdict s c = Some r -> verdict s' c = Some r;
}.
#[global] Instance grows_preorder : PreOrder grows.
Proof.
  split.
  - intros s. constructor; [done| |done]. intros m. exists []. by rewrite app_nil_r.
  - intros s1 s2 s3 H12 H23. constructor.
    + etransitivity; [apply H12|apply H23].
    + intros m. destruct (gr_history _ _ H12 m) as [es He], (gr_history _ _ H23 m) as [es' He']. exists (es ++ es'). by rewrite He', He, app_assoc.
    + intros c r Hr. by apply H23, H12.
Qed.
Lemma settles_grows m s s' : settles m s s' -> grows s s'.
Proof.
  intros Hs. constructor.
  - by rewrite (se_next _ _ _ Hs).
  - intros m'. destruct (settles_history m s s' Hs m') as (es & He & _). by exists es.
  - apply Hs.
Qed.
Lemma enter_grows m tool_id tool_name args timeout_ms s : conf_ok s -> grows s (snd (enter m tool_id tool_name args timeout_ms s)).
Proof.
  intros Hok. destruct (pending_at m tool_id s) as [p|] eqn:Hp.
  - destruct (enter_collides m tool_id tool_name args timeout_ms s p Hp) as (Hn & Hm & Ha & Hs).
    etransitivity; [exact (settles_grows _ _ _ (settles_one m tool_id p (mkResponse false (duplicate_reason tool_id)) s Hp Hok))|].
    constructor; [rewrite Hn; cbn; lia| |].
    + intros m'. exists []. unfold history. by rewrite Hm, app_nil_r.
    + intros c r Hr. assert (Hlt : (c < cs_next s)%nat) by by apply (ok_verdicts _ (settles_ok _ _ _ Hok (settles_one m tool_id p (mkResponse false (duplicate_reason tool_id)) s Hp Hok)) _ _ Hr).
      unfold verdict in *. rewrite Ha, Hs. rewrite lookup_insert_ne by lia. exact Hr.
  - pose proof (enter_vacant m tool_id tool_name args timeout_ms s Hp) as Ho. constructor.
    + rewrite (op_next _ _ _ _ _ _ _ Ho). lia.
    + intros m'. destruct (opens_history _ _ _ _ _ _ _ Ho m') as (es & He & _). by exists es.
    + intros c r. by rewrite (opens_verdict _ _ _ _ _ _ _ Ho).
Qed.
(** Only [set_confirmation_policy] writes a policy, and events are only added. *)
Lemma set_manager_view {A} (f : ConfirmationManager -> A) m m' x s : f x = f (manager m s) -> f (manager m' (set_manager m x s)) = f (manager m' s).
Proof. intros Hx. rewrite manager_set. case_bool_decide; by subst. Qed.
Lemma hold_all_managers (l : list (str * PendingConfirmation)) s m :
  manager m (fold_left (fun s entry => hold (pc_channel (snd entry)) cancelled_response s) l s) = manager m s.
Proof. revert s. induction l as [|e l IH]; intros s; [done|]. cbn. by rewrite IH. Qed.
Lemma hold_all_answers (l : list (str * PendingConfirmation)) s :
  cs_answers (fold_left (fun s entry => hold (pc_channel (snd entry)) cancelled_response s) l s) = cs_answers s.
Proof. revert s. induction l as [|e l IH]; intros s; [done|]. cbn. by rewrite IH. Qed.

(** What a call, by id, name, arguments and the channels issued before it, may have been
    granted in a state. *)
Abbreviation Authority := (str -> str -> json -> nat -> Confirmations -> Prop).

(** ** Steps of the other tasks *)
Section Interface.
(** The managers whose policy the host keeps enabled. *)
Context (guarded : nat -> Prop).

(** The critical sections and the sends of every operation, each a step of its own. A
    response is sent only by a task that holds it. *)
Inductive api : Confirmations -> Confirmations -> Prop :=
| api_enter m tool_id tool_name args timeout_ms s : api s (snd (enter m tool_id tool_name args timeout_ms s))
| api_take m tool_id r s : api s (snd (take_pending m tool_id r s))
| api_drain m s : api s (snd (drain_pending m s))
| api_send c r s : verdict s c = Some r -> api s (send_response c r s)
| api_broadcast m e s : api s (broadcast m e s)
| api_set_policy m p s : (guarded m -> cp_enabled p = true) -> api s (set_confirmation_policy m p s)
| api_forwarded d ids s : api s (set_forwarded d ids s)
| api_clock now_ms s : api s (mkConfirmations (cs_managers s) (cs_answers s) (cs_sending s) (cs_next s) (cs_forwarded s) now_ms).
Definition rely : Confirmations -> Confirmations -> Prop := rtc api.
Definition guards (s : Confirmations) : Prop := forall m, guarded m -> cp_enabled (cm_policy (manager m s)) = true.
Definition good (s : Confirmations) : Prop := conf_ok s /\ guards s.

Lemma api_ok s s' : api s s' -> conf_ok s -> conf_ok s' /\ grows s s'.
Proof.
  intros Hs Hok.
  assert (Hset : (exists m, settles m s s') -> conf_ok s' /\ grows s s') by (intros [m Hm]; split; [by eapply settles_ok|by eapply settles_grows]).
  destruct Hs as [m id name args t s|m id r s|m s|c r s Hv|m e s|m p s Hp|d ids s|now s].
  - split; [by apply enter_ok|by apply enter_grows].
  - apply Hset. by apply take_settles.
  - apply Hset. eexists. by apply drain_settles.
  - apply Hset. exists 0%nat. by apply send_settles.
  - apply Hset. exists 0%nat. by apply broadcast_settles.
  - apply Hset. exists 0%nat. apply settles_same; [done..| |apply (ok_sending _ Hok)]. intros m'. unfold set_confirmation_policy, history.
    by rewrite (set_manager_view cm_pending), (set_manager_view cm_history).
  - apply Hset. exists 0%nat. apply settles_same; [done..|apply (ok_sending _ Hok)].
  - apply Hset. exists 0%nat. apply settles_same; [done..|apply (ok_sending _ Hok)].
Qed.
(** What the steps that are not about a policy or an event leave alone. *)
Lemma enter_view {A} (f : ConfirmationManager -> A) m m' id name args t s : (forall g changes x, f (with_pendings g changes x) = f x) ->
  f (manager m' (snd (enter m id name args t s))) = f (manager m' s).
Proof.
  intros Hf. unfold enter, new_channel. cbn. change (manager m (mkConfirmations _ _ _ _ _ _)) with (manager m s).
  case_match; cbn [snd]; rewrite ?manager_hold; rewrite set_manager_view; [done|apply Hf|done|apply Hf].
Qed.
Lemma take_view {A} (f : ConfirmationManager -> A) m m' id r s : (forall g changes x, f (with_pendings g changes x) = f x) ->
  f (manager m' (snd (take_pending m id r s))) = f (manager m' s).
Proof. intros Hf. unfold take_pending. case_match; cbn [snd]; [|done]. rewrite manager_hold. apply set_manager_view, Hf. Qed.
Lemma drain_view {A} (f : ConfirmationManager -> A) m m' s : (forall g changes x, f (with_pendings g changes x) = f x) ->
  f (manager m' (snd (drain_pending m s))) = f (manager m' s).
Proof. intros Hf. unfold drain_pending. cbn [snd]. rewrite hold_all_managers. apply set_manager_view, Hf. Qed.
Lemma api_guards s s' : api s s' -> guards s -> guards s'.
Proof.
  intros Hs Hg m Hm. specialize (Hg m Hm). destruct Hs; try done.
  - by rewrite (enter_view cm_policy).
  - by rewrite (take_view cm_policy).
  - by rewrite (drain_view cm_policy).
  - unfold broadcast. by rewrite (set_manager_view cm_policy).
  - unfold set_confirmation_policy. rewrite manager_set. case_bool_decide; [subst; auto|done].
Qed.
Lemma api_events s s' m e : api s s' -> e ∈ cm_events (manager m s) -> e ∈ cm_events (manager m s').
Proof.
  intros Hs He. destruct Hs; try done.
  - by rewrite (enter_view cm_events).
  - by rewrite (take_view cm_events).
  - by rewrite (drain_view cm_events).
  - unfold broadcast. rewrite manager_set. case_bool_decide; [|done]. subst. cbn. apply elem_of_app. by left.
  - unfold set_confirmation_policy. by rewrite (set_manager_view cm_events).
Qed.
(** An answer is only written over with itself. *)
Lemma api_answers s s' c r : api s s' -> cs_answers s !! c = Some r -> cs_answers s' !! c = Some r.
Proof.
  intros Hs Hc. destruct Hs as [m id name args t s|m id r' s|m s|c' r' s Hv|m e s|m p s Hp|d ids s|now s]; try done.
  - unfold enter, new_channel. cbn. by case_match.
  - unfold take_pending. by case_match.
  - unfold drain_pending. cbn [snd]. rewrite hold_all_answers. done.
  - cbn. destruct (decide (c' = c)) as [->|Hne]; [|by rewrite lookup_insert_ne]. unfold verdict in Hv. rewrite Hc in Hv. rewrite lookup_insert_eq. congruence.
Qed.
Lemma rely_answers s s' c r : rely s s' -> cs_answers s !! c = Some r -> cs_answers s' !! c = Some r.
Proof. induction 1 as [|s1 s2 s3 H12 _ IH]; [done|]. intros Hc. by eapply IH, api_answers. Qed.
Lemma rely_good s s' : rely s s' -> good s -> good s' /\ grows s s'.
Proof.
  induction 1 as [s|s1 s2 s3 H12 _ IH]; intros Hg; [split; [done|reflexivity]|].
  destruct Hg as [Hok Hgu]. destruct (api_ok _ _ H12 Hok) as [Hok2 Hgr]. destruct IH as [Hg3 Hgr3]; [split; [done|by eapply api_guards]|].
  split; [done|by etransitivity].
Qed.
Lemma rely_announced s s' m id name args : rely s s' -> announced m s id name args -> announced m s' id name args.
Proof.
  intros Hr [t Ht]. exists t. revert Ht. generalize (ConfirmationRequired id name args t). intros e.
  induction Hr as [|s1 s2 s3 H12 _ IH]; [done|]. intros He. by eapply IH, api_events.
Qed.

(** ** The interface of providers *)
(** [triple p s Q]: run from [s] beside the other tasks, the program makes only steps of the
    interface and ends in a state and an answer that satisfy [Q]. *)
Definition triple {A} (p : Dialog A) (s : Confirmations) (Q : Confirmations -> A -> Prop) : Prop :=
  forall h, wp rely p (fun _ s' a => rely s s' /\ Q s' a) h s.
Lemma triple_ret {A} (a : A) s (Q : Confirmations -> A -> Prop) : Q s a -> triple (Ret a) s Q.
Proof. intros HQ h. split; [apply rtc_refl|done]. Qed.
Lemma triple_then {A B} (p : Dialog A) (k : A -> Dialog B) s Q R :
  triple p s Q -> (forall s' a, rely s s' -> Q s' a -> triple (k a) s' R) -> triple (bind p k) s R.
Proof.
  intros Hp Hk h. apply wp_then. eapply wp_weaken; [|apply Hp]. intros h' s' a [Hr HQ]. cbn.
  eapply wp_weaken; [|by eapply Hk]. intros h2 s2 b [Hr2 HR]. split; [by etransitivity|done].
Qed.
Lemma triple_weaken {A} (p : Dialog A) s Q R : triple p s Q -> (forall s' a, rely s s' -> Q s' a -> R s' a) -> triple p s R.
Proof. intros Hp HR h. eapply wp_weaken; [|apply Hp]. intros h' s' a [Hr HQ]. auto. Qed.
Lemma triple_act {A} (f : Signal -> Confirmations -> A * Confirmations) s (Q : Confirmations -> A -> Prop) :
  (forall c s1, rely s s1 -> rely s1 (snd (f c s1)) /\ Q (snd (f c s1)) (fst (f c s1))) -> triple (act f) s Q.
Proof. intros Hf h. apply wp_act. intros c s1 Hr. destruct (Hf c s1 Hr). split; [by etransitivity|done]. Qed.
Lemma triple_look {A} (f : Confirmations -> A) s (Q : Confirmations -> A -> Prop) : (forall s1, rely s s1 -> Q s1 (f s1)) -> triple (look f) s Q.
Proof. intros Hf. apply triple_act. intros c s1 Hr. cbn. split; [apply rtc_refl|auto]. Qed.
Lemma triple_change {A} (f : Confirmations -> A * Confirmations) s (Q : Confirmations -> A -> Prop) :
  (forall s1, rely s s1 -> api s1 (snd (f s1))) -> (forall s1, rely s s1 -> Q (snd (f s1)) (fst (f s1))) -> triple (change f) s Q.
Proof. intros Hapi Hf. apply triple_act. intros c s1 Hr. cbn. split; [by apply rtc_once, Hapi|auto]. Qed.
Lemma triple_reads {A} R (p : Dialog A) s : reads_to R p -> triple p s (fun _ a => R a).
Proof.
  intros Hp h. assert (Hr : rely s s) by apply rtc_refl. revert Hr h. generalize s at 2 4. induction p as [a|step IH] using Prog_steps_ind; intros s1 Hr h; cbn; [done|].
  intros c s2 Hr2. specialize (Hp c s2). specialize (IH c s2). destruct (step c s2) as [p after]. destruct Hp as [-> Hp]. apply IH; [done|by etransitivity].
Qed.
Lemma triple_run {A} (p : Dialog A) schedule s (Q : Confirmations -> A -> Prop) : obeys rely schedule -> triple p s Q ->
  rely s (ran_world (play p schedule s)) /\ Q (ran_world (play p schedule s)) (ran_answer (play p schedule s)).
Proof. intros Hs Hp. apply (wp_run rely p _ schedule [] s (fun w => rtc_refl _ w) Hs (Hp [])). Qed.
(** Sending a response the task holds, and broadcasting. *)
Lemma triple_send c r s : good s -> verdict s c = Some r -> triple (effect (send_response c r)) s (fun _ _ => True).
Proof.
  intros Hg Hv. apply triple_change; [|done]. intros s1 Hr. apply api_send. by apply (gr_verdict _ _ (proj2 (rely_good _ _ Hr Hg))).
Qed.
Lemma triple_broadcast m e s : triple (effect (broadcast m e)) s (fun s' _ => e ∈ cm_events (manager m s')).
Proof.
  apply triple_change; [intros; apply api_broadcast|]. intros s1 _. cbn. unfold broadcast. rewrite manager_set, bool_decide_eq_true_2 by done.
  cbn. apply elem_of_app. right. left.
Qed.

(** [promises r Q s]: whenever, from [s] on, the receiver yields an approval, [Q] holds. *)
Definition promises (r : Receiver) (Q : Confirmations -> Prop) (s : Confirmations) : Prop :=
  forall s' resp, rely s s' -> awaited s' r = Some resp -> cr_approved resp = true -> Q s'.
(** A provider with the authority [Q]: whatever it approves as tool call [id], [name],
    [args], requested when [n] channels existed, has [Q id name args n]. *)
Class Endorses (P : Provider) (Q : Authority) : Prop := mkEndorses {
  en_stable : forall id name args n s s', good s -> rely s s' -> Q id name args n s -> Q id name args n s';
  en_since : forall id name args n n' s, (n' <= n)%nat -> Q id name args n s -> Q id name args n' s;
  en_requires : forall name args s, good s ->
    triple (pv_requires_confirmation_for P name args) s (fun s' required => required = true \/ forall id n, Q id name args n s');
  en_request : forall id name args s, good s ->
    triple (pv_request_confirmation P id name args) s (fun s' r => promises r (Q id name args (cs_next s)) s');
  en_asks : forall name args, reads (pv_requires_confirmation_for P name args);
  en_available : forall name args, reads (pv_confirmation_available_for P name args);
  en_policy : reads (pv_policy P);
  en_policy_for : forall name args, reads (pv_policy_for P name args);
  en_cancel : forall id s, good s -> triple (pv_cancel P id) s (fun _ _ => True);
}.
(** What the host of manager [m] has done, if its confirmations are enabled throughout: it
    was sent the call, and a call of its own approved exactly this request. *)
Definition host_says (m : nat) : Authority := fun id name args n s =>
  guarded m -> exists c, (n <= c)%nat /\ endorsed m s id name args c /\ announced m s id name args.
Definition anything : Authority := fun _ _ _ _ _ => True.

Lemma awaited_verdict s c r : awaited s (Channel c) = Some r -> verdict s c = Some r.
Proof. cbn. unfold verdict. by intros ->. Qed.
Lemma promised_by_host m id name args c n s : good s -> (n <= c)%nat -> entered m s id name args c -> announced m s id name args ->
  promises (Channel c) (host_says m id name args n) s.
Proof.
  intros Hg Hn Han Hev s' resp Hr Haw Happ _. exists c. destruct (rely_good _ _ Hr Hg) as [[Hok' _] Hgr]. apply awaited_verdict in Haw.
  destruct (ok_verdicts _ Hok' _ _ Haw) as [_ Hend]. destruct (Hend Happ) as (m' & id' & name' & args' & He).
  destruct (gr_history _ _ Hgr m) as [es Hes].
  destruct (ok_entered_once _ Hok' _ _ _ _ _ _ _ _ _ (entered_app _ _ _ _ _ _ _ _ Hes Han) (endorsed_entered _ _ _ _ _ _ He)) as (<- & <- & <- & <-).
  split_and!; [done..|]. by eapply rely_announced.
Qed.
Lemma promised_rejection c r (Q : Confirmations -> Prop) s : good s -> verdict s c = Some r -> cr_approved r = false -> promises (Channel c) Q s.
Proof.
  intros Hg Hc Hr s' resp Hrel Haw Happ. destruct (rely_good _ _ Hrel Hg) as [_ Hgr]. apply awaited_verdict in Haw.
  pose proof (gr_verdict _ _ Hgr _ _ Hc). congruence.
Qed.
(** What [enter] leaves: an entered request, or two that are rejected. *)
Lemma enter_outcome m id name args timeout_ms s : good s ->
  let s' := snd (enter m id name args timeout_ms s) in
  match fst (enter m id name args timeout_ms s) with
  | (c, None) => c = cs_next s /\ entered m s' id name args c
  | (c, Some existing) => let r := mkResponse false (duplicate_reason id) in verdict s' c = Some r /\ verdict s' (pc_channel existing) = Some r
  end.
Proof.
  intros [Hok _]. destruct (pending_at m id s) as [p|] eqn:Hp.
  - destruct (unanswered_pending _ _ _ _ Hok Hp) as [Ha _]. destruct (ok_pending _ Hok _ _ _ Hp) as (_ & Hlt & _).
    assert (Hf : cs_answers s !! cs_next s = None).
    { destruct (cs_answers s !! cs_next s) eqn:E; [|done]. assert (verdict s (cs_next s) = Some c) as [? _]%(ok_verdicts _ Hok) by (unfold verdict; by rewrite E). lia. }
    unfold enter, new_channel. cbn. change (manager m (mkConfirmations _ _ _ _ _ _)) with (manager m s). unfold pending_at in Hp. rewrite Hp. cbn [fst snd].
    rewrite verdict_hold by done. rewrite bool_decide_eq_true_2 by done. split; [done|].
    rewrite verdict_hold by done. rewrite bool_decide_eq_false_2 by lia. rewrite verdict_hold by done. by rewrite bool_decide_eq_true_2.
  - pose proof (enter_vacant m id name args timeout_ms s Hp) as Ho. pose proof (op_history _ _ _ _ _ _ _ Ho) as Hh. revert Hh.
    unfold enter, new_channel. cbn. change (manager m (mkConfirmations _ _ _ _ _ _)) with (manager m s). unfold pending_at in Hp. rewrite Hp. cbn [fst snd].
    intros Hh. split; [done|]. unfold entered. rewrite Hh. apply elem_of_app. right. left.
Qed.
Lemma manager_requests m id name args s : good s ->
  triple (manager_request m id name args) s (fun s' r => promises r (host_says m id name args (cs_next s)) s').
Proof.
  intros Hg. eapply triple_then; [by apply (triple_look _ _ (fun _ _ => True))|]. intros s1 timeout_ms Hr1 _.
  destruct (rely_good _ _ Hr1 Hg) as [Hg1 Hgr1]. pose proof (gr_next _ _ Hgr1) as Hn1.
  eapply (triple_then _ _ _ (fun s2 x => match x with
    | (c, None) => (cs_next s <= c)%nat /\ entered m s2 id name args c
    | (c, Some existing) => let r := mkResponse false (duplicate_reason id) in verdict s2 c = Some r /\ verdict s2 (pc_channel existing) = Some r
    end)).
  { apply triple_change; [intros; apply api_enter|]. intros s2 Hr2. destruct (rely_good _ _ Hr2 Hg1) as [Hg2 Hgr2]. pose proof (gr_next _ _ Hgr2).
    pose proof (enter_outcome m id name args timeout_ms s2 Hg2) as Ho. cbn zeta in Ho. destruct (fst (enter m id name args timeout_ms s2)) as [c [p|]]; [done|].
    destruct Ho as [-> Ho]. split; [lia|done]. }
  intros s2 [c [p|]] Hr2 Hx; destruct (rely_good _ _ Hr2 Hg1) as [Hg2 _].
  - destruct Hx as [Hc Hp]. eapply triple_then; [by apply triple_send|]. intros s3 _ Hr3 _. destruct (rely_good _ _ Hr3 Hg2) as [Hg3 Hgr3].
    pose proof (gr_verdict _ _ Hgr3 _ _ Hc) as Hc3. eapply triple_then; [by apply triple_send|]. intros s4 _ Hr4 _. destruct (rely_good _ _ Hr4 Hg3) as [Hg4 Hgr4].
    eapply triple_then; [apply triple_broadcast|]. intros s5 _ Hr5 _. destruct (rely_good _ _ Hr5 Hg4) as [Hg5 Hgr5].
    apply triple_ret. eapply promised_rejection; [done|by apply (gr_verdict _ _ Hgr5), (gr_verdict _ _ Hgr4)|done].
  - destruct Hx as [Hc He]. eapply triple_then; [apply triple_broadcast|]. intros s3 [] Hr3 Hev. destruct (rely_good _ _ Hr3 Hg2) as [Hg3 Hgr3].
    apply triple_ret. apply promised_by_host; [done..| |by exists timeout_ms].
    destruct (gr_history _ _ Hgr3 m) as [es Hes]. by eapply entered_app.
Qed.
Lemma take_held m id r s : good s -> match fst (take_pending m id r s) with Some c => verdict (snd (take_pending m id r s)) c = Some r | None => True end.
Proof.
  intros [Hok _]. unfold take_pending. destruct (cm_pending (manager m s) !! id) as [p|] eqn:Hp; cbn [fst snd]; [|done].
  destruct (unanswered_pending _ _ _ _ Hok Hp) as [Ha _]. rewrite verdict_hold by done. by rewrite bool_decide_eq_true_2.
Qed.
Lemma manager_cancels m id s : good s -> triple (manager_cancel m id) s (fun _ _ => True).
Proof.
  intros Hg. eapply (triple_then _ _ _ (fun s' x => match x with Some c => verdict s' c = Some cancelled_response | None => True end)).
  { apply triple_change; [intros; apply api_take|]. intros s1 Hr1. apply take_held. by eapply rely_good. }
  intros s1 [c|] Hr1 Hv; [|by apply triple_ret]. destruct (rely_good _ _ Hr1 Hg) as [Hg1 _].
  eapply triple_then; [by apply triple_send|]. intros. by apply triple_ret.
Qed.
#[global] Instance manager_endorses m : Endorses (manager_provider m) (host_says m).
Proof.
  constructor.
  - intros id name args n s s' Hg Hr HQ Hm. destruct (HQ Hm) as (c & Hn & He & Ha). exists c. split; [done|].
    destruct (gr_history _ _ (proj2 (rely_good _ _ Hr Hg)) m) as [es Hes]. split; [by eapply endorsed_app|by eapply rely_announced].
  - intros id name args n n' s Hle HQ Hm. destruct (HQ Hm) as (c & Hn & He). exists c. split; [lia|done].
  - intros name args s Hg. apply triple_look. intros s1 Hr. destruct (rely_good _ _ Hr Hg) as [[_ Hgu] _].
    destruct (cp_enabled (cm_policy (manager m s1))) eqn:E; [by left|right]. intros id n Hm. rewrite (Hgu m Hm) in E. done.
  - intros. by apply manager_requests.
  - done.
  - done.
  - done.
  - done.
  - intros. by apply manager_cancels.
Qed.
Lemma endorses_anything P Q : Endorses P Q -> Endorses P anything.
Proof.
  intros HP. constructor; try done; try apply HP.
  - intros. eapply triple_weaken; [by apply en_requires|]. by right.
  - intros. eapply triple_weaken; [by apply en_request|]. done.
Qed.
#[global] Instance auto_approve_endorses identity : Endorses (auto_approve identity) anything.
Proof. constructor; try done; intros; apply triple_ret; try done. by right. Qed.
End Interface.

(** ** Properties *)
Definition no_confirmations (now_ms : Z) : Confirmations := mkConfirmations ∅ ∅ ∅ 0 ∅ now_ms.
Lemma no_confirmations_ok now_ms : conf_ok (no_confirmations now_ms).
Proof.
  constructor; cbn.
  - intros m id p. unfold pending_at, manager. cbn. by rewrite lookup_empty.
  - intros m id p m' id' p'. unfold pending_at, manager. cbn. by rewrite lookup_empty.
  - intros c r. unfold verdict. cbn. by rewrite !lookup_empty.
  - lia.
  - intros m id name args c Ht. by apply not_elem_of_nil in Ht.
  - intros m id name args m' id' name' args' c Ht. by apply not_elem_of_nil in Ht.
  - intros c. by rewrite lookup_empty.
Qed.
