(* ===== verification/ConfirmationDelegation.v ===== *)
(** The provider of a child run keeps the interface of providers: what it approves has been
    approved by every scope whose checker asked ([delegated_endorses]). *)
From stdpp Require Import gmap relations sorting.
From S2P Require Import Prelude Text PermissionRule PermissionPolicy Programs Confirmation ConfirmationFacts.

Section Composition.
Context (guarded : nat -> Prop) (Q : Provider -> Authority).
Abbreviation rely := (rely guarded).
Abbreviation good := (good guarded).
Abbreviation triple := (triple guarded).
Abbreviation promises := (promises guarded).
Abbreviation Endorsing P := (Endorses guarded P (Q P)).

Lemma promises_later r R s s' : rely s s' -> promises r R s -> promises r R s'.
Proof. intros Hr Hp s2 resp Hr2. apply Hp. by etransitivity. Qed.
Lemma promises_weaken r (R R' : Confirmations -> Prop) s : promises r R s -> (forall s', rely s s' -> R s' -> R' s') -> promises r R' s.
Proof. intros Hp HR s' resp Hr Haw Happ. by eapply HR, Hp. Qed.

(** ** Several providers *)
Lemma filter_active_spec name args l s : (forall P, P ∈ l -> Endorsing P) -> good s ->
  triple (filter_active name args l) s (fun s' l' => (forall P, P ∈ l' -> P ∈ l) /\ forall P, P ∈ l -> P ∈ l' \/ forall id n, Q P id name args n s').
Proof.
  revert s. induction l as [|P l IH]; intros s Hl Hg; cbn.
  { apply triple_ret. split; [done|]. intros P HP. by apply not_elem_of_nil in HP. }
  pose proof (Hl P ltac:(left)) as HP. eapply triple_then; [by apply en_requires|]. intros s1 required Hr1 Hreq.
  destruct (rely_good _ _ _ Hr1 Hg) as [Hg1 _]. eapply triple_then; [apply IH; [intros; apply Hl; by right|done]|].
  intros s2 rest Hr2 [Hin Hrest]. apply triple_ret. split.
  - intros P'. destruct required; [rewrite !elem_of_cons; naive_solver|]. intros ?. right. auto.
  - intros P'. rewrite elem_of_cons. intros [->|HP'].
    + destruct Hreq as [->|HQ]; [left; left|right]. intros id n. eapply (@en_stable guarded P (Q P) HP); [exact Hg1|exact Hr2|apply HQ].
    + destruct (Hrest P' HP') as [?|?]; [left; destruct required; [by right|done]|by right].
Qed.
Lemma request_all_spec id name args n l s : (forall P, P ∈ l -> Endorsing P) -> good s -> (n <= cs_next s)%nat ->
  triple (request_all id name args l) s (fun s' rs => Forall2 (fun P r => promises r (Q P id name args n) s') l rs).
Proof.
  revert s. induction l as [|P l IH]; intros s Hl Hg Hn; cbn; [by apply triple_ret|].
  pose proof (Hl P ltac:(left)) as HP. eapply triple_then; [by apply en_request|]. intros s1 r Hr1 Hp.
  destruct (rely_good _ _ _ Hr1 Hg) as [Hg1 Hgr]. pose proof (gr_next _ _ Hgr).
  eapply triple_then; [apply IH; [intros; apply Hl; by right|done|lia]|]. intros s2 rs Hr2 Hrs. apply triple_ret. constructor; [|done].
  eapply promises_weaken; [eapply promises_later; [exact Hr2|exact Hp]|]. intros s3 _ HQ. by apply (@en_since guarded P (Q P) HP) with (cs_next s).
Qed.
Lemma joined_response_approved responses : cr_approved (joined_response responses) = true -> Forall (fun r => cr_approved r = true) responses.
Proof.
  unfold joined_response. set (reasons := omap _ _). destruct (bool_decide (reasons = [])) eqn:E; [intros _|done].
  apply bool_decide_eq_true in E. subst reasons. induction responses as [|r responses IH]; [constructor|].
  cbn in E. destruct (cr_approved r) eqn:Ha; [|done]. constructor; [done|by apply IH].
Qed.
(** The joined answer of several requests. *)
Lemma promises_all id name args n l rs s : Forall2 (fun P r => promises r (Q P id name args n) s) l rs ->
  promises (AllOf rs) (fun s' => forall P, P ∈ l -> Q P id name args n s') s.
Proof.
  intros Hall s' resp Hr Haw Happ. cbn in Haw. apply fmap_Some in Haw as (responses & Hm & ->). apply joined_response_approved in Happ.
  apply mapM_Some in Hm. intros P HP. apply list_elem_of_lookup in HP as [i Hi].
  destruct (Forall2_lookup_l _ _ _ _ _ Hall Hi) as (r & Hri & Hp). destruct (Forall2_lookup_l _ _ _ _ _ Hm Hri) as (x & Hx & Hax).
  eapply Hp; [done..|]. by eapply (Forall_lookup_1 _ _ _ _ Happ Hx).
Qed.
Lemma policies_of_reads l : (forall P, P ∈ l -> Endorsing P) -> reads (policies_of l).
Proof.
  induction l as [|P l IH]; intros Hl; [done|]. eapply reads_then; [by apply (@en_policy guarded P (Q P) (Hl P ltac:(left)))|].
  intros p _. eapply reads_then; [apply IH; intros; apply Hl; by right|done].
Qed.
Lemma filter_active_reads name args l : (forall P, P ∈ l -> Endorsing P) -> reads_to (fun l' => forall P, P ∈ l' -> P ∈ l) (filter_active name args l).
Proof.
  induction l as [|P l IH]; intros Hl; [by intros P|]. eapply reads_then; [by apply (@en_asks guarded P (Q P) (Hl P ltac:(left)))|].
  intros active _. eapply reads_then; [apply IH; intros; apply Hl; by right|]. intros rest Hrest. cbn. destruct active; set_solver.
Qed.

(** ** A delegation *)
Context (identity : nat) (child_checker : option Checker) (child : option Provider) (parent_checker : option Checker) (parent : option Provider).
Context (Hchild : forall P, child = Some P -> Endorsing P) (Hparent : forall P, parent = Some P -> Endorsing P).
(** One identity, one provider. *)
Context (Hidentity : forall a b, child = Some a -> parent = Some b -> ptr_eq a b = true -> a = b).
Abbreviation targets := (targets child_checker child parent_checker parent).
Abbreviation decision checker name args := ((fun c : Checker => c name args) <$> checker).

Definition scope_says (scope : option Provider) : Authority := fun id name args n s =>
  match scope with Some P => Q P id name args n s | None => False end.
(** No scope denies; each scope that asks has approved; a call that neither checker speaks
    of is the child's, and one that no checker asks about, the parent's. *)
Definition delegation_says : Authority := fun id name args n s =>
  let mine := decision child_checker name args in
  let theirs := decision parent_checker name args in
  mine <> Some Deny /\ theirs <> Some Deny /\
  (mine = Some Ask -> scope_says child id name args n s) /\
  (theirs = Some Ask -> scope_says parent id name args n s) /\
  (mine = None -> theirs = None -> scope_says child id name args n s) /\
  (mine <> Some Ask -> theirs <> Some Ask -> mine <> None \/ theirs <> None -> scope_says parent id name args n s).

Lemma add_target_known scope o t P : P ∈ ct_providers (add_target scope o t) -> P ∈ ct_providers t \/ o = Some P.
Proof.
  unfold add_target. destruct o as [P'|]; case_match; cbn; auto. rewrite elem_of_app, list_elem_of_singleton. intros [?| ->]; auto.
Qed.
Lemma targets_known name args P : P ∈ ct_providers (targets name args) -> child = Some P \/ parent = Some P.
Proof.
  unfold targets. repeat case_match; cbn [ct_providers]; intros HP;
    repeat (apply add_target_known in HP as [HP|HP]; [|by auto]); by apply not_elem_of_nil in HP.
Qed.
Lemma targets_endorsing name args P : P ∈ ct_providers (targets name args) -> Endorsing P.
Proof. intros [H|H]%targets_known; auto. Qed.
(** The targets, by the decisions of the two checkers. *)
Lemma targets_by_decision name args : targets name args =
  let none := mkTargets [] [] false in
  match decision child_checker name args, decision parent_checker name args with
  | Some Deny, _ | _, Some Deny => mkTargets [] [] true
  | Some Ask, Some Ask => add_target $"parent" parent (add_target $"child" child none)
  | Some Ask, _ | None, None => add_target $"child" child none
  | _, _ => add_target $"parent" parent none
  end.
Proof. unfold targets. by destruct (decision child_checker name args) as [[]|], (decision parent_checker name args) as [[]|]. Qed.
Lemma targets_say id name args n s : is_available (targets name args) = true ->
  (forall P, P ∈ ct_providers (targets name args) -> Q P id name args n s) -> delegation_says id name args n s.
Proof.
  rewrite targets_by_decision. unfold delegation_says, scope_says.
  destruct (decision child_checker name args) as [[]|], (decision parent_checker name args) as [[]|]; cbn zeta; try done;
    destruct child as [a|], parent as [b|]; cbn; try done; try (destruct (ptr_eq a b) eqn:E; cbn); intros _ HQ;
    try (pose proof (Hidentity a b eq_refl eq_refl E); subst b);
    split_and!; intros; try done; try (by apply HQ; left); try (by apply HQ; right; left); naive_solver.
Qed.

Lemma active_spec name args s : good s ->
  triple (active_providers child_checker child parent_checker parent name args) s (fun s' t =>
    is_available t = is_available (targets name args) /\ (forall P, P ∈ ct_providers t -> Endorsing P) /\
    (is_available t = true -> forall P, P ∈ ct_providers (targets name args) -> P ∈ ct_providers t \/ forall id n, Q P id name args n s')).
Proof.
  intros Hg. unfold active_providers. destruct (is_available (targets name args)) eqn:E.
  - eapply triple_then; [apply filter_active_spec; [apply targets_endorsing|done]|]. intros s1 l _ [Hin Hl]. apply triple_ret. split; [exact E|].
    split; [|auto]. intros P HP. by eapply targets_endorsing, Hin.
  - apply triple_ret. split; [done|]. split; [apply targets_endorsing|congruence].
Qed.
Lemma active_reads name args : reads_to (fun t => forall P, P ∈ ct_providers t -> Endorsing P) (active_providers child_checker child parent_checker parent name args).
Proof.
  unfold active_providers. case_match; [|exact (targets_endorsing name args)]. eapply reads_then; [apply filter_active_reads, targets_endorsing|].
  intros l Hl P HP. by eapply targets_endorsing, Hl.
Qed.
Lemma delegation_stable id name args n s s' : good s -> rely s s' -> delegation_says id name args n s -> delegation_says id name args n s'.
Proof.
  intros Hg Hr. assert (Hscope : forall scope, (forall P, scope = Some P -> Endorsing P) -> scope_says scope id name args n s -> scope_says scope id name args n s').
  { intros [P|] HP; [|done]. by apply (@en_stable guarded P (Q P) (HP P eq_refl)). }
  intros (? & ? & ? & ? & ? & ?). split_and!; auto.
Qed.
Lemma delegation_since id name args n n' s : (n' <= n)%nat -> delegation_says id name args n s -> delegation_says id name args n' s.
Proof.
  intros Hn. assert (Hscope : forall scope, (forall P, scope = Some P -> Endorsing P) -> scope_says scope id name args n s -> scope_says scope id name args n' s).
  { intros [P|] HP; [|done]. by apply (@en_since guarded P (Q P) (HP P eq_refl)). }
  intros (? & ? & ? & ? & ? & ?). split_and!; auto.
Qed.
Lemma promises_one id name args n l rs s : Forall2 (fun P r => promises r (Q P id name args n) s) l rs ->
  promises (match rs with [r] => r | rs => AllOf rs end) (fun s' => forall P, P ∈ l -> Q P id name args n s') s.
Proof.
  intros Hall. destruct Hall as [|P r l rs Hp Hrest]; [by apply promises_all|]. destruct Hrest as [|P' r' l rs Hp' Hrest].
  - eapply promises_weaken; [exact Hp|]. intros s' _ HQ P'. rewrite list_elem_of_singleton. by intros ->.
  - apply promises_all. by repeat constructor.
Qed.
Lemma delegated_request id name args s : good s ->
  triple (pv_request_confirmation (delegated identity child_checker child parent_checker parent) id name args) s
    (fun s' r => promises r (delegation_says id name args (cs_next s)) s').
Proof.
  intros Hg. cbn [pv_request_confirmation delegated]. eapply triple_then; [by apply active_spec|]. intros s1 t Hr1 (Hav & Hend & Hcover).
  destruct (rely_good _ _ _ Hr1 Hg) as [Hg1 Hgr1]. pose proof (gr_next _ _ Hgr1) as Hn.
  destruct (is_available t) eqn:E; cbn [negb]; [|apply triple_ret; intros s2 resp _ [= <-]; done].
  assert (Hfinal : forall s2, rely s1 s2 -> (forall P, P ∈ ct_providers t -> Q P id name args (cs_next s) s2) -> delegation_says id name args (cs_next s) s2).
  { intros s2 Hr2 HQ. apply targets_say; [done|]. intros P HP. destruct (Hcover eq_refl P HP) as [?|Hfree]; [auto|].
    apply (@en_stable guarded P (Q P) (targets_endorsing _ _ _ HP)) with s1; auto. }
  destruct (ct_providers t) as [|P l] eqn:Hl.
  { apply triple_ret. intros s2 resp Hr2 _ _. apply Hfinal; [done|]. intros P HP. by apply not_elem_of_nil in HP. }
  rewrite <- Hl in *. clear Hl P l. eapply (triple_then _ _ _ _ (fun _ _ => True)).
  { unfold remember_parent_forward. repeat case_match; try by apply triple_ret. apply triple_change; [intros; apply api_forwarded|done]. }
  intros s2 _ Hr2 _. destruct (rely_good _ _ _ Hr2 Hg1) as [Hg2 Hgr2]. pose proof (gr_next _ _ Hgr2).
  eapply triple_then; [apply (request_all_spec id name args (cs_next s)); [done..|lia]|]. intros s3 rs Hr3 Hrs. apply triple_ret.
  eapply promises_weaken; [apply promises_one; exact Hrs|]. intros s4 Hr4 HQ. apply Hfinal; [|done]. by do 2 (etransitivity; [eassumption|]).
Qed.
#[global] Instance delegated_endorses : Endorses guarded (delegated identity child_checker child parent_checker parent) delegation_says.
Proof.
  constructor.
  - intros *. apply delegation_stable.
  - intros *. apply delegation_since.
  - intros name args s Hg. cbn. eapply triple_then; [by apply active_spec|]. intros s1 t Hr1 (Hav & _ & Hcover). apply triple_ret.
    destruct (is_available t) eqn:E; [|by left]. destruct (ct_providers t) as [|P l] eqn:Hl; [right|by left].
    intros id n. apply targets_say; [done|]. intros P HP. destruct (Hcover eq_refl P HP) as [Hno|HQ]; [by apply not_elem_of_nil in Hno|auto].
  - intros *. apply delegated_request.
  - intros name args. eapply reads_then; [apply active_reads|done].
  - done.
  - eapply reads_then; [apply policies_of_reads|done]. intros P.
    unfold all_providers, distinct_providers. cbn. destruct child as [a|], parent as [b|]; cbn; repeat case_match; cbn;
      rewrite ?elem_of_cons, ?elem_of_nil; naive_solver.
  - intros name args. eapply reads_then; [apply active_reads|]. intros t Ht. cbn. case_match; [|done]. eapply reads_then; [by apply policies_of_reads|done].
  - intros id s Hg. cbn. unfold settle_both, on_provider. eapply (triple_then _ _ _ _ (fun _ _ => True)).
    { destruct child as [a|]; [apply (@en_cancel guarded a (Q a)); auto|by apply triple_ret]. }
    intros s1 hit Hr1 _. destruct (rely_good _ _ _ Hr1 Hg) as [Hg1 _].
    eapply (triple_then _ _ _ _ (fun _ _ => True)); [apply triple_change; [intros; apply api_forwarded|done]|].
    intros s2 mine Hr2 _. destruct (rely_good _ _ _ Hr2 Hg1) as [Hg2 _]. destruct mine; [|by apply triple_ret]. destruct parent as [b|]; [|by apply triple_ret].
    eapply triple_then; [apply (@en_cancel guarded b (Q b)); auto|]. intros. by apply triple_ret.
Qed.
End Composition.
