(* ===== verification/ToolGate.v ===== *)
(** The invocation of a tool ([safety_gate.rs], [agent/tool_invoker.rs], the hook outcomes of
    [agent/hook_runtime.rs], the lifecycle of [tools/invocation.rs], the tool restrictions of
    [skills/mod.rs], the governance part of [child_run.rs]): from the call to its execution
    or refusal.

    An invocation is a program on the shared state of confirmations. The tools, the hooks,
    the budget guard and the derivation of request evidence are arguments. The post-execution
    part ([finish]: sanitising the output, the post-tool hook) is left out. *)
From stdpp Require Import gmap.
From S2P Require Import Prelude Text PermissionRule PermissionPolicy Verification Programs Hooks Confirmation.

(** ** Skills *)
Inductive SkillKind : Type := SkillInstruction | SkillPersona | SkillTool.
#[global] Instance SkillKind_eq_dec : EqDecision SkillKind.
Proof. solve_decision. Defined.
Record ToolPermission : Type := mkToolPermission { tp_tool : str; tp_pattern : str }.
(** A closing parenthesis after the first opening one is the last of the text. *)
Definition parse_permission (s : str) : option ToolPermission :=
  '(before, after) ← split_once c_lparen (trim s);
  '(inside, _) ← rsplit_once c_rparen after;
  Some (mkToolPermission (trim before) (trim inside)).
Record Skill : Type := mkSkill { sk_name : str; sk_allowed_tools : option str; sk_kind : SkillKind }.
(** [parse_allowed_tools]: the set is a list, of which only membership is used. *)
Definition parse_allowed_tools (skill : Skill) : list ToolPermission :=
  match sk_allowed_tools skill with
  | None => []
  | Some allowed =>
      let parts := if contains_char allowed c_comma then split_on c_comma allowed
                   else match parse_permission allowed with Some _ => [allowed] | None => split_whitespace allowed end in
      omap (fun part =>
        let part := trim part in
        if bool_decide (part = []) then None else Some (default (mkToolPermission part $"*") (parse_permission part))) parts
  end.
Definition inherits_session_tools (skill : Skill) : bool :=
  bool_decide (sk_allowed_tools skill = None) && negb (bool_decide (sk_kind skill = SkillTool)).
Definition is_tool_allowed (skill : Skill) (tool_name : str) : bool :=
  if inherits_session_tools skill then true
  else existsb (fun perm => (str_eqb (tp_tool perm) $"*" || eq_ignore_ascii_case (tp_tool perm) tool_name) && str_eqb (tp_pattern perm) $"*")
         (parse_allowed_tools skill).
Record SkillRegistry : Type := mkSkillRegistry { sr_skills : list Skill; sr_builtin_names : list str }.
Definition global_tool_restricting_skills (r : SkillRegistry) : list Skill :=
  sort_by (fun a b => str_leb (sk_name a) (sk_name b))
    (List.filter (fun skill => bool_decide (sk_kind skill = SkillInstruction) && negb (bool_decide (sk_allowed_tools skill = None))
                          && negb (bool_decide (sk_name skill ∈ sr_builtin_names r))) (sr_skills r)).

(** ** The gate *)
Inductive ToolGateApproval : Type := PermissionAllow | ConfirmationNotRequired | HostDirectTrusted | RuntimeInternalApproval.
Inductive ToolGateDenial : Type := SkillRestriction | BlockedByHook | PermissionDeny | MissingConfirmationManager | ConfirmationUnavailable.
Record HookDenialFeedback : Type := mkFeedback { hf_reason : str; hf_retryable : bool; hf_retry_after_ms : option Z }.
(** [ToolErrorKind], the kinds that the gateway makes. *)
Inductive GateErrorKind : Type := HookDenied (f : HookDenialFeedback) | InvalidArgument (message : str).
Inductive ToolGateDecision : Type :=
| GateExecute (reason : ToolGateApproval)
| GateConfirm (timeout_ms : Z) (timeout_action : TimeoutAction)
| GateDeny (output event_reason : str) (reason : ToolGateDenial) (error_kind : option GateErrorKind).
Definition blocked (reason : str) : HookDenialFeedback := mkFeedback reason false None.
Definition retry (reason : str) (retry_after_ms : Z) : HookDenialFeedback := mkFeedback reason true (Some retry_after_ms).
Definition into_gate_decision (f : HookDenialFeedback) (tool_name : str) : ToolGateDecision :=
  let guidance := match hf_retry_after_ms f, hf_retryable f with
                  | Some delay_ms, true => $"Hook feedback: retryable=true; retry_after_ms=" ++ show delay_ms ++ $". Retry only after the requested delay."
                  | None, true => $"Hook feedback: retryable=true. Retry only after the temporary condition changes."
                  | _, false => $"Hook feedback: retryable=false. Do not repeat this tool call unchanged; choose another action or change the arguments or context."
                  end in
  let qualifier := if hf_retryable f then $"temporarily denied" else $"denied" in
  GateDeny ($"Tool '" ++ tool_name ++ $"' " ++ qualifier ++ $" by pre-tool hook: " ++ hf_reason f ++ [c_nl; c_nl] ++ guidance)
    (hf_reason f) BlockedByHook (Some (HookDenied f)).

Record GateConfig : Type := mkGateConfig {
  gc_enforce_skills : bool;
  gc_skill_registry : option SkillRegistry;
  gc_permission_checker : option Checker;
  gc_confirmation_manager : option Provider;
}.
Definition check_skill_restrictions (c : GateConfig) (tool_name : str) : option ToolGateDecision :=
  if negb (gc_enforce_skills c) then None
  else match gc_skill_registry c with
       | None => None
       | Some registry =>
           match global_tool_restricting_skills registry with
           | [] => None
           | skills =>
               if existsb (fun skill => is_tool_allowed skill tool_name) skills then None
               else let msg := $"Tool '" ++ tool_name ++ $"' is not allowed by any active skill." in
                    Some (GateDeny msg msg SkillRestriction None)
           end
       end.
Definition permission_decision (c : GateConfig) (tool_name : str) (args : json) : PermissionDecision :=
  match gc_permission_checker c with Some checker => checker tool_name args | None => Ask end.
Definition missing_confirmation_manager (tool_name : str) : ToolGateDecision :=
  let msg := $"Tool '" ++ tool_name ++ $"' requires confirmation but no HITL confirmation manager is configured. Configure a confirmation policy to enable tool execution." in
  GateDeny msg msg MissingConfirmationManager None.
Definition confirmation_unavailable (tool_name : str) : ToolGateDecision :=
  let msg := $"Tool '" ++ tool_name ++ $"' requires authority outside the active execution boundary. The current confirmation policy cannot authorize this invocation." in
  GateDeny msg msg ConfirmationUnavailable None.
Definition confirmation_decision (c : GateConfig) (tool_name : str) (args : json) (tool_requires_confirmation : bool) : Dialog ToolGateDecision :=
  match gc_confirmation_manager c with
  | None => Ret (missing_confirmation_manager tool_name)
  | Some cm =>
      available <- pv_confirmation_available_for cm tool_name args ;;
      if negb available then Ret (confirmation_unavailable tool_name)
      else
        required <- (if tool_requires_confirmation then Ret true else pv_requires_confirmation_for cm tool_name args) ;;
        if negb required then Ret (GateExecute ConfirmationNotRequired)
        else policy <- pv_policy_for cm tool_name args ;; Ret (GateConfirm (cp_default_timeout_ms policy) (cp_timeout_action policy))
  end.
Definition gate_decide (c : GateConfig) (tool_name : str) (args : json) (pre_tool_denial : option HookDenialFeedback)
    (tool_requires_confirmation : bool) : Dialog ToolGateDecision :=
  match check_skill_restrictions c tool_name with
  | Some decision => Ret decision
  | None =>
      match pre_tool_denial with
      | Some feedback => Ret (into_gate_decision feedback tool_name)
      | None =>
          match permission_decision c tool_name args with
          | Deny => Ret (GateDeny ($"Permission denied: Tool '" ++ tool_name ++ $"' is blocked by permission policy.")
                           $"Blocked by deny rule in permission policy" PermissionDeny None)
          | Allow => if tool_requires_confirmation then confirmation_decision c tool_name args true else Ret (GateExecute PermissionAllow)
          | Ask => confirmation_decision c tool_name args true
          end
      end
  end.

(** ** Hooks *)
Record PreToolHookDecision : Type := mkPreToolDecision { pt_denial : option HookDenialFeedback; pt_updated_args : option json }.
Definition first_field (keys : list str) (v : json) : option json :=
  fold_left (fun found key => match found with Some _ => found | None => jget key v end) keys None.
Definition extract_updated_tool_input (modified : json) : option json :=
  let output := default modified (jget $"hookSpecificOutput" modified) in
  match first_field [$"updatedInput"; $"updated_input"; $"args"] output with
  | Some value => Some value
  | None => match first_field [$"additionalContext"; $"additional_context"; $"decision"; $"permissionDecision"] output with
            | Some _ => None
            | None => Some output
            end
  end.
Definition normalize_pre_tool_gate_outcome (outcome : HookOutcome) : PreToolHookDecision :=
  match outcome with
  | HookContinue modified => mkPreToolDecision None (modified ≫= extract_updated_tool_input)
  | HookSkip => mkPreToolDecision None None
  | HookBlock reason => mkPreToolDecision (Some (blocked reason)) None
  | HookRetryLater reason retry_after_ms => mkPreToolDecision (Some (retry reason retry_after_ms)) None
  | HookEscalate reason target =>
      let target := match target with Some value => $" to " ++ value | None => [] end in
      mkPreToolDecision (Some (blocked ($"Pre-tool hook escalated" ++ target ++ $": " ++ reason))) None
  end.
Inductive PermissionHookDecision : Type := HookAbstains | HookAllows | HookDenies (reason : str).
Definition normalize_permission_outcome (outcome : HookOutcome) : PermissionHookDecision :=
  match outcome with
  | HookContinue (Some value) =>
      let output := default value (jget $"hookSpecificOutput" value) in
      let decision := default [] (first_field [$"decision"; $"permissionDecision"] output ≫= jas_str) in
      let reason := default $"Permission hook denied the tool" (first_field [$"reason"; $"permissionDecisionReason"] output ≫= jas_str) in
      let decision := to_ascii_lowercase decision in
      if one_of decision ["allow"; "approve"] then HookAllows
      else if one_of decision ["deny"; "reject"; "block"] then HookDenies reason
      else HookAbstains
  | HookBlock reason | HookRetryLater reason _ | HookEscalate reason _ => HookDenies reason
  | HookContinue None | HookSkip => HookAbstains
  end.

(** ** Invocations *)
Inductive HostDirectPolicy : Type := TrustedControlPlane | GovernedControlPlane.
Inductive InvocationOrigin : Type :=
| OriginAgent | OriginNested | OriginRuntimeInternal | OriginHostDirect (p : HostDirectPolicy) | OriginHostDirectNested (p : HostDirectPolicy).
Record ToolInvocation : Type := mkInvocation {
  inv_id : str;
  inv_name : str;
  inv_args : json;
  inv_origin : InvocationOrigin;
  inv_recent_tools : list str;
}.
Definition with_name (name : str) (i : ToolInvocation) : ToolInvocation := mkInvocation (inv_id i) name (inv_args i) (inv_origin i) (inv_recent_tools i).
Definition with_args (args : json) (i : ToolInvocation) : ToolInvocation := mkInvocation (inv_id i) (inv_name i) args (inv_origin i) (inv_recent_tools i).
Inductive ToolInvocationTerminal : Type := TerminalCompleted | TerminalRejected | TerminalCancelled | TerminalFailed.
Inductive ToolInvocationState : Type :=
| InvocationCreated | InvocationAdmitted | InvocationGatePending | InvocationRunning | InvocationTerminal (t : ToolInvocationTerminal).
Definition lifecycle_transition (state next : ToolInvocationState) : option ToolInvocationState :=
  match state, next with
  | InvocationCreated, InvocationAdmitted | InvocationCreated, InvocationTerminal _
  | InvocationAdmitted, InvocationGatePending | InvocationAdmitted, InvocationTerminal _
  | InvocationGatePending, InvocationRunning | InvocationGatePending, InvocationTerminal _
  | InvocationRunning, InvocationTerminal _ => Some next
  | _, _ => None
  end.
(** [debug_assert!(lifecycle.transition(next).is_ok())]: the whole argument is evaluated only
    with debug assertions. A failed assertion is [None]. *)
Definition debug_transition (debug_assertions : bool) (next : ToolInvocationState) (state : option ToolInvocationState) : option ToolInvocationState :=
  if debug_assertions then state ≫= fun state => lifecycle_transition state next else state.
(** [enter_tool_invocation], on the stack of the context. *)
Definition enter_tool_invocation (stack : list str) (tool_name : str) : str + list str :=
  if one_of tool_name ["batch"; "program"] && bool_decide (tool_name ∈ stack)
  then inl ($"recursive " ++ tool_name ++ $" calls are not allowed")
  else inr (stack ++ [tool_name]).

Record HookEngine : Type := mkHookEngine {
  he_pre_tool_use : str -> str -> json -> list str -> HookOutcome;
  he_permission_request : str -> str -> str -> json -> HookOutcome;
}.
(** Of a soft limit only the resource is kept: its numbers go into an event. *)
Inductive BudgetDecision : Type := BudgetAllow | BudgetSoftLimit (resource : str) | BudgetDeny (resource reason : str).
Record ToolRun : Type := mkToolRun { tr_output : str; tr_is_error : bool }.
(** What the invoker finds in its agent. [in_validate] and [in_bind_request] return the error. *)
Record Invoker : Type := mkInvoker {
  in_config : GateConfig;
  in_session_id : str;
  in_hooks : option HookEngine;
  in_validate : str -> json -> option str;
  in_requires_confirmation : str -> json -> bool;
  in_read_only : str -> json -> bool;
  in_bind_request : ToolInvocation -> option str;
  in_budget : option (str -> str -> BudgetDecision);
  in_execute : str -> json -> ToolRun;
  in_debug_assertions : bool;
}.
(** How an invocation ends; [ResultWaiting] while its confirmation is open. *)
Inductive InvocationResult : Type :=
| ResultDenied (output : str) (error_kind : option GateErrorKind)
| ResultExecuted (name : str) (args : json) (run : ToolRun)
| ResultWaiting
| ResultPanicked.
Record Settled : Type := mkSettled { sd_lifecycle : option ToolInvocationState; sd_result : InvocationResult }.
Definition invalid_arguments (tool_name message : str) : InvocationResult :=
  ResultDenied ($"Invalid arguments for tool '" ++ tool_name ++ $"': " ++ message ++ $" [permanent - change the arguments before retrying]")
    (Some (InvalidArgument message)).
Definition denied (output : str) : InvocationResult := ResultDenied output None.

(** [ctx.is_cancelled()] *)
Definition is_cancelled : Dialog bool := act (fun signal s => (match signal with CancelSignal => true | Undisturbed => false end, s)).
(** [select! { biased; cancelled => None, p => Some }]: before every step of [p] the
    cancellation is polled first. *)
Fixpoint until_cancelled {A} (p : Dialog A) : Dialog (option A) :=
  match p with
  | Ret a => Ret (Some a)
  | Step step => Step (fun signal s =>
      match signal with
      | CancelSignal => (Ret None, s)
      | Undisturbed => let '(p, s) := step Undisturbed s in (until_cancelled p, s)
      end)
  end.
Definition select_cancelled {A} (p : Dialog A) : Dialog (option A) :=
  cancelled <- is_cancelled ;; if cancelled : bool then Ret None else until_cancelled p.

Section Invocation.
Context (iv : Invoker).
Abbreviation config := (in_config iv).
Definition advance : ToolInvocationState -> option ToolInvocationState -> option ToolInvocationState := debug_transition (in_debug_assertions iv).
Definition settle_as (t : ToolInvocationTerminal) (result : InvocationResult) (lifecycle : option ToolInvocationState) : Settled :=
  mkSettled (advance (InvocationTerminal t) lifecycle) result.

Definition fire_pre_tool_use (tool_name : str) (args : json) (recent_tools : list str) : Dialog PreToolHookDecision :=
  match in_hooks iv with
  | Some he =>
      let safe_args := if bool_decide (args = JNull) then JObject [] else args in
      look (fun _ => normalize_pre_tool_gate_outcome (he_pre_tool_use he (in_session_id iv) tool_name safe_args recent_tools))
  | None => Ret (mkPreToolDecision None None)
  end.
Definition fire_permission_request (tool_id tool_name : str) (args : json) : Dialog PermissionHookDecision :=
  match in_hooks iv with
  | Some he => look (fun _ => normalize_permission_outcome (he_permission_request he (in_session_id iv) tool_id tool_name args))
  | None => Ret HookAbstains
  end.
(** [decide_gate] after the name: the decision and the invocation as the hook has left it;
    [inl] is the error. *)
Definition decide_named (i : ToolInvocation) : Dialog (ToolInvocation * (str + ToolGateDecision)) :=
  hook_decision <- fire_pre_tool_use (inv_name i) (inv_args i) (inv_recent_tools i) ;;
  let i := match pt_updated_args hook_decision with Some args => with_args args i | None => i end in
  match pt_updated_args hook_decision ≫= fun _ => in_validate iv (inv_name i) (inv_args i) with
  | Some message => Ret (i, inl message)
  | None =>
      match in_bind_request iv i with
      | Some message => Ret (i, inl message)
      | None =>
          let trusted reason := Ret (i, inr (match pt_denial hook_decision with
                                              | Some feedback => into_gate_decision feedback (inv_name i)
                                              | None => GateExecute reason
                                              end)) in
          match inv_origin i with
          | OriginRuntimeInternal => trusted RuntimeInternalApproval
          | OriginHostDirect TrustedControlPlane | OriginHostDirectNested TrustedControlPlane => trusted HostDirectTrusted
          | _ => decision <- gate_decide config (inv_name i) (inv_args i) (pt_denial hook_decision)
                               (in_requires_confirmation iv (inv_name i) (inv_args i)) ;;
                 Ret (i, inr decision)
          end
      end
  end.
Definition decide_gate (i : ToolInvocation) : Dialog (Res (ToolInvocation * (str + ToolGateDecision))) :=
  match canonical_tool_name (inv_name i) with
  | Ok name => decision <- decide_named (with_name name i) ;; Ret (Ok decision)
  | _ => Ret Panic
  end.
Definition check_before_tool (i : ToolInvocation) : Dialog (option InvocationResult) :=
  match in_budget iv with
  | None => Ret None
  | Some guard =>
      look (fun _ => match guard (in_session_id iv) (inv_name i) with
                     | BudgetAllow | BudgetSoftLimit _ => None
                     | BudgetDeny resource reason => Some (denied ($"Budget exhausted on '" ++ resource ++ $"': " ++ reason))
                     end)
  end.
Definition execute_budgeted (i : ToolInvocation) (lifecycle : option ToolInvocationState) : Dialog Settled :=
  refusal <- check_before_tool i ;;
  match refusal with
  | Some result => Ret (settle_as TerminalRejected result lifecycle)
  | None =>
      let lifecycle := advance InvocationRunning lifecycle in
      let run := in_execute iv (inv_name i) (inv_args i) in
      cancelled <- is_cancelled ;;
      Ret (settle_as (if cancelled : bool then TerminalCancelled else if tr_is_error run then TerminalFailed else TerminalCompleted)
             (ResultExecuted (inv_name i) (inv_args i) run) lifecycle)
  end.
Definition resolve_gate (i : ToolInvocation) (lifecycle : option ToolInvocationState) (decision : ToolGateDecision) : Dialog Settled :=
  match decision with
  | GateDeny output _ _ error_kind => Ret (settle_as TerminalRejected (ResultDenied output error_kind) lifecycle)
  | GateExecute _ => execute_budgeted i lifecycle
  | GateConfirm _ _ =>
      hook <- fire_permission_request (inv_id i) (inv_name i) (inv_args i) ;;
      match hook with
      | HookAllows => execute_budgeted i lifecycle
      | HookDenies reason => Ret (settle_as TerminalRejected (denied ($"Tool '" ++ inv_name i ++ $"' denied by permission hook: " ++ reason)) lifecycle)
      | HookAbstains =>
          confirmation <- (match gc_confirmation_manager config with
                           | Some manager => resolve_with_cancellation manager (inv_id i) (inv_name i) (inv_args i)
                           | None => Ret (ConfirmationRejected ($"Tool '" ++ inv_name i ++ $"' requires confirmation but no HITL confirmation manager is configured."))
                           end) ;;
          match confirmation with
          | ConfirmationApproved => execute_budgeted i lifecycle
          | ConfirmationRejected output =>
              cancelled <- is_cancelled ;;
              Ret (settle_as (if cancelled : bool then TerminalCancelled else TerminalRejected) (denied output) lifecycle)
          | ConfirmationWaiting => Ret (mkSettled lifecycle ResultWaiting)
          end
      end
  end.
(** [ScopedToolInvoker::invoke]; the verifier turn's check is [nested_call_allowed]. *)
Definition invoke (verifier_read_only : bool) (stack : list str) (i : ToolInvocation) : Dialog Settled :=
  let created := Some InvocationCreated in
  match canonical_tool_name (inv_name i) with
  | Ok name =>
      let i := with_name name i in
      match enter_tool_invocation stack name with
      | inl message => Ret (settle_as TerminalFailed (denied message) created)
      | inr _ =>
          let admitted := advance InvocationAdmitted created in
          match (if verifier_read_only then nested_call_allowed name (inv_args i) (in_read_only iv name (inv_args i)) else Ok true) with
          | Ok true =>
              match in_validate iv name (inv_args i) with
              | Some message => Ret (settle_as TerminalFailed (invalid_arguments name message) admitted)
              | None =>
                  let pending := advance InvocationGatePending admitted in
                  decision <- select_cancelled (decide_gate i) ;;
                  match decision with
                  | Some (Ok (i, inr decision)) => resolve_gate i pending decision
                  | Some (Ok (i, inl message)) => Ret (settle_as TerminalFailed (invalid_arguments (inv_name i) message) pending)
                  | Some _ => Ret (mkSettled pending ResultPanicked)
                  | None => Ret (settle_as TerminalCancelled (denied ($"Tool '" ++ name ++ $"' cancelled by caller")) pending)
                  end
              end
          | Ok false => Ret (settle_as TerminalFailed (denied $"verifier role cannot mutate the workspace") admitted)
          | _ => Ret (mkSettled admitted ResultPanicked)
          end
      end
  | _ => Ret (mkSettled created ResultPanicked)
  end.
End Invocation.

(** ** Child runs *)
Inductive ConfirmationInheritance : Type := AutoApprove | DenyOnAsk | InheritParent.
#[global] Instance ConfirmationInheritance_eq_dec : EqDecision ConfirmationInheritance.
Proof. solve_decision. Defined.
(** The governance part of [AgentDefinition::apply_to]: [strict] is the checker of a tool-free
    worker, [permissions] the definition's own when it defines any, [identity] that of a new
    auto-approver. The second component is the effective inheritance. *)
Definition apply_definition (identity : nat) (tool_free : bool) (strict : Checker) (permissions : option Checker)
    (declared set : option ConfirmationInheritance) (c : GateConfig) : GateConfig * ConfirmationInheritance :=
  let checker := if tool_free then Some strict
                 else match gc_permission_checker c with Some checker => Some checker | None => permissions end in
  let inheritance := match set with
                     | Some inheritance => inheritance
                     | None => default (match permissions with Some _ => AutoApprove | None => DenyOnAsk end) declared
                     end in
  let manager := match gc_confirmation_manager c, inheritance with
                 | Some manager, _ => Some manager
                 | None, AutoApprove => Some (auto_approve identity)
                 | None, (DenyOnAsk | InheritParent) => None
                 end in
  (mkGateConfig (gc_enforce_skills c) (gc_skill_registry c) checker manager, inheritance).
(** The governance that [ChildRunContext::apply_to] gives a child run; [identity] is the new
    provider's. *)
Definition child_config (identity : nat) (inheritance : option ConfirmationInheritance) (enforce : option bool) (child parent : GateConfig) : GateConfig :=
  let child_confirmation := match gc_confirmation_manager child, inheritance with
                            | None, Some InheritParent => gc_confirmation_manager parent
                            | confirmation, _ => confirmation
                            end in
  mkGateConfig (default (gc_enforce_skills child) enforce)
    (match gc_skill_registry child with Some r => Some r | None => gc_skill_registry parent end)
    (composed_checker (gc_permission_checker child) (gc_permission_checker parent))
    (Some (delegated identity (gc_permission_checker child) child_confirmation (gc_permission_checker parent) (gc_confirmation_manager parent))).
