(* ===== verification/ToolGateFacts.v ===== *)
(** A tool runs only when every authority over the call has agreed, and each invocation ends
    in one terminal state. The proofs see the confirmation provider only through [Endorses]. *)
From stdpp Require Import gmap relations.
From S2P Require Import Prelude Text PermissionRule PermissionPolicy Verification Programs Hooks Confirmation ConfirmationFacts ConfirmationDelegation ToolGate.

(** ** Programs *)
Lemma until_cancelled_reads {A} (R : A -> Prop) (p : Dialog A) : reads_to R p -> reads_to (fun o => forall a, o = Some a -> R a) (select_cancelled p).
Proof.
  intros Hp. unfold select_cancelled. apply (reads_then (fun _ => True)); [by intros c w|]. intros [] _; [done|]. revert Hp.
  induction p as [a|step IH] using Prog_steps_ind; cbn; [by intros Ha a' [= <-]|]. intros Hp [] w; [|done].
  specialize (Hp Undisturbed w). specialize (IH Undisturbed w). destruct (step Undisturbed w) as [p after]. destruct Hp as [-> Hp]. split; [done|]. by apply IH.
Qed.

(** ** What a call needs *)
Section Authorization.
Context (guarded : nat -> Prop) (iv : Invoker) (Q : Authority).
Context (HQ : forall P, gc_confirmation_manager (in_config iv) = Some P -> Endorses guarded P Q).
Abbreviation config := (in_config iv).
Abbreviation good := (good guarded).
Abbreviation triple := (triple guarded).

Definition trusted (origin : InvocationOrigin) : Prop :=
  origin = OriginRuntimeInternal \/ origin = OriginHostDirect TrustedControlPlane \/ origin = OriginHostDirectNested TrustedControlPlane.
(** What the pre-tool hook, if there is one, decides about a call. *)
Definition pre_tool_decision (name : str) (args : json) (recent_tools : list str) : PreToolHookDecision :=
  match in_hooks iv with
  | Some he => normalize_pre_tool_gate_outcome (he_pre_tool_use he (in_session_id iv) name (if bool_decide (args = JNull) then JObject [] else args) recent_tools)
  | None => mkPreToolDecision None None
  end.
Definition permission_hook_allows (id name : str) (args : json) : Prop :=
  exists he, in_hooks iv = Some he /\ normalize_permission_outcome (he_permission_request he (in_session_id iv) id name args) = HookAllows.
Definition within_budget (name : str) : Prop :=
  forall guard resource reason, in_budget iv = Some guard -> guard (in_session_id iv) name <> BudgetDeny resource reason.
(** The permission checker allows the call and the tool does not ask for confirmation. *)
Definition allowed_outright (name : str) (args : json) : Prop :=
  permission_decision config name args = Allow /\ in_requires_confirmation iv name args = false.
(** No skill forbids the tool, the checker does not deny the call, and it is allowed
    outright, or by the permission hook, or by the authority of the provider. *)
Definition gate_passed (id name : str) (args : json) (n : nat) (s : Confirmations) : Prop :=
  check_skill_restrictions config name = None /\ permission_decision config name args <> Deny /\
  (allowed_outright name args \/ permission_hook_allows id name args \/ (gc_confirmation_manager config <> None /\ Q id name args n s)).
(** Everything that holds of a call that runs as [name] with [args], by the time it runs. *)
Record authorized (verifier_read_only : bool) (stack : list str) (i : ToolInvocation) (name : str) (args : json) (n : nat) (s : Confirmations) : Prop := mkAuthorized {
  au_admitted : exists once, canonical_tool_name (inv_name i) = Ok once /\ canonical_tool_name once = Ok name /\
    (exists stack', enter_tool_invocation stack once = inr stack') /\ in_validate iv once (inv_args i) = None /\
    (verifier_read_only = true -> nested_call_allowed once (inv_args i) (in_read_only iv once (inv_args i)) = Ok true);
  au_hook : pt_denial (pre_tool_decision name (inv_args i) (inv_recent_tools i)) = None;
  au_args : args = default (inv_args i) (pt_updated_args (pre_tool_decision name (inv_args i) (inv_recent_tools i)));
  au_updated : is_Some (pt_updated_args (pre_tool_decision name (inv_args i) (inv_recent_tools i))) -> in_validate iv name args = None;
  au_budget : within_budget name;
  au_gate : trusted (inv_origin i) \/ gate_passed (inv_id i) name args n s;
}.

(** ** The steps of an invocation *)
Lemma confirmation_reads name args : reads_to (fun d => match d with GateExecute _ => False | GateConfirm _ _ => gc_confirmation_manager config <> None | GateDeny _ _ _ _ => True end)
  (confirmation_decision config name args true).
Proof.
  unfold confirmation_decision. destruct (gc_confirmation_manager config) as [P|] eqn:HP; [|done]. specialize (HQ P eq_refl).
  eapply reads_then; [by apply (@en_available guarded P Q HQ)|]. intros [] _; [|done]. cbn [negb bind].
  eapply reads_then; [by apply (@en_policy_for guarded P Q HQ)|]. done.
Qed.
Definition gate_sound (name : str) (args : json) (denial : option HookDenialFeedback) (requires : bool) (d : ToolGateDecision) : Prop :=
  match d with
  | GateDeny _ _ _ _ => True
  | GateExecute _ => denial = None /\ check_skill_restrictions config name = None /\ permission_decision config name args = Allow /\ requires = false
  | GateConfirm _ _ => denial = None /\ check_skill_restrictions config name = None /\ permission_decision config name args <> Deny /\ gc_confirmation_manager config <> None
  end.
Lemma gate_reads name args denial requires : reads_to (gate_sound name args denial requires) (gate_decide config name args denial requires).
Proof.
  unfold gate_decide. destruct (check_skill_restrictions config name) as [d|] eqn:Hskill.
  { unfold check_skill_restrictions in Hskill. repeat case_match; by simplify_eq. }
  destruct denial as [f|]; [by unfold into_gate_decision|].
  assert (Hconf : permission_decision config name args <> Deny -> reads_to (gate_sound name args None requires) (confirmation_decision config name args true)).
  { intros Hp. eapply reads_weaken; [apply confirmation_reads|]. intros []; cbn; tauto. }
  destruct (permission_decision config name args) eqn:Hp; [|done|by apply Hconf]. destruct requires; [by apply Hconf|done].
Qed.
(** The invocation and the decision that [decide_named] yields, of the invocation [i]. *)
Definition decided (i : ToolInvocation) (x : ToolInvocation * (str + ToolGateDecision)) : Prop :=
  let hook := pre_tool_decision (inv_name i) (inv_args i) (inv_recent_tools i) in
  let args := default (inv_args i) (pt_updated_args hook) in
  x.1 = with_args args i /\
  forall decision, x.2 = inr decision ->
    (is_Some (pt_updated_args hook) -> in_validate iv (inv_name i) args = None) /\
    match decision with
    | GateDeny _ _ _ _ => True
    | GateExecute _ => pt_denial hook = None /\ (trusted (inv_origin i) \/
        (check_skill_restrictions config (inv_name i) = None /\ allowed_outright (inv_name i) args))
    | GateConfirm _ _ => pt_denial hook = None /\ check_skill_restrictions config (inv_name i) = None /\
        permission_decision config (inv_name i) args <> Deny /\ gc_confirmation_manager config <> None
    end.
Lemma fire_pre_tool_reads name args recent : reads_to (fun d => d = pre_tool_decision name args recent) (fire_pre_tool_use iv name args recent).
Proof. unfold fire_pre_tool_use, pre_tool_decision. by destruct (in_hooks iv). Qed.
Lemma with_args_self (i : ToolInvocation) : with_args (inv_args i) i = i.
Proof. by destruct i. Qed.
Lemma decide_named_reads i : reads_to (decided i) (decide_named iv i).
Proof.
  unfold decide_named. eapply reads_then; [apply fire_pre_tool_reads|]. intros hook Hhook. unfold decided. rewrite <- Hhook. cbn zeta.
  set (args := default (inv_args i) (pt_updated_args hook)).
  assert (Hi : match pt_updated_args hook with Some args => with_args args i | None => i end = with_args args i)
    by (unfold args; destruct (pt_updated_args hook); [done|]; symmetry; apply with_args_self).
  rewrite Hi. cbn [with_args inv_name inv_args inv_origin]. destruct (pt_updated_args hook ≫= _) as [message|] eqn:Hv; [done|].
  assert (Hup : is_Some (pt_updated_args hook) -> in_validate iv (inv_name i) args = None) by (intros [x Hx]; by rewrite Hx in Hv).
  destruct (in_bind_request iv (with_args args i)) as [message|]; [done|].
  assert (Htrust : forall reason, trusted (inv_origin i) -> decided i (with_args args i, inr (match pt_denial hook with
      Some feedback => into_gate_decision feedback (inv_name i) | None => GateExecute reason end))).
  { intros reason Ht. unfold decided. rewrite <- Hhook. cbn. split; [done|]. intros d [= <-]. split; [done|]. destruct (pt_denial hook); cbn; auto. }
  unfold decided in Htrust. rewrite <- Hhook in Htrust.
  assert (Hgov : reads_to (decided i) (decision <- gate_decide config (inv_name i) args (pt_denial hook) (in_requires_confirmation iv (inv_name i) args);;
                                      Ret (with_args args i, inr decision))).
  { eapply reads_then; [apply gate_reads|]. intros d Hd. cbn. unfold decided. rewrite <- Hhook. split; [done|]. intros d' [= <-]. split; [done|].
    destruct d; cbn in Hd; [|tauto|done]. destruct Hd as (? & ? & ? & ?). split; [done|]. right. by repeat split. }
  unfold decided in Hgov. rewrite <- Hhook in Hgov.
  destruct (inv_origin i) as [| | |[]|[]] eqn:Ho; try exact Hgov; apply Htrust; unfold trusted; auto.
Qed.
Lemma execute_reads i lifecycle : reads_to (fun x => forall name args run, sd_result x = ResultExecuted name args run ->
    name = inv_name i /\ args = inv_args i /\ within_budget name) (execute_budgeted iv i lifecycle).
Proof.
  unfold execute_budgeted. eapply (reads_then (fun refusal => (forall result, refusal = Some result -> exists output, result = denied output) /\ (refusal = None -> within_budget (inv_name i)))).
  - unfold check_before_tool, within_budget. destruct (in_budget iv) as [guard|]; cbn; [|done]. intros c s. split; [done|].
    destruct (guard (in_session_id iv) (inv_name i)) eqn:E; (split; [intros result [= <-]; by eexists|]); intros Hn guard' r m [= <-]; by rewrite E.
  - intros [result|] [Hden Hin].
    + destruct (Hden _ eq_refl) as [output ->]. intros name args run. done.
    + intros c s. split; [done|]. intros name args run [= <- <- <-]. auto.
Qed.
(** [resolve_with_cancellation]: an approval is backed by the authority of the provider. *)
Lemma resolve_endorsed P id name args s : Endorses guarded P Q -> good s ->
  triple (resolve_with_cancellation P id name args) s (fun s' r => r = ConfirmationApproved -> Q id name args (cs_next s) s').
Proof.
  intros HP Hg. eapply triple_then; [by apply en_request|]. intros s1 r Hr Hp.
  eapply (triple_then _ _ _ _ (fun s2 woken => match woken with Some (Some resp) => rely guarded s1 s2 /\ awaited s2 r = Some resp | _ => True end)).
  { apply triple_act. intros [] s2 Hr2; cbn; (split; [apply rtc_refl|]); [|done]. by destruct (awaited s2 r). }
  intros s2 [[resp|]|] Hr2 Hw.
  - apply triple_ret. destruct (cr_approved resp) eqn:E; [|done]. intros _. by eapply (Hp s2); [apply Hw..|].
  - by apply triple_ret.
  - destruct (rely_good _ _ _ Hr Hg) as [Hg1 _]. destruct (rely_good _ _ _ Hr2 Hg1) as [Hg2 _].
    eapply triple_then; [by apply (@en_cancel guarded P Q HP)|]. intros. by apply triple_ret.
Qed.
Definition runs_with (i : ToolInvocation) (R : Confirmations -> Prop) (s : Confirmations) (x : Settled) : Prop :=
  forall name args run, sd_result x = ResultExecuted name args run -> name = inv_name i /\ args = inv_args i /\ within_budget name /\ R s.
Lemma execute_triple i lifecycle (R : Confirmations -> Prop) s : (forall s', rely guarded s s' -> R s') ->
  triple (execute_budgeted iv i lifecycle) s (runs_with i R).
Proof.
  intros HR. eapply triple_weaken; [apply triple_reads, execute_reads|]. intros s' x Hr Hx name args run Hrun.
  destruct (Hx _ _ _ Hrun) as (? & ? & ?). auto.
Qed.
(** What the gate has let through, by the time it runs. *)
Definition let_through (i : ToolInvocation) (n : nat) (s : Confirmations) : Prop :=
  trusted (inv_origin i) \/ gate_passed (inv_id i) (inv_name i) (inv_args i) n s.
Definition decision_ok (i : ToolInvocation) (d : ToolGateDecision) : Prop :=
  match d with
  | GateDeny _ _ _ _ => True
  | GateExecute _ => trusted (inv_origin i) \/ (check_skill_restrictions config (inv_name i) = None /\ allowed_outright (inv_name i) (inv_args i))
  | GateConfirm _ _ => check_skill_restrictions config (inv_name i) = None /\ permission_decision config (inv_name i) (inv_args i) <> Deny /\ gc_confirmation_manager config <> None
  end.
Lemma resolve_gate_triple i lifecycle d n s : good s -> (n <= cs_next s)%nat -> decision_ok i d ->
  triple (resolve_gate iv i lifecycle d) s (runs_with i (let_through i n)).
Proof.
  intros Hg Hn Hd. destruct d as [reason|timeout_ms action|output event reason kind]; cbn [decision_ok resolve_gate] in *.
  - apply execute_triple. intros s' _. destruct Hd as [Ht|[Hs Ha]]; [by left|right]. split; [done|]. split; [|by left]. destruct Ha as [-> _]. done.
  - destruct Hd as (Hskill & Hperm & Hman). eapply (triple_then _ _ _ _ (fun _ hook => hook = HookAllows -> permission_hook_allows (inv_id i) (inv_name i) (inv_args i))).
    { unfold fire_permission_request, permission_hook_allows. destruct (in_hooks iv) as [he|]; [|by apply triple_ret]. apply triple_look. intros s1 _ Hx. by exists he. }
    intros s1 hook Hr1 Hhook. destruct (rely_good _ _ _ Hr1 Hg) as [Hg1 Hgr]. pose proof (gr_next _ _ Hgr).
    destruct hook as [| |why]; [|apply execute_triple; intros; right; split; [done|]; split; [done|]; right; left; by apply Hhook|by apply triple_ret].
    destruct (gc_confirmation_manager config) as [P|] eqn:HP; [|done]. specialize (HQ P eq_refl).
    eapply triple_then; [by apply (resolve_endorsed P)|]. intros s2 res Hr2 Hres. destruct (rely_good _ _ _ Hr2 Hg1) as [Hg2 _].
    destruct res as [|output|]; [|eapply (triple_then _ _ _ _ (fun _ _ => True)); [by apply (triple_reads _ (fun _ => True))|intros; by apply triple_ret]|by apply triple_ret].
    apply execute_triple. intros s3 Hr3. right. unfold gate_passed. rewrite HP. split; [done|]. split; [done|]. right. right. split; [done|].
    eapply (@en_stable guarded P Q HQ); [exact Hg2|exact Hr3|]. eapply (@en_since guarded P Q HQ); [|by apply Hres]. lia.
  - by apply triple_ret.
Qed.
Lemma invoke_triple verifier stack i s : good s ->
  triple (invoke iv verifier stack i) s (fun s' x => forall name args run, sd_result x = ResultExecuted name args run ->
    authorized verifier stack i name args (cs_next s) s').
Proof.
  intros Hg. unfold invoke. destruct (canonical_tool_name (inv_name i)) as [once| |] eqn:H1; [|by apply triple_ret..].
  destruct (enter_tool_invocation stack once) as [message|stack'] eqn:H2; [by apply triple_ret|].
  destruct (if verifier then _ else _) as [[]| |] eqn:H3; [|by apply triple_ret..].
  destruct (in_validate iv once (inv_args (with_name once i))) as [message|] eqn:H4; [by apply triple_ret|].
  eapply triple_then; [apply triple_reads, until_cancelled_reads|].
  { instantiate (1 := fun r => forall x, r = Ok x -> exists name, canonical_tool_name once = Ok name /\ decided (with_name name (with_name once i)) x).
    unfold decide_gate. cbn [inv_name with_name]. destruct (canonical_tool_name once) as [name| |]; [|done..].
    eapply reads_then; [apply decide_named_reads|]. intros x Hx y [= <-]. by exists name. }
  intros s1 [[[i' [message|d]]| |]|] Hr1 Hdec; try by apply triple_ret.
  destruct (Hdec _ eq_refl _ eq_refl) as (name & Hname & Hi & Hd). cbn [fst snd] in Hi, Hd. destruct (Hd d eq_refl) as [Hup Hok].
  destruct (rely_good _ _ _ Hr1 Hg) as [Hg1 Hgr]. cbn in Hi, Hup, Hok. subst i'.
  assert (Hhook : (exists output event reason kind, d = GateDeny output event reason kind) \/
    pt_denial (pre_tool_decision name (inv_args i) (inv_recent_tools i)) = None) by (destruct d; [right; tauto..|left; eauto]).
  destruct Hhook as [(output & event & reason & kind & ->)|Hhook]; [by apply triple_ret|].
  eapply triple_weaken; [apply (resolve_gate_triple _ _ _ (cs_next s)); [done|apply Hgr|]|].
  { destruct d; cbn; [|tauto|done]. destruct Hok as [_ [?|?]]; auto. }
  intros s2 x Hr2 Hx name' args run Hrun. destruct (Hx _ _ _ Hrun) as (-> & -> & Hb & Hlet). cbn in *. constructor.
  - exists once. split_and!; try done; [by exists stack'|]. intros ->. done.
  - done.
  - done.
  - done.
  - done.
  - done.
Qed.
End Authorization.

(** ** The lifecycle of an invocation *)
(** [always p R]: whatever the other tasks do, every answer of the program satisfies [R]. *)
Definition always {A} (p : Dialog A) (R : A -> Prop) : Prop := forall h s, wp (fun _ _ => True) p (fun _ _ a => R a) h s.
Lemma always_then {A B} R (p : Dialog A) (k : A -> Dialog B) R' : always p R -> (forall a, R a -> always (k a) R') -> always (bind p k) R'.
Proof.
  intros Hp Hk h s. apply wp_then. eapply wp_weaken; [|apply Hp]. intros h' s' a Ha. by apply Hk.
Qed.
Lemma always_any {A} (p : Dialog A) : always p (fun _ => True).
Proof.
  intros h s. revert h s. induction p as [a|step IH] using Prog_steps_ind; intros h s; cbn; [done|].
  intros c s1 _. specialize (IH c s1). destruct (step c s1). apply IH.
Qed.
Lemma always_run {A} (p : Dialog A) R schedule s : always p R -> R (ran_answer (play p schedule s)).
Proof.
  intros Hp. apply (wp_run (fun _ _ => True) p (fun _ _ a => R a) schedule [] s); [done| |apply Hp]. apply List.Forall_forall. done.
Qed.
(** The terminal state that fits the result; [start] is where the invocation still stands
    when it has not ended. *)
Definition settled_in (start : option ToolInvocationState) (x : Settled) : Prop :=
  match sd_result x with
  | ResultExecuted _ _ run => exists t, sd_lifecycle x = Some (InvocationTerminal t) /\ t <> TerminalRejected /\ (tr_is_error run = true -> t <> TerminalCompleted)
  | ResultDenied _ _ => exists t, sd_lifecycle x = Some (InvocationTerminal t) /\ t <> TerminalCompleted
  | ResultWaiting | ResultPanicked => sd_lifecycle x = start
  end.
Section Lifecycle.
Context (iv : Invoker) (Hdebug : in_debug_assertions iv = true).
Abbreviation pending := (Some InvocationGatePending).
Lemma settle_denied t output kind state : (exists st, state = Some st /\ lifecycle_transition st (InvocationTerminal t) <> None) -> t <> TerminalCompleted ->
  forall start, settled_in start (settle_as iv t (ResultDenied output kind) state).
Proof.
  intros (st & -> & Hst) Ht start. unfold settled_in, settle_as, advance, debug_transition. rewrite Hdebug. cbn. exists t.
  by destruct st.
Qed.
Lemma check_refuses i : always (check_before_tool iv i) (fun refusal => forall result, refusal = Some result -> exists output, result = denied output).
Proof.
  unfold check_before_tool. destruct (in_budget iv) as [guard|]; [|by intros h s].
  intros h s c s1 _. cbn. intros result. destruct (guard (in_session_id iv) (inv_name i)); [done..|]. intros [= <-]. by eexists.
Qed.
Lemma execute_settles i : always (execute_budgeted iv i pending) (settled_in pending).
Proof.
  eapply always_then; [apply check_refuses|]. intros [result|] Hres.
  - destruct (Hres _ eq_refl) as [output ->]. intros h s. by apply settle_denied; [eexists|].
  - intros h s c s1 _. destruct c; cbn; unfold settled_in, settle_as, advance, debug_transition; rewrite Hdebug; cbn; eexists;
      (split; [reflexivity|]); by destruct (tr_is_error _).
Qed.
Lemma resolve_settles i d : always (resolve_gate iv i pending d) (settled_in pending).
Proof.
  assert (Hden : forall t output kind, t <> TerminalCompleted -> always (Ret (settle_as iv t (ResultDenied output kind) pending)) (settled_in pending))
    by (intros t output kind Ht h s; by apply settle_denied; [eexists|]).
  destruct d as [reason|timeout_ms action|output event reason kind]; cbn [resolve_gate]; [apply execute_settles| |by apply Hden].
  eapply always_then; [apply always_any|]. intros [| |why] _; [|apply execute_settles|by apply Hden].
  eapply always_then; [apply always_any|]. intros [|output|] _; [apply execute_settles| |by intros h s].
  eapply always_then; [apply always_any|]. intros cancelled _. apply Hden. by destruct cancelled.
Qed.
Lemma invoke_settles verifier stack i : always (invoke iv verifier stack i) (fun x => exists start, settled_in (Some start) x).
Proof.
  assert (Hden : forall t output kind st, t <> TerminalCompleted -> lifecycle_transition st (InvocationTerminal t) <> None ->
    always (Ret (settle_as iv t (ResultDenied output kind) (Some st))) (fun x => exists start, settled_in (Some start) x))
    by (intros t output kind st Ht Hst h s; exists st; by apply settle_denied; [eexists|]).
  unfold invoke, advance, debug_transition. rewrite Hdebug. cbn [mbind option_bind lifecycle_transition].
  assert (Hpanic : forall st, always (Ret (mkSettled (Some st) ResultPanicked)) (fun x => exists start, settled_in (Some start) x)) by (intros st h s; by exists st).
  destruct (canonical_tool_name (inv_name i)) as [once| |]; [|by apply Hpanic..]. destruct (enter_tool_invocation stack once); [by apply Hden|].
  destruct (if verifier then _ else _) as [[]| |]; [|by apply Hden|by apply Hpanic..]. destruct (in_validate iv once _); [by apply Hden|].
  eapply always_then; [apply always_any|]. intros [[[i' [message|d]]| |]|] _; [by apply Hden| |by apply Hpanic..|by apply Hden].
  intros h s. eapply wp_weaken; [|apply resolve_settles]. intros h' s' x Hx. by exists InvocationGatePending.
Qed.
End Lifecycle.
(** Without debug assertions no transition is made. *)
Section Release.
Context (iv : Invoker) (Hrelease : in_debug_assertions iv = false).
Abbreviation kept state := (fun x => sd_lifecycle x = state).
Lemma settle_kept t result state : sd_lifecycle (settle_as iv t result state) = state.
Proof. unfold settle_as, advance, debug_transition. by rewrite Hrelease. Qed.
Lemma run_kept i state : always (execute_budgeted iv i state) (kept state).
Proof.
  eapply always_then; [apply always_any|]. intros [result|] _; [intros h s; apply settle_kept|].
  eapply always_then; [apply always_any|]. intros cancelled _ h s. unfold advance, debug_transition. rewrite Hrelease. apply settle_kept.
Qed.
Lemma resolve_kept i state d : always (resolve_gate iv i state d) (kept state).
Proof.
  destruct d as [reason|timeout_ms action|output event reason kind]; cbn [resolve_gate]; [apply run_kept| |intros h s; apply settle_kept].
  eapply always_then; [apply always_any|]. intros [| |why] _; [|apply run_kept|intros h s; apply settle_kept].
  eapply always_then; [apply always_any|]. intros [|output|] _; [apply run_kept| |by intros h s].
  eapply always_then; [apply always_any|]. intros cancelled _ h s. apply settle_kept.
Qed.
Lemma release_lifecycle_is_inert verifier stack i : always (invoke iv verifier stack i) (kept (Some InvocationCreated)).
Proof.
  unfold invoke, advance, debug_transition. rewrite Hrelease.
  destruct (canonical_tool_name (inv_name i)) as [once| |]; [|by intros h s..]. destruct (enter_tool_invocation stack once); [intros h s; apply settle_kept|].
  destruct (if verifier then _ else _) as [[]| |]; [|intros h s; apply settle_kept|by intros h s..]. destruct (in_validate iv once _); [intros h s; apply settle_kept|].
  eapply always_then; [apply always_any|]. intros [[[i' [message|d]]| |]|] _; [intros h s; apply settle_kept|apply resolve_kept|by intros h s..|intros h s; apply settle_kept].
Qed.
End Release.

(** ** Child runs *)
(** The authority of a provider when only manager [m] matters. *)
Definition only (m : nat) (P : Provider) : Authority := if Nat.eqb (pv_identity P) m then host_says (eq m) m else anything.
Definition plain_provider (m : nat) (P : Provider) : Prop := (exists k, k <> m /\ P = auto_approve k) \/ exists k, P = manager_provider k.
Lemma only_endorses m P : plain_provider m P -> Endorses (eq m) P (only m P).
Proof.
  unfold only. intros [(k & Hk & ->)|[k ->]]; cbn [pv_identity auto_approve manager_provider].
  - rewrite (proj2 (Nat.eqb_neq k m)) by done. apply auto_approve_endorses.
  - destruct (Nat.eqb_spec k m) as [->|Hne]; [apply manager_endorses|]. eapply endorses_anything, manager_endorses.
Qed.
Lemma plain_identity m a : plain_provider m a -> ptr_eq a (manager_provider m) = true -> a = manager_provider m.
Proof. unfold ptr_eq. intros [(k & Hk & ->)|[k ->]]; cbn; intros E%Nat.eqb_eq; by subst. Qed.
Section Child.
Context (m identity : nat) (inheritance : option ConfirmationInheritance) (enforce : option bool) (child parent : GateConfig) (check : Checker).
Context (Hparent : gc_confirmation_manager parent = Some (manager_provider m)) (Hcheck : gc_permission_checker parent = Some check).
Context (Hchild : forall P, gc_confirmation_manager child = Some P -> plain_provider m P).
Abbreviation config := (child_config identity inheritance enforce child parent).
Abbreviation own := (match gc_confirmation_manager child, inheritance with
                     | None, Some InheritParent => gc_confirmation_manager parent
                     | confirmation, _ => confirmation
                     end).
Abbreviation says := (delegation_says (only m) (gc_permission_checker child) own (gc_permission_checker parent) (gc_confirmation_manager parent)).
Lemma own_plain P : own = Some P -> plain_provider m P.
Proof.
  intros H. destruct (gc_confirmation_manager child) eqn:Hc; [injection H as <-; by apply Hchild|].
  destruct inheritance as [[]|]; try done. rewrite Hparent in H. injection H as <-. right. by exists m.
Qed.
Lemma child_endorses P : gc_confirmation_manager config = Some P -> Endorses (eq m) P says.
Proof.
  intros [= <-]. apply delegated_endorses.
  - intros P HP. by apply only_endorses, own_plain.
  - intros P. rewrite Hparent. intros [= <-]. apply only_endorses. right. by exists m.
  - intros a b Ha. rewrite Hparent. intros [= <-]. by apply plain_identity, own_plain.
Qed.
Lemma parent_says id name args n s : scope_says (only m) (gc_confirmation_manager parent) id name args n s ->
  exists c, (n <= c)%nat /\ endorsed m s id name args c /\ announced m s id name args.
Proof. rewrite Hparent. unfold scope_says, only. cbn [pv_identity manager_provider]. rewrite Nat.eqb_refl. intros H. by apply H. Qed.
(** The composed checker is no laxer than the parent's. *)
Lemma composed_by_parent name args : permission_decision config name args = match gc_permission_checker child with
  | Some own_check => stricter_decision (own_check name args) (check name args) | None => check name args end.
Proof. unfold permission_decision. cbn [gc_permission_checker child_config]. rewrite Hcheck. by destruct (gc_permission_checker child). Qed.
Lemma composed_not_denied name args : permission_decision config name args <> Deny -> check name args <> Deny.
Proof. rewrite composed_by_parent. destruct (gc_permission_checker child) as [own_check|]; [|done]. destruct (own_check name args), (check name args); done. Qed.
Lemma composed_allows name args : permission_decision config name args = Allow -> check name args = Allow.
Proof. rewrite composed_by_parent. destruct (gc_permission_checker child) as [own_check|]; [|done]. destruct (own_check name args), (check name args); done. Qed.
End Child.

(** ** Calls that nothing stands against *)
(** [calmly p R]: without cancellation, whatever the other tasks do, the answer satisfies [R]. *)
Fixpoint calmly {A} (p : Dialog A) (R : A -> Prop) : Prop :=
  match p with Ret a => R a | Step step => forall s, calmly (fst (step Undisturbed s)) R end.
Definition undisturbed (schedule : list (Moment Confirmations Signal)) : Prop := Forall (fun m => mo_choice m = Undisturbed) schedule.
Lemma calmly_then {A B} (p : Dialog A) (k : A -> Dialog B) R R' : calmly p R -> (forall a, R a -> calmly (k a) R') -> calmly (bind p k) R'.
Proof.
  intros Hp Hk. induction p as [a|step IH] using Prog_steps_ind; cbn in *; [by apply Hk|].
  intros s. specialize (Hp s). specialize (IH Undisturbed s). destruct (step Undisturbed s). by apply IH.
Qed.
Lemma calmly_select {A} (p : Dialog A) R : calmly p R -> calmly (select_cancelled p) (fun o => exists a, o = Some a /\ R a).
Proof.
  intros Hp s. cbn. clear s. induction p as [a|step IH] using Prog_steps_ind; cbn in *; [by exists a|].
  intros s. specialize (Hp s). specialize (IH Undisturbed s). destruct (step Undisturbed s). by apply IH.
Qed.
Lemma calmly_run {A} (p : Dialog A) R schedule s : undisturbed schedule -> calmly p R -> R (ran_answer (play p schedule s)).
Proof.
  revert schedule s. induction p as [a|step IH] using Prog_steps_ind; intros schedule s Hs Hp; cbn; [done|].
  set (m := default calm (head schedule)).
  assert (Hm : mo_choice m = Undisturbed) by (subst m; by destruct Hs). rewrite Hm. specialize (Hp (mo_others m s)). specialize (IH Undisturbed (mo_others m s)).
  destruct (step Undisturbed (mo_others m s)) as [p after]. apply IH; [|done]. unfold undisturbed. by destruct Hs.
Qed.
Section Permitted.
Context (iv : Invoker).
Lemma execute_calmly i state : within_budget iv (inv_name i) ->
  calmly (execute_budgeted iv i state) (fun x => sd_result x = ResultExecuted (inv_name i) (inv_args i) (in_execute iv (inv_name i) (inv_args i))).
Proof.
  intros Hb. unfold execute_budgeted, check_before_tool. destruct (in_budget iv) as [guard|] eqn:E; [|done].
  intros s. cbn. destruct (guard (in_session_id iv) (inv_name i)) eqn:Eg; [done..|]. by destruct (Hb _ _ _ E Eg).
Qed.
Lemma decide_calmly i : let hook := pre_tool_decision iv (inv_name i) (inv_args i) (inv_recent_tools i) in
  let args := default (inv_args i) (pt_updated_args hook) in
  pt_denial hook = None -> (is_Some (pt_updated_args hook) -> in_validate iv (inv_name i) args = None) -> in_bind_request iv (with_args args i) = None ->
  trusted (inv_origin i) \/ (check_skill_restrictions (in_config iv) (inv_name i) = None /\ allowed_outright iv (inv_name i) args) ->
  calmly (decide_named iv i) (fun x => exists reason, x = (with_args args i, inr (GateExecute reason))).
Proof.
  intros hook args Hden Hup Hbind Hgate. apply (calmly_then _ _ (fun d => d = hook)).
  { unfold fire_pre_tool_use. subst hook. unfold pre_tool_decision. by destruct (in_hooks iv). }
  intros d ->. cbn zeta.
  assert (Hi : match pt_updated_args hook with Some args => with_args args i | None => i end = with_args args i)
    by (unfold args; destruct (pt_updated_args hook); [done|]; symmetry; apply with_args_self).
  rewrite Hi. clearbody args. cbn [with_args inv_name inv_args inv_origin].
  destruct (pt_updated_args hook ≫= _) as [message|] eqn:Hv.
  { destruct (pt_updated_args hook) eqn:E; [|done]. cbn in Hv. rewrite Hup in Hv by done. done. }
  rewrite Hbind, Hden. destruct Hgate as [Ht|(Hskill & Hperm & Hreq)].
  - destruct (inv_origin i) as [| | |[]|[]]; try (by eexists); exfalso; unfold trusted in Ht; naive_solver.
  - unfold gate_decide. rewrite Hskill, Hperm, Hreq. destruct (inv_origin i) as [| | |[]|[]]; by eexists.
Qed.
End Permitted.

(** ** Properties *)
(** C3. A tool runs only when every authority over the call has agreed. Whatever the other
    tasks do meanwhile, if an invocation ends with the tool executed under some name and
    arguments, then the call was admitted and its arguments were valid, the pre-tool hook did
    not deny it and the arguments are the hook's, the budget was not exhausted, and, unless
    the origin is trusted, no skill forbids the tool, the permission checker does not deny
    the call, and the call is allowed outright, by the permission hook, or by the provider. *)
Theorem executed_call_is_authorized (guarded : nat -> Prop) (iv : Invoker) (Q : Authority) (verifier_read_only : bool) (stack : list str)
    (i : ToolInvocation) (schedule : list (Moment Confirmations Signal)) (s : Confirmations) (name : str) (args : json) (run : ToolRun) :
  (forall P, gc_confirmation_manager (in_config iv) = Some P -> Endorses guarded P Q) ->
  good guarded s -> obeys (rely guarded) schedule ->
  let r := play (invoke iv verifier_read_only stack i) schedule s in
  sd_result (ran_answer r) = ResultExecuted name args run ->
  authorized iv Q verifier_read_only stack i name args (cs_next s) (ran_world r).
Proof.
  intros HQ Hg Hs r Hrun. destruct (triple_run guarded _ schedule s _ Hs (invoke_triple guarded iv Q HQ verifier_read_only stack i s Hg)) as [_ H].
  exact (H name args run Hrun).
Qed.

(** C4. A child run cannot get past its parent. Take a child run whose parent has a
    permission checker and confirms through manager [m], whose policy stays enabled, and whose
    own provider, if any, is a manager or an auto-approver. When it executes a governed call,
    the parent's checker does not deny the call; and if the parent's checker asks about it,
    or the tool itself asks for confirmation and the child's checker does not, then the
    permission hook allowed the call, or the host of [m] has been sent exactly this call and
    a call that approves its id took exactly this request, made after the invocation began,
    whatever the child's own checker and provider say. *)
Theorem child_run_keeps_the_parents_gate (m identity : nat) (inheritance : option ConfirmationInheritance) (enforce : option bool)
    (child parent : GateConfig) (check : Checker) (iv : Invoker) (verifier_read_only : bool) (stack : list str) (i : ToolInvocation)
    (schedule : list (Moment Confirmations Signal)) (s : Confirmations) (name : str) (args : json) (run : ToolRun) :
  in_config iv = child_config identity inheritance enforce child parent ->
  gc_confirmation_manager parent = Some (manager_provider m) -> gc_permission_checker parent = Some check ->
  (forall P, gc_confirmation_manager child = Some P -> plain_provider m P) ->
  good (eq m) s -> obeys (rely (eq m)) schedule -> ~ trusted (inv_origin i) ->
  let r := play (invoke iv verifier_read_only stack i) schedule s in
  sd_result (ran_answer r) = ResultExecuted name args run ->
  check name args <> Deny /\
  (check name args = Ask \/ (in_requires_confirmation iv name args = true /\ (fun c : Checker => c name args) <$> gc_permission_checker child <> Some Ask) ->
   permission_hook_allows iv (inv_id i) name args \/
   exists c, (cs_next s <= c)%nat /\ endorsed m (ran_world r) (inv_id i) name args c /\ announced m (ran_world r) (inv_id i) name args).
Proof.
  intros Hconf Hparent Hcheck Hchild Hg Hs Ht r Hrun.
  pose proof (child_endorses m identity inheritance enforce child parent Hparent Hchild) as HQ. rewrite <- Hconf in HQ.
  destruct (triple_run (eq m) _ schedule s _ Hs (invoke_triple (eq m) iv _ HQ verifier_read_only stack i s Hg)) as [_ H].
  destruct (au_gate _ _ _ _ _ _ _ _ _ (H name args run Hrun)) as [?|(_ & Hperm & Hwhy)]; [done|]. rewrite Hconf in Hperm, Hwhy.
  split; [by eapply composed_not_denied|]. intros Hask. destruct Hwhy as [[Hallow Hreq]|[Hhook|[_ Hsays]]]; [|by left|right].
  - rewrite Hconf in Hallow. apply (composed_allows _ _ _ _ _ _ Hcheck) in Hallow. destruct Hask as [?|[? _]]; congruence.
  - apply (parent_says m parent Hparent). destruct Hsays as (_ & _ & _ & Htheirs & _ & Hnone). destruct Hask as [Hask|[_ Hmine]].
    + apply Htheirs. rewrite Hcheck. cbn. by rewrite Hask.
    + destruct (check name args) eqn:E; [apply Hnone; [done|by rewrite Hcheck; cbn; rewrite E|right; by rewrite Hcheck]| |apply Htheirs; rewrite Hcheck; cbn; by rewrite E].
      exfalso. eapply composed_not_denied; [exact Hcheck|exact Hperm|exact E].
Qed.

(** Every invocation ends in one terminal state that fits its result. With debug
    assertions on, no assertion about the lifecycle fails whatever happens: a refused call
    ends in a terminal state that is not completed, an executed one in one that is not
    rejected and, when the tool failed, not completed; an invocation that has not ended
    stands where it stopped. *)
Theorem invocation_settles (iv : Invoker) (verifier_read_only : bool) (stack : list str) (i : ToolInvocation)
    (schedule : list (Moment Confirmations Signal)) (s : Confirmations) : in_debug_assertions iv = true ->
  exists start, settled_in (Some start) (ran_answer (play (invoke iv verifier_read_only stack i) schedule s)).
Proof. intros Hdebug. apply (always_run (invoke iv verifier_read_only stack i)). by apply invoke_settles. Qed.

(** C19. A call that nothing stands against runs. When the name is canonical after two
    stripped prefixes, the recursion guard, the verifier's check and the arguments pass, the
    hook does not deny the call, its evidence can be bound, the budget is not exhausted, and
    the origin is trusted or the call is allowed outright by skills and permissions, then
    without cancellation the tool runs, under the hook's arguments, whatever the other tasks
    do. *)
Theorem permitted_call_runs (iv : Invoker) (verifier_read_only : bool) (stack stack' : list str) (i : ToolInvocation)
    (schedule : list (Moment Confirmations Signal)) (s : Confirmations) (once name : str) :
  canonical_tool_name (inv_name i) = Ok once -> canonical_tool_name once = Ok name -> enter_tool_invocation stack once = inr stack' ->
  (verifier_read_only = true -> nested_call_allowed once (inv_args i) (in_read_only iv once (inv_args i)) = Ok true) ->
  in_validate iv once (inv_args i) = None ->
  let hook := pre_tool_decision iv name (inv_args i) (inv_recent_tools i) in
  let args := default (inv_args i) (pt_updated_args hook) in
  pt_denial hook = None -> (is_Some (pt_updated_args hook) -> in_validate iv name args = None) ->
  in_bind_request iv (with_args args (with_name name i)) = None -> within_budget iv name ->
  trusted (inv_origin i) \/ (check_skill_restrictions (in_config iv) name = None /\ allowed_outright iv name args) ->
  undisturbed schedule ->
  sd_result (ran_answer (play (invoke iv verifier_read_only stack i) schedule s)) = ResultExecuted name args (in_execute iv name args).
Proof.
  intros H1 H2 H3 H4 H5 hook args Hden Hup Hbind Hb Hgate Hs. apply (calmly_run _ (fun x => sd_result x = ResultExecuted name args (in_execute iv name args))); [done|].
  unfold invoke. rewrite H1, H3. cbn [inv_args with_name]. replace (if verifier_read_only then _ else _) with (Ok true) by (destruct verifier_read_only; [by rewrite H4|done]).
  rewrite H5. eapply calmly_then; [apply calmly_select|].
  - unfold decide_gate. cbn [inv_name with_name]. rewrite H2. eapply calmly_then; [by apply (decide_calmly iv (with_name name (with_name once i)))|].
    intros x Hx. instantiate (1 := fun r => exists reason, r = Ok (with_args args (with_name name i), inr (GateExecute reason))). cbn. naive_solver.
  - intros o (r & -> & reason & ->). by apply (execute_calmly iv (with_args args (with_name name i))).
Qed.
