(* ===== verification/ToolGateScenario.v ===== *)
(** Concrete invocations: the witnesses of the properties of human confirmation and of the
    gate, and runs that show where the gate and its descriptions part. *)
From stdpp Require Import gmap relations.
From S2P Require Import Prelude Text PermissionRule PermissionPolicy Verification Programs Hooks Confirmation ConfirmationFacts ConfirmationDelegation ToolGate ToolGateFacts.

(** ** Parts *)
Definition always_says (d : PermissionDecision) : Checker := fun _ _ => d.
Definition plain_config (d : PermissionDecision) (provider : option Provider) : GateConfig := mkGateConfig false None (Some (always_says d)) provider.
Definition ls_args : json := JObject [($"command", JString $"ls")].
Definition rm_args : json := JObject [($"command", JString $"rm -r x")].
Definition listing : ToolRun := mkToolRun $"x" false.
Definition invoker (config : GateConfig) (hooks : option HookEngine) (requires debug : bool) : Invoker :=
  mkInvoker config $"session" hooks (fun _ _ => None) (fun _ _ => requires) (fun _ _ => false) (fun _ => None) None (fun _ _ => listing) debug.
Definition bash_call : ToolInvocation := mkInvocation $"call-1" $"functions.bash" ls_args OriginAgent [].
(** Manager 0 is enabled and no request has been made. *)
Definition started : Confirmations := set_confirmation_policy 0 enabled_confirmation (no_confirmations 0).
Lemma started_good : good (eq 0%nat) started.
Proof.
  split; [|by intros m <-]. apply (api_ok (fun _ => True) (no_confirmations 0)); [by constructor|apply no_confirmations_ok].
Qed.
(** The host answers call-1 before a step: it takes the request, and sends event and response. *)
Definition deliver_answer (c : nat) (s : Confirmations) : Confirmations := match verdict s c with Some r => send_response c r s | None => s end.
Definition answer_call (m : nat) (approved : bool) (s : Confirmations) : Confirmations :=
  match take_pending m $"call-1" (mkResponse approved None) s with
  | (Some c, s) => deliver_answer c (broadcast m (ConfirmationReceived $"call-1" approved None) s)
  | (None, s) => s
  end.
Lemma answer_rely guarded m approved s : rtc (api guarded) s (answer_call m approved s).
Proof.
  unfold answer_call. pose proof (api_take guarded m $"call-1" (mkResponse approved None) s) as H.
  destruct (take_pending m $"call-1" (mkResponse approved None) s) as [[c|] s1]; cbn [snd] in H; [|by apply rtc_once].
  eapply rtc_l; [exact H|]. eapply rtc_l; [apply api_broadcast|]. unfold deliver_answer. destruct (verdict _ c) eqn:E; [|apply rtc_refl].
  by apply rtc_once, api_send.
Qed.
Definition host_approves : Moment Confirmations Signal := mkMoment (answer_call 0 true) Undisturbed.
Definition after (n : nat) : list (Moment Confirmations Signal) := repeat calm n ++ [host_approves].
Lemma after_obeys n : obeys (rely (eq 0%nat)) (after n).
Proof.
  induction n as [|n IH]; (constructor; [|try exact IH; constructor]); intros s; [apply answer_rely|apply rtc_refl].
Qed.

(** ** Witnesses *)
Definition asking : Invoker := invoker (plain_config Ask (Some (manager_provider 0))) None false true.
Definition one_run (n : nat) : Ran Confirmations Settled := play (invoke asking false [] bash_call) (after n) started.
Lemma executed_call_is_authorized_witness :
  sd_result (ran_answer (one_run 5)) = ResultExecuted $"bash" ls_args listing /\
  authorized asking (host_says (eq 0%nat) 0) false [] bash_call $"bash" ls_args 0 (ran_world (one_run 5)).
Proof.
  split; [reflexivity|].
  apply (executed_call_is_authorized (eq 0%nat) asking (host_says (eq 0%nat) 0) false [] bash_call (after 5) started $"bash" ls_args listing).
  - intros P [= <-]. apply manager_endorses.
  - exact started_good.
  - apply after_obeys.
  - reflexivity.
Defined.

(** The child's checker allows everything and its provider approves everything. *)
Definition lax_child : GateConfig := plain_config Allow (Some (auto_approve 5)).
Definition strict_parent : GateConfig := plain_config Ask (Some (manager_provider 0)).
Definition child_invoker : Invoker := invoker (child_config 7 (Some AutoApprove) None lax_child strict_parent) None false true.
Definition child_run (n : nat) : Ran Confirmations Settled := play (invoke child_invoker false [] bash_call) (after n) started.
Lemma child_run_keeps_the_parents_gate_witness :
  sd_result (ran_answer (child_run 8)) = ResultExecuted $"bash" ls_args listing /\
  exists c, (0 <= c)%nat /\ endorsed 0 (ran_world (child_run 8)) $"call-1" $"bash" ls_args c /\ announced 0 (ran_world (child_run 8)) $"call-1" $"bash" ls_args.
Proof.
  split; [reflexivity|].
  destruct (child_run_keeps_the_parents_gate 0 7 (Some AutoApprove) None lax_child strict_parent (always_says Ask) child_invoker false [] bash_call
              (after 8) started $"bash" ls_args listing) as [_ H].
  - reflexivity.
  - reflexivity.
  - reflexivity.
  - intros P [= <-]. left. by exists 5%nat.
  - exact started_good.
  - apply after_obeys.
  - intros [H|[H|H]]; discriminate.
  - reflexivity.
  - destruct H as [(he & H & _)|H]; [left; reflexivity|discriminate|exact H].
Defined.

Lemma invocation_settles_witness : exists start, settled_in (Some start) (ran_answer (one_run 5)).
Proof. apply (invocation_settles asking false [] bash_call (after 5) started). reflexivity. Defined.

Definition allowing : Invoker := invoker (plain_config Allow None) None false true.
Lemma permitted_call_runs_witness :
  sd_result (ran_answer (play (invoke allowing false [] bash_call) [host_approves] started)) = ResultExecuted $"bash" ls_args listing.
Proof.
  apply (permitted_call_runs allowing false [] [$"bash"] bash_call [host_approves] started $"bash" $"bash"); try reflexivity.
  - intros guard resource reason H. discriminate.
  - right. split; [reflexivity|]. split; reflexivity.
  - constructor; [reflexivity|constructor].
Defined.

(** Two requests, one approved and not yet told, then told; then a reuse of the pending id. *)
Definition ask_host (m : nat) (tool : str) (args : json) (s : Confirmations) : Confirmations := snd (enter m $"call-1" tool args 5 s).
Definition two_requests : Confirmations := snd (take_pending 0 $"call-1" (mkResponse true None) (ask_host 1 $"write" ls_args (ask_host 0 $"bash" ls_args (no_confirmations 0)))).
Definition collided : Confirmations := ask_host 1 $"bash" rm_args (send_response 0 (mkResponse true None) two_requests).
(** An approval can overtake the event that shows the request: the call runs, and the host
    hears that it was approved before it hears that it was asked. *)
Lemma approval_overtakes_the_event :
  sd_result (ran_answer (one_run 4)) = ResultExecuted $"bash" ls_args listing /\
  cm_events (manager 0 (ran_world (one_run 4))) =
    [ConfirmationReceived $"call-1" true None; ConfirmationRequired $"call-1" $"bash" ls_args 30000].
Proof. split; reflexivity. Qed.

(** ** Where the gate and its descriptions part *)
(** A tool that asks for confirmation runs in a child unasked, when the child's checker asks
    too and its provider approves everything: no request reaches the parent. *)
Definition asking_child : GateConfig := plain_config Ask (Some (auto_approve 5)).
Definition allowing_parent : GateConfig := plain_config Allow (Some (manager_provider 0)).
Lemma child_waives_a_tools_escalation :
  let r := play (invoke (invoker (child_config 7 (Some AutoApprove) None asking_child allowing_parent) None true true) false [] bash_call) [] started in
  sd_result (ran_answer r) = ResultExecuted $"bash" ls_args listing /\ cs_next (ran_world r) = 0%nat.
Proof. split; reflexivity. Qed.
(** A name with two prefixes passes the guard against recursion and runs as [batch]. *)
Lemma doubled_prefix_recurses :
  enter_tool_invocation [$"batch"] $"batch" = inl $"recursive batch calls are not allowed" /\
  sd_result (ran_answer (play (invoke (invoker (plain_config Allow None) None false true) false [$"batch"]
    (mkInvocation $"call-1" $"functions.functions.batch" ls_args OriginNested [])) [] started)) = ResultExecuted $"batch" ls_args listing.
Proof. split; reflexivity. Qed.
(** In a verifier turn a call whose arguments the pre-tool hook rewrites is not looked at
    again. *)
Definition rewriting : HookEngine := mkHookEngine (fun _ _ _ _ => HookContinue (Some (JObject [($"args", rm_args)]))) (fun _ _ _ _ => HookSkip).
Lemma rewritten_call_escapes_the_verifier :
  nested_call_allowed $"bash" rm_args false = Ok false /\
  sd_result (ran_answer (play (invoke (invoker (plain_config Allow None) (Some rewriting) false true) true [] bash_call) [] started))
  = ResultExecuted $"bash" rm_args listing.
Proof. split; vm_compute; reflexivity. Qed.
(** A manager that is not enabled still asks: the call waits for an answer. *)
Lemma disabled_manager_still_asks :
  let r := play (invoke asking false [] bash_call) [] (no_confirmations 0) in
  cp_enabled (cm_policy (manager 0 (no_confirmations 0))) = false /\
  sd_result (ran_answer r) = ResultWaiting /\ cs_next (ran_world r) = 1%nat.
Proof. split_and!; reflexivity. Qed.
(** A delegation settles a request of the parent that it did not open: it keeps an id that
    the parent's host has already settled, and the parent asks under the same id again. *)
Definition forwarding : Provider := delegated 7 (Some (always_says Allow)) None (Some (always_says Ask)) (Some (manager_provider 0)).
Definition forwarded_once : Confirmations := ran_world (play (pv_request_confirmation forwarding $"call-1" $"bash" ls_args) [] started).
Definition parents_own : Confirmations :=
  ask_host 0 $"bash" rm_args (answer_call 0 false forwarded_once).
Lemma delegation_settles_a_later_request :
  let r := play (pv_confirm forwarding $"call-1" true None) [] parents_own in
  cs_answers parents_own !! 1%nat = None /\ ran_answer r = true /\ cs_answers (ran_world r) !! 1%nat = Some (mkResponse true None).
Proof. split_and!; reflexivity. Qed.
